(* ===== verification/_CoqProject ===== *)
-Q . S2P
Prelude.v
Types.v
SmallFloat.v
OffsetAlloc.v
OffsetBins.v
OffsetBinOps.v
OffsetMain.v
OffsetFree.v
OffsetOps.v
OffsetClient.v
OffsetProps.v
OffsetWrapper.v
OffsetWrapperProps.v
Double.v
Slab.v
SlabClass.v
SlabPool.v
SlabMemory.v
SlabInv.v
SlabOps.v
SlabRelease.v
SlabStart.v
SlabRace.v
SlabPoolInv.v
SlabPoolOps.v
SlabPoolRelease.v
SlabSys.v
SlabAdmin.v
SlabClient.v
BufAlloc.v
SlabBuffer.v
SlabProps.v
SlabFlaws.v
Segment.v
SegmentProofs.v
Strategy.v
Eviction.v
Master.v
MasterOwn.v
MasterWalk.v
MasterOps.v
MasterSegs.v
MasterEvict.v
MasterSys.v
MasterProps.v
StoreProps.v
StoreCachelib.v
Topology.v
TopologyProofs.v
TopologyJson.v
TopologyProps.v
Endpoint.v
EndpointStore.v
EndpointInv.v
EndpointSieve.v
EndpointFifo.v
EndpointProps.v
EndpointFlight.v
EndpointRuns.v
Transport.v
Handshake.v
Metadata.v
EndpointJoint.v
HandshakeProofs.v
TransportProofs.v
Worker.v
WorkerInv.v
WorkerSubmit.v
WorkerPost.v
WorkerPoll.v
WorkerSys.v
WorkerProps.v
Rdma.v
MetadataProps.v
RdmaMemory.v
RdmaMemoryProps.v
HandshakeProps.v
RdmaProps.v
