(* ===== verification/Prelude.v ===== *)
(** * Mooncake: a verification library

    Mooncake is a key-value store for inference caches.  Clients lend memory
    segments to the store; a master decides where objects live; the transfer
    engine moves the bytes.  This library models the master, everything the
    master decides with, and of the transfer engine the metadata, the device
    topology and the RDMA data path, from a request to the completion of its
    last slice, and proves them correct.

    ** The program and the files

    Paths are relative to src/Mooncake/mooncake-store unless they start with
    mooncake-transfer-engine.

    - Offset allocator, src/offset_allocator.cpp and
      include/offset_allocator/offset_allocator.hpp.  SmallFloat.v: the
      floating-point encoding of bin sizes.  OffsetAlloc.v: class
      [__Allocator], every operation over the arrays of the source.
      OffsetBins.v, OffsetBinOps.v: the bin lists, bit masks and free-node
      stack.  OffsetMain.v, OffsetFree.v, OffsetOps.v: the
      blocks in address order, and [allocate], [free], [reset] against the
      abstract allocator on blocks, with the storage reports.
      OffsetClient.v: any interleaving of calls by a client that frees what it
      was given.  OffsetWrapper.v: [OffsetAllocator] and its RAII handles.
      OffsetProps.v, OffsetWrapperProps.v: the properties.
    - Buffer allocators, src/allocator.cpp and include/allocator.h.
      BufAlloc.v: the class [BufferAllocator] and its laws are the contract of
      [BufferAllocatorBase]; the offset allocator is one instance, the slab
      allocator the other.  All of the master is proved against the class.
    - Slab allocator (adapted from CacheLib), src/cachelib_memory_allocator and
      include/cachelib_memory_allocator.  Slab.v: slabs, their headers and
      [SlabAllocator].  SlabClass.v: [AllocationClass], with each scope of its
      lock in [startSlabRelease] and [pruneFreeAllocs] a definition.
      SlabPool.v: [MemoryPool].  SlabMemory.v: [MemoryPoolManager] and
      [MemoryAllocator], with the generation of class sizes in doubles
      (Double.v).  SlabInv.v: addresses and the invariant of a
      class, which places every chunk of every slab in exactly one of the free
      list, the uncarved rest, a release map or a client.  SlabOps.v,
      SlabRelease.v, SlabStart.v: its operations.  SlabRace.v: a
      release interleaved with clients.  SlabPoolInv.v, SlabPoolOps.v,
      SlabPoolRelease.v: pools.  SlabSys.v, SlabAdmin.v: the memory allocator.
      SlabClient.v: any sequence of calls.
      SlabBuffer.v: [CachelibBufferAllocator] and [SimpleAllocator] of
      src/allocator.cpp.  SlabProps.v, SlabFlaws.v: the properties.
      StoreCachelib.v: segments and a master on this allocator.
    - Segments, src/segment.cpp and include/segment.h.  Segment.v: the
      containers of [SegmentManager] and its operations, allocators as objects
      that live on a heap while a container refers to them.  SegmentProofs.v:
      the invariant and what each operation does.
    - Allocation strategy, include/allocation_strategy.h: Strategy.v.
    - Eviction strategies, include/eviction_strategy.h: Eviction.v, with list
      iterators as node identities.
    - Types, include/types.h and src/types.cpp: Types.v.
    - Master service, src/master_service.cpp and include/master_service.h, with
      the gauges of src/master_metric_manager.cpp.  Master.v: the operations
      and one round of each background thread.  MasterOwn.v: ownership of
      buffers.  MasterWalk.v: single-key steps and walks over
      shards.  MasterOps.v, MasterSegs.v, MasterEvict.v: requests, segments and
      clients, eviction and garbage collection.  MasterSys.v: any sequence of
      requests and rounds.  MasterProps.v: the properties.
      StoreProps.v: the properties of segments and strategies.
    - Topology, mooncake-transfer-engine/src/topology.cpp and
      include/topology.h.  Topology.v: the matrix, its resolution, selection,
      JSON form and discovery.  TopologyProofs.v: the invariant of resolution.
      TopologyJson.v: a model of the JSON interface.  TopologyProps.v: the
      properties.
    - RDMA endpoints and the caches of them, mooncake-transfer-engine:
      rdma_endpoint.cpp, endpoint_store.cpp and [RdmaContext::endpoint] of
      rdma_context.cpp under src/transport/rdma_transport, with their headers.
      Endpoint.v: class [RdmaEndPoint] on a heap of endpoints.
      EndpointStore.v: [FIFOEndpointStore] and [SIEVEEndpointStore].
      EndpointInv.v: operations on good endpoints, and the invariant the
      stores share.  EndpointSieve.v: the
      walk of the hand and the SIEVE operations.  EndpointFifo.v: the FIFO
      operations.  EndpointProps.v: the properties of the stores.
      EndpointFlight.v, EndpointRuns.v: requests in flight and their counters,
      with the counter updates of [WorkerPool::performPollCq].
      EndpointJoint.v: the store and the counters together.  Handshake.v: the
      handshake of [RdmaEndPoint]; HandshakeProofs.v: what it does to endpoints.
    - Slices, tasks and batches, mooncake-transfer-engine:
      include/transport/transport.h and src/transport/transport.cpp.
      Transport.v: the heap of slices, tasks and batches, the segment
      descriptions and the choice of a device.  TransportProofs.v: what may
      happen to slices and tasks, and the per-thread ring of slices.
    - Worker pool, src/transport/rdma_transport/worker_pool.cpp.  Worker.v:
      class [WorkerPool] with the context it serves.  WorkerInv.v: queues of
      slices, selection, where slices are.  WorkerSubmit.v,
      WorkerPost.v, WorkerPoll.v: submission, posting, completion.
      WorkerSys.v: the calls of any number of threads, cut at the points where
      the source takes and releases locks, in any order.  WorkerProps.v: the
      properties.
    - Transfer metadata, src/transfer_metadata.cpp and its header, with the
      parsing of host names of include/common.h.  Metadata.v: JSON forms, the
      cache of segments, the calls.  MetadataProps.v: reading back what was
      written, and the properties.
    - RDMA transport, src/transport/rdma_transport/rdma_transport.cpp and
      rdma_context.cpp, and src/multi_transport.cpp.  Rdma.v: cutting requests,
      submission, status, [MultiTransport], connections other servers ask for.
      RdmaMemory.v: installation, numbering of devices, memory registration.
      RdmaProps.v, RdmaMemoryProps.v, HandshakeProps.v: the properties.

    ** How code becomes definitions

    An operation that reads and writes the members of an object is a program
    of the state monad [ST] below; [None] is undefined behaviour of the source
    (an access outside an array, a stale iterator, a division by zero, a
    [double] converted to an integer type that cannot hold it) or a
    debug assertion of the slab allocator that fails.  Error codes and thrown
    exceptions are values.  Integers are [Z] with the wrap of their width written
    out ([u32], [u64], [s32]).  Arrays are lists indexed by [Z]; pointers into
    an array are indices; [std::list] nodes and shared objects have identities.
    [unordered_map] is [gmap] with the order of iteration as a parameter [iter]
    of which only [iter m ≡ₚ map_to_list m] is assumed.  Clocks, random
    numbers, hashes, regular expressions, allocation failures of queues, the
    JSON library and the RDMA verbs are arguments.

    ** What is proved

    - Offset allocator: [allocator_refines] (the concrete arrays refine the
      abstract block list), [allocator_safe] (no undefined behaviour),
      [live_regions_disjoint], [allocate_complete] (a request fails only when
      no bin at or above its own has a block), [drained_allocates],
      [free_storage_exact], the reports, the encoding of sizes and the search
      for a bin.  The wrapper: disjoint byte ranges, exact metrics, and the
      requests near 2^64 its arithmetic lets through.
    - Slab allocator: [slab_calls_safe] (live allocations are disjoint, no call
      fails or loops), [slab_allocate_exact] (which class, and exactly when an
      allocation fails), [release_race_safe], [slab_release_exact],
      [slab_release_drains], [generated_sizes_typed], [cachelib_create_exact],
      [cachelib_buffers_exact] (it keeps the contract of buffer allocators, so
      every theorem on the master holds over it) and [cachelib_mount_exact].
      SlabFlaws.v has what callers do not expect: [aborted_start_loses_slab],
      [bad_receiver_loses_slab], [pool_exceeds_limit], [full_pool_never_frees],
      [simple_allocate_truncates].
    - Master: [master_safe] (no request or round is undefined, but for the two
      cases it names: a [PutStart] with two or more allocators whose search
      falls into the random strategy, see [random_search_undefined], and a
      round of the eviction thread whose quota is no [long]),
      [store_buffers_disjoint], [store_accounting] for
      every reachable state; [put_roundtrip], [put_never_overwrites],
      [put_failure_leaks_nothing], [read_holds_object], [lease_protects],
      [remove_exact], [bulk_removal_exact], [evict_respects_leases],
      [unmount_leaves_no_stale] for the operations; two behaviours that are
      surprising rather than intended, [put_over_stale_is_lost] and
      [remove_all_drops_uploads].
    - Segments and strategies: [segments_consistent], [mount_unmount_restores],
      [strategy_allocates], [random_search_undefined], [lru_refines],
      [fifo_refines].
    - Topology: [selection_safe], [selection_follows_matrix],
      [resolve_mirrors], [parse_toString_roundtrip],
      [parse_failure_keeps_selection], [disabled_device_gone],
      [discovery_prefers_nearest].
    - Endpoint stores: [sieve_store_safe], [sieve_evicts_first_unvisited],
      [reclaim_exact], [fifo_store_refines] under any interleaving of requests
      with changes by other threads; [sieve_single_slot_dangles],
      [fifo_evicted_stays], [zero_capacity_loops] and
      [construct_failure_crashes] for what goes wrong at the edges.
    - Endpoints: [requests_accounted] (counters equal the requests in flight and
      respect their limits, under any sequence of events),
      [late_poll_goes_negative] (a poll that lowers them after another thread
      has reset the connection), [submit_conserves],
      [handshake_pairs] (the whole exchange, from the description of the active
      side over JSON and the daemon of the passive side to both endpoints
      connected), [refusal_reason_lost].
    - Worker pool: [pool_conserves] (no call is undefined; no slice is lost,
      duplicated or finished twice), [slices_in_one_place], [idle_exact] (the
      workers sleep exactly when nothing is left to do, but for slices whose
      connection was reset), [task_status_exact].  The functions of the source
      are runs of the steps: [submit_run], [post_run], [poll_run] of
      WorkerSys.v.
    - Metadata: [metadata_consistent], [segment_roundtrip],
      [published_segment_usable] (what one server publishes another can use),
      [metadata_keys_collide].
    - RDMA transport: [request_tiled] (requests are cut into slices that tile
      them), [slice_cache_queue], [devices_numbered], [registered_keys_valid]
      (the keys published are those of regions that are exactly the buffers);
      [refused_request_completed], [refused_request_waits],
      [long_buffer_uncovered], [overlap_wrong_key], [duplicate_device_stays] for
      what they do not promise.

    ** Bounds and fuel

    Loops that walk a structure are structural.  [countBin] walks a bin's list
    with the number of nodes as fuel, which [storageReportFull_counts] shows to
    be enough; [multiplier_loop] has 64 steps, enough for a 64-bit size; the
    search of the random strategy makes at most as many attempts as the source.
    The walk of the SIEVE hand has as much fuel as the list has nodes, enough
    because each step takes a mark away; making room in a store has as much as
    the store has endpoints; pruning a free list has as many batches as the
    list has chunks, and one more.  Running out counts as undefined behaviour,
    which the safety theorems exclude.  The search for a device makes the
    attempts the configuration allows; a request is cut in at most
    length / slice size + 1 rounds; the walk over completion queues has as many
    steps as there are queues; unregistering memory takes at most one round per
    region.  [generateAllocSizes] has as much fuel as there may be classes, and
    [nextSize] as much as a slab has bytes; running out is an answer of its
    own ([NoFuel]), which [generated_sizes_typed] excludes for every [double].

    The calls of SlabClient.v are those of a client that frees what it holds,
    completes or aborts the releases it started and names receivers that exist.
    Its pools have at most 127 classes, its releases are never stopped by
    [shouldAbortFn], and the memory ends below 2^64; SlabFlaws.v
    shows what happens otherwise.

    The worker pool is proved for descriptions that have a device for every
    name of their topology and keys for every device ([DescOk]);
    [published_segment_usable] and [registered_keys_valid] show that what
    servers publish is of that kind.  Stores have room for two endpoints, queue
    pairs can be created (the theorems on endpoints and on the pool assume it;
    [construct_failure_crashes] and [sieve_single_slot_dangles] show why);
    completions are of requests in flight.  JSON is the class [JsonLib] with the laws of
    [JsonLaws] and [JsonValueLaws], which TopologyJson.v and MetadataProps.v
    show to have a model.  [request_tiled] is for requests of fewer slices than
    the submission watermark, where the slices are handed over at the end;
    [registered_keys_valid] is for memory that is registered once, in pieces no
    longer than the device takes; [devices_numbered] is for topologies that
    name no device twice in a list.

    ** What is not modelled

    Locks: an operation of the master is one step, as it holds the lock of the
    shard it works on; the phases of an unmount, between which locks are
    released, are separate steps.  A call of the slab allocator is one step in
    SlabClient.v; SlabRace.v splits the start of a release at its locks.  In
    WorkerSys.v the shards of a submission and of a posting round are separate
    steps; sending what a thread has collected is one step, and so is
    polling with the outcomes of the slices and the counters of the
    connections, while the count of processed slices is raised in a later step
    of its own ([Tally]).
    A disconnection between the poll of a queue and the
    lowering of its counters is left out there; [late_poll_goes_negative] shows
    what it does.  The
    thread that locks slab memory, the throttling of scans and the statistics
    of the slab allocator.  The store client, RPC layer, Python bindings,
    file and etcd back ends, transfer tasks: input and output around the
    operations modelled.  The storage of metadata (etcd, redis, HTTP), the
    sockets of the handshake, the facade [TransferEngine], the opening of
    devices, the registration of several buffers in threads, the clean-up of a
    context, and the transports other than RDMA: they call drivers and the
    network.  The CUDA kernels of mooncake-ep.  Logging and metrics text.

    This file itself holds what all others share: machine integers, C arrays,
    the state monad, doubly linked segments. *)

From Stdlib Require Import ZArith Lia.
From stdpp Require Import base list gmap numbers.

#[export] Set Warnings "-clear-no-such-hyp".

Declare Scope moon_scope.
Delimit Scope moon_scope with moon.
Open Scope Z_scope.

Create HintDb moon.
Create Rewrite HintDb moon.

(** ** Machine-width unsigned integers: a [w]-bit value is a [Z] and every
    operation that can leave the range is followed by an explicit wrap. *)

Definition u8 (x : Z) : Z := x mod 2 ^ 8.
Definition u32 (x : Z) : Z := x mod 2 ^ 32.
Definition u64 (x : Z) : Z := x mod 2 ^ 64.

Lemma u32_small x : 0 <= x < 2 ^ 32 -> u32 x = x.
Proof. intros; apply Z.mod_small; lia. Qed.

Lemma u64_small x : 0 <= x < 2 ^ 64 -> u64 x = x.
Proof. intros; apply Z.mod_small; lia. Qed.

Lemma u32_range x : 0 <= u32 x < 2 ^ 32.
Proof. apply Z.mod_pos_bound; lia. Qed.

Lemma u64_range x : 0 <= u64 x < 2 ^ 64.
Proof. apply Z.mod_pos_bound; lia. Qed.

Lemma u8_range x : 0 <= u8 x < 2 ^ 8.
Proof. apply Z.mod_pos_bound; lia. Qed.

#[export] Hint Rewrite u32_small u64_small using lia : moon.

(** Unfolds a wrap whose argument [lia] can bound. *)
Ltac nowrap := autorewrite with moon in *.

(** Splits the goal on the innermost [match]/[if] scrutinee, keeping the equation. *)
Ltac split_match :=
  match goal with
  | |- context [match ?e with _ => _ end] =>
      lazymatch e with context [match _ with _ => _ end] => fail | _ => destruct e eqn:? end
  end.

(** Turns boolean comparisons on [Z] in the context into propositions. *)
Ltac zbool :=
  repeat match goal with
  | H : (_ =? _) = true |- _ => apply Z.eqb_eq in H
  | H : (_ =? _) = false |- _ => apply Z.eqb_neq in H
  | H : (_ <? _) = true |- _ => apply Z.ltb_lt in H
  | H : (_ <? _) = false |- _ => apply Z.ltb_ge in H
  | H : (_ <=? _) = true |- _ => apply Z.leb_le in H
  | H : (_ <=? _) = false |- _ => apply Z.leb_gt in H
  | H : (_ >? _) = true |- _ => rewrite Z.gtb_ltb in H; apply Z.ltb_lt in H
  | H : (_ >? _) = false |- _ => rewrite Z.gtb_ltb in H; apply Z.ltb_ge in H
  | H : negb _ = true |- _ => apply negb_true_iff in H
  | H : negb _ = false |- _ => apply negb_false_iff in H
  end.

(** Membership in an explicit concatenation. *)
Ltac in_list := rewrite ?elem_of_app, ?elem_of_cons in *; naive_solver.

(** ** Lists *)

(** Two positions of a list, brought to the front. *)
Lemma two_front {X} (l : list X) i j x y : i <> j -> l !! i = Some x -> l !! j = Some y ->
  exists rest, l ≡ₚ x :: y :: rest.
Proof.
  intros Hij Hx Hy. pose proof (delete_Permutation l i x Hx) as HP.
  assert (Hin : y ∈ delete i l).
  { destruct (decide (j < i)%nat).
    - apply (list_elem_of_lookup_2 _ j). by rewrite list_lookup_delete_lt.
    - apply (list_elem_of_lookup_2 _ (j - 1)). rewrite list_lookup_delete_ge by lia. by replace (S (j - 1)) with j by lia. }
  apply elem_of_Permutation in Hin as [rest HP']. exists rest. by rewrite HP, HP'.
Qed.

Lemma filter_all {A} (P : A -> Prop) `{forall x, Decision (P x)} (l : list A) : (forall x, x ∈ l -> P x) -> filter P l = l.
Proof.
  induction l as [|y l IH]; intros Hl; [done|]. rewrite filter_cons_True by (apply Hl; by left).
  f_equal. apply IH. intros x Hx. apply Hl. by right.
Qed.

Lemma filter_none {A} (P : A -> Prop) `{forall x, Decision (P x)} (l : list A) : (forall x, x ∈ l -> ~ P x) -> filter P l = [].
Proof.
  induction l as [|y l IH]; intros Hl; [done|]. rewrite filter_cons_False by (apply Hl; by left).
  apply IH. intros x Hx. apply Hl. by right.
Qed.

Lemma sublist_filters {A} (P : A -> Prop) `{forall x, Decision (P x)} (l l' : list A) : sublist l' l -> sublist (filter P l') (filter P l).
Proof.
  induction 1 as [|x l' l _ IH|x l' l _ IH]; [done|..]; rewrite !filter_cons; case_decide; try done; by constructor.
Qed.

Lemma filter_iff_in {A} (P Q : A -> Prop) `{forall x, Decision (P x)} `{forall x, Decision (Q x)} (l : list A) :
  (forall x, x ∈ l -> P x <-> Q x) -> filter P l = filter Q l.
Proof.
  induction l as [|y l IH]; intros Hl; [done|]. rewrite !filter_cons, IH by (intros x Hx; apply Hl; by right).
  pose proof (Hl y ltac:(by left)). by repeat case_decide; try tauto.
Qed.

Lemma filter_absent {A} `{EqDecision A} (x : A) (l : list A) : x ∉ l -> filter (fun y => y <> x) l = l.
Proof. intros Hx. apply filter_all. by intros y Hy ->. Qed.

Lemma NoDup_fmap_elem_inj {A B} (f : A -> B) (l : list A) x y :
  NoDup (f <$> l) -> x ∈ l -> y ∈ l -> f x = f y -> x = y.
Proof.
  intros ND [i Hi]%list_elem_of_lookup [j Hj]%list_elem_of_lookup E.
  assert (i = j) as ->; [|congruence].
  apply (NoDup_lookup _ _ _ (f x) ND); rewrite list_lookup_fmap; [by rewrite Hi|by rewrite Hj, E].
Qed.

(** ** C arrays: a list indexed by a machine integer; [None] is an access
    outside the array, which is undefined behaviour in the source. *)

Definition aget {A} (l : list A) (i : Z) : option A :=
  if 0 <=? i then l !! Z.to_nat i else None.

Definition aput {A} (l : list A) (i : Z) (x : A) : list A := <[Z.to_nat i := x]> l.

Definition aset {A} (l : list A) (i : Z) (x : A) : option (list A) :=
  match aget l i with Some _ => Some (aput l i x) | None => None end.

Section arrays.
Context {A : Type}.
Implicit Types (l : list A) (i j : Z) (x : A).

Lemma aget_Some_range l i x : aget l i = Some x -> 0 <= i < Z.of_nat (length l).
Proof.
  unfold aget; destruct (Z.leb_spec 0 i); [|done].
  intros Hx%lookup_lt_Some; lia.
Qed.

Lemma aget_range l i : 0 <= i < Z.of_nat (length l) -> exists x, aget l i = Some x.
Proof.
  intros Hi; unfold aget; destruct (Z.leb_spec 0 i); [|lia].
  apply lookup_lt_is_Some; lia.
Qed.

Lemma aset_range l i x : 0 <= i < Z.of_nat (length l) -> aset l i x = Some (aput l i x).
Proof. intros Hi; unfold aset. by destruct (aget_range l i Hi) as [y ->]. Qed.

Lemma length_aput l i x : length (aput l i x) = length l.
Proof. apply length_insert. Qed.

Lemma aget_aput_eq l i x : 0 <= i < Z.of_nat (length l) -> aget (aput l i x) i = Some x.
Proof.
  intros Hi; unfold aget, aput; destruct (Z.leb_spec 0 i); [|lia].
  apply list_lookup_insert_eq; lia.
Qed.

Lemma aget_aput_ne l i j x : i <> j -> 0 <= i -> aget (aput l i x) j = aget l j.
Proof.
  intros Hij Hi; unfold aget, aput; destruct (Z.leb_spec 0 j); [|done].
  apply list_lookup_insert_ne; lia.
Qed.

Lemma aget_replicate n x i : 0 <= i < Z.of_nat n -> aget (replicate n x) i = Some x.
Proof.
  intros Hi; unfold aget; destruct (Z.leb_spec 0 i); [|lia].
  apply lookup_replicate_2; lia.
Qed.

(** Positions in appended arrays. *)

Lemma aget_app_l l k i x : aget l i = Some x -> aget (l ++ k) i = Some x.
Proof. unfold aget. destruct (0 <=? i); [|done]. apply lookup_app_l_Some. Qed.

Lemma aget_snoc l x : aget (l ++ [x]) (Z.of_nat (length l)) = Some x.
Proof.
  unfold aget. rewrite (proj2 (Z.leb_le 0 _)) by lia.
  by rewrite Nat2Z.id, lookup_app_r, Nat.sub_diag by lia.
Qed.

Lemma aget_snoc_inv l x i y :
  aget (l ++ [x]) i = Some y -> aget l i = Some y \/ i = Z.of_nat (length l) /\ y = x.
Proof.
  unfold aget. destruct (0 <=? i) eqn:Hi; [zbool|done].
  rewrite lookup_app_Some, list_lookup_singleton_Some. intros [?|(? & ? & ?)]; [by left|right].
  split; [lia|done].
Qed.

Lemma aget_elem l i x : aget l i = Some x -> x ∈ l.
Proof. unfold aget. destruct (0 <=? i); [apply list_elem_of_lookup_2|done]. Qed.

Lemma elem_aget l x : x ∈ l -> exists i, aget l i = Some x.
Proof.
  intros [i Hi]%list_elem_of_lookup. exists (Z.of_nat i). unfold aget.
  by rewrite (proj2 (Z.leb_le 0 _)), Nat2Z.id by lia.
Qed.

Lemma aget_inj l i j x : NoDup l -> aget l i = Some x -> aget l j = Some x -> i = j.
Proof.
  unfold aget. intros ND. destruct (0 <=? i) eqn:?, (0 <=? j) eqn:?; try done. intros Hi Hj.
  pose proof (NoDup_lookup _ _ _ _ ND Hi Hj). zbool. lia.
Qed.

Lemma aget_mod l i : l <> [] -> exists y, aget l (i mod Z.of_nat (length l)) = Some y.
Proof. intros Hl. apply aget_range, Z.mod_pos_bound. destruct l; [done|simpl; lia]. Qed.

Lemma aget_app l l' i : 0 <= i ->
  aget (l ++ l') i = if i <? Z.of_nat (length l) then aget l i else aget l' (i - Z.of_nat (length l)).
Proof.
  intros Hi. unfold aget. rewrite (proj2 (Z.leb_le 0 i)) by done.
  destruct (i <? Z.of_nat (length l)) eqn:E; zbool.
  - apply lookup_app_l. lia.
  - rewrite (proj2 (Z.leb_le 0 _)) by lia. rewrite lookup_app_r by lia. f_equal. lia.
Qed.

End arrays.

#[export] Hint Rewrite @length_aput : moon.

(** ** A state monad whose failure is undefined behaviour. *)

Definition ST (S A : Type) : Type := S -> option (A * S).

Definition ret {S A} (a : A) : ST S A := fun s => Some (a, s).
Definition bind {S A B} (c : ST S A) (k : A -> ST S B) : ST S B :=
  fun s => match c s with Some (a, s') => k a s' | None => None end.
Definition ub {S A} : ST S A := fun _ => None.
Definition lift {S A} (o : option A) : ST S A :=
  fun s => match o with Some a => Some (a, s) | None => None end.
Definition gets {S A} (f : S -> A) : ST S A := fun s => Some (f s, s).
Definition modify {S} (f : S -> S) : ST S unit := fun s => Some (tt, f s).
Definition when {S} (b : bool) (c : ST S unit) : ST S unit := if b then c else ret tt.

Notation "'let*' x ':=' c 'in' k" := (bind c (fun x => k))
  (at level 10, x name, c at level 100, k at level 200) : moon_scope.
Notation "'do*' c 'in' k" := (bind c (fun _ => k))
  (at level 10, c at level 100, k at level 200) : moon_scope.

Section monad.
Context {S A B : Type}.

Lemma bind_Some (c : ST S A) (k : A -> ST S B) s a s' :
  c s = Some (a, s') -> bind c k s = k a s'.
Proof. intros H; unfold bind; by rewrite H. Qed.

Lemma bind_ret (a : A) (k : A -> ST S B) s : bind (ret a) k s = k a s.
Proof. done. Qed.

Lemma bind_gets (f : S -> A) (k : A -> ST S B) s : bind (gets f) k s = k (f s) s.
Proof. done. Qed.

Lemma bind_modify (f : S -> S) (k : unit -> ST S B) s : bind (modify f) k s = k tt (f s).
Proof. done. Qed.

Lemma bind_lift (o : option A) (k : A -> ST S B) s a : o = Some a -> bind (lift o) k s = k a s.
Proof. by intros ->. Qed.

(** [runs c s Q]: from [s] the program [c] ends without undefined behaviour,
    with an answer and a state related by [Q]. *)
Definition runs (c : ST S A) (s : S) (Q : A -> S -> Prop) : Prop :=
  match c s with Some (a, s') => Q a s' | None => False end.

Lemma runs_mono (c : ST S A) s (Q Q' : A -> S -> Prop) :
  runs c s Q -> (forall a s', Q a s' -> Q' a s') -> runs c s Q'.
Proof. unfold runs. destruct (c s) as [[a s']|]; auto. Qed.

(** [settles R c s Q]: the same, but the program may meet undefined behaviour
    when [R] holds. *)
Definition settles (R : Prop) (c : ST S A) (s : S) (Q : A -> S -> Prop) : Prop :=
  match c s with Some (a, s') => Q a s' | None => R end.

Lemma settles_mono (R R' : Prop) (c : ST S A) s (Q Q' : A -> S -> Prop) :
  settles R c s Q -> (R -> R') -> (forall a s', Q a s' -> Q' a s') -> settles R' c s Q'.
Proof. unfold settles. destruct (c s) as [[a s']|]; auto. Qed.

Lemma settles_ok (R : Prop) (c : ST S A) s (Q : A -> S -> Prop) :
  (exists a s', c s = Some (a, s') /\ Q a s') -> settles R c s Q.
Proof. unfold settles. by intros (a & s' & -> & HQ). Qed.

Lemma settles_done (R : Prop) (c : ST S A) s (Q : A -> S -> Prop) a s' : settles R c s Q -> c s = Some (a, s') -> Q a s'.
Proof. unfold settles. by intros Hs E; rewrite E in Hs. Qed.

Lemma runs_ret (a : A) s (Q : A -> S -> Prop) : Q a s -> runs (ret a) s Q.
Proof. done. Qed.

Lemma runs_eq (c : ST S A) s a s' (Q : A -> S -> Prop) : c s = Some (a, s') -> Q a s' -> runs c s Q.
Proof. unfold runs. by intros ->. Qed.

Lemma runs_elim (c : ST S A) s (Q : A -> S -> Prop) :
  runs c s Q -> exists a s', c s = Some (a, s') /\ Q a s'.
Proof. unfold runs. destruct (c s) as [[a s']|]; [eauto|done]. Qed.

End monad.

Lemma runs_bind {S A B} (c : ST S A) (k : A -> ST S B) s (Q : B -> S -> Prop) :
  runs c s (fun a s' => runs (k a) s' Q) -> runs (bind c k) s Q.
Proof. unfold runs, bind. destruct (c s) as [[a s']|]; auto. Qed.

Lemma settles_bind {S A B} (R : Prop) (c : ST S A) (k : A -> ST S B) s (Q : B -> S -> Prop) :
  settles R c s (fun a s' => settles R (k a) s' Q) -> settles R (bind c k) s Q.
Proof. unfold settles, bind. destruct (c s) as [[a s']|]; auto. Qed.

Lemma runs_lift {S A B} (o : option A) (k : A -> ST S B) s a (Q : B -> S -> Prop) :
  o = Some a -> runs (k a) s Q -> runs (bind (lift o) k) s Q.
Proof. intros ->. auto. Qed.

Lemma runs_gets {S A B} (f : S -> A) (k : A -> ST S B) s (Q : B -> S -> Prop) :
  runs (k (f s)) s Q -> runs (bind (gets f) k) s Q.
Proof. done. Qed.

Lemma runs_modify {S B} (f : S -> S) (k : unit -> ST S B) s (Q : B -> S -> Prop) :
  runs (k tt) (f s) Q -> runs (bind (modify f) k) s Q.
Proof. done. Qed.

(** ** Doubly linked segments.  [dseg prv nxt p l q]: the nodes [l] are linked
    in order by [nxt], backwards by [prv]; [p] precedes the first, [q] follows
    the last. *)

Fixpoint dseg (prv nxt : Z -> Z) (p : Z) (l : list Z) (q : Z) : Prop :=
  match l with
  | [] => True
  | x :: l' => prv x = p /\ nxt x = hd q l' /\ dseg prv nxt x l' q
  end.

(** The last node of [l], or [p] when there is none. *)
Fixpoint lastd (p : Z) (l : list Z) : Z :=
  match l with [] => p | x :: l' => lastd x l' end.

(** Update of a total function at a point. *)
Definition upd {A} (f : Z -> A) (i : Z) (v : A) : Z -> A := fun j => if i =? j then v else f j.

(** Splits every index comparison left by point updates. *)
Ltac upd_cases :=
  unfold upd;
  repeat match goal with |- context [?x =? ?y] => destruct (Z.eqb_spec x y) end;
  simpl; try done; try congruence.

Section dseg.
Implicit Types (prv nxt : Z -> Z) (l : list Z) (p q x y : Z).

Lemma upd_eq {A} (f : Z -> A) i v : upd f i v i = v.
Proof. unfold upd; by rewrite Z.eqb_refl. Qed.

Lemma upd_ne {A} (f : Z -> A) i j v : i <> j -> upd f i v j = f j.
Proof. intros H; unfold upd; by rewrite (proj2 (Z.eqb_neq i j) H). Qed.

Lemma upd_proj {A B} (g : A -> B) (f : Z -> A) i v j :
  g (upd f i v j) = upd (fun k => g (f k)) i (g v) j.
Proof. unfold upd. by destruct (i =? j). Qed.

Lemma hd_app q l1 l2 : hd q (l1 ++ l2) = hd (hd q l2) l1.
Proof. by destruct l1. Qed.

Lemma lastd_app p l1 l2 : lastd p (l1 ++ l2) = lastd (lastd p l1) l2.
Proof. revert p; induction l1; simpl; auto. Qed.

Lemma lastd_elem p l : l <> [] -> lastd p l ∈ l.
Proof.
  revert p; induction l as [|x l IH]; intros p Hl; [done|]; simpl.
  destruct l as [|y l]; [left|right; by apply IH].
Qed.

Lemma hd_elem q l : l <> [] -> hd q l ∈ l.
Proof. destruct l; [done|left]. Qed.

Lemma dseg_ext prv nxt prv' nxt' p l q :
  (forall x, x ∈ l -> prv' x = prv x /\ nxt' x = nxt x) ->
  dseg prv nxt p l q -> dseg prv' nxt' p l q.
Proof.
  revert p; induction l as [|x l IH]; intros p Hx; [done|].
  simpl; intros (H1 & H2 & H3).
  destruct (Hx x) as [-> ->]; [left|].
  split_and!; [done..|]. apply IH; [|done]. intros y Hy; apply Hx; by right.
Qed.

Lemma dseg_app prv nxt p l1 l2 q :
  dseg prv nxt p (l1 ++ l2) q <->
  dseg prv nxt p l1 (hd q l2) /\ dseg prv nxt (lastd p l1) l2 q.
Proof.
  revert p; induction l1 as [|x l1 IH]; intros p; simpl; [tauto|].
  rewrite hd_app, IH; tauto.
Qed.

Lemma dseg_upd_prv_notin prv nxt x v p l q :
  x ∉ l -> dseg prv nxt p l q -> dseg (upd prv x v) nxt p l q.
Proof.
  intros Hx; apply dseg_ext; intros y Hy; split; [|done].
  apply upd_ne; by intros ->.
Qed.

Lemma dseg_upd_nxt_notin prv nxt x v p l q :
  x ∉ l -> dseg prv nxt p l q -> dseg prv (upd nxt x v) p l q.
Proof.
  intros Hx; apply dseg_ext; intros y Hy; split; [done|].
  apply upd_ne; by intros ->.
Qed.

(** Re-heading: only the back link of the first node depends on [p]. *)
Lemma dseg_upd_hd prv nxt p p' x l q :
  x ∉ l -> dseg prv nxt p (x :: l) q -> dseg (upd prv x p') nxt p' (x :: l) q.
Proof.
  simpl; intros Hx (_ & H2 & H3). rewrite upd_eq.
  split_and!; [done..|]. by apply dseg_upd_prv_notin.
Qed.

(** Re-tailing: only the forward link of the last node depends on [q]. *)
Lemma dseg_upd_last prv nxt p l q q' :
  l <> [] -> NoDup l -> dseg prv nxt p l q ->
  dseg prv (upd nxt (lastd p l) q') p l q'.
Proof.
  revert p; induction l as [|x l IH]; intros p Hl Hnd; [done|].
  apply list.NoDup_cons in Hnd as [Hx Hnd]. simpl; intros (H1 & H2 & H3).
  destruct l as [|y l]; simpl in *; [by rewrite upd_eq|].
  rewrite upd_ne.
  - split; [done|]. split; [done|]. by apply (IH x).
  - intros Heq. apply Hx. rewrite <- Heq. by apply (lastd_elem y (y :: l)).
Qed.

(** The back link of a node in the middle. *)
Lemma dseg_mid prv nxt p l1 x l2 q :
  dseg prv nxt p (l1 ++ x :: l2) q ->
  prv x = lastd p l1 /\ nxt x = hd q l2.
Proof. rewrite dseg_app; simpl; tauto. Qed.

(** Unlinking [x] from the middle of a list closed by [u] at both ends. *)
Lemma dseg_unlink prv nxt u l1 x l2 :
  NoDup (l1 ++ l2) -> NoDup (l1 ++ x :: l2) -> (forall j, j ∈ l1 ++ x :: l2 -> j <> u) ->
  dseg prv nxt u (l1 ++ x :: l2) u ->
  dseg (upd prv (hd u l2) (lastd u l1)) (upd nxt (lastd u l1) (hd u l2)) u (l1 ++ l2) u.
Proof.
  intros Hnd Hnd' Hu Hs. apply list.NoDup_app in Hnd as (N1 & Hdis & N2).
  apply dseg_app in Hs as [H1 (Hp & Hn & H2)]. simpl in *. apply dseg_app. split.
  - eapply (dseg_ext prv (upd nxt (lastd u l1) (hd u l2))).
    + intros j Hj. split; [|done]. apply upd_ne. intros E. destruct l2 as [|h l2]; simpl in E.
      * apply (Hu j); [set_solver|done].
      * apply (Hdis j); [done|]. rewrite <- E. left.
    + destruct l1 as [|h l1]; [done|]. by apply (dseg_upd_last _ _ _ (h :: l1) x).
  - apply dseg_upd_nxt_notin.
    { destruct l1 as [|h l1].
      - simpl. intros Hj. apply (Hu u); [set_solver|done].
      - apply Hdis. by apply (lastd_elem u (h :: l1)). }
    destruct l2 as [|h l2]; [done|]. apply (dseg_upd_hd _ _ x); [|done].
    by apply list.NoDup_cons in N2 as [? _].
Qed.

(** Linking [x] between two segments closed by [u] on the outside. *)
Lemma dseg_join prv nxt prv' nxt' u q1 q2 l1 x l2 :
  NoDup (l1 ++ x :: l2) -> (forall j, j ∈ l1 ++ x :: l2 -> j <> u) ->
  dseg prv nxt u l1 q1 -> dseg prv nxt q2 l2 u ->
  (forall j, j <> u -> prv' j = upd (upd prv x (lastd u l1)) (hd u l2) x j) ->
  (forall j, j <> u -> nxt' j = upd (upd nxt x (hd u l2)) (lastd u l1) x j) ->
  dseg prv' nxt' u (l1 ++ x :: l2) u.
Proof.
  intros Hnd Hu H1 H2 Hp Hn.
  assert (Hl2 : hd u l2 = u \/ hd u l2 ∈ l2) by (destruct l2; [by left|right; left]).
  assert (Hl1 : lastd u l1 = u \/ lastd u l1 ∈ l1)
    by (destruct l1; [by left|right; by apply (lastd_elem u (_ :: _))]).
  apply list.NoDup_app in Hnd as (N1 & Hdis & N2). apply list.NoDup_cons in N2 as [Hx2 N2].
  assert (Hx1 : x ∉ l1) by (intros Hin; apply (Hdis x Hin); left).
  apply (dseg_ext (upd (upd prv x (lastd u l1)) (hd u l2) x)
                  (upd (upd nxt x (hd u l2)) (lastd u l1) x)).
  { intros j Hj%Hu. by rewrite Hp, Hn. }
  assert (Hxu : x <> u) by (apply Hu; in_list).
  apply dseg_app. simpl hd. simpl dseg. split; [|split; [|split]].
  - apply dseg_upd_prv_notin.
    { destruct Hl2 as [->|Hl2]; [|by intros Hin; apply (Hdis _ Hin); right].
      intros Hin. apply (Hu u); [in_list|done]. }
    apply dseg_upd_prv_notin; [done|]. destruct l1 as [|h l1]; [done|].
    apply (dseg_upd_last _ _ _ (h :: l1) q1); [done..|]. by apply dseg_upd_nxt_notin.
  - rewrite upd_ne, upd_eq; [done|]. destruct Hl2 as [->|Hl2]; [by apply not_eq_sym|]. intros E. by rewrite E in Hl2.
  - rewrite upd_ne, upd_eq; [done|]. destruct Hl1 as [->|Hl1]; [by apply not_eq_sym|]. intros E. by rewrite E in Hl1.
  - apply dseg_upd_nxt_notin.
    { destruct Hl1 as [->|Hl1]; [|by intros Hin; apply (Hdis _ Hl1); right].
      intros Hin. apply (Hu u); [in_list|done]. }
    apply dseg_upd_nxt_notin; [done|]. destruct l2 as [|h l2]; [done|].
    apply (dseg_upd_hd _ _ q2); [by apply list.NoDup_cons in N2 as [? _]|].
    by apply dseg_upd_prv_notin.
Qed.

(** Every link out of a segment ends inside it or at its ends. *)
Lemma dseg_links prv nxt p l q x :
  dseg prv nxt p l q -> x ∈ l -> (prv x = p \/ prv x ∈ l) /\ (nxt x = q \/ nxt x ∈ l).
Proof.
  intros Hs (l1 & l2 & ->)%list_elem_of_split.
  destruct (dseg_mid _ _ _ _ _ _ _ Hs) as [-> ->]. split.
  - destruct l1 as [|y l1]; [by left|right].
    rewrite elem_of_app; left. by apply (lastd_elem p (y :: l1)).
  - destruct l2 as [|y l2]; [by left|right]. simpl. set_solver.
Qed.

End dseg.
