(* ===== verification/Types.v ===== *)
(** * Types: the data types of the store

    Models mooncake-store/include/types.h and src/types.cpp: error codes,
    statuses, buffers, replicas and their descriptors.  The RAII handle inside
    an [AllocatedBuffer] depends on the buffer allocator in use, so the types
    that hold buffers take its type [H] as a parameter.  A buffer's weak
    pointer to its allocator is the allocator's identity [buf_allocator];
    whether it has expired is a question to the segment manager. *)

From Stdlib Require Import ZArith Lia.
From stdpp Require Import base list strings countable.
From S2P Require Import Prelude.

Module Types.
Open Scope Z_scope.

Definition ObjectKey : Type := string.
Definition UUID : Type := Z * Z.

(** ** Error codes *)

Inductive ErrorCode : Type :=
  | OK | INTERNAL_ERROR | BUFFER_OVERFLOW
  | SHARD_INDEX_OUT_OF_RANGE | SEGMENT_NOT_FOUND | SEGMENT_ALREADY_EXISTS
  | NO_AVAILABLE_HANDLE | INVALID_VERSION | INVALID_KEY | WRITE_FAIL | INVALID_PARAMS
  | INVALID_WRITE | INVALID_READ | INVALID_REPLICA | REPLICA_IS_NOT_READY
  | OBJECT_NOT_FOUND | OBJECT_ALREADY_EXISTS | OBJECT_HAS_LEASE
  | TRANSFER_FAIL | RPC_FAIL
  | ETCD_OPERATION_ERROR | ETCD_KEY_NOT_EXIST | ETCD_TRANSACTION_FAIL | ETCD_CTX_CANCELLED
  | UNAVAILABLE_IN_CURRENT_STATUS | UNAVAILABLE_IN_CURRENT_MODE
  | FILE_NOT_FOUND | FILE_OPEN_FAIL | FILE_READ_FAIL | FILE_WRITE_FAIL
  | FILE_INVALID_BUFFER | FILE_LOCK_FAIL | FILE_INVALID_HANDLE.

#[export] Instance ErrorCode_eq_dec : EqDecision ErrorCode.
Proof. solve_decision. Defined.

Definition error_codes : list ErrorCode :=
  [OK; INTERNAL_ERROR; BUFFER_OVERFLOW; SHARD_INDEX_OUT_OF_RANGE; SEGMENT_NOT_FOUND;
   SEGMENT_ALREADY_EXISTS; NO_AVAILABLE_HANDLE; INVALID_VERSION; INVALID_KEY; WRITE_FAIL;
   INVALID_PARAMS; INVALID_WRITE; INVALID_READ; INVALID_REPLICA; REPLICA_IS_NOT_READY;
   OBJECT_NOT_FOUND; OBJECT_ALREADY_EXISTS; OBJECT_HAS_LEASE; TRANSFER_FAIL; RPC_FAIL;
   ETCD_OPERATION_ERROR; ETCD_KEY_NOT_EXIST; ETCD_TRANSACTION_FAIL; ETCD_CTX_CANCELLED;
   UNAVAILABLE_IN_CURRENT_STATUS; UNAVAILABLE_IN_CURRENT_MODE; FILE_NOT_FOUND; FILE_OPEN_FAIL;
   FILE_READ_FAIL; FILE_WRITE_FAIL; FILE_INVALID_BUFFER; FILE_LOCK_FAIL; FILE_INVALID_HANDLE].

Definition toInt (e : ErrorCode) : Z :=
  match e with
  | OK => 0 | INTERNAL_ERROR => -1 | BUFFER_OVERFLOW => -10
  | SHARD_INDEX_OUT_OF_RANGE => -100 | SEGMENT_NOT_FOUND => -101 | SEGMENT_ALREADY_EXISTS => -102
  | NO_AVAILABLE_HANDLE => -200 | INVALID_VERSION => -300 | INVALID_KEY => -400
  | WRITE_FAIL => -500 | INVALID_PARAMS => -600
  | INVALID_WRITE => -700 | INVALID_READ => -701 | INVALID_REPLICA => -702
  | REPLICA_IS_NOT_READY => -703 | OBJECT_NOT_FOUND => -704 | OBJECT_ALREADY_EXISTS => -705
  | OBJECT_HAS_LEASE => -706 | TRANSFER_FAIL => -800 | RPC_FAIL => -900
  | ETCD_OPERATION_ERROR => -1000 | ETCD_KEY_NOT_EXIST => -1001 | ETCD_TRANSACTION_FAIL => -1002
  | ETCD_CTX_CANCELLED => -1003 | UNAVAILABLE_IN_CURRENT_STATUS => -1010
  | UNAVAILABLE_IN_CURRENT_MODE => -1011
  | FILE_NOT_FOUND => -1100 | FILE_OPEN_FAIL => -1101 | FILE_READ_FAIL => -1102
  | FILE_WRITE_FAIL => -1103 | FILE_INVALID_BUFFER => -1104 | FILE_LOCK_FAIL => -1105
  | FILE_INVALID_HANDLE => -1106
  end.

(** [fromInt] is a cast: a value that names no enumerator stays a value of the
    underlying type, which [None] stands for. *)
Definition fromInt (z : Z) : option ErrorCode := list_find (fun e => toInt e = z) error_codes ≫= fun p => Some p.2.

Definition toString (e : ErrorCode) : string :=
  match e with
  | OK => "OK" | INTERNAL_ERROR => "INTERNAL_ERROR" | BUFFER_OVERFLOW => "BUFFER_OVERFLOW"
  | SHARD_INDEX_OUT_OF_RANGE => "SHARD_INDEX_OUT_OF_RANGE"
  | SEGMENT_NOT_FOUND => "SEGMENT_NOT_FOUND" | SEGMENT_ALREADY_EXISTS => "SEGMENT_ALREADY_EXISTS"
  | NO_AVAILABLE_HANDLE => "NO_AVAILABLE_HANDLE" | INVALID_VERSION => "INVALID_VERSION"
  | INVALID_KEY => "INVALID_KEY" | WRITE_FAIL => "WRITE_FAIL" | INVALID_PARAMS => "INVALID_PARAMS"
  | INVALID_WRITE => "INVALID_WRITE" | INVALID_READ => "INVALID_READ"
  | INVALID_REPLICA => "INVALID_REPLICA" | REPLICA_IS_NOT_READY => "REPLICA_IS_NOT_READY"
  | OBJECT_NOT_FOUND => "OBJECT_NOT_FOUND" | OBJECT_ALREADY_EXISTS => "OBJECT_ALREADY_EXISTS"
  | OBJECT_HAS_LEASE => "OBJECT_HAS_LEASE" | TRANSFER_FAIL => "TRANSFER_FAIL" | RPC_FAIL => "RPC_FAIL"
  | ETCD_OPERATION_ERROR => "ETCD_OPERATION_ERROR" | ETCD_KEY_NOT_EXIST => "ETCD_KEY_NOT_EXIST"
  | ETCD_TRANSACTION_FAIL => "ETCD_TRANSACTION_FAIL" | ETCD_CTX_CANCELLED => "ETCD_CTX_CANCELLED"
  | UNAVAILABLE_IN_CURRENT_STATUS => "UNAVAILABLE_IN_CURRENT_STATUS"
  | UNAVAILABLE_IN_CURRENT_MODE => "UNAVAILABLE_IN_CURRENT_MODE"
  | FILE_NOT_FOUND => "FILE_NOT_FOUND" | FILE_OPEN_FAIL => "FILE_OPEN_FAIL"
  | FILE_READ_FAIL => "FILE_READ_FAIL" | FILE_WRITE_FAIL => "FILE_WRITE_FAIL"
  | FILE_INVALID_BUFFER => "FILE_INVALID_BUFFER" | FILE_LOCK_FAIL => "FILE_LOCK_FAIL"
  | FILE_INVALID_HANDLE => "FILE_INVALID_HANDLE"
  end%string.

(** ** Statuses and configuration *)

Inductive BufStatus : Type := BUF_INIT | BUF_COMPLETE | BUF_FAILED | BUF_UNREGISTERED.
Inductive ReplicaType : Type := MEMORY | DISK.
Inductive ReplicaStatus : Type := UNDEFINED | INITIALIZED | PROCESSING | COMPLETE | REMOVED | FAILED.
Inductive ClientStatus : Type := CLIENT_UNDEFINED | CLIENT_OK | NEED_REMOUNT.
Inductive BufferAllocatorType : Type := CACHELIB | OFFSET.

#[export] Instance BufStatus_eq_dec : EqDecision BufStatus.
Proof. solve_decision. Defined.
#[export] Instance ReplicaType_eq_dec : EqDecision ReplicaType.
Proof. solve_decision. Defined.
#[export] Instance ReplicaStatus_eq_dec : EqDecision ReplicaStatus.
Proof. solve_decision. Defined.
#[export] Instance BufferAllocatorType_eq_dec : EqDecision BufferAllocatorType.
Proof. solve_decision. Defined.

Record ReplicateConfig : Type := mkConfig {
  replica_num : Z; with_soft_pin : bool; preferred_segment : string }.

Record Segment : Type := mkSegment { seg_id : UUID; seg_name : string; seg_base : Z; seg_size : Z }.

Record PingResponse : Type := mkPing { view_version_id : Z; client_status : ClientStatus }.

(** [Slab::kSize] and [Slab::kMinAllocSize] of the slab allocator. *)
Definition Slab_kSize : Z := 2 ^ 24.
Definition kMinSliceSize : Z := 64.
Definition kMaxSliceSize : Z := Slab_kSize - 16.

(** ** Buffers and replicas *)

Section buffers.
Context {H : Type}.

Record AllocatedBuffer : Type := mkBuffer {
  buf_allocator : nat;
  segment_name_ : string;
  buf_status : BufStatus;
  buffer_ptr_ : Z;
  size_ : Z;
  offset_handle_ : H;
}.

Definition buffer_mark_complete (b : AllocatedBuffer) : AllocatedBuffer :=
  mkBuffer (buf_allocator b) (segment_name_ b) BUF_COMPLETE (buffer_ptr_ b) (size_ b) (offset_handle_ b).

Record BufferDescriptor : Type := mkBufDesc {
  bd_segment_name : string; bd_size : Z; bd_address : Z; bd_status : BufStatus }.

Definition buffer_get_descriptor (b : AllocatedBuffer) : BufferDescriptor :=
  mkBufDesc (segment_name_ b) (u64 (size_ b)) (buffer_ptr_ b) (buf_status b).

Inductive ReplicaData : Type :=
  | MemoryReplicaData (buffers : list AllocatedBuffer)
  | DiskReplicaData (file_path : string) (object_size : Z).

Record Replica : Type := mkReplica { data_ : ReplicaData; status_ : ReplicaStatus }.

Definition type (r : Replica) : ReplicaType :=
  match data_ r with MemoryReplicaData _ => MEMORY | DiskReplicaData _ _ => DISK end.

Definition is_memory_replica (r : Replica) : bool :=
  match data_ r with MemoryReplicaData _ => true | _ => false end.

Definition is_disk_replica (r : Replica) : bool :=
  match data_ r with DiskReplicaData _ _ => true | _ => false end.

Definition replica_buffers (r : Replica) : list AllocatedBuffer :=
  match data_ r with MemoryReplicaData bs => bs | DiskReplicaData _ _ => [] end.

(** [valid] answers whether the allocator of a buffer is still alive. *)
Definition has_invalid_mem_handle (valid : nat -> bool) (r : Replica) : bool :=
  match data_ r with
  | MemoryReplicaData bs => existsb (fun b => negb (valid (buf_allocator b))) bs
  | DiskReplicaData _ _ => false
  end.

Definition mark_complete (r : Replica) : Replica :=
  match status_ r with
  | PROCESSING =>
      mkReplica
        (match data_ r with
         | MemoryReplicaData bs => MemoryReplicaData (buffer_mark_complete <$> bs)
         | d => d
         end) COMPLETE
  | _ => r
  end.

Inductive DescriptorVariant : Type :=
  | MemoryDescriptor (buffer_descriptors : list BufferDescriptor)
  | DiskDescriptor (file_path : string) (object_size : Z).

Record Descriptor : Type := mkDescriptor { descriptor_variant : DescriptorVariant; desc_status : ReplicaStatus }.

Definition get_descriptor (r : Replica) : Descriptor :=
  mkDescriptor
    (match data_ r with
     | MemoryReplicaData bs => MemoryDescriptor (buffer_get_descriptor <$> bs)
     | DiskReplicaData p s => DiskDescriptor p s
     end) (status_ r).

(** [get_memory_descriptor] and [get_disk_descriptor] throw on the other kind. *)
Definition get_memory_descriptor (d : Descriptor) : option (list BufferDescriptor) :=
  match descriptor_variant d with MemoryDescriptor l => Some l | _ => None end.
Definition get_disk_descriptor (d : Descriptor) : option (string * Z) :=
  match descriptor_variant d with DiskDescriptor p s => Some (p, s) | _ => None end.

End buffers.

Arguments AllocatedBuffer : clear implicits.
Arguments ReplicaData : clear implicits.
Arguments Replica : clear implicits.

(** ** Facts *)

Lemma error_codes_complete e : e ∈ error_codes.
Proof. destruct e; unfold error_codes; repeat (first [left|right]). Qed.

Lemma toInt_inj e e' : toInt e = toInt e' -> e = e'.
Proof. destruct e, e'; simpl; congruence || done. Qed.

Lemma fromInt_toInt e : fromInt (toInt e) = Some e.
Proof. by destruct e. Qed.

Lemma fromInt_Some z e : fromInt z = Some e -> toInt e = z.
Proof.
  unfold fromInt. destruct (list_find _ _) as [[i e']|] eqn:E; simpl; [|done]. intros [= <-].
  apply list_find_Some in E as (_ & ? & _). done.
Qed.

Section facts.
Context {H : Type}.
Implicit Types (r : Replica H).

Lemma mark_complete_type r : type (mark_complete r) = type r.
Proof. unfold mark_complete. destruct r as [[bs|p s] []]; done. Qed.

Lemma mark_complete_idem r : mark_complete (mark_complete r) = mark_complete r.
Proof. by destruct r as [[bs|p s] []]. Qed.

Lemma mark_complete_stale valid r :
  has_invalid_mem_handle valid (mark_complete r) = has_invalid_mem_handle valid r.
Proof.
  destruct r as [[bs|p s] []]; unfold has_invalid_mem_handle, mark_complete; simpl; try done.
  induction bs as [|b bs IH]; [done|]. rewrite fmap_cons. simpl. by f_equal.
Qed.

(** What a reader of the store sees of a replica: where the bytes are. *)
Lemma mark_complete_locations r :
  (fun b => (bd_segment_name b, bd_size b, bd_address b)) <$>
    (default [] (get_memory_descriptor (get_descriptor (mark_complete r)))) =
  (fun b => (bd_segment_name b, bd_size b, bd_address b)) <$>
    (default [] (get_memory_descriptor (get_descriptor r))).
Proof.
  destruct r as [[bs|p s] []]; unfold mark_complete, get_descriptor, get_memory_descriptor; simpl; try done.
  rewrite <- !list_fmap_compose. apply list_fmap_ext. intros; done.
Qed.

End facts.

End Types.
