(* ===== verification/SmallFloat.v ===== *)
(** * SmallFloat: the bin-size encoding of the offset allocator

    Models the bit scans, [namespace SmallFloat] and [findLowestSetBitAfter]
    of mooncake-store/src/offset_allocator.cpp.  A bin index is a tiny float
    (5-bit exponent, 3-bit mantissa); the theorems give its arithmetic meaning,
    the rounding bounds, the round trips and the monotonicity the allocator's
    bin search relies on. *)

From Stdlib Require Import ZArith Lia.
From stdpp Require Import base list numbers.
From S2P Require Import Prelude.

Module SmallFloat.

(** [__builtin_clz] and [__builtin_ctz] on a non-zero 32-bit value. *)
Definition lzcnt_nonzero (v : Z) : Z := 31 - Z.log2 v.

Fixpoint ctz_pos (p : positive) : Z :=
  match p with
  | xO q => 1 + ctz_pos q
  | _ => 0
  end.

Definition tzcnt_nonzero (v : Z) : Z :=
  match v with Zpos p => ctz_pos p | _ => 0 end.

Definition MANTISSA_BITS : Z := 3.
Definition MANTISSA_VALUE : Z := 8.
Definition MANTISSA_MASK : Z := 7.
Definition MAX_BIN_SIZE : Z := 4026531840.

Definition uintToFloatRoundUp (size : Z) : Z :=
  let '(exp, mantissa) :=
    if size <? MANTISSA_VALUE then (0, size)
    else
      let leadingZeros := lzcnt_nonzero size in
      let highestSetBit := u32 (31 - leadingZeros) in
      let mantissaStartBit := u32 (highestSetBit - MANTISSA_BITS) in
      let exp := u32 (mantissaStartBit + 1) in
      let mantissa := Z.land (Z.shiftr size mantissaStartBit) MANTISSA_MASK in
      let lowBitsMask := u32 (Z.shiftl 1 mantissaStartBit - 1) in
      (exp, if negb (Z.land size lowBitsMask =? 0) then u32 (mantissa + 1) else mantissa)
  in u32 (u32 (Z.shiftl exp MANTISSA_BITS) + mantissa).

Definition uintToFloatRoundDown (size : Z) : Z :=
  let '(exp, mantissa) :=
    if size <? MANTISSA_VALUE then (0, size)
    else
      let leadingZeros := lzcnt_nonzero size in
      let highestSetBit := u32 (31 - leadingZeros) in
      let mantissaStartBit := u32 (highestSetBit - MANTISSA_BITS) in
      let exp := u32 (mantissaStartBit + 1) in
      (exp, Z.land (Z.shiftr size mantissaStartBit) MANTISSA_MASK)
  in Z.lor (u32 (Z.shiftl exp MANTISSA_BITS)) mantissa.

Definition floatToUint (floatValue : Z) : Z :=
  let exponent := Z.shiftr floatValue MANTISSA_BITS in
  let mantissa := Z.land floatValue MANTISSA_MASK in
  if exponent =? 0 then mantissa
  else u32 (Z.shiftl (Z.lor mantissa MANTISSA_VALUE) (exponent - 1)).

(** [OffsetAllocation::NO_SPACE], also the "no such bit" result. *)
Definition NO_SPACE : Z := 4294967295.

Definition findLowestSetBitAfter (bitMask startBitIndex : Z) : Z :=
  let maskBeforeStartIndex := u32 (Z.shiftl 1 startBitIndex - 1) in
  let maskAfterStartIndex := u32 (Z.lnot maskBeforeStartIndex) in
  let bitsAfter := Z.land bitMask maskAfterStartIndex in
  if bitsAfter =? 0 then NO_SPACE else tzcnt_nonzero bitsAfter.

(** ** Arithmetic characterisations *)

(** The bit where the mantissa of a normalised [size] starts. *)
Definition mstart (size : Z) : Z := Z.log2 size - 3.

Lemma log2_bounds s : 8 <= s < 2 ^ 32 -> 3 <= Z.log2 s <= 31.
Proof.
  intros Hs; split.
  - change 3 with (Z.log2 8); apply Z.log2_le_mono; lia.
  - enough (Z.log2 s < 32) by lia. apply Z.log2_lt_pow2; lia.
Qed.

Lemma mstart_bounds s : 8 <= s < 2 ^ 32 -> 0 <= mstart s <= 28.
Proof. intros Hs%log2_bounds; unfold mstart; lia. Qed.

(** The leading four bits of a normalised size. *)
Lemma quot_bounds s : 8 <= s < 2 ^ 32 -> 8 <= s / 2 ^ mstart s < 16.
Proof.
  intros Hs. pose proof (mstart_bounds s Hs) as Hm.
  assert (2 ^ Z.log2 s <= s < 2 ^ Z.succ (Z.log2 s)) as [H1 H2]
    by (apply Z.log2_spec; lia).
  replace (Z.log2 s) with (mstart s + 3) in * by (unfold mstart; lia).
  rewrite Z.pow_add_r in H1 by lia.
  replace (Z.succ (mstart s + 3)) with (mstart s + 4) in H2 by lia.
  rewrite Z.pow_add_r in H2 by lia.
  pose proof (Z.pow_pos_nonneg 2 (mstart s) ltac:(lia) ltac:(lia)).
  split; [apply Z.div_le_lower_bound; lia|apply Z.div_lt_upper_bound; lia].
Qed.

Lemma land7 x : 0 <= x -> Z.land x 7 = x mod 8.
Proof. intros; change 7 with (Z.ones 3). rewrite Z.land_ones by lia. done. Qed.

Lemma mod8_of_quot q : 8 <= q < 16 -> q mod 8 = q - 8.
Proof. intros; symmetry; apply (Z.mod_unique _ _ 1); lia. Qed.

Lemma shl3 e : 0 <= e <= 29 -> u32 (Z.shiftl e 3) = 8 * e.
Proof. intros; rewrite Z.shiftl_mul_pow2 by lia; rewrite u32_small; lia. Qed.

Lemma lor_shl3 e r : 0 <= e -> 0 <= r < 8 -> Z.lor (8 * e) r = 8 * e + r.
Proof.
  intros He Hr.
  assert (Z.land (8 * e) r = 0) as Hl.
  { apply Z.bits_inj'; intros n Hn. rewrite Z.land_spec, Z.bits_0.
    replace (8 * e) with (Z.shiftl e 3) by (rewrite Z.shiftl_mul_pow2; lia).
    rewrite Z.shiftl_spec by lia.
    destruct (Z_lt_dec n 3).
    - rewrite (Z.testbit_neg_r e) by lia. done.
    - rewrite <- (Z.mod_small r (2 ^ 3)) by lia.
      by rewrite Z.mod_pow2_bits_high, andb_false_r by lia. }
  rewrite <- Z.lxor_lor by done. rewrite <- Z.add_nocarry_lxor by done. done.
Qed.

(** Bin index of a size, rounded down: [8 * m + (size >> m)]. *)
Lemma roundDown_eq s : 8 <= s < 2 ^ 32 ->
  uintToFloatRoundDown s = 8 * mstart s + s / 2 ^ mstart s.
Proof.
  intros Hs. pose proof (mstart_bounds s Hs) as Hm. pose proof (quot_bounds s Hs) as Hq.
  pose proof (log2_bounds s Hs).
  unfold uintToFloatRoundDown, lzcnt_nonzero, MANTISSA_VALUE, MANTISSA_BITS, MANTISSA_MASK.
  destruct (Z.ltb_spec s 8); [lia|].
  replace (31 - (31 - Z.log2 s)) with (Z.log2 s) by lia.
  rewrite (u32_small (Z.log2 s)) by lia. fold (mstart s).
  rewrite (u32_small (mstart s)), (u32_small (mstart s + 1)), shl3 by lia.
  rewrite Z.shiftr_div_pow2, land7, mod8_of_quot by lia.
  rewrite lor_shl3 by lia. lia.
Qed.

Lemma roundDown_small s : 0 <= s < 8 -> uintToFloatRoundDown s = s.
Proof.
  intros Hs; unfold uintToFloatRoundDown, MANTISSA_VALUE.
  by destruct (Z.ltb_spec s 8); [|lia].
Qed.

Lemma roundUp_small s : 0 <= s < 8 -> uintToFloatRoundUp s = s.
Proof.
  intros Hs; unfold uintToFloatRoundUp, MANTISSA_VALUE.
  destruct (Z.ltb_spec s 8); [|lia].
  change (u32 (Z.shiftl 0 MANTISSA_BITS)) with 0. rewrite u32_small; lia.
Qed.

(** Bin index of a size, rounded up: [8 * m + ceil (size / 2^m)]. *)
Lemma roundUp_eq s : 8 <= s < 2 ^ 32 ->
  uintToFloatRoundUp s =
  8 * mstart s + s / 2 ^ mstart s + (if s mod 2 ^ mstart s =? 0 then 0 else 1).
Proof.
  intros Hs. pose proof (mstart_bounds s Hs) as Hm. pose proof (quot_bounds s Hs) as Hq.
  pose proof (log2_bounds s Hs).
  unfold uintToFloatRoundUp, lzcnt_nonzero, MANTISSA_VALUE, MANTISSA_BITS, MANTISSA_MASK.
  destruct (Z.ltb_spec s 8); [lia|].
  replace (31 - (31 - Z.log2 s)) with (Z.log2 s) by lia.
  rewrite (u32_small (Z.log2 s)) by lia. fold (mstart s).
  rewrite (u32_small (mstart s)), (u32_small (mstart s + 1)), shl3 by lia.
  assert (0 < 2 ^ mstart s <= 2 ^ 28) as Hp.
  { split; [apply Z.pow_pos_nonneg; lia|apply Z.pow_le_mono_r; lia]. }
  rewrite Z.shiftl_1_l, (u32_small (2 ^ mstart s - 1)) by lia.
  rewrite Z.sub_1_r, <- Z.ones_equiv.
  rewrite Z.land_ones by lia.
  rewrite Z.shiftr_div_pow2, land7, mod8_of_quot by lia.
  destruct (Z.eqb_spec (s mod 2 ^ mstart s) 0); simpl;
    rewrite ?(u32_small (s / 2 ^ mstart s - 8 + 1)) by lia; rewrite u32_small; lia.
Qed.

Lemma floatToUint_small b : 0 <= b < 8 -> floatToUint b = b.
Proof.
  intros Hb; unfold floatToUint, MANTISSA_BITS, MANTISSA_MASK.
  rewrite Z.shiftr_div_pow2, land7, Z.mod_small by lia.
  by rewrite Z.div_small by lia.
Qed.

(** Size of bin [8 * m + q], [8 <= q < 16]: [q << m]. *)
Lemma floatToUint_eq m q : 0 <= m <= 28 -> 8 <= q < 16 ->
  floatToUint (8 * m + q) = q * 2 ^ m.
Proof.
  intros Hm Hq. unfold floatToUint, MANTISSA_BITS, MANTISSA_MASK, MANTISSA_VALUE.
  rewrite Z.shiftr_div_pow2, land7 by lia.
  replace ((8 * m + q) / 2 ^ 3) with (m + 1) by (apply Z.div_unique with (q - 8); lia).
  replace ((8 * m + q) mod 8) with (q - 8) by (apply Z.mod_unique with (m + 1); lia).
  destruct (Z.eqb_spec (m + 1) 0); [lia|].
  rewrite Z.lor_comm. change 8 with (8 * 1) at 1. rewrite lor_shl3 by lia.
  rewrite Z.shiftl_mul_pow2 by lia.
  replace (m + 1 - 1) with m by lia. replace (8 * 1 + (q - 8)) with q by lia.
  apply u32_small.
  assert (2 ^ m <= 2 ^ 28) by (apply Z.pow_le_mono_r; lia). nia.
Qed.

(** Every normalised bin index below 240 has the shape [8 * m + q]. *)
Lemma bin_shape b : 8 <= b < 240 -> exists m q, b = 8 * m + q /\ 0 <= m <= 28 /\ 8 <= q < 16.
Proof.
  intros Hb. exists (b / 8 - 1), (b mod 8 + 8).
  pose proof (Z.div_mod b 8). pose proof (Z.mod_pos_bound b 8).
  assert (1 <= b / 8 < 30) by (split; [apply Z.div_le_lower_bound|apply Z.div_lt_upper_bound]; lia).
  lia.
Qed.

(** ** Checking the 240 reachable bins by evaluation *)

Lemma forall_bins (P : Z -> bool) :
  forallb P (seqZ 0 240) = true -> forall b, 0 <= b < 240 -> P b = true.
Proof.
  intros HP b Hb. rewrite forallb_forall in HP. apply HP.
  apply list_elem_of_In, elem_of_seqZ. lia.
Qed.

Lemma floatToUint_step b : 0 <= b < 239 -> floatToUint b < floatToUint (b + 1).
Proof.
  intros Hb. apply Z.ltb_lt.
  pose proof (forall_bins (fun b => (b =? 239) || (floatToUint b <? floatToUint (b + 1)))
    ltac:(vm_compute; reflexivity) b ltac:(lia)) as H; simpl in H.
  destruct (Z.eqb_spec b 239); [lia|done].
Qed.

Lemma floatToUint_mono b c : 0 <= b -> b < c -> c < 240 -> floatToUint b < floatToUint c.
Proof.
  intros Hb Hbc Hc. replace c with (b + Z.of_nat (S (Z.to_nat (c - b - 1)))) in * by lia.
  remember (Z.to_nat (c - b - 1)) as n eqn:Heq; clear Heq Hbc.
  induction n as [|n IH]; [apply floatToUint_step; lia|].
  eapply Z.lt_trans; [apply IH; lia|].
  replace (b + Z.of_nat (S (S n))) with (b + Z.of_nat (S n) + 1) by lia.
  apply floatToUint_step; lia.
Qed.

Lemma floatToUint_mono_le b c : 0 <= b -> b <= c -> c < 240 -> floatToUint b <= floatToUint c.
Proof.
  intros ???. destruct (Z.eq_dec b c) as [->|]; [lia|].
  apply Z.lt_le_incl, floatToUint_mono; lia.
Qed.

Lemma floatToUint_max b : 0 <= b < 240 -> 0 <= floatToUint b <= MAX_BIN_SIZE.
Proof.
  intros Hb. split.
  - change 0 with (floatToUint 0). apply floatToUint_mono_le; lia.
  - change MAX_BIN_SIZE with (floatToUint 239). apply floatToUint_mono_le; lia.
Qed.

Lemma roundDown_floatToUint b : 0 <= b < 240 -> uintToFloatRoundDown (floatToUint b) = b.
Proof.
  intros Hb. apply Z.eqb_eq.
  by apply (forall_bins (fun b => uintToFloatRoundDown (floatToUint b) =? b)).
Qed.

Lemma roundUp_floatToUint b : 0 <= b < 240 -> uintToFloatRoundUp (floatToUint b) = b.
Proof.
  intros Hb. apply Z.eqb_eq.
  by apply (forall_bins (fun b => uintToFloatRoundUp (floatToUint b) =? b)).
Qed.

(** ** Rounding bounds *)

Lemma size_cases s : 0 <= s -> 0 <= s < 8 \/ 8 <= s.
Proof. lia. Qed.

Lemma roundDown_range s : 0 <= s < 2 ^ 32 -> 0 <= uintToFloatRoundDown s < 240.
Proof.
  intros Hs. destruct (size_cases s) as [H|H]; [lia|rewrite roundDown_small; lia|].
  rewrite roundDown_eq by lia.
  pose proof (mstart_bounds s). pose proof (quot_bounds s). lia.
Qed.

Lemma roundDown_le s : 0 <= s < 2 ^ 32 -> floatToUint (uintToFloatRoundDown s) <= s.
Proof.
  intros Hs. destruct (size_cases s) as [H|H]; [lia|by rewrite roundDown_small, floatToUint_small by lia|].
  pose proof (mstart_bounds s). pose proof (quot_bounds s).
  rewrite roundDown_eq, floatToUint_eq by lia.
  rewrite Z.mul_comm. apply Z.mul_div_le. apply Z.pow_pos_nonneg; lia.
Qed.

(** Writing a bin as mantissa and exponent, the mantissa carry included. *)
Lemma floatToUint_carry m q : 0 <= m <= 28 -> 8 <= q <= 16 -> 8 * m + q < 240 ->
  floatToUint (8 * m + q) = q * 2 ^ m.
Proof.
  intros Hm Hq Hb. destruct (Z.eq_dec q 16) as [->|]; [|apply floatToUint_eq; lia].
  replace (8 * m + 16) with (8 * (m + 1) + 8) by lia.
  rewrite floatToUint_eq by lia. rewrite Z.pow_add_r by lia. lia.
Qed.

Lemma roundDown_lt s : 0 <= s < 2 ^ 32 -> uintToFloatRoundDown s < 239 ->
  s < floatToUint (uintToFloatRoundDown s + 1).
Proof.
  intros Hs. destruct (size_cases s) as [H|H]; [lia| |].
  - rewrite roundDown_small by lia. intros _.
    rewrite <- (floatToUint_small s) at 1 by lia. apply floatToUint_step; lia.
  - pose proof (mstart_bounds s). pose proof (quot_bounds s).
    rewrite roundDown_eq by lia. intros Hb.
    rewrite <- Z.add_assoc, floatToUint_carry by lia.
    pose proof (Z.pow_pos_nonneg 2 (mstart s)).
    pose proof (Z.mod_pos_bound s (2 ^ mstart s)). pose proof (Z.div_mod s (2 ^ mstart s)). lia.
Qed.

Lemma roundDown_mono s t : 0 <= s -> s <= t -> t < 2 ^ 32 ->
  uintToFloatRoundDown s <= uintToFloatRoundDown t.
Proof.
  intros H1 H2 H3. destruct (Z.le_gt_cases (uintToFloatRoundDown s) (uintToFloatRoundDown t)) as [|Hlt];
    [done|exfalso].
  pose proof (roundDown_range s). pose proof (roundDown_range t).
  pose proof (roundDown_lt t). pose proof (roundDown_le s).
  pose proof (floatToUint_mono_le (uintToFloatRoundDown t + 1) (uintToFloatRoundDown s)). lia.
Qed.

Lemma roundUp_bin s : 8 <= s <= MAX_BIN_SIZE ->
  exists m q, uintToFloatRoundUp s = 8 * m + q /\ 0 <= m <= 28 /\ 8 <= q <= 16 /\
    8 * m + q < 240 /\ (q - 1) * 2 ^ m < s <= q * 2 ^ m /\ 8 * 2 ^ m <= s.
Proof.
  intros Hs. change MAX_BIN_SIZE with (15 * 2 ^ 28) in Hs.
  pose proof (mstart_bounds s ltac:(lia)) as Hm. pose proof (quot_bounds s ltac:(lia)) as Hq.
  pose proof (Z.pow_pos_nonneg 2 (mstart s)).
  pose proof (Z.mod_pos_bound s (2 ^ mstart s)). pose proof (Z.div_mod s (2 ^ mstart s)).
  rewrite roundUp_eq by lia.
  destruct (Z.eqb_spec (s mod 2 ^ mstart s) 0) as [E|E].
  - exists (mstart s), (s / 2 ^ mstart s). nia.
  - exists (mstart s), (s / 2 ^ mstart s + 1).
    assert (mstart s = 28 -> s / 2 ^ mstart s + 1 < 16).
    { intros E28. rewrite E28 in *. nia. }
    split_and!; try lia. nia.
Qed.

Lemma roundUp_range s : 0 <= s <= MAX_BIN_SIZE -> 0 <= uintToFloatRoundUp s < 240.
Proof.
  intros Hs. destruct (size_cases s) as [H|H]; [lia|rewrite roundUp_small; lia|].
  destruct (roundUp_bin s) as (m & q & -> & ? & ? & ? & ? & ?); lia.
Qed.

Lemma roundUp_ge s : 0 <= s <= MAX_BIN_SIZE -> s <= floatToUint (uintToFloatRoundUp s).
Proof.
  intros Hs. destruct (size_cases s) as [H|H]; [lia|by rewrite roundUp_small, floatToUint_small by lia|].
  destruct (roundUp_bin s) as (m & q & -> & ? & ? & ? & ? & ?); [lia|].
  rewrite floatToUint_carry; lia.
Qed.

Lemma roundUp_lt s : 0 <= s <= MAX_BIN_SIZE -> 0 < uintToFloatRoundUp s ->
  floatToUint (uintToFloatRoundUp s - 1) < s.
Proof.
  intros Hs. destruct (size_cases s) as [H|H]; [lia| |].
  - rewrite roundUp_small by lia. intros. rewrite floatToUint_small; lia.
  - destruct (roundUp_bin s) as (m & q & -> & ? & ? & ? & ? & ?); [lia|]. intros _.
    destruct (Z.eq_dec q 8) as [->|].
    + destruct (Z.eq_dec m 0) as [->|]; [rewrite floatToUint_small; lia|].
      replace (8 * m + 8 - 1) with (8 * (m - 1) + 15) by lia.
      rewrite floatToUint_eq by lia.
      replace m with (m - 1 + 1) in * by lia. rewrite Z.pow_add_r in * by lia.
      replace (m - 1 + 1 - 1) with (m - 1) by lia.
      pose proof (Z.pow_pos_nonneg 2 (m - 1)). lia.
    + replace (8 * m + q - 1) with (8 * m + (q - 1)) by lia.
      rewrite floatToUint_eq by lia. lia.
Qed.

Lemma roundUp_overhead s : 0 <= s <= MAX_BIN_SIZE ->
  8 * (floatToUint (uintToFloatRoundUp s) - s) <= s.
Proof.
  intros Hs. destruct (size_cases s) as [H|H]; [lia|rewrite roundUp_small, floatToUint_small by lia; lia|].
  destruct (roundUp_bin s) as (m & q & -> & ? & ? & ? & ? & ?); [lia|].
  rewrite floatToUint_carry by lia. lia.
Qed.

(** The bin search criterion: a block of size [t] sits in a bin at or above
    the bin requested for [s] exactly when it can hold the rounded size. *)
Lemma fits_iff s t : 0 <= s <= MAX_BIN_SIZE -> 0 <= t < 2 ^ 32 ->
  uintToFloatRoundUp s <= uintToFloatRoundDown t <-> floatToUint (uintToFloatRoundUp s) <= t.
Proof.
  intros Hs Ht. pose proof (roundUp_range s Hs). pose proof (roundDown_range t Ht). split; intros Hle.
  - etransitivity; [|by apply roundDown_le]. apply floatToUint_mono_le; lia.
  - rewrite <- (roundDown_floatToUint (uintToFloatRoundUp s)) by lia.
    apply roundDown_mono; [apply floatToUint_max; lia|lia|lia].
Qed.

(** ** Bit scans *)

Lemma ctz_pos_spec p :
  0 <= ctz_pos p /\ Z.testbit (Zpos p) (ctz_pos p) = true /\
  forall i, 0 <= i < ctz_pos p -> Z.testbit (Zpos p) i = false.
Proof.
  induction p as [p IH|p IH|]; simpl ctz_pos.
  - split; [lia|]. split; [done|lia].
  - destruct IH as (H0 & H1 & H2). split; [lia|]. rewrite (Pos2Z.inj_xO p). split.
    + replace (1 + ctz_pos p) with (Z.succ (ctz_pos p)) by lia.
      by rewrite Z.double_bits_succ.
    + intros i Hi. destruct (Z.eq_dec i 0) as [->|]; [apply Z.testbit_even_0|].
      replace i with (Z.succ (i - 1)) by lia. rewrite Z.double_bits_succ. apply H2; lia.
  - split; [lia|]. split; [done|lia].
Qed.

Lemma tzcnt_spec v : 0 < v ->
  0 <= tzcnt_nonzero v /\ Z.testbit v (tzcnt_nonzero v) = true /\
  forall i, 0 <= i < tzcnt_nonzero v -> Z.testbit v i = false.
Proof. destruct v; try lia. intros _. apply ctz_pos_spec. Qed.

Lemma testbit_lt w v i : 0 <= v < 2 ^ w -> w <= i -> Z.testbit v i = false.
Proof.
  intros Hv Hi. rewrite <- (Z.mod_small v (2 ^ w)) by lia.
  destruct (Z.le_gt_cases 0 w); [apply Z.mod_pow2_bits_high; lia|].
  rewrite Z.pow_neg_r in Hv by lia. lia.
Qed.

(** A non-negative value is zero exactly when it has no bit set. *)
Lemma zero_iff_no_bit v : 0 <= v -> (forall i, 0 <= i -> Z.testbit v i = false) -> v = 0.
Proof. intros Hv Hb. apply Z.bits_inj'; intros n Hn. rewrite Z.bits_0. by apply Hb. Qed.

Lemma tzcnt_bound w v : 0 < v < 2 ^ w -> 0 <= tzcnt_nonzero v < w.
Proof.
  intros Hv. destruct (tzcnt_spec v) as (H0 & H1 & _); [lia|]. split; [done|].
  destruct (Z.lt_ge_cases (tzcnt_nonzero v) w); [done|].
  rewrite (testbit_lt w) in H1 by lia. done.
Qed.

Lemma bitsAfter_spec mask start i : 0 <= mask < 2 ^ 32 -> 0 <= start <= 31 -> 0 <= i ->
  Z.testbit (Z.land mask (u32 (Z.lnot (u32 (Z.shiftl 1 start - 1))))) i =
  (start <=? i) && Z.testbit mask i.
Proof.
  intros Hm Hs Hi. rewrite Z.land_spec.
  assert (0 < 2 ^ start <= 2 ^ 31) as Hp
    by (split; [apply Z.pow_pos_nonneg; lia|apply Z.pow_le_mono_r; lia]).
  rewrite Z.shiftl_1_l, (u32_small (2 ^ start - 1)) by lia.
  rewrite Z.sub_1_r, <- Z.ones_equiv. unfold u32.
  destruct (Z.lt_ge_cases i 32).
  - rewrite Z.mod_pow2_bits_low, Z.lnot_spec by lia.
    destruct (Z.leb_spec start i).
    + rewrite Z.ones_spec_high by lia. by rewrite andb_true_r.
    + rewrite Z.ones_spec_low by lia. by rewrite andb_false_r.
  - rewrite (testbit_lt 32 mask) by lia. by rewrite andb_false_r.
Qed.

(** [findLowestSetBitAfter] finds the least set bit at or above the start, or
    reports that there is none. *)
Lemma findLowestSetBitAfter_spec mask start : 0 <= mask < 2 ^ 32 -> 0 <= start <= 31 ->
  let r := findLowestSetBitAfter mask start in
  (r = NO_SPACE /\ forall i, start <= i -> Z.testbit mask i = false) \/
  (start <= r < 32 /\ Z.testbit mask r = true /\
   forall i, start <= i < r -> Z.testbit mask i = false).
Proof.
  intros Hm Hs r. unfold r, findLowestSetBitAfter.
  set (b := Z.land _ _).
  assert (Hb : forall i, 0 <= i -> Z.testbit b i = (start <=? i) && Z.testbit mask i)
    by (intros; by apply bitsAfter_spec).
  assert (0 <= b < 2 ^ 32) as Hbr.
  { split; [apply Z.land_nonneg; left; lia|].
    destruct (Z.eq_dec b 0) as [E|]; [lia|]. apply Z.log2_lt_cancel.
    rewrite Z.log2_pow2 by lia.
    assert (0 <= b) by (apply Z.land_nonneg; left; lia).
    destruct (Z.lt_ge_cases (Z.log2 b) 32); [done|].
    pose proof (Hb (Z.log2 b) (Z.log2_nonneg b)) as Ht.
    rewrite Z.bit_log2, (testbit_lt 32 mask), andb_false_r in Ht by lia. done. }
  destruct (Z.eqb_spec b 0) as [E|E].
  - left; split; [done|]. intros i Hi. specialize (Hb i ltac:(lia)).
    rewrite E, Z.bits_0 in Hb. destruct (Z.leb_spec start i); [done|lia].
  - right. destruct (tzcnt_spec b) as (H0 & H1 & H2); [lia|].
    pose proof (tzcnt_bound 32 b ltac:(lia)).
    rewrite Hb in H1 by lia. apply andb_true_iff in H1 as [H1a H1b]. zbool.
    split_and!; [lia|lia|done|]. intros i Hi. specialize (H2 i ltac:(lia)).
    rewrite Hb in H2 by lia. destruct (Z.leb_spec start i); [done|lia].
Qed.

Lemma testbit_land_shiftl v t : 0 <= v -> 0 <= t ->
  (Z.land v (Z.shiftl 1 t) =? 0) = negb (Z.testbit v t).
Proof.
  intros Hv Ht. destruct (Z.testbit v t) eqn:E; simpl.
  - apply Z.eqb_neq. intros H0. assert (Z.testbit (Z.land v (Z.shiftl 1 t)) t = false) as Hc
      by (rewrite H0; apply Z.bits_0).
    rewrite Z.land_spec, E, Z.shiftl_1_l, Z.pow2_bits_true in Hc by lia. done.
  - apply Z.eqb_eq, Z.bits_inj'. intros n Hn. rewrite Z.land_spec, Z.bits_0, Z.shiftl_1_l.
    destruct (Z.eq_dec n t) as [->|]; [by rewrite E|].
    by rewrite Z.pow2_bits_false, andb_false_r by lia.
Qed.

End SmallFloat.
