(* ===== verification/OffsetAlloc.v ===== *)
(** * OffsetAlloc: the bin allocator [__Allocator]

    Models class [__Allocator] of
    mooncake-store/include/offset_allocator/offset_allocator.hpp and
    mooncake-store/src/offset_allocator.cpp, operation by operation, over the
    arrays of the source.  Every operation is a program of the state monad
    [M]; [None] is undefined behaviour (an access outside an array, a read of
    an uninitialised free-list slot, a bit scan of zero).  The build flags are
    the defaults: no DEBUG assertions, sizes rounded up to the bin size. *)

From Stdlib Require Import ZArith Lia.
From stdpp Require Import base list numbers.
From S2P Require Import Prelude SmallFloat.
Import SmallFloat.

Module Alloc.
Open Scope moon_scope.
Open Scope Z_scope.

Definition NUM_TOP_BINS : Z := 32.
Definition BINS_PER_LEAF : Z := 8.
Definition TOP_BINS_INDEX_SHIFT : Z := 3.
Definition LEAF_BINS_INDEX_MASK : Z := 7.
Definition NUM_LEAF_BINS : Z := NUM_TOP_BINS * BINS_PER_LEAF.

(** [Node::unused] *)
Definition unused : Z := 4294967295.

Record Node : Type := mkNode {
  dataOffset : Z;
  dataSize : Z;
  binListPrev : Z;
  binListNext : Z;
  neighborPrev : Z;
  neighborNext : Z;
  used : bool;
}.

(** A node with its default member initialisers. *)
Definition node0 : Node := mkNode 0 0 unused unused unused unused false.

Definition set_dataSize v n := mkNode (dataOffset n) v (binListPrev n) (binListNext n) (neighborPrev n) (neighborNext n) (used n).
Definition set_binListPrev v n := mkNode (dataOffset n) (dataSize n) v (binListNext n) (neighborPrev n) (neighborNext n) (used n).
Definition set_binListNext v n := mkNode (dataOffset n) (dataSize n) (binListPrev n) v (neighborPrev n) (neighborNext n) (used n).
Definition set_neighborPrev v n := mkNode (dataOffset n) (dataSize n) (binListPrev n) (binListNext n) v (neighborNext n) (used n).
Definition set_neighborNext v n := mkNode (dataOffset n) (dataSize n) (binListPrev n) (binListNext n) (neighborPrev n) v (used n).
Definition set_used v n := mkNode (dataOffset n) (dataSize n) (binListPrev n) (binListNext n) (neighborPrev n) (neighborNext n) v.

(** [struct OffsetAllocation]: an offset and the node index. *)
Record OffsetAllocation : Type := mkAllocation { offset : Z; metadata : Z }.

Definition isNoSpace (al : OffsetAllocation) : bool := offset al =? NO_SPACE.
Definition noSpace : OffsetAllocation := mkAllocation NO_SPACE NO_SPACE.

(** The state.  [m_nodes] and [m_freeNodes] are pointers ([None] after a
    move); a free-list slot that was never written is [None]. *)
Record Allocator : Type := mkAllocator {
  m_size : Z;
  m_current_capacity : Z;
  m_max_capacity : Z;
  m_freeStorage : Z;
  m_usedBinsTop : Z;
  m_usedBins : list Z;
  m_binIndices : list Z;
  m_nodes : option (list Node);
  m_freeNodes : option (list (option Z));
  m_freeOffset : Z;
}.

Definition set_current_capacity v a := mkAllocator (m_size a) v (m_max_capacity a) (m_freeStorage a) (m_usedBinsTop a) (m_usedBins a) (m_binIndices a) (m_nodes a) (m_freeNodes a) (m_freeOffset a).
Definition set_freeStorage v a := mkAllocator (m_size a) (m_current_capacity a) (m_max_capacity a) v (m_usedBinsTop a) (m_usedBins a) (m_binIndices a) (m_nodes a) (m_freeNodes a) (m_freeOffset a).
Definition set_usedBinsTop v a := mkAllocator (m_size a) (m_current_capacity a) (m_max_capacity a) (m_freeStorage a) v (m_usedBins a) (m_binIndices a) (m_nodes a) (m_freeNodes a) (m_freeOffset a).
Definition set_usedBins v a := mkAllocator (m_size a) (m_current_capacity a) (m_max_capacity a) (m_freeStorage a) (m_usedBinsTop a) v (m_binIndices a) (m_nodes a) (m_freeNodes a) (m_freeOffset a).
Definition set_binIndices v a := mkAllocator (m_size a) (m_current_capacity a) (m_max_capacity a) (m_freeStorage a) (m_usedBinsTop a) (m_usedBins a) v (m_nodes a) (m_freeNodes a) (m_freeOffset a).
Definition set_nodes v a := mkAllocator (m_size a) (m_current_capacity a) (m_max_capacity a) (m_freeStorage a) (m_usedBinsTop a) (m_usedBins a) (m_binIndices a) v (m_freeNodes a) (m_freeOffset a).
Definition set_freeNodes v a := mkAllocator (m_size a) (m_current_capacity a) (m_max_capacity a) (m_freeStorage a) (m_usedBinsTop a) (m_usedBins a) (m_binIndices a) (m_nodes a) v (m_freeOffset a).
Definition set_freeOffset v a := mkAllocator (m_size a) (m_current_capacity a) (m_max_capacity a) (m_freeStorage a) (m_usedBinsTop a) (m_usedBins a) (m_binIndices a) (m_nodes a) (m_freeNodes a) v.

Abbreviation M := (ST Allocator).

(** ** Array accesses *)

Definition node_get (i : Z) : M Node := fun a =>
  match m_nodes a with
  | Some ns => match aget ns i with Some n => Some (n, a) | None => None end
  | None => None
  end.

Definition node_set (i : Z) (n : Node) : M unit := fun a =>
  match m_nodes a with
  | Some ns => match aset ns i n with
               | Some ns' => Some (tt, set_nodes (Some ns') a)
               | None => None
               end
  | None => None
  end.

Definition node_upd (i : Z) (f : Node -> Node) : M unit :=
  let* n := node_get i in node_set i (f n).

Definition free_get (i : Z) : M Z := fun a =>
  match m_freeNodes a with
  | Some fn => match aget fn i with Some (Some v) => Some (v, a) | _ => None end
  | None => None
  end.

Definition free_set (i v : Z) : M unit := fun a =>
  match m_freeNodes a with
  | Some fn => match aset fn i (Some v) with
               | Some fn' => Some (tt, set_freeNodes (Some fn') a)
               | None => None
               end
  | None => None
  end.

Definition bin_get (b : Z) : M Z := fun a =>
  match aget (m_binIndices a) b with Some v => Some (v, a) | None => None end.

Definition bin_set (b v : Z) : M unit := fun a =>
  match aset (m_binIndices a) b v with
  | Some l => Some (tt, set_binIndices l a) | None => None end.

Definition ubin_get (t : Z) : M Z := fun a =>
  match aget (m_usedBins a) t with Some v => Some (v, a) | None => None end.

Definition ubin_set (t v : Z) : M unit := fun a =>
  match aset (m_usedBins a) t v with
  | Some l => Some (tt, set_usedBins l a) | None => None end.

(** [__builtin_ctz] is undefined on zero. *)
Definition ctz (v : Z) : M Z := if v =? 0 then ub else ret (tzcnt_nonzero v).
Definition clz (v : Z) : M Z := if v =? 0 then ub else ret (lzcnt_nonzero v).

(** ** Bin operations *)

Definition insertNodeIntoBin (size dataOff : Z) : M Z :=
  let binIndex := uintToFloatRoundDown size in
  let topBinIndex := Z.shiftr binIndex TOP_BINS_INDEX_SHIFT in
  let leafBinIndex := Z.land binIndex LEAF_BINS_INDEX_MASK in
  let* head := bin_get binIndex in
  do* when (head =? unused)
    (let* v := ubin_get topBinIndex in
     do* ubin_set topBinIndex (u8 (Z.lor v (Z.shiftl 1 leafBinIndex))) in
     modify (fun a => set_usedBinsTop (u32 (Z.lor (m_usedBinsTop a) (Z.shiftl 1 topBinIndex))) a)) in
  let* topNodeIndex := bin_get binIndex in
  let* fo := gets m_freeOffset in
  let* nodeIndex := free_get fo in
  do* modify (set_freeOffset (u32 (fo + 1))) in
  do* node_set nodeIndex (mkNode dataOff size unused topNodeIndex unused unused false) in
  do* when (negb (topNodeIndex =? unused)) (node_upd topNodeIndex (set_binListPrev nodeIndex)) in
  do* bin_set binIndex nodeIndex in
  do* modify (fun a => set_freeStorage (u32 (m_freeStorage a + size)) a) in
  ret nodeIndex.

(** The shared tail of "this bin lost its first node": clear the leaf bit
    when the bin is empty, and the top bit when the leaf mask is zero. *)
Definition clearBinIfEmpty (binIndex topBinIndex leafBinIndex : Z) : M unit :=
  let* head := bin_get binIndex in
  when (head =? unused)
    (let* v := ubin_get topBinIndex in
     do* ubin_set topBinIndex (u8 (Z.land v (Z.lnot (Z.shiftl 1 leafBinIndex)))) in
     let* v' := ubin_get topBinIndex in
     when (v' =? 0)
       (modify (fun a => set_usedBinsTop
          (u32 (Z.land (m_usedBinsTop a) (Z.lnot (Z.shiftl 1 topBinIndex)))) a))).

(** First half of [removeNodeFromBin]: takes the node out of its bin list,
    in the middle of the list or at its head. *)
Definition unlinkFromBin (nodeIndex : Z) : M unit :=
  let* node := node_get nodeIndex in
  if negb (binListPrev node =? unused) then
    do* node_upd (binListPrev node) (set_binListNext (binListNext node)) in
    let* node := node_get nodeIndex in
    when (negb (binListNext node =? unused))
      (node_upd (binListNext node) (set_binListPrev (binListPrev node)))
  else
    let binIndex := uintToFloatRoundDown (dataSize node) in
    let topBinIndex := Z.shiftr binIndex TOP_BINS_INDEX_SHIFT in
    let leafBinIndex := Z.land binIndex LEAF_BINS_INDEX_MASK in
    do* bin_set binIndex (binListNext node) in
    do* when (negb (binListNext node =? unused))
      (node_upd (binListNext node) (set_binListPrev unused)) in
    clearBinIfEmpty binIndex topBinIndex leafBinIndex.

Definition removeNodeFromBin (nodeIndex : Z) : M unit :=
  do* unlinkFromBin nodeIndex in
  let* fo := gets m_freeOffset in
  do* modify (set_freeOffset (u32 (fo - 1))) in
  do* free_set (u32 (fo - 1)) nodeIndex in
  let* node := node_get nodeIndex in
  modify (fun a => set_freeStorage (u32 (m_freeStorage a - dataSize node)) a).

(** ** Allocation *)

(** Grows the initialised part of the free list when it is exhausted. *)
Definition growFreeList : M unit :=
  let* fo := gets m_freeOffset in
  let* cc := gets m_current_capacity in
  when (fo =? cc)
    (do* free_set cc cc in modify (set_current_capacity (u32 (cc + 1)))).

(** The two-level search for the lowest non-empty bin at or above the
    requested one; [None] is the NO_SPACE return. *)
Definition searchBin (minBinIndex : Z) : M (option (Z * Z)) :=
  let minTopBinIndex := Z.shiftr minBinIndex TOP_BINS_INDEX_SHIFT in
  let minLeafBinIndex := Z.land minBinIndex LEAF_BINS_INDEX_MASK in
  let* top := gets m_usedBinsTop in
  let* leafBinIndex :=
    (if negb (Z.land top (Z.shiftl 1 minTopBinIndex) =? 0) then
       let* v := ubin_get minTopBinIndex in
       ret (findLowestSetBitAfter v minLeafBinIndex)
     else ret NO_SPACE) in
  if leafBinIndex =? NO_SPACE then
    let topBinIndex := findLowestSetBitAfter top (minTopBinIndex + 1) in
    if topBinIndex =? NO_SPACE then ret None
    else
      let* v := ubin_get topBinIndex in
      let* leaf := ctz v in
      ret (Some (topBinIndex, leaf))
  else ret (Some (minTopBinIndex, leafBinIndex)).

(** Pops the first node of the bin and turns it into a used node of
    [roundupSize]; returns its index and its former size. *)
Definition popBin (topBinIndex leafBinIndex roundupSize : Z) : M (Z * Z) :=
  let binIndex := Z.lor (u32 (Z.shiftl topBinIndex TOP_BINS_INDEX_SHIFT)) leafBinIndex in
  let* nodeIndex := bin_get binIndex in
  let* node := node_get nodeIndex in
  let nodeTotalSize := dataSize node in
  do* node_upd nodeIndex (set_dataSize roundupSize) in
  do* node_upd nodeIndex (set_used true) in
  do* bin_set binIndex (binListNext node) in
  do* when (negb (binListNext node =? unused))
    (node_upd (binListNext node) (set_binListPrev unused)) in
  do* modify (fun a => set_freeStorage (u32 (m_freeStorage a - nodeTotalSize)) a) in
  do* clearBinIfEmpty binIndex topBinIndex leafBinIndex in
  ret (nodeIndex, nodeTotalSize).

(** Returns the unused rest of the popped node to a lower bin and links it
    after the node. *)
Definition pushRemainder (nodeIndex reminderSize roundupSize : Z) : M unit :=
  let* node := node_get nodeIndex in
  let* newNodeIndex := insertNodeIntoBin reminderSize (u32 (dataOffset node + roundupSize)) in
  let* node := node_get nodeIndex in
  do* when (negb (neighborNext node =? unused))
    (node_upd (neighborNext node) (set_neighborPrev newNodeIndex)) in
  do* node_upd newNodeIndex (set_neighborPrev nodeIndex) in
  let* node := node_get nodeIndex in
  do* node_upd newNodeIndex (set_neighborNext (neighborNext node)) in
  node_upd nodeIndex (set_neighborNext newNodeIndex).

Definition allocate (size : Z) : M OffsetAllocation :=
  let* fo := gets m_freeOffset in
  let* mc := gets m_max_capacity in
  if fo =? mc then ret noSpace
  else
    do* growFreeList in
    let minBinIndex := uintToFloatRoundUp size in
    let* bin := searchBin minBinIndex in
    match bin with
    | None => ret noSpace
    | Some (topBinIndex, leafBinIndex) =>
        let roundupSize := floatToUint minBinIndex in
        let* popped := popBin topBinIndex leafBinIndex roundupSize in
        let '(nodeIndex, nodeTotalSize) := popped in
        let reminderSize := u32 (nodeTotalSize - roundupSize) in
        do* when (0 <? reminderSize) (pushRemainder nodeIndex reminderSize roundupSize) in
        let* node := node_get nodeIndex in
        ret (mkAllocation (dataOffset node) nodeIndex)
    end.

(** ** Release *)

(** Merges the node with a free neighbour before it: takes the neighbour out
    of its bin and extends the region to the left. *)
Definition mergePrev (nodeIndex : Z) (region : Z * Z) : M (Z * Z) :=
  let '(off, size) := region in
  let* node := node_get nodeIndex in
  if neighborPrev node =? unused then ret (off, size)
  else
    let* prevNode := node_get (neighborPrev node) in
    if used prevNode then ret (off, size)
    else
      let off := dataOffset prevNode in
      let size := u32 (size + dataSize prevNode) in
      do* removeNodeFromBin (neighborPrev node) in
      let* node := node_get nodeIndex in
      let* prevNode := node_get (neighborPrev node) in
      do* node_upd nodeIndex (set_neighborPrev (neighborPrev prevNode)) in
      ret (off, size).

Definition mergeNext (nodeIndex : Z) (region : Z * Z) : M (Z * Z) :=
  let '(off, size) := region in
  let* node := node_get nodeIndex in
  if neighborNext node =? unused then ret (off, size)
  else
    let* nextNode := node_get (neighborNext node) in
    if used nextNode then ret (off, size)
    else
      let size := u32 (size + dataSize nextNode) in
      do* removeNodeFromBin (neighborNext node) in
      let* node := node_get nodeIndex in
      let* nextNode := node_get (neighborNext node) in
      do* node_upd nodeIndex (set_neighborNext (neighborNext nextNode)) in
      ret (off, size).

(** Connects the combined node with its new neighbours. *)
Definition relinkNext (combined nNext : Z) : M unit :=
  when (negb (nNext =? unused))
    (do* node_upd combined (set_neighborNext nNext) in
     node_upd nNext (set_neighborPrev combined)).

Definition relinkPrev (combined nPrev : Z) : M unit :=
  when (negb (nPrev =? unused))
    (do* node_upd combined (set_neighborPrev nPrev) in
     node_upd nPrev (set_neighborNext combined)).

(** The end of [free]: the node goes back to the free list, and the combined
    region to a bin under a node popped from that list. *)
Definition releaseNode (nodeIndex off size : Z) : M unit :=
  let* node := node_get nodeIndex in
  let nNext := neighborNext node in
  let nPrev := neighborPrev node in
  let* fo := gets m_freeOffset in
  do* modify (set_freeOffset (u32 (fo - 1))) in
  do* free_set (u32 (fo - 1)) nodeIndex in
  let* combinedNodeIndex := insertNodeIntoBin size off in
  do* relinkNext combinedNodeIndex nNext in
  relinkPrev combinedNodeIndex nPrev.

Definition free (allocation : OffsetAllocation) : M unit :=
  let* ns := gets m_nodes in
  match ns with
  | None => ret tt
  | Some _ =>
      let nodeIndex := metadata allocation in
      let* node := node_get nodeIndex in
      let* region := mergePrev nodeIndex (dataOffset node, dataSize node) in
      let* region := mergeNext nodeIndex region in
      let '(off, size) := region in
      releaseNode nodeIndex off size
  end.

(** ** Construction *)

Definition reset : M unit :=
  do* modify (set_freeStorage 0) in
  do* modify (set_usedBinsTop 0) in
  do* modify (set_freeOffset 0) in
  do* modify (set_usedBins (replicate (Z.to_nat NUM_TOP_BINS) 0)) in
  do* modify (set_binIndices (replicate (Z.to_nat NUM_LEAF_BINS) unused)) in
  let* cc := gets m_current_capacity in
  let* mc := gets m_max_capacity in
  do* modify (set_nodes (Some (replicate (Z.to_nat mc) node0))) in
  do* (if cc <=? mc
       then modify (set_freeNodes
              (Some ((Some <$> seqZ 0 cc) ++ replicate (Z.to_nat (mc - cc)) None)))
       else ub) in
  let* size := gets m_size in
  let* _i := insertNodeIntoBin size 0 in
  ret tt.

(** [__Allocator::__Allocator(size, init_capacity, max_capacity)] *)
Definition construct (size init_capacity max_capacity : Z) : option Allocator :=
  snd <$> reset (mkAllocator size init_capacity (Z.max init_capacity max_capacity)
                   0 0 [] [] None None 0).

(** Move construction: the new object takes everything; what is left in
    [other] owns no arrays. *)
Definition moveConstruct (other : Allocator) : Allocator * Allocator :=
  (other,
   mkAllocator (m_size other) 0 0 (m_freeStorage other) 0 (m_usedBins other)
     (m_binIndices other) None None 0).

(** ** Reports *)

Definition allocationSize (allocation : OffsetAllocation) : M Z :=
  if metadata allocation =? NO_SPACE then ret 0
  else
    let* ns := gets m_nodes in
    match ns with
    | None => ret 0
    | Some _ => let* n := node_get (metadata allocation) in ret (dataSize n)
    end.

Record StorageReport : Type := mkReport { totalFreeSpace : Z; largestFreeRegion : Z }.

Definition storageReport : M StorageReport :=
  let* fo := gets m_freeOffset in
  let* mc := gets m_max_capacity in
  if fo <? mc then
    let* freeStorage := gets m_freeStorage in
    let* top := gets m_usedBinsTop in
    if top =? 0 then ret (mkReport freeStorage 0)
    else
      let* lz := clz top in
      let topBinIndex := 31 - lz in
      let* v := ubin_get topBinIndex in
      let* lz' := clz v in
      let leafBinIndex := 31 - lz' in
      ret (mkReport freeStorage
        (floatToUint (Z.lor (u32 (Z.shiftl topBinIndex TOP_BINS_INDEX_SHIFT)) leafBinIndex)))
  else ret (mkReport 0 0).

(** Walks one bin list; the fuel bounds the number of nodes followed, and
    running out of it is reported as [ub]. *)
Fixpoint countBin (fuel : nat) (nodeIndex count : Z) : M Z :=
  if nodeIndex =? unused then ret count
  else match fuel with
       | O => ub
       | S fuel =>
           let* n := node_get nodeIndex in
           countBin fuel (binListNext n) (u32 (count + 1))
       end.

Fixpoint reportBins (bs : list Z) : M (list (Z * Z)) :=
  match bs with
  | [] => ret []
  | b :: bs =>
      let* head := bin_get b in
      let* mc := gets m_max_capacity in
      let* count := countBin (Z.to_nat mc) head 0 in
      let* rest := reportBins bs in
      ret ((floatToUint b, count) :: rest)
  end.

Definition storageReportFull : M (list (Z * Z)) := reportBins (seqZ 0 NUM_LEAF_BINS).

End Alloc.
