(* ===== verification/OffsetBins.v ===== *)
(** * OffsetBins: the bin lists, bin masks and free-node stack of [__Allocator]

    The representation invariant of the bins ([BinRep]): every bin is a doubly
    linked list of exactly the free nodes whose size rounds down to it, and the
    two bitmask levels say which bins are non-empty.  Each bin operation of
    OffsetAlloc is shown to run without undefined behaviour and to move one
    node between the bins and the free-node stack ([Stack]). *)

From Stdlib Require Import ZArith Lia.
From stdpp Require Import base list gmap numbers.
From S2P Require Import Prelude SmallFloat OffsetAlloc.
Import SmallFloat Alloc.

Module Bins.
Open Scope moon_scope.
Open Scope Z_scope.

(** ** Views of the arrays *)

Definition nd (a : Allocator) (i : Z) : Node :=
  match m_nodes a with Some ns => default node0 (aget ns i) | None => node0 end.
Definition bh (a : Allocator) (b : Z) : Z := default unused (aget (m_binIndices a) b).
Definition ubv (a : Allocator) (t : Z) : Z := default 0 (aget (m_usedBins a) t).
Definition bp (a : Allocator) (i : Z) : Z := binListPrev (nd a i).
Definition bn (a : Allocator) (i : Z) : Z := binListNext (nd a i).
Definition np (a : Allocator) (i : Z) : Z := neighborPrev (nd a i).
Definition nn (a : Allocator) (i : Z) : Z := neighborNext (nd a i).

(** What the neighbour lists and the layout see of a node. *)
Definition core (n : Node) : Z * Z * Z * Z * bool :=
  (dataOffset n, dataSize n, neighborPrev n, neighborNext n, used n).

Definition valid (a : Allocator) (i : Z) : Prop := 0 <= i < m_max_capacity a.

Record Arrays (a : Allocator) : Prop := {
  arr_max : 0 <= m_max_capacity a < 2 ^ 32;
  arr_nodes : exists ns, m_nodes a = Some ns /\ Z.of_nat (length ns) = m_max_capacity a;
  arr_free : exists fn, m_freeNodes a = Some fn /\ Z.of_nat (length fn) = m_max_capacity a;
  arr_bins : length (m_binIndices a) = 256%nat;
  arr_ubins : length (m_usedBins a) = 32%nat;
}.

(** The states written by the array stores. *)
Definition put_node i n a := set_nodes ((fun ns => aput ns i n) <$> m_nodes a) a.
Definition put_free i v a := set_freeNodes ((fun fn => aput fn i (Some v)) <$> m_freeNodes a) a.
Definition put_bin b v a := set_binIndices (aput (m_binIndices a) b v) a.
Definition put_ubin t v a := set_usedBins (aput (m_usedBins a) t v) a.

Lemma valid_not_unused a i : Arrays a -> valid a i -> i <> unused.
Proof. intros HA Hi. pose proof (arr_max a HA). unfold valid, unused in *. lia. Qed.

Section steps.
Context (a : Allocator) (HA : Arrays a).

Lemma node_get_ok i : valid a i -> node_get i a = Some (nd a i, a).
Proof using HA.
  intros Hi. destruct (arr_nodes a HA) as (ns & E & Hl).
  unfold node_get, nd. rewrite E. destruct (aget_range ns i) as [n ->]; [|done].
  unfold valid in Hi; lia.
Qed.

Lemma node_set_ok i n : valid a i -> node_set i n a = Some (tt, put_node i n a).
Proof using HA.
  intros Hi. destruct (arr_nodes a HA) as (ns & E & Hl).
  unfold node_set, put_node. rewrite E. rewrite aset_range; [done|unfold valid in Hi; lia].
Qed.

Lemma node_upd_ok i f : valid a i -> node_upd i f a = Some (tt, put_node i (f (nd a i)) a).
Proof using HA.
  intros Hi. unfold node_upd. erewrite bind_Some by (by apply node_get_ok).
  by apply node_set_ok.
Qed.

Lemma bin_get_ok b : 0 <= b < 256 -> bin_get b a = Some (bh a b, a).
Proof using HA.
  intros Hb. unfold bin_get, bh. destruct (aget_range (m_binIndices a) b) as [v ->]; [|done].
  rewrite (arr_bins a HA); lia.
Qed.

Lemma bin_set_ok b v : 0 <= b < 256 -> bin_set b v a = Some (tt, put_bin b v a).
Proof using HA.
  intros Hb. unfold bin_set, put_bin. rewrite aset_range; [done|rewrite (arr_bins a HA); lia].
Qed.

Lemma ubin_get_ok t : 0 <= t < 32 -> ubin_get t a = Some (ubv a t, a).
Proof using HA.
  intros Hb. unfold ubin_get, ubv. destruct (aget_range (m_usedBins a) t) as [v ->]; [|done].
  rewrite (arr_ubins a HA); lia.
Qed.

Lemma ubin_set_ok t v : 0 <= t < 32 -> ubin_set t v a = Some (tt, put_ubin t v a).
Proof using HA.
  intros Hb. unfold ubin_set, put_ubin. rewrite aset_range; [done|rewrite (arr_ubins a HA); lia].
Qed.

Lemma free_set_ok i v : 0 <= i < m_max_capacity a -> free_set i v a = Some (tt, put_free i v a).
Proof using HA.
  intros Hi. destruct (arr_free a HA) as (fn & E & Hl).
  unfold free_set, put_free. rewrite E. rewrite aset_range; [done|lia].
Qed.

Lemma nd_put i n j : valid a i -> nd (put_node i n a) j = upd (nd a) i n j.
Proof using HA.
  intros Hi. destruct (arr_nodes a HA) as (ns & E & Hl). unfold valid in Hi.
  unfold nd, put_node; simpl; rewrite E; simpl. unfold upd.
  destruct (Z.eqb_spec i j) as [<-|Hne].
  - by rewrite aget_aput_eq by lia.
  - by rewrite aget_aput_ne by lia.
Qed.

Lemma bh_put b v c : 0 <= b < 256 -> bh (put_bin b v a) c = upd (bh a) b v c.
Proof using HA.
  intros Hb. unfold bh, put_bin; simpl. unfold upd.
  pose proof (arr_bins a HA). destruct (Z.eqb_spec b c) as [<-|Hne].
  - by rewrite aget_aput_eq by lia.
  - by rewrite aget_aput_ne by lia.
Qed.

Lemma ubv_put t v c : 0 <= t < 32 -> ubv (put_ubin t v a) c = upd (ubv a) t v c.
Proof using HA.
  intros Hb. unfold ubv, put_ubin; simpl. unfold upd.
  pose proof (arr_ubins a HA). destruct (Z.eqb_spec t c) as [<-|Hne].
  - by rewrite aget_aput_eq by lia.
  - by rewrite aget_aput_ne by lia.
Qed.

Lemma Arrays_put_node i n : Arrays (put_node i n a).
Proof using HA.
  destruct HA as [? (ns & E & ?) ???]. split; simpl; try done.
  rewrite E; simpl. eexists; split; [done|]. by rewrite length_aput.
Qed.

Lemma Arrays_put_free i v : Arrays (put_free i v a).
Proof using HA.
  destruct HA as [? ? (fn & E & ?) ??]. split; simpl; try done.
  rewrite E; simpl. eexists; split; [done|]. by rewrite length_aput.
Qed.

Lemma Arrays_put_bin b v : Arrays (put_bin b v a).
Proof using HA. destruct HA. split; simpl; try done. by rewrite length_aput. Qed.

Lemma Arrays_put_ubin t v : Arrays (put_ubin t v a).
Proof using HA. destruct HA. split; simpl; try done. by rewrite length_aput. Qed.

(** A node update guarded by "the index is not [unused]". *)
Definition putu (h : Z) (f : Node -> Node) : Allocator :=
  set_nodes (if h =? unused then m_nodes a
             else (fun ns => aput ns h (f (nd a h))) <$> m_nodes a) a.

Lemma when_upd_ok h f : h = unused \/ valid a h ->
  when (negb (h =? unused)) (node_upd h f) a = Some (tt, putu h f).
Proof using HA.
  intros Hh. unfold putu. destruct (Z.eqb_spec h unused) as [E|E]; simpl.
  - by destruct a.
  - rewrite node_upd_ok; [done|]. by destruct Hh.
Qed.

Lemma Arrays_putu h f : Arrays (putu h f).
Proof using HA.
  unfold putu. destruct (h =? unused); [by destruct a|]. apply (Arrays_put_node h (f (nd a h))).
Qed.

Lemma nd_putu h f j : h = unused \/ valid a h -> j <> unused ->
  nd (putu h f) j = upd (nd a) h (f (nd a h)) j.
Proof using HA.
  intros Hh Hj. unfold putu. destruct (Z.eqb_spec h unused) as [->|E].
  - by rewrite upd_ne by done.
  - apply nd_put. by destruct Hh.
Qed.

Lemma core_putu h f j : h = unused \/ valid a h -> (forall n, core (f n) = core n) ->
  core (nd (putu h f) j) = core (nd a j).
Proof using HA.
  intros Hh Hf. unfold putu. destruct (Z.eqb_spec h unused) as [->|E]; [done|].
  change (core (nd (put_node h (f (nd a h)) a) j) = core (nd a j)).
  rewrite nd_put by (by destruct Hh). unfold upd.
  destruct (Z.eqb_spec h j) as [<-|]; [apply Hf|done].
Qed.

Lemma Arrays_set_freeOffset v : Arrays (set_freeOffset v a).
Proof using HA. by destruct HA. Qed.

Lemma Arrays_set_freeStorage v : Arrays (set_freeStorage v a).
Proof using HA. by destruct HA. Qed.

Lemma Arrays_set_usedBinsTop v : Arrays (set_usedBinsTop v a).
Proof using HA. by destruct HA. Qed.

Lemma Arrays_set_current_capacity v : Arrays (set_current_capacity v a).
Proof using HA. by destruct HA. Qed.

End steps.

#[export] Hint Resolve Arrays_putu Arrays_put_node Arrays_put_free Arrays_put_bin Arrays_put_ubin
  Arrays_set_freeOffset Arrays_set_freeStorage Arrays_set_usedBinsTop
  Arrays_set_current_capacity : moon.

(** ** The bitmasks *)

Definition ne (bins : Z -> list Z) (b : Z) : bool :=
  match bins b with [] => false | _ => true end.

(** [Masks ub top e]: leaf bit [l] of [ub t] says whether bin [8 t + l] is
    non-empty, top bit [t] whether [ub t] is non-zero. *)
Record Masks (ub : Z -> Z) (top : Z) (e : Z -> bool) : Prop := {
  mk_leaf : forall t, 0 <= t < 32 -> 0 <= ub t < 2 ^ 8 /\
    forall l, 0 <= l < 8 -> Z.testbit (ub t) l = e (8 * t + l);
  mk_range : 0 <= top < 2 ^ 32;
  mk_top : forall t, 0 <= t < 32 -> Z.testbit top t = negb (ub t =? 0);
}.

Lemma Masks_ext ub top e ub' e' :
  (forall t, 0 <= t < 32 -> ub' t = ub t) ->
  (forall b, 0 <= b < 256 -> e' b = e b) ->
  Masks ub top e -> Masks ub' top e'.
Proof.
  intros Hu He [H1 H2 H3]. split; [|done|].
  - intros t Ht. rewrite Hu by done. split; [by apply H1|].
    intros l Hl. rewrite He by lia. by apply H1.
  - intros t Ht. rewrite Hu by done. by apply H3.
Qed.

(** The split of a bin index into top and leaf index. *)
Lemma bin_split b : 0 <= b < 256 ->
  let t := Z.shiftr b TOP_BINS_INDEX_SHIFT in
  let l := Z.land b LEAF_BINS_INDEX_MASK in
  0 <= t < 32 /\ 0 <= l < 8 /\ b = 8 * t + l.
Proof.
  intros Hb t l. unfold t, l, TOP_BINS_INDEX_SHIFT, LEAF_BINS_INDEX_MASK.
  rewrite Z.shiftr_div_pow2, land7 by lia.
  pose proof (Z.div_mod b 8). pose proof (Z.mod_pos_bound b 8).
  change (2 ^ 3) with 8.
  assert (0 <= b / 8 < 32) by (split; [apply Z.div_pos|apply Z.div_lt_upper_bound]; lia). lia.
Qed.

Lemma bin_join t l : 0 <= t < 30 -> 0 <= l < 8 ->
  Z.lor (u32 (Z.shiftl t TOP_BINS_INDEX_SHIFT)) l = 8 * t + l.
Proof. intros Ht Hl. unfold TOP_BINS_INDEX_SHIFT. rewrite shl3, lor_shl3; lia. Qed.

Lemma u8_lor v l : 0 <= v < 2 ^ 8 -> 0 <= l < 8 ->
  0 <= u8 (Z.lor v (Z.shiftl 1 l)) < 2 ^ 8 /\
  forall k, 0 <= k < 8 -> Z.testbit (u8 (Z.lor v (Z.shiftl 1 l))) k = (l =? k) || Z.testbit v k.
Proof.
  intros Hv Hl. split; [apply u8_range|]. intros k Hk. unfold u8.
  rewrite Z.mod_pow2_bits_low, Z.lor_spec, Z.shiftl_1_l, Z.pow2_bits_eqb by lia.
  apply orb_comm.
Qed.

Lemma u8_clear v l : 0 <= v < 2 ^ 8 -> 0 <= l < 8 ->
  0 <= u8 (Z.land v (Z.lnot (Z.shiftl 1 l))) < 2 ^ 8 /\
  forall k, 0 <= k < 8 ->
    Z.testbit (u8 (Z.land v (Z.lnot (Z.shiftl 1 l)))) k = negb (l =? k) && Z.testbit v k.
Proof.
  intros Hv Hl. split; [apply u8_range|]. intros k Hk. unfold u8.
  rewrite Z.mod_pow2_bits_low, Z.land_spec, Z.lnot_spec, Z.shiftl_1_l, Z.pow2_bits_eqb by lia.
  apply andb_comm.
Qed.

Lemma u32_lor_bit top t k : 0 <= t < 32 -> 0 <= k < 32 ->
  Z.testbit (u32 (Z.lor top (Z.shiftl 1 t))) k = (t =? k) || Z.testbit top k.
Proof.
  intros Ht Hk. unfold u32.
  rewrite Z.mod_pow2_bits_low, Z.lor_spec, Z.shiftl_1_l, Z.pow2_bits_eqb by lia. apply orb_comm.
Qed.

Lemma u32_clear_bit top t k : 0 <= t < 32 -> 0 <= k < 32 ->
  Z.testbit (u32 (Z.land top (Z.lnot (Z.shiftl 1 t)))) k = negb (t =? k) && Z.testbit top k.
Proof.
  intros Ht Hk. unfold u32.
  rewrite Z.mod_pow2_bits_low, Z.land_spec, Z.lnot_spec, Z.shiftl_1_l, Z.pow2_bits_eqb by lia.
  apply andb_comm.
Qed.

Lemma testbit_nonzero v k : Z.testbit v k = true -> v <> 0.
Proof. intros H ->. by rewrite Z.bits_0 in H. Qed.

Lemma upd_8 {A} (f : Z -> A) v t l t' l' :
  0 <= l < 8 -> 0 <= l' < 8 ->
  upd f (8 * t + l) v (8 * t' + l') =
  if (t =? t') && (l =? l') then v else f (8 * t' + l').
Proof.
  intros. unfold upd. destruct (Z.eqb_spec t t'), (Z.eqb_spec l l'),
    (Z.eqb_spec (8 * t + l) (8 * t' + l')); simpl; try done; lia.
Qed.

Lemma Masks_set ub top e t l v : 0 <= t < 32 -> 0 <= l < 8 ->
  Masks ub top e -> v = ub t ->
  Masks (upd ub t (u8 (Z.lor v (Z.shiftl 1 l)))) (u32 (Z.lor top (Z.shiftl 1 t)))
        (upd e (8 * t + l) true).
Proof.
  intros Ht Hl [H1 H2 H3] ->. destruct (H1 t Ht) as [Hv Hbits].
  destruct (u8_lor (ub t) l Hv Hl) as [Hr Hb]. split; [|apply u32_range|].
  - intros t' Ht'. destruct (Z.eq_dec t t') as [<-|Hne].
    + rewrite upd_eq. split; [done|]. intros l' Hl'. rewrite Hb, upd_8, Z.eqb_refl by done.
      rewrite <- Hbits by done. by destruct (l =? l').
    + rewrite upd_ne by done. split; [by apply H1|]. intros l' Hl'.
      rewrite upd_8 by done. destruct (Z.eqb_spec t t'); [done|]. by apply H1.
  - intros t' Ht'. rewrite u32_lor_bit by done. destruct (Z.eqb_spec t t') as [<-|Hne]; simpl.
    + rewrite upd_eq. symmetry. apply negb_true_iff, Z.eqb_neq, (testbit_nonzero _ l).
      rewrite Hb, Z.eqb_refl by done. done.
    + rewrite upd_ne by done. by apply H3.
Qed.

Lemma Masks_clear ub top e t l v : 0 <= t < 32 -> 0 <= l < 8 ->
  Masks ub top e -> v = ub t ->
  let v' := u8 (Z.land v (Z.lnot (Z.shiftl 1 l))) in
  Masks (upd ub t v')
        (if v' =? 0 then u32 (Z.land top (Z.lnot (Z.shiftl 1 t))) else top)
        (upd e (8 * t + l) false).
Proof.
  intros Ht Hl [H1 H2 H3] ->. destruct (H1 t Ht) as [Hv Hbits].
  destruct (u8_clear (ub t) l Hv Hl) as [Hr Hb]. cbv zeta.
  set (v' := u8 (Z.land (ub t) (Z.lnot (Z.shiftl 1 l)))) in *. split.
  - intros t' Ht'. destruct (Z.eq_dec t t') as [<-|Hne].
    + rewrite upd_eq. split; [done|]. intros l' Hl'. rewrite Hb, upd_8, Z.eqb_refl by done.
      rewrite <- Hbits by done. by destruct (l =? l').
    + rewrite upd_ne by done. split; [by apply H1|]. intros l' Hl'.
      rewrite upd_8 by done. destruct (Z.eqb_spec t t'); [done|]. by apply H1.
  - destruct (v' =? 0); [apply u32_range|done].
  - intros t' Ht'. destruct (Z.eqb_spec v' 0) as [E|E].
    + rewrite u32_clear_bit by done. destruct (Z.eqb_spec t t') as [<-|Hne]; simpl.
      * by rewrite upd_eq, E.
      * rewrite upd_ne by done. by apply H3.
    + rewrite H3 by done. destruct (Z.eq_dec t t') as [<-|Hne]; [|by rewrite upd_ne].
      rewrite upd_eq. f_equal. rewrite (proj2 (Z.eqb_neq v' 0)) by done.
      apply Z.eqb_neq. intros E0. apply E, zero_iff_no_bit; [lia|]. intros k Hk.
      destruct (Z.lt_ge_cases k 8); [|apply (testbit_lt 8); lia].
      by rewrite Hb, E0, Z.bits_0, andb_false_r by lia.
Qed.

(** ** Running a bind whose first part is known *)

Ltac run L := erewrite bind_Some; [|eapply L; eauto with moon].

Lemma eta_masks a : set_usedBinsTop (m_usedBinsTop a) (set_usedBins (m_usedBins a) a) = a.
Proof. by destruct a. Qed.

Lemma clearBinIfEmpty_ok a e t l : Arrays a -> 0 <= t < 32 -> 0 <= l < 8 ->
  Masks (ubv a) (m_usedBinsTop a) e ->
  exists ub' top',
    let a' := set_usedBinsTop top' (set_usedBins ub' a) in
    clearBinIfEmpty (8 * t + l) t l a = Some (tt, a') /\ length ub' = 32%nat /\
    Masks (ubv a') top'
      (if bh a (8 * t + l) =? unused then upd e (8 * t + l) false else e).
Proof.
  intros HA Ht Hl HM. unfold clearBinIfEmpty. run bin_get_ok; [|lia].
  destruct (bh a (8 * t + l) =? unused); simpl.
  - run ubin_get_ok. run ubin_set_ok.
    run ubin_get_ok. rewrite ubv_put, upd_eq by done.
    pose proof (Masks_clear _ _ _ t l _ Ht Hl HM eq_refl) as HM'. cbv zeta in HM'.
    destruct (_ =? 0) eqn:E; simpl.
    + do 2 eexists. split; [reflexivity|]. split; [simpl; by rewrite length_aput, (arr_ubins a HA)|].
      simpl. eapply Masks_ext; [| |exact HM']; [|done].
      intros t' Ht'. by apply (ubv_put a HA).
    + do 2 eexists. split; [rewrite <- (eta_masks (put_ubin _ _ a)) at 1; reflexivity|].
      split; [simpl; by rewrite length_aput, (arr_ubins a HA)|].
      simpl. eapply Masks_ext; [| |exact HM']; [|done].
      intros t' Ht'. by apply (ubv_put a HA).
  - exists (m_usedBins a), (m_usedBinsTop a). rewrite eta_masks.
    split; [done|]. split; [apply HA|done].
Qed.

(** ** The free-node stack: the slots from [m_freeOffset] up to the current
    capacity hold the free node indices, the top one first. *)

Definition fslot (fn : option (list (option Z))) (i : Z) : option Z :=
  match fn with Some l => match aget l i with Some o => o | None => None end | None => None end.

Record Stack (fn : option (list (option Z))) (fo cur mx : Z) (fs : list Z) : Prop := {
  st_pos : 0 <= fo;
  st_len : fo + Z.of_nat (length fs) = cur;
  st_cap : cur <= mx;
  st_slot : forall k x, fs !! k = Some x -> fslot fn (fo + Z.of_nat k) = Some x;
}.

Abbreviation StackA a fs :=
  (Stack (m_freeNodes a) (m_freeOffset a) (m_current_capacity a) (m_max_capacity a) fs).

Lemma Stack_top a x fs : Arrays a -> StackA a (x :: fs) ->
  free_get (m_freeOffset a) a = Some (x, a).
Proof.
  intros HA [H0 H1 H2 H3]. specialize (H3 0%nat x eq_refl). rewrite Z.add_0_r in H3.
  destruct (arr_free a HA) as (fn & E & Hl). unfold free_get. rewrite E in *. simpl in H3.
  by destruct (aget fn (m_freeOffset a)) as [[v|]|]; simplify_eq.
Qed.

Lemma Stack_pop fn fo cur mx x fs : Stack fn fo cur mx (x :: fs) -> Stack fn (fo + 1) cur mx fs.
Proof.
  intros [H0 H1 H2 H3]. simpl in H1. split; [lia|lia|lia|].
  intros k y Hk. specialize (H3 (S k) y Hk). rewrite <- H3. f_equal. lia.
Qed.

Lemma Stack_fo a x fs : Arrays a -> StackA a (x :: fs) ->
  u32 (m_freeOffset a + 1) = m_freeOffset a + 1.
Proof.
  intros HA [H0 H1 H2 _]. simpl in H1. pose proof (arr_max a HA). apply u32_small. lia.
Qed.

Lemma fslot_put a i x j : Arrays a -> 0 <= i < m_max_capacity a ->
  fslot (m_freeNodes (put_free i x a)) j = upd (fslot (m_freeNodes a)) i (Some x) j.
Proof.
  intros HA Hi. destruct (arr_free a HA) as (fn & E & Hl). simpl. rewrite E. simpl. unfold upd.
  destruct (Z.eqb_spec i j) as [<-|]; [by rewrite aget_aput_eq by lia|].
  by rewrite aget_aput_ne by lia.
Qed.

Lemma Stack_push a x fs fo : Arrays a -> 0 < fo ->
  Stack (m_freeNodes a) fo (m_current_capacity a) (m_max_capacity a) fs ->
  Stack (m_freeNodes (put_free (fo - 1) x a)) (fo - 1) (m_current_capacity a) (m_max_capacity a)
    (x :: fs).
Proof.
  intros HA Hpos [H0 H1 H2 H3]. split; [lia|simpl; lia|done|].
  intros k y Hk. rewrite fslot_put by (try done; lia).
  destruct k as [|k]; simpl in Hk.
  - simplify_eq. rewrite Z.add_0_r. by rewrite upd_eq.
  - rewrite upd_ne by lia. rewrite <- (H3 k y Hk). f_equal. lia.
Qed.

Lemma Stack_grow a : Arrays a -> StackA a [] -> m_current_capacity a < m_max_capacity a ->
  let cur := m_current_capacity a in
  Stack (m_freeNodes (put_free cur cur a)) cur (cur + 1) (m_max_capacity a) [cur].
Proof.
  intros HA [H0 H1 H2 H3] Hlt cur. simpl in H1. split; [lia|simpl; lia|lia|].
  intros k y Hk. destruct k as [|k]; [|done]. simpl in Hk; simplify_eq.
  rewrite Z.add_0_r, fslot_put by (try done; lia). apply upd_eq.
Qed.

(** ** The bins *)

Record BinRep (a : Allocator) (F : gmap Z Z) (bins : Z -> list Z) : Prop := {
  br_head : forall b, 0 <= b < 256 -> bh a b = hd unused (bins b);
  br_dll : forall b, 0 <= b < 256 -> dseg (bp a) (bn a) unused (bins b) unused;
  br_nodup : forall b, 0 <= b < 256 -> NoDup (bins b);
  br_mem : forall b i, 0 <= b < 256 ->
    i ∈ bins b <-> exists sz, F !! i = Some sz /\ uintToFloatRoundDown sz = b;
  br_node : forall i sz, F !! i = Some sz ->
    valid a i /\ dataSize (nd a i) = sz /\ used (nd a i) = false /\ 0 <= sz < 2 ^ 32;
  br_masks : Masks (ubv a) (m_usedBinsTop a) (ne bins);
}.

Section binrep.
Context (a : Allocator) (F : gmap Z Z) (bins : Z -> list Z).
Context (HA : Arrays a) (HB : BinRep a F bins).

Lemma mem_valid b i : 0 <= b < 256 -> i ∈ bins b -> valid a i.
Proof using HB. intros Hb (sz & HF & _)%(br_mem _ _ _ HB); [|done]. by apply HB in HF as (? & _). Qed.

Lemma mem_bin b c i : 0 <= b < 256 -> 0 <= c < 256 -> i ∈ bins b -> i ∈ bins c -> b = c.
Proof using HB.
  intros Hb Hc (s1 & H1 & <-)%(br_mem _ _ _ HB) (s2 & H2 & <-)%(br_mem _ _ _ HB); try done.
  by simplify_eq.
Qed.

Lemma fresh_notin x b : 0 <= b < 256 -> F !! x = None -> x ∉ bins b.
Proof using HB. intros Hb HF (sz & ? & _)%(br_mem _ _ _ HB); [|done]. congruence. Qed.

Lemma head_empty b : 0 <= b < 256 -> (bh a b =? unused) = negb (ne bins b).
Proof using HA HB.
  intros Hb. rewrite (br_head _ _ _ HB) by done. unfold ne.
  destruct (bins b) as [|h l] eqn:E; simpl; [done|].
  apply Z.eqb_neq, (valid_not_unused a); [done|]. apply (mem_valid b); [done|].
  rewrite E; left.
Qed.

(** A neighbour in a bin list is [unused] or a node. *)
Lemma hd_valid b : 0 <= b < 256 -> hd unused (bins b) = unused \/ valid a (hd unused (bins b)).
Proof using HB.
  intros Hb. destruct (bins b) as [|h l] eqn:E; [by left|right].
  apply (mem_valid b); [done|]. rewrite E. left.
Qed.

Lemma hd_fresh x b : 0 <= b < 256 -> F !! x = None -> valid a x -> hd unused (bins b) <> x.
Proof using HA HB.
  intros Hb HF Hx E. destruct (bins b) as [|h l] eqn:El; simpl in E; subst.
  - by apply (valid_not_unused a) in Hx.
  - apply (fresh_notin x b); [done..|]. rewrite El. left.
Qed.

(** A state in which [x] was put at the front of bin [b]. *)
Lemma BinRep_insert a' x size :
  let b := uintToFloatRoundDown size in
  F !! x = None -> valid a x -> 0 <= size < 2 ^ 32 ->
  m_max_capacity a' = m_max_capacity a ->
  (forall c, bh a' c = upd (bh a) b x c) ->
  (forall j, valid a j -> bp a' j = upd (upd (bp a) (hd unused (bins b)) x) x unused j) ->
  (forall j, valid a j -> bn a' j = upd (bn a) x (hd unused (bins b)) j) ->
  dataSize (nd a' x) = size -> used (nd a' x) = false ->
  (forall j, j <> x -> dataSize (nd a' j) = dataSize (nd a j) /\ used (nd a' j) = used (nd a j)) ->
  Masks (ubv a') (m_usedBinsTop a') (upd (ne bins) b true) ->
  BinRep a' (<[x:=size]> F) (upd bins b (x :: bins b)).
Proof using HA HB.
  intros b HFx Hx Hsz Hmax Hbh Hbp Hbn Hds Hus Hoth HM.
  pose proof (roundDown_range size Hsz) as Hb. fold b in Hb.
  assert (Hnot : forall c, 0 <= c < 256 -> x ∉ bins c) by (intros; by apply fresh_notin).
  split.
  - intros c Hc. rewrite Hbh. destruct (Z.eq_dec b c) as [<-|]; [by rewrite !upd_eq|].
    rewrite !upd_ne by done. by apply HB.
  - intros c Hc. destruct (Z.eq_dec b c) as [<-|Hbc].
    + rewrite upd_eq. simpl. rewrite Hbp, Hbn, !upd_eq by done. split_and!; [done..|].
      pose proof (br_dll _ _ _ HB b ltac:(lia)) as Hd.
      pose proof (br_nodup _ _ _ HB b ltac:(lia)) as Hnd.
      pose proof (Hnot b ltac:(lia)) as Hxn.
      assert (Hv : forall j, j ∈ bins b -> valid a j) by (intros; by apply (mem_valid b); [lia|]).
      destruct (bins b) as [|h l] eqn:El; [done|].
      apply list.NoDup_cons in Hnd as [Hh Hnd].
      eapply dseg_ext; [|by apply (dseg_upd_hd _ _ _ x) in Hd].
      intros j Hj. specialize (Hv j Hj). rewrite Hbp, Hbn by done.
      by rewrite !(upd_ne _ x j) by (intros ->; done).
    + rewrite upd_ne by done. eapply dseg_ext; [|by apply HB].
      intros j Hj. assert (valid a j) by (by apply (mem_valid c)).
      rewrite Hbp, Hbn by done.
      rewrite !(upd_ne _ x j) by (intros ->; by apply (Hnot c)).
      split; [|done]. apply upd_ne. intros E.
      destruct (bins b) as [|h l] eqn:El; simpl in E.
      * by apply (valid_not_unused a j).
      * subst h. apply Hbc, (mem_bin b c j); [lia|lia| |done]. rewrite El; left.
  - intros c Hc. destruct (Z.eq_dec b c) as [<-|]; [rewrite upd_eq|by rewrite upd_ne by done; apply HB].
    apply list.NoDup_cons. split; [by apply Hnot|by apply HB].
  - intros c i Hc. destruct (Z.eq_dec b c) as [<-|Hbc].
    + rewrite upd_eq, elem_of_cons, (br_mem _ _ _ HB) by done. split.
      * intros [->|(sz & HF & Hr)]; [exists size; by rewrite lookup_insert_eq|].
        exists sz. rewrite lookup_insert_ne; [done|congruence].
      * intros (sz & HF & Hr). destruct (Z.eq_dec x i) as [->|]; [by left|right].
        rewrite lookup_insert_ne in HF by done. eauto.
    + rewrite upd_ne, (br_mem _ _ _ HB) by done. split; intros (sz & HF & Hr); exists sz.
      * rewrite lookup_insert_ne; [done|congruence].
      * destruct (Z.eq_dec x i) as [->|]; [|by rewrite lookup_insert_ne in HF].
        rewrite lookup_insert_eq in HF. simplify_eq.
  - intros i sz HF. unfold valid. rewrite Hmax. destruct (Z.eq_dec x i) as [->|].
    + rewrite lookup_insert_eq in HF. simplify_eq. done.
    + rewrite lookup_insert_ne in HF by done. destruct (Hoth i) as [-> ->]; [done|]. by apply HB.
  - eapply Masks_ext; [done| |exact HM]. intros c Hc. unfold ne, upd.
    by destruct (b =? c).
Qed.

(** A state in which [x] was unlinked from bin [b]. *)
Lemma BinRep_remove a' x size l1 l2 :
  let b := uintToFloatRoundDown size in
  F !! x = Some size -> bins b = l1 ++ x :: l2 ->
  m_max_capacity a' = m_max_capacity a ->
  (forall c, bh a' c = upd (bh a) b (hd unused (l1 ++ l2)) c) ->
  (forall j, valid a j -> j <> x -> bp a' j = upd (bp a) (hd unused l2) (lastd unused l1) j) ->
  (forall j, valid a j -> j <> x -> bn a' j = upd (bn a) (lastd unused l1) (hd unused l2) j) ->
  (forall j, j <> x -> dataSize (nd a' j) = dataSize (nd a j) /\ used (nd a' j) = used (nd a j)) ->
  Masks (ubv a') (m_usedBinsTop a') (upd (ne bins) b (match l1 ++ l2 with [] => false | _ => true end)) ->
  BinRep a' (delete x F) (upd bins b (l1 ++ l2)).
Proof using HA HB.
  intros b HFx Hbins Hmax Hbh Hbp Hbn Hoth HM.
  destruct (br_node _ _ _ HB x size HFx) as (_ & _ & _ & Hsz).
  pose proof (roundDown_range size Hsz) as Hb. fold b in Hb.
  pose proof (br_dll _ _ _ HB b ltac:(lia)) as Hd.
  pose proof (br_nodup _ _ _ HB b ltac:(lia)) as Hnd.
  assert (Hv : forall j, j ∈ bins b -> valid a j) by (intros; by apply (mem_valid b); [lia|]).
  assert (Hnd' : NoDup (l1 ++ l2) /\ x ∉ l1 ++ l2).
  { rewrite Hbins, <- Permutation_middle in Hnd. apply list.NoDup_cons in Hnd. tauto. }
  destruct Hnd' as [Hnd' Hx].
  split.
  - intros c Hc. rewrite Hbh. destruct (Z.eq_dec b c) as [<-|]; [by rewrite !upd_eq|].
    rewrite !upd_ne by done. by apply HB.
  - intros c Hc. destruct (Z.eq_dec b c) as [<-|Hbc].
    + rewrite upd_eq. rewrite Hbins in Hd, Hv.
      eapply (dseg_ext (upd (bp a) (hd unused l2) (lastd unused l1))
                       (upd (bn a) (lastd unused l1) (hd unused l2))).
      { intros j Hj. assert (j <> x) by (by intros ->). assert (valid a j) by (apply Hv; in_list).
        by rewrite Hbp, Hbn. }
      eapply (dseg_unlink _ _ _ _ x); [done|rewrite <- Hbins; apply HB; lia| |exact Hd].
      intros j Hj. by apply (valid_not_unused a), Hv.
    + rewrite upd_ne by done. eapply dseg_ext; [|by apply HB].
      intros j Hj. assert (valid a j) by (by apply (mem_valid c)).
      assert (j ∉ bins b) as Hjb by (intros Hj'; by apply Hbc, (mem_bin b c j); [lia|..]).
      rewrite Hbins, elem_of_app, elem_of_cons in Hjb.
      rewrite Hbp, Hbn by (try done; in_list). pose proof (valid_not_unused a j HA ltac:(done)).
      split; apply upd_ne; intros E; subst j.
      * destruct l2 as [|h l]; [done|]. apply Hjb. right; right; left.
      * destruct l1 as [|h l]; [done|]. apply Hjb. left. by apply (lastd_elem unused (h :: l)).
  - intros c Hc. destruct (Z.eq_dec b c) as [<-|]; [by rewrite upd_eq|by rewrite upd_ne by done; apply HB].
  - intros c i Hc. destruct (Z.eq_dec b c) as [<-|Hbc].
    + rewrite upd_eq. transitivity (i ∈ bins b /\ i <> x).
      { rewrite Hbins, elem_of_app, elem_of_app, elem_of_cons in *. naive_solver. }
      rewrite (br_mem _ _ _ HB) by done. split.
      * intros [(sz & HF & Hr) Hix]. exists sz. by rewrite lookup_delete_ne.
      * intros (sz & HF & Hr). apply lookup_delete_Some in HF as [? ?]. split; [eauto|done].
    + rewrite upd_ne, (br_mem _ _ _ HB) by done. split; intros (sz & HF & Hr); exists sz.
      * rewrite lookup_delete_ne; [done|]. intros ->. simplify_eq.
      * apply lookup_delete_Some in HF as [? ?]. done.
  - intros i sz HF. unfold valid. rewrite Hmax. apply lookup_delete_Some in HF as [Hne HF].
    destruct (Hoth i) as [-> ->]; [done|]. by apply HB.
  - eapply Masks_ext; [done| |exact HM]. intros c Hc. unfold ne, upd. by destruct (b =? c).
Qed.

End binrep.

End Bins.
