(* ===== verification/OffsetBinOps.v ===== *)
(** * OffsetBinOps: the bin operations of [__Allocator] meet their contracts

    [insertNodeIntoBin], [removeNodeFromBin], [searchBin] and [popBin] run
    without undefined behaviour on a represented state, and their effect on
    the bins, the free-node stack and the nodes is exactly one insertion or
    removal. *)

From Stdlib Require Import ZArith Lia.
From stdpp Require Import base list gmap numbers.
From S2P Require Import Prelude SmallFloat OffsetAlloc OffsetBins.
Import SmallFloat Alloc Bins.

Module BinOps.
Open Scope moon_scope.
Open Scope Z_scope.

Lemma core_eq n n' : core n = core n' ->
  dataOffset n = dataOffset n' /\ dataSize n = dataSize n' /\ neighborPrev n = neighborPrev n' /\
  neighborNext n = neighborNext n' /\ used n = used n'.
Proof. unfold core; intros; by simplify_eq. Qed.

(** Setting the leaf and top bits of an empty bin, or nothing. *)
Lemma markBin_ok a e t l (c : bool) : Arrays a -> 0 <= t < 32 -> 0 <= l < 8 ->
  Masks (ubv a) (m_usedBinsTop a) e -> (c = false -> e (8 * t + l) = true) ->
  exists ub' top',
    let a' := set_usedBinsTop top' (set_usedBins ub' a) in
    when c
      (let* v := ubin_get t in
       do* ubin_set t (u8 (Z.lor v (Z.shiftl 1 l))) in
       modify (fun a => set_usedBinsTop (u32 (Z.lor (m_usedBinsTop a) (Z.shiftl 1 t))) a)) a
    = Some (tt, a') /\ length ub' = 32%nat /\ Masks (ubv a') top' (upd e (8 * t + l) true).
Proof.
  intros HA Ht Hl HM He. destruct c; simpl.
  - run ubin_get_ok. run ubin_set_ok.
    do 2 eexists. split; [reflexivity|]. split; [simpl; by rewrite length_aput, (arr_ubins a HA)|].
    pose proof (Masks_set _ _ _ t l _ Ht Hl HM eq_refl) as HM'.
    eapply Masks_ext; [| |exact HM']; [|done]. intros t' Ht'. by apply (ubv_put a HA).
  - exists (m_usedBins a), (m_usedBinsTop a). rewrite eta_masks.
    split; [done|]. split; [apply HA|].
    eapply Masks_ext; [done| |exact HM]. intros b Hb. unfold upd.
    destruct (Z.eqb_spec (8 * t + l) b) as [<-|]; [by rewrite He|done].
Qed.

Lemma Arrays_masks a ub' top' : Arrays a -> length ub' = 32%nat ->
  Arrays (set_usedBinsTop top' (set_usedBins ub' a)).
Proof. intros HA Hl. destruct HA. by split. Qed.

Section ops.
Context (a : Allocator) (F : gmap Z Z) (bins : Z -> list Z).
Context (HA : Arrays a) (HB : BinRep a F bins).

Lemma insertNodeIntoBin_ok x fs size off :
  StackA a (x :: fs) -> valid a x -> F !! x = None -> 0 <= size < 2 ^ 32 ->
  let b := uintToFloatRoundDown size in
  exists top' ub' bi' ns',
    let a' := mkAllocator (m_size a) (m_current_capacity a) (m_max_capacity a)
      (u32 (m_freeStorage a + size)) top' ub' bi' ns' (m_freeNodes a) (m_freeOffset a + 1) in
    insertNodeIntoBin size off a = Some (x, a') /\ Arrays a' /\
    BinRep a' (<[x:=size]> F) (upd bins b (x :: bins b)) /\ StackA a' fs /\
    core (nd a' x) = (off, size, unused, unused, false) /\
    (forall j, j <> x -> core (nd a' j) = core (nd a j)).
Proof using HA HB.
  intros HS Hx HFx Hsz b. pose proof (roundDown_range size Hsz) as Hb. fold b in Hb.
  destruct (bin_split b ltac:(lia)) as (Ht & Hl & Hbtl). cbv zeta in Ht, Hl, Hbtl.
  unfold insertNodeIntoBin. fold b.
  set (t := Z.shiftr b TOP_BINS_INDEX_SHIFT) in *. set (l := Z.land b LEAF_BINS_INDEX_MASK) in *.
  run bin_get_ok; [|lia].
  destruct (markBin_ok a (ne bins) t l (bh a b =? unused) HA Ht Hl (br_masks _ _ _ HB))
    as (ub' & top' & Hrun & Hlen & HM).
  { rewrite (head_empty _ _ _ HA HB), Hbtl by lia. by intros ->%negb_false_iff. }
  rewrite <- Hbtl in HM. erewrite bind_Some by exact Hrun. clear Hrun.
  set (a1 := set_usedBinsTop top' (set_usedBins ub' a)) in *.
  assert (HA1 : Arrays a1) by (by apply Arrays_masks).
  run bin_get_ok; [|lia]. rewrite bind_gets.
  erewrite bind_Some by (apply (Stack_top a1 x fs HA1 HS)).
  rewrite bind_modify. change (m_freeOffset a1) with (m_freeOffset a).
  rewrite (Stack_fo a x fs HA HS). change (bh a1 b) with (bh a b).
  rewrite (br_head _ _ _ HB) by lia.
  set (h := hd unused (bins b)). set (a2 := set_freeOffset _ a1).
  assert (HA2 : Arrays a2) by (unfold a2; auto with moon).
  run (node_set_ok a2 HA2). set (a3 := put_node x _ a2).
  assert (HA3 : Arrays a3) by (unfold a3; auto with moon).
  assert (Hnd3 : forall j, nd a3 j = upd (nd a) x (mkNode off size unused h unused unused false) j)
    by (intros j; by apply (nd_put a2 HA2)).
  assert (Hh : h = unused \/ valid a3 h) by (apply (hd_valid a F bins HB); lia).
  erewrite bind_Some by (by apply (when_upd_ok a3 HA3)).
  set (a4 := putu a3 h (set_binListPrev x)).
  assert (HA4 : Arrays a4) by (by apply Arrays_putu).
  run bin_set_ok; [|lia]. rewrite bind_modify.
  assert (Hnd4 : forall j, valid a j -> nd a4 j = upd (nd a3) h (set_binListPrev x (nd a3 h)) j).
  { intros j Hj. apply nd_putu; [done..|]. by apply (valid_not_unused a). }
  assert (Hcore : forall j, core (nd a4 j) = core (upd (nd a) x (mkNode off size unused h unused unused false) j)).
  { intros j. rewrite <- Hnd3. by apply core_putu. }
  assert (Hhx : h <> x) by (apply (hd_fresh a F bins HA HB); [lia|done..]).
  do 4 eexists. split; [reflexivity|]. cbv zeta.
  match goal with |- Arrays ?A /\ _ => set (a' := A) end.
  assert (Arrays a') by (change a' with (set_freeStorage (u32 (m_freeStorage a + size)) (put_bin b x a4)); auto with moon).
  split; [done|]. split; [|split; [by apply (Stack_pop _ _ _ _ x)|split]].
  - apply (BinRep_insert a F bins HA HB); try done; fold b.
    + intros c. apply (bh_put a4 HA4). lia.
    + intros j Hj. change (binListPrev (nd a4 j) = upd (upd (bp a) h x) x unused j).
      rewrite Hnd4 by done. unfold upd, bp. rewrite !Hnd3. upd_cases.
    + intros j Hj. change (binListNext (nd a4 j) = upd (bn a) x h j).
      rewrite Hnd4 by done. unfold upd, bn. rewrite !Hnd3. upd_cases.
    + pose proof (Hcore x) as E. rewrite upd_eq in E. apply core_eq in E as (_ & E & _). exact E.
    + pose proof (Hcore x) as E. rewrite upd_eq in E. apply core_eq in E as (_ & _ & _ & _ & E). exact E.
    + intros j Hj. pose proof (Hcore j) as E. rewrite upd_ne in E by done.
      apply core_eq in E as (_ & E1 & _ & _ & E2). exact (conj E1 E2).
  - etransitivity; [apply (Hcore x)|]. by rewrite upd_eq.
  - intros j Hj. etransitivity; [apply (Hcore j)|]. by rewrite upd_ne.
Qed.

(** Where a binned node sits, and what its links are. *)
Lemma binned_split x size : F !! x = Some size ->
  let b := uintToFloatRoundDown size in
  0 <= b < 240 /\ valid a x /\ dataSize (nd a x) = size /\
  exists l1 l2, bins b = l1 ++ x :: l2 /\ NoDup (l1 ++ x :: l2) /\
    bp a x = lastd unused l1 /\ bn a x = hd unused l2 /\
    (lastd unused l1 = unused \/ valid a (lastd unused l1)) /\
    (hd unused l2 = unused \/ valid a (hd unused l2)) /\
    lastd unused l1 <> x /\ hd unused l2 <> x.
Proof using HA HB.
  intros HFx b. destruct (br_node _ _ _ HB x size HFx) as (Hv & Hds & _ & Hsz).
  pose proof (roundDown_range size Hsz) as Hb. fold b in Hb.
  split; [done|]. split; [done|]. split; [done|].
  assert (x ∈ bins b) as Hx by (apply (br_mem _ _ _ HB); [lia|eauto]).
  pose proof (br_nodup _ _ _ HB b ltac:(lia)) as Hnd.
  pose proof (br_dll _ _ _ HB b ltac:(lia)) as Hd.
  assert (Hmv : forall j, j ∈ bins b -> valid a j) by (intros; apply (mem_valid a F bins HB b); [lia|done]).
  apply list_elem_of_split in Hx as (l1 & l2 & E). rewrite E in Hnd, Hd, Hmv.
  destruct (dseg_mid _ _ _ _ _ _ _ Hd) as [Hp Hn].
  exists l1, l2. split; [done|]. split; [done|]. split; [done|]. split; [done|].
  rewrite <- Permutation_middle in Hnd. apply list.NoDup_cons in Hnd as [Hxn _].
  rewrite elem_of_app in Hxn. pose proof (valid_not_unused a x HA Hv).
  destruct l1 as [|y1 l1], l2 as [|y2 l2]; simpl.
  - by auto 6.
  - split_and!; try by auto. { right. apply Hmv. in_list. } intros ->. apply Hxn. right. left.
  - pose proof (lastd_elem unused (y1 :: l1) ltac:(done)) as Hin. simpl in Hin.
    split_and!; try by auto. { right. apply Hmv. rewrite elem_of_app. by left. } intros E'. apply Hxn. left. by rewrite <- E'.
  - pose proof (lastd_elem unused (y1 :: l1) ltac:(done)) as Hin. simpl in Hin.
    split_and!.
    + right. apply Hmv. rewrite elem_of_app. by left.
    + right. apply Hmv. in_list.
    + intros E'. apply Hxn. left. by rewrite <- E'.
    + intros ->. apply Hxn. right. left.
Qed.

Lemma unlinkFromBin_ok x size : F !! x = Some size ->
  exists top' ub' bi' ns' bins',
    let a' := mkAllocator (m_size a) (m_current_capacity a) (m_max_capacity a)
      (m_freeStorage a) top' ub' bi' ns' (m_freeNodes a) (m_freeOffset a) in
    unlinkFromBin x a = Some (tt, a') /\ Arrays a' /\ BinRep a' (delete x F) bins' /\
    (forall j, core (nd a' j) = core (nd a j)).
Proof using HA HB.
  intros HFx. destruct (binned_split x size HFx) as
    (Hb & Hx & Hds & l1 & l2 & Hbins & Hnd & Hp & Hn & Hvp & Hvn & Hpx & Hnx).
  cbv zeta in *. set (b := uintToFloatRoundDown size) in *.
  assert (Hne : forall j, valid a j -> j <> unused) by (intros; by apply (valid_not_unused a)).
  unfold unlinkFromBin. run node_get_ok.
  change (binListPrev (nd a x)) with (bp a x). change (binListNext (nd a x)) with (bn a x).
  rewrite Hp, Hn, Hds. fold b.
  destruct (Z.eqb_spec (lastd unused l1) unused) as [E|E]; cbn [negb]; cbv beta iota zeta.
  - (* first in its bin *)
    assert (l1 = []) as ->.
    { destruct l1 as [|y l1]; [done|exfalso]. apply (Hne (lastd unused (y :: l1))); [|done].
      apply (mem_valid a F bins HB b); [lia|]. rewrite Hbins, elem_of_app. left.
      by apply (lastd_elem unused (y :: l1)). }
    simpl in Hbins, Hvp, Hpx, E. clear Hvp E.
    destruct (bin_split b ltac:(lia)) as (Ht & Hl & Hbtl). cbv zeta in Ht, Hl, Hbtl.
    set (t := Z.shiftr b TOP_BINS_INDEX_SHIFT) in *. set (l := Z.land b LEAF_BINS_INDEX_MASK) in *.
    run bin_set_ok; [|lia]. set (a1 := put_bin b (hd unused l2) a).
    assert (HA1 : Arrays a1) by (unfold a1; auto with moon).
    erewrite bind_Some by (by apply (when_upd_ok a1 HA1)).
    set (a2 := putu a1 (hd unused l2) (set_binListPrev unused)).
    assert (HA2 : Arrays a2) by (by apply Arrays_putu).
    destruct (clearBinIfEmpty_ok a2 (ne bins) t l HA2 Ht Hl (br_masks _ _ _ HB))
      as (ub' & top' & Hrun & Hlen & HM).
    rewrite <- Hbtl in Hrun, HM. rewrite Hrun.
    assert (Hbh : forall c, bh a2 c = upd (bh a) b (hd unused l2) c) by (intros c; apply (bh_put a HA); lia).
    assert (Hnd2 : forall j, valid a j ->
      nd a2 j = upd (nd a) (hd unused l2) (set_binListPrev unused (nd a (hd unused l2))) j).
    { intros j Hj. apply (nd_putu a1 HA1); [done|by apply Hne]. }
    assert (Hc2 : forall j, core (nd a2 j) = core (nd a j)) by (intros j; by apply (core_putu a1 HA1)).
    do 5 eexists. split; [reflexivity|]. cbv zeta.
    split; [by apply (Arrays_masks a2)|]. split; [|done].
    apply (BinRep_remove a F bins HA HB _ x size [] l2); try done; fold b.
    + intros j Hj Hjx. change (binListPrev (nd a2 j) = upd (bp a) (hd unused l2) unused j).
      rewrite Hnd2 by done. unfold bp. upd_cases.
    + intros j Hj Hjx. change (binListNext (nd a2 j) = upd (bn a) unused (hd unused l2) j).
      rewrite Hnd2 by done. unfold bn. rewrite (upd_ne _ unused) by (apply not_eq_sym; by apply Hne).
      upd_cases.
    + intros j Hjx. by destruct (core_eq _ _ (Hc2 j)) as (_ & ? & _ & _ & ?).
    + eapply Masks_ext; [done| |exact HM]. intros c Hc. rewrite Hbh, upd_eq.
      destruct l2 as [|y l2]; [done|]. simpl.
      assert (valid a y) as Hy%Hne by (apply (mem_valid a F bins HB b); [lia|rewrite Hbins; in_list]).
      rewrite (proj2 (Z.eqb_neq y unused)) by done.
      unfold upd. destruct (Z.eqb_spec b c) as [<-|]; [|done]. unfold ne. by rewrite Hbins.
  - (* in the middle of its bin *)
    assert (Hvp' : valid a (lastd unused l1)) by (by destruct Hvp). clear Hvp.
    run node_upd_ok. set (a1 := put_node (lastd unused l1) _ a).
    assert (HA1 : Arrays a1) by (unfold a1; auto with moon).
    assert (Hnd1 : forall j, nd a1 j = upd (nd a) (lastd unused l1)
      (set_binListNext (hd unused l2) (nd a (lastd unused l1))) j) by (intros; by apply nd_put).
    run node_get_ok. rewrite Hnd1, upd_ne by done.
    change (binListPrev (nd a x)) with (bp a x). change (binListNext (nd a x)) with (bn a x).
    rewrite Hp, Hn.
    rewrite (when_upd_ok a1 HA1) by done. set (a2 := putu a1 (hd unused l2) _).
    assert (HA2 : Arrays a2) by (by apply Arrays_putu).
    assert (Hnd2 : forall j, valid a j -> nd a2 j =
      upd (nd a1) (hd unused l2) (set_binListPrev (lastd unused l1) (nd a1 (hd unused l2))) j).
    { intros j Hj. apply (nd_putu a1 HA1); [done|by apply Hne]. }
    assert (Hc2 : forall j, core (nd a2 j) = core (nd a j)).
    { intros j. etransitivity; [by apply (core_putu a1 HA1)|]. rewrite Hnd1. unfold upd.
      by destruct (Z.eqb_spec (lastd unused l1) j) as [<-|]. }
    do 5 eexists. split; [reflexivity|]. cbv zeta. split; [exact HA2|]. split; [|done].
    apply (BinRep_remove a F bins HA HB _ x size l1 l2); try done; fold b.
    + intros c. change (bh a c = upd (bh a) b (hd unused (l1 ++ l2)) c). unfold upd.
      destruct (Z.eqb_spec b c) as [<-|]; [|done].
      rewrite (br_head _ _ _ HB), Hbins by lia. by destruct l1.
    + intros j Hj Hjx. change (binListPrev (nd a2 j) = upd (bp a) (hd unused l2) (lastd unused l1) j).
      rewrite Hnd2 by done. unfold upd, bp. rewrite !Hnd1. upd_cases.
    + intros j Hj Hjx. change (binListNext (nd a2 j) = upd (bn a) (lastd unused l1) (hd unused l2) j).
      rewrite Hnd2 by done. unfold upd, bn. rewrite !Hnd1. upd_cases.
    + intros j Hjx. by destruct (core_eq _ _ (Hc2 j)) as (_ & ? & _ & _ & ?).
    + eapply Masks_ext; [done| |exact (br_masks _ _ _ HB)]. intros c Hc. unfold upd.
      destruct (Z.eqb_spec b c) as [<-|]; [|done]. unfold ne. rewrite Hbins. by destruct l1.
Qed.

Lemma removeNodeFromBin_ok x size fs : F !! x = Some size ->
  StackA a fs -> 0 < m_freeOffset a ->
  exists top' ub' bi' ns' fn' bins',
    let a' := mkAllocator (m_size a) (m_current_capacity a) (m_max_capacity a)
      (u32 (m_freeStorage a - size)) top' ub' bi' ns' fn' (m_freeOffset a - 1) in
    removeNodeFromBin x a = Some (tt, a') /\ Arrays a' /\ BinRep a' (delete x F) bins' /\
    StackA a' (x :: fs) /\ (forall j, core (nd a' j) = core (nd a j)).
Proof using HA HB.
  intros HFx HS Hfo. destruct (br_node _ _ _ HB x size HFx) as (Hx & Hds & _ & _).
  destruct (unlinkFromBin_ok x size HFx) as (top' & ub' & bi' & ns' & bins' & Hrun & HA1 & HB1 & Hc).
  cbv zeta in *. set (a1 := mkAllocator _ _ _ _ top' ub' bi' ns' _ _) in *.
  unfold removeNodeFromBin. erewrite bind_Some by exact Hrun. rewrite bind_gets, bind_modify.
  change (m_freeOffset a1) with (m_freeOffset a).
  pose proof (st_len _ _ _ _ _ HS). pose proof (st_cap _ _ _ _ _ HS). pose proof (arr_max a HA).
  rewrite (u32_small (m_freeOffset a - 1)) by lia.
  set (a2 := set_freeOffset _ a1). assert (HA2 : Arrays a2) by (unfold a2; auto with moon).
  run (free_set_ok a2 HA2); [|simpl; lia]. set (a3 := put_free _ x a2).
  assert (HA3 : Arrays a3) by (unfold a3; auto with moon).
  erewrite bind_Some by (apply (node_get_ok a3 HA3); exact Hx).
  assert (dataSize (nd a3 x) = size) as ->.
  { destruct (core_eq _ _ (Hc x)) as (_ & E & _). rewrite <- Hds, <- E. done. }
  do 6 eexists. split; [reflexivity|]. cbv zeta. simpl.
  match goal with |- Arrays ?A /\ _ => set (a' := A) end.
  assert (HA' : Arrays a') by (change a' with (set_freeStorage (u32 (m_freeStorage a - size)) a3); auto with moon).
  split; [exact HA'|]. split; [|split].
  - destruct HB1 as [B1 B2 B3 B4 B5 B6]. split; [exact B1|exact B2|exact B3|exact B4|exact B5|exact B6].
  - apply (Stack_push a x fs (m_freeOffset a) HA Hfo HS).
  - exact Hc.
Qed.

(** ** The bin search *)

Lemma leaf_zero t : 0 <= t < 32 -> ubv a t = 0 -> forall l, 0 <= l < 8 -> bins (8 * t + l) = [].
Proof using HB.
  intros Ht Hz l Hl. destruct (mk_leaf _ _ _ (br_masks _ _ _ HB) t Ht) as [_ Hb].
  specialize (Hb l Hl). rewrite Hz, Z.bits_0 in Hb. unfold ne in Hb. by destruct (bins _).
Qed.

Lemma leaf_bit t l : 0 <= t < 32 -> 0 <= l < 8 ->
  Z.testbit (ubv a t) l = true <-> bins (8 * t + l) <> [].
Proof using HB.
  intros Ht Hl. destruct (mk_leaf _ _ _ (br_masks _ _ _ HB) t Ht) as [_ Hb].
  rewrite Hb by done. unfold ne. by destruct (bins _).
Qed.

Lemma nonempty_lt240 b : 0 <= b < 256 -> bins b <> [] -> b < 240.
Proof using HB.
  intros Hb Hne. destruct (bins b) as [|i l] eqn:E; [done|].
  assert (i ∈ bins b) as Hi by (rewrite E; left).
  apply (br_mem _ _ _ HB) in Hi as (sz & HF & <-); [|done].
  destruct (br_node _ _ _ HB _ _ HF) as (_ & _ & _ & ?). by apply roundDown_range.
Qed.

Definition least_bin (m : Z) (r : option (Z * Z)) : Prop :=
  match r with
  | None => forall b, m <= b < 256 -> bins b = []
  | Some (t, l) => 0 <= t < 30 /\ 0 <= l < 8 /\ m <= 8 * t + l /\ bins (8 * t + l) <> [] /\
      forall b, m <= b < 8 * t + l -> bins b = []
  end.

Lemma bin_decompose b : 0 <= b < 256 -> exists t l, b = 8 * t + l /\ 0 <= t < 32 /\ 0 <= l < 8.
Proof. intros Hb. destruct (bin_split b Hb) as (? & ? & ?). eauto. Qed.

(** The scan inside the requested top bin. *)
Lemma searchLeaf_ok t l : 0 <= t < 32 -> 0 <= l < 8 ->
  exists r,
    (if negb (Z.land (m_usedBinsTop a) (Z.shiftl 1 t) =? 0) then
       let* v := ubin_get t in ret (findLowestSetBitAfter v l)
     else ret NO_SPACE) a = Some (r, a) /\
    ((r = NO_SPACE /\ forall k, l <= k < 8 -> bins (8 * t + k) = []) \/
     (l <= r < 8 /\ bins (8 * t + r) <> [] /\ forall k, l <= k < r -> bins (8 * t + k) = [])).
Proof using HA HB.
  intros Ht Hl. pose proof (br_masks _ _ _ HB) as HM.
  destruct (mk_leaf _ _ _ HM t Ht) as [Hr _].
  rewrite testbit_land_shiftl, negb_involutive, (mk_top _ _ _ HM) by (try apply HM; lia).
  destruct (Z.eqb_spec (ubv a t) 0) as [E|E]; cbn [negb]; cbv iota.
  - eexists. split; [reflexivity|]. left. split; [done|]. intros; by apply leaf_zero; [| |lia].
  - eexists. split; [run ubin_get_ok; reflexivity|].
    destruct (findLowestSetBitAfter_spec (ubv a t) l ltac:(lia) ltac:(lia)) as [[H1 H2]|(H1 & H2 & H3)].
    + left. split; [done|]. intros k Hk. specialize (H2 k ltac:(lia)).
      destruct (bins (8 * t + k)) eqn:Eb; [done|exfalso].
      assert (Z.testbit (ubv a t) k = true) by (apply leaf_bit; [lia..|by rewrite Eb]). congruence.
    + right. assert (findLowestSetBitAfter (ubv a t) l < 8).
      { destruct (Z.lt_ge_cases (findLowestSetBitAfter (ubv a t) l) 8); [done|].
        rewrite (testbit_lt 8) in H2 by lia. done. }
      split; [lia|]. split; [apply leaf_bit; [lia..|done]|]. intros k Hk. specialize (H3 k ltac:(lia)).
      destruct (bins (8 * t + k)) eqn:Eb; [done|exfalso].
      assert (Z.testbit (ubv a t) k = true) by (apply leaf_bit; [lia..|by rewrite Eb]). congruence.
Qed.

(** The scan over the higher top bins. *)
Lemma searchTop_ok t : 0 <= t < 30 ->
  exists r,
    (if findLowestSetBitAfter (m_usedBinsTop a) (t + 1) =? NO_SPACE then ret None
     else
       let* v := ubin_get (findLowestSetBitAfter (m_usedBinsTop a) (t + 1)) in
       let* leaf := ctz v in
       ret (Some (findLowestSetBitAfter (m_usedBinsTop a) (t + 1), leaf))) a = Some (r, a) /\
    least_bin (8 * (t + 1)) r.
Proof using HA HB.
  intros Ht. pose proof (br_masks _ _ _ HB) as HM.
  assert (Hz : forall t', 0 <= t' < 32 -> Z.testbit (m_usedBinsTop a) t' = false -> ubv a t' = 0).
  { intros t' Ht' E. rewrite (mk_top _ _ _ HM) in E by done. apply negb_false_iff in E. by zbool. }
  destruct (findLowestSetBitAfter_spec (m_usedBinsTop a) (t + 1) (mk_range _ _ _ HM) ltac:(lia))
    as [[-> H2]|(H1 & H2 & H3)].
  - eexists. split; [reflexivity|]. intros b Hb.
    destruct (bin_decompose b) as (t' & l' & -> & ? & ?); [lia|].
    apply leaf_zero; [lia| |lia]. apply Hz; [lia|]. apply H2. lia.
  - set (r := findLowestSetBitAfter _ _) in *.
    destruct (Z.eqb_spec r NO_SPACE) as [E|_]; [unfold NO_SPACE in E; lia|].
    run ubin_get_ok; [|lia]. rewrite (mk_top _ _ _ HM) in H2 by lia. apply negb_true_iff in H2.
    destruct (mk_leaf _ _ _ HM r ltac:(lia)) as [Hr _]. unfold ctz. rewrite H2. zbool.
    rewrite bind_ret. destruct (tzcnt_spec (ubv a r) ltac:(lia)) as (T1 & T2 & T3).
    pose proof (tzcnt_bound 8 (ubv a r) ltac:(lia)) as Tb.
    assert (bins (8 * r + tzcnt_nonzero (ubv a r)) <> []) as Hne by (apply leaf_bit; [lia..|done]).
    eexists. split; [reflexivity|]. pose proof (nonempty_lt240 (8 * r + tzcnt_nonzero (ubv a r)) ltac:(lia) Hne).
    split; [lia|]. split; [done|]. split; [lia|]. split; [done|]. intros b Hb.
    destruct (bin_decompose b) as (t' & l' & -> & ? & ?); [lia|].
    destruct (Z.eq_dec t' r) as [->|].
    + destruct (bins (8 * r + l')) eqn:Eb; [done|exfalso].
      assert (Z.testbit (ubv a r) l' = true) by (apply leaf_bit; [lia..|by rewrite Eb]).
      rewrite T3 in * by lia. done.
    + apply leaf_zero; [lia| |lia]. apply Hz; [lia|]. apply H3. lia.
Qed.

(** The two-level scan returns the least non-empty bin at or above [m]. *)
Lemma searchBin_ok m : 0 <= m < 240 -> exists r, searchBin m a = Some (r, a) /\ least_bin m r.
Proof using HA HB.
  intros Hm. destruct (bin_split m ltac:(lia)) as (Ht & Hl & Hm'). cbv zeta in *.
  unfold searchBin. set (t := Z.shiftr m TOP_BINS_INDEX_SHIFT) in *.
  set (l := Z.land m LEAF_BINS_INDEX_MASK) in *. rewrite bind_gets.
  destruct (searchLeaf_ok t l Ht Hl) as (r & Hrun & Hr). erewrite bind_Some by exact Hrun.
  destruct Hr as [[-> Hemp]|(Hlr & Hne & Hemp)].
  - rewrite Z.eqb_refl. destruct (searchTop_ok t ltac:(lia)) as (o & Hrun' & Ho).
    exists o. split; [exact Hrun'|].
    assert (Hlow : forall b, m <= b < 8 * (t + 1) -> bins b = []).
    { intros b Hb. replace b with (8 * t + (b - 8 * t)) by lia. apply Hemp. lia. }
    destruct o as [[t' l']|]; simpl in *.
    + destruct Ho as (? & ? & ? & ? & Ho). split_and!; try lia; try done.
      intros b Hb. destruct (Z.lt_ge_cases b (8 * (t + 1))); [apply Hlow; lia|apply Ho; lia].
    + intros b Hb. destruct (Z.lt_ge_cases b (8 * (t + 1))); [apply Hlow; lia|apply Ho; lia].
  - destruct (Z.eqb_spec r NO_SPACE) as [E|_]; [unfold NO_SPACE in E; lia|].
    eexists. split; [reflexivity|]. pose proof (nonempty_lt240 (8 * t + r) ltac:(lia) Hne).
    split_and!; try lia; try done. intros b Hb.
    replace b with (8 * t + (b - 8 * t)) by lia. apply Hemp. lia.
Qed.

Lemma popBin_ok t l rs : 0 <= t < 30 -> 0 <= l < 8 -> bins (8 * t + l) <> [] ->
  exists x size top' ub' bi' ns' bins',
    let a' := mkAllocator (m_size a) (m_current_capacity a) (m_max_capacity a)
      (u32 (m_freeStorage a - size)) top' ub' bi' ns' (m_freeNodes a) (m_freeOffset a) in
    F !! x = Some size /\ uintToFloatRoundDown size = 8 * t + l /\
    popBin t l rs a = Some ((x, size), a') /\ Arrays a' /\ BinRep a' (delete x F) bins' /\
    core (nd a' x) = (dataOffset (nd a x), rs, np a x, nn a x, true) /\
    (forall j, j <> x -> core (nd a' j) = core (nd a j)).
Proof using HA HB.
  intros Ht Hl Hbne. destruct (bins (8 * t + l)) as [|x l2] eqn:Hbins; [done|].
  assert (x ∈ bins (8 * t + l)) as Hin by (rewrite Hbins; left).
  apply (br_mem _ _ _ HB) in Hin as (size & HFx & Hrd); [|lia].
  pose proof (br_dll _ _ _ HB (8 * t + l) ltac:(lia)) as Hd. rewrite Hbins in Hd.
  destruct Hd as (_ & Hnx & _).
  pose proof (br_nodup _ _ _ HB (8 * t + l) ltac:(lia)) as Hnd. rewrite Hbins in Hnd.
  apply list.NoDup_cons in Hnd as [Hxl2 _].
  destruct (br_node _ _ _ HB x size HFx) as (Hx & Hds & _ & Hsz).
  assert (Hne : forall j, valid a j -> j <> unused) by (intros; by apply (valid_not_unused a)).
  assert (Hvn : hd unused l2 = unused \/ valid a (hd unused l2)).
  { destruct l2 as [|y l2]; [by left|right]. apply (mem_valid a F bins HB (8 * t + l)); [lia|].
    rewrite Hbins. in_list. }
  assert (Hnxx : hd unused l2 <> x).
  { destruct l2 as [|y l2]; simpl; [by apply not_eq_sym, Hne|]. intros ->. apply Hxl2. left. }
  exists x, size. unfold popBin. rewrite bin_join by done.
  run bin_get_ok; [|lia]. rewrite (br_head _ _ _ HB), Hbins by lia. simpl hd.
  run node_get_ok. run node_upd_ok. set (a1 := put_node x _ a).
  assert (HA1 : Arrays a1) by (unfold a1; auto with moon).
  erewrite bind_Some by (apply (node_upd_ok a1 HA1); exact Hx). set (a2 := put_node x _ a1).
  assert (HA2 : Arrays a2) by (unfold a2; auto with moon).
  assert (Hnd2 : forall j, nd a2 j = upd (nd a) x (set_used true (set_dataSize rs (nd a x))) j).
  { intros j. unfold a2. rewrite (nd_put a1 HA1) by exact Hx. unfold upd, a1.
    rewrite !(nd_put a HA) by exact Hx. upd_cases. }
  run (bin_set_ok a2 HA2); [|lia]. change (binListNext (nd a x)) with (bn a x). rewrite Hnx, Hds.
  set (a3 := put_bin _ _ a2). assert (HA3 : Arrays a3) by (unfold a3; auto with moon).
  erewrite bind_Some by (by apply (when_upd_ok a3 HA3)). rewrite bind_modify.
  set (a4 := set_freeStorage _ _). assert (HA4 : Arrays a4) by (unfold a4; auto with moon).
  destruct (clearBinIfEmpty_ok a4 (ne bins) t l HA4 ltac:(lia) Hl (br_masks _ _ _ HB))
    as (ub' & top' & Hrun & Hlen & HM).
  erewrite bind_Some by exact Hrun.
  assert (Hbh : forall c, bh a4 c = upd (bh a) (8 * t + l) (hd unused l2) c)
    by (intros c; apply (bh_put a2 HA2); lia).
  assert (Hnd4 : forall j, valid a j -> j <> x ->
    nd a4 j = upd (nd a) (hd unused l2) (set_binListPrev unused (nd a (hd unused l2))) j).
  { intros j Hj Hjx. change (nd a4 j) with (nd (putu a3 (hd unused l2) (set_binListPrev unused)) j).
    rewrite (nd_putu a3 HA3) by (try done; by apply Hne). unfold upd.
    change (nd a3) with (nd a2). rewrite !Hnd2. upd_cases. }
  assert (Hc4 : forall j, core (nd a4 j) = core (nd a2 j)) by (intros j; by apply (core_putu a3 HA3)).
  assert (Hco : forall j, j <> x -> core (nd a4 j) = core (nd a j)).
  { intros j Hj. rewrite Hc4, Hnd2. by rewrite upd_ne. }
  do 5 eexists. split; [done|]. split; [done|]. split; [reflexivity|]. cbv zeta.
  split; [by apply (Arrays_masks a4)|]. split; [|split].
  - apply (BinRep_remove a F bins HA HB _ x size [] l2); try done; rewrite ?Hrd; try done.
    + intros j Hj Hjx. change (binListPrev (nd a4 j) = upd (bp a) (hd unused l2) unused j).
      rewrite Hnd4 by done. unfold bp. upd_cases.
    + intros j Hj Hjx. change (binListNext (nd a4 j) = upd (bn a) unused (hd unused l2) j).
      rewrite Hnd4 by done. unfold bn. rewrite (upd_ne _ unused) by (apply not_eq_sym; by apply Hne).
      upd_cases.
    + intros j Hjx. by destruct (core_eq _ _ (Hco j Hjx)) as (_ & ? & _ & _ & ?).
    + eapply Masks_ext; [done| |exact HM]. intros c Hc. rewrite Hbh, upd_eq.
      destruct l2 as [|y l2]; [done|]. simpl.
      assert (valid a y) as Hy%Hne by (apply (mem_valid a F bins HB (8 * t + l)); [lia|rewrite Hbins; in_list]).
      rewrite (proj2 (Z.eqb_neq y unused)) by done.
      unfold upd. destruct (Z.eqb_spec (8 * t + l) c) as [<-|]; [|done]. unfold ne. by rewrite Hbins.
  - etransitivity; [exact (Hc4 x)|]. by rewrite Hnd2, upd_eq.
  - exact Hco.
Qed.

Lemma growFreeList_ok fs : StackA a fs -> m_freeOffset a < m_max_capacity a ->
  exists fn' cur' fs',
    let a' := mkAllocator (m_size a) cur' (m_max_capacity a) (m_freeStorage a) (m_usedBinsTop a)
      (m_usedBins a) (m_binIndices a) (m_nodes a) fn' (m_freeOffset a) in
    growFreeList a = Some (tt, a') /\ Arrays a' /\ BinRep a' F bins /\ StackA a' fs' /\
    fs' <> [] /\ (fs' = fs /\ cur' = m_current_capacity a \/
                  fs = [] /\ fs' = [m_current_capacity a] /\ cur' = m_current_capacity a + 1).
Proof using HA HB.
  intros HS Hlt. unfold growFreeList. rewrite !bind_gets.
  pose proof (st_len _ _ _ _ _ HS) as Hlen. pose proof (st_cap _ _ _ _ _ HS).
  pose proof (st_pos _ _ _ _ _ HS). pose proof (arr_max a HA).
  destruct (Z.eqb_spec (m_freeOffset a) (m_current_capacity a)) as [E|E]; simpl.
  - assert (fs = []) as -> by (destruct fs; [done|simpl in Hlen; lia]).
    run free_set_ok; [|lia]. unfold modify. rewrite u32_small by lia.
    set (a1 := put_free _ _ a). assert (HA1 : Arrays a1) by (unfold a1; auto with moon).
    do 3 eexists. split; [reflexivity|]. cbv zeta. split; [by apply (Arrays_set_current_capacity a1)|].
    split; [|split; [|split; [|right; done]]]; [|rewrite E; by apply Stack_grow; [done..|lia]|done].
    destruct HB as [B1 B2 B3 B4 B5 B6]. split; [exact B1|exact B2|exact B3|exact B4|exact B5|exact B6].
  - exists (m_freeNodes a), (m_current_capacity a), fs. split; [by destruct a|]. cbv zeta.
    destruct HA. split; [by split|].
    split; [|split; [done|split; [|left; done]]].
    + destruct HB as [B1 B2 B3 B4 B5 B6]. split; [exact B1|exact B2|exact B3|exact B4|exact B5|exact B6].
    + intros ->. simpl in Hlen. lia.
Qed.

End ops.

End BinOps.
