(* ===== verification/OffsetMain.v ===== *)
(** * OffsetMain: the blocks of [__Allocator], and their splitting

    The abstract state of the allocator is the list of its blocks in address
    order, each with the index of the node that stands for it, its size and
    whether it is in use.  [Rep] relates that list to the concrete arrays.
    Module [Blocks] holds the relation and the algebra of blocks; module
    [Main] shows that the operations follow the abstract ones. *)

From Stdlib Require Import ZArith Lia.
From stdpp Require Import base list gmap numbers.
From S2P Require Import Prelude SmallFloat OffsetAlloc OffsetBins OffsetBinOps.
Import SmallFloat Alloc Bins BinOps.

Module Blocks.
Open Scope moon_scope.
Open Scope Z_scope.

Record Block : Type := B { b_id : Z; b_size : Z; b_used : bool }.

Definition ids (bl : list Block) : list Z := b_id <$> bl.

Fixpoint total (bl : list Block) : Z :=
  match bl with [] => 0 | b :: bl => b_size b + total bl end.

Fixpoint free_total (bl : list Block) : Z :=
  match bl with [] => 0 | b :: bl => (if b_used b then 0 else b_size b) + free_total bl end.

Fixpoint free_map (bl : list Block) : gmap Z Z :=
  match bl with
  | [] => ∅
  | b :: bl => if b_used b then free_map bl else <[b_id b := b_size b]> (free_map bl)
  end.

(** The nodes carry the blocks at their addresses. *)
Fixpoint layout (nd : Z -> Node) (off : Z) (bl : list Block) : Prop :=
  match bl with
  | [] => True
  | b :: bl =>
      (dataOffset (nd (b_id b)) = off /\ dataSize (nd (b_id b)) = b_size b /\
       used (nd (b_id b)) = b_used b /\ 0 <= b_size b) /\ layout nd (off + b_size b) bl
  end.

(** No two neighbouring blocks are both free. *)
Fixpoint coalesced (bl : list Block) : Prop :=
  match bl with
  | b :: ((c :: _) as bl') => (b_used b = true \/ b_used c = true) /\ coalesced bl'
  | _ => True
  end.

(** ** Algebra *)

Lemma ids_app l1 l2 : ids (l1 ++ l2) = ids l1 ++ ids l2.
Proof. apply fmap_app. Qed.

Lemma total_app l1 l2 : total (l1 ++ l2) = total l1 + total l2.
Proof. induction l1; simpl; lia. Qed.

Lemma free_total_app l1 l2 : free_total (l1 ++ l2) = free_total l1 + free_total l2.
Proof. induction l1; simpl; lia. Qed.

Lemma layout_app nd off l1 l2 :
  layout nd off (l1 ++ l2) <-> layout nd off l1 /\ layout nd (off + total l1) l2.
Proof.
  revert off; induction l1 as [|b l1 IH]; intros off; simpl.
  - rewrite Z.add_0_r. tauto.
  - rewrite IH, Z.add_assoc. tauto.
Qed.

Lemma layout_ext nd nd' off bl :
  (forall i, i ∈ ids bl -> core (nd' i) = core (nd i)) -> layout nd off bl -> layout nd' off bl.
Proof.
  revert off; induction bl as [|b bl IH]; intros off Hc; simpl; [done|]. intros [H1 H2].
  destruct (core_eq _ _ (Hc (b_id b) ltac:(left))) as (-> & -> & _ & _ & ->).
  split; [done|]. apply IH; [|done]. intros i Hi. apply Hc. by right.
Qed.

Lemma layout_nonneg nd off bl : layout nd off bl -> 0 <= total bl.
Proof. revert off; induction bl as [|b bl IH]; intros off; simpl; [lia|]. intros [? ?%IH]. lia. Qed.

Lemma layout_free_bounds nd off bl : layout nd off bl -> 0 <= free_total bl <= total bl.
Proof.
  revert off; induction bl as [|b bl IH]; intros off; simpl; [lia|].
  intros [? ?%IH]. destruct (b_used b); lia.
Qed.

Lemma free_map_None bl i : i ∉ ids bl -> free_map bl !! i = None.
Proof.
  induction bl as [|b bl IH]; intros Hi; simpl; [done|].
  assert (b_id b <> i /\ i ∉ ids bl) as [? ?].
  { unfold ids in *. rewrite fmap_cons, elem_of_cons in Hi. naive_solver. }
  destruct (b_used b); [by apply IH|]. rewrite lookup_insert_ne; auto.
Qed.

Lemma free_map_Some bl i sz : NoDup (ids bl) ->
  free_map bl !! i = Some sz <-> B i sz false ∈ bl.
Proof.
  induction bl as [|[j s u] bl IH]; intros Hnd; simpl; [split; [done|by intros ?%not_elem_of_nil]|].
  unfold ids in *. rewrite fmap_cons in Hnd. apply list.NoDup_cons in Hnd as [Hj Hnd]. simpl in *.
  rewrite elem_of_cons. destruct u; simpl.
  - rewrite IH by done. split; [by right|]. by intros [?|?].
  - destruct (Z.eq_dec j i) as [->|Hne].
    + rewrite lookup_insert_eq. split; [intros; left; by simplify_eq|].
      intros [?|Hin]; [by simplify_eq|]. exfalso. apply Hj.
      apply list_elem_of_fmap. by eexists (B i sz false).
    + rewrite lookup_insert_ne, IH by done. split; [by right|]. intros [?|?]; [by simplify_eq|done].
Qed.

Lemma free_map_used l1 i s l2 : free_map (l1 ++ B i s true :: l2) = free_map (l1 ++ l2).
Proof. induction l1 as [|b l1 IH]; simpl; [done|]. by rewrite IH. Qed.

Lemma free_map_free l1 i s l2 : i ∉ ids l1 ->
  free_map (l1 ++ B i s false :: l2) = <[i:=s]> (free_map (l1 ++ l2)).
Proof.
  induction l1 as [|b l1 IH]; intros Hi; simpl; [done|].
  assert (b_id b <> i /\ i ∉ ids l1) as [? ?].
  { unfold ids in *. rewrite fmap_cons, elem_of_cons in Hi. naive_solver. }
  rewrite IH by done. destruct (b_used b); [done|]. by rewrite insert_insert_ne.
Qed.

Lemma free_map_delete l1 i s l2 : NoDup (ids (l1 ++ B i s false :: l2)) ->
  delete i (free_map (l1 ++ B i s false :: l2)) = free_map (l1 ++ l2).
Proof.
  rewrite ids_app. unfold ids at 2. rewrite fmap_cons. fold (ids l2).
  intros Hnd. rewrite <- Permutation_middle in Hnd. apply list.NoDup_cons in Hnd as [Hi _].
  rewrite elem_of_app in Hi. rewrite free_map_free by tauto.
  apply delete_insert_id, free_map_None. rewrite ids_app, elem_of_app. tauto.
Qed.

Lemma coalesced_app l1 b l2 :
  coalesced (l1 ++ b :: l2) <-> coalesced (l1 ++ [b]) /\ coalesced (b :: l2).
Proof.
  induction l1 as [|c l1 IH]; [simpl; by destruct l2; naive_solver|].
  destruct l1 as [|d l1]; simpl in *; [destruct l2; naive_solver|].
  rewrite IH. tauto.
Qed.

(** A used block separates: it never obstructs coalescing. *)
Lemma coalesced_used l1 b l2 : b_used b = true ->
  coalesced (l1 ++ b :: l2) <-> coalesced l1 /\ coalesced l2.
Proof.
  intros Hb. rewrite coalesced_app.
  assert (coalesced (l1 ++ [b]) <-> coalesced l1) as ->.
  { induction l1 as [|c l1 IH]; [done|]. destruct l1 as [|d l1]; simpl in *; [naive_solver|].
    rewrite IH. tauto. }
  assert (coalesced (b :: l2) <-> coalesced l2) as ->; [|done].
  destruct l2; simpl; naive_solver.
Qed.

(** ** Abstract merging *)

(** Splits off a free block at the end of a prefix. *)
Definition mergeL (l1 : list Block) : list Block * Z :=
  match list.last l1 with
  | Some b => if b_used b then (l1, 0) else (removelast l1, b_size b)
  | None => (l1, 0)
  end.

(** Splits off a free block at the front of a suffix. *)
Definition mergeR (l2 : list Block) : list Block * Z :=
  match l2 with
  | b :: l2' => if b_used b then (l2, 0) else (l2', b_size b)
  | [] => (l2, 0)
  end.

Definition last_used (l : list Block) : Prop := forall b, list.last l = Some b -> b_used b = true.
Definition head_used (l : list Block) : Prop := forall b, list.head l = Some b -> b_used b = true.

Lemma mergeL_snoc l b : b_used b = false -> mergeL (l ++ [b]) = (l, b_size b).
Proof. intros Hb. unfold mergeL. by rewrite last_snoc, Hb, removelast_last. Qed.

Lemma mergeL_snoc_used l b : b_used b = true -> mergeL (l ++ [b]) = (l ++ [b], 0).
Proof. intros Hb. unfold mergeL. by rewrite last_snoc, Hb. Qed.

Lemma coalesced_join l1 i s l2 : coalesced l1 -> coalesced l2 -> last_used l1 -> head_used l2 ->
  coalesced (l1 ++ B i s false :: l2).
Proof.
  intros H1 H2 Hl Hh. rewrite coalesced_app. split.
  - destruct l1 as [|b l1 _] using rev_ind; [done|].
    assert (b_used b = true) as Hb by (apply Hl; by rewrite last_snoc).
    rewrite <- app_assoc. simpl. rewrite coalesced_app. split; [done|].
    simpl. tauto.
  - destruct l2 as [|b l2]; [done|]. simpl. split; [|done]. right. by apply Hh.
Qed.

(** Around a free block of a coalesced list everything is used. *)
Lemma coalesced_split l1 i s l2 : coalesced (l1 ++ B i s false :: l2) ->
  coalesced l1 /\ coalesced l2 /\ last_used l1 /\ head_used l2.
Proof.
  rewrite coalesced_app. intros [H1 H2]. split_and!.
  - clear H2. induction l1 as [|b l1 IH]; [done|]. destruct l1; simpl in *; [done|naive_solver].
  - destruct l2; simpl in *; [done|naive_solver].
  - intros b Hb. destruct l1 as [|c l1 _] using rev_ind; [done|].
    rewrite last_snoc in Hb. simplify_eq. rewrite <- app_assoc in H1. simpl in H1.
    rewrite coalesced_app in H1. destruct H1 as [_ H1]. simpl in H1. naive_solver.
  - intros b Hb. destruct l2 as [|c l2]; simpl in *; [done|]. simplify_eq. naive_solver.
Qed.

Lemma coalesced_prefix l1 l2 : coalesced (l1 ++ l2) -> coalesced l1.
Proof.
  induction l1 as [|b l1 IH]; [done|]. destruct l1 as [|c l1]; [done|]. simpl in *.
  intros [? ?]. split; [done|by apply IH].
Qed.

Lemma coalesced_tail b l : coalesced (b :: l) -> coalesced l.
Proof. destruct l; simpl; tauto. Qed.

End Blocks.

(** ** [allocate], [free] and [reset] refine the block list

    [Rep a bl fs]: the concrete state [a] represents the blocks [bl] in
    address order with free-node stack [fs].  Every operation run on a
    represented state terminates without undefined behaviour in a represented
    state, and its effect on the blocks is the abstract one: splitting a free
    block, or merging a released block with its free neighbours. *)

Import SmallFloat Alloc Bins BinOps Blocks.

Module Main.
Open Scope moon_scope.
Open Scope Z_scope.

Record Rep (a : Allocator) (bl : list Block) (fs : list Z) : Prop := {
  rp_arrays : Arrays a;
  rp_size : 0 <= m_size a <= MAX_BIN_SIZE;
  rp_bins : exists bins, BinRep a (free_map bl) bins;
  rp_stack : StackA a fs;
  rp_count : m_freeOffset a = Z.of_nat (length bl);
  rp_nodup : NoDup (ids bl ++ fs);
  rp_range : forall i, i ∈ ids bl ++ fs -> 0 <= i < m_current_capacity a;
  rp_link : dseg (np a) (nn a) unused (ids bl) unused;
  rp_layout : layout (nd a) 0 bl;
  rp_total : total bl = m_size a;
  rp_coal : coalesced bl;
  rp_free : m_freeStorage a = free_total bl;
}.

(** ** Updates of neighbour links leave the bins alone *)

Definition bin_part (n : Node) : Z * Z * Z * Z * bool :=
  (dataOffset n, dataSize n, binListPrev n, binListNext n, used n).

Lemma bin_part_eq n n' : bin_part n = bin_part n' ->
  dataOffset n = dataOffset n' /\ dataSize n = dataSize n' /\ binListPrev n = binListPrev n' /\
  binListNext n = binListNext n' /\ used n = used n'.
Proof. unfold bin_part; intros; by simplify_eq. Qed.

Lemma BinRep_frame a a' F bins :
  m_max_capacity a' = m_max_capacity a -> m_binIndices a' = m_binIndices a ->
  m_usedBins a' = m_usedBins a -> m_usedBinsTop a' = m_usedBinsTop a ->
  (forall j, bin_part (nd a' j) = bin_part (nd a j)) ->
  BinRep a F bins -> BinRep a' F bins.
Proof.
  intros E1 E2 E3 E4 Hc [B1 B2 B3 B4 B5 B6]. split.
  - intros b Hb. unfold bh. rewrite E2. by apply B1.
  - intros b Hb. eapply dseg_ext; [|by apply B2]. intros j _. unfold bp, bn.
    destruct (bin_part_eq _ _ (Hc j)) as (_ & _ & -> & -> & _). done.
  - done.
  - done.
  - intros i sz HF. destruct (bin_part_eq _ _ (Hc i)) as (_ & -> & _ & _ & ->).
    unfold valid. rewrite E1. by apply B5.
  - unfold ubv. rewrite E3, E4. exact B6.
Qed.

Lemma bin_part_put a i f j : Arrays a -> valid a i -> (forall n, bin_part (f n) = bin_part n) ->
  bin_part (nd (put_node i (f (nd a i)) a) j) = bin_part (nd a j).
Proof.
  intros HA Hi Hf. rewrite nd_put by done. unfold upd.
  destruct (Z.eqb_spec i j) as [<-|]; [apply Hf|done].
Qed.

Lemma bin_part_putu a i f j : Arrays a -> i = unused \/ valid a i ->
  (forall n, bin_part (f n) = bin_part n) ->
  bin_part (nd (putu a i f) j) = bin_part (nd a j).
Proof.
  intros HA Hi Hf. unfold putu. destruct (Z.eqb_spec i unused) as [->|E]; [done|].
  apply (bin_part_put a i f j HA); [by destruct Hi|done].
Qed.

Lemma layout_bin_part nd nd' off bl :
  (forall i, i ∈ ids bl -> bin_part (nd' i) = bin_part (nd i)) ->
  layout nd off bl -> layout nd' off bl.
Proof.
  revert off; induction bl as [|b bl IH]; intros off Hc; simpl; [done|]. intros [H1 H2].
  destruct (bin_part_eq _ _ (Hc (b_id b) ltac:(left))) as (-> & -> & _ & _ & ->).
  split; [done|]. apply IH; [|done]. intros i Hi. apply Hc. by right.
Qed.

(** ** Neighbour links after a neighbour update *)

Section links.
Context (a : Allocator) (HA : Arrays a).

Lemma np_put_np i v j : valid a i ->
  np (put_node i (set_neighborPrev v (nd a i)) a) j = upd (np a) i v j.
Proof using HA. intros Hi. unfold np. rewrite nd_put by done. upd_cases. Qed.

Lemma nn_put_np i v j : valid a i ->
  nn (put_node i (set_neighborPrev v (nd a i)) a) j = nn a j.
Proof using HA. intros Hi. unfold nn. rewrite nd_put by done. upd_cases. Qed.

Lemma nn_put_nn i v j : valid a i ->
  nn (put_node i (set_neighborNext v (nd a i)) a) j = upd (nn a) i v j.
Proof using HA. intros Hi. unfold nn. rewrite nd_put by done. upd_cases. Qed.

Lemma np_put_nn i v j : valid a i ->
  np (put_node i (set_neighborNext v (nd a i)) a) j = np a j.
Proof using HA. intros Hi. unfold np. rewrite nd_put by done. upd_cases. Qed.

Lemma np_putu_np i v j : i = unused \/ valid a i -> j <> unused ->
  np (putu a i (set_neighborPrev v)) j = upd (np a) i v j.
Proof using HA. intros Hi Hj. unfold np. rewrite nd_putu by done. upd_cases. Qed.

Lemma nn_putu_np i v j : i = unused \/ valid a i -> j <> unused ->
  nn (putu a i (set_neighborPrev v)) j = nn a j.
Proof using HA. intros Hi Hj. unfold nn. rewrite nd_putu by done. upd_cases. Qed.

End links.

(** ** Facts about represented states *)

Section rep.
Context (a : Allocator) (bl : list Block) (fs : list Z) (HR : Rep a bl fs).

Lemma rep_valid i : i ∈ ids bl ++ fs -> valid a i.
Proof using HR.
  intros Hi%(rp_range _ _ _ HR). pose proof (st_cap _ _ _ _ _ (rp_stack _ _ _ HR)).
  unfold valid. lia.
Qed.

Lemma rep_not_unused i : i ∈ ids bl ++ fs -> i <> unused.
Proof using HR. intros ?. apply (valid_not_unused a); [apply HR|by apply rep_valid]. Qed.

Lemma rep_nodup_ids : NoDup (ids bl).
Proof using HR. pose proof (rp_nodup _ _ _ HR) as H. by apply list.NoDup_app in H as (? & _). Qed.

Lemma rep_split_layout l1 b l2 : bl = l1 ++ b :: l2 ->
  layout (nd a) 0 l1 /\
  (dataOffset (nd a (b_id b)) = total l1 /\ dataSize (nd a (b_id b)) = b_size b /\
   used (nd a (b_id b)) = b_used b /\ 0 <= b_size b) /\
  layout (nd a) (total l1 + b_size b) l2 /\
  0 <= total l1 /\ 0 <= total l2 /\ total l1 + b_size b + total l2 = m_size a.
Proof using HR.
  intros ->. pose proof (rp_layout _ _ _ HR) as HL. apply layout_app in HL as [HL1 [HL2 HL3]].
  pose proof (rp_total _ _ _ HR) as HT. rewrite total_app in HT. simpl in HT.
  pose proof (layout_nonneg _ _ _ HL1). pose proof (layout_nonneg _ _ _ HL3).
  rewrite Z.add_0_l in *. split_and!; try done; try tauto; lia.
Qed.

Lemma rep_link_mid l1 b l2 : bl = l1 ++ b :: l2 ->
  dseg (np a) (nn a) unused (ids l1) (b_id b) /\ np a (b_id b) = lastd unused (ids l1) /\
  nn a (b_id b) = hd unused (ids l2) /\ dseg (np a) (nn a) (b_id b) (ids l2) unused.
Proof using HR.
  intros ->. pose proof (rp_link _ _ _ HR) as HL. rewrite ids_app in HL.
  apply dseg_app in HL as [H1 H2]. done.
Qed.

End rep.

(** Neighbour indices of a list of valid ids. *)
Lemma hd_valid_ids a l : (forall i, i ∈ l -> valid a i) -> hd unused l = unused \/ valid a (hd unused l).
Proof. intros H. destruct l as [|x l]; [by left|right; apply H; left]. Qed.

Lemma lastd_valid_ids a l :
  (forall i, i ∈ l -> valid a i) -> lastd unused l = unused \/ valid a (lastd unused l).
Proof.
  intros H. destruct l as [|x l]; [by left|right; apply H]. by apply (lastd_elem unused (x :: l)).
Qed.

(** The remainder block of a split, absent when there is nothing left. *)
Definition remainder (y size : Z) : list Block := if 0 <? size then [B y size false] else [].

(** The part of a node a block sees. *)
Definition dat (n : Node) : Z * Z * bool := (dataOffset n, dataSize n, used n).

Lemma layout_dat nd nd' off bl :
  (forall i, i ∈ ids bl -> dat (nd' i) = dat (nd i)) -> layout nd off bl -> layout nd' off bl.
Proof.
  revert off; induction bl as [|b bl IH]; intros off Hc; simpl; [done|]. intros [H1 H2].
  specialize (Hc (b_id b) ltac:(left)) as Hb. unfold dat in Hb.
  injection Hb as E1 E2 E3. rewrite E1, E2, E3. split; [done|]. apply IH; [|done]. intros i Hi. apply Hc. by right.
Qed.

Lemma core_links n n' : core n = core n' ->
  dat n = dat n' /\ neighborPrev n = neighborPrev n' /\ neighborNext n = neighborNext n'.
Proof. unfold core, dat. intros E. injection E as -> -> -> -> ->. done. Qed.

Lemma pushRemainder_ok a F bins x y fs rem rs : Arrays a -> BinRep a F bins ->
  StackA a (y :: fs) -> valid a x -> valid a y -> y <> x -> F !! y = None -> 0 <= rem < 2 ^ 32 ->
  0 <= dataOffset (nd a x) + rs < 2 ^ 32 ->
  let nx := nn a x in
  nx = unused \/ valid a nx -> nx <> x -> nx <> y ->
  exists top' ub' bi' ns' bins',
    let a' := mkAllocator (m_size a) (m_current_capacity a) (m_max_capacity a)
      (u32 (m_freeStorage a + rem)) top' ub' bi' ns' (m_freeNodes a) (m_freeOffset a + 1) in
    pushRemainder x rem rs a = Some (tt, a') /\ Arrays a' /\
    BinRep a' (<[y:=rem]> F) bins' /\ StackA a' fs /\
    dat (nd a' y) = (dataOffset (nd a x) + rs, rem, false) /\
    (forall j, j <> y -> dat (nd a' j) = dat (nd a j)) /\
    (forall j, j <> unused -> np a' j = upd (upd (np a) y x) nx y j) /\
    (forall j, j <> unused -> nn a' j = upd (upd (nn a) y nx) x y j).
Proof.
  intros HA HB HS Hx Hy Hyx HFy Hrem Hoff nx Hnx Hnxx Hnxy. unfold pushRemainder.
  run node_get_ok. rewrite (u32_small (dataOffset (nd a x) + rs)) by lia.
  destruct (insertNodeIntoBin_ok a F bins HA HB y fs rem (dataOffset (nd a x) + rs) HS Hy HFy Hrem)
    as (top' & ub' & bi' & ns' & Hrun & HA1 & HB1 & HS1 & Hcy & Hco). cbv zeta in *.
  erewrite bind_Some by exact Hrun. clear Hrun. set (a1 := mkAllocator _ _ _ _ top' ub' bi' ns' _ _) in *.
  erewrite bind_Some by (apply (node_get_ok a1 HA1); exact Hx).
  assert (neighborNext (nd a1 x) = nx) as ->.
  { destruct (core_eq _ _ (Hco x ltac:(done))) as (_ & _ & _ & E & _). exact E. }
  erewrite bind_Some by (apply (when_upd_ok a1 HA1); exact Hnx).
  set (a2 := putu a1 nx (set_neighborPrev y)). assert (HA2 : Arrays a2) by (by apply Arrays_putu).
  erewrite bind_Some by (apply (node_upd_ok a2 HA2); exact Hy). set (a3 := put_node y _ a2).
  assert (HA3 : Arrays a3) by (unfold a3; auto with moon).
  erewrite bind_Some by (apply (node_get_ok a3 HA3); exact Hx).
  pose proof (valid_not_unused a x HA Hx) as Hxu. pose proof (valid_not_unused a y HA Hy) as Hyu.
  assert (Hl1 : forall j, j <> y -> np a1 j = np a j /\ nn a1 j = nn a j)
    by (intros j Hj; by destruct (core_links _ _ (Hco j Hj)) as (_ & ? & ?)).
  assert (neighborNext (nd a3 x) = nx) as ->.
  { change (nn a3 x = nx). unfold a3, a2. rewrite nn_put_np, nn_putu_np by done.
    by apply Hl1. }
  erewrite bind_Some by (apply (node_upd_ok a3 HA3); exact Hy). set (a4 := put_node y _ a3).
  assert (HA4 : Arrays a4) by (unfold a4; auto with moon).
  rewrite (node_upd_ok a4 HA4 x) by exact Hx. set (a5 := put_node x _ a4).
  assert (HA5 : Arrays a5) by (unfold a5; auto with moon).
  assert (Hbp : forall j, bin_part (nd a5 j) = bin_part (nd a1 j)).
  { intros j. unfold a5, a4, a3, a2. rewrite !bin_part_put, bin_part_putu; done. }
  assert (Hdat : forall j, dat (nd a5 j) = dat (nd a1 j)).
  { intros j. destruct (bin_part_eq _ _ (Hbp j)) as (E1 & E2 & _ & _ & E3). unfold dat. congruence. }
  do 5 eexists. split; [reflexivity|]. cbv zeta. split; [exact HA5|].
  split; [exact (BinRep_frame a1 a5 _ _ eq_refl eq_refl eq_refl eq_refl Hbp HB1)|].
  split; [exact HS1|]. split; [|split; [|split]].
  - etransitivity; [apply Hdat|]. unfold core in Hcy. unfold dat. congruence.
  - intros j Hj. etransitivity; [apply Hdat|]. by destruct (core_links _ _ (Hco j Hj)).
  - intros j Hj. change (np a5 j = upd (upd (np a) y x) nx y j). unfold a5, a4.
    rewrite !np_put_nn by done. unfold a3. rewrite np_put_np by done. unfold a2, upd at 1.
    rewrite np_putu_np by done. destruct (Z.eqb_spec y j) as [<-|]; [by upd_cases|].
    unfold upd. by rewrite (proj1 (Hl1 j ltac:(done))), (proj2 (Z.eqb_neq y j)).
  - intros j Hj. change (nn a5 j = upd (upd (nn a) y nx) x y j). unfold a5, a4.
    rewrite nn_put_nn by done. unfold upd at 1. rewrite nn_put_nn by done.
    unfold a3, a2, upd at 1. rewrite nn_put_np, nn_putu_np by done.
    destruct (Z.eqb_spec x j) as [<-|]; [by rewrite upd_eq|]. rewrite (upd_ne _ x) by done.
    destruct (Z.eqb_spec y j) as [<-|]; [by rewrite upd_eq|]. rewrite upd_ne by done.
    by apply Hl1.
Qed.

(** ** allocate *)

Lemma Rep_grow a bl fs : Rep a bl fs -> m_freeOffset a < m_max_capacity a ->
  exists y fs' a', growFreeList a = Some (tt, a') /\ Rep a' bl (y :: fs') /\
    m_max_capacity a' = m_max_capacity a /\ m_size a' = m_size a.
Proof.
  intros HR Hlt. destruct (rp_bins _ _ _ HR) as [bins HB].
  destruct (growFreeList_ok a _ bins (rp_arrays _ _ _ HR) HB fs (rp_stack _ _ _ HR) Hlt)
    as (fn' & cur' & fs' & Hrun & HA' & HB' & HS' & Hne & Hcases).
  destruct fs' as [|y fs']; [done|]. exists y, fs'. eexists. split; [exact Hrun|]. split; [|done].
  destruct HR as [_ H1 _ H2 H3 H4 H5 H6 H7 H8 H9 H10].
  destruct Hcases as [[<- ->]|(-> & E & ->)]; [by split; eauto|]. simplify_eq.
  split; simpl; try done; [by eexists| |].
  - rewrite app_nil_r in *. apply list.NoDup_app. split; [done|]. split; [|apply NoDup_singleton].
    intros i Hi ->%list_elem_of_singleton. apply H5 in Hi. lia.
  - intros i. rewrite app_nil_r in H5. rewrite elem_of_app, list_elem_of_singleton.
    intros [Hi%H5| ->]; [lia|]. pose proof (st_pos _ _ _ _ _ H2). pose proof (st_len _ _ _ _ _ H2).
    simpl in *. lia.
Qed.

Section alloc.
Context (a : Allocator) (l1 l2 : list Block) (x s y : Z) (fs : list Z).
Context (HR : Rep a (l1 ++ B x s false :: l2) (y :: fs)).

Lemma alloc_ids : valid a x /\ valid a y /\ y <> x /\
  (x ∉ ids l1) /\ (x ∉ ids l2) /\ (y ∉ ids l1) /\ (y ∉ ids l2) /\
  NoDup (ids l1 ++ x :: y :: ids l2 ++ fs) /\
  (forall i, i ∈ ids l1 ++ x :: y :: ids l2 ++ fs -> 0 <= i < m_current_capacity a).
Proof using HR.
  pose proof (rp_nodup _ _ _ HR) as Hnd. pose proof (rp_range _ _ _ HR) as Hr.
  pose proof (rep_valid _ _ _ HR) as Hv. rewrite ids_app in *. simpl ids in *.
  assert (ids l1 ++ x :: y :: ids l2 ++ fs ≡ₚ (ids l1 ++ x :: ids l2) ++ y :: fs) as HP.
  { rewrite <- app_assoc. simpl. apply Permutation_app_head, perm_skip. symmetry.
    rewrite <- Permutation_middle. done. }
  assert (Hnd' : NoDup (ids l1 ++ x :: y :: ids l2 ++ fs)) by (by rewrite HP).
  pose proof Hnd' as Hnd2. rewrite <- Permutation_middle in Hnd2.
  apply list.NoDup_cons in Hnd2 as [Nx Hnd2].
  rewrite <- Permutation_middle in Hnd2. apply list.NoDup_cons in Hnd2 as [Ny _].
  rewrite !elem_of_app in Ny. rewrite !elem_of_app, elem_of_cons, elem_of_app in Nx.
  split_and!; try tauto; try (apply Hv; rewrite !elem_of_app, !elem_of_cons; tauto).
  - intros ->. tauto.
  - intros i Hi. apply Hr. by rewrite <- HP.
Qed.

Lemma alloc_total : 0 <= s <= m_size a /\ 0 <= total l1 /\ 0 <= total l2 /\
  total l1 + s + total l2 = m_size a /\ m_size a < 2 ^ 32 /\
  u32 (m_freeStorage a - s) = free_total (l1 ++ l2) /\
  0 <= free_total (l1 ++ l2) <= m_size a - s.
Proof using HR.
  destruct (rep_split_layout _ _ _ HR l1 (B x s false) l2 eq_refl) as (HL1 & (_ & _ & _ & Hs) & HL2 & H1 & H2 & H3).
  simpl in *. pose proof (layout_free_bounds _ _ _ HL1). pose proof (layout_free_bounds _ _ _ HL2).
  pose proof (rp_size _ _ _ HR). unfold MAX_BIN_SIZE in *.
  rewrite (rp_free _ _ _ HR), !free_total_app. simpl. rewrite u32_small by lia. lia.
Qed.

(** The state after [popBin] took the node of the free block. *)
Context (rs : Z) (a' : Allocator) (bins : Z -> list Z) (Hrs : 0 <= rs <= s).
Context (HA' : Arrays a').
Context (HB' : BinRep a' (delete x (free_map (l1 ++ B x s false :: l2))) bins).
Context (Hmisc : m_size a' = m_size a /\ m_current_capacity a' = m_current_capacity a /\
  m_max_capacity a' = m_max_capacity a /\ m_freeStorage a' = u32 (m_freeStorage a - s) /\
  m_freeNodes a' = m_freeNodes a /\ m_freeOffset a' = m_freeOffset a).
Context (Hcx : core (nd a' x) = (dataOffset (nd a x), rs, np a x, nn a x, true)).
Context (Hco : forall j, j <> x -> core (nd a' j) = core (nd a j)).

Lemma pop_links j : np a' j = np a j /\ nn a' j = nn a j.
Proof using Hcx Hco.
  destruct (Z.eq_dec j x) as [->|Hne].
  - unfold core in Hcx. unfold np, nn in *. split; congruence.
  - by destruct (core_links _ _ (Hco j Hne)) as (_ & ? & ?).
Qed.

Lemma pop_layout : layout (nd a') 0 (l1 ++ [B x rs true]) /\ layout (nd a') (total l1 + s) l2.
Proof using HR Hcx Hco Hrs.
  destruct (rep_split_layout _ _ _ HR l1 (B x s false) l2 eq_refl) as (HL1 & (E1 & _) & HL2 & _).
  destruct alloc_ids as (_ & _ & _ & N1 & N2 & _). simpl in *. split.
  - apply layout_app. split.
    + eapply layout_ext; [|exact HL1]. intros i Hi. apply Hco. by intros ->.
    + simpl. unfold core in Hcx. injection Hcx as -> -> _ _ ->. split; [|done]. lia.
  - eapply layout_ext; [|exact HL2]. intros i Hi. apply Hco. by intros ->.
Qed.

Lemma pop_free_map : delete x (free_map (l1 ++ B x s false :: l2)) = free_map (l1 ++ l2).
Proof using HR. apply free_map_delete. by apply (rep_nodup_ids _ _ _ HR). Qed.

Lemma alloc_exact : rs = s -> Rep a' (l1 ++ B x rs true :: l2) (y :: fs).
Proof using HR HA' HB' Hmisc Hcx Hco Hrs.
  intros E. destruct Hmisc as (M1 & M2 & M3 & M4 & M5 & M6). destruct alloc_total as (T1 & T2 & T3 & T4 & T5 & T6 & T7).
  destruct (coalesced_split _ _ _ _ (rp_coal _ _ _ HR)) as (C1 & C2 & _).
  destruct pop_layout as [L1 L2]. pose proof HR as [_ R1 _ R2 R3 R4 R5 R6 _ R8 _ _].
  rewrite ids_app in *. split; rewrite ?M1, ?M2, ?M3, ?M5, ?M6; try done.
  - exists bins. by rewrite free_map_used, <- pop_free_map.
  - rewrite R3, !length_app. done.
  - by rewrite ids_app.
  - by rewrite ids_app.
  - rewrite ids_app. eapply dseg_ext; [|exact R6]. intros i _. apply pop_links.
  - change (l1 ++ B x rs true :: l2) with (l1 ++ [B x rs true] ++ l2). rewrite app_assoc.
    apply layout_app. split; [done|]. rewrite total_app. simpl.
    by replace (0 + (total l1 + (rs + 0))) with (total l1 + s) by lia.
  - rewrite total_app. simpl. lia.
  - by apply coalesced_used.
  - rewrite M4, T6, !free_total_app. simpl. done.
Qed.

Lemma alloc_split : rs < s ->
  exists a'', pushRemainder x (s - rs) rs a' = Some (tt, a'') /\
    Rep a'' (l1 ++ B x rs true :: B y (s - rs) false :: l2) fs /\
    m_max_capacity a'' = m_max_capacity a /\ m_size a'' = m_size a /\
    dataOffset (nd a'' x) = dataOffset (nd a' x).
Proof using HR HA' HB' Hmisc Hcx Hco Hrs.
  intros Hlt. destruct Hmisc as (M1 & M2 & M3 & M4 & M5 & M6).
  destruct alloc_total as (T1 & T2 & T3 & T4 & T5 & T6 & T7).
  destruct alloc_ids as (Vx & Vy & Hyx & X1 & X2 & Y1 & Y2 & Hnd & Hr).
  destruct (coalesced_split _ _ _ _ (rp_coal _ _ _ HR)) as (C1 & C2 & _ & C4).
  destruct pop_layout as [L1 L2].
  destruct (rep_link_mid _ _ _ HR l1 (B x s false) l2 eq_refl) as (K1 & K2 & K3 & K4). simpl b_id in *.
  destruct (rep_split_layout _ _ _ HR l1 (B x s false) l2 eq_refl) as (_ & (D1 & _) & _). simpl b_id in D1.
  pose proof HR as [HA R1 _ R2 R3 _ _ _ _ _ _ _].
  assert (Hv : forall i, i ∈ ids l2 -> valid a i).
  { intros i Hi. apply (rep_valid _ _ _ HR). rewrite ids_app. unfold ids at 2.
    rewrite fmap_cons, !elem_of_app, elem_of_cons. auto. }
  assert (Hnx : nn a' x = hd unused (ids l2)) by (rewrite (proj2 (pop_links x)); exact K3).
  assert (V' : forall i, valid a' i <-> valid a i) by (intros; unfold valid; by rewrite M3).
  assert (Hhd : forall z, valid a z -> z ∉ ids l2 -> hd unused (ids l2) <> z).
  { intros z Vz Hz E. destruct (ids l2); simpl in E; [by apply (valid_not_unused a z)|].
    subst. apply Hz. left. }
  destruct (pushRemainder_ok a' _ bins x y fs (s - rs) rs HA' HB') as
    (top' & ub' & bi' & ns' & bins' & Hrun & HA2 & HB2 & HS2 & Dy & Dj & Hnp & Hnn).
  { by rewrite M2, M3, M5, M6. } { by apply V'. } { by apply V'. } { done. }
  { rewrite pop_free_map. apply free_map_None. rewrite ids_app, elem_of_app. tauto. } { lia. }
  { unfold core in Hcx. injection Hcx as -> _ _ _ _. lia. }
  { rewrite Hnx. rewrite V'. by apply hd_valid_ids. } { rewrite Hnx; by apply Hhd. } { rewrite Hnx; by apply Hhd. }
  cbv zeta in *. set (a2 := mkAllocator _ _ _ _ top' ub' bi' ns' _ _) in *.
  exists a2. split; [exact Hrun|]. split; [|split; [exact M3|split; [exact M1|]]].
  2: { specialize (Dj x ltac:(done)). unfold dat in Dj. congruence. }
  assert (HNu : forall i, i ∈ ids l1 ++ x :: y :: ids l2 ++ fs -> i <> unused).
  { intros i Hi. apply Hr in Hi. apply (valid_not_unused a); [done|]. unfold valid.
    pose proof (st_cap _ _ _ _ _ R2). lia. }
  assert (Eids : ids (l1 ++ B x rs true :: B y (s - rs) false :: l2) = (ids l1 ++ [x]) ++ y :: ids l2).
  { rewrite ids_app, <- app_assoc. done. }
  split; try done.
  - change (m_size a2) with (m_size a'). by rewrite M1.
  - exists bins'. rewrite free_map_used.
    rewrite free_map_free by done. by rewrite <- pop_free_map.
  - change (m_freeOffset a2) with (m_freeOffset a' + 1). rewrite M6, R3, !length_app. simpl. lia.
  - rewrite Eids, <- !app_assoc. simpl. exact Hnd.
  - rewrite Eids, <- !app_assoc. simpl. change (m_current_capacity a2) with (m_current_capacity a').
    by rewrite M2.
  - rewrite Eids. apply (dseg_join (np a') (nn a') (np a2) (nn a2) unused (hd unused (ids l2)) x).
    + rewrite <- app_assoc. simpl. rewrite !app_comm_cons, app_assoc in Hnd.
      by apply list.NoDup_app in Hnd as (? & _).
    + intros j Hj. apply HNu. rewrite <- app_assoc in Hj. simpl in Hj.
      rewrite !app_comm_cons, app_assoc, elem_of_app. by left.
    + apply dseg_app. simpl. rewrite Hnx, (proj1 (pop_links x)).
      split; [|done]. eapply dseg_ext; [|exact K1]. intros; apply pop_links.
    + eapply dseg_ext; [|exact K4]. intros; apply pop_links.
    + intros j Hj. rewrite Hnp, Hnx, lastd_app by done. done.
    + intros j Hj. rewrite Hnn, Hnx, lastd_app by done. done.
  - change (l1 ++ B x rs true :: B y (s - rs) false :: l2)
      with (l1 ++ [B x rs true] ++ B y (s - rs) false :: l2). rewrite app_assoc.
    apply layout_app. split.
    + eapply layout_dat; [|exact L1]. intros i Hi. apply Dj. intros ->.
      rewrite ids_app, elem_of_app in Hi. simpl in Hi. rewrite list_elem_of_singleton in Hi. tauto.
    + rewrite total_app. simpl. split.
      * unfold dat in Dy. injection Dy as -> -> ->. unfold core in Hcx. injection Hcx as -> _ _ _ _.
        rewrite D1. split_and!; try done; lia.
      * eapply layout_dat.
        -- intros i Hi. apply Dj. by intros ->.
        -- by replace (0 + (total l1 + (rs + 0)) + (s - rs)) with (total l1 + s) by lia.
  - rewrite total_app. simpl. lia.
  - apply coalesced_used; [done|]. split; [done|].
    apply (coalesced_join [] y (s - rs) l2); by try done.
  - change (m_freeStorage a2) with (u32 (m_freeStorage a' + (s - rs))).
    rewrite M4, T6, u32_small by lia. rewrite !free_total_app. simpl. lia.
Qed.

End alloc.

End Main.
