(* ===== verification/OffsetFree.v ===== *)
(** * OffsetFree: [__Allocator::free] merges a released block with its neighbours

    [Mid a l1 x size l2 fs] is the state inside [free] between the merges:
    the node [x] stands for a region of [size] bytes between the blocks [l1]
    and [l2] and is in no bin; the blocks around it are represented as usual. *)

From Stdlib Require Import ZArith Lia.
From stdpp Require Import base list gmap numbers.
From S2P Require Import Prelude SmallFloat OffsetAlloc OffsetBins OffsetBinOps OffsetMain.
Import SmallFloat Alloc Bins BinOps Blocks Main.

Module Free.
Open Scope moon_scope.
Open Scope Z_scope.

Record Mid (a : Allocator) (l1 : list Block) (x size : Z) (l2 : list Block) (fs : list Z) : Prop := {
  md_arrays : Arrays a;
  md_msize : 0 <= m_size a <= MAX_BIN_SIZE;
  md_bins : exists bins, BinRep a (free_map (l1 ++ l2)) bins;
  md_stack : StackA a fs;
  md_count : m_freeOffset a = Z.of_nat (length l1 + length l2) + 1;
  md_nodup : NoDup (x :: ids l1 ++ ids l2 ++ fs);
  md_range : forall i, i ∈ x :: ids l1 ++ ids l2 ++ fs -> 0 <= i < m_current_capacity a;
  md_link1 : exists q, dseg (np a) (nn a) unused (ids l1) q;
  md_link2 : exists q, dseg (np a) (nn a) q (ids l2) unused;
  md_np : np a x = lastd unused (ids l1);
  md_nn : nn a x = hd unused (ids l2);
  md_lay1 : layout (nd a) 0 l1;
  md_lay2 : layout (nd a) (total l1 + size) l2;
  md_size : 0 <= size;
  md_total : total l1 + size + total l2 = m_size a;
  md_coal1 : coalesced l1;
  md_coal2 : coalesced l2;
  md_free : m_freeStorage a = free_total (l1 ++ l2);
}.

(** What [free] leaves alone. *)
Definition same_frame (a a' : Allocator) : Prop :=
  m_max_capacity a' = m_max_capacity a /\ m_size a' = m_size a.

Lemma Rep_Mid a l1 x s l2 fs : Rep a (l1 ++ B x s true :: l2) fs -> Mid a l1 x s l2 fs.
Proof.
  intros HR. destruct (rep_link_mid _ _ _ HR l1 _ l2 eq_refl) as (K1 & K2 & K3 & K4).
  destruct (rep_split_layout _ _ _ HR l1 _ l2 eq_refl) as (L1 & (_ & _ & _ & Hs) & L2 & _ & _ & HT).
  destruct HR as [H1 H2 H3 H4 H5 H6 H7 _ _ _ H10 H11]. simpl in *.
  rewrite free_map_used in H3. apply coalesced_used in H10 as [C1 C2]; [|done].
  rewrite length_app in H5. simpl in H5. rewrite ids_app in *. simpl in *.
  assert (x :: ids l1 ++ ids l2 ++ fs ≡ₚ (ids l1 ++ x :: ids l2) ++ fs) as HP.
  { rewrite <- app_assoc. simpl. by rewrite <- Permutation_middle. }
  split; try done; try lia; try (by eexists).
  - by rewrite HP.
  - intros i Hi. apply H7. by rewrite <- HP.
  - rewrite H11, !free_total_app. simpl. lia.
Qed.

Section mid.
Context (a : Allocator) (l1 l2 : list Block) (x size : Z) (fs : list Z).
Context (HM : Mid a l1 x size l2 fs).

Lemma mid_valid i : i ∈ x :: ids l1 ++ ids l2 ++ fs -> valid a i.
Proof using HM.
  intros Hi%(md_range _ _ _ _ _ _ HM). pose proof (st_cap _ _ _ _ _ (md_stack _ _ _ _ _ _ HM)).
  unfold valid. lia.
Qed.

Lemma mid_x : valid a x.
Proof using HM. apply mid_valid. left. Qed.

Lemma mid_fresh : (x ∉ ids l1) /\ (x ∉ ids l2) /\ (x ∉ fs) /\ NoDup (ids l1 ++ ids l2 ++ fs).
Proof using HM.
  pose proof (md_nodup _ _ _ _ _ _ HM) as H. apply list.NoDup_cons in H as [H ?].
  rewrite !elem_of_app in H. tauto.
Qed.

Lemma mid_bounds : 0 <= total l1 /\ 0 <= total l2 /\ m_size a < 2 ^ 32 /\
  0 <= free_total l1 <= total l1 /\ 0 <= free_total l2 <= total l2.
Proof using HM.
  pose proof (md_msize _ _ _ _ _ _ HM). unfold MAX_BIN_SIZE in *.
  pose proof (layout_nonneg _ _ _ (md_lay1 _ _ _ _ _ _ HM)).
  pose proof (layout_nonneg _ _ _ (md_lay2 _ _ _ _ _ _ HM)).
  pose proof (layout_free_bounds _ _ _ (md_lay1 _ _ _ _ _ _ HM)).
  pose proof (layout_free_bounds _ _ _ (md_lay2 _ _ _ _ _ _ HM)). lia.
Qed.

End mid.

(** The common tail of both merges: the removed neighbour [z] went to the free
    stack and the link of [x] towards it moved past it. *)
Lemma Mid_absorb a a1 l1 l2 x size fs l1' l2' size' z s f :
  Mid a l1 x size l2 fs -> Arrays a1 -> same_frame a a1 ->
  m_current_capacity a1 = m_current_capacity a ->
  (exists bins, BinRep a1 (free_map (l1' ++ l2')) bins) -> StackA a1 (z :: fs) ->
  m_freeStorage a1 = u32 (m_freeStorage a - s) -> m_freeOffset a1 = m_freeOffset a - 1 ->
  (forall j, core (nd a1 j) = core (nd a j)) ->
  (forall n, bin_part (f n) = bin_part n) ->
  ids l1 ++ ids l2 ≡ₚ z :: ids l1' ++ ids l2' ->
  (exists q, dseg (np a) (nn a) unused (ids l1') q) ->
  (exists q, dseg (np a) (nn a) q (ids l2') unused) ->
  neighborPrev (f (nd a1 x)) = lastd unused (ids l1') ->
  neighborNext (f (nd a1 x)) = hd unused (ids l2') ->
  layout (nd a) 0 l1' -> layout (nd a) (total l1' + size') l2' -> 0 <= size' ->
  total l1' + size' + total l2' = m_size a -> coalesced l1' -> coalesced l2' -> 0 <= s ->
  free_total (l1 ++ l2) = s + free_total (l1' ++ l2') -> (length l1 + length l2 = S (length l1' + length l2'))%nat ->
  Mid (put_node x (f (nd a1 x)) a1) l1' x size' l2' (z :: fs).
Proof.
  intros HM HA1 [Fm Fs] Fc [bins HB] HS Hst Hfo Hco Hf HP [q1 D1] [q2 D2] Hp Hn L1 L2 Hs' HT C1 C2 Hs Hft Hlen.
  pose proof (mid_x _ _ _ _ _ _ HM) as Vx. assert (Vx1 : valid a1 x) by (unfold valid; by rewrite Fm).
  destruct (mid_fresh _ _ _ _ _ _ HM) as (X1 & X2 & X3 & Hnd).
  assert (HP' : x :: ids l1' ++ ids l2' ++ z :: fs ≡ₚ x :: ids l1 ++ ids l2 ++ fs).
  { apply perm_skip. rewrite !app_assoc, HP. simpl. by rewrite <- Permutation_middle. }
  assert (Hx' : forall i, i ∈ ids l1' ++ ids l2' -> i <> x).
  { intros i Hi ->. assert (x ∈ ids l1 ++ ids l2) as Hin by (rewrite HP; by right).
    rewrite elem_of_app in Hin. tauto. }
  assert (Hnode : forall i, i ∈ ids l1' ++ ids l2' ->
    core (nd (put_node x (f (nd a1 x)) a1) i) = core (nd a i)).
  { intros i Hi. rewrite nd_put, upd_ne by (try done; apply not_eq_sym; by apply Hx'). apply Hco. }
  assert (Hlink : forall i, i ∈ ids l1' ++ ids l2' ->
    np (put_node x (f (nd a1 x)) a1) i = np a i /\ nn (put_node x (f (nd a1 x)) a1) i = nn a i).
  { intros i Hi. by destruct (core_links _ _ (Hnode i Hi)) as (_ & ? & ?). }
  pose proof (mid_bounds _ _ _ _ _ _ HM). pose proof (layout_free_bounds _ _ _ L1).
  pose proof (layout_free_bounds _ _ _ L2). pose proof (md_free _ _ _ _ _ _ HM) as HF.
  pose proof (md_count _ _ _ _ _ _ HM). pose proof (md_msize _ _ _ _ _ _ HM).
  rewrite !free_total_app in *.
  split; simpl; rewrite ?Fs, ?Fc, ?Fm; try done; auto with moon.
  - exists bins. apply (BinRep_frame a1); try done. intros j. by apply bin_part_put.
  - by rewrite Fc, Fm in HS.
  - rewrite Hfo. lia.
  - rewrite HP'. apply HM.
  - intros i. rewrite HP'. apply HM.
  - exists q1. eapply dseg_ext; [|exact D1]. intros i Hi. apply Hlink. rewrite elem_of_app. by left.
  - exists q2. eapply dseg_ext; [|exact D2]. intros i Hi. apply Hlink. rewrite elem_of_app. by right.
  - unfold np. by rewrite nd_put, upd_eq by done.
  - unfold nn. by rewrite nd_put, upd_eq by done.
  - eapply layout_ext; [|exact L1]. intros i Hi. apply Hnode. rewrite elem_of_app. by left.
  - eapply layout_ext; [|exact L2]. intros i Hi. apply Hnode. rewrite elem_of_app. by right.
  - rewrite Hst, HF, free_total_app. rewrite u32_small by lia. lia.
Qed.

Lemma removeNode_mid a l1 l2 x size fs z s bins : Mid a l1 x size l2 fs ->
  BinRep a (free_map (l1 ++ l2)) bins -> free_map (l1 ++ l2) !! z = Some s ->
  exists a1 bins1, removeNodeFromBin z a = Some (tt, a1) /\ Arrays a1 /\ same_frame a a1 /\
    m_current_capacity a1 = m_current_capacity a /\
    BinRep a1 (delete z (free_map (l1 ++ l2))) bins1 /\ StackA a1 (z :: fs) /\
    m_freeStorage a1 = u32 (m_freeStorage a - s) /\ m_freeOffset a1 = m_freeOffset a - 1 /\
    (forall j, core (nd a1 j) = core (nd a j)).
Proof.
  intros HM HB HF. pose proof (md_count _ _ _ _ _ _ HM).
  destruct (removeNodeFromBin_ok a _ bins (md_arrays _ _ _ _ _ _ HM) HB z s fs HF
    (md_stack _ _ _ _ _ _ HM) ltac:(lia)) as (top' & ub' & bi' & ns' & fn' & bins' & Hrun & H1 & H2 & H3 & H4).
  cbv zeta in *. eexists _, bins'. by split_and!.
Qed.

Lemma mid_nodup_blocks a l1 l2 x size fs : Mid a l1 x size l2 fs -> NoDup (ids (l1 ++ l2)).
Proof.
  intros HM. destruct (mid_fresh _ _ _ _ _ _ HM) as (_ & _ & _ & Hnd).
  rewrite ids_app. rewrite app_assoc in Hnd. by apply list.NoDup_app in Hnd as (? & _).
Qed.

(** A free block next to [x] is in the bins under its own size, and
    removing it leaves the bins of the other blocks. *)
Lemma free_neighbour l1 z s l2 : NoDup (ids (l1 ++ B z s false :: l2)) ->
  free_map (l1 ++ B z s false :: l2) !! z = Some s /\
  delete z (free_map (l1 ++ B z s false :: l2)) = free_map (l1 ++ l2).
Proof.
  intros Hnd. split; [|by apply free_map_delete].
  apply free_map_Some; [done|]. rewrite elem_of_app. right; left.
Qed.

Lemma snoc_app {A} (l1 : list A) z l2 : (l1 ++ [z]) ++ l2 = l1 ++ z :: l2.
Proof. by rewrite <- app_assoc. Qed.

(** The neighbour before [x] is free: it is taken out of its bin and absorbed. *)
Lemma mergePrev_absorb a l1 z s x size l2 fs : Mid a (l1 ++ [B z s false]) x size l2 fs ->
  exists a', mergePrev x (total (l1 ++ [B z s false]), size) a = Some ((total l1, size + s), a') /\
    Mid a' l1 x (size + s) l2 (z :: fs) /\ last_used l1 /\ same_frame a a'.
Proof.
  intros HM. pose proof (mid_x _ _ _ _ _ _ HM) as Vx. pose proof (md_arrays _ _ _ _ _ _ HM) as HA.
  assert (Vz : valid a z).
  { apply (mid_valid _ _ _ _ _ _ HM). right. rewrite ids_app, !elem_of_app. left; right; left. }
  assert (Hnp : np a x = z) by (rewrite (md_np _ _ _ _ _ _ HM), ids_app, lastd_app; done).
  unfold mergePrev. erewrite bind_Some by (by apply (node_get_ok a HA)).
  change (neighborPrev (nd a x)) with (np a x).
  rewrite Hnp, (proj2 (Z.eqb_neq _ _) (valid_not_unused a _ HA Vz)).
  erewrite bind_Some by (by apply (node_get_ok a HA)).
  pose proof (md_lay1 _ _ _ _ _ _ HM) as HL. apply layout_app in HL as [L1 [(Eo & Es & Eu & Hs) _]].
  simpl in Eo, Es, Eu, Hs. rewrite Eu, Eo, Es, Z.add_0_l.
  pose proof (mid_bounds _ _ _ _ _ _ HM) as HBd. pose proof (layout_nonneg _ _ _ L1).
  pose proof (md_total _ _ _ _ _ _ HM) as HT. pose proof (md_size _ _ _ _ _ _ HM).
  rewrite total_app in HT. simpl in HT. rewrite u32_small by lia.
  destruct (md_bins _ _ _ _ _ _ HM) as [bins HB].
  pose proof (mid_nodup_blocks _ _ _ _ _ _ HM) as Hnd. rewrite snoc_app in Hnd.
  destruct (free_neighbour l1 z s l2 Hnd) as [HF HD]. rewrite <- snoc_app in HF, HD.
  destruct (removeNode_mid _ _ _ _ _ _ z s bins HM HB HF) as
    (a1 & bins1 & Hrun & HA1 & [Fm Fs] & Hcap & HB1 & HS1 & Hst & Hfo & Hco).
  rewrite HD in HB1. erewrite bind_Some by exact Hrun.
  assert (Vx1 : valid a1 x) by (unfold valid; by rewrite Fm).
  assert (Vz1 : valid a1 z) by (unfold valid; by rewrite Fm).
  destruct (core_links _ _ (Hco x)) as (_ & Px & Nx). destruct (core_links _ _ (Hco z)) as (_ & Pz & _).
  erewrite bind_Some by (by apply (node_get_ok a1 HA1)). rewrite Px. fold (np a x). rewrite Hnp.
  erewrite bind_Some by (by apply (node_get_ok a1 HA1)).
  erewrite bind_Some by (by apply (node_upd_ok a1 HA1)).
  destruct (md_link1 _ _ _ _ _ _ HM) as [q Hd]. rewrite ids_app in Hd. simpl in Hd.
  pose proof (dseg_mid _ _ _ _ _ _ _ Hd) as [Hzp _]. apply dseg_app in Hd as [Hd _].
  destruct (coalesced_split l1 z s [] (md_coal1 _ _ _ _ _ _ HM)) as (C1 & _ & C3 & _).
  eexists. split; [reflexivity|]. split_and!; try done.
  apply (Mid_absorb a a1 (l1 ++ [B z s false]) l2 x size fs l1 l2 (size + s) z s
    (set_neighborPrev (neighborPrev (nd a1 z)))); try done; try lia; try (by eexists); try apply HM.
  - rewrite ids_app, <- app_assoc. simpl. by rewrite Permutation_middle.
  - simpl. by rewrite Pz.
  - simpl. rewrite Nx. apply (md_nn _ _ _ _ _ _ HM).
  - pose proof (md_lay2 _ _ _ _ _ _ HM) as L2. rewrite total_app in L2. simpl in L2.
    by replace (total l1 + (size + s)) with (total l1 + (s + 0) + size) by lia.
  - rewrite !free_total_app. simpl. lia.
  - rewrite length_app. simpl. lia.
Qed.

Lemma mergePrev_ok a l1 x size l2 fs : Mid a l1 x size l2 fs ->
  exists a' fs', mergePrev x (total l1, size) a
      = Some ((total (mergeL l1).1, size + (mergeL l1).2), a') /\
    Mid a' (mergeL l1).1 x (size + (mergeL l1).2) l2 fs' /\ last_used (mergeL l1).1 /\ same_frame a a'.
Proof.
  intros HM. destruct l1 as [|[z s u] l1 _] using rev_ind; [|destruct u].
  - exists a, fs. unfold mergePrev. pose proof (mid_x _ _ _ _ _ _ HM) as Vx.
    erewrite bind_Some by (by apply (node_get_ok a (md_arrays _ _ _ _ _ _ HM))).
    change (neighborPrev (nd a x)) with (np a x). rewrite (md_np _ _ _ _ _ _ HM).
    simpl. rewrite Z.add_0_r. by split_and!.
  - rewrite mergeL_snoc_used by done. exists a, fs. simpl. rewrite Z.add_0_r.
    pose proof (mid_x _ _ _ _ _ _ HM) as Vx. pose proof (md_arrays _ _ _ _ _ _ HM) as HA.
    assert (Vz : valid a z).
    { apply (mid_valid _ _ _ _ _ _ HM). right. rewrite ids_app, !elem_of_app. left; right; left. }
    split; [|split_and!; try done; intros c; rewrite last_snoc; by intros [= <-]].
    unfold mergePrev. erewrite bind_Some by (by apply (node_get_ok a HA)).
    change (neighborPrev (nd a x)) with (np a x). rewrite (md_np _ _ _ _ _ _ HM), ids_app, lastd_app.
    change (lastd _ (ids [_])) with z. rewrite (proj2 (Z.eqb_neq _ _) (valid_not_unused a _ HA Vz)).
    erewrite bind_Some by (by apply (node_get_ok a HA)).
    pose proof (md_lay1 _ _ _ _ _ _ HM) as HL. apply layout_app in HL as [_ [(_ & _ & Eu & _) _]].
    simpl in Eu. by rewrite Eu.
  - rewrite mergeL_snoc by done. destruct (mergePrev_absorb _ _ _ _ _ _ _ _ HM) as (a' & ? & ? & ? & ?).
    exists a', (z :: fs). done.
Qed.

Lemma mergeNext_absorb a l1 z s x size l2 fs off : Mid a l1 x size (B z s false :: l2) fs ->
  exists a', mergeNext x (off, size) a = Some ((off, size + s), a') /\
    Mid a' l1 x (size + s) l2 (z :: fs) /\ head_used l2 /\ same_frame a a'.
Proof.
  intros HM. pose proof (mid_x _ _ _ _ _ _ HM) as Vx. pose proof (md_arrays _ _ _ _ _ _ HM) as HA.
  assert (Vz : valid a z).
  { apply (mid_valid _ _ _ _ _ _ HM). right. rewrite !elem_of_app. right; left; left. }
  assert (Hnn : nn a x = z) by (rewrite (md_nn _ _ _ _ _ _ HM); done).
  unfold mergeNext. erewrite bind_Some by (by apply (node_get_ok a HA)).
  change (neighborNext (nd a x)) with (nn a x).
  rewrite Hnn, (proj2 (Z.eqb_neq _ _) (valid_not_unused a _ HA Vz)).
  erewrite bind_Some by (by apply (node_get_ok a HA)).
  pose proof (md_lay2 _ _ _ _ _ _ HM) as [(Eo & Es & Eu & Hs) L2].
  simpl in Eo, Es, Eu, Hs, L2. rewrite Eu, Es.
  pose proof (mid_bounds _ _ _ _ _ _ HM) as HBd. pose proof (layout_nonneg _ _ _ L2).
  pose proof (md_total _ _ _ _ _ _ HM) as HT. pose proof (md_size _ _ _ _ _ _ HM).
  simpl in HT. rewrite u32_small by lia.
  destruct (md_bins _ _ _ _ _ _ HM) as [bins HB].
  destruct (free_neighbour l1 z s l2 (mid_nodup_blocks _ _ _ _ _ _ HM)) as [HF HD].
  destruct (removeNode_mid _ _ _ _ _ _ z s bins HM HB HF) as
    (a1 & bins1 & Hrun & HA1 & [Fm Fs] & Hcap & HB1 & HS1 & Hst & Hfo & Hco).
  rewrite HD in HB1. erewrite bind_Some by exact Hrun.
  assert (Vx1 : valid a1 x) by (unfold valid; by rewrite Fm).
  assert (Vz1 : valid a1 z) by (unfold valid; by rewrite Fm).
  destruct (core_links _ _ (Hco x)) as (_ & Px & Nx). destruct (core_links _ _ (Hco z)) as (_ & _ & Nz).
  erewrite bind_Some by (by apply (node_get_ok a1 HA1)). rewrite Nx. fold (nn a x). rewrite Hnn.
  erewrite bind_Some by (by apply (node_get_ok a1 HA1)).
  erewrite bind_Some by (by apply (node_upd_ok a1 HA1)).
  destruct (md_link2 _ _ _ _ _ _ HM) as [q Hd]. destruct Hd as (_ & Hzn & Hd).
  destruct (coalesced_split [] z s l2 (md_coal2 _ _ _ _ _ _ HM)) as (_ & C2 & _ & C4).
  eexists. split; [reflexivity|]. split_and!; try done.
  apply (Mid_absorb a a1 l1 (B z s false :: l2) x size fs l1 l2 (size + s) z s
    (set_neighborNext (neighborNext (nd a1 z)))); try done; try lia; try (by eexists); try apply HM.
  - simpl. by rewrite Permutation_middle.
  - simpl. rewrite Px. apply (md_np _ _ _ _ _ _ HM).
  - simpl. by rewrite Nz.
  - by rewrite Z.add_assoc.
  - rewrite !free_total_app. simpl. lia.
Qed.

Lemma mergeNext_ok a l1 x size l2 fs off : Mid a l1 x size l2 fs ->
  exists a' fs', mergeNext x (off, size) a = Some ((off, size + (mergeR l2).2), a') /\
    Mid a' l1 x (size + (mergeR l2).2) (mergeR l2).1 fs' /\ head_used (mergeR l2).1 /\ same_frame a a'.
Proof.
  intros HM. pose proof (mid_x _ _ _ _ _ _ HM) as Vx. pose proof (md_arrays _ _ _ _ _ _ HM) as HA.
  destruct l2 as [|[z s u] l2]; [|destruct u].
  - exists a, fs. unfold mergeNext. erewrite bind_Some by (by apply (node_get_ok a HA)).
    change (neighborNext (nd a x)) with (nn a x). rewrite (md_nn _ _ _ _ _ _ HM).
    simpl. rewrite Z.add_0_r. by split_and!.
  - exists a, fs. simpl. rewrite Z.add_0_r.
    assert (Vz : valid a z).
    { apply (mid_valid _ _ _ _ _ _ HM). right. rewrite !elem_of_app. right; left; left. }
    split; [|split_and!; try done; intros c; by intros [= <-]].
    unfold mergeNext. erewrite bind_Some by (by apply (node_get_ok a HA)).
    change (neighborNext (nd a x)) with (nn a x). rewrite (md_nn _ _ _ _ _ _ HM).
    change (hd _ (ids _)) with z. rewrite (proj2 (Z.eqb_neq _ _) (valid_not_unused a _ HA Vz)).
    erewrite bind_Some by (by apply (node_get_ok a HA)).
    pose proof (md_lay2 _ _ _ _ _ _ HM) as [(_ & _ & Eu & _) _]. simpl in Eu. by rewrite Eu.
  - destruct (mergeNext_absorb _ _ _ _ _ _ _ _ off HM) as (a' & ? & ? & ? & ?).
    exists a', (z :: fs). done.
Qed.

(** ** Re-linking the merged node *)

(** A node store that only touches neighbour links. *)
Record Relinked (a a' : Allocator) (prv nxt : Z -> Z) : Prop := {
  rl_state : exists ns', a' = set_nodes ns' a;
  rl_arrays : Arrays a';
  rl_bins : forall j, bin_part (nd a' j) = bin_part (nd a j);
  rl_np : forall j, j <> unused -> np a' j = prv j;
  rl_nn : forall j, j <> unused -> nn a' j = nxt j;
}.

Lemma set_nodes_self a : a = set_nodes (m_nodes a) a.
Proof. by destruct a. Qed.

Lemma relinkNext_ok a x n : Arrays a -> valid a x -> n = unused \/ valid a n -> n <> x ->
  nn a x = unused ->
  exists a', relinkNext x n a = Some (tt, a') /\
    Relinked a a' (upd (np a) n x) (upd (nn a) x n).
Proof.
  intros HA Vx Vn Hnx Hxn. unfold relinkNext. destruct (Z.eqb_spec n unused) as [->|Hn]; simpl.
  - exists a. split; [done|]. split; try done; [exists (m_nodes a); apply set_nodes_self|..];
      intros j Hj; upd_cases.
  - destruct Vn as [|Vn]; [done|]. erewrite bind_Some by (by apply (node_upd_ok a HA)).
    set (a1 := put_node x _ a). assert (HA1 : Arrays a1) by (by apply Arrays_put_node).
    assert (Vn1 : valid a1 n) by done. rewrite (node_upd_ok a1 HA1) by done.
    eexists. split; [reflexivity|]. split.
    + by eexists.
    + auto with moon.
    + intros j. rewrite bin_part_put by done. by apply (bin_part_put a x (set_neighborNext n)).
    + intros j Hj. rewrite np_put_np by done. unfold upd, a1. by rewrite np_put_nn.
    + intros j Hj. rewrite nn_put_np by done. unfold a1. by rewrite nn_put_nn.
Qed.

Lemma relinkPrev_ok a x p : Arrays a -> valid a x -> p = unused \/ valid a p -> p <> x ->
  np a x = unused ->
  exists a', relinkPrev x p a = Some (tt, a') /\
    Relinked a a' (upd (np a) x p) (upd (nn a) p x).
Proof.
  intros HA Vx Vn Hnx Hxn. unfold relinkPrev. destruct (Z.eqb_spec p unused) as [->|Hn]; simpl.
  - exists a. split; [done|]. split; try done; [exists (m_nodes a); apply set_nodes_self|..];
      intros j Hj; upd_cases.
  - destruct Vn as [|Vn]; [done|]. erewrite bind_Some by (by apply (node_upd_ok a HA)).
    set (a1 := put_node x _ a). assert (HA1 : Arrays a1) by (by apply Arrays_put_node).
    assert (Vn1 : valid a1 p) by done. rewrite (node_upd_ok a1 HA1) by done.
    eexists. split; [reflexivity|]. split.
    + by eexists.
    + auto with moon.
    + intros j. rewrite bin_part_put by done. by apply (bin_part_put a x (set_neighborPrev p)).
    + intros j Hj. rewrite np_put_nn by done. unfold a1. by rewrite np_put_np.
    + intros j Hj. rewrite nn_put_nn by done. unfold upd, a1. by rewrite nn_put_np.
Qed.

Lemma relink_ok a x n p : Arrays a -> valid a x -> n = unused \/ valid a n -> n <> x ->
  p = unused \/ valid a p -> p <> x -> nn a x = unused -> np a x = unused ->
  exists a', (do* relinkNext x n in relinkPrev x p) a = Some (tt, a') /\
    Relinked a a' (upd (upd (np a) x p) n x) (upd (upd (nn a) x n) p x).
Proof.
  intros HA Vx Vn Hn Vp Hp Hxn Hxp.
  destruct (relinkNext_ok a x n HA Vx Vn Hn Hxn) as (a1 & R1 & [[ns1 E1] HA1 B1 P1 N1]).
  pose proof (valid_not_unused a x HA Vx) as Hxu.
  assert (np a1 x = unused) as Hxp1 by (rewrite P1, upd_ne by done; done).
  assert (Vx1 : valid a1 x) by (by subst a1).
  assert (Vp1 : p = unused \/ valid a1 p) by (by subst a1).
  destruct (relinkPrev_ok a1 x p HA1 Vx1 Vp1 Hp Hxp1) as (a2 & R2 & [[ns2 E2] HA2 B2 P2 N2]).
  exists a2. erewrite bind_Some by exact R1. split; [exact R2|]. split; [|done|..].
  - exists ns2. by subst.
  - intros j. by rewrite B2.
  - intros j Hj. rewrite P2 by done. unfold upd at 1 2. rewrite P1 by done.
    destruct (Z.eqb_spec x j) as [<-|]; [|unfold upd; upd_cases].
    destruct (Z.eqb_spec n x); [done|]. by rewrite upd_eq.
  - intros j Hj. rewrite N2 by done. unfold upd at 1 2. by rewrite N1 by done.
Qed.

Section release.
Context (a : Allocator) (l1 l2 : list Block) (x size : Z) (fs : list Z).
Context (HM : Mid a l1 x size l2 fs).

Lemma mid_size_range : 0 <= size < 2 ^ 32.
Proof using HM.
  pose proof (mid_bounds _ _ _ _ _ _ HM). pose proof (md_total _ _ _ _ _ _ HM).
  pose proof (md_size _ _ _ _ _ _ HM). lia.
Qed.

(** The node is pushed to the free list and popped again by the insertion. *)
Lemma push_insert_ok : exists a' bins,
  (do* modify (set_freeOffset (u32 (m_freeOffset a - 1))) in
   do* free_set (u32 (m_freeOffset a - 1)) x in
   insertNodeIntoBin size (total l1)) a = Some (x, a') /\
  same_frame a a' /\ m_current_capacity a' = m_current_capacity a /\
  m_freeStorage a' = u32 (m_freeStorage a + size) /\ m_freeOffset a' = m_freeOffset a /\
  Arrays a' /\ BinRep a' (<[x:=size]> (free_map (l1 ++ l2))) bins /\ StackA a' fs /\
  core (nd a' x) = (total l1, size, unused, unused, false) /\
  (forall j, j <> x -> core (nd a' j) = core (nd a j)).
Proof using HM.
  pose proof HM as [HA _ [bins HB] HS Hcnt _ _ _ _ _ _ _ _ _ _ _ _ _].
  destruct (mid_fresh _ _ _ _ _ _ HM) as (X1 & X2 & _ & _).
  pose proof (arr_max a HA). pose proof (st_len _ _ _ _ _ HS). pose proof (st_cap _ _ _ _ _ HS).
  rewrite u32_small by lia. rewrite bind_modify. set (a1 := set_freeOffset (m_freeOffset a - 1) a).
  assert (HA1 : Arrays a1) by (unfold a1; auto with moon).
  assert (HB1 : BinRep a1 (free_map (l1 ++ l2)) bins) by (by apply (BinRep_frame a)).
  erewrite bind_Some by (apply (free_set_ok a1 HA1); unfold a1; simpl; lia).
  set (a2 := put_free _ x a1). assert (HA2 : Arrays a2) by (unfold a2; auto with moon).
  assert (HB2 : BinRep a2 (free_map (l1 ++ l2)) bins) by (by apply (BinRep_frame a1)).
  assert (HS2 : StackA a2 (x :: fs)) by (apply (Stack_push a1 x fs (m_freeOffset a) HA1); [lia|exact HS]).
  destruct (insertNodeIntoBin_ok a2 _ bins HA2 HB2 x fs size (total l1) HS2)
    as (top' & ub' & bi' & ns' & Hrun & HA3 & HB3 & HS3 & Hcx & Hco).
  { exact (mid_x _ _ _ _ _ _ HM). }
  { apply free_map_None. rewrite ids_app, elem_of_app. tauto. } { exact mid_size_range. }
  cbv zeta in *. do 2 eexists. split; [exact Hrun|]. split_and!; try done. simpl. lia.
Qed.

(** The state in which the combined node is binned and linked. *)
Lemma Rep_released a2 bins : last_used l1 -> head_used l2 -> Arrays a2 -> same_frame a a2 ->
  m_current_capacity a2 = m_current_capacity a -> m_freeStorage a2 = u32 (m_freeStorage a + size) ->
  m_freeOffset a2 = m_freeOffset a -> BinRep a2 (<[x:=size]> (free_map (l1 ++ l2))) bins ->
  StackA a2 fs -> dat (nd a2 x) = (total l1, size, false) ->
  (forall j, j <> x -> dat (nd a2 j) = dat (nd a j)) ->
  (forall j, j <> unused -> np a2 j = upd (upd (np a) x (lastd unused (ids l1))) (hd unused (ids l2)) x j) ->
  (forall j, j <> unused -> nn a2 j = upd (upd (nn a) x (hd unused (ids l2))) (lastd unused (ids l1)) x j) ->
  Rep a2 (l1 ++ B x size false :: l2) fs.
Proof using HM.
  intros Hl Hh HA2 [Fm Fs] Fc Fst Ffo HB HS Hx Hj HP HN.
  destruct (mid_fresh _ _ _ _ _ _ HM) as (X1 & X2 & X3 & Hnd). pose proof (mid_bounds _ _ _ _ _ _ HM).
  destruct HM as [HA M1 _ M3 M4 M5 M6 [q1 M7] [q2 M8] _ _ M11 M12 M13 M14 M15 M16 M17].
  assert (Eids : ids (l1 ++ B x size false :: l2) = ids l1 ++ x :: ids l2) by apply ids_app.
  assert (HPm : (ids l1 ++ x :: ids l2) ++ fs ≡ₚ x :: ids l1 ++ ids l2 ++ fs).
  { rewrite <- app_assoc. simpl. by rewrite <- Permutation_middle. }
  split; rewrite ?Eids, ?Fs, ?Fc, ?Fm; try done.
  - exists bins. by rewrite free_map_free.
  - by rewrite <- Fc, <- Fm.
  - rewrite Ffo, M4, length_app. simpl. lia.
  - by rewrite HPm.
  - intros i. rewrite HPm. apply M6.
  - apply (dseg_join (np a) (nn a) (np a2) (nn a2) unused q1 q2); try done.
    + rewrite <- HPm in M5. by apply list.NoDup_app in M5 as (? & _).
    + intros j Hi. assert (Hr : 0 <= j < m_current_capacity a).
      { apply M6. rewrite <- HPm, elem_of_app. by left. }
      pose proof (st_cap _ _ _ _ _ M3). pose proof (arr_max a HA). unfold unused. lia.
  - apply layout_app. split; [|split].
    + eapply layout_dat; [|exact M11]. intros i Hi. apply Hj. by intros ->.
    + simpl. unfold dat in Hx. injection Hx as -> -> ->. split_and!; done.
    + eapply layout_dat; [|exact M12]. intros i Hi. apply Hj. by intros ->.
  - rewrite total_app. simpl. lia.
  - by apply coalesced_join.
  - rewrite Fst, M17, !free_total_app. simpl. rewrite u32_small; lia.
Qed.

Lemma releaseNode_ok : last_used l1 -> head_used l2 ->
  exists a', releaseNode x (total l1) size a = Some (tt, a') /\
    Rep a' (l1 ++ B x size false :: l2) fs /\ same_frame a a'.
Proof using HM.
  intros Hl Hh. unfold releaseNode. pose proof (md_arrays _ _ _ _ _ _ HM) as HA.
  pose proof (mid_x _ _ _ _ _ _ HM) as Vx.
  erewrite bind_Some by (by apply (node_get_ok a HA)). rewrite bind_gets.
  fold (nn a x) (np a x). rewrite (md_nn _ _ _ _ _ _ HM), (md_np _ _ _ _ _ _ HM).
  destruct push_insert_ok as (a1 & bins & Hrun & [Fm Fs] & Fc & Fst & Ffo & HA1 & HB1 & HS1 & Hcx & Hco).
  assert (Hassoc : forall k : Z -> M unit,
    (do* modify (set_freeOffset (u32 (m_freeOffset a - 1))) in
     do* free_set (u32 (m_freeOffset a - 1)) x in
     let* c := insertNodeIntoBin size (total l1) in k c) a = k x a1).
  { intros k. unfold bind at 1 2 3. unfold bind at 1 2 in Hrun. simpl in *.
    destruct (free_set _ _ _) as [[[] a0]|]; [|done]. by rewrite Hrun. }
  rewrite Hassoc. clear Hrun Hassoc.
  destruct (mid_fresh _ _ _ _ _ _ HM) as (X1 & X2 & X3 & Hnd).
  assert (Hv : forall i, i ∈ ids l1 ++ ids l2 -> valid a1 i /\ i <> x).
  { intros i Hi. split.
    - unfold valid. rewrite Fm. apply (mid_valid _ _ _ _ _ _ HM). right. rewrite app_assoc, elem_of_app. by left.
    - intros ->. rewrite elem_of_app in Hi. tauto. }
  assert (Hxu : unused <> x) by (apply not_eq_sym, (valid_not_unused a); done).
  assert (Hend : forall z, z = unused \/ z ∈ ids l1 ++ ids l2 -> (z = unused \/ valid a1 z) /\ z <> x).
  { intros z [->|Hz]; [auto|]. apply Hv in Hz as [??]. auto. }
  destruct (Hend (hd unused (ids l2))) as [Vn Hn].
  { destruct (ids l2); [by left|right; simpl; rewrite elem_of_app; right; left]. }
  destruct (Hend (lastd unused (ids l1))) as [Vp Hp].
  { destruct (ids l1) as [|h t] eqn:E; [by left|right]. rewrite elem_of_app; left. by apply (lastd_elem unused (h :: t)). }
  unfold core in Hcx. injection Hcx as Ox Sx Px Nx Ux.
  destruct (relink_ok a1 x (hd unused (ids l2)) (lastd unused (ids l1)) HA1) as (a2 & Hrl & HL); try done.
  { unfold valid. by rewrite Fm. }
  exists a2. split; [exact Hrl|]. destruct HL as [[ns' E2] HA2 HB2 HP2 HN2].
  assert (Fr : same_frame a a2) by (by subst a2). split; [|done].
  assert (Hdat : forall j, dat (nd a2 j) = dat (nd a1 j)).
  { intros j. destruct (bin_part_eq _ _ (HB2 j)) as (E1 & E2' & _ & _ & E3). unfold dat. congruence. }
  apply (Rep_released a2 bins); try done; try (by subst a2).
  - apply (BinRep_frame a1); by subst a2.
  - rewrite Hdat. unfold dat. congruence.
  - intros j Hj. rewrite Hdat. by destruct (core_links _ _ (Hco j Hj)).
  - intros j Hj. rewrite HP2 by done. unfold upd.
    destruct (_ =? j); [done|]. destruct (Z.eqb_spec x j) as [|Hne]; [done|].
    by destruct (core_links _ _ (Hco j (not_eq_sym Hne))) as (_ & ? & _).
  - intros j Hj. rewrite HN2 by done. unfold upd.
    destruct (_ =? j); [done|]. destruct (Z.eqb_spec x j) as [|Hne]; [done|].
    by destruct (core_links _ _ (Hco j (not_eq_sym Hne))) as (_ & _ & ?).
Qed.

End release.

(** ** free *)

(** Releasing the block [x] between [l1] and [l2]. *)
Definition freed (l1 : list Block) (x s : Z) (l2 : list Block) : list Block :=
  (mergeL l1).1 ++ B x (s + (mergeL l1).2 + (mergeR l2).2) false :: (mergeR l2).1.

Lemma free_ok a l1 x s l2 fs off : Rep a (l1 ++ B x s true :: l2) fs ->
  exists a' fs', free (mkAllocation off x) a = Some (tt, a') /\ Rep a' (freed l1 x s l2) fs' /\
    same_frame a a'.
Proof.
  intros HR. pose proof (Rep_Mid _ _ _ _ _ _ HR) as HM. unfold free. rewrite bind_gets.
  pose proof (rp_arrays _ _ _ HR) as HA. destruct (arr_nodes a HA) as (ns & -> & _). simpl metadata.
  pose proof (mid_x _ _ _ _ _ _ HM) as Vx.
  erewrite bind_Some by (by apply (node_get_ok a HA)).
  destruct (rep_split_layout _ _ _ HR l1 _ l2 eq_refl) as (_ & (Eo & Es & _) & _).
  simpl in Eo, Es. rewrite Eo, Es.
  destruct (mergePrev_ok _ _ _ _ _ _ HM) as (a1 & fs1 & R1 & HM1 & Hl & Fr1).
  erewrite bind_Some by exact R1.
  destruct (mergeNext_ok _ _ _ _ _ _ (total (mergeL l1).1) HM1) as (a2 & fs2 & R2 & HM2 & Hh & Fr2).
  erewrite bind_Some by exact R2. cbv beta iota.
  destruct (releaseNode_ok _ _ _ _ _ _ HM2 Hl Hh) as (a3 & R3 & HR3 & Fr3).
  exists a3, fs2. split; [exact R3|]. split; [exact HR3|].
  unfold same_frame in *. intuition congruence.
Qed.

End Free.
