(* ===== verification/OffsetOps.v ===== *)
(** * OffsetOps: [allocate], [free] and [reset] against the abstract allocator

    The abstract allocator works on the list of blocks alone: [alloc_step]
    splits a free block of the smallest fitting bin, [free_step] releases a
    block and merges it with its free neighbours.  Every operation run on a
    represented state ends without undefined behaviour in a represented state
    related to the first by the abstract step.  Module [Report] has the
    storage reports. *)

From Stdlib Require Import ZArith Lia.
From stdpp Require Import base list gmap numbers.
From S2P Require Import Prelude SmallFloat OffsetAlloc OffsetBins OffsetBinOps OffsetMain OffsetFree.
Import SmallFloat Alloc Bins BinOps Blocks Main Free.

Module Ops.
Open Scope moon_scope.
Open Scope Z_scope.

(** The size a request is served with. *)
Definition rounded (size : Z) : Z := floatToUint (uintToFloatRoundUp size).

Inductive alloc_step (mx size : Z) (bl : list Block) : OffsetAllocation -> list Block -> Prop :=
  | alloc_no_node : Z.of_nat (length bl) = mx -> alloc_step mx size bl noSpace bl
  | alloc_no_block : Z.of_nat (length bl) < mx ->
      (forall b, b ∈ bl -> b_used b = false -> b_size b < rounded size) ->
      alloc_step mx size bl noSpace bl
  | alloc_fit l1 x s l2 y : Z.of_nat (length bl) < mx ->
      bl = l1 ++ B x s false :: l2 -> rounded size <= s -> y ∉ ids bl ->
      (forall b, b ∈ bl -> b_used b = false -> rounded size <= b_size b ->
         uintToFloatRoundDown s <= uintToFloatRoundDown (b_size b)) ->
      alloc_step mx size bl (mkAllocation (total l1) x)
        (l1 ++ B x (rounded size) true :: remainder y (s - rounded size) ++ l2).

Section search.
Context (a : Allocator) (bl : list Block) (fs : list Z) (bins : Z -> list Z).
Context (HR : Rep a bl fs) (HB : BinRep a (free_map bl) bins).
Context (size : Z) (Hsize : 0 <= size <= MAX_BIN_SIZE).

Lemma free_block_bin b : b ∈ bl -> b_used b = false ->
  0 <= b_size b < 2 ^ 32 /\ b_id b ∈ bins (uintToFloatRoundDown (b_size b)).
Proof using HR HB.
  intros Hb Hu. destruct b as [i s u]; simpl in *; subst.
  assert (free_map bl !! i = Some s) as HF by (by apply free_map_Some; [apply (rep_nodup_ids _ _ _ HR)|]).
  destruct (br_node _ _ _ HB _ _ HF) as (_ & _ & _ & Hs). split; [done|].
  apply (br_mem _ _ _ HB); [|eauto]. pose proof (roundDown_range s Hs). lia.
Qed.

Lemma none_fits : least_bin bins (uintToFloatRoundUp size) None ->
  forall b, b ∈ bl -> b_used b = false -> b_size b < rounded size.
Proof using HR HB Hsize.
  simpl. intros Hemp b Hb Hu. destruct (free_block_bin b Hb Hu) as [Hs Hin].
  destruct (Z.lt_ge_cases (b_size b) (rounded size)) as [|Hge]; [done|exfalso].
  apply fits_iff in Hge; [|done..]. rewrite Hemp in Hin; [by apply not_elem_of_nil in Hin|].
  pose proof (roundDown_range _ Hs). lia.
Qed.

Lemma best_fit t l s : least_bin bins (uintToFloatRoundUp size) (Some (t, l)) ->
  0 <= s < 2 ^ 32 -> uintToFloatRoundDown s = 8 * t + l ->
  rounded size <= s /\
  forall b, b ∈ bl -> b_used b = false -> rounded size <= b_size b ->
    uintToFloatRoundDown s <= uintToFloatRoundDown (b_size b).
Proof using HR HB Hsize.
  intros (_ & _ & Hm & _ & Hemp) Hs Hrd. split; [apply fits_iff; [done..|lia]|].
  intros b Hb Hu Hge. destruct (free_block_bin b Hb Hu) as [Hsb Hin].
  apply fits_iff in Hge; [|done..]. rewrite Hrd.
  destruct (Z.le_gt_cases (8 * t + l) (uintToFloatRoundDown (b_size b))) as [|Hlt]; [done|].
  rewrite Hemp in Hin by lia. by apply not_elem_of_nil in Hin.
Qed.

End search.

Lemma free_map_split bl x s : NoDup (ids bl) -> free_map bl !! x = Some s ->
  exists l1 l2, bl = l1 ++ B x s false :: l2.
Proof. intros Hnd HF%free_map_Some; [|done]. by apply list_elem_of_split in HF. Qed.

Lemma allocate_ok a bl fs size : Rep a bl fs -> 0 <= size <= MAX_BIN_SIZE ->
  exists r a' bl' fs', allocate size a = Some (r, a') /\ Rep a' bl' fs' /\
    alloc_step (m_max_capacity a) size bl r bl' /\
    m_max_capacity a' = m_max_capacity a /\ m_size a' = m_size a.
Proof.
  intros HR Hsize. unfold allocate. rewrite !bind_gets. pose proof (rp_count _ _ _ HR) as Hcnt.
  pose proof (st_cap _ _ _ _ _ (rp_stack _ _ _ HR)). pose proof (st_len _ _ _ _ _ (rp_stack _ _ _ HR)).
  destruct (Z.eqb_spec (m_freeOffset a) (m_max_capacity a)) as [E|E].
  { do 4 eexists. split; [done|]. split; [done|]. split; [|done]. apply alloc_no_node. lia. }
  destruct (Rep_grow a bl fs HR ltac:(lia)) as (y & fs1 & a1 & Hg & HR1 & Hm1 & Hs1).
  erewrite bind_Some by exact Hg. destruct (rp_bins _ _ _ HR1) as [bins HB].
  pose proof (roundUp_range size Hsize) as Hru.
  destruct (searchBin_ok a1 _ bins (rp_arrays _ _ _ HR1) HB (uintToFloatRoundUp size) Hru)
    as (o & Hsr & Ho). erewrite bind_Some by exact Hsr.
  destruct o as [[t l]|].
  2: { do 4 eexists. split; [done|]. split; [done|]. split; [|done].
       apply alloc_no_block; [lia|]. by apply (none_fits a1 bl (y :: fs1) bins). }
  pose proof Ho as (Ht & Hl & _ & Hne & _).
  destruct (popBin_ok a1 _ bins (rp_arrays _ _ _ HR1) HB t l (rounded size) Ht Hl Hne)
    as (x & s & top' & ub' & bi' & ns' & bins' & HF & Hrd & Hrun & HA2 & HB2 & Hcx & Hco).
  cbv zeta in *. set (a2 := mkAllocator _ _ _ _ top' ub' bi' ns' _ _) in *.
  destruct (br_node _ _ _ HB _ _ HF) as (Vx & _ & _ & Hsr').
  destruct (best_fit a1 bl _ bins HR1 HB size Hsize t l s Ho Hsr' Hrd) as [Hfit Hbest].
  destruct (free_map_split bl x s (rep_nodup_ids _ _ _ HR1) HF) as (l1 & l2 & ->).
  pose proof (floatToUint_max _ Hru) as Hmax. fold (rounded size) in *.
  erewrite bind_Some by exact Hrun. cbv beta iota. clear Hrun.
  rewrite (u32_small (s - rounded size)) by lia.
  pose proof (rep_split_layout _ _ _ HR1 l1 (B x s false) l2 eq_refl) as (_ & (Hoff & _) & _).
  simpl b_id in Hoff.
  assert (Hy : y ∉ ids (l1 ++ B x s false :: l2)).
  { pose proof (rp_nodup _ _ _ HR1) as Hnd. apply list.NoDup_app in Hnd as (_ & Hd & _).
    intros Hin. apply (Hd y Hin). left. }
  destruct (Z.ltb_spec 0 (s - rounded size)) as [Hlt|Hle].
  - destruct (alloc_split a1 l1 l2 x s y fs1 HR1 (rounded size) a2 bins' ltac:(lia) HA2 HB2)
      as (a3 & Hp & HR3 & Hm3 & Hs3 & Ho3); try done; [lia|].
    cbn [when]. erewrite bind_Some by exact Hp.
    assert (valid a3 x) by (apply (rep_valid _ _ _ HR3); rewrite ids_app, !elem_of_app; left; right; left).
    erewrite bind_Some by (apply (node_get_ok a3 (rp_arrays _ _ _ HR3)); done).
    rewrite Ho3. unfold core in Hcx. injection Hcx as -> _ _ _ _. rewrite Hoff.
    do 4 eexists. split; [reflexivity|]. split; [exact HR3|]. split; [|split; congruence].
    replace (B y _ false :: l2) with (remainder y (s - rounded size) ++ l2)
      by (unfold remainder; by rewrite (proj2 (Z.ltb_lt _ _) Hlt)).
    rewrite <- Hm1. apply (alloc_fit _ _ _ l1 x s l2 y); try done; lia.
  - cbn [when]. rewrite bind_ret.
    assert (valid a2 x) by exact Vx.
    erewrite bind_Some by (apply (node_get_ok a2 HA2); done).
    do 4 eexists. split; [reflexivity|].
    split; [by apply (alloc_exact a1 l1 l2 x s y fs1 HR1 (rounded size) a2 bins' ltac:(lia) HA2 HB2);
      try done; lia|].
    unfold core in Hcx. injection Hcx as -> _ _ _ _. rewrite Hoff. split; [|done].
    assert (B x (rounded size) true :: l2
            = B x (rounded size) true :: remainder y (s - rounded size) ++ l2) as ->
      by (unfold remainder; by rewrite (proj2 (Z.ltb_ge _ _) Hle)).
    apply (alloc_fit _ _ _ l1 x s l2 y); try done; lia.
Qed.

(** ** Construction *)

(** The state [reset] has built before it inserts the root block. *)
Definition blank (size ic mc : Z) : Allocator :=
  mkAllocator size ic mc 0 0 (replicate 32 0) (replicate 256 unused)
    (Some (replicate (Z.to_nat mc) node0))
    (Some ((Some <$> seqZ 0 ic) ++ replicate (Z.to_nat (mc - ic)) None)) 0.

Section construct.
Context (size ic mc : Z) (Hic : 0 < ic <= mc) (Hmc : mc < 2 ^ 32).

Lemma blank_arrays : Arrays (blank size ic mc).
Proof using Hic Hmc.
  split; simpl; [lia| | |done|done].
  - eexists. split; [done|]. rewrite length_replicate. lia.
  - eexists. split; [done|]. rewrite length_app, length_fmap, length_seqZ, length_replicate. lia.
Qed.

Lemma blank_bh b : 0 <= b < 256 -> bh (blank size ic mc) b = unused.
Proof. intros Hb. exact (f_equal (default unused) (aget_replicate 256 unused b Hb)). Qed.

Lemma blank_ubv t : 0 <= t < 32 -> ubv (blank size ic mc) t = 0.
Proof. intros Ht. exact (f_equal (default 0) (aget_replicate 32 0 t Ht)). Qed.

Lemma blank_bins : BinRep (blank size ic mc) ∅ (fun _ => []).
Proof.
  split; try done.
  - intros b Hb. by apply blank_bh.
  - intros b Hb. apply NoDup_nil_2.
  - intros b i Hb. split; [by intros ?%not_elem_of_nil|]. intros (sz & H & _). by rewrite lookup_empty in H.
  - split; [|by vm_compute|].
    + intros t Ht. rewrite blank_ubv by done. split; [lia|]. intros l Hl. apply Z.bits_0.
    + intros t Ht. rewrite blank_ubv by done. apply Z.bits_0.
Qed.

Lemma blank_stack : StackA (blank size ic mc) (seqZ 0 ic).
Proof using Hic.
  split; simpl; [lia|rewrite length_seqZ; lia|lia|].
  intros k x Hk. unfold aget. rewrite Z.add_0_l. destruct (Z.leb_spec 0 (Z.of_nat k)); [|lia].
  rewrite Nat2Z.id.
  rewrite lookup_app_l by (rewrite length_fmap; by apply lookup_lt_Some in Hk).
  by rewrite list_lookup_fmap, Hk.
Qed.

Lemma construct_blank : construct size ic mc =
  snd <$> (let* _i := insertNodeIntoBin size 0 in ret tt) (blank size ic mc).
Proof using Hic.
  unfold construct, reset. rewrite Z.max_r by lia. unfold blank.
  repeat first [rewrite bind_modify|rewrite bind_gets]. simpl m_current_capacity. simpl m_max_capacity.
  destruct (Z.leb_spec ic mc); [|lia]. rewrite bind_modify, bind_gets. done.
Qed.

Lemma construct_ok : 0 <= size <= MAX_BIN_SIZE ->
  exists a fs, construct size ic mc = Some a /\ Rep a [B 0 size false] fs /\
    m_max_capacity a = mc /\ m_size a = size.
Proof using Hic Hmc.
  intros Hs. rewrite construct_blank.
  assert (Hst : exists fs, seqZ 0 ic = 0 :: fs /\ NoDup (0 :: fs) /\ forall i, i ∈ 0 :: fs -> 0 <= i < ic).
  { pose proof (NoDup_seqZ 0 ic) as Hnd. pose proof (fun i => proj1 (elem_of_seqZ 0 ic i)) as Hr.
    destruct (seqZ 0 ic) as [|z fs] eqn:E; [apply (f_equal length) in E; rewrite length_seqZ in E; simpl in E; lia|].
    assert (z = 0) as -> by (pose proof (lookup_seqZ_lt 0 ic 0 ltac:(lia)) as H; rewrite E in H; simpl in H; simplify_eq; done).
    exists fs. split_and!; try done. }
  destruct Hst as (fs & Est & Hnd & Hr). pose proof blank_stack as HS. rewrite Est in HS.
  assert (Hsz : 0 <= size < 2 ^ 32) by (unfold MAX_BIN_SIZE in Hs; lia).
  destruct (insertNodeIntoBin_ok _ _ _ blank_arrays blank_bins 0 fs size 0 HS) as
    (top' & ub' & bi' & ns' & Hrun & HA & HB & HS' & Hcx & _); [unfold valid; simpl; lia|done|done|].
  cbv zeta in *. erewrite bind_Some by exact Hrun. do 2 eexists. split; [reflexivity|].
  set (a' := mkAllocator _ _ _ _ top' ub' bi' ns' _ _) in *. unfold core in Hcx. injection Hcx as E1 E2 E3 E4 E5.
  split; [|done]. split; try done.
  - by eexists.
  - split; [|done]. split_and!; try done. simpl; lia.
  - simpl. lia.
  - simpl. rewrite u32_small; lia.
Qed.

End construct.

End Ops.

(** ** The storage reports of [__Allocator]

    [storageReport] gives the free space and a lower bound of the largest
    free block that is exact up to the bin granularity; [storageReportFull]
    counts the free blocks of every bin, and its list walks end. *)

Import SmallFloat Alloc Bins BinOps Blocks Main Ops.

Module Report.
Open Scope moon_scope.
Open Scope Z_scope.

(** The free blocks of one bin. *)
Definition in_bin (b : Z) (blk : Block) : bool :=
  negb (b_used blk) && (uintToFloatRoundDown (b_size blk) =? b).

Definition bin_count (b : Z) (bl : list Block) : Z :=
  Z.of_nat (length (filter (fun k => in_bin b k = true) bl)).

(** The reported region for the free blocks [bl]: the size class of the
    highest non-empty bin. *)
Definition largest_spec (bl : list Block) (r : Z) : Prop :=
  (r = 0 /\ forall b, b ∈ bl -> b_used b = true) \/
  exists blk, blk ∈ bl /\ b_used blk = false /\ r = floatToUint (uintToFloatRoundDown (b_size blk)) /\
    forall b, b ∈ bl -> b_used b = false ->
      uintToFloatRoundDown (b_size b) <= uintToFloatRoundDown (b_size blk).

Lemma highest_bit v w : 0 < v < 2 ^ w -> 0 <= w ->
  0 <= Z.log2 v < w /\ Z.testbit v (Z.log2 v) = true /\
  forall i, Z.log2 v < i -> Z.testbit v i = false.
Proof.
  intros Hv Hw. split; [split; [apply Z.log2_nonneg|apply Z.log2_lt_pow2; lia]|].
  split; [apply Z.bit_log2; lia|]. intros i Hi. apply Z.bits_above_log2; lia.
Qed.

Section report.
Context (a : Allocator) (bl : list Block) (fs : list Z) (bins : Z -> list Z).
Context (HR : Rep a bl fs) (HB : BinRep a (free_map bl) bins).

Lemma bin_elem b i : 0 <= b < 256 -> i ∈ bins b <->
  exists blk, blk ∈ bl /\ b_id blk = i /\ in_bin b blk = true.
Proof using HR HB.
  intros Hb. rewrite (br_mem _ _ _ HB) by done. unfold in_bin. split.
  - intros (sz & HF & <-). apply free_map_Some in HF; [|apply (rep_nodup_ids _ _ _ HR)].
    eexists. split; [exact HF|]. simpl. by rewrite Z.eqb_refl.
  - intros ([j s u] & Hin & <- & E). simpl in *. apply andb_true_iff in E as [E1 E2]. zbool. subst u.
    exists s. split; [|done]. by apply free_map_Some; [apply (rep_nodup_ids _ _ _ HR)|].
Qed.

Lemma bins_empty_iff : (forall b, 0 <= b < 256 -> bins b = []) -> forall b, b ∈ bl -> b_used b = true.
Proof using HR HB.
  intros He b Hb. destruct (b_used b) eqn:Hu; [done|exfalso].
  destruct (free_block_bin a bl fs bins HR HB b Hb Hu) as [Hs Hin]. pose proof (roundDown_range _ Hs).
  rewrite He in Hin by lia. by apply not_elem_of_nil in Hin.
Qed.

Lemma storageReport_ok : exists r, storageReport a = Some (r, a) /\
  (m_freeOffset a < m_max_capacity a ->
     totalFreeSpace r = free_total bl /\ largest_spec bl (largestFreeRegion r)) /\
  (m_max_capacity a <= m_freeOffset a -> r = mkReport 0 0).
Proof using HR HB.
  unfold storageReport. rewrite !bind_gets. pose proof (rp_arrays _ _ _ HR) as HA.
  destruct (Z.ltb_spec (m_freeOffset a) (m_max_capacity a)) as [Hlt|Hge].
  2: { eexists. split; [reflexivity|]. split; [lia|done]. }
  rewrite !bind_gets. pose proof (br_masks _ _ _ HB) as HM. pose proof (mk_range _ _ _ HM) as Htop.
  destruct (Z.eqb_spec (m_usedBinsTop a) 0) as [E|E].
  { eexists. split; [reflexivity|]. split; [|lia]. intros _. split; [apply HR|]. left. split; [done|].
    apply bins_empty_iff. intros b Hb. destruct (bin_decompose b Hb) as (t & l & -> & Ht & Hl).
    apply (leaf_zero a _ bins HB t); try done. pose proof (mk_top _ _ _ HM t Ht) as Hb'.
    rewrite E, Z.bits_0 in Hb'. symmetry in Hb'. by zbool. }
  unfold clz. rewrite (proj2 (Z.eqb_neq _ _) E), bind_ret.
  destruct (highest_bit (m_usedBinsTop a) 32 ltac:(lia) ltac:(lia)) as (Ht & Htb & Hth).
  unfold lzcnt_nonzero. replace (31 - (31 - Z.log2 (m_usedBinsTop a))) with (Z.log2 (m_usedBinsTop a)) by lia.
  set (t := Z.log2 (m_usedBinsTop a)) in *. erewrite bind_Some by (by apply (ubin_get_ok a HA)).
  pose proof (mk_top _ _ _ HM t Ht) as Hnz. rewrite Htb in Hnz. symmetry in Hnz. apply negb_true_iff in Hnz.
  rewrite Hnz, bind_ret. destruct (mk_leaf _ _ _ HM t Ht) as [Hr8 _]. zbool.
  destruct (highest_bit (ubv a t) 8 ltac:(lia) ltac:(lia)) as (Hl & Hlb & Hlh).
  replace (31 - (31 - Z.log2 (ubv a t))) with (Z.log2 (ubv a t)) by lia. set (l := Z.log2 (ubv a t)) in *.
  eexists. split; [reflexivity|]. split; [|lia]. intros _. split; [apply HR|]. right. simpl.
  apply (leaf_bit a _ bins HB t l Ht Hl) in Hlb.
  pose proof (nonempty_lt240 a _ bins HB (8 * t + l) ltac:(lia) Hlb) as H240.
  unfold TOP_BINS_INDEX_SHIFT. rewrite shl3, lor_shl3 by lia.
  destruct (bins (8 * t + l)) as [|i r] eqn:Eb; [done|].
  assert (Hi : i ∈ bins (8 * t + l)) by (rewrite Eb; left).
  apply bin_elem in Hi as (blk & Hblk & _ & Hin); [|lia]. unfold in_bin in Hin.
  apply andb_true_iff in Hin as [Hu Hrd]. zbool. exists blk. rewrite Hrd. split_and!; try done.
  intros b Hb Hbu. destruct (free_block_bin a bl fs bins HR HB b Hb Hbu) as [Hs Hbin].
  pose proof (roundDown_range _ Hs) as Hrr.
  destruct (bin_decompose _ (conj (proj1 Hrr) (Z.lt_trans _ _ 256 (proj2 Hrr) eq_refl))) as (t' & l' & Eq & Ht' & Hl').
  rewrite Eq in *. assert (Hne : bins (8 * t' + l') <> []) by (intros E'; rewrite E' in Hbin; by apply not_elem_of_nil in Hbin).
  assert (t' <= t).
  { destruct (Z.le_gt_cases t' t) as [|Hgt]; [done|]. pose proof (Hth t' ltac:(lia)) as Hf.
    rewrite (mk_top _ _ _ HM t' Ht') in Hf. zbool. by rewrite (leaf_zero a _ bins HB t' Ht' Hf l' Hl') in Hne. }
  destruct (Z.eq_dec t' t) as [->|]; [|lia].
  destruct (Z.le_gt_cases l' l) as [|Hgt]; [lia|]. pose proof (Hlh l' ltac:(lia)) as Hf.
  apply (leaf_bit a _ bins HB t l' Ht Hl') in Hne. congruence.
Qed.

(** ** The full report *)

Lemma countBin_ok l : forall fuel n c p, dseg (bp a) (bn a) p l unused ->
  (forall i, i ∈ l -> valid a i) -> n = hd unused l -> (length l <= fuel)%nat ->
  0 <= c -> c + Z.of_nat (length l) < 2 ^ 32 ->
  countBin fuel n c a = Some (c + Z.of_nat (length l), a).
Proof using HR.
  pose proof (rp_arrays _ _ _ HR) as HA.
  induction l as [|i l IH]; intros fuel n c p Hd Hv -> Hf Hc Hb; simpl in *.
  - change (Z.of_nat 0) with 0. rewrite Z.add_0_r. by destruct fuel.
  - destruct Hd as (_ & Hn & Hd). assert (Vi : valid a i) by (apply Hv; left).
    destruct fuel as [|fuel]; [lia|]. simpl.
    rewrite (proj2 (Z.eqb_neq _ _) (valid_not_unused a i HA Vi)).
    erewrite bind_Some by (by apply (node_get_ok a HA)). rewrite u32_small by lia.
    erewrite IH; [do 2 f_equal; lia|exact Hd| |exact Hn|lia|lia|lia].
    intros j Hj. apply Hv. by right.
Qed.

Lemma nodup_range_length (l : list Z) n : NoDup l -> (forall i, i ∈ l -> 0 <= i < n) -> Z.of_nat (length l) <= Z.max 0 n.
Proof.
  intros Hnd Hr. assert (Hs : l ⊆ seqZ 0 n) by (intros i Hi; apply elem_of_seqZ; apply Hr in Hi; lia).
  assert (l ⊆+ seqZ 0 n) as Hsub by (by apply NoDup_submseteq).
  apply submseteq_length in Hsub. rewrite length_seqZ in Hsub. lia.
Qed.

Lemma bin_length b : 0 <= b < 256 -> Z.of_nat (length (bins b)) = bin_count b bl.
Proof using HR HB.
  intros Hb. unfold bin_count. f_equal.
  rewrite <- (length_fmap b_id (filter _ bl)). apply Permutation_length, NoDup_Permutation.
  - by apply HB.
  - pose proof (rep_nodup_ids _ _ _ HR) as Hnd. unfold ids in Hnd.
    eapply sublist_NoDup; [exact Hnd|]. apply fmap_sublist, sublist_filter.
  - intros i. rewrite bin_elem by done. rewrite list_elem_of_fmap.
    split; intros (k & H1 & H2); exists k; rewrite list_elem_of_filter in *; naive_solver.
Qed.

Lemma reportBins_ok bs : (forall b, b ∈ bs -> 0 <= b < 256) ->
  reportBins bs a = Some ((fun b => (floatToUint b, bin_count b bl)) <$> bs, a).
Proof using HR HB.
  pose proof (rp_arrays _ _ _ HR) as HA. induction bs as [|b bs IH]; intros Hbs; [done|]. simpl.
  assert (Hb : 0 <= b < 256) by (apply Hbs; left).
  erewrite bind_Some by (by apply (bin_get_ok a HA)). rewrite bind_gets.
  pose proof (arr_max a HA). pose proof (nodup_range_length (bins b) (m_max_capacity a)
    (br_nodup _ _ _ HB b Hb) (fun i Hi => mem_valid a _ bins HB b i Hb Hi)) as Hlen.
  erewrite bind_Some.
  2: { apply (countBin_ok (bins b) _ _ 0 unused); try lia; [by apply HB| |by apply HB].
       intros i Hi. by apply (mem_valid a _ bins HB b). }
  erewrite bind_Some by (apply IH; intros; apply Hbs; by right).
  rewrite Z.add_0_l, bin_length by done. done.
Qed.

Lemma storageReportFull_ok :
  storageReportFull a = Some ((fun b => (floatToUint b, bin_count b bl)) <$> seqZ 0 256, a).
Proof using HR HB. apply reportBins_ok. intros b Hb%elem_of_seqZ. lia. Qed.

End report.

End Report.
