(* ===== verification/OffsetClient.v ===== *)
(** * OffsetClient: what a client of [__Allocator] can rely on

    A client holds a set of live allocations, obtained from [allocate] and
    given back once each through [free].  [step] interleaves the two calls in
    any order; [Inv] relates the concrete state to the abstract blocks and the
    client's allocations.  The section ends with the facts the layers above
    use: safety, disjointness, completeness, accounting and full coalescing. *)

From Stdlib Require Import ZArith Lia.
From stdpp Require Import base list gmap numbers relations.
From S2P Require Import Prelude SmallFloat OffsetAlloc OffsetBins OffsetBinOps OffsetMain OffsetFree OffsetOps.
Import SmallFloat Alloc Bins BinOps Blocks Main Free Ops Report.

Module Client.
Open Scope moon_scope.
Open Scope Z_scope.

(** The allocations that the used blocks stand for, with their sizes. *)
Fixpoint live_of (off : Z) (bl : list Block) : list (OffsetAllocation * Z) :=
  match bl with
  | [] => []
  | b :: bl =>
      if b_used b then (mkAllocation off (b_id b), b_size b) :: live_of (off + b_size b) bl
      else live_of (off + b_size b) bl
  end.

Record Sys : Type := mkSys { alloc : Allocator; live : list (OffsetAllocation * Z) }.

Inductive step (s : Sys) : Sys -> Prop :=
  | step_allocate size r a' : 0 <= size <= MAX_BIN_SIZE -> allocate size (alloc s) = Some (r, a') ->
      step s (mkSys a' (if isNoSpace r then live s else (r, rounded size) :: live s))
  | step_free al sz v1 v2 a' : live s = v1 ++ (al, sz) :: v2 -> free al (alloc s) = Some (tt, a') ->
      step s (mkSys a' (v1 ++ v2)).

Definition Inv (s : Sys) : Prop :=
  exists bl fs, Rep (alloc s) bl fs /\ live s ≡ₚ live_of 0 bl /\ bl <> [].

(** A state reached from a freshly constructed allocator. *)
Definition reachable (size ic mc : Z) (s : Sys) : Prop :=
  exists a0, construct size ic mc = Some a0 /\ rtc step (mkSys a0 []) s.

Definition live_total (l : list (OffsetAllocation * Z)) : Z := foldr (fun p n => p.2 + n) 0 l.

(** ** Live allocations and blocks *)

Lemma live_of_app off l1 l2 : live_of off (l1 ++ l2) = live_of off l1 ++ live_of (off + total l1) l2.
Proof.
  revert off; induction l1 as [|b l1 IH]; intros off; simpl; [by rewrite Z.add_0_r|].
  rewrite IH, Z.add_assoc. by destruct (b_used b).
Qed.

Lemma live_of_remainder off y s : live_of off (remainder y s) = [].
Proof. unfold remainder. by destruct (0 <? s). Qed.

Lemma total_remainder y s : 0 <= s -> total (remainder y s) = s.
Proof. intros Hs. unfold remainder. destruct (Z.ltb_spec 0 s); simpl; lia. Qed.

Lemma mergeL_spec l off : live_of off (mergeL l).1 = live_of off l /\
  total (mergeL l).1 + (mergeL l).2 = total l.
Proof.
  destruct l as [|b l _] using rev_ind; [done|]. destruct (b_used b) eqn:Hu.
  - rewrite mergeL_snoc_used by done. simpl. split; [done|lia].
  - rewrite mergeL_snoc, live_of_app, total_app by done. simpl. rewrite Hu, app_nil_r. split; [done|lia].
Qed.

Lemma mergeR_spec l off : live_of (off + (mergeR l).2) (mergeR l).1 = live_of off l /\
  total (mergeR l).1 + (mergeR l).2 = total l.
Proof.
  destruct l as [|b l]; simpl; [done|]. destruct (b_used b) eqn:Hu; simpl.
  - rewrite Hu, Z.add_0_r. split; [done|lia].
  - split; [done|lia].
Qed.

Lemma live_of_freed l1 x s l2 off :
  live_of off (freed l1 x s l2) = live_of off l1 ++ live_of (off + total l1 + s) l2.
Proof.
  unfold freed. rewrite live_of_app. destruct (mergeL_spec l1 off) as [-> HT]. f_equal. simpl.
  destruct (mergeR_spec l2 (off + total l1 + s)) as [<- _]. f_equal. lia.
Qed.

Lemma live_of_elem bl off al sz : (al, sz) ∈ live_of off bl ->
  exists l1 l2, bl = l1 ++ B (metadata al) sz true :: l2 /\ offset al = off + total l1.
Proof.
  revert off; induction bl as [|[i s u] bl IH]; intros off Hin; simpl in *; [by apply not_elem_of_nil in Hin|].
  assert (Hc : (al, sz) = (mkAllocation off i, s) /\ u = true \/ (al, sz) ∈ live_of (off + s) bl)
    by (destruct u; [apply elem_of_cons in Hin as [?|?]|]; auto).
  destruct Hc as [[Heq ->]|Hc]; [simplify_eq; exists [], bl; simpl; split; [done|lia]|].
  destruct (IH _ Hc) as (l1 & l2 & -> & Ho). exists (B i s u :: l1), l2. simpl. split; [done|lia].
Qed.

Lemma live_of_elem_Permutation bl l1 x s l2 al v1 v2 :
  bl = l1 ++ B x s true :: l2 -> al = (mkAllocation (total l1) x, s) ->
  v1 ++ al :: v2 ≡ₚ live_of 0 bl -> v1 ++ v2 ≡ₚ live_of 0 l1 ++ live_of (total l1 + s) l2.
Proof.
  intros -> -> HP. rewrite live_of_app in HP. simpl in HP.
  rewrite <- !Permutation_middle in HP. by apply Permutation_cons_inv in HP.
Qed.

Lemma live_total_app l1 l2 : live_total (l1 ++ l2) = live_total l1 + live_total l2.
Proof. induction l1; simpl; [done|]. unfold live_total in *; simpl; lia. Qed.

Lemma live_total_of off bl : live_total (live_of off bl) + free_total bl = total bl.
Proof.
  revert off; induction bl as [|b bl IH]; intros off; simpl; [done|]. specialize (IH (off + b_size b)).
  destruct (b_used b); simpl; lia.
Qed.

#[export] Instance live_total_proper : Proper (Permutation ==> eq) live_total.
Proof. intros l l'; induction 1; unfold live_total in *; simpl in *; lia. Qed.

(** ** The abstract step on blocks *)

Lemma total_lt_noSpace a bl fs l1 b l2 : Rep a bl fs -> bl = l1 ++ b :: l2 ->
  isNoSpace (mkAllocation (total l1) (b_id b)) = false.
Proof.
  intros HR ->. destruct (rep_split_layout _ _ _ HR l1 b l2 eq_refl) as (_ & (_ & _ & _ & ?) & _ & ? & ? & ?).
  pose proof (rp_size _ _ _ HR). unfold isNoSpace, NO_SPACE, MAX_BIN_SIZE in *. simpl. apply Z.eqb_neq. lia.
Qed.

Lemma alloc_step_live a bl fs size r bl' v : Rep a bl fs -> 0 <= size <= MAX_BIN_SIZE ->
  alloc_step (m_max_capacity a) size bl r bl' -> v ≡ₚ live_of 0 bl -> bl <> [] ->
  (if isNoSpace r then v else (r, rounded size) :: v) ≡ₚ live_of 0 bl' /\ bl' <> [].
Proof.
  intros HR Hsz Hs HP Hne. destruct Hs as [Hl|Hl Hb|l1 x s l2 y Hl Heq Hle Hy _]; simpl; try done.
  pose proof (total_lt_noSpace a bl fs l1 (B x s false) l2 HR Heq) as Hns. simpl in Hns. rewrite Hns.
  split; [|by destruct l1]. rewrite Heq in HP. rewrite HP, !live_of_app. simpl.
  rewrite live_of_app, live_of_remainder, total_remainder by lia. simpl.
  rewrite <- Permutation_middle. apply perm_skip, Permutation_app_head.
  by replace (0 + total l1 + rounded size + (s - rounded size)) with (0 + total l1 + s) by lia.
Qed.

Lemma Inv_alloc s size : Inv s -> 0 <= size <= MAX_BIN_SIZE ->
  exists r a', allocate size (alloc s) = Some (r, a') /\
    m_size a' = m_size (alloc s) /\ m_max_capacity a' = m_max_capacity (alloc s) /\
    Inv (mkSys a' (if isNoSpace r then live s else (r, rounded size) :: live s)).
Proof.
  intros (bl & fs & HR & HP & Hne) Hsz.
  destruct (allocate_ok _ bl fs size HR Hsz) as (r & a' & bl' & fs' & Hrun & HR' & Hst & ? & ?).
  exists r, a'. split_and!; try done. exists bl', fs'. split; [done|].
  by apply (alloc_step_live (alloc s) bl fs).
Qed.

Lemma Inv_free s al sz v1 v2 : Inv s -> live s = v1 ++ (al, sz) :: v2 ->
  exists a', free al (alloc s) = Some (tt, a') /\
    m_size a' = m_size (alloc s) /\ m_max_capacity a' = m_max_capacity (alloc s) /\
    Inv (mkSys a' (v1 ++ v2)).
Proof.
  intros (bl & fs & HR & HP & Hne) Hv. rewrite Hv in HP.
  destruct (live_of_elem bl 0 al sz) as (l1 & l2 & Hbl & Ho).
  { rewrite <- HP, elem_of_app. right; left. }
  rewrite Hbl in HR. destruct al as [o x]; simpl in *.
  destruct (free_ok _ _ _ _ _ _ o HR) as (a' & fs' & Hrun & HR' & Hm & Hs).
  exists a'. split_and!; try done. exists (freed l1 x sz l2), fs'. split; [exact HR'|].
  split; [|unfold freed; by destruct (mergeL l1).1].
  rewrite live_of_freed. simpl. apply (live_of_elem_Permutation bl l1 x sz l2 (mkAllocation o x, sz)); [done| |done].
  by rewrite Ho.
Qed.

Lemma step_Inv s s' : Inv s -> step s s' -> Inv s' /\
  m_size (alloc s') = m_size (alloc s) /\ m_max_capacity (alloc s') = m_max_capacity (alloc s).
Proof.
  intros HI [size r a' Hsz Hrun|al sz v1 v2 a' Hv Hrun]; simpl.
  - destruct (Inv_alloc s size HI Hsz) as (r' & a'' & Hrun' & ? & ? & ?). by simplify_eq.
  - destruct (Inv_free s al sz v1 v2 HI Hv) as (a'' & Hrun' & ? & ? & ?). by simplify_eq.
Qed.

(** ** Reachable states *)

Section reach.
Context (size ic mc : Z).
Context (Hic : 0 < ic <= mc) (Hmc : mc < 2 ^ 32) (Hsize : 0 <= size <= MAX_BIN_SIZE).

Lemma reachable_Inv s : reachable size ic mc s ->
  Inv s /\ m_size (alloc s) = size /\ m_max_capacity (alloc s) = mc.
Proof using Hic Hmc Hsize.
  intros (a0 & H0 & Hr). destruct (construct_ok size ic mc Hic Hmc Hsize) as (a & fs & Ha & HR & Hm & Hs).
  assert (a0 = a) as -> by congruence. remember (mkSys a []) as s0 eqn:E.
  assert (H : Inv s0 /\ m_size (alloc s0) = size /\ m_max_capacity (alloc s0) = mc).
  { subst s0. simpl. split; [|done]. exists [B 0 size false], fs. by split_and!. }
  clear E HR Ha H0. induction Hr as [s|s1 s2 s3 Hst Hr IH]; [done|]. apply IH.
  destruct H as (HI & E1 & E2). destruct (step_Inv _ _ HI Hst) as (HI' & E1' & E2'). split; [done|]. split; congruence.
Qed.

End reach.

(** ** Consequences *)

Lemma live_disjoint_of bl off nd i j al1 s1 al2 s2 : layout nd off bl -> (i < j)%nat ->
  live_of off bl !! i = Some (al1, s1) -> live_of off bl !! j = Some (al2, s2) ->
  off <= offset al1 /\ offset al1 + s1 <= offset al2 /\ offset al2 + s2 <= off + total bl.
Proof.
  revert off i j; induction bl as [|b bl IH]; intros off i j HL Hij H1 H2; simpl in *; [done|].
  destruct HL as [(_ & _ & _ & Hb) HL].
  pose proof (layout_nonneg _ _ _ HL) as Hnn.
  destruct (b_used b).
  - destruct j as [|j]; [lia|]. simpl in H2. destruct i as [|i]; simpl in H1.
    + simplify_eq. simpl. apply list_elem_of_lookup_2 in H2 as Hin.
      apply live_of_elem in Hin as (l1 & l2 & -> & Ho). rewrite total_app. simpl.
      apply layout_app in HL as [HL1 [(_ & _ & _ & ?) HL2]]. simpl in *.
      pose proof (layout_nonneg _ _ _ HL1). pose proof (layout_nonneg _ _ _ HL2). lia.
    + specialize (IH (off + b_size b) i j HL ltac:(lia) H1 H2). lia.
  - specialize (IH (off + b_size b) i j HL Hij H1 H2). lia.
Qed.

Lemma live_bounds_of bl off nd al s : layout nd off bl -> (al, s) ∈ live_of off bl ->
  off <= offset al /\ 0 <= s /\ offset al + s <= off + total bl.
Proof.
  intros HL (l1 & l2 & -> & ->)%live_of_elem. apply layout_app in HL as [H1 [(_ & _ & _ & ?) H2]].
  simpl in *. pose proof (layout_nonneg _ _ _ H1). pose proof (layout_nonneg _ _ _ H2).
  rewrite total_app. simpl. lia.
Qed.

(** Two allocations as half-open address ranges. *)
Definition disjoint_regions (p q : OffsetAllocation * Z) : Prop :=
  offset p.1 + p.2 <= offset q.1 \/ offset q.1 + q.2 <= offset p.1.

Lemma Inv_live s : Inv s ->
  (forall p, p ∈ live s -> 0 <= offset p.1 /\ 0 <= p.2 /\ offset p.1 + p.2 <= m_size (alloc s)) /\
  (forall i j p q, i <> j -> live s !! i = Some p -> live s !! j = Some q -> disjoint_regions p q).
Proof.
  intros (bl & fs & HR & HP & _). pose proof (rp_layout _ _ _ HR) as HL. split.
  - intros [al sz] Hin. rewrite HP in Hin. rewrite <- (rp_total _ _ _ HR). by apply (live_bounds_of _ _ _ _ _ HL).
  - intros i j [al1 s1] [al2 s2] Hij H1 H2. apply Permutation_inj in HP as (Hlen & f & Hf & Hlk).
    rewrite Hlk in H1, H2. destruct (Nat.lt_trichotomy (f i) (f j)) as [H|[H|H]].
    + left. by eapply (live_disjoint_of _ _ _ _ _ _ _ _ _ HL H).
    + by apply Hf in H.
    + right. by eapply (live_disjoint_of _ _ _ _ _ _ _ _ _ HL H).
Qed.

Lemma coalesced_all_free bl : coalesced bl -> (forall b, b ∈ bl -> b_used b = false) -> bl <> [] ->
  exists b, bl = [b] /\ b_used b = false.
Proof.
  destruct bl as [|b [|c bl]]; intros Hc Hf Hne; [done| |].
  - exists b. split; [done|]. apply Hf. left.
  - destruct Hc as [[Hb|Hb] _]; [rewrite Hf in Hb by left|rewrite Hf in Hb by (right; left)]; done.
Qed.

Lemma live_nil_free off bl : live_of off bl = [] -> forall b, b ∈ bl -> b_used b = false.
Proof.
  revert off; induction bl as [|c bl IH]; intros off H b Hb; simpl in *; [by apply not_elem_of_nil in Hb|].
  destruct (b_used c) eqn:Hc; [done|]. apply elem_of_cons in Hb as [->|Hb]; [done|]. by eapply IH.
Qed.

Lemma Inv_empty s : Inv s -> live s = [] ->
  exists x fs, Rep (alloc s) [B x (m_size (alloc s)) false] fs.
Proof.
  intros (bl & fs & HR & HP & Hne) Hv. rewrite Hv in HP. symmetry in HP. apply Permutation_nil_r in HP.
  destruct (coalesced_all_free bl (rp_coal _ _ _ HR)) as ([x sz u] & -> & Hu); [by eapply live_nil_free|done|].
  simpl in Hu. subst u. exists x, fs. pose proof (rp_total _ _ _ HR) as HT. simpl in HT.
  replace (m_size (alloc s)) with sz by lia. done.
Qed.

Lemma Inv_accounting s : Inv s -> m_freeStorage (alloc s) = m_size (alloc s) - live_total (live s).
Proof.
  intros (bl & fs & HR & HP & _). rewrite HP, (rp_free _ _ _ HR), <- (rp_total _ _ _ HR).
  pose proof (live_total_of 0 bl). lia.
Qed.

End Client.
