(* ===== verification/OffsetProps.v ===== *)
(** * OffsetProps: the correctness properties of [__Allocator]

    The theorems that summarise SmallFloat, OffsetAlloc and the files that
    verify it, with a concrete run of the allocator for each hypothesis. *)

From Stdlib Require Import ZArith Lia.
From stdpp Require Import base list gmap numbers relations.
From S2P Require Import Prelude SmallFloat OffsetAlloc OffsetBins OffsetBinOps OffsetMain OffsetFree OffsetOps OffsetClient.
Import SmallFloat Alloc Bins BinOps Blocks Main Free Ops Report Client.

Module Props.
Open Scope moon_scope.
Open Scope Z_scope.

(** ** Concrete runs *)

Inductive cop : Type := CAlloc (size : Z) | CFree (i : nat).

Definition exec1 (o : cop) (s : Sys) : option Sys :=
  match o with
  | CAlloc size =>
      if (0 <=? size) && (size <=? MAX_BIN_SIZE) then
        match allocate size (alloc s) with
        | Some (r, a') => Some (mkSys a' (if isNoSpace r then live s else (r, rounded size) :: live s))
        | None => None
        end
      else None
  | CFree i =>
      match live s !! i with
      | Some (al, sz) =>
          match free al (alloc s) with
          | Some (_, a') => Some (mkSys a' (take i (live s) ++ drop (S i) (live s)))
          | None => None
          end
      | None => None
      end
  end.

Fixpoint exec (os : list cop) (s : Sys) : option Sys :=
  match os with [] => Some s | o :: os => match exec1 o s with Some s' => exec os s' | None => None end end.

Lemma exec1_step o s s' : exec1 o s = Some s' -> step s s'.
Proof.
  destruct o as [size|i]; simpl.
  - destruct (Z.leb_spec 0 size), (Z.leb_spec size MAX_BIN_SIZE); simpl; try done.
    destruct (allocate size (alloc s)) as [[r a']|] eqn:E; [|done]. intros [= <-]. by apply step_allocate.
  - destruct (live s !! i) as [[al sz]|] eqn:E; [|done].
    destruct (free al (alloc s)) as [[[] a']|] eqn:E'; [|done]. intros [= <-].
    apply (step_free s al sz); [|done]. by rewrite take_drop_middle.
Qed.

Lemma exec_rtc os s s' : exec os s = Some s' -> rtc step s s'.
Proof.
  revert s; induction os as [|o os IH]; intros s; simpl; [intros [= <-]; apply rtc_refl|].
  destruct (exec1 o s) as [s1|] eqn:E; [|done]. intros H. eapply rtc_l; [by eapply exec1_step|by apply IH].
Qed.

Definition start (size ic mc : Z) : Sys :=
  mkSys (default (mkAllocator 0 0 0 0 0 [] [] None None 0) (construct size ic mc)) [].

Definition run_of (os : list cop) (size ic mc : Z) : Sys :=
  default (start size ic mc) (exec os (start size ic mc)).

Lemma run_reachable os size ic mc :
  is_Some (construct size ic mc) -> is_Some (exec os (start size ic mc)) ->
  reachable size ic mc (run_of os size ic mc).
Proof.
  intros [a Ha] [s Hs]. unfold run_of. rewrite Hs. simpl. exists a. split; [done|].
  unfold start in Hs. rewrite Ha in Hs. by apply exec_rtc in Hs.
Qed.

(** Three allocations of a 1000-byte region, the middle one released. *)
Definition demo : Sys := run_of [CAlloc 100; CAlloc 200; CAlloc 300; CFree 1] 1000 2 16.

Lemma demo_reachable : reachable 1000 2 16 demo.
Proof. apply run_reachable; vm_compute; eauto. Qed.

Definition drained : Sys :=
  run_of [CAlloc 100; CAlloc 200; CAlloc 300; CFree 1; CFree 0; CFree 0] 1000 2 16.

Lemma drained_reachable : reachable 1000 2 16 drained.
Proof. apply run_reachable; vm_compute; eauto. Qed.

(** Discharges the numeric hypotheses of the witnesses. *)
Ltac nums := vm_compute; intuition discriminate.

(** ** Bins *)

(** every bin index survives the round trip through its size, rounding in
    either direction: [floatToUint] is a section of both
    [uintToFloatRoundUp] and [uintToFloatRoundDown] on the 240 bins that are
    in use, and its values stay below the largest allocatable size. *)
Theorem bin_roundtrip b : 0 <= b < 240 ->
  uintToFloatRoundDown (floatToUint b) = b /\ uintToFloatRoundUp (floatToUint b) = b /\
  0 <= floatToUint b <= MAX_BIN_SIZE.
Proof. auto using roundDown_floatToUint, roundUp_floatToUint, floatToUint_max. Qed.

Lemma bin_roundtrip_witness : uintToFloatRoundUp (floatToUint 77) = 77.
Proof. apply (bin_roundtrip 77). lia. Defined.

(** the bin comparison of the search is exact: a free region of [t] bytes
    sits in a bin at or above the bin of a request of [s] bytes exactly when it
    has room for the rounded request, and rounding costs at most an eighth. *)
Theorem bin_search_exact s t : 0 <= s <= MAX_BIN_SIZE -> 0 <= t < 2 ^ 32 ->
  (uintToFloatRoundUp s <= uintToFloatRoundDown t <-> floatToUint (uintToFloatRoundUp s) <= t) /\
  s <= floatToUint (uintToFloatRoundUp s) /\ 8 * (floatToUint (uintToFloatRoundUp s) - s) <= s.
Proof. auto using fits_iff, roundUp_ge, roundUp_overhead. Qed.

Lemma bin_search_exact_witness :
  1000 <= floatToUint (uintToFloatRoundUp 1000) /\ 8 * (floatToUint (uintToFloatRoundUp 1000) - 1000) <= 1000.
Proof. apply (bin_search_exact 1000 1024); nums. Defined.

(** ** Safety and refinement *)

(** C11: in every state reached from construction by any sequence of calls,
    [allocate] with an admissible size and [free] of any live allocation run
    to completion: no array access leaves its bounds, no uninitialised
    free-list slot is read, no bit scan meets zero. *)
Theorem allocator_safe size ic mc s :
  0 < ic <= mc -> mc < 2 ^ 32 -> 0 <= size <= MAX_BIN_SIZE -> reachable size ic mc s ->
  (forall n, 0 <= n <= MAX_BIN_SIZE -> is_Some (allocate n (alloc s))) /\
  (forall p, p ∈ live s -> is_Some (free p.1 (alloc s))).
Proof.
  intros Hic Hmc Hs (HI & _)%reachable_Inv; try done. split.
  - intros n Hn. destruct (Inv_alloc s n HI Hn) as (r & a' & H & _). by eexists.
  - intros [al sz] Hin. apply list_elem_of_split in Hin as (v1 & v2 & Hv).
    destruct (Inv_free s al sz v1 v2 HI Hv) as (a' & H & _). by eexists.
Qed.

Lemma allocator_safe_witness : is_Some (allocate 333 (alloc demo)).
Proof.
  refine (proj1 (allocator_safe 1000 2 16 demo _ _ _ demo_reachable) 333 _); nums.
Defined.

(** The abstract allocator on blocks. *)
Inductive abs_step (mx : Z) (bl : list Block) : list Block -> Prop :=
  | abs_alloc size r bl' : alloc_step mx size bl r bl' -> abs_step mx bl bl'
  | abs_free l1 x s l2 : bl = l1 ++ B x s true :: l2 -> abs_step mx bl (freed l1 x s l2).

(** C1: refinement.  Every step of the concrete allocator is a step of the
    abstract one: the represented block list changes by splitting a free
    block of the lowest fitting bin, or by releasing a used block and merging
    it with its free neighbours; the result is represented again and its used
    blocks are the client's live allocations. *)
Theorem allocator_refines s s' bl fs :
  Rep (alloc s) bl fs -> live s ≡ₚ live_of 0 bl -> bl <> [] -> step s s' ->
  exists bl' fs', Rep (alloc s') bl' fs' /\ live s' ≡ₚ live_of 0 bl' /\ bl' <> [] /\
    abs_step (m_max_capacity (alloc s)) bl bl'.
Proof.
  intros HR HP Hne [size r a' Hsz Hrun|al sz v1 v2 a' Hv Hrun].
  - destruct (allocate_ok _ bl fs size HR Hsz) as (r' & a'' & bl' & fs' & Hrun' & HR' & Hst & _).
    simplify_eq. exists bl', fs'. split; [exact HR'|].
    destruct (alloc_step_live _ bl fs size r bl' (live s) HR Hsz Hst HP Hne) as [H1 H2].
    split_and!; [exact H1|exact H2|by econstructor].
  - rewrite Hv in HP. destruct (live_of_elem bl 0 al sz) as (l1 & l2 & Hbl & Ho).
    { rewrite <- HP, elem_of_app. right; left. }
    destruct al as [o x]; simpl in *. rewrite Hbl in HR.
    destruct (free_ok _ _ _ _ _ _ o HR) as (a'' & fs' & Hrun' & HR' & _). simplify_eq.
    exists (freed l1 x sz l2), fs'. split; [exact HR'|]. split_and!; [|unfold freed; by destruct (mergeL l1).1|by constructor].
    rewrite live_of_freed. by apply (live_of_elem_Permutation _ l1 x sz l2 (mkAllocation (total l1) x, sz) v1 v2 eq_refl eq_refl HP).
Qed.

Definition started : Sys := start 1000 2 16.

Lemma allocator_refines_witness :
  exists bl fs s', Rep (alloc started) bl fs /\ step started s' /\
  exists bl' fs', Rep (alloc s') bl' fs' /\ live s' ≡ₚ live_of 0 bl' /\ bl' <> [] /\
    abs_step (m_max_capacity (alloc started)) bl bl'.
Proof.
  destruct (construct_ok 1000 2 16 ltac:(lia) ltac:(lia) ltac:(nums)) as (a & fs & Ha & HR & _).
  assert (E : alloc started = a) by (unfold started, start; by rewrite Ha).
  exists [B 0 1000 false], fs, (run_of [CAlloc 100] 1000 2 16). rewrite E. split; [done|].
  assert (Hst : step started (run_of [CAlloc 100] 1000 2 16)) by (apply (exec1_step (CAlloc 100)); by vm_compute).
  split; [done|]. rewrite <- E in HR |- *. by apply (allocator_refines started _ [B 0 1000 false] fs).
Defined.

(** C10: live allocations never overlap and never leave the managed range,
    whatever the order of the calls that produced them. *)
Theorem live_regions_disjoint size ic mc s :
  0 < ic <= mc -> mc < 2 ^ 32 -> 0 <= size <= MAX_BIN_SIZE -> reachable size ic mc s ->
  (forall p, p ∈ live s -> 0 <= offset p.1 /\ 0 <= p.2 /\ offset p.1 + p.2 <= size) /\
  (forall i j p q, i <> j -> live s !! i = Some p -> live s !! j = Some q -> disjoint_regions p q).
Proof.
  intros Hic Hmc Hs (HI & Em & _)%reachable_Inv; try done. rewrite <- Em. by apply Inv_live.
Qed.

Lemma live_regions_disjoint_witness :
  exists p q, live demo !! 0%nat = Some p /\ live demo !! 1%nat = Some q /\ disjoint_regions p q.
Proof.
  exists (mkAllocation 312 2, 320), (mkAllocation 0 0, 104). split; [by vm_compute|]. split; [by vm_compute|].
  refine (proj2 (live_regions_disjoint 1000 2 16 demo _ _ _ demo_reachable) 0%nat 1%nat _ _ _ _ _); by vm_compute.
Defined.

(** C12: completeness of [allocate]: it reports no space exactly when no node
    index is left or every free block is smaller than the rounded request. *)
Theorem allocate_complete a bl fs size r a' :
  Rep a bl fs -> 0 <= size <= MAX_BIN_SIZE -> allocate size a = Some (r, a') ->
  isNoSpace r = true <->
  m_freeOffset a = m_max_capacity a \/
  (forall b, b ∈ bl -> b_used b = false -> b_size b < rounded size).
Proof.
  intros HR Hsz Hrun. destruct (allocate_ok a bl fs size HR Hsz) as (r' & a'' & bl' & fs' & Hrun' & HR' & Hst & _).
  rewrite Hrun in Hrun'. injection Hrun' as <- <-. rewrite (rp_count _ _ _ HR).
  destruct Hst as [Hl|Hl Hb|l1 x s l2 y Hl Heq Hle Hy _]; [split; auto..|].
  pose proof (total_lt_noSpace a bl fs l1 (B x s false) l2 HR Heq) as Hns. simpl in Hns. rewrite Hns.
  split; [done|]. intros [H|H]; [lia|]. exfalso.
  specialize (H (B x s false)). simpl in H. rewrite Heq, elem_of_app in H.
  specialize (H ltac:(right; left) eq_refl). lia.
Qed.

Lemma allocate_complete_witness : exists bl fs a',
  Rep (alloc started) bl fs /\ allocate 2000 (alloc started) = Some (noSpace, a') /\
  (m_freeOffset (alloc started) = m_max_capacity (alloc started) \/
   (forall b, b ∈ bl -> b_used b = false -> b_size b < rounded 2000)).
Proof.
  destruct (construct_ok 1000 2 16 ltac:(lia) ltac:(lia) ltac:(nums)) as (a & fs & Ha & HR & _).
  assert (E : alloc started = a) by (unfold started, start; by rewrite Ha). rewrite <- E in HR.
  exists [B 0 1000 false], fs, (alloc started). split; [done|].
  assert (Hrun : allocate 2000 (alloc started) = Some (noSpace, alloc started)) by (by vm_compute).
  split; [exact Hrun|].
  by apply (allocate_complete (alloc started) [B 0 1000 false] fs 2000 noSpace (alloc started) HR ltac:(nums) Hrun).
Defined.

(** nothing is lost: once every allocation has been released, the free
    space is one region again, and any request whose rounded size fits the
    whole range is served at offset 0 (two nodes are needed). *)
Theorem drained_allocates size ic mc s n :
  0 < ic <= mc -> mc < 2 ^ 32 -> 0 <= size <= MAX_BIN_SIZE -> reachable size ic mc s -> live s = [] ->
  1 < mc -> 0 <= n <= MAX_BIN_SIZE -> rounded n <= size ->
  m_freeStorage (alloc s) = size /\
  exists x a', allocate n (alloc s) = Some (mkAllocation 0 x, a').
Proof.
  intros Hic Hmc Hs (HI & Em & Ec)%reachable_Inv Hv H1 Hn Hfit; try done.
  split; [rewrite Inv_accounting, Hv, Em by done; simpl; lia|].
  destruct (Inv_empty s HI Hv) as (x & fs & HR). rewrite Em in HR.
  destruct (allocate_ok _ _ fs n HR Hn) as (r & a' & bl' & fs' & Hrun & _ & Hst & _).
  exists x, a'. rewrite Hrun, Ec in *. inversion Hst as [Hl|Hl Hb|l1 x' s' l2 y Hl Heq Hle Hy _]; subst; simpl in *.
  - lia.
  - specialize (Hb (B x (m_size (alloc s)) false) ltac:(left) eq_refl). simpl in Hb. lia.
  - destruct l1 as [|b l1]; simpl in *; [by simplify_eq|]. simplify_eq. by destruct l1.
Qed.

Lemma drained_allocates_witness : exists x a', allocate 960 (alloc drained) = Some (mkAllocation 0 x, a').
Proof.
  refine (proj2 (drained_allocates 1000 2 16 drained 960 _ _ _ drained_reachable _ _ _ _)); by vm_compute.
Defined.

(** accounting: the free-storage counter is always the managed size minus
    the sizes of the live allocations; it never wraps. *)
Theorem free_storage_exact size ic mc s :
  0 < ic <= mc -> mc < 2 ^ 32 -> 0 <= size <= MAX_BIN_SIZE -> reachable size ic mc s ->
  m_freeStorage (alloc s) = size - live_total (live s) /\ 0 <= m_freeStorage (alloc s) <= size.
Proof.
  intros Hic Hmc Hs (HI & Em & _)%reachable_Inv; try done. rewrite Inv_accounting, Em by done.
  split; [done|]. rewrite <- Em, <- Inv_accounting by done. destruct HI as (bl & fs & HR & _).
  rewrite (rp_free _ _ _ HR), <- (rp_total _ _ _ HR).
  by apply (layout_free_bounds _ _ _ (rp_layout _ _ _ HR)).
Qed.

Lemma free_storage_exact_witness : m_freeStorage (alloc demo) = 1000 - live_total (live demo).
Proof. refine (proj1 (free_storage_exact 1000 2 16 demo _ _ _ demo_reachable)); nums. Defined.

(** an allocation reports the size it reserved: between the requested
    size and nine eighths of it. *)
Theorem allocationSize_reserved s size r a' :
  Inv s -> 0 <= size <= MAX_BIN_SIZE -> allocate size (alloc s) = Some (r, a') -> isNoSpace r = false ->
  allocationSize r a' = Some (rounded size, a') /\
  size <= rounded size /\ 8 * rounded size <= 9 * size.
Proof.
  intros HI Hsz Hrun Hns. pose proof (roundUp_ge size Hsz). pose proof (roundUp_overhead size Hsz).
  fold (rounded size) in *. split; [|lia].
  destruct (Inv_alloc s size HI Hsz) as (r' & a'' & Hrun' & _ & _ & (bl & fs & HR & HP & _)).
  rewrite Hrun in Hrun'. injection Hrun' as <- <-. rewrite Hns in HP. simpl in *.
  destruct (live_of_elem bl 0 r (rounded size)) as (l1 & l2 & Hbl & _); [rewrite <- HP; left|].
  pose proof (rep_split_layout _ _ _ HR l1 _ l2 Hbl) as (_ & (_ & Es & _) & _). simpl in Es.
  assert (V : valid a' (metadata r)).
  { apply (rep_valid _ _ _ HR). rewrite Hbl, ids_app, !elem_of_app. left; right; left. }
  pose proof (rp_arrays _ _ _ HR) as HA. unfold allocationSize.
  change NO_SPACE with unused. rewrite (proj2 (Z.eqb_neq _ _) (valid_not_unused a' _ HA V)), bind_gets.
  destruct (arr_nodes a' HA) as (ns & -> & _).
  erewrite bind_Some by (by apply (node_get_ok a' HA)). by rewrite Es.
Qed.

Lemma allocationSize_reserved_witness : exists r a',
  allocate 333 (alloc demo) = Some (r, a') /\ allocationSize r a' = Some (rounded 333, a').
Proof.
  destruct (allocate 333 (alloc demo)) as [[r a']|] eqn:E; [|vm_compute in E; discriminate].
  exists r, a'. split; [done|].
  refine (proj1 (allocationSize_reserved demo 333 r a' _ _ E _)); [|nums|].
  - refine (proj1 (reachable_Inv 1000 2 16 _ _ _ demo demo_reachable)); nums.
  - vm_compute in E. injection E as <- _. by vm_compute.
Defined.

(** the storage report never lies upwards: it gives the exact free space,
    and a region size that [allocate] serves in the same state; when it
    reports 0 every block is used or smaller than one size class. *)
Theorem storageReport_achievable a bl fs : Rep a bl fs -> m_freeOffset a < m_max_capacity a ->
  exists rep, storageReport a = Some (rep, a) /\ totalFreeSpace rep = free_total bl /\
    largest_spec bl (largestFreeRegion rep) /\
    ((exists b, b ∈ bl /\ b_used b = false) ->
       exists r a', allocate (largestFreeRegion rep) a = Some (r, a') /\ isNoSpace r = false).
Proof.
  intros HR Hlt. destruct (rp_bins _ _ _ HR) as [bins HB].
  destruct (storageReport_ok a bl fs bins HR HB) as (rep & Hrun & Hrep & _).
  destruct (Hrep Hlt) as [HT HL]. exists rep. split_and!; try done. intros (b & Hb & Hu).
  destruct HL as [[_ Hall]|(blk & Hblk & Hbu & Er & _)]; [by rewrite Hall in Hu|].
  destruct (free_block_bin a bl fs bins HR HB blk Hblk Hbu) as [Hsz _].
  pose proof (roundDown_range _ Hsz) as Hrd. pose proof (floatToUint_max _ Hrd) as Hmax.
  rewrite <- Er in Hmax.
  destruct (allocate_ok a bl fs _ HR Hmax) as (r & a' & bl' & fs' & Hal & _ & Hst & _).
  exists r, a'. split; [done|]. rewrite Er in Hst. pose proof (rp_count _ _ _ HR).
  assert (Hround : rounded (floatToUint (uintToFloatRoundDown (b_size blk))) <= b_size blk).
  { unfold rounded. rewrite roundUp_floatToUint by done. by apply roundDown_le. }
  inversion Hst as [Hl|Hl Hbl|l1 x s l2 y Hl Heq Hle Hy _]; subst; [lia| |].
  - specialize (Hbl blk Hblk Hbu). lia.
  - by apply (total_lt_noSpace a _ fs l1 (B x s false) l2 HR eq_refl).
Qed.

Lemma storageReport_achievable_witness : exists a fs rep,
  Rep a [B 0 1000 false] fs /\ storageReport a = Some (rep, a) /\ totalFreeSpace rep = 1000.
Proof.
  destruct (construct_ok 1000 2 16 ltac:(lia) ltac:(lia) ltac:(nums)) as (a & fs & Ha & HR & Hm & _).
  destruct (storageReport_achievable a [B 0 1000 false] fs HR) as (rep & H1 & H2 & _).
  { rewrite Hm, (rp_count _ _ _ HR). simpl. lia. }
  exists a, fs, rep. done.
Defined.

(** the full report terminates and counts, for each of the 256 bins, the
    free blocks whose size class is that bin. *)
Theorem storageReportFull_counts a bl fs : Rep a bl fs ->
  storageReportFull a = Some ((fun b => (floatToUint b, bin_count b bl)) <$> seqZ 0 256, a).
Proof. intros HR. destruct (rp_bins _ _ _ HR) as [bins HB]. by apply (storageReportFull_ok a bl fs bins). Qed.

Lemma storageReportFull_counts_witness : exists a fs, Rep a [B 0 1000 false] fs /\
  storageReportFull a = Some ((fun b => (floatToUint b, bin_count b [B 0 1000 false])) <$> seqZ 0 256, a).
Proof.
  destruct (construct_ok 1000 2 16 ltac:(lia) ltac:(lia) ltac:(nums)) as (a & fs & Ha & HR & Hm & _).
  exists a, fs. split; [done|]. by apply (storageReportFull_counts a [B 0 1000 false] fs).
Defined.

(** a moved-from allocator is inert: it refuses every allocation, ignores
    every release and reports no space, while the new object is the old one. *)
Theorem moved_from_inert a size al : exists o,
  moveConstruct a = (a, o) /\ allocate size o = Some (noSpace, o) /\ free al o = Some (tt, o) /\
  storageReport o = Some (mkReport 0 0, o) /\ allocationSize al o = Some (0, o).
Proof.
  eexists. split; [reflexivity|]. split_and!; try done. unfold allocationSize. by destruct (_ =? _).
Qed.

End Props.
