(* ===== verification/OffsetWrapper.v ===== *)
(** * OffsetWrapper: [OffsetAllocator] and [OffsetAllocationHandle]

    Models the thread-safe wrapper of offset_allocator.cpp (lines 484-659).
    Every public operation runs under [m_mutex], so an execution is a sequence
    of whole operations.  Sizes and addresses are 64-bit; the inner allocator
    works on sizes scaled down by [m_multiplier_bits].  A handle is an RAII
    object: its weak pointer is [h_bound], its destructor gives the region
    back when the allocator is still alive. *)

From Stdlib Require Import ZArith Lia.
From stdpp Require Import base list gmap numbers relations.
From S2P Require Import Prelude SmallFloat OffsetAlloc OffsetBins OffsetBinOps OffsetMain OffsetFree OffsetOps OffsetClient.
Import SmallFloat Alloc Bins BinOps Blocks Main Free Ops Report Client.

Module Wrapper.
Open Scope moon_scope.
Open Scope Z_scope.

Record OffsetAllocator : Type := mkOA {
  m_allocator : option Allocator;
  m_base : Z;
  m_multiplier_bits : Z;
  m_capacity : Z;
  m_allocated_size : Z;
  m_allocated_num : Z;
}.

Definition set_allocator v o := mkOA (Some v) (m_base o) (m_multiplier_bits o) (m_capacity o) (m_allocated_size o) (m_allocated_num o).
Definition set_counters s n o := mkOA (m_allocator o) (m_base o) (m_multiplier_bits o) (m_capacity o) s n.

(** [OffsetAllocationHandle]; [h_bound] is false when the weak pointer is
    empty, after a move. *)
Record Handle : Type := mkHandle {
  h_bound : bool;
  h_allocation : OffsetAllocation;
  real_base : Z;
  requested_size : Z;
}.

(** The loop of [calculateMultiplier]: a 64-bit size needs at most 33 shifts. *)
Fixpoint multiplier_loop (fuel : nat) (size bits : Z) : option Z :=
  if MAX_BIN_SIZE <? Z.shiftr size bits then
    match fuel with O => None | S fuel => multiplier_loop fuel size (bits + 1) end
  else Some bits.

Definition calculateMultiplier (size : Z) : option Z := multiplier_loop 64 size 0.

(** [OffsetAllocator::create] and the private constructor. *)
Definition create (base size init_capacity max_capacity : Z) : option OffsetAllocator :=
  match calculateMultiplier size with
  | Some bits =>
      match construct (u32 (Z.shiftr size bits)) init_capacity max_capacity with
      | Some a => Some (mkOA (Some a) base bits size 0 0)
      | None => None
      end
  | None => None
  end.

Definition fake_size (bits size : Z) : Z :=
  if 0 <? bits then Z.shiftr (u64 (u64 (size + u64 (Z.shiftl 1 bits)) - 1)) bits else size.

(** Runs an operation of the inner allocator inside the wrapper. *)
Definition inner {A} (a : Allocator) (c : M A) : ST OffsetAllocator A := fun o =>
  match c a with Some (r, a') => Some (r, set_allocator a' o) | None => None end.

Definition allocate (size : Z) : ST OffsetAllocator (option Handle) :=
  if size =? 0 then ret None
  else
    let* ma := gets m_allocator in
    match ma with
    | None => ret None
    | Some a =>
        let* bits := gets m_multiplier_bits in
        let fake := fake_size bits size in
        if MAX_BIN_SIZE <? fake then ret None
        else
          let* allocation := inner a (Alloc.allocate fake) in
          if isNoSpace allocation then ret None
          else
            do* modify (fun o => set_counters (u64 (m_allocated_size o + size)) (u64 (m_allocated_num o + 1)) o) in
            let* base := gets m_base in
            ret (Some (mkHandle true allocation
                         (u64 (base + u64 (Z.shiftl (offset allocation) bits))) size))
    end.

Definition freeAllocation (allocation : OffsetAllocation) (size : Z) : ST OffsetAllocator unit :=
  let* ma := gets m_allocator in
  match ma with
  | None => ret tt
  | Some a =>
      do* inner a (free allocation) in
      modify (fun o => set_counters (u64 (m_allocated_size o - size)) (u64 (m_allocated_num o - 1)) o)
  end.

(** The destructor, with the allocator still alive. *)
Definition handle_dtor (h : Handle) : ST OffsetAllocator unit :=
  if h_bound h then freeAllocation (h_allocation h) (requested_size h) else ret tt.

(** The moved-from handle, and the handle a move construction makes. *)
Definition moved_handle : Handle := mkHandle false noSpace 0 0.
Definition handle_move (other : Handle) : Handle * Handle := (other, moved_handle).

(** Move assignment: releases what the target held, then takes [other]. *)
Definition handle_assign (h other : Handle) : ST OffsetAllocator (Handle * Handle) :=
  do* handle_dtor h in ret (handle_move other).

Record Metrics : Type := mkMetrics {
  allocated_size_ : Z; allocated_num_ : Z; largest_free_region_ : Z; total_free_space_ : Z; capacity_ : Z }.

Definition wrapper_storageReport : ST OffsetAllocator StorageReport :=
  let* ma := gets m_allocator in
  match ma with
  | None => ret (mkReport 0 0)
  | Some a =>
      let* bits := gets m_multiplier_bits in
      let* r := inner a storageReport in
      ret (mkReport (u64 (Z.shiftl (totalFreeSpace r) bits)) (u64 (Z.shiftl (largestFreeRegion r) bits)))
  end.

Definition wrapper_storageReportFull : ST OffsetAllocator (list (Z * Z)) :=
  let* ma := gets m_allocator in
  match ma with
  | None => ret (replicate (Z.to_nat NUM_LEAF_BINS) (0, 0))
  | Some a =>
      let* bits := gets m_multiplier_bits in
      let* r := inner a storageReportFull in
      ret ((fun p => (u64 (Z.shiftl p.1 bits), p.2)) <$> r)
  end.

Definition get_metrics : ST OffsetAllocator Metrics :=
  let* ma := gets m_allocator in
  let* cap := gets m_capacity in
  match ma with
  | None => ret (mkMetrics 0 0 0 0 cap)
  | Some a =>
      let* bits := gets m_multiplier_bits in
      let* r := inner a storageReport in
      let* sz := gets m_allocated_size in
      let* num := gets m_allocated_num in
      ret (mkMetrics sz num (u64 (Z.shiftl (largestFreeRegion r) bits))
             (u64 (Z.shiftl (totalFreeSpace r) bits)) cap)
  end.

(** ** The scaling *)

Lemma multiplier_loop_ok fuel size bits : 0 <= bits -> 0 <= size -> size < 2 ^ (bits + Z.of_nat fuel) ->
  exists b, multiplier_loop fuel size bits = Some b /\ bits <= b <= bits + Z.of_nat fuel /\
    Z.shiftr size b <= MAX_BIN_SIZE /\ (forall c, bits <= c < b -> MAX_BIN_SIZE < Z.shiftr size c).
Proof.
  revert bits; induction fuel as [|fuel IH]; intros bits Hb Hs Hlt; simpl;
    destruct (Z.ltb_spec MAX_BIN_SIZE (Z.shiftr size bits)) as [Hgt|Hle].
  - change (Z.of_nat 0) with 0 in Hlt. rewrite Z.add_0_r in Hlt.
    rewrite Z.shiftr_div_pow2, Z.div_small in Hgt by lia. unfold MAX_BIN_SIZE in Hgt. lia.
  - exists bits. split_and!; try done; lia.
  - destruct (IH (bits + 1)) as (b & H1 & H2 & H3 & H4); [lia|done| |].
    { by replace (bits + 1 + Z.of_nat fuel) with (bits + Z.of_nat (S fuel)) by lia. }
    exists b. split_and!; try done; try lia. intros c Hc.
    destruct (Z.eq_dec c bits) as [->|]; [done|]. apply H4. lia.
  - exists bits. split_and!; try done; lia.
Qed.

Lemma calculateMultiplier_ok size : 0 <= size < 2 ^ 64 ->
  exists b, calculateMultiplier size = Some b /\ 0 <= b <= 33 /\ Z.shiftr size b <= MAX_BIN_SIZE /\
    (forall c, 0 <= c < b -> MAX_BIN_SIZE < Z.shiftr size c).
Proof.
  intros Hs. destruct (multiplier_loop_ok 64 size 0 ltac:(lia) ltac:(lia) ltac:(lia)) as (b & H1 & H2 & H3 & H4).
  exists b. split_and!; try done; try lia.
  destruct (Z.le_gt_cases b 33) as [|Hgt]; [done|]. specialize (H4 33 ltac:(lia)).
  rewrite Z.shiftr_div_pow2 in H4 by lia. apply Z.lt_le_incl in Hgt.
  assert (size / 2 ^ 33 <= 2 ^ 31) by (apply Z.div_le_upper_bound; lia). unfold MAX_BIN_SIZE in H4. lia.
Qed.

(** Without overflow the scaled request covers the requested bytes. *)
Lemma fake_size_ok bits size : 0 <= bits <= 33 -> 0 <= size -> size + 2 ^ bits <= 2 ^ 64 ->
  size <= fake_size bits size * 2 ^ bits < size + 2 ^ bits /\ 0 <= fake_size bits size.
Proof.
  intros Hb Hs Hov. unfold fake_size. pose proof (Z.pow_pos_nonneg 2 bits ltac:(lia) ltac:(lia)) as Hp.
  destruct (Z.ltb_spec 0 bits) as [Hpos|Hle].
  - pose proof (Z.pow_le_mono_r 2 bits 33 ltac:(lia) ltac:(lia)).
    rewrite Z.shiftl_1_l, (u64_small (2 ^ bits)) by lia. pose proof (Z.pow_le_mono_r 2 1 bits ltac:(lia) ltac:(lia)).
    assert (E : u64 (u64 (size + 2 ^ bits) - 1) = size + 2 ^ bits - 1).
    { unfold u64. rewrite Zminus_mod_idemp_l. apply Z.mod_small. lia. }
    rewrite E, Z.shiftr_div_pow2 by lia.
    pose proof (Z.div_mod (size + 2 ^ bits - 1) (2 ^ bits)). pose proof (Z.mod_pos_bound (size + 2 ^ bits - 1) (2 ^ bits)).
    assert (0 <= (size + 2 ^ bits - 1) / 2 ^ bits) by (apply Z.div_pos; lia). lia.
  - replace bits with 0 by lia. rewrite Z.pow_0_r. lia.
Qed.

(** ** Executions *)

(** What a bound handle holds in the inner allocator. *)
Definition key (bits : Z) (h : Handle) : OffsetAllocation * Z :=
  (h_allocation h, rounded (fake_size bits (requested_size h))).

Definition requested_total (hs : list Handle) : Z := foldr (fun h n => requested_size h + n) 0 hs.

Record WSys : Type := mkWSys { w_oa : OffsetAllocator; w_handles : list Handle }.

(** Clients allocate, destroy a handle, or overwrite one handle by another. *)
Inductive wstep (w : WSys) : WSys -> Prop :=
  | wstep_allocate size r o' :
      0 <= size -> size + 2 ^ m_multiplier_bits (w_oa w) <= 2 ^ 64 ->
      allocate size (w_oa w) = Some (r, o') ->
      wstep w (mkWSys o' (match r with Some h => h :: w_handles w | None => w_handles w end))
  | wstep_destroy h v1 v2 o' : w_handles w = v1 ++ h :: v2 ->
      handle_dtor h (w_oa w) = Some (tt, o') -> wstep w (mkWSys o' (v1 ++ v2))
  | wstep_assign h other v1 v2 v3 o' h1 h2 : w_handles w = v1 ++ h :: v2 -> v1 ++ v2 = v3 ++ [other] ->
      handle_assign h other (w_oa w) = Some ((h1, h2), o') -> wstep w (mkWSys o' (v3 ++ [h1])).

Record handle_wf (o : OffsetAllocator) (h : Handle) : Prop := {
  hw_bound : h_bound h = true;
  hw_base : real_base h = m_base o + offset (h_allocation h) * 2 ^ m_multiplier_bits o;
  hw_size : 0 < requested_size h /\ requested_size h + 2 ^ m_multiplier_bits o <= 2 ^ 64;
  hw_fake : fake_size (m_multiplier_bits o) (requested_size h) <= MAX_BIN_SIZE;
}.

Record WInv (w : WSys) : Prop := {
  wi_inner : exists a, m_allocator (w_oa w) = Some a /\
    Inv (mkSys a (key (m_multiplier_bits (w_oa w)) <$> w_handles w)) /\
    m_size a = Z.shiftr (m_capacity (w_oa w)) (m_multiplier_bits (w_oa w));
  wi_bits : 0 <= m_multiplier_bits (w_oa w) <= 33;
  wi_fit : Z.shiftr (m_capacity (w_oa w)) (m_multiplier_bits (w_oa w)) <= MAX_BIN_SIZE;
  wi_cap : 0 <= m_capacity (w_oa w) < 2 ^ 64;
  wi_base : 0 <= m_base (w_oa w) /\ m_base (w_oa w) + m_capacity (w_oa w) <= 2 ^ 64;
  wi_handles : Forall (handle_wf (w_oa w)) (w_handles w);
  wi_size : m_allocated_size (w_oa w) = requested_total (w_handles w);
  wi_num : m_allocated_num (w_oa w) = Z.of_nat (length (w_handles w));
}.

Lemma key_covers o h : handle_wf o h -> 0 <= m_multiplier_bits o <= 33 ->
  requested_size h <= (key (m_multiplier_bits o) h).2 * 2 ^ m_multiplier_bits o.
Proof.
  intros [_ _ [Hp Hov] Hm] Hb. simpl. destruct (fake_size_ok _ (requested_size h) Hb ltac:(lia) Hov) as [H1 H2].
  pose proof (roundUp_ge (fake_size (m_multiplier_bits o) (requested_size h)) ltac:(lia)) as Hge.
  fold (rounded (fake_size (m_multiplier_bits o) (requested_size h))) in Hge.
  pose proof (Z.pow_pos_nonneg 2 (m_multiplier_bits o)). nia.
Qed.

Lemma Inv_live_total s : Inv s -> 0 <= live_total (live s) <= m_size (alloc s) /\
  Z.of_nat (length (live s)) < 2 ^ 32.
Proof.
  intros HI. pose proof (Inv_accounting s HI) as Ha. destruct HI as (bl & fs & HR & HP & _).
  pose proof (layout_free_bounds _ _ _ (rp_layout _ _ _ HR)) as Hb.
  rewrite (rp_total _ _ _ HR), <- (rp_free _ _ _ HR) in Hb. split; [lia|].
  rewrite HP. assert (Hlen : forall off l, (length (live_of off l) <= length l)%nat).
  { intros off l; revert off; induction l as [|b l IH]; intros off; simpl; [lia|].
    specialize (IH (off + b_size b)). destruct (b_used b); simpl; lia. }
  specialize (Hlen 0 bl). pose proof (rp_count _ _ _ HR). pose proof (st_len _ _ _ _ _ (rp_stack _ _ _ HR)).
  pose proof (st_cap _ _ _ _ _ (rp_stack _ _ _ HR)). pose proof (arr_max _ (rp_arrays _ _ _ HR)). lia.
Qed.

Lemma requested_covered o hs : Forall (handle_wf o) hs -> 0 <= m_multiplier_bits o <= 33 ->
  0 <= requested_total hs <= live_total (key (m_multiplier_bits o) <$> hs) * 2 ^ m_multiplier_bits o.
Proof.
  intros HF Hb. induction HF as [|h hs Hh HF IH]; [done|].
  pose proof (key_covers o h Hh Hb). destruct Hh as [_ _ [? _] _].
  rewrite fmap_cons. unfold live_total, requested_total in *. simpl in *. rewrite Z.mul_add_distr_r. lia.
Qed.

Lemma shiftr_mul_le x n : 0 <= x -> 0 <= n -> Z.shiftr x n * 2 ^ n <= x.
Proof. intros Hx Hn. rewrite Z.shiftr_div_pow2 by done. rewrite Z.mul_comm. apply Z.mul_div_le. by apply Z.pow_pos_nonneg. Qed.

(** The requested bytes never exceed the capacity. *)
Lemma requested_bound o hs a : Forall (handle_wf o) hs -> 0 <= m_multiplier_bits o <= 33 ->
  0 <= m_capacity o -> Inv (mkSys a (key (m_multiplier_bits o) <$> hs)) ->
  m_size a = Z.shiftr (m_capacity o) (m_multiplier_bits o) -> 0 <= requested_total hs <= m_capacity o.
Proof.
  intros HF Hb Hc HI Hs. pose proof (requested_covered o hs HF Hb). pose proof (Inv_live_total _ HI) as [Ht _].
  simpl in Ht. rewrite Hs in Ht. pose proof (shiftr_mul_le (m_capacity o) (m_multiplier_bits o) Hc ltac:(lia)).
  pose proof (Z.pow_pos_nonneg 2 (m_multiplier_bits o)). nia.
Qed.

Lemma Inv_proper_live a l l' : l ≡ₚ l' -> Inv (mkSys a l) -> Inv (mkSys a l').
Proof. intros HP (bl & fs & HR & HP' & Hne). exists bl, fs. split_and!; try done. simpl in *. by rewrite <- HP. Qed.

Lemma requested_total_app l1 l2 : requested_total (l1 ++ l2) = requested_total l1 + requested_total l2.
Proof. induction l1 as [|h l1 IH]; [done|]. unfold requested_total in *. simpl. lia. Qed.

(** Same scale, base and capacity. *)
Definition same_shape (o o' : OffsetAllocator) : Prop :=
  m_base o' = m_base o /\ m_multiplier_bits o' = m_multiplier_bits o /\ m_capacity o' = m_capacity o.

Lemma handle_wf_shape o o' h : same_shape o o' -> handle_wf o h -> handle_wf o' h.
Proof. intros (E1 & E2 & E3) [H1 H2 H3 H4]. split; rewrite ?E1, ?E2; done. Qed.

Lemma handles_shape o o' hs : same_shape o o' -> Forall (handle_wf o) hs -> Forall (handle_wf o') hs.
Proof. intros Hs HF. eapply list.Forall_impl; [exact HF|]. intros h. by apply handle_wf_shape. Qed.

Lemma WInv_allocate w size : WInv w -> 0 <= size -> size + 2 ^ m_multiplier_bits (w_oa w) <= 2 ^ 64 ->
  exists r o', allocate size (w_oa w) = Some (r, o') /\ same_shape (w_oa w) o' /\
    (forall h, r = Some h -> requested_size h = size) /\
    WInv (mkWSys o' (match r with Some h => h :: w_handles w | None => w_handles w end)).
Proof.
  intros HW Hs Hov. pose proof HW as [(a & Ea & HI & Hm) Hb Hfit Hcap Hbase HF Hsz Hnum].
  set (o := w_oa w) in *. unfold allocate.
  destruct (Z.eqb_spec size 0) as [|Hnz]; [exists None, o; by split_and!; try destruct w|].
  rewrite bind_gets, Ea, bind_gets. destruct (fake_size_ok _ size Hb Hs Hov) as [Hcov Hfp].
  destruct (Z.ltb_spec MAX_BIN_SIZE (fake_size (m_multiplier_bits o) size)) as [|Hfk];
    [exists None, o; by split_and!; try destruct w|].
  destruct (Inv_alloc _ (fake_size (m_multiplier_bits o) size) HI ltac:(lia)) as (r & a' & Hrun & Em & _ & HI').
  simpl in Hrun, Em, HI'. unfold inner at 1. unfold bind at 1. rewrite Hrun. cbv beta iota.
  assert (Hsame : forall s n, same_shape o (set_counters s n (set_allocator a' o))) by done.
  destruct (isNoSpace r) eqn:Hns.
  { eexists None, _. split; [reflexivity|]. split_and!; [done..|]. split; try done; simpl.
    - exists a'. by rewrite Em.
    - by apply (handles_shape o). }
  rewrite bind_modify, bind_gets. set (h := mkHandle true r _ size). simpl in h.
  assert (Hwf : handle_wf o h).
  { split; try done; [|simpl; lia]. simpl. destruct (Inv_live _ HI') as [Hin _].
    destruct (Hin (r, rounded (fake_size (m_multiplier_bits o) size)) ltac:(left)) as (H0 & H1 & H2). simpl in *.
    rewrite Z.shiftl_mul_pow2 by lia. pose proof (shiftr_mul_le (m_capacity o) (m_multiplier_bits o)).
    pose proof (Z.pow_pos_nonneg 2 (m_multiplier_bits o)).
    assert (offset r * 2 ^ m_multiplier_bits o + size <= m_capacity o).
    { pose proof (roundUp_ge (fake_size (m_multiplier_bits o) size) ltac:(lia)) as Hge.
      fold (rounded (fake_size (m_multiplier_bits o) size)) in Hge. nia. }
    rewrite (u64_small (offset r * _)), u64_small by nia. done. }
  assert (HF' : Forall (handle_wf o) (h :: w_handles w)) by (by constructor).
  assert (HI'' : Inv (mkSys a' (key (m_multiplier_bits o) <$> h :: w_handles w))) by exact HI'.
  pose proof (requested_bound o _ a' HF' Hb (proj1 Hcap) HI'' ltac:(congruence)) as Hrb.
  pose proof (Inv_live_total _ HI'') as [_ Hlen]. simpl in Hrb, Hlen. rewrite length_fmap in Hlen.
  eexists (Some h), _. split; [reflexivity|]. split_and!; [done..|by intros ? [= <-]|].
  split; simpl; try done; try lia.
  - exists a'. split_and!; try done. congruence.
  - by apply (handles_shape o).
  - rewrite Hsz, u64_small; [|lia]. lia.
  - rewrite Hnum, u64_small; lia.
Qed.

Lemma WInv_free w h v1 v2 : WInv w -> w_handles w = v1 ++ h :: v2 ->
  exists o', handle_dtor h (w_oa w) = Some (tt, o') /\ same_shape (w_oa w) o' /\ WInv (mkWSys o' (v1 ++ v2)).
Proof.
  intros HW Hv. pose proof HW as [(a & Ea & HI & Hm) Hb Hfit Hcap Hbase HF Hsz Hnum].
  set (o := w_oa w) in *. rewrite Hv in *. apply Forall_app in HF as [HF1 HF2].
  apply Forall_cons in HF2 as [Hh HF2]. unfold handle_dtor. rewrite (hw_bound _ _ Hh).
  unfold freeAllocation. rewrite bind_gets, Ea. rewrite fmap_app, fmap_cons in HI.
  destruct (Inv_free _ (h_allocation h) (key (m_multiplier_bits o) h).2 _ _ HI eq_refl) as (a' & Hrun & Em & _ & HI').
  simpl in Hrun, Em. unfold inner, bind. rewrite Hrun. cbv beta iota.
  eexists. split; [reflexivity|]. split; [done|].
  assert (HF' : Forall (handle_wf o) (v1 ++ v2)) by (by apply Forall_app).
  rewrite <- fmap_app in HI'.
  pose proof (requested_bound o _ a' HF' Hb (proj1 Hcap) HI' ltac:(congruence)) as Hrb.
  rewrite requested_total_app in *. unfold requested_total in Hsz at 2. simpl in Hsz. fold (requested_total v2) in Hsz.
  rewrite length_app in Hnum. simpl in Hnum. pose proof (Inv_live_total _ HI') as [_ Hlen]. simpl in Hlen.
  rewrite length_fmap, length_app in Hlen. split; simpl; try done; try lia.
  - exists a'. split_and!; try done. congruence.
  - by apply (handles_shape o).
  - rewrite Hsz, requested_total_app, u64_small; lia.
  - rewrite Hnum, length_app, u64_small; lia.
Qed.

Lemma wstep_WInv w w' : WInv w -> wstep w w' -> WInv w' /\ same_shape (w_oa w) (w_oa w').
Proof.
  intros HW [size r o' Hs Hov Hrun|h v1 v2 o' Hv Hrun|h other v1 v2 v3 o' h1 h2 Hv Hv3 Hrun]; simpl.
  - destruct (WInv_allocate w size HW Hs Hov) as (r' & o'' & Hrun' & ? & _ & ?). by simplify_eq.
  - destruct (WInv_free w h v1 v2 HW Hv) as (o'' & Hrun' & ? & ?). by simplify_eq.
  - destruct (WInv_free w h v1 v2 HW Hv) as (o'' & Hrun' & ? & HW'). unfold handle_assign, bind in Hrun.
    rewrite Hrun' in Hrun. unfold ret, handle_move in Hrun. simplify_eq. by rewrite Hv3 in HW'.
Qed.

Definition wreachable (base size ic mc : Z) (w : WSys) : Prop :=
  exists o, create base size ic mc = Some o /\ rtc wstep (mkWSys o []) w.

Lemma create_WInv base size ic mc : 0 < ic <= mc -> mc < 2 ^ 32 -> 0 <= size < 2 ^ 64 -> 0 <= base ->
  base + size <= 2 ^ 64 ->
  exists o, create base size ic mc = Some o /\ WInv (mkWSys o []) /\ m_base o = base /\ m_capacity o = size.
Proof.
  intros Hic Hmc Hs Hb Hbs. destruct (calculateMultiplier_ok size Hs) as (b & Eb & Hb33 & Hle & _).
  assert (H0 : 0 <= Z.shiftr size b) by (apply Z.shiftr_nonneg; lia).
  unfold create. rewrite Eb, u32_small by (unfold MAX_BIN_SIZE in *; lia).
  destruct (construct_ok (Z.shiftr size b) ic mc Hic Hmc ltac:(lia)) as (a & fs & -> & HR & _ & Hm).
  eexists. split; [reflexivity|]. split; [|done]. split; simpl; try done.
  exists a. split_and!; try done. exists [B 0 (Z.shiftr size b) false], fs. by split_and!.
Qed.

Lemma wreachable_WInv base size ic mc w : 0 < ic <= mc -> mc < 2 ^ 32 -> 0 <= size < 2 ^ 64 -> 0 <= base ->
  base + size <= 2 ^ 64 -> wreachable base size ic mc w ->
  WInv w /\ m_base (w_oa w) = base /\ m_capacity (w_oa w) = size.
Proof.
  intros Hic Hmc Hs Hb Hbs (o & Ho & Hr).
  destruct (create_WInv base size ic mc Hic Hmc Hs Hb Hbs) as (o' & Ho' & HW & E1 & E2).
  assert (o' = o) as -> by congruence. clear Ho Ho'. remember (mkWSys o []) as w0 eqn:E.
  assert (H : WInv w0 /\ m_base (w_oa w0) = base /\ m_capacity (w_oa w0) = size) by (by subst w0).
  clear E HW E1 E2. induction Hr as [w|w1 w2 w3 Hst Hr IH]; [done|]. apply IH.
  destruct H as (HW & H1 & H2). destruct (wstep_WInv _ _ HW Hst) as (HW' & E1 & _ & E3).
  split; [done|]. split; congruence.
Qed.

(** The byte range a handle stands for. *)
Definition disjoint_bytes (h1 h2 : Handle) : Prop :=
  real_base h1 + requested_size h1 <= real_base h2 \/ real_base h2 + requested_size h2 <= real_base h1.

Lemma WInv_regions w : WInv w ->
  (forall h, h ∈ w_handles w -> 0 < requested_size h /\ m_base (w_oa w) <= real_base h /\
     real_base h + requested_size h <= m_base (w_oa w) + m_capacity (w_oa w)) /\
  (forall i j h1 h2, i <> j -> w_handles w !! i = Some h1 -> w_handles w !! j = Some h2 -> disjoint_bytes h1 h2).
Proof.
  intros [(a & Ea & HI & Hm) Hb Hfit Hcap Hbase HF Hsz Hnum]. set (o := w_oa w) in *.
  destruct (Inv_live _ HI) as [Hin Hdis]. simpl in Hin, Hdis. rewrite Forall_forall in HF.
  pose proof (Z.pow_pos_nonneg 2 (m_multiplier_bits o) ltac:(lia) ltac:(lia)) as Hp.
  pose proof (shiftr_mul_le (m_capacity o) (m_multiplier_bits o) ltac:(lia) ltac:(lia)) as Hsh. split.
  - intros h Hh. pose proof (key_covers o h (HF h Hh) Hb) as Hk.
    destruct (HF h Hh) as [_ -> [? _] _].
    destruct (Hin (key (m_multiplier_bits o) h)) as (H1 & H2 & H3); [apply list_elem_of_fmap; eauto|].
    rewrite Hm in H3. simpl in *. nia.
  - intros i j h1 h2 Hij H1 H2.
    assert (W1 := HF h1 (list_elem_of_lookup_2 _ _ _ H1)). assert (W2 := HF h2 (list_elem_of_lookup_2 _ _ _ H2)).
    pose proof (key_covers o h1 W1 Hb) as K1. pose proof (key_covers o h2 W2 Hb) as K2.
    specialize (Hdis i j (key (m_multiplier_bits o) h1) (key (m_multiplier_bits o) h2) Hij).
    rewrite !list_lookup_fmap, H1, H2 in Hdis. specialize (Hdis eq_refl eq_refl).
    unfold disjoint_regions, disjoint_bytes in *. rewrite (hw_base _ _ W1), (hw_base _ _ W2). simpl in *.
    destruct Hdis; [left|right]; nia.
Qed.

End Wrapper.
