(* ===== verification/OffsetWrapperProps.v ===== *)
(** * OffsetWrapperProps: the correctness properties of [OffsetAllocator]

    What holds of every execution of the thread-safe wrapper: regions are
    disjoint byte ranges of the segment, the metrics are exact, no call is
    undefined; and the one request range for which the size arithmetic wraps. *)

From Stdlib Require Import ZArith Lia.
From stdpp Require Import base list gmap numbers relations.
From S2P Require Import Prelude SmallFloat OffsetAlloc OffsetBins OffsetMain OffsetOps OffsetClient OffsetWrapper.
Import SmallFloat Alloc Ops Client Wrapper.

Module WrapperProps.
Open Scope moon_scope.
Open Scope Z_scope.

(** ** A concrete execution: an 8 GiB segment at address 2^40, scaled by 2^2. *)

Definition oa0 : OffsetAllocator := default (mkOA None 0 0 0 0 0) (create (2 ^ 40) (2 ^ 33) 2 16).

Definition alloc1 (size : Z) (w : WSys) : WSys :=
  match allocate size (w_oa w) with
  | Some (Some h, o') => mkWSys o' (h :: w_handles w)
  | _ => w
  end.

Definition alloc1_ok (size : Z) (w : WSys) : bool :=
  (0 <=? size) && (size + 2 ^ m_multiplier_bits (w_oa w) <=? 2 ^ 64) &&
  match allocate size (w_oa w) with Some (Some _, _) => true | _ => false end.

Lemma alloc1_step size w : alloc1_ok size w = true -> wstep w (alloc1 size w).
Proof.
  unfold alloc1_ok, alloc1. rewrite !andb_true_iff, !Z.leb_le. intros [[H1 H2] H3].
  destruct (allocate size (w_oa w)) as [[[h|] o']|] eqn:E; try done.
  exact (wstep_allocate w size (Some h) o' H1 H2 E).
Qed.

Definition w0 : WSys := mkWSys oa0 [].
Definition w1 : WSys := alloc1 1000 w0.
Definition demo : WSys := alloc1 5000 w1.

Lemma wrapper_demo_reachable : wreachable (2 ^ 40) (2 ^ 33) 2 16 demo.
Proof.
  exists oa0. split; [by vm_compute|]. apply (rtc_l _ _ w1); [|apply rtc_once]; apply alloc1_step; by vm_compute.
Qed.

(** Discharges the numeric hypotheses of the witnesses. *)
Ltac wnums := vm_compute; intuition discriminate.

(** C28: the byte ranges of the handles a client holds are non-empty, lie
    inside the segment and never overlap, for every sequence of allocations,
    destructions and move assignments and for segments of any 64-bit size that end
    within the address space, as long as each requested size plus the bin granularity 2^[m_multiplier_bits]
    is at most 2^64 (beyond it the rounding of the size wraps around). *)
Theorem wrapper_regions_disjoint base size ic mc w :
  0 < ic <= mc -> mc < 2 ^ 32 -> 0 <= size < 2 ^ 64 -> 0 <= base -> base + size <= 2 ^ 64 ->
  wreachable base size ic mc w ->
  (forall h, h ∈ w_handles w -> 0 < requested_size h /\ base <= real_base h /\
     real_base h + requested_size h <= base + size) /\
  (forall i j h1 h2, i <> j -> w_handles w !! i = Some h1 -> w_handles w !! j = Some h2 ->
     disjoint_bytes h1 h2).
Proof.
  intros H1 H2 H3 H4 H5 (HW & E1 & E2)%wreachable_WInv; try done.
  rewrite <- E1, <- E2. by apply WInv_regions.
Qed.

Lemma wrapper_regions_disjoint_witness : exists h1 h2,
  w_handles demo !! 0%nat = Some h1 /\ w_handles demo !! 1%nat = Some h2 /\ disjoint_bytes h1 h2.
Proof.
  do 2 eexists. split; [vm_compute; reflexivity|]. split; [vm_compute; reflexivity|].
  refine (proj2 (wrapper_regions_disjoint (2 ^ 40) (2 ^ 33) 2 16 demo _ _ _ _ _ wrapper_demo_reachable) 0%nat 1%nat _ _ _ _ _);
    wnums.
Defined.

(** in every reachable state each operation of the wrapper completes, and
    the lightweight metrics are exact: the number of live handles and the sum
    of their requested sizes, which stays within the capacity. *)
Theorem wrapper_metrics_exact base size ic mc w :
  0 < ic <= mc -> mc < 2 ^ 32 -> 0 <= size < 2 ^ 64 -> 0 <= base -> base + size <= 2 ^ 64 ->
  wreachable base size ic mc w ->
  m_allocated_num (w_oa w) = Z.of_nat (length (w_handles w)) /\
  m_allocated_size (w_oa w) = requested_total (w_handles w) /\
  0 <= m_allocated_size (w_oa w) <= size /\
  (forall n, 0 <= n -> n + 2 ^ m_multiplier_bits (w_oa w) <= 2 ^ 64 -> is_Some (allocate n (w_oa w))) /\
  (forall h, h ∈ w_handles w -> is_Some (handle_dtor h (w_oa w))).
Proof.
  intros H1 H2 H3 H4 H5 (HW & E1 & E2)%wreachable_WInv; try done. split_and!.
  1, 2: apply HW.
  1, 2: destruct HW as [(a & _ & HI & Hm) Hb _ Hc _ HF Hs _];
    pose proof (requested_bound (w_oa w) _ a HF Hb (proj1 Hc) HI Hm); lia.
  - intros n Hn Hov. destruct (WInv_allocate w n HW Hn Hov) as (r & o' & -> & _). by eexists.
  - intros h (v1 & v2 & Hv)%list_elem_of_split. destruct (WInv_free w h v1 v2 HW Hv) as (o' & -> & _). by eexists.
Qed.

Lemma wrapper_metrics_exact_witness : m_allocated_num (w_oa demo) = 2 /\ m_allocated_size (w_oa demo) = 6000.
Proof.
  destruct (wrapper_metrics_exact (2 ^ 40) (2 ^ 33) 2 16 demo) as (H1 & H2 & _);
    [wnums..|exact wrapper_demo_reachable|]. rewrite H1, H2. clear H1 H2. split; vm_compute; reflexivity.
Defined.

(** the scale is the smallest power of two that brings the segment within
    the largest bin, and the loop that computes it ends within 33 rounds for
    every 64-bit size. *)
Theorem calculateMultiplier_minimal size : 0 <= size < 2 ^ 64 ->
  exists b, calculateMultiplier size = Some b /\ 0 <= b <= 33 /\ Z.shiftr size b <= MAX_BIN_SIZE /\
    (forall c, 0 <= c < b -> MAX_BIN_SIZE < Z.shiftr size c).
Proof. apply calculateMultiplier_ok. Qed.

Lemma calculateMultiplier_minimal_witness : exists b, calculateMultiplier (2 ^ 40) = Some b /\ 0 <= b <= 33.
Proof. destruct (calculateMultiplier_minimal (2 ^ 40)) as (b & H1 & H2 & _); [lia|]. by exists b. Defined.

(** the size arithmetic of [OffsetAllocator::allocate] wraps for requests
    within one scale unit of 2^64: the scaled size becomes 0, and the 8 GiB
    segment "serves" a request for 2^64 - 1 bytes with an empty region. *)
Theorem oversized_request_accepted :
  (forall bits size, 0 < bits <= 33 -> 2 ^ 64 - 2 ^ bits < size < 2 ^ 64 -> fake_size bits size = 0) /\
  exists h o', allocate (2 ^ 64 - 1) oa0 = Some (Some h, o') /\
    requested_size h = 2 ^ 64 - 1 /\ m_capacity o' = 2 ^ 33.
Proof.
  split; [|do 2 eexists; split; [vm_compute; reflexivity|by vm_compute]].
  intros bits size Hb Hs. unfold fake_size. destruct (Z.ltb_spec 0 bits); [|lia].
  pose proof (Z.pow_le_mono_r 2 bits 33 ltac:(lia) ltac:(lia)). pose proof (Z.pow_le_mono_r 2 1 bits ltac:(lia) ltac:(lia)).
  rewrite Z.shiftl_1_l, (u64_small (2 ^ bits)) by lia.
  assert (E : u64 (u64 (size + 2 ^ bits) - 1) = size + 2 ^ bits - 1 - 2 ^ 64).
  { unfold u64. rewrite Zminus_mod_idemp_l. symmetry. apply Z.mod_unique with 1; lia. }
  rewrite E, Z.shiftr_div_pow2 by lia. apply Z.div_small. lia.
Qed.

End WrapperProps.
