(* ===== verification/Double.v ===== *)
(** * Double: the [double] arithmetic of the sources, binary64 of the Standard
    Library's [SpecFloat] (Module [Dbl]), and what scaling an integer by a
    factor above one gives (Module [DblFacts]). *)

From Stdlib Require Import ZArith SpecFloat Lia.
From stdpp Require Import tactics.
Open Scope Z_scope.
Open Scope bool_scope.

Module Dbl.
Definition prec : Z := 53.
Definition emax : Z := 1024.
Definition mul := SFmul prec emax.
Definition add := SFadd prec emax.
Definition sub := SFsub prec emax.
Definition div := SFdiv prec emax.
Definition ltb := SFltb.
Definition of_Z (z : Z) : spec_float := binary_normalize prec emax z 0 false.
Definition zero : spec_float := S754_zero false.
Definition one : spec_float := of_Z 1.
Definition half : spec_float := div (of_Z 1) (of_Z 2).

(** [std::max]: the first argument unless it is smaller. *)
Definition max (a b : spec_float) : spec_float := if ltb a b then b else a.

Definition ceil (x : spec_float) : spec_float :=
  match x with
  | S754_finite s m e =>
      if 0 <=? e then x
      else
        let v := if s then Zneg m else Zpos m in
        binary_normalize prec emax (- ((- v) / 2 ^ (- e))) 0 s
  | _ => x
  end.

(** Conversion to an integer type truncates; a value outside the range [lo, hi)
    of the type is undefined. *)
Definition trunc (lo hi : Z) (x : spec_float) : option Z :=
  match x with
  | S754_zero _ => Some 0
  | S754_finite s m e =>
      let a := if 0 <=? e then Zpos m * 2 ^ e else Zpos m / 2 ^ (- e) in
      let v := if s then - a else a in
      if (lo <=? v) && (v <? hi) then Some v else None
  | _ => None
  end.
Definition to_long : spec_float -> option Z := trunc (- 2 ^ 63) (2 ^ 63).
Definition to_u32 : spec_float -> option Z := trunc 0 (2 ^ 32).
Definition leb := SFleb.
End Dbl.

(** ** Products of integers with factors above one *)

Module DblFacts.
Import Dbl.

(** [m * 2 ^ e] is at least [n]. *)
Definition atleast (n m e : Z) : Prop := exists k, 0 <= k /\ 0 <= e + k /\ n * 2 ^ k <= m * 2 ^ (e + k).

Lemma atleast_up n m e : 0 <= e -> atleast n m e <-> n <= m * 2 ^ e.
Proof.
  intros He. split.
  - intros (k & Hk & _ & H). rewrite Z.pow_add_r, Z.mul_assoc in H by lia. apply Z.mul_le_mono_pos_r in H; [done|]. apply Z.pow_pos_nonneg; lia.
  - intros H. exists 0. rewrite Z.add_0_r. split; [lia|]. split; [lia|]. rewrite Z.pow_0_r. lia.
Qed.

Lemma atleast_down n m e : e <= 0 -> atleast n m e <-> n * 2 ^ (- e) <= m.
Proof.
  intros He. split.
  - intros (k & Hk & Hek & H). replace k with (- e + (e + k)) in H at 1 by lia. rewrite Z.pow_add_r, Z.mul_assoc in H by lia.
    apply Z.mul_le_mono_pos_r in H; [done|]. apply Z.pow_pos_nonneg; lia.
  - intros H. exists (- e). split; [lia|]. split; [lia|]. replace (e + - e) with 0 by lia. rewrite Z.pow_0_r. lia.
Qed.

Lemma atleast_pos n m e : 0 < n -> atleast n m e -> 0 < m.
Proof.
  intros Hn (k & Hk & Hek & H). assert (0 < 2 ^ k) by (apply Z.pow_pos_nonneg; lia). assert (0 < 2 ^ (e + k)) by (apply Z.pow_pos_nonneg; lia). nia.
Qed.

Lemma atleast_mono n m m' e : m <= m' -> atleast n m e -> atleast n m' e.
Proof. intros Hm (k & Hk & Hek & H). exists k. split; [done|]. split; [done|]. assert (0 <= 2 ^ (e + k)) by (apply Z.pow_nonneg; lia). nia. Qed.

Lemma atleast_mul n m e m' e' : 0 <= n -> atleast n m e -> atleast 1 m' e' -> atleast n (m * m') (e + e').
Proof.
  intros Hn (k & Hk & Hek & H) (k' & Hk' & Hek' & H'). exists (k + k'). split; [lia|]. split; [lia|].
  replace (e + e' + (k + k')) with ((e + k) + (e' + k')) by lia. rewrite !Z.pow_add_r by lia. rewrite Z.mul_1_l in H'.
  assert (0 <= 2 ^ k) by (apply Z.pow_nonneg; lia). assert (0 <= 2 ^ k') by (apply Z.pow_nonneg; lia).
  assert (Hle : (n * 2 ^ k) * 2 ^ k' <= (m * 2 ^ (e + k)) * (m' * 2 ^ (e' + k'))) by (apply Z.mul_le_mono_nonneg; nia). nia.
Qed.

(** The digits of a mantissa. *)
Lemma digits_lower p : 2 ^ (Zpos (digits2_pos p) - 1) <= Zpos p.
Proof.
  induction p as [p IH|p IH|]; cbn [digits2_pos]; [..|done];
    rewrite Pos2Z.inj_succ; replace (Z.succ (Zpos (digits2_pos p)) - 1) with (Z.succ (Zpos (digits2_pos p) - 1)) by lia;
    rewrite Z.pow_succ_r by lia; lia.
Qed.

(** Shifting right drops bits. *)
Lemma shr_1_m r : 0 <= shr_m r -> shr_m (shr_1 r) = shr_m r / 2.
Proof.
  destruct r as [m r s]. cbn. destruct m as [|[p|p|]|]; cbn; try done; intros _.
  - rewrite Pos2Z.inj_xI. apply (Z.div_unique _ 2 _ 1); lia.
  - rewrite Pos2Z.inj_xO, Z.mul_comm, Z.div_mul; lia.
Qed.

Lemma iter_shr_m p : forall r, 0 <= shr_m r -> shr_m (iter_pos shr_1 p r) = shr_m r / 2 ^ Zpos p.
Proof.
  assert (Hn : forall p r, 0 <= shr_m r -> 0 <= shr_m r / 2 ^ Zpos p) by (intros; apply Z.div_pos; [done|apply Z.pow_pos_nonneg; lia]).
  assert (twice : forall q, 2 ^ (2 * Zpos q) = 2 ^ Zpos q * 2 ^ Zpos q) by (intros q; rewrite <- Z.pow_add_r by lia; f_equal; lia).
  induction p as [p IH|p IH|]; intros r Hr; cbn [iter_pos].
  - assert (H1 : 0 <= shr_m (shr_1 r)) by (rewrite shr_1_m by done; apply Z.div_pos; lia).
    rewrite !IH, shr_1_m by (rewrite ?IH; auto). rewrite !Z.div_div by (try apply Z.pow_pos_nonneg; try apply Z.pow_nonzero; lia).
    f_equal. replace (Zpos p~1) with (Z.succ (2 * Zpos p)) by lia. by rewrite Z.pow_succ_r, twice by lia.
  - rewrite !IH by (rewrite ?IH; auto). rewrite Z.div_div by (try apply Z.pow_pos_nonneg; try apply Z.pow_nonzero; lia).
    f_equal. replace (Zpos p~0) with (2 * Zpos p) by lia. by rewrite twice.
  - by rewrite shr_1_m, Z.pow_1_r.
Qed.

(** Fitting a mantissa to the precision keeps a value of at least [n], if [n]
    has at most 53 bits. *)
Lemma shr_fexp_atleast n m e : 0 < n <= 2 ^ 52 -> atleast n m e ->
  atleast n (shr_m (shr_fexp prec emax m e loc_Exact).1) (shr_fexp prec emax m e loc_Exact).2.
Proof.
  intros Hn H. pose proof (atleast_pos n m e ltac:(lia) H) as Hm. unfold shr_fexp. cbn [shr_record_of_loc].
  set (d := fexp prec emax (Zdigits2 m + e) - e). unfold shr. destruct d as [|p|p] eqn:Ed; cbn [fst snd shr_m]; [done| |done].
  rewrite iter_shr_m by (cbn; lia). cbn [shr_m]. assert (Hd : fexp prec emax (Zdigits2 m + e) = e + Zpos p) by (fold d; lia).
  assert (Hp : 0 < 2 ^ Zpos p) by (apply Z.pow_pos_nonneg; lia).
  destruct (Z.leb_spec (e + Zpos p) 0) as [Hle|Hgt].
  - apply atleast_down in H; [|lia]. apply atleast_down; [done|]. apply Z.div_le_lower_bound; [done|].
    replace (- e) with (Zpos p + - (e + Zpos p)) in H by lia. rewrite Z.pow_add_r in H by lia. lia.
  - apply atleast_up; [lia|]. unfold fexp, emin, prec, emax in Hd. destruct m as [|q|q]; [lia| |lia]. cbn [Zdigits2] in Hd.
    assert (Hdig : Zpos p = Zpos (digits2_pos q) - 53) by lia. pose proof (digits_lower q) as Hq.
    assert (Hb : 2 ^ 52 <= Zpos q / 2 ^ Zpos p).
    { apply Z.div_le_lower_bound; [done|]. rewrite <- Z.pow_add_r by lia. replace (Zpos p + 52) with (Zpos (digits2_pos q) - 1) by lia. done. }
    assert (1 <= 2 ^ (e + Zpos p)) by (pose proof (Z.pow_pos_nonneg 2 (e + Zpos p)); lia). nia.
Qed.

(** A double of at least [n], or infinite. *)
Definition reaches (n : Z) (x : spec_float) : Prop :=
  match x with S754_finite false m e => atleast n (Zpos m) e | S754_infinity false => True | _ => False end.

Lemma round_reaches n m e : 0 < n <= 2 ^ 52 -> atleast n m e -> reaches n (binary_round_aux prec emax false m e loc_Exact).
Proof.
  intros Hn H. unfold binary_round_aux. pose proof (shr_fexp_atleast n m e Hn H) as H1.
  destruct (shr_fexp prec emax m e loc_Exact) as [r e1]. cbn [fst snd] in H1.
  set (m1 := round_nearest_even _ _). assert (H2 : atleast n m1 e1).
  { apply (atleast_mono n (shr_m r)); [|done]. unfold m1, round_nearest_even. destruct (loc_of_shr_record r) as [|[| |]]; try lia. destruct (Z.even _); lia. }
  pose proof (shr_fexp_atleast n m1 e1 Hn H2) as H3. destruct (shr_fexp prec emax m1 e1 loc_Exact) as [r2 e2]. cbn [fst snd] in H3.
  pose proof (atleast_pos n _ _ ltac:(lia) H3) as Hp. destruct (shr_m r2) as [|q|q]; [lia| |lia]. by destruct (_ <=? _).
Qed.

Lemma shl_align_value m e e' : exists k, 0 <= k /\ (shl_align m e e').2 = e - k /\ Zpos (shl_align m e e').1 = Zpos m * 2 ^ k.
Proof.
  unfold shl_align. destruct (e' - e) as [|d|d] eqn:Ed; cbn [fst snd]; [exists 0; lia..|]. exists (Zpos d). split; [lia|]. split; [lia|].
  clear. induction d as [|d IH] using Pos.peano_ind; [cbn; lia|]. rewrite Pos.iter_succ, Pos2Z.inj_xO, IH, Pos2Z.inj_succ, Z.pow_succ_r by lia. lia.
Qed.

Lemma of_Z_reaches n : 0 < n <= 2 ^ 52 -> reaches n (of_Z n).
Proof.
  intros Hn. unfold of_Z, binary_normalize. destruct n as [|m|m]; [lia| |lia]. unfold binary_round.
  destruct (shl_align_value m 0 (fexp prec emax (Zpos (digits2_pos m) + 0))) as (k & Hk & He & Hm). destruct (shl_align _ _ _) as [mz ez]. cbn [fst snd] in *.
  apply round_reaches; [done|]. rewrite Hm, He. apply atleast_down; [lia|]. replace (- (0 - k)) with k by lia. lia.
Qed.

(** A factor that is a double above one. *)
Lemma above_one f : valid_binary prec emax f = true -> leb f one = false -> reaches 1 f \/ f = S754_nan.
Proof.
  intros Hv Hl. change one with (S754_finite false 4503599627370496 (-52)) in Hl. unfold leb, SFleb, SFcompare in Hl.
  destruct f as [s|[|]| |[|] m e]; try discriminate Hl; [by left|by right|]. left. unfold reaches.
  unfold valid_binary, bounded in Hv. apply andb_prop in Hv as [Hv _]. unfold canonical_mantissa, fexp, emin, prec, emax in Hv. apply Z.eqb_eq in Hv.
  pose proof (digits_lower m) as Hd. destruct (Z.compare_spec e (-52)) as [->|Hlt|Hgt]; [|discriminate Hl|].
  - apply atleast_down; [lia|]. assert (Hc : forall a b, PosDef.Pos.compare_cont Eq a b = Pos.compare a b) by reflexivity. rewrite Hc in Hl.
    destruct (Pos.compare_spec m 4503599627370496); [discriminate Hl|discriminate Hl|]. change (- -52) with 52. lia.
  - assert (Hdig : Zpos (digits2_pos m) = 53) by lia. rewrite Hdig in Hd. exists 52. split; [lia|]. split; [lia|].
    assert (1 <= 2 ^ (e + 52)) by (pose proof (Z.pow_pos_nonneg 2 (e + 52)); lia). change (53 - 1) with 52 in Hd. nia.
Qed.

(** Scaling an integer by such a factor and truncating does not make it
    smaller. *)
Lemma trunc_mul_ge n f lo hi k : 0 < n <= 2 ^ 52 -> valid_binary prec emax f = true -> leb f one = false ->
  trunc lo hi (mul (of_Z n) f) = Some k -> n <= k.
Proof.
  intros Hn Hv Hl Ht. pose proof (of_Z_reaches n Hn) as Hx.
  assert (Hr : reaches n (mul (of_Z n) f) \/ mul (of_Z n) f = S754_nan).
  { destruct (above_one f Hv Hl) as [Hf| ->]; [left|right; by destruct (of_Z n)].
    destruct (of_Z n) as [|[|]| |[|] m e]; cbn in Hx; try done; destruct f as [|[|]| |[|] m' e']; cbn in Hf; try done.
    unfold mul, SFmul. cbn [xorb]. apply round_reaches; [done|]. rewrite Pos2Z.inj_mul. apply atleast_mul; [lia|done|done]. }
  destruct Hr as [Hr|Hr]; [|by rewrite Hr in Ht]. destruct (mul (of_Z n) f) as [|[|]| |[|] m e]; cbn in Hr; try done.
  unfold trunc in Ht. destruct (_ && _); [|done]. injection Ht as <-. destruct (Z.leb_spec 0 e).
  - apply atleast_up in Hr; [exact Hr|done].
  - apply atleast_down in Hr; [|lia]. apply Z.div_le_lower_bound; [apply Z.pow_pos_nonneg; lia|]. lia.
Qed.

End DblFacts.
