(* ===== verification/Slab.v ===== *)
(** * Slab: slabs, their headers and the slab allocator

    include/cachelib_memory_allocator/Slab.h and SlabAllocator.h,
    src/cachelib_memory_allocator/SlabAllocator.cpp.  Addresses are integers,
    0 is the null pointer.  The header memory is the list of the headers it
    holds.  Exceptions are answers; the state of the moment they are thrown
    stays.  The debug checks of the source ([XDCHECK]) are modelled as checks
    whose failure is undefined behaviour, so that a theorem that an operation
    is defined covers builds with and without them. *)

From Stdlib Require Import ZArith Lia.
From stdpp Require Import base list numbers.
From S2P Require Import Prelude Types.
Import Types.

Open Scope moon_scope.
Open Scope Z_scope.

Module Slab.

(** ** Exceptions *)

Inductive exn : Type :=
  | invalid_argument | runtime_error | logic_error | out_of_range | SlabReleaseAborted.

Definition Res (A : Type) : Type := (exn + A)%type.
Definition throw {S A} (e : exn) : ST S (Res A) := ret (inl e).
Definition done_ {S A} (a : A) : ST S (Res A) := ret (inr a).
Definition bindx {S A B} (c : ST S (Res A)) (k : A -> ST S (Res B)) : ST S (Res B) :=
  bind c (fun r => match r with inl e => ret (inl e) | inr a => k a end).

Notation "'try*' x ':=' c 'in' k" := (bindx c (fun x => k))
  (at level 10, x name, c at level 100, k at level 200) : moon_scope.

Definition xdcheck {S} (b : bool) : ST S unit := if b then ret tt else ub.

#[export] Instance exn_eq_dec : EqDecision exn.
Proof. solve_decision. Defined.

(** [int8_t], the type of pool and class ids. *)
Definition s8 (z : Z) : Z := (z + 128) mod 256 - 128.

(** ** Slab.h *)

Definition kInvalidClassId : Z := -1.
Definition kInvalidPoolId : Z := -1.
Definition kNumSlabBits : Z := 24.
Definition kMinAllocPower : Z := 6.
Definition kMinAllocSize : Z := Z.shiftl 1 kMinAllocPower.
Definition kSize : Z := Z.shiftl 1 kNumSlabBits.
Definition sizeof_SlabHeader : Z := 7.

Definition memoryAtOffset {S} (slab offset : Z) : ST S Z :=
  do* xdcheck (offset <? kSize) in ret (slab + offset).

Inductive SlabHeaderFlag : Type := IS_MARKED_FOR_RELEASE | IS_ADVISED.
Definition flag_bit (f : SlabHeaderFlag) : Z :=
  match f with IS_MARKED_FOR_RELEASE => 0 | IS_ADVISED => 1 end.

Record SlabHeader : Type := mkHeader {
  h_poolId : Z; h_classId : Z; h_flags : Z; h_allocSize : Z }.

(** The constructor [SlabHeader(PoolId)]. *)
Definition new_header (pid : Z) : SlabHeader := mkHeader pid kInvalidClassId 0 0.

Definition resetAllocInfo (h : SlabHeader) : SlabHeader :=
  mkHeader kInvalidPoolId kInvalidClassId (h_flags h) 0.

Definition setFlag (f : SlabHeaderFlag) (h : SlabHeader) : SlabHeader :=
  mkHeader (h_poolId h) (h_classId h) (Z.lor (h_flags h) (Z.shiftl 1 (flag_bit f))) (h_allocSize h).
Definition unSetFlag (f : SlabHeaderFlag) (h : SlabHeader) : SlabHeader :=
  mkHeader (h_poolId h) (h_classId h) (Z.land (h_flags h) (255 - Z.shiftl 1 (flag_bit f))) (h_allocSize h).
Definition isFlagSet (f : SlabHeaderFlag) (h : SlabHeader) : bool :=
  negb (Z.land (h_flags h) (Z.shiftl 1 (flag_bit f)) =? 0).

Definition isAdvised (h : SlabHeader) : bool := isFlagSet IS_ADVISED h.
Definition isMarkedForRelease (h : SlabHeader) : bool := isFlagSet IS_MARKED_FOR_RELEASE h.
Definition setAdvised (value : bool) (h : SlabHeader) : SlabHeader :=
  if value then setFlag IS_ADVISED h else unSetFlag IS_ADVISED h.
Definition setMarkedForRelease (value : bool) (h : SlabHeader) : SlabHeader :=
  if value then setFlag IS_MARKED_FOR_RELEASE h else unSetFlag IS_MARKED_FOR_RELEASE h.

(** The two assignments with which a class takes or gives up a slab. *)
Definition set_class (c size : Z) (h : SlabHeader) : SlabHeader := mkHeader (h_poolId h) c (h_flags h) size.

Inductive SlabReleaseMode : Type := kResize | kRebalance.

#[export] Instance SlabReleaseMode_eq_dec : EqDecision SlabReleaseMode.
Proof. solve_decision. Defined.

Record SlabReleaseContext : Type := mkCtx {
  ctx_slab : Z; ctx_pid : Z; ctx_victim : Z; activeAllocations_ : list Z; ctx_receiver : Z;
  ctx_mode : SlabReleaseMode }.

Definition isReleased (c : SlabReleaseContext) : bool := bool_decide (activeAllocations_ c = []).
Definition setReceiver (receiver : Z) (c : SlabReleaseContext) : SlabReleaseContext :=
  mkCtx (ctx_slab c) (ctx_pid c) (ctx_victim c) (activeAllocations_ c) receiver (ctx_mode c).

(** ** SlabAllocator *)

Record SlabAllocator : Type := mkSA {
  memoryPoolSize_ : list Z;
  sa_freeSlabs : list Z;
  headers : list SlabHeader;
  slabMemoryStart_ : Z;
  slabMemorySize_ : Z;
  nextSlabAllocation_ : Z;
  sa_canAllocate : bool;
}.

Definition set_pool_sizes v a := mkSA v (sa_freeSlabs a) (headers a) (slabMemoryStart_ a)
  (slabMemorySize_ a) (nextSlabAllocation_ a) (sa_canAllocate a).
Definition set_sa_free v a := mkSA (memoryPoolSize_ a) v (headers a) (slabMemoryStart_ a)
  (slabMemorySize_ a) (nextSlabAllocation_ a) (sa_canAllocate a).
Definition set_headers v a := mkSA (memoryPoolSize_ a) (sa_freeSlabs a) v (slabMemoryStart_ a)
  (slabMemorySize_ a) (nextSlabAllocation_ a) (sa_canAllocate a).
Definition set_next v a := mkSA (memoryPoolSize_ a) (sa_freeSlabs a) (headers a) (slabMemoryStart_ a)
  (slabMemorySize_ a) v (sa_canAllocate a).
Definition set_sa_can v a := mkSA (memoryPoolSize_ a) (sa_freeSlabs a) (headers a) (slabMemoryStart_ a)
  (slabMemorySize_ a) (nextSlabAllocation_ a) v.

Definition numSlabs (memorySize : Z) : Z := u32 (memorySize / kSize).

(** The constructor.  [header] is what the header memory holds ([None] for a
    null pointer), [headerMemorySize] its size in bytes. *)
Definition SlabAllocator_new (header : option (list SlabHeader))
    (headerMemorySize slabMemoryStart slabMemorySize : Z) : Res SlabAllocator :=
  match header with
  | None => inl invalid_argument
  | Some hs =>
      if headerMemorySize <=? u64 (sizeof_SlabHeader * numSlabs slabMemorySize) then inl invalid_argument
      else if (slabMemoryStart =? 0) || negb (slabMemoryStart mod kSize =? 0) then inl invalid_argument
      else if negb (slabMemorySize mod kSize =? 0) then inl invalid_argument
      else inr (mkSA (replicate 127 0) [] hs slabMemoryStart slabMemorySize slabMemoryStart true)
  end.

Definition getSlabMemoryEnd (a : SlabAllocator) : Z := u64 (slabMemoryStart_ a + slabMemorySize_ a).
Definition getNumUsableSlabs (a : SlabAllocator) : Z :=
  u32 ((getSlabMemoryEnd a - slabMemoryStart_ a) / kSize).
Definition allMemorySlabbed (a : SlabAllocator) : bool := nextSlabAllocation_ a =? getSlabMemoryEnd a.
Definition allSlabsAllocated (a : SlabAllocator) : bool :=
  allMemorySlabbed a && bool_decide (sa_freeSlabs a = []).

Definition kAddressMask : Z := 2 ^ 64 - 1 - Z.shiftl 1 kNumSlabBits + 1.
Definition getSlabForMemory (memory : Z) : Z := Z.land memory kAddressMask.

Definition isValidSlab (a : SlabAllocator) (slab : Z) : bool :=
  (slabMemoryStart_ a <=? slab) && (slab <? nextSlabAllocation_ a) && (getSlabForMemory slab =? slab).

Definition kNullSlabIdx : Z := 2 ^ 32 - 1.
Definition slabIdx (a : SlabAllocator) (slab : Z) : Z :=
  if slab =? 0 then kNullSlabIdx else u32 ((slab - slabMemoryStart_ a) / kSize).
Definition getSlabForIdx (a : SlabAllocator) (idx : Z) : Z :=
  if idx =? kNullSlabIdx then 0 else slabMemoryStart_ a + idx * kSize.

(** The pointer to a header is its index; [None] is the null pointer. *)
Definition getSlabHeader (a : SlabAllocator) (slab : Z) : option Z :=
  if isValidSlab a slab then Some (slabIdx a slab) else None.
Definition getSlabHeader_mem (a : SlabAllocator) (memory : Z) : option Z :=
  let slab := getSlabForMemory memory in
  if isValidSlab a slab then Some (u32 ((slab - slabMemoryStart_ a) / kSize)) else None.

Definition isMemoryInSlab (a : SlabAllocator) (ptr slab : Z) : bool :=
  if isValidSlab a slab then getSlabForMemory ptr =? slab else false.

(** Reading and writing through a header pointer. *)
Definition read_header (p : option Z) : ST SlabAllocator SlabHeader := fun a =>
  match p with
  | Some i => match aget (headers a) i with Some h => Some (h, a) | None => None end
  | None => None
  end.
Definition write_header (p : option Z) (f : SlabHeader -> SlabHeader) : ST SlabAllocator unit := fun a =>
  match p with
  | Some i =>
      match aget (headers a) i with
      | Some h => Some (tt, set_headers (aput (headers a) i (f h)) a)
      | None => None
      end
  | None => None
  end.

Definition makeNewSlabImpl : ST SlabAllocator Z :=
  let* can := gets sa_canAllocate in
  if negb can then ret 0
  else
    let* fs := gets sa_freeSlabs in
    match list.last fs with
    | Some slab => do* modify (set_sa_free (removelast fs)) in ret slab
    | None =>
        let* next := gets nextSlabAllocation_ in
        do* xdcheck (next mod kSize =? 0) in
        let* full := gets allMemorySlabbed in
        if full then do* modify (set_sa_can false) in ret 0
        else do* modify (set_next (u64 (next + kSize))) in ret next
    end.

Definition initializeHeader (slab id : Z) : ST SlabAllocator unit :=
  let* a := gets (fun a => a) in
  write_header (getSlabHeader a slab) (fun _ => new_header id).

(** [memoryPoolSize_[id] += bytes], for a negative number of bytes too. *)
Definition add_pool_size (id bytes : Z) : ST SlabAllocator unit :=
  let* v := gets memoryPoolSize_ in
  let* n := lift (aget v id) in
  modify (set_pool_sizes (aput v id (u64 (n + bytes)))).

Definition makeNewSlab (id : Z) : ST SlabAllocator Z :=
  let* slab := makeNewSlabImpl in
  if slab =? 0 then ret 0
  else
    do* add_pool_size id kSize in
    do* initializeHeader slab id in
    ret slab.

Definition freeSlab (slab : Z) : ST SlabAllocator (Res unit) :=
  let* a := gets (fun a => a) in
  let header := getSlabHeader a slab in
  do* xdcheck (bool_decide (header <> None)) in
  match header with
  | None => throw runtime_error
  | Some _ =>
      let* h := read_header header in
      do* add_pool_size (h_poolId h) (- kSize) in
      let* fs := gets sa_freeSlabs in
      do* modify (set_sa_free (fs ++ [slab])) in
      do* modify (set_sa_can true) in
      do* write_header header resetAllocInfo in
      done_ tt
  end.

End Slab.
