(* ===== verification/SlabClass.v ===== *)
(** * SlabClass: allocation classes

    src/cachelib_memory_allocator/AllocationClass.cpp and its header.  A class
    carves slabs into chunks of one size.  Every member function is here; the
    functions of a class run on the class and on the slab allocator it refers
    to, whose headers it writes. *)

From Stdlib Require Import ZArith Lia.
From stdpp Require Import base list gmap numbers.
From S2P Require Import Prelude Types Slab.
Import Types Slab.

Open Scope moon_scope.
Open Scope Z_scope.

Module SlabClass.

Record AllocationClass : Type := mkAC {
  ac_classId : Z;
  ac_poolId : Z;
  allocationSize_ : Z;
  currOffset_ : Z;
  currSlab_ : Z;
  allocatedSlabs_ : list Z;
  ac_freeSlabs : list Z;
  freedAllocations_ : list Z;
  ac_canAllocate : bool;
  activeReleases_ : Z;
  slabReleaseAllocMap_ : gmap Z (list bool);
}.

Definition set_curr slab off ac := mkAC (ac_classId ac) (ac_poolId ac) (allocationSize_ ac) off slab
  (allocatedSlabs_ ac) (ac_freeSlabs ac) (freedAllocations_ ac) (ac_canAllocate ac) (activeReleases_ ac)
  (slabReleaseAllocMap_ ac).
Definition set_allocated v ac := mkAC (ac_classId ac) (ac_poolId ac) (allocationSize_ ac) (currOffset_ ac)
  (currSlab_ ac) v (ac_freeSlabs ac) (freedAllocations_ ac) (ac_canAllocate ac) (activeReleases_ ac)
  (slabReleaseAllocMap_ ac).
Definition set_ac_free v ac := mkAC (ac_classId ac) (ac_poolId ac) (allocationSize_ ac) (currOffset_ ac)
  (currSlab_ ac) (allocatedSlabs_ ac) v (freedAllocations_ ac) (ac_canAllocate ac) (activeReleases_ ac)
  (slabReleaseAllocMap_ ac).
Definition set_freed v ac := mkAC (ac_classId ac) (ac_poolId ac) (allocationSize_ ac) (currOffset_ ac)
  (currSlab_ ac) (allocatedSlabs_ ac) (ac_freeSlabs ac) v (ac_canAllocate ac) (activeReleases_ ac)
  (slabReleaseAllocMap_ ac).
Definition set_ac_can v ac := mkAC (ac_classId ac) (ac_poolId ac) (allocationSize_ ac) (currOffset_ ac)
  (currSlab_ ac) (allocatedSlabs_ ac) (ac_freeSlabs ac) (freedAllocations_ ac) v (activeReleases_ ac)
  (slabReleaseAllocMap_ ac).
Definition set_active v ac := mkAC (ac_classId ac) (ac_poolId ac) (allocationSize_ ac) (currOffset_ ac)
  (currSlab_ ac) (allocatedSlabs_ ac) (ac_freeSlabs ac) (freedAllocations_ ac) (ac_canAllocate ac) v
  (slabReleaseAllocMap_ ac).
Definition set_map v ac := mkAC (ac_classId ac) (ac_poolId ac) (allocationSize_ ac) (currOffset_ ac)
  (currSlab_ ac) (allocatedSlabs_ ac) (ac_freeSlabs ac) (freedAllocations_ ac) (ac_canAllocate ac)
  (activeReleases_ ac) v.

(** A class and the slab allocator it refers to. *)
Record CS : Type := mkCS { cs_sa : SlabAllocator; cs_ac : AllocationClass }.

Definition on_sa {A} (c : ST SlabAllocator A) : ST CS A := fun w =>
  match c (cs_sa w) with Some (r, sa) => Some (r, mkCS sa (cs_ac w)) | None => None end.
Definition upd_ac (f : AllocationClass -> AllocationClass) : ST CS unit :=
  modify (fun w => mkCS (cs_sa w) (f (cs_ac w))).
Definition ac_ {A} (f : AllocationClass -> A) : ST CS A := gets (fun w => f (cs_ac w)).
Definition sa_ {A} (f : SlabAllocator -> A) : ST CS A := gets (fun w => f (cs_sa w)).

(** ** Construction *)

Definition ac_checkState (sa : SlabAllocator) (ac : AllocationClass) : option (Res unit) :=
  if ac_classId ac <? 0 then Some (inl invalid_argument)
  else if kSize <? allocationSize_ ac then Some (inl invalid_argument)
  else
    let header := getSlabHeader sa (currSlab_ ac) in
    if negb (currSlab_ ac =? 0) && bool_decide (header = None) then Some (inl invalid_argument)
    else
      let in_slabs := if negb (currSlab_ ac =? 0) && negb (bool_decide (currSlab_ ac ∈ allocatedSlabs_ ac))
                      then inl invalid_argument else inr tt in
      match header with
      | None => Some in_slabs
      | Some i =>
          match aget (headers sa) i with
          | None => None
          | Some h => Some (if negb (h_classId h =? ac_classId ac) then inl invalid_argument else in_slabs)
          end
      end.

Definition AllocationClass_new (sa : SlabAllocator) (classId poolId allocSize : Z) : option (Res AllocationClass) :=
  let ac := mkAC classId poolId allocSize 0 0 [] [] [] true 0 ∅ in
  match ac_checkState sa ac with
  | Some (inr _) => Some (inr ac)
  | Some (inl e) => Some (inl e)
  | None => None
  end.

Definition getAllocsPerSlab (ac : AllocationClass) : Z := u32 (kSize / allocationSize_ ac).
Definition ac_isFull (ac : AllocationClass) : bool := negb (ac_canAllocate ac).

(** ** Allocation *)

Definition addSlabLocked (slab : Z) : ST CS unit :=
  do* upd_ac (set_ac_can true) in
  let* header := sa_ (fun sa => getSlabHeader sa slab) in
  let* ac := ac_ (fun ac => ac) in
  do* on_sa (write_header header (set_class (ac_classId ac) (allocationSize_ ac))) in
  upd_ac (fun ac => set_ac_free (ac_freeSlabs ac ++ [slab]) ac).

Definition addSlab (slab : Z) : ST CS unit :=
  do* xdcheck (negb (slab =? 0)) in addSlabLocked slab.

Definition canAllocateFromCurrentSlabLocked (ac : AllocationClass) : bool :=
  negb (currSlab_ ac =? 0) && (u32 (currOffset_ ac + allocationSize_ ac) <=? kSize).

Definition allocateFromCurrentSlabLocked : ST CS Z :=
  let* ac := ac_ (fun ac => ac) in
  do* xdcheck (canAllocateFromCurrentSlabLocked ac) in
  let* r := memoryAtOffset (currSlab_ ac) (currOffset_ ac) in
  do* upd_ac (set_curr (currSlab_ ac) (u32 (currOffset_ ac + allocationSize_ ac))) in
  ret r.

Definition setupCurrentSlabLocked : ST CS unit :=
  let* fs := ac_ ac_freeSlabs in
  let* slab := lift (list.last fs) in
  do* upd_ac (set_ac_free (removelast fs)) in
  do* upd_ac (set_curr slab 0) in
  upd_ac (fun ac => set_allocated (allocatedSlabs_ ac ++ [slab]) ac).

Definition allocateLocked : ST CS Z :=
  let* ac := ac_ (fun ac => ac) in
  if bool_decide (freedAllocations_ ac = []) && bool_decide (ac_freeSlabs ac = []) &&
     negb (canAllocateFromCurrentSlabLocked ac)
  then do* upd_ac (set_ac_can false) in ret 0
  else
    do* xdcheck (ac_canAllocate ac) in
    match freedAllocations_ ac with
    | r :: rest =>
        do* xdcheck (negb (r =? 0)) in
        do* upd_ac (set_freed rest) in
        ret r
    | [] =>
        if canAllocateFromCurrentSlabLocked ac then allocateFromCurrentSlabLocked
        else do* setupCurrentSlabLocked in allocateFromCurrentSlabLocked
    end.

Definition ac_allocate : ST CS Z :=
  let* can := ac_ ac_canAllocate in
  if negb can then ret 0 else allocateLocked.

Definition addSlabAndAllocate (slab : Z) : ST CS Z :=
  do* xdcheck (negb (slab =? 0)) in
  do* addSlabLocked slab in allocateLocked.

(** ** Chunks of a slab *)

Definition getAllocForIdx (slab idx : Z) : ST CS (Res Z) :=
  let* ac := ac_ (fun ac => ac) in
  if getAllocsPerSlab ac <=? idx then throw invalid_argument
  else let* p := memoryAtOffset slab (idx * allocationSize_ ac) in done_ p.

(** The offset is a [size_t]; the first argument of [memoryAtOffset] is
    constant, so its check always holds. *)
Definition getAllocIdx (slab alloc : Z) : ST CS Z :=
  let* size := ac_ allocationSize_ in
  let offset := u64 (alloc - slab) in
  do* xdcheck (offset mod size =? 0) in
  do* xdcheck (offset <? kSize) in
  ret (offset / size).

(** ** Freeing *)

Definition ac_free (memory : Z) : ST CS (Res unit) :=
  let* header := sa_ (fun sa => getSlabHeader_mem sa memory) in
  let slab := getSlabForMemory memory in
  match header with
  | None => throw invalid_argument
  | Some _ =>
      let* h := on_sa (read_header header) in
      let* ac := ac_ (fun ac => ac) in
      if negb (h_classId h =? ac_classId ac) then throw invalid_argument
      else if isMarkedForRelease h then
        match slabReleaseAllocMap_ ac !! slab with
        | None => throw runtime_error
        | Some allocState =>
            let* idx := getAllocIdx slab memory in
            let* freed := lift (aget allocState idx) in
            if (freed : bool) then throw invalid_argument
            else
              do* upd_ac (set_map (<[slab := aput allocState idx true]> (slabReleaseAllocMap_ ac))) in
              done_ tt
        end
      else
        do* upd_ac (fun ac => set_freed (memory :: freedAllocations_ ac) ac) in
        do* upd_ac (set_ac_can true) in
        done_ tt
  end.

(** ** Releasing a slab *)

(** [rnd] is the draw of the random engine. *)
Definition getSlabForReleaseLocked (rnd : Z) (ac : AllocationClass) : option Z :=
  match ac_freeSlabs ac with
  | slab :: _ => Some slab
  | [] =>
      match allocatedSlabs_ ac with
      | [] => Some 0
      | _ :: _ => aget (allocatedSlabs_ ac) (rnd mod Z.of_nat (length (allocatedSlabs_ ac)))
      end
  end.

Definition createSlabReleaseAllocMapLocked (slab : Z) : ST CS (Res unit) :=
  let* ac := ac_ (fun ac => ac) in
  match slabReleaseAllocMap_ ac !! slab with
  | Some _ => throw runtime_error
  | None =>
      do* upd_ac (set_map (<[slab := replicate (Z.to_nat (getAllocsPerSlab ac)) false]>
                            (slabReleaseAllocMap_ ac))) in
      done_ tt
  end.

Definition getSlabReleaseAllocMapLocked (slab : Z) : ST CS (Res (list bool)) :=
  let* m := ac_ slabReleaseAllocMap_ in
  match m !! slab with Some bits => done_ bits | None => throw out_of_range end.

(** [*it = v.back(); v.pop_back();] at the first position of [x]; [None] when
    [x] is not there. *)
Fixpoint replace_first (x y : Z) (l : list Z) : option (list Z) :=
  match l with
  | [] => None
  | z :: l' =>
      if z =? x then Some (y :: l')
      else match replace_first x y l' with Some l'' => Some (z :: l'') | None => None end
  end.
Definition swap_remove (x : Z) (l : list Z) : option (list Z) :=
  match list.last l with
  | Some y => match replace_first x y l with Some l' => Some (removelast l') | None => None end
  | None => None
  end.

Definition kFreeAllocsPruneLimit : nat := 4096.

(** The three lists of [pruneFreeAllocs]. *)
Record Prune : Type := mkPrune { pr_freeAllocs : list Z; pr_inSlab : list Z; pr_notInSlab : list Z }.

Fixpoint partitionFreeAllocs (n : nat) (sa : SlabAllocator) (slab : Z) (p : Prune) : Prune :=
  match n, pr_freeAllocs p with
  | S n', alloc :: rest =>
      partitionFreeAllocs n' sa slab
        (if isMemoryInSlab sa alloc slab
         then mkPrune rest (alloc :: pr_inSlab p) (pr_notInSlab p)
         else mkPrune rest (pr_inSlab p) (alloc :: pr_notInSlab p))
  | _, _ => p
  end.

#[global] Arguments partitionFreeAllocs : simpl never.

(** Marks the chunks in [inSlab] as freed. *)
Fixpoint mark_freed (slab : Z) (inSlab : list Z) : ST CS (Res unit) :=
  match inSlab with
  | [] => done_ tt
  | alloc :: rest =>
      do* (let* sa := sa_ (fun sa => sa) in xdcheck (isMemoryInSlab sa alloc slab)) in
      let* idx := getAllocIdx slab alloc in
      try* allocState := getSlabReleaseAllocMapLocked slab in
      let* _b := lift (aget allocState idx) in
      do* upd_ac (fun ac => set_map (<[slab := aput allocState idx true]> (slabReleaseAllocMap_ ac)) ac) in
      mark_freed slab rest
  end.

(** The part of the loop of [pruneFreeAllocs] that holds the lock. *)
Definition prune_locked (slab : Z) (p : Prune) : ST CS (Res Prune) :=
  do* (match pr_notInSlab p with
       | [] => ret tt
       | _ :: _ =>
           do* upd_ac (fun ac => set_freed (pr_notInSlab p ++ freedAllocations_ ac) ac) in
           upd_ac (set_ac_can true)
       end) in
  try* _u := getSlabReleaseAllocMapLocked slab in
  try* _u := mark_freed slab (pr_inSlab p) in
  done_ (mkPrune (pr_freeAllocs p) [] []).

(** The loop of [pruneFreeAllocs]: [shouldAbort i] is the [i]-th answer of
    [shouldAbortFn], [fuel] bounds the batches.  The answer is whether to
    abort, and the lists at that moment. *)
Fixpoint prune_loop (fuel : nat) (i : nat) (shouldAbort : nat -> bool) (slab : Z) (p : Prune) :
    ST CS (Res (bool * Prune)) :=
  match fuel with
  | O => ub
  | S fuel' =>
      if shouldAbort i then done_ (true, p)
      else
        try* p' := prune_locked slab p in
        match pr_freeAllocs p' with
        | [] => done_ (false, p')
        | _ :: _ =>
            let* sa := sa_ (fun sa => sa) in
            prune_loop fuel' (S i) shouldAbort slab (partitionFreeAllocs kFreeAllocsPruneLimit sa slab p')
        end
  end.

(** The chunks whose bit is clear. *)
Fixpoint active_from (slab offset size : Z) (bits : list bool) : ST CS (list Z) :=
  match bits with
  | [] => ret []
  | freed :: bits' =>
      if (freed : bool) then active_from slab (offset + size) size bits'
      else
        let* p := memoryAtOffset slab offset in
        let* l := active_from slab (offset + size) size bits' in
        ret (p :: l)
  end.

(** The scopes of [pruneFreeAllocs] that hold the lock: taking the free list
    offline, putting everything back, collecting the active chunks. *)
Definition prune_begin (slab : Z) : ST CS Prune :=
  let* freed := ac_ freedAllocations_ in
  do* upd_ac (set_freed []) in
  let* sa := sa_ (fun sa => sa) in
  ret (partitionFreeAllocs kFreeAllocsPruneLimit sa slab (mkPrune freed [] [])).

Definition prune_undo (p : Prune) : ST CS unit :=
  upd_ac (fun ac => set_freed (pr_inSlab p ++ pr_notInSlab p ++ pr_freeAllocs p ++ freedAllocations_ ac) ac).

Definition prune_collect (slab : Z) : ST CS (Res (list Z)) :=
  try* bits := getSlabReleaseAllocMapLocked slab in
  let* size := ac_ allocationSize_ in
  let* active := active_from slab 0 size bits in
  done_ active.

Definition pruneFreeAllocs (shouldAbort : nat -> bool) (slab : Z) : ST CS (Res (bool * list Z)) :=
  let* n := ac_ (fun ac => length (freedAllocations_ ac)) in
  let* p := prune_begin slab in
  try* r := prune_loop (S n) 0 shouldAbort slab p in
  if (fst r : bool) then do* prune_undo (snd r) in done_ (true, [])
  else try* active := prune_collect slab in done_ (false, active).

(** [allocState[i] = true] from the first chunk not carved yet. *)
Definition free_uncarved (k : Z) (bits : list bool) : list bool :=
  take (Z.to_nat k) bits ++ replicate (length bits - Z.to_nat k) true.

(** What [startSlabRelease] does to a class under its lock: it picks a slab
    and either takes it from the free slabs, or marks it for release.  The
    answer is the slab, its header and whether it was a free slab. *)
Definition pick_slab (rnd hint : Z) : ST CS (Res (Z * option Z * bool)) :=
  let* ac := ac_ (fun ac => ac) in
  let* slab := lift (if hint =? 0 then getSlabForReleaseLocked rnd ac else Some (getSlabForMemory hint)) in
  if slab =? 0 then throw invalid_argument
  else
    let* header := sa_ (fun sa => getSlabHeader sa slab) in
    match header with
    | None => throw invalid_argument
    | Some _ =>
        let* h := on_sa (read_header header) in
        if negb (h_classId h =? ac_classId ac) || negb (h_poolId h =? ac_poolId ac) || isMarkedForRelease h
        then throw invalid_argument
        else
          match swap_remove slab (ac_freeSlabs ac) with
          | Some fs =>
              do* upd_ac (set_ac_free fs) in
              do* on_sa (write_header header (set_class kInvalidClassId 0)) in
              done_ (slab, header, true)
          | None =>
              do* on_sa (write_header header (setMarkedForRelease true)) in
              try* _u := createSlabReleaseAllocMapLocked slab in
              match swap_remove slab (allocatedSlabs_ ac) with
              | None => throw runtime_error
              | Some slabs =>
                  do* upd_ac (set_allocated slabs) in
                  if currSlab_ ac =? slab then
                    try* bits := getSlabReleaseAllocMapLocked slab in
                    do* xdcheck (Z.of_nat (length bits) =? getAllocsPerSlab ac) in
                    do* upd_ac (fun ac => set_map
                          (<[slab := free_uncarved (currOffset_ ac / allocationSize_ ac) bits]>
                             (slabReleaseAllocMap_ ac)) ac) in
                    do* upd_ac (set_curr 0 0) in
                    done_ (slab, header, false)
                  else done_ (slab, header, false)
              end
          end
    end.

(** The context of a slab, with its pool and class read from the header. *)
Definition context (slab : Z) (header : option Z) (active : list Z) (mode : SlabReleaseMode) : ST CS SlabReleaseContext :=
  let* h := on_sa (read_header header) in
  ret (mkCtx slab (h_poolId h) (h_classId h) active kInvalidClassId mode).

(** The last scope of [startSlabRelease]: the release is aborted, or the slab
    is given up, or it waits for its active chunks. *)
Definition release_aborted (slab : Z) (header : option Z) : ST CS unit :=
  do* on_sa (write_header header (setMarkedForRelease false)) in
  upd_ac (fun ac => set_map (delete slab (slabReleaseAllocMap_ ac)) ac).

Definition release_pruned (slab : Z) (header : option Z) (active : list Z) (mode : SlabReleaseMode) :
    ST CS SlabReleaseContext :=
  match active with
  | [] =>
      do* on_sa (write_header header (fun h => setMarkedForRelease false (set_class kInvalidClassId 0 h))) in
      do* upd_ac (fun ac => set_map (delete slab (slabReleaseAllocMap_ ac)) ac) in
      context slab header [] mode
  | _ :: _ =>
      do* upd_ac (fun ac => set_active (activeReleases_ ac + 1) ac) in
      context slab header active mode
  end.

Definition ac_startSlabRelease (shouldAbort : nat -> bool) (rnd : Z) (mode : SlabReleaseMode) (hint : Z) :
    ST CS (Res SlabReleaseContext) :=
  let* valid := sa_ (fun sa => isValidSlab sa (getSlabForMemory hint)) in
  if negb (hint =? 0) && negb valid then throw invalid_argument
  else
    try* picked := pick_slab rnd hint in
    match picked with
    | (slab, header, true) => let* c := context slab header [] mode in done_ c
    | (slab, header, false) =>
        try* results := pruneFreeAllocs shouldAbort slab in
        if (fst results : bool) then do* release_aborted slab header in throw SlabReleaseAborted
        else let* c := release_pruned slab header (snd results) mode in done_ c
    end.

Definition allFreed (slab : Z) : ST CS (Res bool) :=
  let* m := ac_ slabReleaseAllocMap_ in
  match m !! slab with
  | None => throw runtime_error
  | Some bits => done_ (forallb (fun b => b) bits)
  end.

(** Pushes the chunks whose bit is set to the front of the free list, from
    index [idx] on; the answer tells whether there was one. *)
Fixpoint push_freed (slab idx : Z) (bits : list bool) : ST CS (Res bool) :=
  match bits with
  | [] => done_ false
  | b :: bits' =>
      if (b : bool) then
        try* alloc := getAllocForIdx slab idx in
        do* upd_ac (fun ac => set_freed (alloc :: freedAllocations_ ac) ac) in
        try* _i := push_freed slab (idx + 1) bits' in
        done_ true
      else push_freed slab (idx + 1) bits'
  end.

Definition ac_abortSlabRelease (ctx : SlabReleaseContext) : ST CS (Res unit) :=
  if isReleased ctx then throw invalid_argument
  else
    let slab := ctx_slab ctx in
    let* header := sa_ (fun sa => getSlabHeader sa slab) in
    let* m := ac_ slabReleaseAllocMap_ in
    try* inserted := match m !! slab with
                     | Some bits => push_freed slab 0 bits
                     | None => done_ false
                     end in
    do* when inserted (upd_ac (set_ac_can true)) in
    do* upd_ac (fun ac => set_map (delete slab (slabReleaseAllocMap_ ac)) ac) in
    do* upd_ac (fun ac => set_allocated (allocatedSlabs_ ac ++ [slab]) ac) in
    let* ac := ac_ (fun ac => ac) in
    do* on_sa (write_header header
          (fun h => setMarkedForRelease false (set_class (ac_classId ac) (allocationSize_ ac) h))) in
    do* upd_ac (fun ac => set_active (activeReleases_ ac - 1) ac) in
    done_ tt.

(** Completing a release waits for the chunks of the slab; [Waiting] is a call
    that has not returned yet. *)
Inductive Wait : Type := Waiting | Completed.

Definition ac_completeSlabRelease (ctx : SlabReleaseContext) : ST CS (Res Wait) :=
  if isReleased ctx then done_ Completed
  else
    let slab := ctx_slab ctx in
    let* header := sa_ (fun sa => getSlabHeader sa slab) in
    match header with
    | None => throw runtime_error
    | Some _ =>
        let* h := on_sa (read_header header) in
        let* ac := ac_ (fun ac => ac) in
        if negb (h_classId h =? ac_classId ac) || negb (isMarkedForRelease h) then throw runtime_error
        else
          try* all := allFreed slab in
          if negb all then done_ Waiting
          else
            do* upd_ac (fun ac => set_map (delete slab (slabReleaseAllocMap_ ac)) ac) in
            do* on_sa (write_header header (fun h => setMarkedForRelease false (set_class kInvalidClassId 0 h))) in
            do* upd_ac (fun ac => set_active (activeReleases_ ac - 1) ac) in
            let* n := ac_ activeReleases_ in
            do* xdcheck (0 <=? n) in
            done_ Completed
    end.

(** ** Queries during a release *)

Definition checkSlabInRelease (ctx : SlabReleaseContext) (memory : Z) : ST CS (Res unit) :=
  let* header := sa_ (fun sa => getSlabHeader_mem sa memory) in
  match header with
  | None => throw invalid_argument
  | Some _ =>
      let* h := on_sa (read_header header) in
      let* classId := ac_ ac_classId in
      if negb (h_classId h =? classId) then throw invalid_argument
      else if negb (isMarkedForRelease h) then throw invalid_argument
      else if negb (getSlabForMemory memory =? ctx_slab ctx) then throw invalid_argument
      else done_ tt
  end.

Definition isAllocFreedLocked (memory : Z) : ST CS (Res bool) :=
  let slab := getSlabForMemory memory in
  let* m := ac_ slabReleaseAllocMap_ in
  match m !! slab with
  | None => throw runtime_error
  | Some allocState =>
      let* idx := getAllocIdx slab memory in
      let* b := lift (aget allocState idx) in
      done_ b
  end.

Definition isAllocFreed (ctx : SlabReleaseContext) (memory : Z) : ST CS (Res bool) :=
  try* _u := checkSlabInRelease ctx memory in isAllocFreedLocked memory.

(** The answer tells whether the callback ran. *)
Definition processAllocForRelease (ctx : SlabReleaseContext) (memory : Z) : ST CS (Res bool) :=
  try* _u := checkSlabInRelease ctx memory in
  try* freed := isAllocFreedLocked memory in
  done_ (negb freed).

(** ** Traversal *)

Inductive SlabIterationStatus : Type :=
  | kFinishedCurrentSlabAndContinue | kSkippedCurrentSlabAndContinue | kAbortIteration.

Record AllocInfo : Type := mkInfo { ai_poolId : Z; ai_classId : Z; ai_allocSize : Z }.

(** The callback answers whether to go on; the addresses it was called with
    are part of the answer. *)
Fixpoint visit (n : nat) (ptr size : Z) (callback : Z -> bool) : bool * list Z :=
  match n with
  | O => (true, [])
  | S n' =>
      if callback ptr then let '(b, l) := visit n' (ptr + size) size callback in (b, ptr :: l)
      else (false, [ptr])
  end.

(** [locked]: whether a release of the class is starting. *)
Definition ac_forEachAllocation (locked : bool) (slab : Z) (callback : AllocInfo -> Z -> bool) :
    ST CS (SlabIterationStatus * list Z) :=
  if locked then ret (kSkippedCurrentSlabAndContinue, [])
  else
    let* header := sa_ (fun sa => getSlabHeader sa slab) in
    match header with
    | None => ret (kSkippedCurrentSlabAndContinue, [])
    | Some _ =>
        let* h := on_sa (read_header header) in
        let* ac := ac_ (fun ac => ac) in
        if negb (h_classId h =? ac_classId ac) || negb (h_poolId h =? ac_poolId ac) || isAdvised h ||
           isMarkedForRelease h
        then ret (kSkippedCurrentSlabAndContinue, [])
        else
          let info := mkInfo (h_poolId h) (h_classId h) (h_allocSize h) in
          let '(b, l) := visit (Z.to_nat (getAllocsPerSlab ac)) slab (allocationSize_ ac) (callback info) in
          ret (if b then kFinishedCurrentSlabAndContinue else kAbortIteration, l)
    end.

End SlabClass.
