(* ===== verification/SlabPool.v ===== *)
(** * SlabPool: memory pools and the memory allocator

    src/cachelib_memory_allocator/MemoryPool.cpp, MemoryPoolManager.cpp and
    MemoryAllocator.cpp with their headers.  A pool distributes slabs over its
    allocation classes; the memory allocator owns the slab allocator and the
    pools. *)

From Stdlib Require Import ZArith Lia SpecFloat.
From stdpp Require Import base list gmap strings numbers.
From S2P Require Import Prelude Types Double Slab SlabClass.
Import Types Slab SlabClass.

Open Scope moon_scope.
Open Scope Z_scope.

Module SlabPool.

(** ** MemoryPool *)

Record MemoryPool : Type := mkMP {
  mp_id : Z;
  maxSize_ : Z;
  currSlabAllocSize_ : Z;
  currAllocSize_ : Z;
  mp_freeSlabs : list Z;
  acSizes_ : list Z;
  ac_vec : list AllocationClass;
  curSlabsAdvised_ : Z;
  nSlabResize_ : Z;
  nSlabRebalance_ : Z;
  nSlabReleaseAborted_ : Z;
}.

Definition set_max v p := mkMP (mp_id p) v (currSlabAllocSize_ p) (currAllocSize_ p) (mp_freeSlabs p)
  (acSizes_ p) (ac_vec p) (curSlabsAdvised_ p) (nSlabResize_ p) (nSlabRebalance_ p) (nSlabReleaseAborted_ p).
Definition set_slab_size v p := mkMP (mp_id p) (maxSize_ p) v (currAllocSize_ p) (mp_freeSlabs p)
  (acSizes_ p) (ac_vec p) (curSlabsAdvised_ p) (nSlabResize_ p) (nSlabRebalance_ p) (nSlabReleaseAborted_ p).
Definition set_alloc_size v p := mkMP (mp_id p) (maxSize_ p) (currSlabAllocSize_ p) v (mp_freeSlabs p)
  (acSizes_ p) (ac_vec p) (curSlabsAdvised_ p) (nSlabResize_ p) (nSlabRebalance_ p) (nSlabReleaseAborted_ p).
Definition set_mp_free v p := mkMP (mp_id p) (maxSize_ p) (currSlabAllocSize_ p) (currAllocSize_ p) v
  (acSizes_ p) (ac_vec p) (curSlabsAdvised_ p) (nSlabResize_ p) (nSlabRebalance_ p) (nSlabReleaseAborted_ p).
Definition set_ac_vec v p := mkMP (mp_id p) (maxSize_ p) (currSlabAllocSize_ p) (currAllocSize_ p)
  (mp_freeSlabs p) (acSizes_ p) v (curSlabsAdvised_ p) (nSlabResize_ p) (nSlabRebalance_ p) (nSlabReleaseAborted_ p).
Definition set_counts r b a p := mkMP (mp_id p) (maxSize_ p) (currSlabAllocSize_ p) (currAllocSize_ p)
  (mp_freeSlabs p) (acSizes_ p) (ac_vec p) (curSlabsAdvised_ p) r b a.

(** A pool and the slab allocator it refers to. *)
Record PS : Type := mkPS { ps_sa : SlabAllocator; ps_mp : MemoryPool }.

Definition mp_ {A} (f : MemoryPool -> A) : ST PS A := gets (fun w => f (ps_mp w)).
Definition upd_mp (f : MemoryPool -> MemoryPool) : ST PS unit := modify (fun w => mkPS (ps_sa w) (f (ps_mp w))).
Definition pool_sa {A} (c : ST SlabAllocator A) : ST PS A := fun w =>
  match c (ps_sa w) with Some (r, sa) => Some (r, mkPS sa (ps_mp w)) | None => None end.

(** Runs an operation of the class at index [cid]. *)
Definition on_class {A} (cid : Z) (c : ST CS A) : ST PS A := fun w =>
  match aget (ac_vec (ps_mp w)) cid with
  | None => None
  | Some ac =>
      match c (mkCS (ps_sa w) ac) with
      | Some (r, w') => Some (r, mkPS (cs_sa w') (set_ac_vec (aput (ac_vec (ps_mp w)) cid (cs_ac w')) (ps_mp w)))
      | None => None
      end
  end.

Definition getPoolAdvisedSize (p : MemoryPool) : Z := u64 (curSlabsAdvised_ p * kSize).
Definition getPoolUsableSize (p : MemoryPool) : Z :=
  if maxSize_ p <=? getPoolAdvisedSize p then 0 else u64 (maxSize_ p - getPoolAdvisedSize p).
Definition getCurrentUsedSize (p : MemoryPool) : Z :=
  u64 (currSlabAllocSize_ p + u64 (Z.of_nat (length (mp_freeSlabs p)) * kSize)).
Definition overLimit (p : MemoryPool) : bool :=
  maxSize_ p <? u64 (getCurrentUsedSize p + getPoolAdvisedSize p).
Definition getUnAllocatedSlabMemory (p : MemoryPool) : Z :=
  let totalAllocSize := u64 (currSlabAllocSize_ p + getPoolAdvisedSize p) in
  if maxSize_ p <? totalAllocSize then 0 else u64 (maxSize_ p - totalAllocSize).
Definition mp_allSlabsAllocated (p : MemoryPool) : bool :=
  maxSize_ p <? u64 (currSlabAllocSize_ p + getPoolAdvisedSize p + kSize).

(** *** Construction *)

Fixpoint createAllocationClasses (sa : SlabAllocator) (poolId id : Z) (sizes : list Z) :
    option (Res (list AllocationClass)) :=
  match sizes with
  | [] => Some (inr [])
  | size :: rest =>
      if (size <? kMinAllocSize) || (kSize <? size) then Some (inl invalid_argument)
      else
        match AllocationClass_new sa id poolId size with
        | None => None
        | Some (inl e) => Some (inl e)
        | Some (inr ac) =>
            match createAllocationClasses sa poolId (s8 (id + 1)) rest with
            | Some (inr acs) => Some (inr (ac :: acs))
            | r => r
            end
        end
  end.

Fixpoint is_sorted (l : list Z) : bool :=
  match l with
  | x :: (y :: _) as l' => (x <=? y) && is_sorted l'
  | _ => true
  end.
Fixpoint has_adjacent (l : list Z) : bool :=
  match l with
  | x :: (y :: _) as l' => (x =? y) || has_adjacent l'
  | _ => false
  end.
Fixpoint sizes_match (sizes : list Z) (acs : list AllocationClass) : bool :=
  match sizes, acs with
  | s :: sizes', ac :: acs' =>
      (s =? allocationSize_ ac) && (kMinAllocSize <=? s) && (s <=? kSize) && sizes_match sizes' acs'
  | _, _ => true
  end.

Definition mp_checkState (sa : SlabAllocator) (p : MemoryPool) : Res unit :=
  if mp_id p <? 0 then inl invalid_argument
  else if currSlabAllocSize_ p <? currAllocSize_ p then inl invalid_argument
  else if bool_decide (acSizes_ p = []) || bool_decide (length (ac_vec p) = 0%nat) then inl invalid_argument
  else if negb (bool_decide (length (acSizes_ p) = length (ac_vec p))) then inl invalid_argument
  else if negb (is_sorted (acSizes_ p)) then inl invalid_argument
  else if has_adjacent (acSizes_ p) then inl invalid_argument
  else if negb (sizes_match (acSizes_ p) (ac_vec p)) then inl invalid_argument
  else if negb (forallb (isValidSlab sa) (mp_freeSlabs p)) then inl invalid_argument
  else inr tt.

(** [std::set<uint32_t>] is the increasing list of its elements. *)
Definition MemoryPool_new (sa : SlabAllocator) (id poolSize : Z) (allocSizes : list Z) : option (Res MemoryPool) :=
  match createAllocationClasses sa id 0 allocSizes with
  | None => None
  | Some (inl e) => Some (inl e)
  | Some (inr acs) =>
      let p := mkMP id poolSize 0 0 [] allocSizes acs 0 0 0 0 in
      match mp_checkState sa p with
      | inl e => Some (inl e)
      | inr _ => Some (inr p)
      end
  end.

(** *** Classes *)

(** [std::lower_bound] on a sorted range: the first position whose element is
    not smaller. *)
Fixpoint lower_bound (l : list Z) (x : Z) : Z :=
  match l with
  | [] => 0
  | y :: l' => if y <? x then 1 + lower_bound l' x else 0
  end.

Definition getAllocationClassId (size : Z) : ST PS (Res Z) :=
  let* p := mp_ (fun p => p) in
  let* back := lift (list.last (acSizes_ p)) in
  if (back <? size) || (size =? 0) then throw invalid_argument
  else
    let idx := lower_bound (acSizes_ p) size in
    do* xdcheck (idx <? Z.of_nat (length (acSizes_ p))) in
    do* xdcheck (idx <? Z.of_nat (length (ac_vec p))) in
    done_ (s8 idx).

Definition getAllocationClassId_mem (memory : Z) : ST PS (Res Z) :=
  let* w := gets (fun w => w) in
  let header := getSlabHeader_mem (ps_sa w) memory in
  match header with
  | None => throw invalid_argument
  | Some _ =>
      let* h := pool_sa (read_header header) in
      if negb (h_poolId h =? mp_id (ps_mp w)) then throw invalid_argument
      else if h_classId h =? kInvalidClassId then throw invalid_argument
      else if (s8 (Z.of_nat (length (ac_vec (ps_mp w)))) <=? h_classId h) || (h_classId h <? 0)
      then throw runtime_error
      else done_ (h_classId h)
  end.

(** [getAllocationClassFor(ClassId)]: the class is named by its index, used
    with [on_class]. *)
Definition getAllocationClassFor (cid : Z) : ST PS (Res Z) :=
  let* n := mp_ (fun p => Z.of_nat (length (ac_vec p))) in
  if cid <? s8 n then done_ cid else throw invalid_argument.

(** *** Allocation *)

Definition getSlabLocked : ST PS Z :=
  let* full := mp_ mp_allSlabsAllocated in
  if full then ret 0
  else
    do* upd_mp (fun p => set_slab_size (u64 (currSlabAllocSize_ p + kSize)) p) in
    let* fs := mp_ mp_freeSlabs in
    match list.last fs with
    | Some slab => do* upd_mp (set_mp_free (removelast fs)) in ret slab
    | None =>
        let* id := mp_ mp_id in
        let* slab := pool_sa (makeNewSlab id) in
        do* when (slab =? 0) (upd_mp (fun p => set_slab_size (u64 (currSlabAllocSize_ p - kSize)) p)) in
        ret slab
    end.

Definition account (n : Z) : ST PS unit := upd_mp (fun p => set_alloc_size (u64 (currAllocSize_ p + n)) p).

Definition mp_allocate (size : Z) : ST PS (Res Z) :=
  try* cid := getAllocationClassId size in
  let* alloc := on_class cid ac_allocate in
  let* allocSize := on_class cid (ac_ allocationSize_) in
  do* xdcheck (size <=? allocSize) in
  if negb (alloc =? 0) then do* account allocSize in done_ alloc
  else
    let* full := mp_ mp_allSlabsAllocated in
    if full then done_ 0
    else
      let* alloc := on_class cid ac_allocate in
      if negb (alloc =? 0) then do* account allocSize in done_ alloc
      else
        let* slab := getSlabLocked in
        if slab =? 0 then done_ 0
        else
          let* alloc := on_class cid (addSlabAndAllocate slab) in
          do* xdcheck (negb (alloc =? 0)) in
          do* account allocSize in
          done_ alloc.

Definition mp_free (alloc : Z) : ST PS (Res unit) :=
  try* cid := getAllocationClassId_mem alloc in
  try* _u := on_class cid (ac_free alloc) in
  let* allocSize := on_class cid (ac_ allocationSize_) in
  do* account (- allocSize) in
  done_ tt.

(** *** Slab release *)

Definition releaseSlab (mode : SlabReleaseMode) (slab receiverClassId : Z) : ST PS (Res unit) :=
  match mode with
  | kResize =>
      try* _u := pool_sa (freeSlab slab) in
      do* upd_mp (fun p => set_slab_size (u64 (currSlabAllocSize_ p - kSize)) p) in
      do* upd_mp (fun p => set_counts (u32 (nSlabResize_ p + 1)) (nSlabRebalance_ p) (nSlabReleaseAborted_ p) p) in
      done_ tt
  | kRebalance =>
      try* _u := (if negb (receiverClassId =? kInvalidClassId) then
                    try* cid := getAllocationClassFor receiverClassId in
                    do* on_class cid (addSlab slab) in done_ tt
                  else
                    do* upd_mp (fun p => set_mp_free (mp_freeSlabs p ++ [slab]) p) in
                    do* upd_mp (fun p => set_slab_size (u64 (currSlabAllocSize_ p - kSize)) p) in
                    done_ tt) in
      do* upd_mp (fun p => set_counts (nSlabResize_ p) (u32 (nSlabRebalance_ p + 1)) (nSlabReleaseAborted_ p) p) in
      done_ tt
  end.

Definition releaseFromFreeSlabs : ST PS (Res SlabReleaseContext) :=
  let* fs := mp_ mp_freeSlabs in
  match list.last fs with
  | None => throw invalid_argument
  | Some slab =>
      do* upd_mp (set_mp_free (removelast fs)) in
      let* id := mp_ mp_id in
      done_ (mkCtx slab id kInvalidClassId [] kInvalidClassId kResize)
  end.

Definition mp_startSlabRelease (shouldAbort : nat -> bool) (rnd : Z)
    (victim receiver : Z) (mode : SlabReleaseMode) (hint : Z) : ST PS (Res SlabReleaseContext) :=
  if negb (receiver =? kInvalidClassId) && negb (bool_decide (mode = kRebalance)) then throw invalid_argument
  else if (victim =? kInvalidClassId) && negb (bool_decide (mode = kResize)) then throw invalid_argument
  else
    try* ctx := (if victim =? kInvalidClassId then releaseFromFreeSlabs
                 else
                   try* cid := getAllocationClassFor victim in
                   on_class cid (ac_startSlabRelease shouldAbort rnd mode hint)) in
    let ctx := setReceiver receiver ctx in
    try* _u := (if isReleased ctx then releaseSlab (ctx_mode ctx) (ctx_slab ctx) receiver else done_ tt) in
    done_ ctx.

Definition mp_abortSlabRelease (ctx : SlabReleaseContext) : ST PS (Res unit) :=
  try* cid := getAllocationClassFor (ctx_victim ctx) in
  try* _u := on_class cid (ac_abortSlabRelease ctx) in
  do* upd_mp (fun p => set_counts (nSlabResize_ p) (nSlabRebalance_ p) (u32 (nSlabReleaseAborted_ p + 1)) p) in
  done_ tt.

Definition mp_completeSlabRelease (ctx : SlabReleaseContext) : ST PS (Res Wait) :=
  if isReleased ctx then done_ Completed
  else if negb (ctx_receiver ctx =? kInvalidClassId) && negb (bool_decide (ctx_mode ctx = kRebalance))
  then throw invalid_argument
  else
    try* cid := getAllocationClassFor (ctx_victim ctx) in
    try* r := on_class cid (ac_completeSlabRelease ctx) in
    match r with
    | Waiting => done_ Waiting
    | Completed =>
        let* w := gets (fun w => w) in
        let* h := pool_sa (read_header (getSlabHeader (ps_sa w) (ctx_slab ctx))) in
        do* xdcheck (h_poolId h =? mp_id (ps_mp w)) in
        do* xdcheck (h_classId h =? kInvalidClassId) in
        do* xdcheck (h_allocSize h =? 0) in
        try* _u := releaseSlab (ctx_mode ctx) (ctx_slab ctx) (ctx_receiver ctx) in
        done_ Completed
    end.

End SlabPool.
