(* ===== verification/SlabMemory.v ===== *)
(** * SlabMemory: the memory allocator

    src/cachelib_memory_allocator/MemoryPoolManager.cpp and
    MemoryAllocator.cpp with their headers: pools by id and by name, the calls
    that go to a pool, and the sizes of the allocation classes. *)

From Stdlib Require Import ZArith Lia SpecFloat.
From stdpp Require Import base list gmap strings numbers.
From S2P Require Import Prelude Types Double Slab SlabClass SlabPool.
Import Types Slab SlabClass SlabPool.

Open Scope moon_scope.
Open Scope Z_scope.

Module SlabMemory.

(** [pools_] holds the pools with ids below [nextPoolId_]; [config_] is the
    default set of class sizes. *)
Record MemoryAllocator : Type := mkMA {
  config_ : list Z;
  slabAllocator_ : SlabAllocator;
  pools_ : list MemoryPool;
  poolsByName_ : gmap string Z;
}.

Definition set_sa sa m := mkMA (config_ m) sa (pools_ m) (poolsByName_ m).
Definition set_pools ps m := mkMA (config_ m) (slabAllocator_ m) ps (poolsByName_ m).
Definition set_names ns m := mkMA (config_ m) (slabAllocator_ m) (pools_ m) ns.
Definition nextPoolId_ (m : MemoryAllocator) : Z := Z.of_nat (length (pools_ m)).

(** ** MemoryPoolManager *)

Definition kMaxPools : Z := 64.

Definition total_pool_size (ps : list MemoryPool) : Z := foldr (fun p n => u64 (maxSize_ p + n)) 0 ps.

Definition getRemainingSizeLocked : ST MemoryAllocator Z :=
  let* m := gets (fun m => m) in
  let totalSize := u64 (getNumUsableSlabs (slabAllocator_ m) * kSize) in
  let sum := total_pool_size (pools_ m) in
  do* xdcheck (sum <=? totalSize) in
  ret (u64 (totalSize - sum)).

Definition createNewPool (name : string) (poolSize : Z) (allocSizes : list Z) : ST MemoryAllocator (Res Z) :=
  let* m := gets (fun m => m) in
  match poolsByName_ m !! name with
  | Some _ => throw invalid_argument
  | None =>
      if nextPoolId_ m =? kMaxPools then throw logic_error
      else
        let* remaining := getRemainingSizeLocked in
        if remaining <? poolSize then throw invalid_argument
        else
          let id := nextPoolId_ m in
          let* r := lift (MemoryPool_new (slabAllocator_ m) id poolSize allocSizes) in
          match r with
          | inl e => throw e
          | inr p =>
              do* modify (set_pools (pools_ m ++ [p])) in
              do* modify (set_names (<[name := id]> (poolsByName_ m))) in
              done_ id
          end
  end.

(** A pool is named by its id, used with [on_pool]. *)
Definition getPoolById (m : MemoryAllocator) (id : Z) : Res Z :=
  if (id <? nextPoolId_ m) && (0 <=? id) then inr id else inl invalid_argument.
Definition getPoolByName (m : MemoryAllocator) (name : string) : Res Z :=
  match poolsByName_ m !! name with Some id => inr id | None => inl invalid_argument end.
Definition getPoolNameById (m : MemoryAllocator) (id : Z) : Res string :=
  match filter (fun kv => kv.2 = id) (map_to_list (poolsByName_ m)) with
  | kv :: _ => inr kv.1
  | [] => inl invalid_argument
  end.
Definition getPoolIds (m : MemoryAllocator) : list Z := seqZ 0 (nextPoolId_ m).

Definition on_pool {A} (id : Z) (c : ST PS (Res A)) : ST MemoryAllocator (Res A) := fun m =>
  match getPoolById m id with
  | inl e => Some (inl e, m)
  | inr id =>
      match aget (pools_ m) id with
      | None => None
      | Some p =>
          match c (mkPS (slabAllocator_ m) p) with
          | Some (r, w) => Some (r, set_pools (aput (pools_ m) id (ps_mp w)) (set_sa (ps_sa w) m))
          | None => None
          end
      end
  end.

(** [pool.resize(size)]. *)
Definition mp_resize (size : Z) : ST PS (Res unit) := do* upd_mp (set_max size) in done_ tt.
Definition pool_size (id : Z) : ST MemoryAllocator (Res Z) :=
  on_pool id (let* n := mp_ maxSize_ in done_ n).

Definition resizePools (src dest bytes : Z) : ST MemoryAllocator (Res bool) :=
  try* s := pool_size src in
  try* _d := pool_size dest in
  if s <? bytes then done_ false
  else
    try* _u := on_pool src (mp_resize (u64 (s - bytes))) in
    try* d := pool_size dest in
    try* _u := on_pool dest (mp_resize (u64 (d + bytes))) in
    done_ true.

Definition shrinkPool (pid bytes : Z) : ST MemoryAllocator (Res bool) :=
  try* n := pool_size pid in
  if n <? bytes then done_ false
  else try* _u := on_pool pid (mp_resize (u64 (n - bytes))) in done_ true.

Definition growPool (pid bytes : Z) : ST MemoryAllocator (Res bool) :=
  try* n := pool_size pid in
  let* remaining := getRemainingSizeLocked in
  if remaining <? bytes then done_ false
  else try* _u := on_pool pid (mp_resize (u64 (n + bytes))) in done_ true.

Definition getPoolsOverLimit (m : MemoryAllocator) : list Z :=
  filter (fun id => match aget (pools_ m) id with Some p => overLimit p | None => false end = true)
    ((map_to_list (poolsByName_ m)).*2).

Definition getBytesUnReserved : ST MemoryAllocator Z := getRemainingSizeLocked.
Definition getAdvisedMemorySize (m : MemoryAllocator) : Z :=
  fold_left (fun sum p => u64 (sum + getPoolAdvisedSize p)) (pools_ m) 0.

(** ** MemoryAllocator *)

Definition kMaxClasses : Z := 128.
Definition kAlignment : Z := 8.

Definition MemoryAllocator_new (config : list Z) (header : option (list SlabHeader))
    (headerMemorySize slabMemoryStart slabMemorySize : Z) : Res MemoryAllocator :=
  match SlabAllocator_new header headerMemorySize slabMemoryStart slabMemorySize with
  | inl e => inl e
  | inr sa =>
      if kMaxClasses <? Z.of_nat (length config) then inl invalid_argument
      else inr (mkMA config sa [] ∅)
  end.

Definition ma_allocate (id size : Z) : ST MemoryAllocator (Res Z) := on_pool id (mp_allocate size).

Definition addPool (name : string) (size : Z) (allocSizes : list Z) (ensureProvisionable : bool) :
    ST MemoryAllocator (Res Z) :=
  let* config := gets config_ in
  let poolAllocSizes := if bool_decide (allocSizes = []) then config else allocSizes in
  if kMaxClasses <? Z.of_nat (length poolAllocSizes) then throw invalid_argument
  else if ensureProvisionable && (size <? u64 (kSize * Z.of_nat (length poolAllocSizes)))
  then throw invalid_argument
  else createNewPool name size poolAllocSizes.

Definition getPoolId (m : MemoryAllocator) (name : string) : Z :=
  match getPoolByName m name with inr id => id | inl _ => kInvalidPoolId end.

(** [getMemoryPool] answers the id of the pool. *)
Definition getMemoryPool (memory : Z) : ST MemoryAllocator (Res Z) := fun m =>
  match getSlabHeader_mem (slabAllocator_ m) memory with
  | None => Some (inl invalid_argument, m)
  | Some i =>
      match aget (headers (slabAllocator_ m)) i with
      | None => None
      | Some h => Some (getPoolById m (h_poolId h), m)
      end
  end.

Definition ma_free (memory : Z) : ST MemoryAllocator (Res unit) :=
  try* id := getMemoryPool memory in on_pool id (mp_free memory).

Definition ma_getAllocationClassId (poolId size : Z) : ST MemoryAllocator (Res Z) :=
  on_pool poolId (getAllocationClassId size).

Definition getAllocInfo (memory : Z) : ST MemoryAllocator (Res AllocInfo) := fun m =>
  match getSlabHeader_mem (slabAllocator_ m) memory with
  | None => Some (inl invalid_argument, m)
  | Some i =>
      match aget (headers (slabAllocator_ m)) i with
      | None => None
      | Some h => Some (inr (mkInfo (h_poolId h) (h_classId h) (h_allocSize h)), m)
      end
  end.

Definition getAllocSize (pid cid : Z) : ST MemoryAllocator (Res Z) :=
  on_pool pid (try* c := getAllocationClassFor cid in let* n := on_class c (ac_ allocationSize_) in done_ n).
Definition ma_allSlabsAllocated (pid : Z) : ST MemoryAllocator (Res bool) :=
  on_pool pid (let* b := mp_ mp_allSlabsAllocated in done_ b).

Definition ma_startSlabRelease (shouldAbort : nat -> bool) (rnd : Z)
    (pid victim receiver : Z) (mode : SlabReleaseMode) (hint : Z) : ST MemoryAllocator (Res SlabReleaseContext) :=
  on_pool pid (mp_startSlabRelease shouldAbort rnd victim receiver mode hint).

(** Calls that go to the class of a release context. *)
Definition on_context {A} (ctx : SlabReleaseContext) (c : ST CS (Res A)) : ST MemoryAllocator (Res A) :=
  on_pool (ctx_pid ctx) (try* cid := getAllocationClassFor (ctx_victim ctx) in on_class cid c).

Definition ma_isAllocFreed (ctx : SlabReleaseContext) (memory : Z) : ST MemoryAllocator (Res bool) :=
  on_context ctx (isAllocFreed ctx memory).
Definition allAllocsFreed (ctx : SlabReleaseContext) : ST MemoryAllocator (Res bool) :=
  on_context ctx (allFreed (ctx_slab ctx)).
Definition ma_processAllocForRelease (ctx : SlabReleaseContext) (memory : Z) : ST MemoryAllocator (Res bool) :=
  on_context ctx (processAllocForRelease ctx memory).
Definition ma_completeSlabRelease (ctx : SlabReleaseContext) : ST MemoryAllocator (Res Wait) :=
  on_pool (ctx_pid ctx) (mp_completeSlabRelease ctx).
Definition ma_abortSlabRelease (ctx : SlabReleaseContext) : ST MemoryAllocator (Res unit) :=
  on_pool (ctx_pid ctx) (mp_abortSlabRelease ctx).

Definition getMemorySize (m : MemoryAllocator) : Z := u64 (getNumUsableSlabs (slabAllocator_ m) * kSize).

(** The traversal of all allocations: the number of slabs skipped and the
    addresses visited, in order.  [locked] tells whether a release of the
    class of a slab is starting. *)
Fixpoint for_each_slab (slabs : list Z) (locked : Z -> bool) (callback : AllocInfo -> Z -> bool)
    (skipped : Z) : ST MemoryAllocator (Res (Z * list Z)) :=
  match slabs with
  | [] => done_ (skipped, [])
  | slab :: rest => fun m =>
      match getSlabHeader (slabAllocator_ m) slab with
      | None => for_each_slab rest locked callback skipped m
      | Some i =>
          match aget (headers (slabAllocator_ m)) i with
          | None => None
          | Some h =>
              if (h_poolId h =? kInvalidPoolId) || (h_classId h =? kInvalidClassId) || isAdvised h ||
                 isMarkedForRelease h
              then for_each_slab rest locked callback (u64 (skipped + 1)) m
              else
                (try* r := on_pool (h_poolId h)
                             (try* cid := getAllocationClassFor (h_classId h) in
                              let* r := on_class cid (ac_forEachAllocation (locked slab) slab callback) in
                              done_ r) in
                 match r with
                 | (kAbortIteration, l) => done_ (skipped, l)
                 | (kSkippedCurrentSlabAndContinue, l) => for_each_slab rest locked callback (u64 (skipped + 1))
                 | (kFinishedCurrentSlabAndContinue, l) =>
                     try* r' := for_each_slab rest locked callback skipped in
                     done_ (fst r', l ++ snd r')
                 end) m
          end
      end
  end.
Definition forEachAllocation (locked : Z -> bool) (callback : AllocInfo -> Z -> bool) :
    ST MemoryAllocator (Res (Z * list Z)) :=
  let* sa := gets slabAllocator_ in
  for_each_slab (getSlabForIdx sa <$> seqZ 0 (getNumUsableSlabs sa)) locked callback 0.

(** ** Class sizes *)

Definition getAlignedSize (size alignment : Z) : Z :=
  let rem := size mod alignment in
  if rem =? 0 then size else u32 (size + alignment - rem).

(** [std::set<uint32_t>::insert]. *)
Fixpoint set_insert (x : Z) (l : list Z) : list Z :=
  match l with
  | [] => [x]
  | y :: l' => if x <? y then x :: l else if x =? y then l else y :: set_insert x l'
  end.

(** [getAlignedSize(static_cast<uint32_t>(size * factor), kAlignment)] *)
Definition scaled (size : Z) (factor : spec_float) : option Z :=
  match Dbl.to_u32 (Dbl.mul (Dbl.of_Z size) factor) with
  | Some n => Some (getAlignedSize n kAlignment)
  | None => None
  end.

(** How the loops on sizes end: in undefined behaviour (a conversion out of
    range, a division by zero), out of fuel, or with a result or an exception.
    No call runs out of fuel ([SlabSizes.generate_ends]). *)
Inductive Gen (A : Type) := Undefined | NoFuel | Done (r : Res A).
#[global] Arguments Undefined {A}.
#[global] Arguments NoFuel {A}.
#[global] Arguments Done {A} r.

(** The loop of [nextSize]. *)
Fixpoint next_loop (fuel : nat) (prevSize newSize : Z) (incFactor : spec_float) : Gen Z :=
  match fuel with
  | O => NoFuel
  | S fuel' =>
      match scaled newSize incFactor with
      | None => Undefined
      | Some newSize' =>
          if newSize' =? newSize then Done (inl invalid_argument)
          else if kSize <? newSize' then Done (inr newSize')
          else if newSize' =? 0 then Undefined
          else if kSize / newSize' =? kSize / prevSize then next_loop fuel' prevSize newSize' incFactor
          else
            let perSlab := kSize / newSize' in
            let maxChunkSize := kSize / perSlab in
            let newSize' := maxChunkSize - maxChunkSize mod kAlignment in
            if (newSize' =? 0) || negb (kSize / newSize' =? perSlab) then Undefined else Done (inr newSize')
      end
  end.

(** Each round of [nextSize] that goes on raises a size of at most a slab. *)
Definition nextSize (prevSize : Z) (incFactor : spec_float) : Gen Z :=
  next_loop (Z.to_nat kSize) prevSize prevSize incFactor.

Fixpoint sizes_loop (fuel : nat) (factor : spec_float) (maxSize size : Z) (reduceFragmentation : bool)
    (allocSizes : list Z) : Gen (list Z) :=
  match fuel with
  | O => NoFuel
  | S fuel' =>
      if negb (size <? maxSize) then Done (inr allocSizes)
      else if size =? 0 then Undefined
      else if kSize / size <=? 1 then Done (inr allocSizes)
      else
        let allocSizes := set_insert size allocSizes in
        match (if reduceFragmentation then nextSize size factor
               else match scaled size factor with
                    | None => Undefined
                    | Some size' => Done (if size' =? size then inl invalid_argument else inr size')
                    end) with
        | Undefined => Undefined
        | NoFuel => NoFuel
        | Done (inl e) => Done (inl e)
        | Done (inr size') =>
            if kMaxClasses <=? Z.of_nat (length allocSizes) + 1 then Done (inr allocSizes)
            else sizes_loop fuel' factor maxSize size' reduceFragmentation allocSizes
        end
  end.

(** Each round of the loop but the last adds a class, and there are at most
    [kMaxClasses] of them. *)
Definition generateAllocSizes (factor : spec_float) (maxSize minSize : Z)
    (reduceFragmentation : bool) : Gen (list Z) :=
  if kSize <? maxSize then Done (inl invalid_argument)
  else if Dbl.leb factor Dbl.one then Done (inl invalid_argument)
  else
    match sizes_loop (Z.to_nat kMaxClasses) factor maxSize minSize reduceFragmentation [] with
    | Done (inr l) => Done (inr (set_insert (getAlignedSize maxSize kAlignment) l))
    | r => r
    end.

(** The default arguments: a factor of 1.25, sizes from 72 bytes to a slab. *)
Definition default_factor : spec_float := Dbl.div (Dbl.of_Z 5) (Dbl.of_Z 4).
Definition default_sizes : Gen (list Z) := generateAllocSizes default_factor kSize 72 false.

End SlabMemory.
