(* ===== verification/SlabInv.v ===== *)
(** * SlabInv: addresses, and the invariant of an allocation class

    Module [SlabFacts]: what the address arithmetic of the slab allocator computes, reads and
    writes of slab headers, and the chunks a slab is carved into.  Module [SlabInv]: the
    invariant. *)

From Stdlib Require Import ZArith Lia.
From stdpp Require Import base list gmap numbers.
From S2P Require Import Prelude Types Slab SlabClass.
Import Types Slab SlabClass.

Open Scope moon_scope.
Open Scope Z_scope.

Module SlabFacts.

Lemma kSize_eq : kSize = 16777216.
Proof. reflexivity. Qed.
Lemma kMinAllocSize_eq : kMinAllocSize = 64.
Proof. reflexivity. Qed.

(** Arithmetic with division by the size of a slab. *)
Ltac mlia := rewrite ?kSize_eq in *; Z.div_mod_to_equations; lia.

(** ** Flags *)

Lemma marked_set h : isMarkedForRelease (setMarkedForRelease true h) = true.
Proof.
  unfold isMarkedForRelease, isFlagSet. simpl. apply negb_true_iff, Z.eqb_neq. intros E.
  apply (f_equal (fun z => Z.testbit z 0)) in E. rewrite Z.land_spec, Z.lor_spec in E.
  change (Z.testbit (Z.shiftl 1 0) 0) with true in E. by rewrite orb_true_r in E.
Qed.

Lemma marked_unset h : isMarkedForRelease (setMarkedForRelease false h) = false.
Proof.
  unfold isMarkedForRelease, isFlagSet. simpl. apply negb_false_iff, Z.eqb_eq.
  rewrite <- Z.land_assoc. apply Z.land_0_r.
Qed.

Lemma marked_set_class c n h : isMarkedForRelease (set_class c n h) = isMarkedForRelease h.
Proof. done. Qed.

(** ** Addresses *)

(** The slab of an address. *)
Lemma getSlabForMemory_eq a : 0 <= a < 2 ^ 64 -> getSlabForMemory a = a - a mod kSize.
Proof.
  intros Ha. unfold getSlabForMemory.
  assert (kAddressMask = Z.ldiff (Z.ones 64) (Z.ones 24)) as -> by reflexivity.
  rewrite Z.ldiff_land, Z.land_assoc, (Z.land_ones a 64), Z.mod_small by lia.
  rewrite <- Z.ldiff_land, Z.ldiff_ones_r, Z.shiftl_mul_pow2, Z.shiftr_div_pow2 by lia.
  change (2 ^ 24) with kSize. mlia.
Qed.

Lemma getSlabForMemory_in s o : 0 <= s -> s + o < 2 ^ 64 -> s mod kSize = 0 -> 0 <= o < kSize ->
  getSlabForMemory (s + o) = s.
Proof. intros Hs Hb Hm Ho. rewrite getSlabForMemory_eq by lia. mlia. Qed.

(** A slab allocator over a sensible range of addresses; every slab carved so
    far has a header. *)
Record SAWf (a : SlabAllocator) : Prop := mkSAWf {
  sw_start : 0 < slabMemoryStart_ a /\ slabMemoryStart_ a mod kSize = 0;
  sw_size : 0 <= slabMemorySize_ a /\ slabMemorySize_ a mod kSize = 0 /\
            slabMemoryStart_ a + slabMemorySize_ a < 2 ^ 64;
  sw_next : slabMemoryStart_ a <= nextSlabAllocation_ a <= slabMemoryStart_ a + slabMemorySize_ a /\
            nextSlabAllocation_ a mod kSize = 0;
  sw_headers : slabMemorySize_ a <= kSize * Z.of_nat (length (headers a)) /\ slabMemorySize_ a < 2 ^ 32 * kSize;
  sw_pools : length (memoryPoolSize_ a) = 127%nat;
}.

Definition valid (a : SlabAllocator) (s : Z) : Prop :=
  slabMemoryStart_ a <= s < nextSlabAllocation_ a /\ s mod kSize = 0.
Definition idx (a : SlabAllocator) (s : Z) : Z := (s - slabMemoryStart_ a) / kSize.

(** The header of a valid slab. *)
Definition hdr (a : SlabAllocator) (s : Z) : option SlabHeader :=
  if isValidSlab a s then aget (headers a) (idx a s) else None.
Definition put (a : SlabAllocator) (s : Z) (h : SlabHeader) : SlabAllocator :=
  set_headers (aput (headers a) (idx a s) h) a.

Section wf.
Context (a : SlabAllocator) (Hwf : SAWf a).
Implicit Types s : Z.

Lemma valid_bounds s : valid a s -> 0 < s /\ s + kSize <= nextSlabAllocation_ a /\ s + kSize < 2 ^ 64.
Proof using Hwf.
  intros [Hs Hm]. destruct Hwf as [[? ?] [? [? ?]] [? ?] _ _]. mlia.
Qed.

Lemma isValidSlab_spec s : isValidSlab a s = true <-> valid a s.
Proof using Hwf.
  unfold isValidSlab. rewrite !andb_true_iff, Z.leb_le, Z.ltb_lt, Z.eqb_eq.
  pose proof (sw_start _ Hwf). pose proof (sw_size _ Hwf). pose proof (sw_next _ Hwf). split.
  - intros [[? ?] E]. split; [lia|]. rewrite getSlabForMemory_eq in E by lia. mlia.
  - intros Hv. pose proof (valid_bounds s Hv). destruct Hv as [? Hm]. split; [lia|].
    rewrite getSlabForMemory_eq by lia. mlia.
Qed.

Lemma idx_bounds s : valid a s -> 0 <= idx a s < 2 ^ 32 /\ idx a s < Z.of_nat (length (headers a)) /\
  s = slabMemoryStart_ a + kSize * idx a s.
Proof using Hwf.
  intros Hv. pose proof (valid_bounds s Hv). destruct Hv as [? Hm]. unfold idx.
  destruct Hwf as [[? ?] [? [? ?]] [? ?] [? ?] _]. mlia.
Qed.

Lemma valid_hdr s : valid a s -> exists h, hdr a s = Some h.
Proof using Hwf.
  intros Hv. unfold hdr. rewrite (proj2 (isValidSlab_spec s) Hv). apply aget_range.
  pose proof (idx_bounds s Hv). lia.
Qed.

Lemma hdr_valid s h : hdr a s = Some h -> valid a s.
Proof using Hwf. unfold hdr. destruct (isValidSlab a s) eqn:E; [|done]. intros _. by apply isValidSlab_spec. Qed.

Lemma getSlabHeader_valid s : valid a s -> getSlabHeader a s = Some (idx a s).
Proof using Hwf.
  intros Hv. pose proof (valid_bounds s Hv). unfold getSlabHeader, slabIdx.
  rewrite (proj2 (isValidSlab_spec s) Hv), (proj2 (Z.eqb_neq s 0)) by lia.
  f_equal. apply u32_small. by apply idx_bounds.
Qed.

Lemma getSlabHeader_mem_eq m : getSlabHeader_mem a m = getSlabHeader a (getSlabForMemory m).
Proof using Hwf.
  unfold getSlabHeader_mem, getSlabHeader, slabIdx. destruct (isValidSlab a _) eqn:E; [|done].
  apply isValidSlab_spec in E. pose proof (valid_bounds _ E). by rewrite (proj2 (Z.eqb_neq _ 0)) by lia.
Qed.

Lemma getSlabHeader_hdr s h : hdr a s = Some h -> getSlabHeader a s = Some (idx a s) /\ aget (headers a) (idx a s) = Some h.
Proof using Hwf.
  intros Hh. pose proof (hdr_valid s h Hh) as Hv. split; [by apply getSlabHeader_valid|].
  unfold hdr in Hh. by rewrite (proj2 (isValidSlab_spec s) Hv) in Hh.
Qed.

Lemma read_ok s h : hdr a s = Some h -> read_header (getSlabHeader a s) a = Some (h, a).
Proof using Hwf. intros [-> E]%getSlabHeader_hdr. simpl. by rewrite E. Qed.

Lemma write_ok s h f : hdr a s = Some h -> write_header (getSlabHeader a s) f a = Some (tt, put a s (f h)).
Proof using Hwf. intros [-> E]%getSlabHeader_hdr. simpl. by rewrite E. Qed.

Lemma put_wf s h : SAWf (put a s h).
Proof using Hwf. destruct Hwf. split; simpl; try done. by rewrite length_aput. Qed.

Lemma idx_inj s s' : valid a s -> valid a s' -> idx a s = idx a s' -> s = s'.
Proof using Hwf.
  intros Hs Hs' E. pose proof (idx_bounds s Hs) as (_ & _ & ->). pose proof (idx_bounds s' Hs') as (_ & _ & ->). lia.
Qed.

Lemma hdr_put_eq s h h' : hdr a s = Some h -> hdr (put a s h') s = Some h'.
Proof using Hwf.
  intros Hh. pose proof (hdr_valid s h Hh) as Hv. unfold hdr, put. simpl.
  change (isValidSlab (set_headers _ a) s) with (isValidSlab a s).
  rewrite (proj2 (isValidSlab_spec s) Hv). change (idx (set_headers _ a) s) with (idx a s).
  apply aget_aput_eq. pose proof (idx_bounds s Hv). lia.
Qed.

Lemma hdr_put_ne s s' h h' : hdr a s = Some h -> s' <> s -> hdr (put a s h') s' = hdr a s'.
Proof using Hwf.
  intros Hh Hne. pose proof (hdr_valid s h Hh) as Hv. unfold hdr, put.
  change (isValidSlab (set_headers _ a) s') with (isValidSlab a s'). destruct (isValidSlab a s') eqn:E; [|done].
  apply isValidSlab_spec in E. change (idx (set_headers _ a) s') with (idx a s'). simpl.
  apply aget_aput_ne; [|by apply idx_bounds]. intros Ei. apply Hne. symmetry. by apply idx_inj.
Qed.

Lemma isMemoryInSlab_valid m s : valid a s -> isMemoryInSlab a m s = (getSlabForMemory m =? s).
Proof using Hwf. intros Hv. unfold isMemoryInSlab. by rewrite (proj2 (isValidSlab_spec s) Hv). Qed.

End wf.

(** The only difference between two slab allocators is the header of [s],
    which is [h] in the second. *)
Definition rewrote (a a' : SlabAllocator) (s : Z) (h : SlabHeader) : Prop :=
  set_headers [] a' = set_headers [] a /\ SAWf a' /\ hdr a' s = Some h /\ (forall s', s' <> s -> hdr a' s' = hdr a s').

Lemma put_rewrote a s h h' : SAWf a -> hdr a s = Some h -> rewrote a (put a s h') s h'.
Proof.
  intros Hwf Hh. split; [done|]. split; [by apply put_wf|]. split; [by apply (hdr_put_eq a Hwf s h)|].
  intros s' Hne. by apply (hdr_put_ne a Hwf s s' h).
Qed.

Lemma rewrote_trans a a1 a2 s h1 h2 : rewrote a a1 s h1 -> rewrote a1 a2 s h2 -> rewrote a a2 s h2.
Proof.
  intros (E1 & _ & _ & F1) (E2 & W2 & Hh & F2). split; [congruence|]. split; [done|]. split; [done|].
  intros s' Hne. by rewrite F2, F1.
Qed.

(** ** Chunks *)

Section chunks.
Context (size : Z) (Hsize : 0 < size <= kSize).

(** The number of chunks of a slab. *)
Definition per_slab : Z := kSize / size.
(** The first [k] chunks of a slab. *)
Definition chunks (s k : Z) : list Z := (fun i => s + i * size) <$> seqZ 0 k.
(** The chunks whose bit is clear, from [off] on. *)
Fixpoint clear (s off : Z) (bits : list bool) : list Z :=
  match bits with
  | [] => []
  | b :: bits' => (if b : bool then [] else [s + off]) ++ clear s (off + size) bits'
  end.
Definition is_chunk (s x : Z) : Prop := exists i, 0 <= i < per_slab /\ x = s + i * size.

Lemma per_slab_bounds : 1 <= per_slab <= kSize /\ per_slab * size <= kSize /\ kSize < (per_slab + 1) * size.
Proof using Hsize.
  unfold per_slab. pose proof (Z.mul_div_le kSize size ltac:(lia)).
  pose proof (Z.mul_succ_div_gt kSize size ltac:(lia)).
  assert (1 <= kSize / size) by (apply Z.div_le_lower_bound; lia).
  assert (kSize / size <= kSize) by (apply Z.div_le_upper_bound; [lia|]; rewrite kSize_eq in *; nia). nia.
Qed.

Lemma chunk_offset i : 0 <= i < per_slab -> 0 <= i * size /\ i * size + size <= kSize.
Proof using Hsize. intros Hi. pose proof per_slab_bounds. nia. Qed.

Lemma is_chunk_slab s x : 0 <= s -> s + kSize < 2 ^ 64 -> s mod kSize = 0 -> is_chunk s x ->
  getSlabForMemory x = s /\ s <= x /\ x + size <= s + kSize.
Proof using Hsize.
  intros H0 H1 H2 (i & Hi & ->). pose proof (chunk_offset i Hi).
  split; [apply getSlabForMemory_in; lia|]. lia.
Qed.

Lemma is_chunk_apart s x y : is_chunk s x -> is_chunk s y -> x <> y -> x + size <= y \/ y + size <= x.
Proof using Hsize. intros (i & Hi & ->) (j & Hj & ->) Hne. destruct (Z.lt_trichotomy i j) as [|[->|]]; [nia|done|nia]. Qed.

Lemma elem_chunks s k x : x ∈ chunks s k <-> exists i, 0 <= i < k /\ x = s + i * size.
Proof using.
  unfold chunks. rewrite list_elem_of_fmap. split.
  - intros (i & -> & Hi%elem_of_seqZ). exists i. split; [lia|done].
  - intros (i & Hi & ->). exists i. split; [done|]. apply elem_of_seqZ. lia.
Qed.

Lemma chunks_is s k x : k <= per_slab -> x ∈ chunks s k -> is_chunk s x.
Proof using. intros Hk (i & Hi & ->)%elem_chunks. exists i. split; [lia|done]. Qed.

Lemma chunks_snoc s k : 0 <= k -> chunks s (k + 1) = chunks s k ++ [s + k * size].
Proof using. intros Hk. unfold chunks. rewrite seqZ_app by lia. by rewrite fmap_app. Qed.

Lemma chunks_NoDup s k : NoDup (chunks s k).
Proof using Hsize. apply NoDup_fmap_2; [|apply NoDup_seqZ]. intros i j E. nia. Qed.

Lemma elem_clear s off bits x : x ∈ clear s off bits <->
  exists i : nat, bits !! i = Some false /\ x = s + (off + Z.of_nat i * size).
Proof using.
  revert off. induction bits as [|b bits IH]; intros off; simpl.
  - split; [by intros ?%elem_of_nil|by intros (i & ? & _)].
  - rewrite elem_of_app, IH. split.
    + intros [Hx|(i & Hi & ->)].
      * destruct b; [by apply elem_of_nil in Hx|]. apply list_elem_of_singleton in Hx as ->.
        exists 0%nat. split; [done|lia].
      * exists (S i). split; [done|lia].
    + intros ([|i] & Hi & ->); simpl in Hi; [simplify_eq; left; apply list_elem_of_singleton; lia|].
      right. exists i. split; [done|lia].
Qed.

Lemma clear_is s bits x : Z.of_nat (length bits) = per_slab -> x ∈ clear s 0 bits -> is_chunk s x.
Proof using.
  intros Hl (i & Hi & ->)%elem_clear. exists (Z.of_nat i). apply lookup_lt_Some in Hi. split; [lia|lia].
Qed.

Lemma clear_NoDup s off bits : NoDup (clear s off bits).
Proof using Hsize.
  revert off. induction bits as [|b bits IH]; intros off; simpl; [constructor|].
  destruct b; simpl; [apply IH|]. apply list.NoDup_cons. split; [|apply IH].
  intros (i & _ & E)%elem_clear. nia.
Qed.

(** Setting the bit of a chunk takes it off the list. *)
Lemma clear_set s off bits i : bits !! i = Some false ->
  clear s off bits ≡ₚ (s + (off + Z.of_nat i * size)) :: clear s off (<[i := true]> bits).
Proof using.
  revert off i. induction bits as [|b bits IH]; intros off [|i] Hi; simpl in *; try done.
  - simplify_eq. by rewrite Z.add_0_r.
  - rewrite (IH (off + size) i Hi), Permutation_middle. f_equiv.
    replace (off + size + Z.of_nat i * size) with (off + Z.pos (Pos.of_succ_nat i) * size) by lia. done.
Qed.

Lemma clear_replicate s off n : clear s off (replicate n false) = (fun i => s + (off + i * size)) <$> seqZ 0 (Z.of_nat n).
Proof using.
  revert off. induction n as [|n IH]; intros off; [done|].
  simpl clear. rewrite IH. replace (Z.of_nat (S n)) with (1 + Z.of_nat n) by lia.
  rewrite seqZ_app by lia. rewrite fmap_app. simpl. f_equal; [lia|].
  change (0 + 1) with (1 + 0). rewrite <- (fmap_add_seqZ 1 0), <- list_fmap_compose. apply list_fmap_ext. intros j x _. simpl. lia.
Qed.

Lemma clear_app s off bits bits' : clear s off (bits ++ bits') =
  clear s off bits ++ clear s (off + Z.of_nat (length bits) * size) bits'.
Proof using.
  revert off. induction bits as [|b bits IH]; intros off; simpl; [by rewrite Z.add_0_r|].
  rewrite IH. replace (off + size + Z.of_nat (length bits) * size) with (off + Z.pos (Pos.of_succ_nat (length bits)) * size) by lia.
  by destruct b.
Qed.

Lemma clear_all_true s off n : clear s off (replicate n true) = [].
Proof using. revert off. induction n as [|n IH]; intros off; [done|]. apply IH. Qed.

Lemma clear_nil s off bits : clear s off bits = [] <-> forallb (fun b => b) bits = true.
Proof using.
  revert off. induction bits as [|b bits IH]; intros off; [done|]. simpl. destruct b; simpl; [apply IH|done].
Qed.

End chunks.

End SlabFacts.

(** ** The invariant of an allocation class

    A slab belongs to a class exactly when its header says so; the chunks
    carved from the slabs of a class are its free chunks and its live ones.
    The lemmas below say what allocation and deallocation do to it. *)

Import Types Slab SlabClass SlabFacts.

Module SlabInv.

Definition releasing (ac : AllocationClass) : list Z := (map_to_list (slabReleaseAllocMap_ ac)).*1.
Definition slabs (ac : AllocationClass) : list Z := allocatedSlabs_ ac ++ ac_freeSlabs ac ++ releasing ac.

(** The chunks carved from the slabs [l], of which [curr] is carved up to its
    chunk [k], and the chunks of released slabs that are not free. *)
Definition carve (size curr k : Z) (l : list Z) : list Z :=
  l ≫= (fun s => chunks size s (if decide (s = curr) then k else per_slab size)).
Definition unclear (size : Z) (m : gmap Z (list bool)) : list Z :=
  map_to_list m ≫= (fun e => clear size e.1 0 e.2).
Definition carved (ac : AllocationClass) : list Z :=
  carve (allocationSize_ ac) (currSlab_ ac) (currOffset_ ac / allocationSize_ ac) (allocatedSlabs_ ac) ++
  unclear (allocationSize_ ac) (slabReleaseAllocMap_ ac).

(** The header of [s] is [h] and names pool [p] and class [c]. *)
Definition of_class (sa : SlabAllocator) (p c s : Z) (h : SlabHeader) : Prop :=
  hdr sa s = Some h /\ h_poolId h = p /\ h_classId h = c.

(** The class has nothing left to hand out. *)
Definition exhausted (ac : AllocationClass) : Prop :=
  freedAllocations_ ac = [] /\ ac_freeSlabs ac = [] /\ canAllocateFromCurrentSlabLocked ac = false.

(** [t] is the slab whose release is being started, if any (the class starts
    one release at a time); [L] are the chunks in the hands of clients.  A
    free chunk of a released slab is found only while its release starts. *)
Record CInv (sa : SlabAllocator) (ac : AllocationClass) (t : option Z) (L : list Z) : Prop := mkCInv {
  ci_size : 0 < allocationSize_ ac <= kSize;
  ci_nodup : NoDup (slabs ac);
  ci_own : forall s, s ∈ slabs ac <-> exists h, of_class sa (ac_poolId ac) (ac_classId ac) s h;
  ci_hdr : forall s h, s ∈ slabs ac -> hdr sa s = Some h ->
    h_allocSize h = allocationSize_ ac /\ isMarkedForRelease h = bool_decide (s ∈ releasing ac);
  ci_curr : currSlab_ ac = 0 \/ currSlab_ ac ∈ allocatedSlabs_ ac;
  ci_off : exists k, currOffset_ ac = k * allocationSize_ ac /\ 0 <= k <= per_slab (allocationSize_ ac);
  ci_bits : forall s bits, slabReleaseAllocMap_ ac !! s = Some bits ->
    Z.of_nat (length bits) = per_slab (allocationSize_ ac);
  ci_perm : freedAllocations_ ac ++ L ≡ₚ carved ac;
  ci_can : ac_canAllocate ac = false -> exhausted ac;
  ci_active : activeReleases_ ac + (match t with Some _ => 1 | None => 0 end) = Z.of_nat (size (slabReleaseAllocMap_ ac));
  ci_clean : forall x, x ∈ freedAllocations_ ac -> getSlabForMemory x ∈ releasing ac -> t = Some (getSlabForMemory x);
}.

(** ** Chunks carved *)

#[export] Instance carve_proper size curr k : Proper ((≡ₚ) ==> (≡ₚ)) (carve size curr k).
Proof. intros l l' HP. unfold carve. by rewrite HP. Qed.

Lemma carve_cons size curr k s l :
  carve size curr k (s :: l) = chunks size s (if decide (s = curr) then k else per_slab size) ++ carve size curr k l.
Proof. done. Qed.

(** Slabs other than the current one are carved completely. *)
Lemma carve_notin size curr curr' k k' l : curr ∉ l -> curr' ∉ l -> carve size curr k l = carve size curr' k' l.
Proof.
  induction l as [|s l IH]; intros H1 H2; [done|]. rewrite !carve_cons.
  rewrite !decide_False by (intros ->; set_solver). f_equal. apply IH; set_solver.
Qed.

Lemma releasing_elem ac s : s ∈ releasing ac <-> is_Some (slabReleaseAllocMap_ ac !! s).
Proof.
  unfold releasing. rewrite list_elem_of_fmap. split.
  - intros ([s' bits] & -> & Hx%elem_of_map_to_list). by exists bits.
  - intros [bits Hb]. exists (s, bits). split; [done|]. by apply elem_of_map_to_list.
Qed.

Lemma unclear_insert size m s bits : m !! s = None -> unclear size (<[s := bits]> m) ≡ₚ clear size s 0 bits ++ unclear size m.
Proof. intros Hs. unfold unclear. by rewrite map_to_list_insert by done. Qed.

Lemma unclear_delete size m s bits : m !! s = Some bits -> unclear size m ≡ₚ clear size s 0 bits ++ unclear size (delete s m).
Proof. intros Hs. unfold unclear. by rewrite <- (map_to_list_delete m s bits Hs). Qed.

Lemma releasing_insert (m : gmap Z (list bool)) s (bits : list bool) : m !! s = None ->
  (map_to_list (<[s := bits]> m)).*1 ≡ₚ s :: (map_to_list m).*1.
Proof. intros Hs. by rewrite map_to_list_insert by done. Qed.

Lemma releasing_delete (m : gmap Z (list bool)) s (bits : list bool) : m !! s = Some bits ->
  (map_to_list m).*1 ≡ₚ s :: (map_to_list (delete s m)).*1.
Proof. intros Hs. by rewrite <- (map_to_list_delete m s bits Hs). Qed.

(** Writing the bits of a slab already released keeps the released slabs. *)
Lemma releasing_update (m : gmap Z (list bool)) s (bits bits' : list bool) : m !! s = Some bits ->
  (map_to_list (<[s := bits']> m)).*1 ≡ₚ (map_to_list m).*1.
Proof.
  intros Hs. rewrite <- insert_delete_eq, releasing_insert by apply lookup_delete_eq.
  symmetry. by apply releasing_delete with bits.
Qed.

Lemma unclear_update size m s bits bits' : m !! s = Some bits ->
  unclear size (<[s := bits']> m) ≡ₚ clear size s 0 bits' ++ unclear size (delete s m).
Proof. intros Hs. rewrite <- insert_delete_eq. apply unclear_insert, lookup_delete_eq. Qed.

Lemma in_slabs ac s : s ∈ allocatedSlabs_ ac ++ releasing ac -> s ∈ slabs ac.
Proof. unfold slabs. set_solver. Qed.

Lemma allocated_slabs ac s : s ∈ allocatedSlabs_ ac -> s ∈ slabs ac.
Proof. intros Hs. unfold slabs. apply elem_of_app. by left. Qed.
Lemma releasing_slabs ac s : s ∈ releasing ac -> s ∈ slabs ac.
Proof. intros Hs. unfold slabs. rewrite !elem_of_app. by right; right. Qed.

Section inv.
Context (sa : SlabAllocator) (ac : AllocationClass) (t : option Z) (L : list Z).
Context (Hwf : SAWf sa) (HI : CInv sa ac t L).

Abbreviation size := (allocationSize_ ac).

Lemma ci_valid s : s ∈ slabs ac -> valid sa s.
Proof using Hwf HI. intros (h & Hh & _)%(ci_own _ _ _ _ HI). by apply (hdr_valid sa Hwf s h). Qed.

Lemma ci_k : exists k, currOffset_ ac = k * size /\ currOffset_ ac / size = k /\ 0 <= k <= per_slab size /\
  (canAllocateFromCurrentSlabLocked ac = true <-> currSlab_ ac <> 0 /\ k < per_slab size).
Proof using Hwf HI.
  destruct (ci_off _ _ _ _ HI) as (k & E & Hk). pose proof (ci_size _ _ _ _ HI) as Hs. exists k.
  pose proof (per_slab_bounds size Hs). split; [done|]. split; [rewrite E; apply Z.div_mul; lia|]. split; [done|].
  unfold canAllocateFromCurrentSlabLocked. rewrite E, andb_true_iff, negb_true_iff, Z.eqb_neq, Z.leb_le.
  rewrite u32_small by (rewrite kSize_eq in *; nia). split; intros [? ?]; split; try done; nia.
Qed.

(** Every carved chunk lies in a slab of the class. *)
Lemma carved_chunk x : x ∈ carved ac -> exists s, s ∈ allocatedSlabs_ ac ++ releasing ac /\ is_chunk size s x.
Proof using Hwf HI.
  destruct ci_k as (k & _ & Ek & Hk & _). unfold carved. rewrite elem_of_app. intros [Hx|Hx].
  - unfold carve in Hx. apply list_elem_of_bind in Hx as (s & Hx & Hs). exists s. split; [set_solver|].
    revert Hx. apply chunks_is. rewrite Ek. case_decide; lia.
  - unfold unclear in Hx. apply list_elem_of_bind in Hx as ([s bits] & Hx & Hs%elem_of_map_to_list). simpl in Hx.
    exists s. split; [apply elem_of_app; right; apply releasing_elem; by exists bits|].
    apply (clear_is size s bits); [by apply (ci_bits _ _ _ _ HI s)|done].
Qed.

Lemma chunk_place s x : s ∈ slabs ac -> is_chunk size s x -> getSlabForMemory x = s /\ s <= x /\ x + size <= s + kSize.
Proof using Hwf HI.
  intros Hs Hx. pose proof (ci_valid s Hs) as Hv. pose proof (valid_bounds sa Hwf s Hv).
  apply is_chunk_slab; [apply (ci_size _ _ _ _ HI)|lia|lia|apply Hv|done].
Qed.

Lemma carved_place x : x ∈ carved ac -> exists s, s ∈ allocatedSlabs_ ac ++ releasing ac /\ is_chunk size s x /\
  getSlabForMemory x = s /\ valid sa s /\ s <= x /\ x + size <= s + kSize.
Proof using Hwf HI.
  intros (s & Hs & Hx)%carved_chunk. exists s. destruct (chunk_place s x (in_slabs ac s Hs) Hx) as (? & ? & ?).
  split_and!; try done. all: by apply ci_valid, in_slabs.
Qed.

(** No chunk is carved twice. *)
Lemma carved_NoDup : NoDup (carved ac).
Proof using Hwf HI.
  pose proof (ci_size _ _ _ _ HI) as Hsz. destruct ci_k as (k & _ & Ek & Hk & _).
  pose proof (ci_nodup _ _ _ _ HI) as ND. unfold slabs in ND.
  apply list.NoDup_app in ND as (N1 & D1 & ND). apply list.NoDup_app in ND as (_ & _ & N2).
  assert (Hplace : forall s x, s ∈ allocatedSlabs_ ac ++ releasing ac -> is_chunk size s x -> getSlabForMemory x = s).
  { intros s x Hs Hx. by apply (chunk_place s x (in_slabs ac s Hs)). }
  assert (H1 : forall s x, s ∈ allocatedSlabs_ ac -> x ∈ chunks size s (if decide (s = currSlab_ ac)
                 then currOffset_ ac / size else per_slab size) -> getSlabForMemory x = s).
  { intros s x Hs Hx. apply Hplace; [set_solver|]. revert Hx. apply chunks_is. case_decide; lia. }
  assert (H2 : forall e x, e ∈ map_to_list (slabReleaseAllocMap_ ac) -> x ∈ clear size e.1 0 e.2 ->
                 getSlabForMemory x = e.1 /\ e.1 ∈ releasing ac).
  { intros [s bits] x He%elem_of_map_to_list Hx. assert (s ∈ releasing ac) by (apply releasing_elem; by exists bits).
    split; [|done]. apply Hplace; [set_solver|]. revert Hx. apply clear_is. by apply (ci_bits _ _ _ _ HI s). }
  apply list.NoDup_app. split_and!.
  - apply NoDup_bind; [|intros; apply chunks_NoDup; done|done].
    intros s s' x Hs Hs' Hx Hx'. rewrite <- (H1 s x), <- (H1 s' x); done.
  - intros x Hx Hx'. apply list_elem_of_bind in Hx as (s & Hx & Hs). apply list_elem_of_bind in Hx' as (e & Hx' & He).
    pose proof (H1 s x Hs Hx). destruct (H2 e x He Hx') as [? ?]. apply (D1 s Hs). apply elem_of_app. right. congruence.
  - apply NoDup_bind; [|intros; apply clear_NoDup; done|apply NoDup_map_to_list].
    intros e e' x He He' Hx Hx'. apply (NoDup_fmap_elem_inj fst (map_to_list (slabReleaseAllocMap_ ac))); try done.
    destruct (H2 e x He Hx), (H2 e' x He' Hx'). congruence.
Qed.

Lemma live_carved x : x ∈ L -> x ∈ carved ac.
Proof using Hwf HI. intros Hx. rewrite <- (ci_perm _ _ _ _ HI). set_solver. Qed.
Lemma freed_carved x : x ∈ freedAllocations_ ac -> x ∈ carved ac.
Proof using Hwf HI. intros Hx. rewrite <- (ci_perm _ _ _ _ HI). set_solver. Qed.
Lemma given_NoDup : NoDup (freedAllocations_ ac ++ L).
Proof using Hwf HI. rewrite (ci_perm _ _ _ _ HI). apply carved_NoDup. Qed.

Lemma carved_pos x : x ∈ carved ac -> 0 < x < 2 ^ 64.
Proof using Hwf HI.
  intros (s & _ & _ & _ & Hv & ? & ?)%carved_place. pose proof (valid_bounds sa Hwf s Hv).
  pose proof (ci_size _ _ _ _ HI). lia.
Qed.

(** Two distinct chunks of a class do not overlap. *)
Lemma carved_apart x y : x ∈ carved ac -> y ∈ carved ac -> x <> y -> x + size <= y \/ y + size <= x.
Proof using Hwf HI.
  intros (s & _ & Cx & _ & [_ Hv] & ? & ?)%carved_place (s' & _ & Cy & _ & [_ Hv'] & ? & ?)%carved_place Hne.
  destruct (decide (s = s')) as [->|Hs].
  - by apply (is_chunk_apart size (ci_size _ _ _ _ HI) s').
  - assert (s + kSize <= s' \/ s' + kSize <= s) by mlia. lia.
Qed.

End inv.

(** The invariant speaks of the headers of the class only. *)
Lemma CInv_frame sa sa' ac t L : CInv sa ac t L ->
  (forall s h, of_class sa' (ac_poolId ac) (ac_classId ac) s h <-> of_class sa (ac_poolId ac) (ac_classId ac) s h) ->
  CInv sa' ac t L.
Proof.
  intros [] Hof. split; try done.
  - intros s. rewrite ci_own0. split; intros [h Hh]; exists h; by apply Hof.
  - intros s h Hs Hh. apply ci_hdr0; [done|]. pose proof Hs as [h' Hh']%ci_own0.
    pose proof (proj2 (Hof s h') Hh') as [E _]. rewrite Hh in E. simplify_eq. apply Hh'.
Qed.

Lemma CInv_perm sa ac t L L' : L ≡ₚ L' -> CInv sa ac t L -> CInv sa ac t L'.
Proof. intros HP []. split; try done. by rewrite <- HP. Qed.

(** What an operation never changes. *)
Definition same_class (ac ac' : AllocationClass) : Prop :=
  ac_classId ac' = ac_classId ac /\ ac_poolId ac' = ac_poolId ac /\ allocationSize_ ac' = allocationSize_ ac.

End SlabInv.
