(* ===== verification/SlabOps.v ===== *)
(** * SlabOps: allocation and deallocation in a class keep its invariant. *)

From Stdlib Require Import ZArith Lia.
From stdpp Require Import base list gmap numbers.
From S2P Require Import Prelude Types Slab SlabClass SlabInv.
Import Types Slab SlabClass SlabFacts SlabInv.

Open Scope moon_scope.
Open Scope Z_scope.

Module SlabOps.

(** Steps of programs on a class. *)
Lemma runs_xdcheck {S A} b (k : ST S A) s (Q : A -> S -> Prop) :
  b = true -> runs k s Q -> runs (bind (xdcheck b) (fun _ => k)) s Q.
Proof. by intros ->. Qed.

Lemma runs_bindx {S A B} (c : ST S (Res A)) (k : A -> ST S (Res B)) s (Q : Res B -> S -> Prop) :
  runs c s (fun r s' => match r with inl e => Q (inl e) s' | inr a => runs (k a) s' Q end) -> runs (bindx c k) s Q.
Proof. intros H. apply runs_bind. eapply runs_mono; [exact H|]. intros [e|a] s'; auto. Qed.

Lemma runs_on_sa {A} (c : ST SlabAllocator A) w (Q : A -> CS -> Prop) :
  runs c (cs_sa w) (fun r sa => Q r (mkCS sa (cs_ac w))) -> runs (on_sa c) w Q.
Proof. unfold runs, on_sa. destruct (c (cs_sa w)) as [[r sa]|]; auto. Qed.

Lemma runs_write sa ac s h f (Q : unit -> CS -> Prop) : SAWf sa -> hdr sa s = Some h ->
  Q tt (mkCS (put sa s (f h)) ac) -> runs (on_sa (write_header (getSlabHeader sa s) f)) (mkCS sa ac) Q.
Proof. intros Hwf Hh HQ. apply runs_on_sa. eapply runs_eq; [by apply write_ok|done]. Qed.

Lemma runs_read {B} sa ac s h (k : SlabHeader -> ST CS B) (Q : B -> CS -> Prop) : SAWf sa -> hdr sa s = Some h ->
  runs (k h) (mkCS sa ac) Q -> runs (bind (on_sa (read_header (getSlabHeader sa s))) k) (mkCS sa ac) Q.
Proof.
  intros Hwf Hh HQ. apply runs_bind, runs_on_sa. eapply runs_eq; [by apply read_ok|]. done.
Qed.

Lemma runs_ac {A B} (f : AllocationClass -> A) (k : A -> ST CS B) sa ac (Q : B -> CS -> Prop) :
  runs (k (f ac)) (mkCS sa ac) Q -> runs (bind (ac_ f) k) (mkCS sa ac) Q.
Proof. done. Qed.
Lemma runs_sa {A B} (f : SlabAllocator -> A) (k : A -> ST CS B) sa ac (Q : B -> CS -> Prop) :
  runs (k (f sa)) (mkCS sa ac) Q -> runs (bind (sa_ f) k) (mkCS sa ac) Q.
Proof. done. Qed.
Lemma runs_upd {B} f (k : unit -> ST CS B) sa ac (Q : B -> CS -> Prop) :
  runs (k tt) (mkCS sa (f ac)) Q -> runs (bind (upd_ac f) k) (mkCS sa ac) Q.
Proof. done. Qed.
Lemma runs_memoryAtOffset {S B} s o (k : Z -> ST S B) w (Q : B -> S -> Prop) :
  o < kSize -> runs (k (s + o)) w Q -> runs (bind (memoryAtOffset s o) k) w Q.
Proof. intros Ho HQ. unfold memoryAtOffset. apply runs_bind. apply runs_xdcheck; [by apply Z.ltb_lt|done]. Qed.

(** Runs the reads and writes of members a program starts with. *)
Ltac csteps := repeat (match goal with
  | |- runs (bind (ac_ _) _) _ _ => apply runs_ac
  | |- runs (bind (sa_ _) _) _ _ => apply runs_sa
  | |- runs (bind (upd_ac _) _) _ _ => apply runs_upd
  end; cbn beta).

(** Moving the current offset over one chunk carves that chunk. *)
Lemma carve_next size curr k l : 0 <= k -> NoDup l -> curr ∈ l ->
  carve size curr (k + 1) l ≡ₚ (curr + k * size) :: carve size curr k l.
Proof.
  intros Hk ND [l' HP]%elem_of_Permutation. rewrite HP in ND |- *. apply list.NoDup_cons in ND as [Hc _].
  rewrite !carve_cons, !decide_True, chunks_snoc by done.
  rewrite (carve_notin size curr curr (k + 1) k l') by done. rewrite <- app_assoc. simpl. by rewrite <- Permutation_middle.
Qed.

Lemma carve_full size curr curr' k l : curr' ∉ l -> carve size curr (per_slab size) l = carve size curr' k l.
Proof.
  induction l as [|s l IH]; intros Hl; [done|]. rewrite !carve_cons, (decide_False (P := s = curr')) by (intros ->; set_solver).
  f_equal; [by case_decide|]. apply IH. set_solver.
Qed.

(** What [allocateLocked] promises: the null pointer exactly when the class
    is exhausted, and otherwise a new chunk. *)
Definition alloc_post (sa : SlabAllocator) (ac : AllocationClass) (t : option Z) (L : list Z) (r : Z) (w : CS) : Prop :=
  cs_sa w = sa /\ same_class ac (cs_ac w) /\
  (r = 0 /\ exhausted ac /\ exhausted (cs_ac w) /\ CInv sa (cs_ac w) t L \/
   r <> 0 /\ ~ exhausted ac /\ CInv sa (cs_ac w) t (r :: L)).

Lemma same_class_trans ac1 ac2 ac3 : same_class ac1 ac2 -> same_class ac2 ac3 -> same_class ac1 ac3.
Proof. intros (? & ? & ?) (? & ? & ?). repeat split; congruence. Qed.

Section alloc.
Context (sa : SlabAllocator) (t : option Z) (L : list Z) (Hwf : SAWf sa).
Implicit Types ac : AllocationClass.

Lemma from_current_ok ac : CInv sa ac t L -> ac_canAllocate ac = true -> canAllocateFromCurrentSlabLocked ac = true ->
  runs allocateFromCurrentSlabLocked (mkCS sa ac) (fun r w =>
    cs_sa w = sa /\ same_class ac (cs_ac w) /\ r <> 0 /\ CInv sa (cs_ac w) t (r :: L)).
Proof using Hwf.
  intros HI Hcan Hcur. destruct (ci_k sa ac t L Hwf HI) as (k & Eo & Ek & Hk & Hiff).
  destruct (proj1 Hiff Hcur) as [Hc Hkn]. pose proof (ci_size _ _ _ _ HI) as Hs.
  destruct (chunk_offset (allocationSize_ ac) Hs k ltac:(lia)) as [Ho1 Ho2].
  destruct (ci_curr _ _ _ _ HI) as [|Hin]; [done|]. set (r := currSlab_ ac + currOffset_ ac).
  unfold allocateFromCurrentSlabLocked. csteps. apply runs_xdcheck; [done|].
  apply runs_memoryAtOffset; [lia|]. csteps.
  rewrite u32_small by (rewrite kSize_eq in *; lia).
  replace (currOffset_ ac + allocationSize_ ac) with ((k + 1) * allocationSize_ ac) by lia.
  split_and!; try done.
  - assert (valid sa (currSlab_ ac)) as Hv by (apply (ci_valid sa ac t L Hwf HI); unfold slabs; set_solver).
    pose proof (valid_bounds sa Hwf _ Hv). lia.
  - pose proof (ci_nodup _ _ _ _ HI) as ND. apply list.NoDup_app in ND as (ND & _ & _).
    destruct HI. split; simpl; try done.
    + exists (k + 1). split; [done|lia].
    + rewrite <- Permutation_middle, ci_perm0. unfold carved. simpl.
      rewrite Ek, Z.div_mul by lia. rewrite carve_next by (done || lia). simpl. by rewrite Eo.
    + intros E. by rewrite Hcan in E.
Qed.

Lemma setup_ok ac : CInv sa ac t L -> ac_canAllocate ac = true -> canAllocateFromCurrentSlabLocked ac = false ->
  ac_freeSlabs ac <> [] ->
  runs setupCurrentSlabLocked (mkCS sa ac) (fun _ w => cs_sa w = sa /\ same_class ac (cs_ac w) /\
    ac_canAllocate (cs_ac w) = true /\ canAllocateFromCurrentSlabLocked (cs_ac w) = true /\ CInv sa (cs_ac w) t L).
Proof using Hwf.
  intros HI Hcan Hcur Hne. destruct (ci_k sa ac t L Hwf HI) as (k & Eo & Ek & Hk & Hiff).
  pose proof (ci_size _ _ _ _ HI) as Hs. pose proof (per_slab_bounds _ Hs) as Hp.
  destruct (exists_last Hne) as (fs & slab & Efs).
  assert (Hin : slab ∈ slabs ac) by (unfold slabs; rewrite Efs; set_solver).
  pose proof (valid_bounds sa Hwf _ (ci_valid sa ac t L Hwf HI slab Hin)) as Hv.
  assert (HP : (allocatedSlabs_ ac ++ [slab]) ++ fs ++ releasing ac ≡ₚ slabs ac).
  { unfold slabs. rewrite Efs, <- !app_assoc. apply Permutation_app_head. simpl.
    by rewrite Permutation_middle. }
  unfold setupCurrentSlabLocked. csteps. rewrite Efs. eapply runs_lift; [apply last_snoc|]. rewrite removelast_last.
  split_and!; try done; simpl.
  - unfold canAllocateFromCurrentSlabLocked. simpl. rewrite (proj2 (Z.eqb_neq slab 0)) by lia.
    apply Z.leb_le. rewrite u32_small by (rewrite kSize_eq in *; lia). lia.
  - pose proof HI as HI'. destruct HI. split; simpl; try done.
    + unfold slabs at 1. simpl. fold (releasing ac). by rewrite HP.
    + intros s. rewrite <- ci_own0. unfold slabs at 1. simpl. fold (releasing ac). by rewrite HP.
    + intros s h Hs'. apply ci_hdr0. unfold slabs in Hs' at 1. simpl in Hs'. fold (releasing ac) in Hs'. by rewrite HP in Hs'.
    + right. set_solver.
    + exists 0. lia.
    + rewrite ci_perm0. unfold carved. simpl. apply Permutation_app_tail.
      rewrite <- HP in ci_nodup0. apply list.NoDup_app in ci_nodup0 as (ND & _ & _).
      apply list.NoDup_app in ND as (ND & Hd & _).
      assert (Hslab : slab ∉ allocatedSlabs_ ac) by (intros Hx; apply (Hd slab Hx); set_solver).
      rewrite (Permutation_app_comm _ [slab]). cbn [app]. rewrite carve_cons, decide_True by done.
      rewrite Z.div_0_l by lia. cbn [app].
      assert (Hfull : currSlab_ ac = 0 \/ k = per_slab (allocationSize_ ac)).
      { destruct (decide (currSlab_ ac = 0)); [by left|right]. destruct (decide (k < per_slab (allocationSize_ ac))); [|lia].
        assert (canAllocateFromCurrentSlabLocked ac = true) by (by apply Hiff). congruence. }
      rewrite Ek. destruct Hfull as [E| ->].
      * rewrite (carve_notin _ (currSlab_ ac) slab k 0); [done| |done]. rewrite E. intros H0.
        pose proof (valid_bounds sa Hwf _ (ci_valid sa ac t L Hwf HI' 0 ltac:(unfold slabs; set_solver))). lia.
      * by rewrite (carve_full _ (currSlab_ ac) slab 0).

    + intros E. by rewrite Hcan in E.
Qed.

Lemma exhausted_dec ac : bool_decide (freedAllocations_ ac = []) && bool_decide (ac_freeSlabs ac = []) &&
  negb (canAllocateFromCurrentSlabLocked ac) = true <-> exhausted ac.
Proof using Type.
  unfold exhausted. rewrite !andb_true_iff, !bool_decide_eq_true, negb_true_iff. tauto.
Qed.

Lemma allocateLocked_ok ac : CInv sa ac t L -> ac_canAllocate ac = true ->
  runs allocateLocked (mkCS sa ac) (alloc_post sa ac t L).
Proof using Hwf.
  intros HI Hcan. unfold allocateLocked. csteps.
  destruct (_ && _ && _) eqn:E.
  { apply exhausted_dec in E. split; [done|]. split; [done|]. left. split; [done|]. split; [done|]. split; [done|].
    pose proof HI as []. by split. }
  assert (Hne : ~ exhausted ac) by (rewrite <- exhausted_dec; congruence).
  apply runs_xdcheck; [done|]. destruct (freedAllocations_ ac) as [|r rest] eqn:Ef.
  - assert (Hcase : canAllocateFromCurrentSlabLocked ac = true \/
      canAllocateFromCurrentSlabLocked ac = false /\ ac_freeSlabs ac <> []).
    { destruct (canAllocateFromCurrentSlabLocked ac) eqn:Ec; [by left|right]. split; [done|]. intros Efs. by apply Hne. }
    destruct Hcase as [Ec|[Ec Efs]]; rewrite Ec.
    + eapply runs_mono; [by apply from_current_ok|]. intros r w (E1 & Hsc & Hr & HI').
      split; [done|]. split; [done|]. by right.
    + apply runs_bind. eapply runs_mono; [by apply setup_ok|].
      intros [] [sa' ac'] (E1 & Hsc & Hcan' & Ec' & HI'). simpl in *. subst sa'.
      eapply runs_mono; [by apply from_current_ok|]. intros r [sa' ac''] (E1 & Hsc' & Hr & HI''). simpl in *.
      split; [done|]. split; [by eapply same_class_trans|]. by right.
  - assert (Hr : r ∈ carved ac) by (apply (freed_carved sa ac t L Hwf HI); rewrite Ef; left).
    pose proof (carved_pos sa ac t L Hwf HI r Hr). apply runs_xdcheck; [by rewrite (proj2 (Z.eqb_neq r 0)) by lia|].
    csteps. split; [done|]. split; [done|]. right. split; [lia|]. split; [done|]. destruct HI. split; simpl; try done.
    + rewrite <- Permutation_middle. rewrite Ef in ci_perm0. exact ci_perm0.
    + intros Ef'. by rewrite Hcan in Ef'.
    + intros x Hx. apply ci_clean0. rewrite Ef. by right.
Qed.

Lemma ac_allocate_ok ac : CInv sa ac t L -> runs ac_allocate (mkCS sa ac) (alloc_post sa ac t L).
Proof using Hwf.
  intros HI. unfold ac_allocate. csteps. destruct (ac_canAllocate ac) eqn:Hcan; [by apply allocateLocked_ok|].
  split; [done|]. split; [done|]. left. split; [done|]. pose proof (ci_can _ _ _ _ HI Hcan). done.
Qed.

End alloc.

(** ** Slabs come and go *)

(** Giving a class a slab of its pool that is in no class. *)
Lemma addSlabLocked_ok sa ac t L s h : SAWf sa -> CInv sa ac t L -> hdr sa s = Some h ->
  h_poolId h = ac_poolId ac -> h_classId h <> ac_classId ac -> isMarkedForRelease h = false ->
  runs (addSlabLocked s) (mkCS sa ac) (fun _ w =>
    cs_sa w = put sa s (set_class (ac_classId ac) (allocationSize_ ac) h) /\ same_class ac (cs_ac w) /\
    ac_canAllocate (cs_ac w) = true /\ ~ exhausted (cs_ac w) /\ CInv (cs_sa w) (cs_ac w) t L).
Proof.
  intros Hwf HI Hh Hp Hc Hm. unfold addSlabLocked. csteps. apply runs_bind. eapply runs_write; [done..|].
  assert (Hns : s ∉ slabs ac).
  { intros (h' & Hh' & _ & E)%(ci_own _ _ _ _ HI). rewrite Hh in Hh'. simplify_eq. }
  split_and!; try done; simpl.
  { intros (_ & E & _). simpl in E. by apply app_eq_nil in E as [_ ?]. }
  assert (HP : allocatedSlabs_ ac ++ (ac_freeSlabs ac ++ [s]) ++ releasing ac ≡ₚ s :: slabs ac).
  { unfold slabs. rewrite <- (app_assoc (ac_freeSlabs ac)). simpl. by rewrite <- !Permutation_middle. }
  set (ac' := set_ac_free _ _). assert (Hsl : slabs ac' ≡ₚ s :: slabs ac) by exact HP.
  destruct HI. split; try done.
  - rewrite Hsl. by constructor.
  - intros s'. rewrite Hsl, elem_of_cons, ci_own0. simpl. destruct (decide (s' = s)) as [-> | Hne].
    + split; [intros _|by left]. eexists. split; [by apply (hdr_put_eq sa Hwf s h)|done].
    + unfold of_class. rewrite (hdr_put_ne sa Hwf s s' h) by done. naive_solver.
  - intros s' h'. rewrite Hsl, elem_of_cons. destruct (decide (s' = s)) as [-> | Hne].
    + intros _. rewrite (hdr_put_eq sa Hwf s h) by done. intros [= <-]. simpl. split; [done|].
      rewrite marked_set_class, Hm. symmetry. apply bool_decide_eq_false. intros Hx. apply Hns. unfold slabs. set_solver.
    + intros [|Hs']; [done|]. rewrite (hdr_put_ne sa Hwf s s' h) by done. by apply ci_hdr0.
Qed.

(** ** Freeing *)

Lemma aget_nat {A} (l : list A) (i : nat) : aget l (Z.of_nat i) = l !! i.
Proof. unfold aget. by rewrite (proj2 (Z.leb_le 0 _)), Nat2Z.id by lia. Qed.

Lemma getAllocIdx_ok {B} sa ac s i (k : Z -> ST CS B) (Q : B -> CS -> Prop) :
  0 < allocationSize_ ac <= kSize -> 0 <= i < per_slab (allocationSize_ ac) ->
  runs (k i) (mkCS sa ac) Q -> runs (bind (getAllocIdx s (s + i * allocationSize_ ac)) k) (mkCS sa ac) Q.
Proof.
  intros Hs Hi HQ. destruct (chunk_offset _ Hs i Hi). unfold getAllocIdx. apply runs_bind. csteps.
  replace (s + i * allocationSize_ ac - s) with (i * allocationSize_ ac) by lia.
  rewrite u64_small by (rewrite kSize_eq in *; lia).
  apply runs_xdcheck; [apply Z.eqb_eq, Z.mod_mul; lia|]. apply runs_xdcheck; [apply Z.ltb_lt; lia|].
  apply runs_ret. by rewrite Z.div_mul by lia.
Qed.

(** Where a live chunk is: in a slab in use, or in a released slab where its
    bit is clear. *)
Lemma live_where sa ac t L x : SAWf sa -> CInv sa ac t L -> x ∈ L ->
  exists s h, getSlabForMemory x = s /\ s ∈ slabs ac /\ of_class sa (ac_poolId ac) (ac_classId ac) s h /\
    (isMarkedForRelease h = false \/
     isMarkedForRelease h = true /\ exists bits (i : nat), slabReleaseAllocMap_ ac !! s = Some bits /\
       bits !! i = Some false /\ x = s + Z.of_nat i * allocationSize_ ac).
Proof.
  intros Hwf HI Hx. pose proof (live_carved sa ac t L Hwf HI x Hx) as Hc.
  destruct (carved_place sa ac t L Hwf HI x Hc) as (s & Hs & Cx & Es & _ & _). exists s.
  pose proof (in_slabs ac s Hs) as Hs'. destruct (proj1 (ci_own _ _ _ _ HI s) Hs') as [h Hh]. exists h.
  split; [done|]. split; [done|]. split; [done|].
  destruct (ci_hdr _ _ _ _ HI s h Hs' (proj1 Hh)) as [_ ->]. case_bool_decide as Hr; [right|by left]. split; [done|].
  unfold carved in Hc. apply elem_of_app in Hc as [Hc|Hc].
  - exfalso. apply list_elem_of_bind in Hc as (s' & Hc & Hin). destruct (ci_k sa ac t L Hwf HI) as (k & _ & Ek & Hk & _).
    assert (is_chunk (allocationSize_ ac) s' x) by (revert Hc; apply chunks_is; case_decide; lia).
    assert (s' = s) as ->.
    { rewrite <- Es. symmetry. apply (chunk_place sa ac t L Hwf HI s' x); [unfold slabs; set_solver|done]. }
    pose proof (ci_nodup _ _ _ _ HI) as (_ & Hd & _)%list.NoDup_app. apply (Hd s Hin). set_solver.
  - apply list_elem_of_bind in Hc as ([s' bits] & Hc & Hin%elem_of_map_to_list). simpl in Hc.
    assert (is_chunk (allocationSize_ ac) s' x).
    { revert Hc. apply clear_is. by apply (ci_bits _ _ _ _ HI s'). }
    assert (s' = s) as ->.
    { rewrite <- Es. symmetry. apply (chunk_place sa ac t L Hwf HI s' x); [|done]. unfold slabs. rewrite !elem_of_app.
      right; right. apply releasing_elem. by exists bits. }
    apply elem_clear in Hc as (i & Hi & ->). exists bits, i. split; [done|]. split; [done|lia].
Qed.

(** The bit of a chunk is set. *)
Lemma CInv_set_bit sa ac t L x s bits (i : nat) : SAWf sa -> CInv sa ac t (x :: L) ->
  slabReleaseAllocMap_ ac !! s = Some bits -> bits !! i = Some false -> x = s + Z.of_nat i * allocationSize_ ac ->
  CInv sa (set_map (<[s := <[i := true]> bits]> (slabReleaseAllocMap_ ac)) ac) t L.
Proof.
  intros Hwf HI Hb Hi ->. set (ac' := set_map _ ac).
  assert (Hr : releasing ac' ≡ₚ releasing ac) by (by apply releasing_update with bits).
  assert (Hsl : slabs ac' ≡ₚ slabs ac) by (unfold slabs; by rewrite Hr).
  destruct HI. split; try done.
  - by rewrite Hsl.
  - intros s'. by rewrite Hsl, ci_own0.
  - intros s' h. rewrite Hsl. intros Hs' Hh. destruct (ci_hdr0 s' h Hs' Hh) as [? ->]. split; [done|].
    apply bool_decide_ext. by rewrite Hr.
  - intros s' bits' Hb'. simpl in Hb'. destruct (decide (s' = s)) as [-> | Hne].
    + rewrite lookup_insert_eq in Hb'. simplify_eq. rewrite length_insert. by apply (ci_bits0 s).
    + rewrite lookup_insert_ne in Hb' by done. by apply (ci_bits0 s').
  - assert (Hc : carved ac ≡ₚ (s + Z.of_nat i * allocationSize_ ac) :: carved ac').
    { unfold carved. simpl. rewrite (unclear_delete _ _ s bits Hb), (unclear_update _ _ s bits _ Hb).
      rewrite (clear_set _ s 0 bits i Hi). simpl. by rewrite <- Permutation_middle. }
    apply (Permutation_cons_inv (a := s + Z.of_nat i * allocationSize_ ac)). rewrite <- Hc, <- ci_perm0.
    by rewrite <- Permutation_middle.
  - simpl. rewrite ci_active0, map_size_insert_Some by done. done.
  - intros x'. rewrite Hr. apply ci_clean0.
Qed.

(** Freeing a live chunk succeeds and takes it from the clients. *)
Lemma ac_free_ok sa ac t L x : SAWf sa -> CInv sa ac t (x :: L) ->
  runs (ac_free x) (mkCS sa ac) (fun r w => r = inr tt /\ cs_sa w = sa /\ same_class ac (cs_ac w) /\ CInv sa (cs_ac w) t L).
Proof.
  intros Hwf HI. pose proof (ci_size _ _ _ _ HI) as Hsz.
  destruct (live_where sa ac t (x :: L) x Hwf HI ltac:(left)) as (s & h & Es & Hs & (Hh & Ep & Ec) & Hcase).
  unfold ac_free. csteps. rewrite (getSlabHeader_mem_eq sa Hwf), Es.
  rewrite (getSlabHeader_valid sa Hwf s) by (by apply (hdr_valid sa Hwf s h)).
  rewrite <- (getSlabHeader_valid sa Hwf s) by (by apply (hdr_valid sa Hwf s h)).
  eapply runs_read; [done..|]. csteps. rewrite Ec, Z.eqb_refl. simpl.
  destruct Hcase as [Em0 | (-> & bits & i & Hb & Hi & ->)].
  - rewrite Em0. csteps. split; [done|]. split; [done|]. split; [done|].
    pose proof (ci_hdr _ _ _ _ HI s h Hs Hh) as [_ Em]. destruct HI. split; simpl; try done.
    + by rewrite Permutation_middle.
    + intros y [-> | Hy]%elem_of_cons; [|by apply ci_clean0]. rewrite Es. change (releasing _) with (releasing ac).
      intros Hr. rewrite bool_decide_eq_true_2 in Em by done. congruence.
  - rewrite Hb. assert (Z.of_nat i < per_slab (allocationSize_ ac)).
    { rewrite <- (ci_bits _ _ _ _ HI s bits Hb). apply lookup_lt_Some in Hi. lia. }
    apply getAllocIdx_ok; [done|lia|]. eapply runs_lift; [by rewrite aget_nat|]. csteps.
    split; [done|]. split; [done|]. split; [done|]. simpl. unfold aput. rewrite Nat2Z.id.
    by eapply CInv_set_bit.
Qed.

End SlabOps.
