(* ===== verification/SlabRelease.v ===== *)
(** * SlabRelease: the scopes of a slab release keep the invariant of a class

    One lemma per scope in which [startSlabRelease], [abortSlabRelease] and
    [completeSlabRelease] hold the lock, so that they can be composed in one
    call or interleaved with the calls of other threads. *)

From Stdlib Require Import ZArith Lia.
From stdpp Require Import base list gmap numbers.
From S2P Require Import Prelude Types Slab SlabClass SlabInv SlabOps.
Import Types Slab SlabClass SlabFacts SlabInv SlabOps.

Open Scope moon_scope.
Open Scope Z_scope.

Module SlabRelease.

(** ** Removal by swapping with the last element *)

Lemma replace_first_Some x y l : x ∈ l -> exists l1 l2, l = l1 ++ x :: l2 /\ replace_first x y l = Some (l1 ++ y :: l2).
Proof.
  induction l as [|z l IH]; intros Hx; [by apply elem_of_nil in Hx|]. simpl. destruct (Z.eqb_spec z x) as [-> | Hne].
  - by exists [], l.
  - apply elem_of_cons in Hx as [->|Hx]; [done|]. destruct (IH Hx) as (l1 & l2 & -> & ->). by exists (z :: l1), l2.
Qed.

Lemma replace_first_None x y l : x ∉ l -> replace_first x y l = None.
Proof.
  induction l as [|z l IH]; intros Hx; [done|]. simpl. destruct (Z.eqb_spec z x) as [-> | Hne]; [set_solver|].
  by rewrite IH by set_solver.
Qed.

Lemma swap_remove_Some x l : x ∈ l -> exists l', swap_remove x l = Some l' /\ l ≡ₚ x :: l'.
Proof.
  intros Hx. unfold swap_remove. destruct (list.last l) as [y|] eqn:Hy; [|apply last_None in Hy; subst; set_solver].
  destruct (replace_first_Some x y l Hx) as (l1 & l2 & -> & ->). eexists. split; [reflexivity|].
  destruct l2 as [|z l2 _] using rev_ind.
  - rewrite removelast_last, last_snoc in *. simplify_eq. by rewrite Permutation_app_comm.
  - replace (l1 ++ x :: l2 ++ [z]) with ((l1 ++ x :: l2) ++ [z]) in * by (by rewrite <- app_assoc).
    rewrite last_snoc in Hy. simplify_eq.
    replace (l1 ++ y :: l2 ++ [y]) with ((l1 ++ y :: l2) ++ [y]) by (by rewrite <- app_assoc).
    rewrite removelast_last. rewrite <- !Permutation_middle, Permutation_app_comm. simpl. by rewrite Permutation_swap.
Qed.

Lemma swap_remove_None x l : x ∉ l -> swap_remove x l = None.
Proof. intros Hx. unfold swap_remove. destruct (list.last l); [|done]. by rewrite replace_first_None. Qed.

(** ** Slabs that change hands *)

(** The class gives up slab [s]: its new lists hold the other slabs and the
    header no longer names the class. *)
Lemma CInv_own_lose sa ac ac' s h h' : SAWf sa -> hdr sa s = Some h -> same_class ac ac' ->
  (forall s, s ∈ slabs ac <-> exists h, of_class sa (ac_poolId ac) (ac_classId ac) s h) ->
  slabs ac ≡ₚ s :: slabs ac' -> NoDup (slabs ac) -> h_classId h' <> ac_classId ac ->
  forall s', s' ∈ slabs ac' <-> exists h, of_class (put sa s h') (ac_poolId ac') (ac_classId ac') s' h.
Proof.
  intros Hwf Hh (E1 & E2 & _) Hown HP ND Hc s'. rewrite HP in ND. apply list.NoDup_cons in ND as [Hs _].
  rewrite E1, E2. destruct (decide (s' = s)) as [-> | Hne].
  - split; [done|]. intros (h1 & Hh1 & _ & Ec). rewrite (hdr_put_eq sa Hwf s h) in Hh1 by done. simplify_eq.
  - pose proof (Hown s') as Ho. unfold of_class in *. rewrite (hdr_put_ne sa Hwf s s' h) by done.
    rewrite <- Ho, HP, elem_of_cons. naive_solver.
Qed.

(** The class keeps its slabs and rewrites the header of one of them. *)
Lemma CInv_own_keep sa ac ac' s h h' : SAWf sa -> of_class sa (ac_poolId ac) (ac_classId ac) s h -> same_class ac ac' ->
  (forall s, s ∈ slabs ac <-> exists h, of_class sa (ac_poolId ac) (ac_classId ac) s h) ->
  slabs ac' ≡ₚ slabs ac -> h_classId h' = h_classId h -> h_poolId h' = h_poolId h ->
  forall s', s' ∈ slabs ac' <-> exists h, of_class (put sa s h') (ac_poolId ac') (ac_classId ac') s' h.
Proof.
  intros Hwf (Hh & Ep & Ec) (E1 & E2 & _) Hown HP Hc Hp s'. rewrite E1, E2, HP, Hown.
  destruct (decide (s' = s)) as [-> | Hne].
  - split; intros _; [|by exists h]. exists h'. split; [by apply (hdr_put_eq sa Hwf s h)|]. split; congruence.
  - unfold of_class. by rewrite (hdr_put_ne sa Hwf s s' h) by done.
Qed.

(** Headers of the slabs other than [s] are as before. *)
Lemma CInv_hdr_put sa ac ac' s h h' : SAWf sa -> hdr sa s = Some h ->
  (forall s h, s ∈ slabs ac -> hdr sa s = Some h ->
    h_allocSize h = allocationSize_ ac /\ isMarkedForRelease h = bool_decide (s ∈ releasing ac)) ->
  allocationSize_ ac' = allocationSize_ ac ->
  (forall s', s' <> s -> s' ∈ slabs ac' -> s' ∈ slabs ac /\ (s' ∈ releasing ac' <-> s' ∈ releasing ac)) ->
  (s ∈ slabs ac' -> h_allocSize h' = allocationSize_ ac' /\ isMarkedForRelease h' = bool_decide (s ∈ releasing ac')) ->
  forall s' k, s' ∈ slabs ac' -> hdr (put sa s h') s' = Some k ->
    h_allocSize k = allocationSize_ ac' /\ isMarkedForRelease k = bool_decide (s' ∈ releasing ac').
Proof.
  intros Hwf Hh Hold Es Hother Hs s' k Hin Hk. destruct (decide (s' = s)) as [-> | Hne].
  - rewrite (hdr_put_eq sa Hwf s h) in Hk by done. simplify_eq. by apply Hs.
  - rewrite (hdr_put_ne sa Hwf s s' h) in Hk by done. destruct (Hother s' Hne Hin) as [H1 H2].
    destruct (Hold s' k H1 Hk) as [? ->]. split; [congruence|]. by apply bool_decide_ext.
Qed.

(** ** Picking a slab *)

Definition pick_post (sa : SlabAllocator) (ac : AllocationClass) (L : list Z)
    (r : Res (Z * option Z * bool)) (w : CS) : Prop :=
  same_class ac (cs_ac w) /\
  (r = inl invalid_argument /\ w = mkCS sa ac \/
   exists s h, of_class sa (ac_poolId ac) (ac_classId ac) s h /\ isMarkedForRelease h = false /\
     (r = inr (s, Some (idx sa s), true) /\ cs_sa w = put sa s (set_class kInvalidClassId 0 h) /\
      CInv (cs_sa w) (cs_ac w) None L \/
      r = inr (s, Some (idx sa s), false) /\ cs_sa w = put sa s (setMarkedForRelease true h) /\
      s ∈ releasing (cs_ac w) /\ CInv (cs_sa w) (cs_ac w) (Some s) L)).

Lemma release_free_slab sa ac t L s h fs : SAWf sa -> 0 <= ac_classId ac -> CInv sa ac t L ->
  of_class sa (ac_poolId ac) (ac_classId ac) s h -> ac_freeSlabs ac ≡ₚ s :: fs ->
  CInv (put sa s (set_class kInvalidClassId 0 h)) (set_ac_free fs ac) t L.
Proof.
  intros Hwf Hid HI Hs Hfs. set (ac' := set_ac_free fs ac).
  assert (HP : slabs ac ≡ₚ s :: slabs ac').
  { unfold slabs. rewrite Hfs. simpl. by rewrite <- Permutation_middle. }
  pose proof HI as []. split; try done.
  - rewrite HP in ci_nodup0. by apply list.NoDup_cons in ci_nodup0 as [_ ?].
  - apply (CInv_own_lose sa ac ac' s h); try done; [apply Hs|]. simpl. unfold kInvalidClassId. lia.
  - apply (CInv_hdr_put sa ac ac' s h); try done; [apply Hs| |].
    + intros s' Hne Hs'. rewrite HP. split; [by right|done].
    + intros Hin. rewrite HP in ci_nodup0. by apply list.NoDup_cons in ci_nodup0 as [? _].
  - intros E. destruct (ci_can0 E) as (? & E2 & ?). rewrite E2 in Hfs. by apply Permutation_nil_cons in Hfs.
Qed.

(** The chunks of a slab as bits: carved ones are clear, the rest is free. *)
Lemma clear_uncarved size s (n k : Z) : 0 <= k <= n ->
  clear size s 0 (free_uncarved k (replicate (Z.to_nat n) false)) = chunks size s k.
Proof.
  intros Hk. unfold free_uncarved. rewrite take_replicate, length_replicate, clear_app, clear_all_true, app_nil_r.
  rewrite Nat.min_l by lia. rewrite clear_replicate, Z2Nat.id by lia. done.
Qed.

(** A slab in use is marked for release; its bits record what is carved. *)
Lemma release_used_slab sa ac L s h rest bits curr off : SAWf sa -> 0 <= ac_classId ac -> CInv sa ac None L ->
  of_class sa (ac_poolId ac) (ac_classId ac) s h -> allocatedSlabs_ ac ≡ₚ s :: rest ->
  Z.of_nat (length bits) = per_slab (allocationSize_ ac) ->
  clear (allocationSize_ ac) s 0 bits = chunks (allocationSize_ ac) s
     (if decide (s = currSlab_ ac) then currOffset_ ac / allocationSize_ ac else per_slab (allocationSize_ ac)) ->
  curr = (if decide (s = currSlab_ ac) then 0 else currSlab_ ac) -> off = (if decide (s = currSlab_ ac) then 0 else currOffset_ ac) ->
  CInv (put sa s (setMarkedForRelease true h))
    (set_curr curr off (set_allocated rest (set_map (<[s := bits]> (slabReleaseAllocMap_ ac)) ac))) (Some s) L.
Proof.
  intros Hwf Hid HI Hs Hal Hlen Hclear -> ->. set (ac' := set_curr _ _ _).
  pose proof (ci_valid sa ac None L Hwf HI) as Hval. pose proof HI as [].
  assert (Hin : s ∈ allocatedSlabs_ ac) by (rewrite Hal; left).
  assert (Hnr : slabReleaseAllocMap_ ac !! s = None).
  { apply eq_None_not_Some. rewrite <- releasing_elem. intros Hr. unfold slabs in ci_nodup0.
    apply list.NoDup_app in ci_nodup0 as (_ & Hd & _). apply (Hd s Hin). set_solver. }
  assert (Hrel : releasing ac' ≡ₚ s :: releasing ac) by (by apply releasing_insert).
  assert (HP : slabs ac' ≡ₚ slabs ac).
  { unfold slabs. rewrite Hrel, Hal. simpl. by rewrite <- !Permutation_middle. }
  assert (Hcs : forall x, x ∈ rest -> x <> s).
  { intros x Hx ->. unfold slabs in ci_nodup0. rewrite Hal in ci_nodup0. simpl in ci_nodup0.
    apply list.NoDup_cons in ci_nodup0 as [Hn _]. apply Hn. set_solver. }
  assert (H0 : 0 ∉ rest).
  { intros Hx. pose proof (valid_bounds sa Hwf 0 (Hval 0 ltac:(unfold slabs; rewrite Hal; set_solver))). lia. }
  split; try done.
  - by rewrite HP.
  - apply (CInv_own_keep sa ac ac' s h); done.
  - apply (CInv_hdr_put sa ac ac' s h); try done; [apply Hs| |].
    + intros s' Hne Hs'. rewrite HP in Hs'. split; [done|]. rewrite Hrel, elem_of_cons. naive_solver.
    + intros _. split; [|rewrite marked_set; symmetry; apply bool_decide_eq_true; rewrite Hrel; left].
      destruct (ci_hdr0 s h) as [E _]; [unfold slabs; set_solver|apply Hs|done].
  - simpl. case_decide as E; [by left|]. destruct ci_curr0 as [|Hc]; [by left|right]. rewrite Hal in Hc. set_solver.
  - simpl. case_decide; [|done]. exists 0. pose proof (per_slab_bounds _ ci_size0). lia.
  - intros s' bits' Hb. simpl in Hb. destruct (decide (s' = s)) as [-> | Hne].
    + rewrite lookup_insert_eq in Hb. by simplify_eq.
    + rewrite lookup_insert_ne in Hb by done. by apply (ci_bits0 s').
  - change (freedAllocations_ ac') with (freedAllocations_ ac). rewrite ci_perm0. unfold carved. rewrite Hal, carve_cons.
    unfold ac'. cbn [allocationSize_ currSlab_ currOffset_ allocatedSlabs_ slabReleaseAllocMap_ set_curr set_allocated set_map].
    rewrite (unclear_insert _ _ s bits Hnr), Hclear.
    assert (carve (allocationSize_ ac) (if decide (s = currSlab_ ac) then 0 else currSlab_ ac)
              ((if decide (s = currSlab_ ac) then 0 else currOffset_ ac) / allocationSize_ ac) rest =
            carve (allocationSize_ ac) (currSlab_ ac) (currOffset_ ac / allocationSize_ ac) rest) as ->.
    { case_decide as E; [|done]. apply carve_notin; [done|]. intros Hx. by apply (Hcs _ Hx). }
    rewrite (Permutation_app_comm (chunks _ s _)), <- !app_assoc. done.
  - intros E. destruct (ci_can0 E) as (? & ? & Hc). split_and!; try done. simpl. case_decide; [done|].
    unfold canAllocateFromCurrentSlabLocked in *. simpl. done.
  - simpl. rewrite map_size_insert_None by done. lia.
  - intros x Hx. rewrite Hrel, elem_of_cons. intros [-> |Hr]; [done|]. by specialize (ci_clean0 x Hx Hr).
Qed.

Lemma pick_slab_ok sa ac L rnd hint : SAWf sa -> 0 <= ac_classId ac -> CInv sa ac None L ->
  runs (pick_slab rnd hint) (mkCS sa ac) (pick_post sa ac L).
Proof.
  intros Hwf Hid HI. unfold pick_slab. csteps.
  assert (exists s, (if hint =? 0 then getSlabForReleaseLocked rnd ac else Some (getSlabForMemory hint)) = Some s) as [s ->].
  { destruct (hint =? 0); [|by eexists]. unfold getSlabForReleaseLocked.
    destruct (ac_freeSlabs ac); [|by eexists]. destruct (allocatedSlabs_ ac) as [|y l] eqn:E; [by eexists|].
    apply aget_mod. done. }
  apply runs_bind. cbn. assert (Hfail : pick_post sa ac L (inl invalid_argument) (mkCS sa ac)).
  { split; [done|]. by left. }
  destruct (s =? 0) eqn:Es0; [exact Hfail|]. csteps.
  destruct (hdr sa s) as [h|] eqn:Hh.
  2: { unfold hdr in Hh. unfold getSlabHeader. destruct (isValidSlab sa s) eqn:Ev; [|exact Hfail].
       apply (isValidSlab_spec sa Hwf) in Ev. destruct (valid_hdr sa Hwf s Ev) as [h Hh']. unfold hdr in Hh'.
       rewrite (proj2 (isValidSlab_spec sa Hwf s) Ev) in Hh'. congruence. }
  destruct (getSlabHeader_hdr sa Hwf s h Hh) as [Eh _]. rewrite Eh. rewrite <- Eh.
  eapply runs_read; [done..|]. rewrite Eh.
  destruct (h_classId h =? ac_classId ac) eqn:Ec; simpl; [|exact Hfail].
  destruct (h_poolId h =? ac_poolId ac) eqn:Ep; simpl; [|exact Hfail].
  destruct (isMarkedForRelease h) eqn:Em; [exact Hfail|]. zbool.
  assert (Hof : of_class sa (ac_poolId ac) (ac_classId ac) s h) by done.
  assert (Hin : s ∈ slabs ac) by (apply (ci_own _ _ _ _ HI); by exists h).
  destruct (decide (s ∈ ac_freeSlabs ac)) as [Hf|Hf].
  - destruct (swap_remove_Some s _ Hf) as (fs & -> & HP). csteps. apply runs_bind. rewrite <- Eh. eapply runs_write; [done..|].
    split; [done|]. right. exists s, h. split; [done|]. split; [done|]. left. rewrite Eh. split; [done|]. split; [done|].
    by apply release_free_slab.
  - rewrite swap_remove_None by done.
    assert (Hnr : s ∉ releasing ac).
    { intros Hr. destruct (ci_hdr _ _ _ _ HI s h Hin Hh) as [_ E]. rewrite bool_decide_eq_true_2 in E by done. congruence. }
    assert (Ha : s ∈ allocatedSlabs_ ac) by (unfold slabs in Hin; set_solver).
    apply runs_bind. rewrite <- Eh. eapply runs_write; [done..|]. apply runs_bindx.
    unfold createSlabReleaseAllocMapLocked. csteps.
    destruct (slabReleaseAllocMap_ ac !! s) eqn:Em'; [exfalso; apply Hnr, releasing_elem; by eexists|]. csteps.
    apply runs_ret. destruct (swap_remove_Some s _ Ha) as (rest & -> & HP). csteps.
    destruct (ci_k sa ac None L Hwf HI) as (k & Eo & Ek & Hk & _). pose proof (ci_size _ _ _ _ HI) as Hsz.
    pose proof (per_slab_bounds _ Hsz) as Hpb.
    assert (Eps : getAllocsPerSlab ac = per_slab (allocationSize_ ac)).
    { unfold getAllocsPerSlab. apply u32_small. unfold per_slab in *. rewrite kSize_eq in *. lia. }
    assert (Hlen : Z.of_nat (length (replicate (Z.to_nat (getAllocsPerSlab ac)) false)) = per_slab (allocationSize_ ac)).
    { rewrite length_replicate. lia. }
    assert (Hpost : forall bits curr off, Z.of_nat (length bits) = per_slab (allocationSize_ ac) ->
      clear (allocationSize_ ac) s 0 bits = chunks (allocationSize_ ac) s
        (if decide (s = currSlab_ ac) then currOffset_ ac / allocationSize_ ac else per_slab (allocationSize_ ac)) ->
      curr = (if decide (s = currSlab_ ac) then 0 else currSlab_ ac) ->
      off = (if decide (s = currSlab_ ac) then 0 else currOffset_ ac) ->
      pick_post sa ac L (inr (s, Some (idx sa s), false)) (mkCS (put sa s (setMarkedForRelease true h))
        (set_curr curr off (set_allocated rest (set_map (<[s := bits]> (slabReleaseAllocMap_ ac)) ac))))).
    { intros bits curr off H1 H2 H3 H4. split; [done|]. right. exists s, h. split; [done|]. split; [done|]. right.
      split; [done|]. split; [done|]. split; [apply releasing_elem; simpl; rewrite lookup_insert_eq; by eexists|].
      by apply release_used_slab. }
    destruct (Z.eqb_spec (currSlab_ ac) s) as [Ecs|Ecs].
    + apply runs_bindx. unfold getSlabReleaseAllocMapLocked. csteps. simpl. rewrite lookup_insert_eq.
      apply runs_ret. apply runs_xdcheck; [apply Z.eqb_eq; lia|]. csteps. rewrite Eh.
      cbn [slabReleaseAllocMap_ set_map set_allocated currOffset_ allocationSize_].
      rewrite insert_insert_eq, Ek.
      apply (Hpost (free_uncarved k (replicate (Z.to_nat (getAllocsPerSlab ac)) false)) 0 0).
      * unfold free_uncarved. rewrite length_app, length_take, !length_replicate. lia.
      * rewrite decide_True by done. rewrite Eps, clear_uncarved by lia. by rewrite Ek.
      * by rewrite decide_True by done.
      * by rewrite decide_True by done.
    + rewrite Eh. apply (Hpost _ (currSlab_ ac) (currOffset_ ac)); [done| | |].
      * rewrite decide_False by congruence. rewrite clear_replicate, Eps, Z2Nat.id by lia. done.
      * by rewrite decide_False by congruence.
      * by rewrite decide_False by congruence.
Qed.

End SlabRelease.
