(* ===== verification/SlabStart.v ===== *)
(** * SlabStart: pruning, the start and the end of a release

    Module [SlabPrune]: pruning the free list of a class, and the end of a
    release.  Module [SlabStart]: whole calls. *)

From Stdlib Require Import ZArith Lia.
From stdpp Require Import base list gmap numbers.
From S2P Require Import Prelude Types Slab SlabClass SlabInv SlabOps SlabRelease.
Import Types Slab SlabClass SlabFacts SlabInv SlabOps SlabRelease.

Open Scope moon_scope.
Open Scope Z_scope.

Module SlabPrune.

(** The chunks the pruning thread has taken offline. *)
Definition offline (p : Prune) : list Z := pr_freeAllocs p ++ pr_inSlab p ++ pr_notInSlab p.

(** A free list being pruned for slab [s]: the chunks offline are in nobody's
    hands but the pruning thread's, and the free list of the class holds no
    chunk of [s] any more. *)
Record PruneInv (sa : SlabAllocator) (ac : AllocationClass) (s : Z) (p : Prune) (L : list Z) : Prop := mkPruneInv {
  pi_inv : CInv sa ac (Some s) (offline p ++ L);
  pi_rel : s ∈ releasing ac;
  pi_in : Forall (fun x => getSlabForMemory x = s) (pr_inSlab p);
  pi_notin : Forall (fun x => getSlabForMemory x <> s) (pr_notInSlab p);
  pi_freed : Forall (fun x => getSlabForMemory x <> s) (freedAllocations_ ac);
  pi_clean : forall x, x ∈ offline p -> getSlabForMemory x ∈ releasing ac -> getSlabForMemory x = s;
}.

(** Chunks move between the free list of the class and other hands. *)
Lemma CInv_move sa ac t L L' fr : CInv sa ac t L -> fr ++ L' ≡ₚ freedAllocations_ ac ++ L ->
  (ac_canAllocate ac = false -> fr = []) ->
  (forall x, x ∈ fr -> getSlabForMemory x ∈ releasing ac -> t = Some (getSlabForMemory x)) -> CInv sa (set_freed fr ac) t L'.
Proof.
  intros [] HP Hfr Hcl. split; try done.
  - by rewrite <- ci_perm0 in * |- *.
  - intros E. destruct (ci_can0 E) as (_ & ? & ?). split_and!; [by apply Hfr|done|done].
Qed.

Lemma CInv_can sa ac t L : CInv sa ac t L -> CInv sa (set_ac_can true ac) t L.
Proof. intros []. by split. Qed.

Section prune.
Context (sa : SlabAllocator) (s : Z) (Hwf : SAWf sa).

Lemma partition_ok n p : valid sa s ->
  Forall (fun x => getSlabForMemory x = s) (pr_inSlab p) -> Forall (fun x => getSlabForMemory x <> s) (pr_notInSlab p) ->
  let p' := partitionFreeAllocs n sa s p in
  offline p' ≡ₚ offline p /\ Forall (fun x => getSlabForMemory x = s) (pr_inSlab p') /\
  Forall (fun x => getSlabForMemory x <> s) (pr_notInSlab p') /\
  (length (pr_freeAllocs p') <= length (pr_freeAllocs p) - n)%nat.
Proof using Hwf.
  intros Hv. revert p. induction n as [|n IH]; intros [fa i o] Hi Ho; unfold partitionFreeAllocs; fold partitionFreeAllocs; simpl in *; [split_and!; try done; lia|].
  destruct fa as [|x fa]; [split_and!; done|]. rewrite (isMemoryInSlab_valid sa Hwf) by done.
  destruct (Z.eqb_spec (getSlabForMemory x) s) as [E|E].
  - destruct (IH (mkPrune fa (x :: i) o)) as (HP & ? & ? & Hl); [by constructor|done|]. simpl in *. split_and!; try done.
    rewrite HP. unfold offline. simpl. by rewrite <- Permutation_middle.
  - destruct (IH (mkPrune fa i (x :: o))) as (HP & ? & ? & Hl); [done|by constructor|]. simpl in *. split_and!; try done.
    rewrite HP. unfold offline. simpl. by rewrite <- !Permutation_middle.
Qed.

(** A batch, as the callers use it. *)
Lemma prune_batch_ok fa : valid sa s -> exists p', partitionFreeAllocs kFreeAllocsPruneLimit sa s (mkPrune fa [] []) = p' /\
  offline p' ≡ₚ fa /\ Forall (fun x => getSlabForMemory x = s) (pr_inSlab p') /\
  Forall (fun x => getSlabForMemory x <> s) (pr_notInSlab p') /\
  (length (pr_freeAllocs p') <= length fa - 1)%nat.
Proof using Hwf.
  intros Hv. pose proof (partition_ok kFreeAllocsPruneLimit (mkPrune fa [] []) Hv) as Hp. cbv zeta in Hp.
  destruct (partitionFreeAllocs _ _ _ _) as [fa' i' o'] in *.
  destruct Hp as (HP & ? & ? & Hl); [constructor..|]. eexists. split; [reflexivity|]. split_and!; [|done|done|].
  - rewrite HP. unfold offline. simpl. by rewrite app_nil_r.
  - cbn [pr_freeAllocs] in *. unfold kFreeAllocsPruneLimit in Hl. lia.
Qed.

Lemma prune_begin_ok ac L : CInv sa ac (Some s) L -> s ∈ releasing ac ->
  runs (prune_begin s) (mkCS sa ac) (fun p w => cs_sa w = sa /\ same_class ac (cs_ac w) /\
    ac_canAllocate (cs_ac w) = ac_canAllocate ac /\
    PruneInv sa (cs_ac w) s p L /\ (length (pr_freeAllocs p) <= length (freedAllocations_ ac))%nat).
Proof using Hwf.
  intros HI Hr. unfold prune_begin. csteps. apply runs_ret.
  assert (Hv : valid sa s) by (apply (ci_valid sa ac (Some s) L Hwf HI); by apply releasing_slabs).
  destruct (prune_batch_ok (freedAllocations_ ac) Hv) as (p' & -> & HP & Hi & Ho & Hl).
  split; [done|]. split; [done|]. split; [done|]. split; [|lia]. split; try done.
  - eapply CInv_move; [exact HI| |done|set_solver]. by rewrite HP.
  - intros x. rewrite HP. intros Hx Hrx. pose proof (ci_clean _ _ _ _ HI x Hx Hrx). congruence.
Qed.

(** The chunks of the slab found in the free list are marked free. *)
Lemma mark_freed_ok ac L inS : CInv sa ac (Some s) (inS ++ L) -> s ∈ releasing ac ->
  Forall (fun x => getSlabForMemory x = s) inS ->
  runs (mark_freed s inS) (mkCS sa ac) (fun r w => r = inr tt /\ cs_sa w = sa /\ same_class ac (cs_ac w) /\
    freedAllocations_ (cs_ac w) = freedAllocations_ ac /\ ac_canAllocate (cs_ac w) = ac_canAllocate ac /\
    (forall x, x ∈ releasing (cs_ac w) <-> x ∈ releasing ac) /\ CInv sa (cs_ac w) (Some s) L).
Proof using Hwf.
  revert ac. induction inS as [|x inS IH]; intros ac HI Hr Hin; simpl; [by apply runs_ret|].
  apply list.Forall_cons in Hin as [Hx Hin].
  assert (Hv : valid sa s) by (apply (ci_valid sa ac _ _ Hwf HI); by apply releasing_slabs).
  destruct (live_where sa ac _ _ x Hwf HI ltac:(left)) as (s' & h & Es & Hs & (Hh & _) & Hcase).
  rewrite Hx in Es. subst s'.
  destruct (ci_hdr _ _ _ _ HI s h Hs Hh) as [_ Em]. rewrite bool_decide_eq_true_2 in Em by done.
  destruct Hcase as [Em'|(_ & bits & i & Hb & Hi & Exi)]; [congruence|].
  apply runs_bind. csteps. unfold xdcheck. rewrite (isMemoryInSlab_valid sa Hwf), Hx, Z.eqb_refl by done. apply runs_ret.
  assert (Z.of_nat i < per_slab (allocationSize_ ac)).
  { rewrite <- (ci_bits _ _ _ _ HI s bits Hb). apply lookup_lt_Some in Hi. lia. }
  rewrite Exi. apply getAllocIdx_ok; [apply (ci_size _ _ _ _ HI)|lia|].
  apply runs_bindx. unfold getSlabReleaseAllocMapLocked. csteps. rewrite Hb. apply runs_ret.
  eapply runs_lift; [by rewrite aget_nat|]. csteps. unfold aput. rewrite Nat2Z.id.
  pose proof (CInv_set_bit sa ac _ (inS ++ L) x s bits i Hwf HI Hb Hi Exi) as HI1.
  eapply runs_mono; [refine (IH _ HI1 _ Hin); apply releasing_elem; simpl; rewrite lookup_insert_eq; by eexists|].
  intros r w (-> & E & Hsc & Ef & Ec & Hrel & ?). split_and!; try done. intros y. rewrite Hrel.
  unfold releasing. simpl. by rewrite (releasing_update _ s bits).
Qed.

Lemma prune_locked_ok ac p L : PruneInv sa ac s p L ->
  runs (prune_locked s p) (mkCS sa ac) (fun r w => r = inr (mkPrune (pr_freeAllocs p) [] []) /\ cs_sa w = sa /\
    same_class ac (cs_ac w) /\ PruneInv sa (cs_ac w) s (mkPrune (pr_freeAllocs p) [] []) L).
Proof using Hwf.
  intros [HI Hr Hi Ho Hf Hcl]. unfold prune_locked. apply runs_bind.
  apply (runs_mono _ _ (fun _ w => exists ac1, w = mkCS sa ac1 /\ same_class ac ac1 /\ releasing ac1 = releasing ac /\
    CInv sa ac1 (Some s) (pr_inSlab p ++ pr_freeAllocs p ++ L) /\ Forall (fun x => getSlabForMemory x <> s) (freedAllocations_ ac1))).
  { unfold offline in HI. destruct (pr_notInSlab p) as [|x o] eqn:E.
    - apply runs_ret. exists ac. split_and!; try done. eapply CInv_perm; [|exact HI].
      rewrite app_nil_r, <- app_assoc. apply Permutation_app_swap_app.
    - csteps. eexists. split; [reflexivity|]. split; [done|]. split; [done|]. split.
      + rewrite <- E in *. eapply (CInv_move sa (set_ac_can true ac)); [by apply CInv_can| |done|].
        * simpl. solve_Permutation.
        * intros y [Hy|Hy]%elem_of_app Hry; [f_equal; symmetry; apply Hcl; [unfold offline; set_solver|done]|].
          by apply (ci_clean _ _ _ _ HI).
      + apply (list.Forall_app _ (x :: o) (freedAllocations_ ac)). split; done. }
  intros [] w (ac1 & -> & Hsc & Er1 & HI1 & Hf1). assert (Hr1 : s ∈ releasing ac1) by (by rewrite Er1). apply runs_bindx. unfold getSlabReleaseAllocMapLocked. csteps.
  pose proof Hr1 as [bits Eb]%releasing_elem. rewrite Eb. apply runs_ret. apply runs_bindx.
  eapply runs_mono; [by apply (mark_freed_ok ac1 (pr_freeAllocs p ++ L))|].
  intros r [sa2 ac2] (-> & E2 & Hsc2 & Ef2 & _ & Hr2 & HI2). simpl in *. subst sa2. apply runs_ret.
  split; [done|]. split; [done|]. split; [by eapply same_class_trans|]. split; try done; simpl.
  - unfold offline. simpl. by rewrite app_nil_r.
  - by apply Hr2.
  - by rewrite Ef2.
  - intros x Hx. rewrite Hr2, Er1. apply Hcl. unfold offline in *. simpl in Hx. set_solver.
Qed.

(** The loop ends: with enough fuel every batch shortens the list offline. *)
Lemma prune_loop_ok fuel i abort ac p L : PruneInv sa ac s p L -> (length (pr_freeAllocs p) < fuel)%nat ->
  runs (prune_loop fuel i abort s p) (mkCS sa ac) (fun r w => cs_sa w = sa /\ same_class ac (cs_ac w) /\
    exists b p', r = inr (b, p') /\ PruneInv sa (cs_ac w) s p' L /\
      (b = true /\ (exists j, abort j = true) \/ b = false /\ offline p' = [])).
Proof using Hwf.
  revert i ac p. induction fuel as [|fuel IH]; intros i ac p HP Hl; [lia|]. simpl.
  destruct (abort i) eqn:Ea.
  { apply runs_ret. split; [done|]. split; [done|]. exists true, p. split; [done|]. split; [done|]. left. split; [done|]. by exists i. }
  apply runs_bindx. eapply runs_mono; [by apply prune_locked_ok|]. intros r [sa1 ac1] (-> & E1 & Hsc & HP1). simpl in *. subst sa1.
  destruct (pr_freeAllocs p) as [|x fa] eqn:Efa.
  { apply runs_ret. split; [done|]. split; [done|]. exists false, (mkPrune [] [] []). split; [done|]. split; [done|]. by right. }
  csteps.
  assert (Hv : valid sa s).
  { pose proof HP1 as [HI1 Hr1 _ _ _ _]. apply (ci_valid sa ac1 _ _ Hwf HI1). by apply releasing_slabs. }
  destruct (prune_batch_ok (x :: fa) Hv) as (p' & -> & HPm & Hi' & Ho' & Hl').
  eapply runs_mono; [apply IH|].
  - destruct HP1. split; try done.
    + eapply CInv_perm; [|exact pi_inv0]. rewrite HPm. unfold offline. simpl. by rewrite app_nil_r.
    + intros y. rewrite HPm. intros Hy. apply pi_clean0. unfold offline. simpl. by rewrite app_nil_r.
  - simpl in *. lia.
  - intros r [sa2 ac2] (E2 & Hsc2 & Hr). simpl in *. split; [done|]. split; [by eapply same_class_trans|]. done.
Qed.

Lemma active_from_eq size off bits (w : CS) : 0 < size -> off + Z.of_nat (length bits) * size <= kSize ->
  active_from s off size bits w = Some (clear size s off bits, w).
Proof using Type.
  intros Hs. revert off. induction bits as [|b bits IH]; intros off Ho; [done|]. simpl in *.
  assert (off + size + Z.of_nat (length bits) * size <= kSize) by lia. destruct b; simpl; [by apply IH|].
  unfold bind, memoryAtOffset, xdcheck. rewrite (proj2 (Z.ltb_lt off kSize)) by lia. simpl. by rewrite IH.
Qed.

(** The chunks collected are the live ones of the slab. *)
Lemma prune_collect_ok ac t L : CInv sa ac t L -> s ∈ releasing ac ->
  Forall (fun x => getSlabForMemory x <> s) (freedAllocations_ ac) ->
  runs (prune_collect s) (mkCS sa ac) (fun r w => w = mkCS sa ac /\ exists bits, slabReleaseAllocMap_ ac !! s = Some bits /\
    r = inr (clear (allocationSize_ ac) s 0 bits) /\
    (forall x, x ∈ clear (allocationSize_ ac) s 0 bits <-> x ∈ L /\ getSlabForMemory x = s)).
Proof using Hwf.
  intros HI Hr Hf. unfold prune_collect, getSlabReleaseAllocMapLocked. apply runs_bindx. csteps.
  pose proof Hr as [bits Eb]%releasing_elem. rewrite Eb. apply runs_ret. csteps.
  pose proof (ci_size _ _ _ _ HI) as Hs. pose proof (per_slab_bounds _ Hs). pose proof (ci_bits _ _ _ _ HI s bits Eb).
  apply runs_bind. eapply runs_eq; [apply active_from_eq; [lia|nia]|]. apply runs_ret. split; [done|]. exists bits. split; [done|]. split; [done|].
  assert (Hss : s ∈ slabs ac) by (by apply releasing_slabs).
  intros x. split.
  - intros Hx. assert (getSlabForMemory x = s) as E.
    { apply (chunk_place sa ac t L Hwf HI s x Hss). by apply (clear_is _ s bits). }
    split; [|done]. assert (Hc : x ∈ carved ac).
    { unfold carved. apply elem_of_app. right. unfold unclear. apply list_elem_of_bind. exists (s, bits).
      split; [done|]. by apply elem_of_map_to_list. }
    rewrite <- (ci_perm _ _ _ _ HI), elem_of_app in Hc. destruct Hc as [Hc|Hc]; [|done].
    rewrite list.Forall_forall in Hf. by destruct (Hf x Hc).
  - intros [Hx E]. destruct (live_where sa ac t L x Hwf HI Hx) as (s' & h & Es & _ & (Hh & _) & Hcase).
    rewrite E in Es. subst s'. destruct (ci_hdr _ _ _ _ HI s h Hss Hh) as [_ Em]. rewrite bool_decide_eq_true_2 in Em by done.
    destruct Hcase as [|(_ & bits' & i & Eb' & Hi & ->)]; [congruence|]. rewrite Eb in Eb'. simplify_eq.
    apply elem_clear. exists i. split; [done|lia].
Qed.

End prune.

(** ** The end of a release *)

(** A released slab without live chunks is given up. *)
Lemma release_done sa ac t L s h bits : SAWf sa -> 0 <= ac_classId ac -> CInv sa ac t L ->
  slabReleaseAllocMap_ ac !! s = Some bits -> clear (allocationSize_ ac) s 0 bits = [] ->
  of_class sa (ac_poolId ac) (ac_classId ac) s h -> (t = Some s \/ t = None) ->
  CInv (put sa s (setMarkedForRelease false (set_class kInvalidClassId 0 h)))
    (set_active (activeReleases_ ac - match t with Some _ => 0 | None => 1 end)
      (set_map (delete s (slabReleaseAllocMap_ ac)) ac)) None L.
Proof.
  intros Hwf Hid HI Hb Hcl Hs Ht. set (ac' := set_active _ _). pose proof HI as [].
  assert (Hrel : releasing ac ≡ₚ s :: releasing ac') by (by apply releasing_delete with bits).
  assert (HP : slabs ac ≡ₚ s :: slabs ac').
  { unfold slabs. rewrite Hrel. by rewrite <- !Permutation_middle. }
  assert (Hns : s ∉ slabs ac') by (rewrite HP in ci_nodup0; by apply list.NoDup_cons in ci_nodup0 as [? _]).
  split; try done.
  - rewrite HP in ci_nodup0. by apply list.NoDup_cons in ci_nodup0 as [_ ?].
  - apply (CInv_own_lose sa ac ac' s h); try done; [apply Hs|]. simpl. unfold kInvalidClassId. lia.
  - apply (CInv_hdr_put sa ac ac' s h); try done; [apply Hs|].
    intros s' Hne Hs'. rewrite HP, Hrel. split; [by right|]. rewrite elem_of_cons. naive_solver.
  - intros s' bits'. simpl. intros [_ Hb']%lookup_delete_Some. by apply (ci_bits0 s').
  - change (freedAllocations_ ac') with (freedAllocations_ ac). rewrite ci_perm0. unfold carved.
    rewrite (unclear_delete _ _ s bits Hb), Hcl. done.
  - simpl. rewrite map_size_delete_Some by (by exists bits). pose proof (map_size_non_empty_iff (slabReleaseAllocMap_ ac)).
    assert (size (slabReleaseAllocMap_ ac) <> 0%nat).
    { intros E. apply map_size_empty_inv in E. rewrite E in Hb. by rewrite lookup_empty in Hb. }
    destruct t; lia.
  - intros x Hx Hrx. assert (Hrx' : getSlabForMemory x ∈ releasing ac) by (rewrite Hrel; by right).
    pose proof (ci_clean0 x Hx Hrx') as E. destruct Ht as [-> | ->]; [|done]. injection E as E. rewrite <- E in Hrx.
    exfalso. by apply Hns, releasing_slabs.
Qed.

Lemma release_pruned_ok sa ac L s h bits mode active : SAWf sa -> 0 <= ac_classId ac -> CInv sa ac (Some s) L ->
  slabReleaseAllocMap_ ac !! s = Some bits -> of_class sa (ac_poolId ac) (ac_classId ac) s h ->
  Forall (fun x => getSlabForMemory x <> s) (freedAllocations_ ac) ->
  (active = [] -> clear (allocationSize_ ac) s 0 bits = []) ->
  runs (release_pruned s (Some (idx sa s)) active mode) (mkCS sa ac) (fun c w =>
    same_class ac (cs_ac w) /\ CInv (cs_sa w) (cs_ac w) None L /\
    (active = [] /\ c = mkCtx s (ac_poolId ac) kInvalidClassId [] kInvalidClassId mode /\
     cs_sa w = put sa s (setMarkedForRelease false (set_class kInvalidClassId 0 h)) \/
     active <> [] /\ c = mkCtx s (ac_poolId ac) (ac_classId ac) active kInvalidClassId mode /\ cs_sa w = sa /\
     s ∈ releasing (cs_ac w))).
Proof.
  intros Hwf Hid HI Hb Hof Hf Hnil. pose proof Hof as (Hh & Ep & Ec). unfold release_pruned.
  rewrite <- (getSlabHeader_valid sa Hwf s) by (by apply (hdr_valid sa Hwf s h)).
  destruct active as [|x l].
  - specialize (Hnil eq_refl). apply runs_bind. eapply runs_write; [done..|]. csteps. unfold context. set (h' := setMarkedForRelease false _).
    replace (getSlabHeader sa s) with (getSlabHeader (put sa s h') s) by done.
    eapply runs_read; [by apply put_wf|by apply (hdr_put_eq sa Hwf s h)|]. apply runs_ret.
    split; [done|]. split.
    { pose proof (release_done sa ac (Some s) L s h bits Hwf Hid HI Hb Hnil Hof ltac:(by left)) as HD.
      destruct HD. split; simpl in *; try done. lia. } left. split; [done|]. split; [|done].
    f_equal. exact Ep.
  - csteps. unfold context. eapply runs_read; [done..|]. apply runs_ret. split; [done|]. split.
    + destruct HI. split; simpl; try done; [lia|]. intros y Hy Hry. specialize (ci_clean0 y Hy Hry). injection ci_clean0 as E.
      rewrite list.Forall_forall in Hf. by destruct (Hf y Hy).
    + right. split; [done|]. split; [by rewrite Ep, Ec|]. split; [done|]. apply releasing_elem. by exists bits.
Qed.

(** ** Completing and aborting *)

Lemma ac_complete_ok sa ac L ctx h : SAWf sa -> 0 <= ac_classId ac -> CInv sa ac None L -> isReleased ctx = false ->
  ctx_slab ctx ∈ releasing ac -> of_class sa (ac_poolId ac) (ac_classId ac) (ctx_slab ctx) h ->
  runs (ac_completeSlabRelease ctx) (mkCS sa ac) (fun r w => same_class ac (cs_ac w) /\ CInv (cs_sa w) (cs_ac w) None L /\
    (r = inr Waiting /\ w = mkCS sa ac /\ (exists x, x ∈ L /\ getSlabForMemory x = ctx_slab ctx) \/
     r = inr Completed /\ cs_sa w = put sa (ctx_slab ctx) (setMarkedForRelease false (set_class kInvalidClassId 0 h)) /\
     (forall x, x ∈ L -> getSlabForMemory x <> ctx_slab ctx))).
Proof.
  intros Hwf Hid HI Hnr. unfold ac_completeSlabRelease. rewrite Hnr. generalize (ctx_slab ctx). intros s Hr Hof.
  pose proof Hof as (Hh & Ep & Ec).
  assert (Hv : valid sa s) by (by apply (hdr_valid sa Hwf s h)).
  assert (Hss : s ∈ slabs ac) by (by apply releasing_slabs).
  csteps. rewrite (getSlabHeader_valid sa Hwf s Hv) at 1.
  eapply runs_read; [done..|]. csteps. rewrite Ec, Z.eqb_refl. simpl.
  destruct (ci_hdr _ _ _ _ HI s h Hss Hh) as [_ Em]. rewrite bool_decide_eq_true_2 in Em by done. rewrite Em. simpl.
  apply runs_bindx. unfold allFreed. csteps. pose proof Hr as [bits Eb]%releasing_elem. rewrite Eb. apply runs_ret.
  destruct (forallb (fun b => b) bits) eqn:Eall; simpl.
  - pose proof (proj2 (clear_nil (allocationSize_ ac) s 0 bits) Eall) as Hcl.
    pose proof (release_done sa ac None L s h bits Hwf Hid HI Eb Hcl Hof ltac:(by right)) as HI'. csteps.
    apply runs_bind. eapply runs_write; [done..|]. csteps. apply runs_xdcheck.
    { apply Z.leb_le. pose proof (ci_active _ _ _ _ HI'). simpl in *. lia. }
    apply runs_ret. split; [done|]. split; [done|]. right.
    split; [done|]. split; [done|]. intros x Hx E.
    destruct (live_where sa ac None L x Hwf HI Hx) as (s' & h' & Es & _ & (Hh' & _) & Hcase).
    rewrite E in Es. subst s'. rewrite Hh in Hh'. injection Hh' as <-.
    destruct Hcase as [|(_ & bits' & i & Eb' & Hi & Ex)]; [congruence|]. rewrite Eb in Eb'. injection Eb' as <-.
    assert (Hn : x ∈ clear (allocationSize_ ac) s 0 bits) by (apply elem_clear; exists i; split; [done|lia]).
    rewrite Hcl in Hn. by apply elem_of_nil in Hn.
  - apply runs_ret. split; [done|]. split; [done|]. left. split; [done|]. split; [done|].
    destruct (clear (allocationSize_ ac) s 0 bits) as [|x l] eqn:Ecl.
    { apply (clear_nil (allocationSize_ ac) s 0) in Ecl. congruence. }
    exists x. assert (Hx : x ∈ clear (allocationSize_ ac) s 0 bits) by (rewrite Ecl; left).
    assert (getSlabForMemory x = s).
    { apply (chunk_place sa ac None L Hwf HI s x Hss). apply (clear_is _ s bits); [by apply (ci_bits _ _ _ _ HI s)|done]. }
    assert (Hc : x ∈ carved ac).
    { unfold carved. apply elem_of_app. right. unfold unclear. apply list_elem_of_bind. exists (s, bits).
      split; [done|]. by apply elem_of_map_to_list. }
    rewrite <- (ci_perm _ _ _ _ HI), elem_of_app in Hc. destruct Hc as [Hc|Hc]; [|done].
    exfalso. assert (getSlabForMemory x ∈ releasing ac) as Hrx by congruence.
    pose proof (ci_clean _ _ _ _ HI x Hc Hrx). done.
Qed.

End SlabPrune.

(** ** Whole calls that start and abort a slab release *)

Import Types Slab SlabClass SlabFacts SlabInv SlabOps SlabRelease SlabPrune.

Module SlabStart.

(** A header that belongs to the pool [p] but to no class. *)
Definition unclassed (p : Z) (h : SlabHeader) : Prop :=
  h_poolId h = p /\ h_classId h = kInvalidClassId /\ h_allocSize h = 0 /\ isMarkedForRelease h = false.

(** What a start of a release that is not aborted answers and leaves: nothing
    changed and an error; or the slab is out of the class; or it waits for
    its active chunks. *)
Definition start_post (sa : SlabAllocator) (ac : AllocationClass) (L : list Z) (mode : SlabReleaseMode)
    (r : Res SlabReleaseContext) (w : CS) : Prop :=
  same_class ac (cs_ac w) /\
  (r = inl invalid_argument /\ w = mkCS sa ac \/
   exists s h h', of_class sa (ac_poolId ac) (ac_classId ac) s h /\ isMarkedForRelease h = false /\
     rewrote sa (cs_sa w) s h' /\ CInv (cs_sa w) (cs_ac w) None L /\
     (r = inr (mkCtx s (ac_poolId ac) kInvalidClassId [] kInvalidClassId mode) /\ unclassed (ac_poolId ac) h' /\
      (forall x, x ∈ L -> getSlabForMemory x <> s) \/
      exists active, r = inr (mkCtx s (ac_poolId ac) (ac_classId ac) active kInvalidClassId mode) /\
        h' = setMarkedForRelease true h /\ active <> [] /\ s ∈ releasing (cs_ac w) /\
        (forall x, x ∈ active <-> x ∈ L /\ getSlabForMemory x = s))).

(** No live chunk is in a slab without the class. *)
Lemma live_not_in sa ac t L s h : SAWf sa -> CInv sa ac t L -> hdr sa s = Some h -> h_classId h <> ac_classId ac ->
  forall x, x ∈ L -> getSlabForMemory x <> s.
Proof.
  intros Hwf HI Hh Hc x Hx E. destruct (live_where sa ac t L x Hwf HI Hx) as (s' & h' & Es & _ & (Hh' & _ & Ec) & _).
  rewrite E in Es. subst s'. rewrite Hh in Hh'. injection Hh' as <-. done.
Qed.

Lemma release_pruned_start sa ac L s h0 h bits mode sa0 ac0 : SAWf sa -> 0 <= ac_classId ac -> CInv sa ac (Some s) L ->
  slabReleaseAllocMap_ ac !! s = Some bits -> Forall (fun x => getSlabForMemory x <> s) (freedAllocations_ ac) ->
  (forall x, x ∈ clear (allocationSize_ ac) s 0 bits <-> x ∈ L /\ getSlabForMemory x = s) ->
  same_class ac0 ac -> of_class sa0 (ac_poolId ac0) (ac_classId ac0) s h -> isMarkedForRelease h = false ->
  h0 = setMarkedForRelease true h -> rewrote sa0 sa s h0 ->
  runs (let* c := release_pruned s (Some (idx sa s)) (clear (allocationSize_ ac) s 0 bits) mode in done_ c) (mkCS sa ac)
    (start_post sa0 ac0 L mode).
Proof.
  intros Hwf Hid HI Hb Hf Hact Hsc Hof Hm -> Hrw. pose proof Hsc as (E1 & E2 & E3). pose proof Hof as (Hh & Ep & Ec).
  pose proof Hrw as (_ & _ & Hh1 & _).
  assert (Hof1 : of_class sa (ac_poolId ac) (ac_classId ac) s (setMarkedForRelease true h)) by (split; [done|simpl; split; congruence]).
  apply runs_bind. eapply runs_mono; [by apply (release_pruned_ok sa ac L s (setMarkedForRelease true h) bits mode)|].
  intros c [sa' ac'] (Hsc' & HI' & Hcase). simpl in *. apply runs_ret. split; [by eapply same_class_trans|]. right. exists s, h.
  destruct Hcase as [(Eact & -> & ->)|(Hne & -> & -> & Hr)].
  - eexists. split; [done|]. split; [done|].
    split; [eapply rewrote_trans; [exact Hrw|]; by eapply put_rewrote|]. split; [done|]. left. split; [by rewrite E2|].
    split; [|intros x Hx E; assert (Hn : x ∈ clear (allocationSize_ ac) s 0 bits) by (by apply Hact);
             rewrite Eact in Hn; by apply elem_of_nil in Hn].
    split; [simpl; congruence|]. split; [done|]. split; [done|]. apply marked_unset.
  - eexists. split; [done|]. split; [done|]. split; [exact Hrw|]. split; [done|]. right.
    eexists. split; [by rewrite E1, E2|]. done.
Qed.

Lemma pruneFreeAllocs_ok sa ac L s : SAWf sa -> CInv sa ac (Some s) L -> s ∈ releasing ac ->
  runs (pruneFreeAllocs (fun _ => false) s) (mkCS sa ac) (fun r w => exists ac' bits, w = mkCS sa ac' /\ same_class ac ac' /\
    CInv sa ac' (Some s) L /\ Forall (fun x => getSlabForMemory x <> s) (freedAllocations_ ac') /\
    slabReleaseAllocMap_ ac' !! s = Some bits /\ r = inr (false, clear (allocationSize_ ac') s 0 bits) /\
    (forall x, x ∈ clear (allocationSize_ ac') s 0 bits <-> x ∈ L /\ getSlabForMemory x = s)).
Proof.
  intros Hwf HI Hr. unfold pruneFreeAllocs. csteps. apply runs_bind.
  eapply runs_mono; [by apply (prune_begin_ok sa s Hwf ac L)|].
  intros p [sa1 ac1] (E1 & Hsc1 & _ & HP & Hl). cbn [cs_sa cs_ac] in *. subst sa1. apply runs_bindx.
  eapply runs_mono; [apply (prune_loop_ok sa s Hwf _ 0 (fun _ => false) ac1 p L HP); lia|].
  intros r [sa2 ac2] (E2 & Hsc2 & b & p' & -> & HP2 & Hcase). simpl in *. subst sa2.
  destruct Hcase as [(-> & j & Ej)|(-> & Eoff)]; [done|]. simpl. destruct HP2 as [HI2 Hr2 _ _ Hf2 _]. rewrite Eoff in HI2.
  apply runs_bindx. eapply runs_mono; [by apply (prune_collect_ok sa s Hwf ac2 (Some s) L)|].
  intros r w (-> & bits & Eb & -> & Hact). apply runs_ret. exists ac2, bits. split; [done|].
  split; [by eapply same_class_trans|]. done.
Qed.

Lemma ac_start_ok sa ac L rnd mode hint : SAWf sa -> 0 <= ac_classId ac -> CInv sa ac None L ->
  runs (ac_startSlabRelease (fun _ => false) rnd mode hint) (mkCS sa ac) (start_post sa ac L mode).
Proof.
  intros Hwf Hid HI. unfold ac_startSlabRelease. csteps. destruct (_ && _); [split; [done|by left]|].
  apply runs_bindx. eapply runs_mono; [by apply pick_slab_ok|]. intros r [sa1 ac1] [Hsc Hcase]. simpl in *.
  destruct Hcase as [[-> [= -> ->]]|(s & h & Hof & Hm & Hcase)]; [split; [done|by left]|]. pose proof Hof as (Hh & Ep & Ec).
  assert (Hv : valid sa s) by (by apply (hdr_valid sa Hwf s h)).
  destruct Hcase as [(-> & -> & HI1)|(-> & -> & Hr & HI1)].
  - unfold context. apply runs_bind, runs_bind. rewrite <- (getSlabHeader_valid sa Hwf s Hv). set (h' := set_class _ _ _).
    replace (getSlabHeader sa s) with (getSlabHeader (put sa s h') s) by done. apply runs_on_sa.
    eapply runs_eq; [apply read_ok; [by apply put_wf|by apply (hdr_put_eq sa Hwf s h)]|]. apply runs_ret, runs_ret.
    split; [done|]. right. exists s, h, h'. split; [done|]. split; [done|]. split; [by apply (put_rewrote sa s h)|].
    split; [done|]. left. split; [by rewrite <- Ep|]. split; [by split_and!|].
    eapply (live_not_in (put sa s h') ac1 None L s h'); [by apply put_wf|done|by apply (hdr_put_eq sa Hwf s h)|].
    destruct Hsc as (-> & _). simpl. unfold kInvalidClassId. lia.
  - apply runs_bindx. set (sa1 := put sa s (setMarkedForRelease true h)) in *. assert (Hwf1 : SAWf sa1) by (by apply put_wf).
    eapply runs_mono; [by apply (pruneFreeAllocs_ok sa1 ac1 L s)|].
    intros r w (ac2 & bits & -> & Hsc2 & HI2 & Hf2 & Eb & -> & Hact). simpl. change (idx sa s) with (idx sa1 s).
    eapply (release_pruned_start sa1 ac2 L s _ h bits mode sa ac); try done.
    + destruct Hsc2 as (-> & _), Hsc as (-> & _). done.
    + by eapply same_class_trans.
    + by apply (put_rewrote sa s h).
Qed.

(** ** Aborting a release that waits *)

Lemma clear_negb size s off bits : 
  clear size s off bits ++ clear size s off (negb <$> bits) ≡ₚ clear size s off (replicate (length bits) false).
Proof.
  revert off. induction bits as [|b bits IH]; intros off; [done|]. simpl. rewrite <- (IH (off + size)).
  destruct b; simpl; [by rewrite <- Permutation_middle|done].
Qed.

Lemma push_freed_ok sa ac s i bits : 0 < allocationSize_ ac <= kSize -> 0 <= i ->
  i + Z.of_nat (length bits) <= per_slab (allocationSize_ ac) ->
  push_freed s i bits (mkCS sa ac) = Some (inr (existsb (fun b => b) bits),
    mkCS sa (set_freed (rev (clear (allocationSize_ ac) s (i * allocationSize_ ac) (negb <$> bits)) ++ freedAllocations_ ac) ac)).
Proof.
  intros Hs. revert i ac Hs. induction bits as [|b bits IH]; intros i ac Hs Hi Hl; simpl; [by destruct ac|].
  pose proof (per_slab_bounds _ Hs). simpl in Hl.
  assert (Eps : getAllocsPerSlab ac = per_slab (allocationSize_ ac)).
  { unfold getAllocsPerSlab. apply u32_small. unfold per_slab in *. rewrite kSize_eq in *. lia. }
  destruct (chunk_offset _ Hs i) as [? ?]; [lia|].
  replace (i * allocationSize_ ac + allocationSize_ ac) with ((i + 1) * allocationSize_ ac) by lia.
  destruct b; simpl; [|apply IH; [done|lia|lia]].
  unfold bindx, getAllocForIdx, bind, ac_, gets, memoryAtOffset, xdcheck. simpl.
  rewrite Eps, (proj2 (Z.leb_gt _ i)) by lia. rewrite (proj2 (Z.ltb_lt _ kSize)) by lia. simpl.
  rewrite (IH (i + 1)) by (simpl; done || lia). simpl. by rewrite <- app_assoc.
Qed.

Lemma ac_abort_ok sa ac L ctx h : SAWf sa -> 0 <= ac_classId ac -> CInv sa ac None L -> isReleased ctx = false ->
  ctx_slab ctx ∈ releasing ac -> of_class sa (ac_poolId ac) (ac_classId ac) (ctx_slab ctx) h ->
  runs (ac_abortSlabRelease ctx) (mkCS sa ac) (fun r w => r = inr tt /\ same_class ac (cs_ac w) /\
    CInv (cs_sa w) (cs_ac w) None L /\ ctx_slab ctx ∈ allocatedSlabs_ (cs_ac w) /\
    cs_sa w = put sa (ctx_slab ctx) (setMarkedForRelease false (set_class (ac_classId ac) (allocationSize_ ac) h))).
Proof.
  intros Hwf Hid HI Hnr. unfold ac_abortSlabRelease. rewrite Hnr. generalize (ctx_slab ctx). intros s Hr Hof.
  pose proof Hof as (Hh & Ep & Ec). pose proof (ci_size _ _ _ _ HI) as Hs. pose proof (per_slab_bounds _ Hs) as Hpb.
  pose proof Hr as [bits Eb]%releasing_elem. pose proof (ci_bits _ _ _ _ HI s bits Eb) as Hlen.
  csteps. rewrite Eb. apply runs_bindx. eapply runs_eq; [apply push_freed_ok; [done|lia|lia]|]. rewrite Z.mul_0_l.
  set (back := clear (allocationSize_ ac) s 0 (negb <$> bits)).
  apply runs_bind.
  apply (runs_mono _ _ (fun _ w => w = mkCS sa (set_ac_can (ac_canAllocate ac || existsb (fun b => b) bits)
    (set_freed (rev back ++ freedAllocations_ ac) ac)))).
  { unfold when. destruct (existsb _ bits); simpl; [by rewrite orb_true_r|by rewrite orb_false_r]. }
  intros [] w ->. csteps. apply runs_bind. eapply runs_write; [done..|]. csteps. apply runs_ret.
  split; [done|]. split; [done|]. cbn [cs_sa cs_ac]. split; [|split; [simpl; set_solver|done]].
  set (ac' := set_active _ _). pose proof HI as [].
  assert (Hrel : releasing ac ≡ₚ s :: releasing ac') by (by apply releasing_delete with bits).
  assert (HP : slabs ac' ≡ₚ slabs ac).
  { unfold slabs. rewrite Hrel. change (allocatedSlabs_ ac') with (allocatedSlabs_ ac ++ [s]).
    change (ac_freeSlabs ac') with (ac_freeSlabs ac). solve_Permutation. }
  assert (Hna : s ∉ allocatedSlabs_ ac).
  { intros Ha. unfold slabs in ci_nodup0. apply list.NoDup_app in ci_nodup0 as (_ & Hd & _). apply (Hd s Ha).
    apply elem_of_app. by right. }
  assert (Hns : s ∉ releasing ac').
  { rewrite releasing_elem. simpl. rewrite lookup_delete_eq. by intros []. }
  split; try done.
  - by rewrite HP.
  - apply (CInv_own_keep sa ac ac' s h); try done.
  - apply (CInv_hdr_put sa ac ac' s h); try done.
    + intros s' Hne Hs'. rewrite HP in Hs'. split; [done|]. rewrite Hrel, elem_of_cons. naive_solver.
    + intros _. split; [done|]. rewrite marked_unset, bool_decide_eq_false_2; done.
  - simpl. destruct ci_curr0 as [|Hc]; [by left|right; set_solver].
  - intros s' bits'. simpl. intros [_ Hb']%lookup_delete_Some. by apply (ci_bits0 s').
  - unfold carved. simpl. rewrite <- (Permutation_rev back), <- app_assoc, ci_perm0. unfold carved.
    rewrite (unclear_delete _ _ s bits Eb). rewrite (Permutation_app_comm _ [s]). cbn [app]. rewrite carve_cons.
    assert (Hcur : s <> currSlab_ ac).
    { intros ->. destruct ci_curr0 as [E|Hc]; [|done].
      pose proof (valid_bounds sa Hwf _ (hdr_valid sa Hwf _ h Hh)). lia. }
    rewrite decide_False by done.
    assert (Hch : chunks (allocationSize_ ac) s (per_slab (allocationSize_ ac)) ≡ₚ clear (allocationSize_ ac) s 0 bits ++ back).
    { unfold back. rewrite clear_negb, clear_replicate, Hlen. done. }
    rewrite Hch. solve_Permutation.
  - intros E. simpl in E. apply orb_false_iff in E as [E1 E2]. destruct (ci_can0 E1) as (E3 & ? & ?). split_and!; try done.
    simpl. rewrite E3, app_nil_r. unfold back. rewrite (proj2 (clear_nil _ s 0 _)); [done|].
    clear -E2. induction bits as [|[] bits IH]; simpl in *; [done|done|by apply IH].
  - simpl. rewrite map_size_delete_Some by (by exists bits).
    assert (size (slabReleaseAllocMap_ ac) <> 0%nat).
    { intros E. apply map_size_empty_inv in E. rewrite E in Eb. by rewrite lookup_empty in Eb. }
    lia.
  - intros x Hx Hrx. simpl in Hx. apply elem_of_app in Hx as [Hx|Hx].
    + exfalso. apply Hns. rewrite <- (Permutation_rev back) in Hx. replace s with (getSlabForMemory x); [done|].
      apply (chunk_place sa ac None L Hwf HI s x); [by apply releasing_slabs|].
      apply (clear_is _ s (negb <$> bits)); [by rewrite length_fmap|done].
    + apply ci_clean0; [done|]. rewrite Hrel. by right.
Qed.

End SlabStart.
