(* ===== verification/SlabRace.v ===== *)
(** * SlabRace: starting a release while clients allocate and free

    [startSlabRelease] takes the lock of the class several times; between two
    of its scopes other threads allocate and free.  Every interleaving keeps
    the invariant of the class and loses no chunk. *)

From Stdlib Require Import ZArith Lia.
From stdpp Require Import base list gmap numbers relations.
From S2P Require Import Prelude Types Slab SlabClass SlabInv SlabOps SlabRelease SlabStart.
Import Types Slab SlabClass SlabFacts SlabInv SlabOps SlabRelease SlabPrune SlabStart.

Open Scope moon_scope.
Open Scope Z_scope.

Module SlabRace.

(** Where the releasing thread is: between two scopes that hold the lock. *)
Inductive Phase : Type :=
  | Starting
  | Picked (slab : Z) (header : option Z)
  | Pruning (slab : Z) (header : option Z) (p : Prune)
  | Swept (slab : Z) (header : option Z)
  | Collected (slab : Z) (header : option Z) (active : list Z)
  | Finished (ctx : SlabReleaseContext).

(** The class, the chunks in the hands of clients, the releasing thread. *)
Record Race : Type := mkRace { rc_cs : CS; rc_live : list Z; rc_phase : Phase }.

Section race.
Context (rnd hint : Z) (mode : SlabReleaseMode).

(** What the releasing thread does next. *)
Inductive thread_step : CS -> Phase -> CS -> Phase -> Prop :=
  | ts_pick w s hd w' : pick_slab rnd hint w = Some (inr (s, hd, false), w') -> thread_step w Starting w' (Picked s hd)
  | ts_pick_free w s hd w' c w'' : pick_slab rnd hint w = Some (inr (s, hd, true), w') ->
      context s hd [] mode w' = Some (c, w'') -> thread_step w Starting w'' (Finished c)
  | ts_begin w s hd p w' : prune_begin s w = Some (p, w') -> thread_step w (Picked s hd) w' (Pruning s hd p)
  | ts_batch w s hd p p' w' : prune_locked s p w = Some (inr p', w') -> pr_freeAllocs p' <> [] ->
      thread_step w (Pruning s hd p) w' (Pruning s hd (partitionFreeAllocs kFreeAllocsPruneLimit (cs_sa w') s p'))
  | ts_last w s hd p p' w' : prune_locked s p w = Some (inr p', w') -> pr_freeAllocs p' = [] ->
      thread_step w (Pruning s hd p) w' (Swept s hd)
  | ts_collect w s hd active w' : prune_collect s w = Some (inr active, w') -> thread_step w (Swept s hd) w' (Collected s hd active)
  | ts_finish w s hd active c w' : release_pruned s hd active mode w = Some (c, w') ->
      thread_step w (Collected s hd active) w' (Finished c).

Inductive race_step : Race -> Race -> Prop :=
  | rs_thread w L ph w' ph' : thread_step w ph w' ph' -> race_step (mkRace w L ph) (mkRace w' L ph')
  | rs_allocate w L ph x w' : ac_allocate w = Some (x, w') ->
      race_step (mkRace w L ph) (mkRace w' (if x =? 0 then L else x :: L) ph)
  | rs_free w L L' ph x r w' : L ≡ₚ x :: L' -> ac_free x w = Some (r, w') -> race_step (mkRace w L ph) (mkRace w' L' ph).

(** ** The steps of the thread are those of [startSlabRelease] *)

Abbreviation alone := (rtc (fun a b : CS * Phase => thread_step a.1 a.2 b.1 b.2)).

Lemma bind_inv {S A B} (c : ST S A) (k : A -> ST S B) s r : bind c k s = Some r -> exists a s', c s = Some (a, s') /\ k a s' = Some r.
Proof using Type. unfold bind. destruct (c s) as [[a s']|]; [|done]. intros H. by exists a, s'. Qed.

Lemma bindx_Some {S A B} (c : ST S (Res A)) (k : A -> ST S (Res B)) s b s'' : bindx c k s = Some (inr b, s'') ->
  exists a s', c s = Some (inr a, s') /\ k a s' = Some (inr b, s'').
Proof using Type. unfold bindx, bind. destruct (c s) as [[[e|a] s']|]; [done| |done]. intros H. by exists a, s'. Qed.

Lemma prune_loop_alone fuel i s hd p w r w' : prune_loop fuel i (fun _ => false) s p w = Some (inr r, w') ->
  r.1 = false /\ alone (w, Pruning s hd p) (w', Swept s hd).
Proof using Type.
  revert i p w. induction fuel as [|fuel IH]; intros i p w H; [done|]. cbn [prune_loop] in H.
  apply bindx_Some in H as (p' & w1 & E1 & H). destruct (pr_freeAllocs p') as [|x fa] eqn:Efa.
  - injection H as <- <-. split; [done|]. apply rtc_once. simpl. by eapply ts_last.
  - apply bind_inv in H as (sa & w2 & E2 & H). injection E2 as <- <-. destruct (IH _ _ _ H) as [Hr Hal]. split; [done|].
    eapply rtc_l; [|exact Hal]. simpl. eapply ts_batch; [done|]. by rewrite Efa.
Qed.

#[local] Opaque prune_loop prune_begin partitionFreeAllocs.

Lemma prune_alone s hd w r w' : pruneFreeAllocs (fun _ => false) s w = Some (inr r, w') ->
  r.1 = false /\ alone (w, Picked s hd) (w', Collected s hd r.2).
Proof using Type.
  unfold pruneFreeAllocs. intros H. apply bind_inv in H as (n & w1 & E1 & H). injection E1 as <- <-.
  apply bind_inv in H as (p & w2 & E2 & H). apply bindx_Some in H as (r' & w3 & E3 & H).
  destruct (prune_loop_alone _ _ _ hd _ _ _ _ E3) as [Hr Hal]. rewrite Hr in H.
  apply bindx_Some in H as (active & w4 & E4 & H). injection H as <- <-. split; [done|].
  apply (rtc_l _ _ (w2, Pruning s hd p)); [by constructor|]. etrans; [exact Hal|]. apply rtc_once. by constructor.
Qed.

Lemma start_alone w c w' : ac_startSlabRelease (fun _ => false) rnd mode hint w = Some (inr c, w') ->
  alone (w, Starting) (w', Finished c).
Proof using Type.
  unfold ac_startSlabRelease. intros H. apply bind_inv in H as (v & w0 & E0 & H). injection E0 as <- <-.
  destruct (_ && _); [done|]. apply bindx_Some in H as ([[s hd] [|]] & w1 & E1 & H).
  - apply bind_inv in H as (c' & w2 & E2 & H). injection H as <- <-. apply rtc_once. simpl. by eapply ts_pick_free.
  - apply bindx_Some in H as (r & w2 & E2 & H). destruct (prune_alone s hd _ _ _ E2) as [Hr Hal]. rewrite Hr in H.
    apply bind_inv in H as (c' & w3 & E3 & H). injection H as <- <-.
    apply (rtc_l _ _ (w1, Picked s hd)); [by constructor|]. etrans; [exact Hal|]. apply rtc_once. by constructor.
Qed.

End race.

(** ** What clients change *)

Lemma allocate_frame w x w' : ac_allocate w = Some (x, w') ->
  slabReleaseAllocMap_ (cs_ac w') = slabReleaseAllocMap_ (cs_ac w) /\
  (forall y, y ∈ freedAllocations_ (cs_ac w') -> y ∈ freedAllocations_ (cs_ac w)).
Proof.
  destruct w as [sa ac]. unfold ac_allocate, allocateLocked, allocateFromCurrentSlabLocked, setupCurrentSlabLocked, memoryAtOffset,
    xdcheck, upd_ac, ac_, bind, gets, modify, lift, guard, ret. cbn [cs_ac cs_sa].
  destruct (ac_canAllocate ac); cbn [negb]; [|by intros [= _ <-]]. destruct (_ && _ && _); [by intros [= _ <-]|].
  destruct (freedAllocations_ ac) as [|r rest] eqn:E.
  - repeat case_match; intros ?; simplify_eq; cbn [cs_ac] in *; simplify_eq; simpl; (split; [done|]); rewrite ?E; congruence || done.
  - repeat case_match; intros ?; simplify_eq; simpl; (split; [done|]); intros y Hy; first [congruence | by right | rewrite <- E; cbn [cs_ac] in *; match goal with H : _ = _ :: _ |- _ => rewrite H; by right end].
Qed.

Lemma free_frame sa ac x r w' : ac_free x (mkCS sa ac) = Some (r, w') ->
  cs_sa w' = sa /\ (forall s, s ∈ releasing (cs_ac w') <-> s ∈ releasing ac) /\
  (freedAllocations_ (cs_ac w') = freedAllocations_ ac \/
   freedAllocations_ (cs_ac w') = x :: freedAllocations_ ac /\
   exists h, read_header (getSlabHeader_mem sa x) sa = Some (h, sa) /\ isMarkedForRelease h = false).
Proof.
  unfold ac_free. intros H. apply bind_inv in H as (hd & w1 & E1 & H). injection E1 as <- <-. cbn [cs_sa] in H.
  destruct (getSlabHeader_mem sa x) as [i|] eqn:Ei; [|injection H as <- <-; split; [done|]; split; [done|]; by left].
  apply bind_inv in H as (h & w1 & E1 & H). unfold on_sa in E1. cbn [cs_sa cs_ac] in E1.
  destruct (read_header (Some i) sa) as [[h' sa']|] eqn:Eh; [|done]. injection E1 as <- <-.
  assert (sa' = sa) as -> by (unfold read_header, bind, gets, ret, lift in Eh; repeat case_match; by simplify_eq).
  apply bind_inv in H as (a & w1 & E1 & H). injection E1 as <- <-. cbn [cs_sa cs_ac] in H.
  destruct (negb (h_classId h' =? ac_classId ac)); [injection H as <- <-; split; [done|]; split; [done|]; by left|].
  destruct (isMarkedForRelease h') eqn:Em.
  - destruct (slabReleaseAllocMap_ ac !! getSlabForMemory x) as [bits|] eqn:Eb; [|injection H as <- <-; split; [done|]; split; [done|]; by left].
    apply bind_inv in H as (k & w1 & E1 & H).
    assert (w1 = mkCS sa ac) as ->.
    { unfold getAllocIdx, bind, ac_, gets, xdcheck, guard, ret in E1. repeat case_match; by simplify_eq. }
    apply bind_inv in H as (f & w1 & E2 & H). unfold lift in E2. destruct (aget bits k); [|done]. injection E2 as <- <-.
    destruct b; [injection H as <- <-; split; [done|]; split; [done|]; by left|].
    injection H as <- <-. split; [done|]. split; [|by left]. intros s. simpl. rewrite !releasing_elem. simpl.
    destruct (decide (s = getSlabForMemory x)) as [-> |Hn]; [rewrite lookup_insert_eq, Eb|by rewrite lookup_insert_ne].
    by split; intros _; eexists.
  - injection H as <- <-. split; [done|]. split; [done|]. right. split; [done|]. by exists h'.
Qed.

(** ** The invariant of a race *)

Definition clean (s : Z) (ac : AllocationClass) : Prop := Forall (fun x => getSlabForMemory x <> s) (freedAllocations_ ac).

Definition phase_inv (sa : SlabAllocator) (ac : AllocationClass) (L : list Z) (ph : Phase) : Prop :=
  match ph with
  | Starting => CInv sa ac None L
  | Picked s hd => hd = Some (idx sa s) /\ s ∈ releasing ac /\ CInv sa ac (Some s) L
  | Pruning s hd p => hd = Some (idx sa s) /\ PruneInv sa ac s p L
  | Swept s hd => hd = Some (idx sa s) /\ s ∈ releasing ac /\ clean s ac /\ CInv sa ac (Some s) L
  | Collected s hd active => hd = Some (idx sa s) /\ s ∈ releasing ac /\ clean s ac /\ CInv sa ac (Some s) L /\
      (forall x, x ∈ L -> getSlabForMemory x = s -> x ∈ active)
  | Finished ctx => CInv sa ac None L /\
      (isReleased ctx = true /\ (exists h, hdr sa (ctx_slab ctx) = Some h /\ h_classId h = kInvalidClassId) \/
       isReleased ctx = false /\ ctx_slab ctx ∈ releasing ac /\
       (forall x, x ∈ L -> getSlabForMemory x = ctx_slab ctx -> x ∈ activeAllocations_ ctx))
  end.

Definition RInv (r : Race) : Prop :=
  SAWf (cs_sa (rc_cs r)) /\ 0 <= ac_classId (cs_ac (rc_cs r)) /\
  phase_inv (cs_sa (rc_cs r)) (cs_ac (rc_cs r)) (rc_live r) (rc_phase r).

(** The chunks in other hands than the free list, and the slab whose release
    is starting. *)
Definition held (ph : Phase) : list Z := match ph with Pruning _ _ p => offline p | _ => [] end.
Definition target (ph : Phase) : option Z :=
  match ph with Picked s _ | Pruning s _ _ | Swept s _ | Collected s _ _ => Some s | _ => None end.

Lemma phase_CInv sa ac L ph : phase_inv sa ac L ph -> CInv sa ac (target ph) (held ph ++ L).
Proof. destruct ph; simpl; try naive_solver. by intros [_ []]. Qed.

Lemma releasing_map ac ac' : slabReleaseAllocMap_ ac' = slabReleaseAllocMap_ ac -> releasing ac' = releasing ac.
Proof. intros E. unfold releasing. by rewrite E. Qed.

(** A chunk of a slab being released is not handed out again. *)
Lemma alloc_avoids sa ac t L x ac' s : SAWf sa -> CInv sa ac t L -> CInv sa ac' t (x :: L) -> same_class ac ac' ->
  slabReleaseAllocMap_ ac' = slabReleaseAllocMap_ ac -> s ∈ releasing ac -> clean s ac -> getSlabForMemory x <> s.
Proof.
  intros Hwf HI HI' (E1 & E2 & E3) Em Hr Hcl Hx. destruct (live_where sa ac' t (x :: L) x Hwf HI' ltac:(left)) as (s' & h & Es & Hs & Hof & Hcase).
  assert (s' = s) as -> by congruence. assert (Hmk : isMarkedForRelease h = true).
  { destruct (ci_hdr _ _ _ _ HI' s h Hs (proj1 Hof)) as [_ ->]. apply bool_decide_eq_true_2. by rewrite (releasing_map ac ac' Em). }
  destruct Hcase as [|(_ & bits & i & Hb & Hi & Ex)]; [congruence|]. rewrite Em in Hb. rewrite E3 in Ex.
  assert (Hc : x ∈ carved ac).
  { unfold carved. apply elem_of_app. right. apply list_elem_of_bind. exists (s, bits). split; [|by apply elem_of_map_to_list].
    simpl. apply elem_clear. exists i. split; [done|lia]. }
  rewrite <- (ci_perm _ _ _ _ HI), elem_of_app in Hc. destruct Hc as [Hc|Hc].
  - unfold clean in Hcl. rewrite list.Forall_forall in Hcl. by apply (Hcl x Hc).
  - pose proof (given_NoDup sa ac' t (x :: L) Hwf HI') as ND. apply list.NoDup_app in ND as (_ & _ & ND).
    by apply list.NoDup_cons in ND as [? _].
Qed.

Lemma clean_sub s ac ac' : (forall y, y ∈ freedAllocations_ ac' -> y ∈ freedAllocations_ ac) -> clean s ac -> clean s ac'.
Proof. unfold clean. rewrite !list.Forall_forall. auto. Qed.

(** A slab that waits for its active chunks has no free chunk. *)
Lemma waiting_clean sa ac L s : CInv sa ac None L -> s ∈ releasing ac -> clean s ac.
Proof.
  intros HI Hs. apply list.Forall_forall. intros x Hx E. pose proof (ci_clean _ _ _ _ HI x Hx) as Hc. rewrite E in Hc. by specialize (Hc Hs).
Qed.

Lemma race_allocate w L ph x w' : RInv (mkRace w L ph) -> ac_allocate w = Some (x, w') ->
  RInv (mkRace w' (if x =? 0 then L else x :: L) ph).
Proof.
  intros (Hwf & Hid & HP) Hrun. destruct w as [sa ac]. cbn [rc_cs rc_live rc_phase cs_sa cs_ac] in *.
  destruct (allocate_frame _ _ _ Hrun) as [Em Hsub]. pose proof (phase_CInv _ _ _ _ HP) as HI.
  destruct (runs_elim _ _ _ (ac_allocate_ok sa (target ph) (held ph ++ L) Hwf ac HI)) as (x' & w1 & E & Esa & Hsc & Hcase).
  rewrite Hrun in E. injection E as <- <-. destruct w' as [sa1 ac1]. cbn [cs_sa cs_ac] in *. subst sa1.
  pose proof (releasing_map _ _ Em) as Er. pose proof Hsc as (Ecid & _ & _).
  set (L' := if x =? 0 then L else x :: L). assert (HI' : CInv sa ac1 (target ph) (held ph ++ L') /\
    (forall s, s ∈ releasing ac -> clean s ac -> forall y, y ∈ L' -> y ∈ L \/ getSlabForMemory y <> s)).
  { unfold L'. destruct Hcase as [(-> & _ & _ & HI')|(Hx & _ & HI')].
    - split; [done|]. intros s _ _ y Hy. by left.
    - rewrite (proj2 (Z.eqb_neq x 0)) by done. split.
      + eapply CInv_perm; [|exact HI']. by rewrite <- Permutation_middle.
      + intros s Hs Hcl y [-> |Hy]%elem_of_cons; [right|by left]. by apply (alloc_avoids sa ac (target ph) (held ph ++ L) x ac1). }
  destruct HI' as [HI' Hnew]. split; [done|]. split; [cbn; lia|]. cbn [rc_cs rc_live rc_phase cs_sa cs_ac]. destruct ph; simpl in *; try done.
  - destruct HP as (-> & Hr & _). rewrite Er. by split_and!.
  - destruct HP as (-> & []). split; [done|]. split; try done; rewrite ?Er; try done. by apply (clean_sub slab ac).
  - destruct HP as (-> & Hr & Hcl & _). rewrite Er. split_and!; try done. by apply (clean_sub slab ac).
  - destruct HP as (-> & Hr & Hcl & _ & Hact). rewrite Er. split_and!; try done; [by apply (clean_sub slab ac)|].
    intros y Hy Es. by destruct (Hnew slab Hr Hcl y Hy) as [|]; [apply Hact|].
  - destruct HP as (HI0 & Hcase'). split; [done|]. destruct Hcase' as [?|(Hnr & Hr & Hact)]; [by left|right]. rewrite Er. split_and!; try done.
    intros y Hy Es. by destruct (Hnew _ Hr (waiting_clean sa ac L _ HI0 Hr) y Hy) as [|]; [apply Hact|].
Qed.

Lemma race_free w L L' ph x r w' : RInv (mkRace w L ph) -> L ≡ₚ x :: L' -> ac_free x w = Some (r, w') ->
  r = inr tt /\ RInv (mkRace w' L' ph).
Proof.
  intros (Hwf & Hid & HP) HL Hrun. destruct w as [sa ac]. cbn [rc_cs rc_live rc_phase cs_sa cs_ac] in *.
  destruct (free_frame _ _ _ _ _ Hrun) as (Esa & Er & Hfr). pose proof (phase_CInv _ _ _ _ HP) as HI.
  assert (HI0 : CInv sa ac (target ph) (x :: held ph ++ L')).
  { eapply CInv_perm; [|exact HI]. by rewrite HL, <- Permutation_middle. }
  destruct (runs_elim _ _ _ (ac_free_ok sa ac (target ph) (held ph ++ L') x Hwf HI0)) as (r' & w1 & E & -> & Esa' & Hsc & HI').
  rewrite Hrun in E. injection E as -> <-. split; [done|]. destruct w' as [sa1 ac1]. cbn [cs_sa cs_ac] in *. subst sa1.
  pose proof Hsc as (Ecid & _ & _).
  assert (Hcl : forall s, s ∈ releasing ac -> clean s ac -> clean s ac1).
  { intros s Hs Hc. unfold clean. destruct Hfr as [-> |[-> (h & Eh & Hm)]]; [done|]. constructor; [|done]. intros Es.
    rewrite (getSlabHeader_mem_eq sa Hwf), Es in Eh. pose proof (releasing_slabs ac s Hs) as Hs'.
    destruct (proj1 (ci_own _ _ _ _ HI s) Hs') as [k [Hk _]]. rewrite (read_ok sa Hwf s k Hk) in Eh. injection Eh as <-.
    destruct (ci_hdr _ _ _ _ HI s k Hs' Hk) as [_ Em]. rewrite bool_decide_eq_true_2 in Em by done. congruence. }
  assert (Hin : forall y, y ∈ L' -> y ∈ L) by (intros y Hy; rewrite HL; by right).
  split; [done|]. split; [cbn; lia|]. cbn [rc_cs rc_live rc_phase cs_sa cs_ac]. destruct ph; simpl in *; try done.
  - destruct HP as (-> & Hr & _). rewrite Er. by split_and!.
  - destruct HP as (-> & []). split; [done|]. split; try done; [by apply Er|by apply Hcl|].
    intros y Hy Hry. by apply pi_clean0, Er.
  - destruct HP as (-> & Hr & Hc & _). rewrite Er. split_and!; try done. by apply Hcl.
  - destruct HP as (-> & Hr & Hc & _ & Hact). rewrite Er. split_and!; try done; [by apply Hcl|]. intros y Hy. by apply Hact, Hin.
  - destruct HP as (_ & Hcase'). split; [done|]. destruct Hcase' as [?|(Hnr & Hr & Hact)]; [by left|right]. rewrite Er. split_and!; try done.
    intros y Hy. by apply Hact, Hin.
Qed.

(** ** The steps of the thread *)

Section thread.
Context (rnd hint : Z) (mode : SlabReleaseMode).

(** What the next scope of the thread does, whatever clients did before. *)
Definition next_ok (w : CS) (L : list Z) (ph : Phase) : Prop :=
  match ph with
  | Starting => runs (pick_slab rnd hint) w (fun r w' => r = inl invalid_argument /\ w' = w \/
      exists s hd, r = inr (s, hd, false) /\ RInv (mkRace w' L (Picked s hd)) \/
        r = inr (s, hd, true) /\ runs (context s hd [] mode) w' (fun c w'' => RInv (mkRace w'' L (Finished c))))
  | Picked s hd => runs (prune_begin s) w (fun p w' => RInv (mkRace w' L (Pruning s hd p)))
  | Pruning s hd p => runs (prune_locked s p) w (fun r w' => exists p', r = inr p' /\
      if bool_decide (pr_freeAllocs p' = []) then RInv (mkRace w' L (Swept s hd))
      else RInv (mkRace w' L (Pruning s hd (partitionFreeAllocs kFreeAllocsPruneLimit (cs_sa w') s p'))))
  | Swept s hd => runs (prune_collect s) w (fun r w' => exists active, r = inr active /\ RInv (mkRace w' L (Collected s hd active)))
  | Collected s hd active => runs (release_pruned s hd active mode) w (fun c w' => RInv (mkRace w' L (Finished c)))
  | Finished _ => True
  end.

Lemma next_pick sa ac L : SAWf sa -> 0 <= ac_classId ac -> CInv sa ac None L -> next_ok (mkCS sa ac) L Starting.
Proof using Type.
  intros Hwf Hid HI. eapply runs_mono; [by apply (pick_slab_ok sa ac L)|]. intros r [sa1 ac1] (Hsc & Hcase). cbn [cs_sa cs_ac] in *.
  pose proof Hsc as (Ec & _). destruct Hcase as [[-> ->]|(s & h & Hof & Hm & Hcase)]; [by left|right].
  pose proof Hof as (Hh & _). exists s, (Some (idx sa s)). destruct Hcase as [(-> & Esa & HI')|(-> & Esa & Hr & HI')].
  - right. split; [done|]. subst sa1. assert (Hh1 : hdr (put sa s (set_class kInvalidClassId 0 h)) s = Some (set_class kInvalidClassId 0 h)).
    { by apply (hdr_put_eq sa Hwf s h). }
    unfold context. rewrite <- (getSlabHeader_valid sa Hwf s) by (by apply (hdr_valid sa Hwf s h)).
    replace (getSlabHeader sa s) with (getSlabHeader (put sa s (set_class kInvalidClassId 0 h)) s) by done.
    eapply runs_read; [by apply put_wf|exact Hh1|]. apply runs_ret. split; [by apply put_wf|]. split; [cbn; lia|]. split; [done|]. left.
    split; [done|]. by eexists.
  - left. split; [done|]. subst sa1. split; [by apply put_wf|]. split; [cbn; lia|]. done.
Qed.

Lemma next_step w L ph : RInv (mkRace w L ph) -> next_ok w L ph.
Proof using Type.
  destruct w as [sa ac]. intros (Hwf & Hid & HP). cbn [rc_cs rc_live rc_phase cs_sa cs_ac] in *. destruct ph; cbn [phase_inv] in HP.
  - by apply next_pick.
  - destruct HP as (-> & Hr & HI). eapply runs_mono; [by apply (prune_begin_ok sa slab Hwf ac L)|].
    intros p [sa1 ac1] (E & (Ec & _) & _ & HPI & _). cbn [cs_sa cs_ac] in *. subst sa1. split; [done|]. split; [cbn; lia|]. done.
  - destruct HP as (-> & HPI). eapply runs_mono; [by apply (prune_locked_ok sa slab Hwf ac p L)|].
    intros r [sa1 ac1] (-> & E & (Ec & _) & HPI'). cbn [cs_sa cs_ac] in *. subst sa1. eexists. split; [done|]. cbn [pr_freeAllocs].
    pose proof HPI' as []. destruct (pr_freeAllocs p) as [|x fa] eqn:Efa.
    + rewrite bool_decide_eq_true_2 by done. split; [done|]. split; [cbn; lia|]. done.
    + rewrite bool_decide_eq_false_2 by done. split; [done|]. split; [cbn; lia|]. cbn [phase_inv rc_phase]. split; [done|].
      assert (Hv : valid sa slab) by (apply (ci_valid sa ac1 _ _ Hwf pi_inv0); by apply releasing_slabs).
      destruct (prune_batch_ok sa slab Hwf (x :: fa) Hv) as (p' & -> & HPm & Hi & Ho & _). unfold offline in pi_inv0, pi_clean0. simpl in pi_inv0, pi_clean0.
      rewrite !app_nil_r in pi_clean0. split; try done.
      * eapply CInv_perm; [|exact pi_inv0]. simpl. rewrite HPm. simpl. by rewrite !app_nil_r.
      * intros y. rewrite HPm. apply pi_clean0.
  - destruct HP as (-> & Hr & Hcl & HI). eapply runs_mono; [by apply (prune_collect_ok sa slab Hwf ac (Some slab) L)|].
    intros r w' (-> & bits & _ & -> & Hact). eexists. split; [done|]. split; [done|]. split; [done|]. cbn. split_and!; try done.
    intros x Hx Es. by apply Hact.
  - destruct HP as (-> & Hr & Hcl & HI & Hact). pose proof Hr as [bits Hb]%releasing_elem.
    destruct (proj1 (ci_own _ _ _ _ HI slab) (releasing_slabs ac slab Hr)) as [h Hof].
    eapply runs_mono; [apply (release_pruned_ok sa ac L slab h bits mode active); try done|].
    + intros ->. destruct (clear (allocationSize_ ac) slab 0 bits) as [|x l] eqn:Ec; [done|exfalso].
      destruct (runs_elim _ _ _ (prune_collect_ok sa slab Hwf ac (Some slab) L HI Hr Hcl)) as (_ & _ & _ & _ & bits' & Hb' & _ & Hiff).
      rewrite Hb in Hb'. injection Hb' as <-. destruct (proj1 (Hiff x)) as [Hx Es]; [rewrite Ec; left|].
      specialize (Hact x Hx Es). by apply elem_of_nil in Hact.
    + intros c [sa1 ac1] ((Ec & _) & HI' & Hcase). cbn [cs_sa cs_ac] in *. destruct Hcase as [(-> & -> & ->)|(Hne & -> & -> & Hr')].
      * split; [by apply put_wf|]. split; [cbn; lia|]. split; [done|]. left. split; [done|]. eexists.
        split; [apply (hdr_put_eq sa Hwf slab h); apply Hof|done].
      * split; [done|]. split; [cbn; lia|]. split; [done|]. right. split; [by apply bool_decide_eq_false_2|done].
  - done.
Qed.

Lemma runs_post {S A} (c : ST S A) s a s' (Q : A -> S -> Prop) : runs c s Q -> c s = Some (a, s') -> Q a s'.
Proof using Type. unfold runs. intros H E. by rewrite E in H. Qed.

Lemma thread_inv w L ph w' ph' : next_ok w L ph -> thread_step rnd hint mode w ph w' ph' -> RInv (mkRace w' L ph').
Proof using Type.
  intros Hn Ht. destruct Ht as [w s hd w' E|w s hd w' c w'' E E'|w s hd p w' E|w s hd p p' w' E Hp|w s hd p p' w' E Hp|w s hd active w' E|w s hd active c w' E];
    pose proof (runs_post _ _ _ _ _ Hn E) as H; cbn beta in H.
  - destruct H as [[? _]|(s' & hd' & [[[= <- <-] HR]|[? _]])]; done.
  - destruct H as [[? _]|(s' & hd' & [[? _]|[[= <- <-] HR]])]; try done. exact (runs_post _ _ _ _ _ HR E').
  - done.
  - destruct H as (p1 & [= <-] & HR). by rewrite bool_decide_eq_false_2 in HR.
  - destruct H as (p1 & [= <-] & HR). by rewrite bool_decide_eq_true_2 in HR.
  - by destruct H as (a & [= <-] & HR).
  - done.
Qed.

Lemma race_inv r r' : RInv r -> rtc (race_step rnd hint mode) r r' -> RInv r'.
Proof using Type.
  intros HR. induction 1 as [r|r1 r2 r3 Hs _ IH]; [done|]. apply IH. clear IH. destruct Hs as [w L ph w' ph' Ht|w L ph x w' He|w L L' ph x r w' HL He].
  - pose proof (next_step w L ph HR) as Hn. by apply (thread_inv w L ph).
  - by apply race_allocate with w.
  - by eapply race_free.
Qed.

End thread.

End SlabRace.
