(* ===== verification/SlabPoolInv.v ===== *)
(** * SlabPoolInv: the invariant of a memory pool

    Every slab of the pool is in exactly one place, told by its header: a
    class, or the free slabs of the pool.  The lemmas of this file compose the
    lemmas on classes to allocation and deallocation in a pool. *)

From Stdlib Require Import ZArith Lia.
From stdpp Require Import base list gmap numbers.
From S2P Require Import Prelude Types Slab SlabClass SlabPool SlabInv SlabOps SlabRelease SlabStart.
Import Types Slab SlabClass SlabPool SlabFacts SlabInv SlabOps SlabStart.

Open Scope moon_scope.
Open Scope Z_scope.

Module SlabPoolInv.

(** The slab allocator: its free slabs are those no pool owns. *)
Record SInv (sa : SlabAllocator) : Prop := mkSInv {
  si_wf : SAWf sa;
  si_nodup : NoDup (sa_freeSlabs sa);
  si_free : forall s, s ∈ sa_freeSlabs sa <-> exists h, hdr sa s = Some h /\ h_poolId h = kInvalidPoolId;
  si_can : sa_canAllocate sa = false -> sa_freeSlabs sa = [] /\ allMemorySlabbed sa = true;
}.

Definition class_slabs (p : MemoryPool) : Z := foldr (fun ac n => Z.of_nat (length (slabs ac)) + n) 0 (ac_vec p).
Definition live_sum (Ls : Z -> list Z) (l : list AllocationClass) : Z :=
  foldr (fun ac n => allocationSize_ ac * Z.of_nat (length (Ls (ac_classId ac))) + n) 0 l.
Definition live_bytes (p : MemoryPool) (Ls : Z -> list Z) : Z := live_sum Ls (ac_vec p).

(** [Ls c] are the live chunks of class [c]; [hole] the slabs on their way
    from one place to another; [d] how often the slab counter was decremented
    for a slab it did not count. *)
Record PoolInv (sa : SlabAllocator) (p : MemoryPool) (Ls : Z -> list Z) (hole : list Z) (d : Z) : Prop := mkPoolInv {
  pv_id : 0 <= mp_id p < 127;
  pv_sizes : (0 < length (acSizes_ p) <= 127)%nat /\ length (ac_vec p) = length (acSizes_ p) /\
    (forall i j x y, acSizes_ p !! i = Some x -> acSizes_ p !! j = Some y -> (i < j)%nat -> x < y);
  pv_class : forall c ac, aget (ac_vec p) c = Some ac ->
    ac_classId ac = c /\ ac_poolId ac = mp_id p /\ aget (acSizes_ p) c = Some (allocationSize_ ac) /\
    CInv sa ac None (Ls c);
  pv_nodup : NoDup (mp_freeSlabs p ++ hole);
  pv_free : forall s, s ∈ mp_freeSlabs p ++ hole <-> exists h, of_class sa (mp_id p) kInvalidClassId s h;
  pv_unclassed : forall s h, of_class sa (mp_id p) kInvalidClassId s h -> unclassed (mp_id p) h;
  pv_cover : forall s h, hdr sa s = Some h -> h_poolId h = mp_id p ->
    h_classId h = kInvalidClassId \/ 0 <= h_classId h < Z.of_nat (length (ac_vec p));
  pv_advised : curSlabsAdvised_ p = 0;
  pv_slabs : currSlabAllocSize_ p = u64 (kSize * (class_slabs p + Z.of_nat (length hole) - d));
  pv_bytes : currAllocSize_ p = u64 (live_bytes p Ls);
}.

(** Headers of pools other than [p] are the same. *)
Definition others_same (p : Z) (sa sa' : SlabAllocator) : Prop :=
  forall s h, h_poolId h <> p -> h_poolId h <> kInvalidPoolId -> (hdr sa' s = Some h <-> hdr sa s = Some h).

Lemma others_same_refl p sa : others_same p sa sa.
Proof. done. Qed.
Lemma others_same_trans p sa sa1 sa2 : others_same p sa sa1 -> others_same p sa1 sa2 -> others_same p sa sa2.
Proof. intros H1 H2 s h Hp Hi. by rewrite (H2 s h Hp Hi), (H1 s h Hp Hi). Qed.

(** Headers of slabs that classes of pool [p] hold are kept. *)
Definition classed_kept (p : Z) (sa sa' : SlabAllocator) : Prop :=
  forall s h, hdr sa s = Some h -> h_poolId h = p -> h_classId h <> kInvalidClassId -> hdr sa' s = Some h.

Lemma classed_kept_refl p sa : classed_kept p sa sa.
Proof. by intros s h. Qed.
#[export] Hint Resolve classed_kept_refl : core.
Lemma classed_kept_trans p sa sa1 sa2 : classed_kept p sa sa1 -> classed_kept p sa1 sa2 -> classed_kept p sa sa2.
Proof. intros H1 H2 s h Hh Hp Hc. by apply H2; [apply H1| |]. Qed.

(** The members of the slab allocator that are not headers. *)
Definition same_frame (sa sa' : SlabAllocator) : Prop :=
  slabMemoryStart_ sa' = slabMemoryStart_ sa /\ slabMemorySize_ sa' = slabMemorySize_ sa.

Lemma PoolInv_frame sa sa' p Ls hole d : PoolInv sa p Ls hole d ->
  (forall s h, h_poolId h = mp_id p -> (hdr sa' s = Some h <-> hdr sa s = Some h)) -> PoolInv sa' p Ls hole d.
Proof.
  intros [] Hf.
  assert (Hof : forall c s h, of_class sa' (mp_id p) c s h <-> of_class sa (mp_id p) c s h).
  { intros c s h. unfold of_class. split; intros (H1 & H2 & H3); (split; [by apply Hf|done]). }
  split; try done.
  - intros c ac Hac. destruct (pv_class0 c ac Hac) as (E1 & E2 & ? & HC). split_and!; try done.
    eapply CInv_frame; [exact HC|]. intros s h. rewrite E2. apply Hof.
  - intros s. rewrite pv_free0. split; intros [h Hh]; exists h; by apply Hof.
  - intros s h Hh%Hof. by apply (pv_unclassed0 s).
  - intros s h Hh Hp. apply (pv_cover0 s h); [by apply Hf|done].
Qed.

Lemma SInv_frame sa sa' : SInv sa -> SAWf sa' ->
  sa_freeSlabs sa' = sa_freeSlabs sa -> sa_canAllocate sa' = sa_canAllocate sa -> allMemorySlabbed sa' = allMemorySlabbed sa ->
  (forall s, (exists h, hdr sa' s = Some h /\ h_poolId h = kInvalidPoolId) <->
             (exists h, hdr sa s = Some h /\ h_poolId h = kInvalidPoolId)) -> SInv sa'.
Proof.
  intros [] Hwf E1 E2 E3 Hh. split; [done|by rewrite E1| |by rewrite E1, E2, E3].
  intros s. by rewrite E1, Hh.
Qed.

(** A header of pool [p] is rewritten within pool [p]. *)
Lemma rewrote_others sa sa' s h h' p : rewrote sa sa' s h' -> hdr sa s = Some h -> h_poolId h = p -> h_poolId h' = p ->
  others_same p sa sa'.
Proof.
  intros (_ & _ & Hs & Hne) Hh Ep Ep' s' k Hk _. destruct (decide (s' = s)) as [-> |Hn]; [|by rewrite Hne].
  rewrite Hs, Hh. split; intros [= <-]; done.
Qed.

Lemma rewrote_frame sa sa' s h : rewrote sa sa' s h -> same_frame sa sa'.
Proof. intros (E & _). unfold same_frame. injection E. intros. split; congruence. Qed.

Lemma rewrote_SInv sa sa' s h h' : SInv sa -> rewrote sa sa' s h' -> hdr sa s = Some h ->
  h_poolId h <> kInvalidPoolId -> h_poolId h' <> kInvalidPoolId -> SInv sa'.
Proof.
  intros HS (E & Hwf & Hs & Hne) Hh Hp Hp'.
  assert (E' : sa_freeSlabs sa' = sa_freeSlabs sa /\ sa_canAllocate sa' = sa_canAllocate sa /\
    allMemorySlabbed sa' = allMemorySlabbed sa).
  { unfold allMemorySlabbed, getSlabMemoryEnd. injection E. intros. split_and!; congruence. }
  destruct E' as (E1 & E2 & E3). apply (SInv_frame sa sa'); try done.
  intros s'. destruct (decide (s' = s)) as [-> |Hn]; [|by rewrite Hne].
  rewrite Hs, Hh. split; intros (k & [= <-] & ?); done.
Qed.

(** ** Classes of a pool *)

Section pool.
Context (sa : SlabAllocator) (p : MemoryPool) (Ls : Z -> list Z) (hole : list Z) (d : Z).
Context (HS : SInv sa) (HP : PoolInv sa p Ls hole d).

Lemma pool_class c : 0 <= c < Z.of_nat (length (ac_vec p)) -> exists ac, aget (ac_vec p) c = Some ac /\
  ac_classId ac = c /\ ac_poolId ac = mp_id p /\ aget (acSizes_ p) c = Some (allocationSize_ ac) /\ CInv sa ac None (Ls c).
Proof using HP. intros Hc. destruct (aget_range (ac_vec p) c Hc) as [ac Hac]. exists ac. split; [done|]. by apply (pv_class _ _ _ _ _ HP). Qed.

(** The class size of a request: the first one that is not smaller. *)
Lemma lower_bound_spec l x : (exists y, y ∈ l /\ x <= y) ->
  exists y, aget l (lower_bound l x) = Some y /\ x <= y /\ 0 <= lower_bound l x < Z.of_nat (length l) /\
    (forall i z, (Z.of_nat i < lower_bound l x) -> l !! i = Some z -> z < x).
Proof using Type.
  induction l as [|z l IH]; intros (y & Hy & Hxy); [by apply elem_of_nil in Hy|]. simpl.
  destruct (Z.ltb_spec z x) as [Hz|Hz].
  - apply elem_of_cons in Hy as [-> |Hy]; [lia|]. destruct IH as (y' & Hg & Hxy' & Hb & Hlt); [by exists y|].
    exists y'. split_and!; [|done|lia|lia|].
    + unfold aget in *. rewrite (proj2 (Z.leb_le 0 (lower_bound l x))) in Hg by lia.
      rewrite (proj2 (Z.leb_le 0 _)) by lia.
      rewrite Z2Nat.inj_add by lia. exact Hg.
    + intros [|i] z' Hi Hz'; simpl in Hz'; [by simplify_eq|]. apply (Hlt i); [lia|done].
  - exists z. split_and!; try done; simpl; try lia.
Qed.

Lemma class_slabs_aput c ac ac' l : aget l c = Some ac ->
  foldr (fun ac n => Z.of_nat (length (slabs ac)) + n) 0 (aput l c ac') =
  foldr (fun ac n => Z.of_nat (length (slabs ac)) + n) 0 l + Z.of_nat (length (slabs ac')) - Z.of_nat (length (slabs ac)).
Proof using Type.
  unfold aget, aput. destruct (0 <=? c); [|done]. generalize (Z.to_nat c). clear c.
  induction l as [|a l IH]; intros [|n]; simpl; intros H; simplify_eq; [lia|]. rewrite (IH n H). lia.
Qed.

Lemma live_sum_ext Ls1 Ls2 l : (forall ac, ac ∈ l -> Ls1 (ac_classId ac) = Ls2 (ac_classId ac)) -> live_sum Ls1 l = live_sum Ls2 l.
Proof using Type.
  unfold live_sum. induction l as [|a l IH]; intros H; simpl; [done|]. rewrite (H a ltac:(left)), IH; [done|].
  intros ac Hac. apply H. by right.
Qed.

Lemma live_sum_aput Ls1 Ls2 l c ac ac' : (forall c ac, aget l c = Some ac -> ac_classId ac = c) ->
  aget l c = Some ac -> ac_classId ac' = c -> allocationSize_ ac' = allocationSize_ ac ->
  (forall c', c' <> c -> Ls2 c' = Ls1 c') ->
  live_sum Ls2 (aput l c ac') = live_sum Ls1 l +
    allocationSize_ ac * (Z.of_nat (length (Ls2 c)) - Z.of_nat (length (Ls1 c))).
Proof using Type.
  intros Hid Hac E1 E2 Hoth. pose proof (Hid _ _ Hac) as Ec. pose proof (aget_Some_range _ _ _ Hac) as Hr.
  unfold aget in Hac. rewrite (proj2 (Z.leb_le 0 c)) in Hac by lia. unfold aput.
  rewrite insert_take_drop by lia. rewrite <- (take_drop_middle l (Z.to_nat c) ac Hac) at 3.
  assert (Hne : forall i a, i <> Z.to_nat c -> l !! i = Some a -> Ls2 (ac_classId a) = Ls1 (ac_classId a)).
  { intros i a Hi Ha. apply Hoth. rewrite (Hid (Z.of_nat i) a) by (by rewrite aget_nat). lia. }
  unfold live_sum. rewrite !foldr_app. simpl. fold (live_sum Ls2 (drop (S (Z.to_nat c)) l)) (live_sum Ls1 (drop (S (Z.to_nat c)) l)).
  rewrite (live_sum_ext Ls2 Ls1 (drop _ l)).
  2: { intros a [i Hi]%list_elem_of_lookup. rewrite lookup_drop in Hi. apply (Hne (S (Z.to_nat c) + i)%nat); [lia|done]. }
  rewrite E1, E2, Ec. generalize (live_sum Ls1 (drop (S (Z.to_nat c)) l)). intros z.
  assert (Htk : forall a, a ∈ take (Z.to_nat c) l -> Ls2 (ac_classId a) = Ls1 (ac_classId a)).
  { intros a [i Hi]%list_elem_of_lookup. apply lookup_take_Some in Hi as [Hi Hlt]. apply (Hne i); [lia|done]. }
  induction (take (Z.to_nat c) l) as [|a k IH]; simpl; [lia|]. rewrite IH by (intros; apply Htk; by right).
  rewrite (Htk a ltac:(left)). lia.
Qed.

(** A class is replaced after an operation on it. *)
Lemma PoolInv_class sa' c ac ac' L' hole' Ls' : aget (ac_vec p) c = Some ac -> same_class ac ac' -> CInv sa' ac' None L' ->
  Ls' c = L' -> (forall c', c' <> c -> Ls' c' = Ls c') ->
  (forall s h, h_poolId h = mp_id p -> h_classId h <> c -> h_classId h <> kInvalidClassId ->
     (hdr sa' s = Some h <-> hdr sa s = Some h)) ->
  NoDup (mp_freeSlabs p ++ hole') ->
  (forall s, s ∈ mp_freeSlabs p ++ hole' <-> exists h, of_class sa' (mp_id p) kInvalidClassId s h) ->
  (forall s h, of_class sa' (mp_id p) kInvalidClassId s h -> unclassed (mp_id p) h) ->
  Z.of_nat (length (slabs ac')) + Z.of_nat (length hole') = Z.of_nat (length (slabs ac)) + Z.of_nat (length hole) ->
  forall n, n = u64 (live_bytes (set_ac_vec (aput (ac_vec p) c ac') p) Ls') ->
  PoolInv sa' (set_alloc_size n (set_ac_vec (aput (ac_vec p) c ac') p)) Ls' hole' d.
Proof using HP.
  intros Hac (E1 & E2 & E3) HC' HL Hoth Hsame HND Hfree Hun Hcount n Hn. destruct HP.
  pose proof (aget_Some_range _ _ _ Hac) as Hrange. destruct (pv_class0 c ac Hac) as (Ec & Ep & Es & HC).
  split; simpl; try done.
  - by rewrite length_aput.
  - intros c' ac1 Hac1. destruct (decide (c' = c)) as [-> |Hne].
    + rewrite aget_aput_eq in Hac1 by done. simplify_eq. split_and!; try congruence. 
    + rewrite aget_aput_ne in Hac1 by (done || lia). destruct (pv_class0 c' ac1 Hac1) as (Ec1 & Ep1 & Es1 & HC1).
      split_and!; try done. rewrite (Hoth c' Hne). eapply CInv_frame; [exact HC1|].
      pose proof (aget_Some_range _ _ _ Hac1).
      intros s h. unfold of_class. rewrite Ec1, Ep1. split; intros (H1 & H2 & H3); (split; [|done]);
        apply (Hsame s h); congruence || (unfold kInvalidClassId; lia) || done.
  - intros s h Hh Hp. rewrite length_aput. destruct (decide (h_classId h = kInvalidClassId)); [by left|right].
    destruct (decide (h_classId h = c)) as [-> |Hne]; [done|].
    destruct (pv_cover0 s h) as [|]; [by apply Hsame|done|done|done].
  - rewrite pv_slabs0. f_equal. f_equal. unfold class_slabs. simpl. rewrite (class_slabs_aput c ac ac') by done. lia.
Qed.

End pool.

(** Two lists of slabs with the same headers are the same up to order. *)
Lemma slabs_same sa ac ac' L L' t t' : CInv sa ac t L -> CInv sa ac' t' L' -> same_class ac ac' ->
  length (slabs ac') = length (slabs ac).
Proof.
  intros HC HC' (E1 & E2 & _). apply Permutation_length, NoDup_Permutation; [apply HC'|apply HC|].
  intros s. rewrite (ci_own _ _ _ _ HC'), (ci_own _ _ _ _ HC), E1, E2. done.
Qed.

(** A slab that waits for its chunks keeps waiting while its header stays. *)
Lemma releasing_keep sa sa' ac ac' L L' t t' s : CInv sa ac t L -> CInv sa' ac' t' L' -> same_class ac ac' ->
  hdr sa' s = hdr sa s -> s ∈ releasing ac -> s ∈ releasing ac'.
Proof.
  intros HC HC' (E1 & E2 & _) Eh Hr. pose proof (releasing_slabs ac s Hr) as Hs.
  destruct (proj1 (ci_own _ _ _ _ HC s) Hs) as [k (Hk & Hkp & Hkc)].
  destruct (ci_hdr _ _ _ _ HC s k Hs Hk) as [_ Em]. rewrite bool_decide_eq_true_2 in Em by done.
  assert (Hs' : s ∈ slabs ac') by (apply (ci_own _ _ _ _ HC'); exists k; split; [congruence|split; congruence]).
  destruct (ci_hdr _ _ _ _ HC' s k Hs') as [_ Em']; [congruence|]. rewrite Em in Em'. by apply eq_sym, bool_decide_eq_true in Em'.
Qed.

End SlabPoolInv.
