(* ===== verification/SlabPoolOps.v ===== *)
(** * SlabPoolOps: allocation and deallocation in a pool *)

From Stdlib Require Import ZArith Lia.
From stdpp Require Import base list gmap numbers.
From S2P Require Import Prelude Types Slab SlabClass SlabPool SlabInv SlabOps SlabRelease SlabStart SlabPoolInv.
Import Types Slab SlabClass SlabPool SlabFacts SlabInv SlabOps SlabStart SlabPoolInv.

Open Scope moon_scope.
Open Scope Z_scope.

Module SlabPoolOps.

Lemma u64_add_l a b : u64 (u64 a + b) = u64 (a + b).
Proof. unfold u64. apply Zplus_mod_idemp_l. Qed.

Lemma u64_sub_l a b : u64 (u64 a - b) = u64 (a - b).
Proof. unfold u64. apply Zminus_mod_idemp_l. Qed.
Lemma u64_u64 a : u64 (u64 a) = u64 a.
Proof. unfold u64. by rewrite Z.mod_mod. Qed.

(** ** Steps *)

Lemma runs_mp {A B} (f : MemoryPool -> A) (k : A -> ST PS B) sa p (Q : B -> PS -> Prop) :
  runs (k (f p)) (mkPS sa p) Q -> runs (bind (mp_ f) k) (mkPS sa p) Q.
Proof. done. Qed.
Lemma runs_upd_mp {B} f (k : unit -> ST PS B) sa p (Q : B -> PS -> Prop) :
  runs (k tt) (mkPS sa (f p)) Q -> runs (bind (upd_mp f) k) (mkPS sa p) Q.
Proof. done. Qed.
Lemma runs_ps {B} (k : PS -> ST PS B) w (Q : B -> PS -> Prop) :
  runs (k w) w Q -> runs (bind (gets (fun w => w)) k) w Q.
Proof. done. Qed.

Ltac psteps := repeat (match goal with
  | |- runs (bind (mp_ _) _) _ _ => apply runs_mp
  | |- runs (bind (upd_mp _) _) _ _ => apply runs_upd_mp
  | |- runs (bind (gets (fun w => w)) _) _ _ => apply runs_ps
  end; cbn beta).

Lemma runs_on_class {A} cid (c : ST CS A) sa p ac (Q : A -> PS -> Prop) : aget (ac_vec p) cid = Some ac ->
  runs c (mkCS sa ac) (fun r w => Q r (mkPS (cs_sa w) (set_ac_vec (aput (ac_vec p) cid (cs_ac w)) p))) ->
  runs (on_class cid c) (mkPS sa p) Q.
Proof. intros Hac. unfold runs, on_class. simpl. rewrite Hac. destruct (c _) as [[r w]|]; auto. Qed.

Lemma aput_same {A} (l : list A) i x : aget l i = Some x -> aput l i x = l.
Proof. unfold aget, aput. destruct (0 <=? i); [apply list_insert_id|done]. Qed.

Lemma set_ac_vec_same p : set_ac_vec (ac_vec p) p = p.
Proof. by destruct p. Qed.

Lemma runs_class_size {B} cid sa p ac (k : Z -> ST PS B) (Q : B -> PS -> Prop) : aget (ac_vec p) cid = Some ac ->
  runs (k (allocationSize_ ac)) (mkPS sa p) Q -> runs (bind (on_class cid (ac_ allocationSize_)) k) (mkPS sa p) Q.
Proof.
  intros Hac HQ. apply runs_bind. eapply runs_on_class; [exact Hac|]. unfold runs, ac_, gets. simpl.
  by rewrite (aput_same _ _ _ Hac), set_ac_vec_same.
Qed.

Lemma runs_pool_sa {A} (c : ST SlabAllocator A) sa p (Q : A -> PS -> Prop) :
  runs c sa (fun r sa' => Q r (mkPS sa' p)) -> runs (pool_sa c) (mkPS sa p) Q.
Proof. unfold runs, pool_sa. simpl. destruct (c sa) as [[r sa']|]; auto. Qed.

(** ** New slabs *)

Lemma add_pool_size_ok {B} id n sa (k : unit -> ST SlabAllocator B) (Q : B -> SlabAllocator -> Prop) :
  length (memoryPoolSize_ sa) = 127%nat -> 0 <= id < 127 ->
  (forall v, length v = 127%nat -> runs (k tt) (set_pool_sizes v sa) Q) -> runs (bind (add_pool_size id n) k) sa Q.
Proof.
  intros Hl Hid HQ. destruct (aget_range (memoryPoolSize_ sa) id ltac:(lia)) as [x Hx].
  unfold add_pool_size. apply runs_bind. unfold runs, bind, gets, lift, modify. rewrite Hx. apply HQ. by rewrite length_aput.
Qed.

Lemma set_pool_sizes_wf v sa : SAWf sa -> length v = 127%nat -> SAWf (set_pool_sizes v sa).
Proof. by intros [] Hv. Qed.

(** A new slab, taken from the free list or carved, has a fresh header; the
    null pointer means there is none. *)
Lemma makeNewSlab_ok id sa : SInv sa -> 0 <= id < 127 -> runs (makeNewSlab id) sa (fun r sa' => SInv sa' /\ same_frame sa sa' /\
  (r = 0 /\ (forall s, hdr sa' s = hdr sa s) /\ sa_freeSlabs sa = [] /\ allMemorySlabbed sa = true \/
   r <> 0 /\ ~ (sa_freeSlabs sa = [] /\ allMemorySlabbed sa = true) /\ hdr sa' r = Some (new_header id) /\ (forall s, s <> r -> hdr sa' s = hdr sa s) /\
   (hdr sa r = None \/ exists h, hdr sa r = Some h /\ h_poolId h = kInvalidPoolId))).
Proof.
  intros HS Hid. pose proof HS as [Hwf ND Hfree Hcan]. unfold makeNewSlab. apply runs_bind. unfold makeNewSlabImpl. apply runs_gets.
  destruct (sa_canAllocate sa) eqn:Ec; cbn [negb].
  2: { apply runs_ret, runs_ret. split; [done|]. split; [done|]. left. split; [done|]. split; [done|]. by apply Hcan. }
  apply runs_gets. destruct (list.last (sa_freeSlabs sa)) as [slab|] eqn:El.
  - assert (exists fs, sa_freeSlabs sa = fs ++ [slab]) as [fs Efs] by (by apply last_Some).
    rewrite Efs, removelast_last in *. apply list.NoDup_app in ND as (ND & Hd & _).
    destruct (proj1 (Hfree slab) ltac:(set_solver)) as (h & Hh & Hp).
    assert (Hv : valid sa slab) by (by apply (hdr_valid sa Hwf slab h)). pose proof (valid_bounds sa Hwf slab Hv).
    apply runs_modify, runs_ret. rewrite (proj2 (Z.eqb_neq slab 0)) by lia.
    apply add_pool_size_ok; [apply Hwf|done|]. intros v Hl. set (sa1 := set_pool_sizes v _).
    assert (Hwf1 : SAWf sa1) by (destruct Hwf; by split). assert (Hh1 : hdr sa1 slab = Some h) by exact Hh.
    apply runs_bind. unfold initializeHeader. apply runs_gets.
    eapply runs_eq; [by apply (write_ok sa1 Hwf1 slab h)|]. apply runs_ret.
    destruct (put_rewrote sa1 slab h (new_header id) Hwf1 Hh1) as (_ & Hwf2 & Hh2 & Hne).
    split; [|split; [done|]; right; split; [lia|]; split; [intros [E _]; by destruct fs|];
      split; [done|]; split; [done|]; right; by exists h].
    split; [done|done| |intros Hf; simpl in Hf; congruence]. intros s. simpl. split.
    + intros Hs. destruct (decide (s = slab)) as [-> |Hn]; [exfalso; apply (Hd slab Hs); set_solver|].
      rewrite Hne by done. apply Hfree. set_solver.
    + intros (k & Hk & Hkp). destruct (decide (s = slab)) as [-> |Hn]; [rewrite Hh2 in Hk; injection Hk as <-; simpl in Hkp; unfold kInvalidPoolId in *; lia|].
      rewrite Hne in Hk by done. assert (Hin : s ∈ fs ++ [slab]) by (apply Hfree; by exists k). set_solver.
  - apply last_None in El. rewrite El in *. pose proof (sw_next _ Hwf) as [Hn1 Hn2]. pose proof (sw_size _ Hwf) as (Hs1 & Hs2 & Hs3).
    pose proof (sw_start _ Hwf) as [Hst1 Hst2].
    apply runs_gets, runs_xdcheck; [by apply Z.eqb_eq|]. apply runs_gets.
    destruct (allMemorySlabbed sa) eqn:Ea.
    + apply runs_modify, runs_ret, runs_ret. split; [|split; [done|]; left; done]. split; [by destruct Hwf|simpl; rewrite El; constructor| |done].
      intros s. simpl. rewrite El. apply Hfree.
    + unfold allMemorySlabbed, getSlabMemoryEnd in Ea. apply Z.eqb_neq in Ea. rewrite u64_small in Ea by lia.
      rewrite u64_small by mlia. apply runs_modify, runs_ret.
      rewrite (proj2 (Z.eqb_neq (nextSlabAllocation_ sa) 0)) by lia.
      apply add_pool_size_ok; [apply Hwf|done|]. intros v Hl. set (sa1 := set_pool_sizes v _).
      set (slab := nextSlabAllocation_ sa) in *.
      assert (Hwf1 : SAWf sa1). { destruct Hwf; split; simpl; try done. split; [|mlia]. mlia. }
      assert (Hv1 : valid sa1 slab). { split; [simpl; rewrite kSize_eq; lia|done]. }
      destruct (valid_hdr sa1 Hwf1 slab Hv1) as [h Hh1].
      assert (Hsame : forall s, s <> slab -> hdr sa1 s = hdr sa s).
      { intros s Hn. unfold hdr. assert (isValidSlab sa1 s = isValidSlab sa s) as ->; [|done].
        apply eq_true_iff_eq. rewrite (isValidSlab_spec sa1 Hwf1), (isValidSlab_spec sa Hwf). unfold valid. simpl.
        fold slab. split; intros [? ?]; (split; [|done]); mlia. }
      assert (Hnone : hdr sa slab = None).
      { unfold hdr. destruct (isValidSlab sa slab) eqn:Ev; [|done]. apply (isValidSlab_spec sa Hwf) in Ev as [? _]. unfold slab in *. lia. }
      apply runs_bind. unfold initializeHeader. apply runs_gets.
      eapply runs_eq; [by apply (write_ok sa1 Hwf1 slab h)|]. apply runs_ret.
      destruct (put_rewrote sa1 slab h (new_header id) Hwf1 Hh1) as (_ & Hwf2 & Hh2 & Hne).
      split; [|split; [done|]; right; split; [unfold slab; lia|]; split; [by intros [_ ?]|]; split; [done|]; split;
        [intros s Hn; rewrite Hne by done; by apply Hsame|by left]].
      split; [done|simpl; rewrite El; constructor| |intros Hf; simpl in Hf; congruence]. intros s. simpl. rewrite El, Hfree.
      destruct (decide (s = slab)) as [-> |Hn]; [|by rewrite Hne, Hsame]. rewrite Hh2, Hnone.
      split; [by intros (? & ? & _)|]. intros (k & [= <-] & Hkp). simpl in Hkp. unfold kInvalidPoolId in *. lia.
Qed.

(** ** Operations of a class that keep its slabs *)

Lemma set_alloc_size_same p : set_alloc_size (currAllocSize_ p) p = p.
Proof. by destruct p. Qed.

Section pool.
Context (sa : SlabAllocator) (p : MemoryPool) (Ls : Z -> list Z) (d : Z) (HS : SInv sa).

Lemma class_op hole c ac ac' L' n : PoolInv sa p Ls hole d -> aget (ac_vec p) c = Some ac -> same_class ac ac' -> CInv sa ac' None L' ->
  n = u64 (currAllocSize_ p + allocationSize_ ac * (Z.of_nat (length L') - Z.of_nat (length (Ls c)))) ->
  PoolInv sa (set_alloc_size n (set_ac_vec (aput (ac_vec p) c ac') p)) (upd Ls c L') hole d.
Proof using Type.
  intros HP Hac Hsc HC' Hn. destruct (pv_class _ _ _ _ _ HP c ac Hac) as (Ec & Ep & Es & HC). pose proof Hsc as (E1 & E2 & E3).
  assert (HL : upd Ls c L' c = L') by apply upd_eq. assert (Hoth : forall c', c' <> c -> upd Ls c L' c' = Ls c').
  { intros c' Hne. by apply upd_ne. }
  eapply (PoolInv_class sa p Ls hole d HP sa c ac ac' L'); try done; try apply HP.
  - pose proof (slabs_same sa ac ac' _ _ _ _ HC HC' Hsc). lia.
  - rewrite Hn, (pv_bytes _ _ _ _ _ HP), u64_add_l. f_equal. unfold live_bytes. simpl.
    rewrite (live_sum_aput Ls (upd Ls c L') (ac_vec p) c ac ac'); [by rewrite HL| |done|congruence|done|done].
    intros c' ac1 Hac1. by apply (pv_class _ _ _ _ _ HP).
Qed.

(** A call that leaves the live chunks of the class alone. *)
Lemma class_op_keep hole c ac ac' : PoolInv sa p Ls hole d -> aget (ac_vec p) c = Some ac -> same_class ac ac' ->
  CInv sa ac' None (Ls c) -> PoolInv sa (set_ac_vec (aput (ac_vec p) c ac') p) Ls hole d.
Proof using Type.
  intros HP Hac Hsc HC'.
  pose proof (class_op hole c ac ac' (Ls c) (currAllocSize_ p) HP Hac Hsc HC') as H.
  assert (PoolInv sa (set_alloc_size (currAllocSize_ p) (set_ac_vec (aput (ac_vec p) c ac') p)) (upd Ls c (Ls c)) hole d) as HPI.
  { apply H. rewrite Z.sub_diag, Z.mul_0_r, Z.add_0_r, (pv_bytes _ _ _ _ _ HP). unfold u64. by rewrite Z.mod_mod. }
  replace (set_alloc_size (currAllocSize_ p) (set_ac_vec (aput (ac_vec p) c ac') p)) with (set_ac_vec (aput (ac_vec p) c ac') p) in HPI by done.
  assert (Hext : forall c', upd Ls c (Ls c) c' = Ls c').
  { intros c'. unfold upd. by destruct (Z.eqb_spec c c') as [-> |]. }
  destruct HPI. split; try done.
  - intros c' ac1 Hac1. rewrite <- (Hext c'). by apply pv_class0.
  - rewrite pv_bytes0. unfold live_bytes. f_equal. apply live_sum_ext. intros ac1 _. apply Hext.
Qed.

(** ** Slabs for a class *)

(** The pool has no slab to give: it is at its limit, or nobody has one. *)
Definition no_slab (sa : SlabAllocator) (p : MemoryPool) : Prop :=
  mp_allSlabsAllocated p = true \/
  mp_freeSlabs p = [] /\ sa_freeSlabs sa = [] /\ allMemorySlabbed sa = true.

Lemma getSlabLocked_ok : PoolInv sa p Ls [] d ->
  runs getSlabLocked (mkPS sa p) (fun r w => SInv (ps_sa w) /\ same_frame sa (ps_sa w) /\ others_same (mp_id p) sa (ps_sa w) /\
    classed_kept (mp_id p) sa (ps_sa w) /\ ac_vec (ps_mp w) = ac_vec p /\ mp_id (ps_mp w) = mp_id p /\ currAllocSize_ (ps_mp w) = currAllocSize_ p /\
    maxSize_ (ps_mp w) = maxSize_ p /\ acSizes_ (ps_mp w) = acSizes_ p /\
    (r = 0 /\ no_slab sa p /\ PoolInv (ps_sa w) (ps_mp w) Ls [] d \/
     r <> 0 /\ ~ no_slab sa p /\ PoolInv (ps_sa w) (ps_mp w) Ls [r] d)).
Proof using HS.
  intros HP. unfold getSlabLocked. psteps. destruct (mp_allSlabsAllocated p) eqn:Efull.
  { apply runs_ret. split_and!; try done. left. split; [done|]. split; [by left|done]. }
  psteps. pose proof (pv_slabs _ _ _ _ _ HP) as Esl. simpl in Esl. rewrite Z.add_0_r in Esl.
  set (p1 := set_slab_size (u64 (currSlabAllocSize_ p + kSize)) p).
  assert (Esl1 : currSlabAllocSize_ p1 = u64 (kSize * (class_slabs p + 1 - d))).
  { unfold p1. simpl. rewrite Esl, u64_add_l. f_equal. lia. }
  change (mp_freeSlabs p1) with (mp_freeSlabs p). destruct (list.last (mp_freeSlabs p)) as [slab|] eqn:El.
  - apply last_Some in El as [fs Efs]. rewrite Efs, removelast_last. psteps. apply runs_ret. split_and!; try done. right.
    assert (Hin : slab ∈ mp_freeSlabs p ++ []) by (rewrite Efs; set_solver).
    destruct (proj1 (pv_free _ _ _ _ _ HP slab) Hin) as (h & Hh & _). split.
    { pose proof (valid_bounds sa (si_wf _ HS) slab (hdr_valid sa (si_wf _ HS) slab h Hh)). lia. }
    split; [intros [?|[E _]]; [congruence|]; rewrite Efs in E; by destruct fs|].
    destruct HP. split; simpl; try done.
    + rewrite Efs, app_nil_r in pv_nodup0. done.
    + intros s. rewrite <- pv_free0, Efs, app_nil_r. done.
  - apply last_None in El. psteps. apply runs_bind, runs_pool_sa.
    eapply runs_mono; [apply (makeNewSlab_ok (mp_id p) sa HS); apply (pv_id _ _ _ _ _ HP)|].
    intros slab sa1 (HS1 & Hfr & Hcase). destruct Hcase as [(-> & Hsame & Ef & Ea)|(Hnz & Hnf & Hnew & Hsame & Hold)].
    + simpl. apply runs_upd_mp, runs_ret. simpl. split_and!; try done.
      * intros s h _ _. by rewrite Hsame.
      * intros s h Hh _ _. by rewrite Hsame.
      * left. split; [done|]. split; [by right|].
        assert (HP1 : PoolInv sa1 p Ls [] d) by (eapply PoolInv_frame; [exact HP|]; intros s h _; by rewrite Hsame).
        destruct HP1. split; simpl; try done. rewrite u64_sub_l, Z.add_simpl_r, pv_slabs0. apply u64_u64.
    + rewrite (proj2 (Z.eqb_neq slab 0)) by done. simpl. apply runs_ret, runs_ret. simpl. split_and!; try done.
      * intros s h Hp Hi. destruct (decide (s = slab)) as [-> |Hn]; [|by rewrite Hsame].
        rewrite Hnew. split; [by intros [= <-]|]. destruct Hold as [E|(k & E & Ek)]; rewrite E; [done|]. by intros [= <-].
      * intros s h Hh Hp _. rewrite Hsame; [done|]. intros ->. pose proof (pv_id _ _ _ _ _ HP).
        destruct Hold as [E|(k & E & Ek)]; simplify_eq; unfold kInvalidPoolId in *; congruence || lia.
      * right. split; [done|]. split; [intros [?|(_ & ? & ?)]; [congruence|by apply Hnf]|]. pose proof (pv_id _ _ _ _ _ HP) as Hid.
        assert (Hcl : forall c s h, c <> kInvalidClassId -> of_class sa1 (mp_id p) c s h <-> of_class sa (mp_id p) c s h).
        { intros c s h Hc. unfold of_class. destruct (decide (s = slab)) as [-> |Hn]; [|by rewrite Hsame]. rewrite Hnew. split.
          - intros ([= <-] & _ & E). simpl in E. congruence.
          - intros (E & Ep & _). destruct Hold as [E'|(k & E' & Ek)]; [congruence|].
            rewrite E in E'. injection E' as <-. rewrite Ep in Ek. unfold kInvalidPoolId in Ek. lia. }
        assert (Hnone : forall s h, of_class sa (mp_id p) kInvalidClassId s h -> False).
        { intros s h Hof. assert (Hin : s ∈ mp_freeSlabs p ++ []) by (apply (pv_free _ _ _ _ _ HP); by exists h).
          rewrite El in Hin. by apply elem_of_nil in Hin. }
        assert (Hinv : forall s h, of_class sa1 (mp_id p) kInvalidClassId s h -> s = slab /\ h = new_header (mp_id p)).
        { intros s h (Hh & Hp' & Hc'). destruct (decide (s = slab)) as [-> |Hn]; [by rewrite Hnew in Hh; injection Hh as <-|].
          exfalso. apply (Hnone s h). rewrite Hsame in Hh by done. done. }
        destruct HP. split; simpl; try done.
        -- intros c ac Hac. destruct (pv_class0 c ac Hac) as (E1 & E2 & ? & HC). split_and!; try done.
           eapply CInv_frame; [exact HC|]. intros s h. rewrite E1, E2. apply Hcl.
           apply aget_Some_range in Hac. unfold kInvalidClassId. lia.
        -- rewrite El. simpl. apply NoDup_singleton.
        -- intros s. rewrite El. simpl. rewrite list_elem_of_singleton. split.
           ++ intros ->. exists (new_header (mp_id p)). by split.
           ++ intros [h Hh]. by apply (Hinv s h).
        -- intros s h Hh. destruct (Hinv s h Hh) as [-> ->]. by split_and!.
        -- intros s h Hh Hp'. destruct (decide (h_classId h = kInvalidClassId)); [by left|].
           apply (pv_cover0 s h); [|done]. by apply (Hcl (h_classId h) s h).
Qed.

End pool.

(** ** Slabs between the pool and a class *)

Section move.
Context (sa sa' : SlabAllocator) (p : MemoryPool) (Ls : Z -> list Z) (d s c : Z) (h h' : SlabHeader) (ac ac' : AllocationClass).
Context (Hwf : SAWf sa) (Hac : aget (ac_vec p) c = Some ac) (Hsc : same_class ac ac') (Hrw : rewrote sa sa' s h').

(** A slab on its way enters a class. *)
Lemma class_gain L' n : PoolInv sa p Ls [s] d -> of_class sa (mp_id p) kInvalidClassId s h ->
  h_poolId h' = mp_id p -> h_classId h' = c -> CInv sa' ac' None L' ->
  n = u64 (currAllocSize_ p + allocationSize_ ac * (Z.of_nat (length L') - Z.of_nat (length (Ls c)))) ->
  PoolInv sa' (set_alloc_size n (set_ac_vec (aput (ac_vec p) c ac') p)) (upd Ls c L') [] d.
Proof using Hac Hsc Hrw.
  intros HP (Hh & Hp & Hcl) Hp' Hc' HC' Hn. destruct (pv_class _ _ _ _ _ HP c ac Hac) as (Ec & Ep & Es & HC).
  pose proof Hsc as (E1 & E2 & E3). pose proof Hrw as (_ & _ & Hhs & Hne). pose proof (aget_Some_range _ _ _ Hac) as Hr.
  assert (HL : upd Ls c L' c = L') by apply upd_eq. assert (Hoth : forall c', c' <> c -> upd Ls c L' c' = Ls c').
  { intros c' ?. by apply upd_ne. }
  assert (Hnc : kInvalidClassId <> c) by (unfold kInvalidClassId; lia).
  pose proof (pv_nodup _ _ _ _ _ HP) as ND. apply list.NoDup_app in ND as (ND & Hd & _).
  assert (Hfree : forall s', (exists k, of_class sa' (mp_id p) kInvalidClassId s' k) <-> s' ∈ mp_freeSlabs p).
  { intros s'. pose proof (pv_free _ _ _ _ _ HP s') as Hf. unfold of_class in *.
    destruct (decide (s' = s)) as [-> |Hn'].
    - split; [intros (k & E & _ & Ek); rewrite Hhs in E; injection E as <-; congruence|].
      intros Hin. exfalso. apply (Hd s Hin). left.
    - rewrite Hne, <- Hf, elem_of_app, list_elem_of_singleton by done. naive_solver. }
  eapply (PoolInv_class sa p Ls [s] d HP sa' c ac ac' L'); try done.
  - intros s' k Hk Hkc Hki. destruct (decide (s' = s)) as [-> |Hn']; [|by rewrite Hne].
    rewrite Hhs, Hh. split; intros [= <-]; done.
  - by rewrite app_nil_r.
  - intros s'. by rewrite Hfree, app_nil_r.
  - intros s' k Hk. apply (pv_unclassed _ _ _ _ _ HP s'). destruct Hk as (E & ?).
    destruct (decide (s' = s)) as [-> |Hn']; [rewrite Hhs in E; injection E as <-; naive_solver|]. by rewrite Hne in E.
  - assert (slabs ac' ≡ₚ s :: slabs ac) as HPm.
    { apply NoDup_Permutation; [apply HC'| |].
      - apply list.NoDup_cons. split; [|apply HC]. intros (k & E & _ & Ek)%(ci_own _ _ _ _ HC). rewrite Hh in E. injection E as <-. congruence.
      - intros s'. rewrite elem_of_cons, (ci_own _ _ _ _ HC'), (ci_own _ _ _ _ HC), E1, E2, Ec, Ep. unfold of_class.
        destruct (decide (s' = s)) as [-> |Hn']; [|rewrite Hne by done; naive_solver].
        rewrite Hhs. split; [by left|]. intros _. by exists h'. }
    rewrite HPm. simpl. lia.
  - rewrite Hn, (pv_bytes _ _ _ _ _ HP), u64_add_l. f_equal. unfold live_bytes. simpl.
    rewrite (live_sum_aput Ls (upd Ls c L') (ac_vec p) c ac ac'); [by rewrite HL| |done|congruence|done|done].
    intros c' ac1 Hac1. by apply (pv_class _ _ _ _ _ HP).
Qed.

(** A slab leaves a class. *)
Lemma class_lose : PoolInv sa p Ls [] d -> of_class sa (mp_id p) c s h -> unclassed (mp_id p) h' ->
  CInv sa' ac' None (Ls c) -> PoolInv sa' (set_ac_vec (aput (ac_vec p) c ac') p) Ls [s] d.
Proof using Hac Hsc Hrw.
  intros HP (Hh & Hp & Hcl) Hun HC'. destruct (pv_class _ _ _ _ _ HP c ac Hac) as (Ec & Ep & Es & HC).
  pose proof Hsc as (E1 & E2 & E3). pose proof Hrw as (_ & _ & Hhs & Hne). pose proof (aget_Some_range _ _ _ Hac) as Hr.
  assert (Hnc : kInvalidClassId <> c) by (unfold kInvalidClassId; lia). pose proof Hun as (Hup & Huc & _).
  assert (Hnf : s ∉ mp_freeSlabs p).
  { intros Hin. destruct (proj1 (pv_free _ _ _ _ _ HP s)) as (k & E & _ & Ek); [by rewrite app_nil_r|].
    rewrite Hh in E. injection E as <-. congruence. }
  pose proof (pv_nodup _ _ _ _ _ HP) as ND. rewrite app_nil_r in ND.
  replace (set_ac_vec (aput (ac_vec p) c ac') p) with
    (set_alloc_size (currAllocSize_ p) (set_ac_vec (aput (ac_vec p) c ac') p)) by done.
  eapply (PoolInv_class sa p Ls [] d HP sa' c ac ac' (Ls c)); try done.
  - intros s' k Hk Hkc Hki. destruct (decide (s' = s)) as [-> |Hn']; [|by rewrite Hne].
    rewrite Hhs, Hh. split; intros [= <-]; done.
  - apply list.NoDup_app. split; [done|]. split; [|apply NoDup_singleton]. intros x Hx ->%list_elem_of_singleton. done.
  - intros s'. pose proof (pv_free _ _ _ _ _ HP s') as Hf. rewrite app_nil_r in Hf. rewrite elem_of_app, list_elem_of_singleton, Hf.
    unfold of_class. destruct (decide (s' = s)) as [-> |Hn']; [|rewrite Hne by done; naive_solver].
    rewrite Hhs. split; [|by right]. intros _. by exists h'.
  - intros s' k (E & Ek). destruct (decide (s' = s)) as [-> |Hn']; [rewrite Hhs in E; by injection E as <-|].
    apply (pv_unclassed _ _ _ _ _ HP s'). rewrite Hne in E by done. done.
  - assert (slabs ac ≡ₚ s :: slabs ac') as HPm.
    { apply NoDup_Permutation; [apply HC| |].
      - apply list.NoDup_cons. split; [|apply HC']. intros (k & E & _ & Ek)%(ci_own _ _ _ _ HC'). rewrite Hhs in E. injection E as <-. congruence.
      - intros s'. rewrite elem_of_cons, (ci_own _ _ _ _ HC'), (ci_own _ _ _ _ HC), E1, E2, Ec, Ep. unfold of_class.
        destruct (decide (s' = s)) as [-> |Hn']; [|rewrite Hne by done; naive_solver].
        rewrite Hh. split; [by left|]. intros _. by exists h. }
    rewrite HPm. simpl. lia.
  - rewrite (pv_bytes _ _ _ _ _ HP). f_equal. unfold live_bytes. simpl.
    rewrite (live_sum_aput Ls Ls (ac_vec p) c ac ac'); [lia| |done|congruence|done|done].
    intros c' ac1 Hac1. by apply (pv_class _ _ _ _ _ HP).
Qed.

(** A header is rewritten within a class. *)
Lemma class_rewrite : PoolInv sa p Ls [] d -> of_class sa (mp_id p) c s h -> h_poolId h' = mp_id p -> h_classId h' = c ->
  CInv sa' ac' None (Ls c) -> PoolInv sa' (set_ac_vec (aput (ac_vec p) c ac') p) Ls [] d.
Proof using Hac Hsc Hrw.
  intros HP (Hh & Hp & Hcl) Hp' Hc' HC'. destruct (pv_class _ _ _ _ _ HP c ac Hac) as (Ec & Ep & Es & HC).
  pose proof Hsc as (E1 & E2 & E3). pose proof Hrw as (_ & _ & Hhs & Hne). pose proof (aget_Some_range _ _ _ Hac) as Hr.
  assert (Hnc : kInvalidClassId <> c) by (unfold kInvalidClassId; lia).
  assert (Hfree : forall s' k, of_class sa' (mp_id p) kInvalidClassId s' k <-> of_class sa (mp_id p) kInvalidClassId s' k).
  { intros s' k. unfold of_class. destruct (decide (s' = s)) as [-> |Hn']; [|by rewrite Hne].
    rewrite Hhs, Hh. split; intros ([= <-] & ? & ?); congruence. }
  replace (set_ac_vec (aput (ac_vec p) c ac') p) with
    (set_alloc_size (currAllocSize_ p) (set_ac_vec (aput (ac_vec p) c ac') p)) by done.
  eapply (PoolInv_class sa p Ls [] d HP sa' c ac ac' (Ls c)); try done.
  - intros s' k Hk Hkc Hki. destruct (decide (s' = s)) as [-> |Hn']; [|by rewrite Hne].
    rewrite Hhs, Hh. split; intros [= <-]; congruence.
  - apply HP.
  - intros s'. rewrite (pv_free _ _ _ _ _ HP). split; intros [k Hk]; exists k; by apply Hfree.
  - intros s' k Hk%Hfree. by apply (pv_unclassed _ _ _ _ _ HP s').
  - assert (slabs ac ≡ₚ slabs ac') as HPm; [|by rewrite HPm].
    apply NoDup_Permutation; [apply HC|apply HC'|]. intros s'.
    rewrite (ci_own _ _ _ _ HC'), (ci_own _ _ _ _ HC), E1, E2, Ec, Ep. unfold of_class.
    destruct (decide (s' = s)) as [-> |Hn']; [|by rewrite Hne by done]. rewrite Hh, Hhs. split; intros _; by eexists.
  - rewrite (pv_bytes _ _ _ _ _ HP). f_equal. unfold live_bytes. simpl.
    rewrite (live_sum_aput Ls Ls (ac_vec p) c ac ac'); [lia| |done|congruence|done|done].
    intros c' ac1 Hac1. by apply (pv_class _ _ _ _ _ HP).
Qed.

End move.

Lemma addSlabAndAllocate_ok sa ac L s h : SAWf sa -> CInv sa ac None L -> hdr sa s = Some h -> s <> 0 ->
  h_poolId h = ac_poolId ac -> h_classId h <> ac_classId ac -> isMarkedForRelease h = false ->
  runs (addSlabAndAllocate s) (mkCS sa ac) (fun r w => r <> 0 /\
    cs_sa w = put sa s (set_class (ac_classId ac) (allocationSize_ ac) h) /\ same_class ac (cs_ac w) /\
    CInv (cs_sa w) (cs_ac w) None (r :: L)).
Proof.
  intros Hwf HC Hh Hs Hp Hc Hm. unfold addSlabAndAllocate. apply runs_xdcheck; [by apply negb_true_iff, Z.eqb_neq|].
  apply runs_bind. eapply runs_mono; [by apply (addSlabLocked_ok sa ac None L s h)|].
  intros [] [sa1 ac1] (E1 & Hsc & Hcan & Hne & HC1). simpl in *. subst sa1.
  eapply runs_mono; [apply allocateLocked_ok; [by apply put_wf|exact HC1|done]|].
  intros r [sa2 ac2] (E2 & Hsc2 & Hcase). simpl in *. destruct Hcase as [(_ & Hex & _)|(Hr & _ & HC2)]; [done|].
  split; [done|]. split; [done|]. split; [by eapply same_class_trans|]. by rewrite E2.
Qed.

(** ** The class of a request *)

Lemma getAllocationClassId_ok {B} sa p Ls hole d size (k : Z -> ST PS (Res B)) (Q : Res B -> PS -> Prop) :
  PoolInv sa p Ls hole d -> 0 <= size ->
  (size = 0 \/ (forall x, x ∈ acSizes_ p -> x < size) -> Q (inl invalid_argument) (mkPS sa p)) ->
  (forall c ac, 0 < size -> c = lower_bound (acSizes_ p) size -> aget (ac_vec p) c = Some ac -> size <= allocationSize_ ac ->
     runs (k c) (mkPS sa p) Q) ->
  runs (bindx (getAllocationClassId size) k) (mkPS sa p) Q.
Proof.
  intros HP Hs Hbad Hgood. destruct (pv_sizes _ _ _ _ _ HP) as (Hl & Hlen & Hsorted).
  unfold getAllocationClassId. apply runs_bindx. psteps.
  destruct (list.last (acSizes_ p)) as [back|] eqn:Eb.
  2: { apply last_None in Eb. rewrite Eb in Hl. simpl in Hl. lia. }
  pose proof Eb as [l El]%last_Some. apply runs_bind. cbn.
  destruct (Z.ltb_spec back size) as [Hb|Hb]; cbn [orb].
  { apply Hbad. right. intros x [i Hi]%list_elem_of_lookup. rewrite last_lookup in Eb.
    destruct (decide (i = pred (length (acSizes_ p)))) as [-> |Hne]; [rewrite Eb in Hi; by simplify_eq|].
    pose proof (lookup_lt_Some _ _ _ Hi). specialize (Hsorted i _ _ _ Hi Eb ltac:(lia)). lia. }
  destruct (Z.eqb_spec size 0) as [-> |Hnz]; [apply Hbad; by left|].
  destruct (lower_bound_spec (acSizes_ p) size) as (y & Hy & Hxy & Hr & _).
  { exists back. split; [|done]. rewrite El. set_solver. }
  apply runs_xdcheck; [apply Z.ltb_lt; lia|]. apply runs_xdcheck; [apply Z.ltb_lt; lia|]. apply runs_ret.
  assert (s8 (lower_bound (acSizes_ p) size) = lower_bound (acSizes_ p) size) as ->.
  { unfold s8. rewrite Z.mod_small by lia. lia. }
  destruct (pool_class sa p Ls hole d HP (lower_bound (acSizes_ p) size)) as (ac & Hac & _ & _ & Es & _); [lia|].
  apply (Hgood _ ac); [lia|done|done|]. rewrite Hy in Es. simplify_eq. done.
Qed.

(** ** allocate *)

(** What [MemoryPool::allocate] promises. *)
Definition mp_alloc_post (sa : SlabAllocator) (p : MemoryPool) (Ls : Z -> list Z) (d size : Z) (r : Res Z) (w : PS) : Prop :=
  SInv (ps_sa w) /\ same_frame sa (ps_sa w) /\ others_same (mp_id p) sa (ps_sa w) /\
  classed_kept (mp_id p) sa (ps_sa w) /\ mp_id (ps_mp w) = mp_id p /\
  acSizes_ (ps_mp w) = acSizes_ p /\ maxSize_ (ps_mp w) = maxSize_ p /\
  ((r = inl invalid_argument /\ (size = 0 \/ (forall x, x ∈ acSizes_ p -> x < size)) /\ PoolInv (ps_sa w) (ps_mp w) Ls [] d) \/
   exists ac, let c := lower_bound (acSizes_ p) size in
     aget (ac_vec p) c = Some ac /\ 0 < size <= allocationSize_ ac /\
     (r = inr 0 /\ exhausted ac /\ no_slab sa p /\ PoolInv (ps_sa w) (ps_mp w) Ls [] d \/
      exists x, r = inr x /\ x <> 0 /\ ~ (exhausted ac /\ no_slab sa p) /\
        PoolInv (ps_sa w) (ps_mp w) (upd Ls c (x :: Ls c)) [] d)).

Lemma mp_allocate_ok sa p Ls d size : SInv sa -> PoolInv sa p Ls [] d -> 0 <= size ->
  runs (mp_allocate size) (mkPS sa p) (mp_alloc_post sa p Ls d size).
Proof.
  intros HS HP Hs. pose proof (si_wf _ HS) as Hwf. unfold mp_allocate.
  eapply (getAllocationClassId_ok sa p Ls [] d size); [done|done| |].
  { intros Hbad. split_and!; try done. by left. }
  intros c ac Hpos Ec Hac Hle. destruct (pv_class _ _ _ _ _ HP c ac Hac) as (Ecid & Epid & _ & HC).
  pose proof (aget_Some_range _ _ _ Hac) as Hrange.
  assert (Hsome : forall x ac' sz, sz = allocationSize_ ac -> same_class ac ac' -> CInv sa ac' None (x :: Ls c) -> x <> 0 -> ~ exhausted ac ->
    runs (do* account sz in done_ x) (mkPS sa (set_ac_vec (aput (ac_vec p) c ac') p)) (mp_alloc_post sa p Ls d size)).
  { intros x ac' sz -> Hsc' HC' Hx Hnx. unfold account. apply runs_upd_mp, runs_ret. split_and!; try done. right. exists ac.
    cbv zeta. rewrite <- Ec. split; [done|]. split; [done|]. right. exists x. split; [done|]. split; [done|]. split; [by intros [? _]|].
    apply (class_op sa p Ls d [] c ac ac' (x :: Ls c)); try done. f_equal. simpl length. simpl currAllocSize_. lia. }
  apply runs_bind. eapply runs_on_class; [exact Hac|]. eapply runs_mono; [by apply (ac_allocate_ok sa None (Ls c))|].
  intros r [sa1 ac1] (E1 & Hsc1 & Hcase1). cbn [cs_sa cs_ac] in *. subst sa1.
  set (p1 := set_ac_vec (aput (ac_vec p) c ac1) p). pose proof Hsc1 as (E1c & E1p & E1s).
  assert (Hac1 : aget (ac_vec p1) c = Some ac1) by (by apply aget_aput_eq).
  eapply runs_class_size; [exact Hac1|]. apply runs_xdcheck; [apply Z.leb_le; lia|].
  destruct Hcase1 as [(-> & Hex & Hex1 & HC1)|(Hr & Hnx & HC1)].
  2: { rewrite (proj2 (Z.eqb_neq r 0)) by done. simpl negb. cbv iota. by apply Hsome. }
  simpl negb. cbv iota. assert (HP1 : PoolInv sa p1 Ls [] d) by (by apply (class_op_keep sa p Ls d [] c ac)).
  psteps. destruct (mp_allSlabsAllocated p1) eqn:Efull.
  { apply runs_ret. split_and!; try done. right. exists ac. cbv zeta. rewrite <- Ec. split; [done|]. split; [done|]. left.
    split; [done|]. split; [done|]. split; [by left|done]. }
  apply runs_bind. eapply runs_on_class; [exact Hac1|]. eapply runs_mono; [by apply (ac_allocate_ok sa None (Ls c))|].
  intros r [sa1 ac2] (E2 & Hsc2 & Hcase2). cbn [cs_sa cs_ac] in *. subst sa1.
  assert (Hsc12 : same_class ac ac2) by (by eapply same_class_trans). pose proof Hsc12 as (E2c & E2p & E2s).
  assert (Ep2 : set_ac_vec (aput (ac_vec p1) c ac2) p1 = set_ac_vec (aput (ac_vec p) c ac2) p).
  { unfold p1. simpl. unfold aput. by rewrite list_insert_insert_eq. }
  rewrite Ep2. destruct Hcase2 as [(-> & Hex2 & _ & HC2)|(Hr & Hnx & HC2)].
  2: { rewrite (proj2 (Z.eqb_neq r 0)) by done. simpl negb. cbv iota. by apply Hsome. }
  simpl negb. cbv iota. set (p2 := set_ac_vec (aput (ac_vec p) c ac2) p).
  assert (HP2 : PoolInv sa p2 Ls [] d) by (by apply (class_op_keep sa p Ls d [] c ac)).
  apply runs_bind. eapply runs_mono; [by apply (getSlabLocked_ok sa p2 Ls d HS)|].
  intros slab [sa3 p3] (HS3 & Hfr3 & Hos3 & Hck3 & Eac3 & Eid3 & Eal3 & Emx3 & Esz3 & Hcase3). cbn [ps_sa ps_mp] in *.
  destruct Hcase3 as [(-> & Hno & HP3)|(Hnz & Hyes & HP3)].
  { simpl. apply runs_ret. split_and!; try done. right. exists ac. cbv zeta. rewrite <- Ec. split; [done|]. split; [done|].
    left. split; [done|]. split; [done|]. split; [done|]. done. }
  rewrite (proj2 (Z.eqb_neq slab 0)) by done.
  assert (Hac3 : aget (ac_vec p3) c = Some ac2) by (rewrite Eac3; by apply aget_aput_eq).
  destruct (pv_class _ _ _ _ _ HP3 c ac2 Hac3) as (_ & _ & _ & HC3).
  destruct (proj1 (pv_free _ _ _ _ _ HP3 slab)) as (h & Hof); [set_solver|].
  pose proof (pv_unclassed _ _ _ _ _ HP3 slab h Hof) as (Hup & Huc & _ & Hum). pose proof Hof as (Hh & _).
  pose proof (si_wf _ HS3) as Hwf3.
  apply runs_bind. eapply runs_on_class; [exact Hac3|].
  eapply runs_mono; [apply (addSlabAndAllocate_ok sa3 ac2 (Ls c) slab h); try done; [by rewrite Hup, Eid3, E2p, Epid|]|].
  { rewrite Huc, E2c. unfold kInvalidClassId. lia. }
  intros x [sa4 ac4] (Hx & E4 & Hsc4 & HC4). cbn [cs_sa cs_ac] in *.
  apply runs_xdcheck; [by apply negb_true_iff, Z.eqb_neq|]. unfold account. apply runs_upd_mp, runs_ret.
  assert (Hrw : rewrote sa3 sa4 slab (set_class (ac_classId ac2) (allocationSize_ ac2) h)).
  { rewrite E4. by apply (put_rewrote sa3 slab h). }
  split; [|split; [|split; [|split; [|split; [|split; [|split]]]]]]; try done.
  - apply (rewrote_SInv sa3 sa4 slab h (set_class (ac_classId ac2) (allocationSize_ ac2) h)); try done;
      rewrite ?Hup; simpl; rewrite ?Hup, Eid3; pose proof (pv_id _ _ _ _ _ HP); unfold kInvalidPoolId; simpl; lia.
  - destruct Hrw as (E & _). unfold same_frame in *. injection E. simpl. intros. rewrite E4. simpl. done.
  - eapply others_same_trans; [exact Hos3|]. simpl. eapply rewrote_others; [exact Hrw|exact Hh| |]; simpl; by rewrite Hup.
  - eapply classed_kept_trans; [exact Hck3|]. intros s' k Hk _ Hkc. destruct Hrw as (_ & _ & _ & Hne). rewrite Hne; [done|].
    intros ->. congruence.
  - right. exists ac. cbv zeta. rewrite <- Ec. split; [done|]. split; [done|]. right. exists x. split; [done|]. split; [done|]. split; [by intros [_ ?]|].
    assert (Hcc : ac_classId ac2 = c) by congruence.
    apply (class_gain sa3 sa4 p3 Ls d slab c h (set_class (ac_classId ac2) (allocationSize_ ac2) h) ac2 ac4); try done.
    simpl currAllocSize_. rewrite E1s, E2s. f_equal. simpl length. lia.
Qed.

(** ** free *)

Lemma mp_free_ok sa p Ls d c ac x : SInv sa -> PoolInv sa p (upd Ls c (x :: Ls c)) [] d -> aget (ac_vec p) c = Some ac ->
  runs (mp_free x) (mkPS sa p) (fun r w => r = inr tt /\ ps_sa w = sa /\ mp_id (ps_mp w) = mp_id p /\
    acSizes_ (ps_mp w) = acSizes_ p /\ maxSize_ (ps_mp w) = maxSize_ p /\ PoolInv sa (ps_mp w) Ls [] d).
Proof.
  intros HS HP Hac. pose proof (si_wf _ HS) as Hwf. destruct (pv_class _ _ _ _ _ HP c ac Hac) as (Ecid & Epid & _ & HC).
  rewrite upd_eq in HC. pose proof (aget_Some_range _ _ _ Hac) as Hrange. destruct (pv_sizes _ _ _ _ _ HP) as (Hl & Hlen & _).
  destruct (live_where sa ac None (x :: Ls c) x Hwf HC ltac:(left)) as (s & h & Es & _ & (Hh & Ep & Ec) & _).
  assert (Hv : valid sa s) by (by apply (hdr_valid sa Hwf s h)).
  unfold mp_free. apply runs_bindx. unfold getAllocationClassId_mem. psteps. simpl ps_sa. simpl ps_mp.
  rewrite (getSlabHeader_mem_eq sa Hwf), Es, (getSlabHeader_valid sa Hwf s Hv), <- (getSlabHeader_valid sa Hwf s Hv).
  apply runs_bind, runs_pool_sa. eapply runs_eq; [by apply (read_ok sa Hwf s h)|].
  rewrite Ep, Epid, Z.eqb_refl, Ec, Ecid. cbn [negb].
  rewrite (proj2 (Z.eqb_neq c kInvalidClassId)) by (unfold kInvalidClassId; lia).
  assert (s8 (Z.of_nat (length (ac_vec p))) = Z.of_nat (length (ac_vec p))) as ->.
  { unfold s8. rewrite Z.mod_small by lia. lia. }
  rewrite (proj2 (Z.leb_gt _ c)), (proj2 (Z.ltb_ge c 0)) by lia. cbn [orb]. apply runs_ret.
  apply runs_bindx. eapply runs_on_class; [exact Hac|]. eapply runs_mono; [by apply (ac_free_ok sa ac None (Ls c) x)|].
  intros r [sa1 ac1] (-> & E1 & Hsc & HC1). cbn [cs_sa cs_ac] in *. subst sa1.
  eapply runs_class_size; [by apply aget_aput_eq|]. apply runs_upd_mp, runs_ret. split_and!; try done. simpl ps_mp.
  pose proof Hsc as (_ & _ & E3).
  assert (HPI : PoolInv sa (set_alloc_size (u64 (currAllocSize_ p + - allocationSize_ ac1)) (set_ac_vec (aput (ac_vec p) c ac1) p))
    (upd (upd Ls c (x :: Ls c)) c (Ls c)) [] d).
  { apply (class_op sa p (upd Ls c (x :: Ls c)) d [] c ac ac1 (Ls c)); try done. rewrite upd_eq. f_equal.
    simpl length. rewrite E3. lia. }
  assert (Hext : forall c', upd (upd Ls c (x :: Ls c)) c (Ls c) c' = Ls c').
  { intros c'. unfold upd. by destruct (Z.eqb_spec c c') as [-> |]. }
  destruct HPI. split; try done.
  - intros c' ac' Hac'. rewrite <- (Hext c'). by apply pv_class0.
  - simpl in pv_bytes0 |- *. rewrite pv_bytes0. unfold live_bytes. f_equal. apply live_sum_ext. intros ac' _. apply Hext.
Qed.

End SlabPoolOps.
