(* ===== verification/SlabPoolRelease.v ===== *)
(** * SlabPoolRelease: slab release in a pool *)

From Stdlib Require Import ZArith Lia.
From stdpp Require Import base list gmap numbers.
From S2P Require Import Prelude Types Slab SlabClass SlabPool SlabInv SlabOps SlabRelease SlabStart SlabPoolInv SlabPoolOps.
Import Types Slab SlabClass SlabPool SlabFacts SlabInv SlabOps SlabPrune SlabStart SlabPoolInv SlabPoolOps.

Open Scope moon_scope.
Open Scope Z_scope.

Module SlabPoolRelease.

(** The slab goes back to the slab allocator. *)
Lemma freeSlab_ok s h sa : SInv sa -> hdr sa s = Some h -> 0 <= h_poolId h < 127 ->
  runs (freeSlab s) sa (fun r sa' => r = inr tt /\ SInv sa' /\ same_frame sa sa' /\ hdr sa' s = Some (resetAllocInfo h) /\
    (forall s', s' <> s -> hdr sa' s' = hdr sa s')).
Proof.
  intros HS Hh Hp. pose proof HS as [Hwf ND Hfree Hcan]. assert (Hv : valid sa s) by (by apply (hdr_valid sa Hwf s h)).
  unfold freeSlab. apply runs_gets. apply runs_xdcheck.
  { apply bool_decide_eq_true. by rewrite (getSlabHeader_valid sa Hwf s Hv). }
  rewrite (getSlabHeader_valid sa Hwf s Hv) at 1. apply runs_bind. eapply runs_eq; [by apply (read_ok sa Hwf s h)|].
  apply add_pool_size_ok; [apply Hwf|done|]. intros v Hl. apply runs_gets, runs_modify, runs_modify.
  set (sa1 := set_sa_can true _). assert (Hwf1 : SAWf sa1) by (destruct Hwf; by split).
  assert (Hh1 : hdr sa1 s = Some h) by exact Hh.
  apply runs_bind. change (getSlabHeader sa s) with (getSlabHeader sa1 s).
  eapply runs_eq; [by apply (write_ok sa1 Hwf1 s h)|]. apply runs_ret.
  destruct (put_rewrote sa1 s h (resetAllocInfo h) Hwf1 Hh1) as (_ & Hwf2 & Hh2 & Hne).
  assert (Hns : s ∉ sa_freeSlabs sa).
  { intros (k & E & Ek)%Hfree. rewrite Hh in E. injection E as <-. unfold kInvalidPoolId in Ek. lia. }
  split; [done|]. split; [|by split_and!]. split; [done| | |done].
  - simpl. apply list.NoDup_app. split; [done|]. split; [|apply NoDup_singleton]. intros y Hy ->%list_elem_of_singleton. done.
  - intros s'. simpl. rewrite elem_of_app, list_elem_of_singleton. destruct (decide (s' = s)) as [-> |Hn].
    + rewrite Hh2. split; [|by right]. intros _. by exists (resetAllocInfo h).
    + rewrite Hne by done. rewrite Hfree. change (hdr sa1 s') with (hdr sa s'). naive_solver.
Qed.

(** ** releaseSlab *)

Section release.
Context (sa : SlabAllocator) (p : MemoryPool) (Ls : Z -> list Z) (d s : Z) (HS : SInv sa) (HP : PoolInv sa p Ls [s] d).

Definition release_post (r : Res unit) (w : PS) : Prop :=
  r = inr tt /\ SInv (ps_sa w) /\ same_frame sa (ps_sa w) /\ others_same (mp_id p) sa (ps_sa w) /\
  mp_id (ps_mp w) = mp_id p /\ acSizes_ (ps_mp w) = acSizes_ p /\ maxSize_ (ps_mp w) = maxSize_ p /\
  length (ac_vec (ps_mp w)) = length (ac_vec p) /\
  (forall c s', s' ∈ default [] (releasing <$> aget (ac_vec p) c) -> s' ∈ default [] (releasing <$> aget (ac_vec (ps_mp w)) c)) /\
  PoolInv (ps_sa w) (ps_mp w) Ls [] d.

Lemma hole_header : exists h, of_class sa (mp_id p) kInvalidClassId s h /\ unclassed (mp_id p) h.
Proof using HP.
  destruct (proj1 (pv_free _ _ _ _ _ HP s)) as [h Hh]; [apply elem_of_app; right; by apply list_elem_of_singleton|].
  exists h. split; [done|]. by apply (pv_unclassed _ _ _ _ _ HP s).
Qed.

Lemma hole_not_free : s ∉ mp_freeSlabs p.
Proof using HP.
  intros Hin. pose proof (pv_nodup _ _ _ _ _ HP) as (_ & Hd & _)%list.NoDup_app. apply (Hd s Hin). by apply list_elem_of_singleton.
Qed.

Lemma releaseSlab_resize r : runs (releaseSlab kResize s r) (mkPS sa p) release_post.
Proof using HS HP.
  destruct hole_header as (h & Hof & Hup & Huc & _). pose proof Hof as (Hh & _). pose proof (pv_id _ _ _ _ _ HP) as Hid.
  unfold releaseSlab. apply runs_bindx, runs_pool_sa. eapply runs_mono; [apply (freeSlab_ok s h); [done|done|lia]|].
  intros r' sa1 (-> & HS1 & Hfr & Hnew & Hne). psteps. apply runs_ret. split_and!; try done; simpl.
  - intros s' k Hk Hi. destruct (decide (s' = s)) as [-> |Hn]; [|by rewrite Hne]. rewrite Hnew, Hh.
    split; intros [= <-]; done.
  - assert (Hcl : forall c s' k, of_class sa1 (mp_id p) c s' k <-> of_class sa (mp_id p) c s' k /\ s' <> s).
    { intros c s' k. unfold of_class. destruct (decide (s' = s)) as [-> |Hn]; [|rewrite Hne by done; naive_solver].
      rewrite Hnew. split; [|naive_solver]. intros ([= <-] & E & _). simpl in E. unfold kInvalidPoolId in E. lia. }
    pose proof HP as []. split; simpl; try done.
    + intros c ac Hac. destruct (pv_class0 c ac Hac) as (E1 & E2 & ? & HC). split_and!; try done.
      eapply CInv_frame; [exact HC|]. intros s' k. rewrite E1, E2, Hcl. split; [tauto|]. intros Hk. split; [done|].
      intros ->. destruct Hk as (E & _ & Ek). rewrite Hh in E. injection E as <-. apply aget_Some_range in Hac.
      rewrite Huc in Ek. unfold kInvalidClassId in Ek. lia.
    + rewrite app_nil_r. by apply list.NoDup_app in pv_nodup0 as (? & _ & _).
    + intros s'. rewrite app_nil_r. pose proof (pv_free0 s') as Hf. rewrite elem_of_app, list_elem_of_singleton in Hf. split.
      * intros Hin. destruct (proj1 Hf) as [k Hk]; [by left|]. exists k. apply Hcl. split; [done|]. intros ->. by apply hole_not_free.
      * intros (k & [Hk Hn]%Hcl). destruct (proj2 Hf) as [|]; [by exists k|done|done].
    + intros s' k [Hk _]%Hcl. by apply (pv_unclassed0 s').
    + intros s' k Hk Hp'. apply (pv_cover0 s' k); [|done].
      destruct (Hcl (h_classId k) s' k) as [H1 _]. by destruct H1 as [(? & _) _].
    + rewrite pv_slabs0, u64_sub_l. f_equal. unfold class_slabs. simpl. lia.
Qed.

Lemma releaseSlab_free : runs (releaseSlab kRebalance s kInvalidClassId) (mkPS sa p) release_post.
Proof using HS HP.
  unfold releaseSlab. apply runs_bindx. cbn [Z.eqb negb]. rewrite Z.eqb_refl. cbn [negb]. psteps. apply runs_ret. psteps. apply runs_ret.
  split_and!; try done. pose proof HP as []. split; simpl; try done.
  - by rewrite app_nil_r.
  - intros s'. by rewrite app_nil_r.
  - rewrite pv_slabs0, u64_sub_l. f_equal. unfold class_slabs. simpl. lia.
Qed.

Lemma releaseSlab_class c : 0 <= c < Z.of_nat (length (ac_vec p)) -> runs (releaseSlab kRebalance s c) (mkPS sa p) release_post.
Proof using HS HP.
  intros Hc. pose proof (si_wf _ HS) as Hwf. destruct hole_header as (h & Hof & Hup & Huc & _ & Hum). pose proof Hof as (Hh & _).
  destruct (pv_sizes _ _ _ _ _ HP) as (Hl & Hlen & _).
  destruct (pool_class sa p Ls [s] d HP c Hc) as (ac & Hac & Ec & Ep & _ & HC).
  unfold releaseSlab. apply runs_bindx. rewrite (proj2 (Z.eqb_neq c kInvalidClassId)) by (unfold kInvalidClassId; lia). cbn [negb].
  apply runs_bindx. unfold getAllocationClassFor. psteps.
  assert (s8 (Z.of_nat (length (ac_vec p))) = Z.of_nat (length (ac_vec p))) as ->.
  { unfold s8. rewrite Z.mod_small by lia. lia. }
  rewrite (proj2 (Z.ltb_lt c _)) by lia. apply runs_ret. apply runs_bind. eapply runs_on_class; [exact Hac|].
  assert (Hv : valid sa s) by (by apply (hdr_valid sa Hwf s h)). pose proof (valid_bounds sa Hwf s Hv).
  unfold addSlab. apply runs_xdcheck; [apply negb_true_iff, Z.eqb_neq; lia|].
  eapply runs_mono; [apply (addSlabLocked_ok sa ac None (Ls c) s h); try done; [congruence|]|].
  { rewrite Huc, Ec. unfold kInvalidClassId. lia. }
  intros [] [sa1 ac1] (E1 & Hsc & _ & _ & HC1). cbn [cs_sa cs_ac] in *. apply runs_ret. psteps. apply runs_ret.
  set (h' := set_class (ac_classId ac) (allocationSize_ ac) h) in *.
  assert (Hrw : rewrote sa sa1 s h') by (rewrite E1; by apply (put_rewrote sa s h)). pose proof (pv_id _ _ _ _ _ HP) as Hid.
  assert (HPI : PoolInv sa1 (set_alloc_size (currAllocSize_ p) (set_ac_vec (aput (ac_vec p) c ac1) p)) (upd Ls c (Ls c)) [] d).
  { apply (class_gain sa sa1 p Ls d s c h h' ac ac1); try done.
    rewrite Z.sub_diag, Z.mul_0_r, Z.add_0_r, (pv_bytes _ _ _ _ _ HP). symmetry. apply u64_u64. }
  assert (Hext : forall c', upd Ls c (Ls c) c' = Ls c').
  { intros c'. unfold upd. by destruct (Z.eqb_spec c c') as [-> |]. }
  split; [done|]. split; [|split; [|split; [|split; [|split; [|split; [|split; [|split]]]]]]]; try done; simpl.
  - apply (rewrote_SInv sa sa1 s h h'); try done; simpl; rewrite Hup; unfold kInvalidPoolId; lia.
  - rewrite E1. done.
  - eapply rewrote_others; [exact Hrw|exact Hh|done|done].
  - by rewrite length_aput.
  - intros c' s'. destruct (decide (c' = c)) as [-> |Hn]; [|by rewrite aget_aput_ne by (done || lia)].
    rewrite aget_aput_eq, Hac by done. simpl. intros Hr. eapply (releasing_keep sa sa1 ac ac1); try done.
    destruct Hrw as (_ & _ & _ & Hother). apply Hother. intros ->.
    destruct (proj1 (ci_own _ _ _ _ HC s) (releasing_slabs ac s Hr)) as [k (Hk & _ & Hkc)].
    rewrite Hh in Hk. injection Hk as <-. rewrite Huc, Ec in Hkc. unfold kInvalidClassId in Hkc. lia.
  - destruct HPI. split; try done.
    + intros c' ac' Hac'. rewrite <- (Hext c'). by apply pv_class0.
    + simpl in pv_bytes0 |- *. rewrite pv_bytes0. unfold live_bytes. f_equal. apply live_sum_ext. intros ac' _. apply Hext.
Qed.

(** Where a released slab may go. *)
Definition receiver_ok (mode : SlabReleaseMode) (receiver : Z) : Prop :=
  receiver = kInvalidClassId \/ mode = kRebalance /\ 0 <= receiver < Z.of_nat (length (ac_vec p)).

Lemma releaseSlab_ok mode receiver : receiver_ok mode receiver -> runs (releaseSlab mode s receiver) (mkPS sa p) release_post.
Proof using HS HP.
  intros Hr. destruct mode; [apply releaseSlab_resize|]. destruct Hr as [-> |[_ Hr]]; [apply releaseSlab_free|by apply releaseSlab_class].
Qed.

End release.

(** ** Starting, completing and aborting *)

(** Slabs that wait for their chunks in [p] do so in [p']. *)
Definition waiting_kept (p p' : MemoryPool) (but : Z -> Prop) : Prop := forall c s ac, aget (ac_vec p) c = Some ac ->
  s ∈ releasing ac -> ~ but s -> exists ac', aget (ac_vec p') c = Some ac' /\ s ∈ releasing ac'.

(** The context of a slab that waits for its active chunks. *)
Definition ctx_waits (p : MemoryPool) (ctx : SlabReleaseContext) : Prop :=
  isReleased ctx = false /\ ctx_pid ctx = mp_id p /\ receiver_ok p (ctx_mode ctx) (ctx_receiver ctx) /\
  exists ac, aget (ac_vec p) (ctx_victim ctx) = Some ac /\ ctx_slab ctx ∈ releasing ac.

Lemma class_for {B} sa p Ls hole d c (k : Z -> ST PS (Res B)) (Q : Res B -> PS -> Prop) : PoolInv sa p Ls hole d ->
  0 <= c < Z.of_nat (length (ac_vec p)) -> runs (k c) (mkPS sa p) Q -> runs (bindx (getAllocationClassFor c) k) (mkPS sa p) Q.
Proof.
  intros HP Hc HQ. destruct (pv_sizes _ _ _ _ _ HP) as (Hl & Hlen & _). apply runs_bindx. unfold getAllocationClassFor. psteps.
  assert (s8 (Z.of_nat (length (ac_vec p))) = Z.of_nat (length (ac_vec p))) as ->.
  { unfold s8. rewrite Z.mod_small by lia. lia. }
  rewrite (proj2 (Z.ltb_lt c _)) by lia. by apply runs_ret.
Qed.

(** What a call leaves alone in the pool and around it. *)
Definition keeps (sa : SlabAllocator) (p : MemoryPool) (w : PS) : Prop :=
  SInv (ps_sa w) /\ same_frame sa (ps_sa w) /\ others_same (mp_id p) sa (ps_sa w) /\ mp_id (ps_mp w) = mp_id p /\
  acSizes_ (ps_mp w) = acSizes_ p /\ maxSize_ (ps_mp w) = maxSize_ p /\ length (ac_vec (ps_mp w)) = length (ac_vec p).

Lemma keeps_trans sa p sa1 p1 w : keeps sa p (mkPS sa1 p1) -> keeps sa1 p1 w -> keeps sa p w.
Proof.
  intros (H1 & [F1 G1] & O1 & E1 & S1 & M1 & N1) (H2 & [F2 G2] & O2 & E2 & S2 & M2 & N2). simpl in *. unfold keeps, same_frame.
  rewrite E1 in O2. split_and!; try congruence; try done. by eapply others_same_trans.
Qed.

Lemma release_keeps sa p Ls d r w : release_post sa p Ls d r w -> keeps sa p w /\ waiting_kept p (ps_mp w) (fun _ => False) /\
  PoolInv (ps_sa w) (ps_mp w) Ls [] d.
Proof.
  intros (-> & ? & ? & ? & ? & ? & ? & El & Hw & ?). split_and!; [by split_and!| |done].
  intros c s ac Hac Hs _. specialize (Hw c s). rewrite Hac in Hw. simpl in Hw.
  destruct (aget (ac_vec (ps_mp w)) c) as [ac'|]; simpl in Hw; [|by specialize (Hw Hs); apply elem_of_nil in Hw].
  exists ac'. split; [done|]. by apply Hw.
Qed.

(** Live chunks of a class are not in slabs of another. *)
Lemma pool_live_not sa p Ls hole d cl s h : SInv sa -> PoolInv sa p Ls hole d -> of_class sa (mp_id p) cl s h ->
  forall c x, 0 <= c < Z.of_nat (length (ac_vec p)) -> c <> cl -> x ∈ Ls c -> getSlabForMemory x <> s.
Proof.
  intros HS HP (Hh & _ & Hcl) c x Hc Hn Hx. destruct (pool_class sa p Ls hole d HP c Hc) as (ac & _ & Ec & _ & _ & HC).
  apply (live_not_in sa ac None (Ls c) s h (si_wf _ HS) HC Hh); [congruence|done].
Qed.

Lemma released_nil r s p v r0 m : isReleased (setReceiver r (mkCtx s p v [] r0 m)) = true.
Proof. done. Qed.
Lemma released_active r s p v l r0 m : l <> [] -> isReleased (setReceiver r (mkCtx s p v l r0 m)) = false.
Proof. intros Hl. by apply bool_decide_eq_false. Qed.

Lemma mp_start_ok sa p Ls d rnd victim receiver mode hint : SInv sa -> PoolInv sa p Ls [] d ->
  (victim = kInvalidClassId \/ 0 <= victim < Z.of_nat (length (ac_vec p))) ->
  (receiver = kInvalidClassId \/ 0 <= receiver < Z.of_nat (length (ac_vec p))) ->
  runs (mp_startSlabRelease (fun _ => false) rnd victim receiver mode hint) (mkPS sa p) (fun r w =>
    keeps sa p w /\ waiting_kept p (ps_mp w) (fun _ => False) /\
    ((r = inl invalid_argument /\ w = mkPS sa p) \/
     exists ctx, r = inr ctx /\
       PoolInv (ps_sa w) (ps_mp w) Ls [] (d + (if victim =? kInvalidClassId then 1 else 0)) /\
       (exists h, hdr sa (ctx_slab ctx) = Some h /\ h_poolId h = mp_id p /\ h_classId h = victim /\ isMarkedForRelease h = false) /\
       (isReleased ctx = true /\ (forall c x, 0 <= c < Z.of_nat (length (ac_vec p)) -> x ∈ Ls c -> getSlabForMemory x <> ctx_slab ctx) \/
        ctx_waits (ps_mp w) ctx /\ ctx_victim ctx = victim /\
        (forall x, x ∈ activeAllocations_ ctx <-> x ∈ Ls victim /\ getSlabForMemory x = ctx_slab ctx)))).
Proof.
  intros HS HP Hvict Hrecv. pose proof (si_wf _ HS) as Hwf. pose proof (pv_id _ _ _ _ _ HP) as Hid.
  assert (Hk0 : keeps sa p (mkPS sa p)) by (by split_and!).
  assert (Hw0 : waiting_kept p p (fun _ => False)) by (intros c s ac Hac Hs _; by exists ac).
  unfold mp_startSlabRelease.
  destruct (negb (receiver =? kInvalidClassId) && negb (bool_decide (mode = kRebalance))) eqn:E1.
  { apply runs_ret. split; [done|]. split; [done|]. by left. }
  assert (Hrok : receiver_ok p mode receiver).
  { apply andb_false_iff in E1 as [E1|E1]; [left; apply negb_false_iff in E1; by apply Z.eqb_eq|].
    destruct Hrecv as [|Hr]; [by left|right]. apply negb_false_iff, bool_decide_eq_true in E1. done. }
  destruct ((victim =? kInvalidClassId) && negb (bool_decide (mode = kResize))) eqn:E2.
  { apply runs_ret. split; [done|]. split; [done|]. by left. }
  apply runs_bindx. destruct (Z.eqb_spec victim kInvalidClassId) as [-> |Hnv].
  - (* a free slab of the pool *)
    unfold releaseFromFreeSlabs. psteps. destruct (list.last (mp_freeSlabs p)) as [slab|] eqn:El.
    2: { apply runs_ret. split; [done|]. split; [done|]. by left. }
    apply last_Some in El as [fs Efs]. rewrite Efs, removelast_last. psteps. apply runs_ret.
    set (p1 := set_mp_free fs p). assert (HP1 : PoolInv sa p1 Ls [slab] (d + 1)).
    { pose proof HP as []. split; simpl; try done.
      - rewrite Efs, app_nil_r in pv_nodup0. done.
      - intros s. rewrite <- pv_free0, Efs, app_nil_r. done.
      - rewrite pv_slabs0. f_equal. unfold class_slabs. simpl. lia. }
    apply runs_bindx. rewrite released_nil. cbn [setReceiver ctx_slab ctx_mode].
    eapply runs_mono; [apply (releaseSlab_ok sa p1 Ls (d + 1) slab HS HP1 kResize receiver)|].
    { destruct Hrok as [|[-> _]]; [by left|]. cbn in E2. done. }
    intros r w Hpost. pose proof Hpost as (-> & _). destruct (release_keeps sa p1 Ls (d + 1) _ w Hpost) as (Hk & Hw & HPI). apply runs_ret.
    destruct (proj1 (pv_free _ _ _ _ _ HP slab)) as [h Hof]; [rewrite Efs; set_solver|].
    destruct (pv_unclassed _ _ _ _ _ HP slab h Hof) as (Hup & _ & _ & Hum).
    split; [done|]. split; [done|]. right. eexists. split; [reflexivity|]. split; [done|].
    split; [exists h; split; [apply Hof|]; split; [done|]; split; [apply Hof|done]|]. left. split; [done|]. simpl. intros c x Hc.
    apply (pool_live_not sa p Ls [] d kInvalidClassId slab h HS HP Hof c x Hc). unfold kInvalidClassId. lia.
  - (* a slab of a class *)
    destruct Hvict as [|Hvict]; [done|]. eapply class_for; [done|done|].
    destruct (pool_class sa p Ls [] d HP victim Hvict) as (ac & Hac & Ec & Ep & _ & HC).
    eapply runs_on_class; [exact Hac|]. eapply runs_mono; [apply (ac_start_ok sa ac (Ls victim) rnd mode hint Hwf); [lia|done]|].
    intros r [sa1 ac1] (Hsc & Hcase). cbn [cs_sa cs_ac] in *.
    destruct Hcase as [[-> [= -> ->]]|(s & h & h' & Hof & Hm & Hrw & HC1 & Hcase)].
    { rewrite (aput_same _ _ _ Hac), set_ac_vec_same. split; [done|]. split; [done|]. by left. }
    rewrite Ep, Ec in Hof. pose proof Hof as (Hh & Hhp & Hhc). set (p1 := set_ac_vec (aput (ac_vec p) victim ac1) p).
    assert (Hp' : h_poolId h' = mp_id p).
    { destruct Hcase as [(_ & (E & _) & _)|(active & _ & -> & _)]; simpl; congruence. }
    assert (Hk1 : keeps sa p (mkPS sa1 p1)).
    { unfold keeps. simpl. rewrite length_aput. split_and!; try done.
      - apply (rewrote_SInv sa sa1 s h h'); try done; rewrite ?Hhp, ?Hp'; unfold kInvalidPoolId; lia.
      - by eapply rewrote_frame.
      - by eapply rewrote_others. }
    assert (Hw1 : waiting_kept p p1 (fun _ => False)).
    { intros c s' ac' Hac' Hs' _. destruct (decide (c = victim)) as [-> |Hn].
      - rewrite Hac in Hac'. injection Hac' as <-. exists ac1. split; [by apply aget_aput_eq|].
        eapply (releasing_keep sa sa1 ac ac1); try done. destruct Hrw as (_ & _ & _ & Hother). apply Hother. intros ->.
        destruct (ci_hdr _ _ _ _ HC s h (releasing_slabs ac s Hs') Hh) as [_ Em]. rewrite bool_decide_eq_true_2 in Em by done. congruence.
      - exists ac'. split; [|done]. unfold p1. simpl. rewrite aget_aput_ne by (done || lia). done. }
    rewrite Ep, Ec in Hcase. destruct Hcase as [(-> & Hun & Hnone)|(active & -> & -> & Hact & Hwait & Hiff)].
    + apply runs_bindx. rewrite released_nil. cbn [setReceiver ctx_slab ctx_mode].
      assert (HP1 : PoolInv sa1 p1 Ls [s] d) by (by apply (class_lose sa sa1 p Ls d s victim h h' ac ac1)).
      eapply runs_mono; [apply (releaseSlab_ok sa1 p1 Ls d s (proj1 Hk1) HP1 mode receiver)|].
      { destruct Hrok as [|[? ?]]; [by left|right]. unfold p1. simpl. by rewrite length_aput. }
      intros r w Hpost. pose proof Hpost as (-> & _). destruct (release_keeps sa1 p1 Ls d _ w Hpost) as (Hk & Hw & HPI). apply runs_ret.
      split; [by eapply keeps_trans|]. split.
      { intros c s' ac' Hac' Hs' Hb. destruct (Hw1 c s' ac' Hac' Hs' Hb) as (ac2 & Hac2 & Hs2). by apply (Hw c s' ac2). }
      right. eexists. split; [reflexivity|]. rewrite Z.add_0_r. split; [done|]. split; [by exists h|]. left. split; [done|].
      simpl. intros c x Hc Hx. destruct (decide (c = victim)) as [-> |Hn]; [by apply Hnone|].
      by apply (pool_live_not sa p Ls [] d victim s h HS HP Hof c x Hc).
    + apply runs_bindx. rewrite released_active by done. apply runs_ret, runs_ret.
      split; [done|]. split; [done|]. right. eexists. split; [reflexivity|]. simpl.
      rewrite Z.add_0_r. split; [by apply (class_rewrite sa sa1 p Ls d s victim h (setMarkedForRelease true h) ac ac1)|]. split; [by exists h|]. right.
      split; [|done]. split; [simpl; by apply bool_decide_eq_false|]. split; [done|]. simpl. split.
      { destruct Hrok as [|[? ?]]; [by left|right]. unfold p1. simpl. by rewrite length_aput. }
      exists ac1. split; [by apply aget_aput_eq|done].
Qed.

(** A waiting context is completed: the call returns exactly when no chunk of
    the slab is live, and the slab goes where the context says. *)
Lemma mp_complete_ok sa p Ls d ctx : SInv sa -> PoolInv sa p Ls [] d -> ctx_waits p ctx ->
  runs (mp_completeSlabRelease ctx) (mkPS sa p) (fun r w =>
    keeps sa p w /\ waiting_kept p (ps_mp w) (fun s => s = ctx_slab ctx) /\ PoolInv (ps_sa w) (ps_mp w) Ls [] d /\
    (r = inr Waiting /\ w = mkPS sa p /\ (exists x, x ∈ Ls (ctx_victim ctx) /\ getSlabForMemory x = ctx_slab ctx) \/
     r = inr Completed /\ (forall x, x ∈ Ls (ctx_victim ctx) -> getSlabForMemory x <> ctx_slab ctx))).
Proof.
  intros HS HP (Hnr & Epid & Hrok & ac & Hac & Hwait). pose proof (si_wf _ HS) as Hwf. pose proof (pv_id _ _ _ _ _ HP) as Hid.
  pose proof (aget_Some_range _ _ _ Hac) as Hrange. destruct (pv_class _ _ _ _ _ HP _ ac Hac) as (Ec & Ep & _ & HC).
  unfold mp_completeSlabRelease. rewrite Hnr.
  destruct (negb (ctx_receiver ctx =? kInvalidClassId) && negb (bool_decide (ctx_mode ctx = kRebalance))) eqn:E1.
  { exfalso. apply andb_true_iff in E1 as [E1 E2]. apply negb_true_iff in E1, E2. apply Z.eqb_neq in E1.
    apply bool_decide_eq_false in E2. by destruct Hrok as [|[? _]]. }
  eapply class_for; [done|done|]. apply runs_bindx. eapply runs_on_class; [exact Hac|].
  set (s := ctx_slab ctx) in *. destruct (proj1 (ci_own _ _ _ _ HC s) (releasing_slabs ac s Hwait)) as [h Hof].
  eapply runs_mono; [apply (ac_complete_ok sa ac (Ls (ctx_victim ctx)) ctx h Hwf); [lia|done..]|].
  intros r [sa1 ac1] (Hsc & HC1 & Hcase). cbn [cs_sa cs_ac] in *. pose proof Hof as (Hh & Hhp & Hhc).
  destruct Hcase as [(-> & [= -> ->] & Hlive)|(-> & Esa & Hnone)].
  { rewrite (aput_same _ _ _ Hac), set_ac_vec_same. apply runs_ret. split; [by split_and!|].
    split; [intros c s' ac' Hac' Hs' _; by exists ac'|]. split; [done|]. by left. }
  set (h' := setMarkedForRelease false (set_class kInvalidClassId 0 h)) in *. fold s in Esa.
  assert (Hrw : rewrote sa sa1 s h') by (rewrite Esa; by apply (put_rewrote sa s h)). pose proof Hrw as (_ & Hwf1 & Hh1 & Hne).
  set (p1 := set_ac_vec (aput (ac_vec p) (ctx_victim ctx) ac1) p). rewrite Ep in Hhp. rewrite Ep, Ec in Hof.
  assert (Hun : unclassed (mp_id p) h') by (split_and!; try done; apply marked_unset).
  assert (HP1 : PoolInv sa1 p1 Ls [s] d) by (by apply (class_lose sa sa1 p Ls d s (ctx_victim ctx) h h' ac ac1)).
  assert (HS1 : SInv sa1). { apply (rewrote_SInv sa sa1 s h h'); try done; simpl; rewrite Hhp; unfold kInvalidPoolId; lia. }
  assert (Hk1 : keeps sa p (mkPS sa1 p1)).
  { unfold keeps. simpl. rewrite length_aput. split_and!; try done; [by eapply rewrote_frame|by eapply rewrote_others]. }
  psteps. apply runs_bind, runs_pool_sa. simpl ps_sa. eapply runs_eq; [by apply (read_ok sa1 Hwf1 s h')|].
  apply runs_xdcheck; [apply Z.eqb_eq; simpl; congruence|]. apply runs_xdcheck; [done|]. apply runs_xdcheck; [done|].
  apply runs_bindx. eapply runs_mono; [apply (releaseSlab_ok sa1 p1 Ls d s HS1 HP1)|].
  { destruct Hrok as [|[? ?]]; [by left|right]. unfold p1. simpl. by rewrite length_aput. }
  intros r w Hpost. pose proof Hpost as (-> & _). destruct (release_keeps sa1 p1 Ls d _ w Hpost) as (Hk & Hw & HPI). apply runs_ret.
  split; [by eapply keeps_trans|]. split.
  { intros c s' ac' Hac' Hs' Hn. assert (exists ac2, aget (ac_vec p1) c = Some ac2 /\ s' ∈ releasing ac2) as (ac2 & Hac2 & Hs2).
    - destruct (decide (c = ctx_victim ctx)) as [-> |Hn'].
      + rewrite Hac in Hac'. injection Hac' as <-. exists ac1. split; [by apply aget_aput_eq|].
        eapply (releasing_keep sa sa1 ac ac1); try done. by apply Hne.
      + exists ac'. split; [|done]. unfold p1. simpl. rewrite aget_aput_ne by (done || lia). done.
    - destruct (Hw c s' ac2 Hac2 Hs2) as (ac3 & ? & ?); [by intros []|by exists ac3]. }
  split; [done|]. by right.
Qed.

(** A waiting context is aborted: the slab is back in its class and its free
    chunks are back in the free list. *)
Lemma mp_abort_ok sa p Ls d ctx : SInv sa -> PoolInv sa p Ls [] d -> ctx_waits p ctx ->
  runs (mp_abortSlabRelease ctx) (mkPS sa p) (fun r w => r = inr tt /\
    keeps sa p w /\ waiting_kept p (ps_mp w) (fun s => s = ctx_slab ctx) /\ PoolInv (ps_sa w) (ps_mp w) Ls [] d).
Proof.
  intros HS HP (Hnr & Epid & Hrok & ac & Hac & Hwait). pose proof (si_wf _ HS) as Hwf. pose proof (pv_id _ _ _ _ _ HP) as Hid.
  pose proof (aget_Some_range _ _ _ Hac) as Hrange. destruct (pv_class _ _ _ _ _ HP _ ac Hac) as (Ec & Ep & _ & HC).
  unfold mp_abortSlabRelease. eapply class_for; [done|done|]. apply runs_bindx. eapply runs_on_class; [exact Hac|].
  set (s := ctx_slab ctx) in *. destruct (proj1 (ci_own _ _ _ _ HC s) (releasing_slabs ac s Hwait)) as [h Hof].
  eapply runs_mono; [apply (ac_abort_ok sa ac (Ls (ctx_victim ctx)) ctx h Hwf); [lia|done..]|].
  intros r [sa1 ac1] (-> & Hsc & HC1 & _ & Esa). cbn [cs_sa cs_ac] in *. pose proof Hof as (Hh & Hhp & Hhc). psteps. apply runs_ret.
  set (h' := setMarkedForRelease false (set_class (ac_classId ac) (allocationSize_ ac) h)) in *. fold s in Esa.
  assert (Hrw : rewrote sa sa1 s h') by (rewrite Esa; by apply (put_rewrote sa s h)). pose proof Hrw as (_ & Hwf1 & Hh1 & Hne).
  rewrite Ep in Hhp. rewrite Ep, Ec in Hof. split; [done|]. split; [|split].
  - unfold keeps. simpl. rewrite length_aput. split_and!; try done; [|by eapply rewrote_frame|by eapply rewrote_others].
    apply (rewrote_SInv sa sa1 s h h'); try done; simpl; rewrite Hhp; unfold kInvalidPoolId; lia.
  - intros c s' ac' Hac' Hs' Hn. simpl. destruct (decide (c = ctx_victim ctx)) as [-> |Hn'].
    + rewrite Hac in Hac'. injection Hac' as <-. exists ac1. split; [by apply aget_aput_eq|].
      eapply (releasing_keep sa sa1 ac ac1); try done. by apply Hne.
    + exists ac'. split; [|done]. rewrite aget_aput_ne by (done || lia). done.
  - assert (HP1 : PoolInv sa1 (set_ac_vec (aput (ac_vec p) (ctx_victim ctx) ac1) p) Ls [] d)
      by (by apply (class_rewrite sa sa1 p Ls d s (ctx_victim ctx) h h' ac ac1)).
    destruct HP1. by split.
Qed.

End SlabPoolRelease.
