(* ===== verification/SlabSys.v ===== *)
(** * SlabSys: the memory allocator and its clients

    The invariant of the memory allocator relates it to the allocations and
    the release contexts its clients hold.  Every call keeps it. *)

From Stdlib Require Import ZArith Lia.
From stdpp Require Import base list gmap strings numbers.
From S2P Require Import Prelude Types Slab SlabClass SlabPool SlabMemory SlabInv SlabOps SlabRelease SlabStart SlabPoolInv SlabPoolOps SlabPoolRelease.
Import Types Slab SlabClass SlabPool SlabMemory SlabFacts SlabInv SlabOps SlabStart SlabPoolInv SlabPoolOps SlabPoolRelease.

Open Scope moon_scope.
Open Scope Z_scope.

Module SlabSys.

(** A live allocation: its pool, its class, its address. *)
Record Live : Type := mkLive { lv_pool : Z; lv_class : Z; lv_addr : Z }.
#[export] Instance live_eq : EqDecision Live.
Proof. solve_decision. Defined.

(** The live chunks of a class. *)
Definition chunks_of (live : list Live) (p c : Z) : list Z :=
  lv_addr <$> filter (fun x => lv_pool x = p /\ lv_class x = c) live.

Definition max_total (ps : list MemoryPool) : Z := foldr (fun p n => maxSize_ p + n) 0 ps.

Record MInv (m : MemoryAllocator) (live : list Live) (ctxs : list SlabReleaseContext) : Prop := mkMInv {
  mi_sa : SInv (slabAllocator_ m);
  mi_pools : forall id p, aget (pools_ m) id = Some p -> mp_id p = id /\ 0 <= maxSize_ p /\
    exists d, PoolInv (slabAllocator_ m) p (chunks_of live id) [] d;
  mi_cover : forall s h, hdr (slabAllocator_ m) s = Some h -> h_poolId h = kInvalidPoolId \/ 0 <= h_poolId h < nextPoolId_ m;
  mi_count : nextPoolId_ m <= 64;
  mi_names : forall name id, poolsByName_ m !! name = Some id -> 0 <= id < nextPoolId_ m;
  mi_total : max_total (pools_ m) <= slabMemorySize_ (slabAllocator_ m);
  mi_live : forall x, x ∈ live -> exists p, aget (pools_ m) (lv_pool x) = Some p /\ 0 <= lv_class x < Z.of_nat (length (ac_vec p));
  mi_ctxs : forall ctx, ctx ∈ ctxs -> exists p, aget (pools_ m) (ctx_pid ctx) = Some p /\ ctx_waits p ctx;
  mi_ctx_nodup : NoDup (ctx_slab <$> ctxs);
}.

(** ** Live chunks by class *)

Lemma chunks_of_cons live x p c : chunks_of (x :: live) p c =
  if decide (lv_pool x = p /\ lv_class x = c) then lv_addr x :: chunks_of live p c else chunks_of live p c.
Proof. unfold chunks_of. rewrite filter_cons. by case_decide. Qed.

Lemma chunks_of_upd live x p c : p = lv_pool x ->
  chunks_of (x :: live) p c = upd (chunks_of live p) (lv_class x) (lv_addr x :: chunks_of live p (lv_class x)) c.
Proof.
  intros ->. rewrite chunks_of_cons. unfold upd. destruct (Z.eqb_spec (lv_class x) c) as [<- |Hn].
  - by rewrite decide_True.
  - rewrite decide_False by naive_solver. done.
Qed.

Lemma chunks_of_other live x p c : p <> lv_pool x -> chunks_of (x :: live) p c = chunks_of live p c.
Proof. intros Hn. rewrite chunks_of_cons, decide_False by naive_solver. done. Qed.

Lemma chunks_of_perm live live' p c : live ≡ₚ live' -> chunks_of live p c ≡ₚ chunks_of live' p c.
Proof. intros HP. unfold chunks_of. by rewrite HP. Qed.

(** The invariant of a pool depends on the live chunks up to order. *)
Lemma PoolInv_live sa p Ls Ls' hole d : PoolInv sa p Ls hole d -> (forall c, Ls c ≡ₚ Ls' c) -> PoolInv sa p Ls' hole d.
Proof.
  intros [] HP. split; try done.
  - intros c ac Hac. destruct (pv_class0 c ac Hac) as (? & ? & ? & HC). split_and!; try done. eapply CInv_perm; [apply HP|done].
  - rewrite pv_bytes0. unfold live_bytes. f_equal. unfold live_sum. clear -HP. induction (ac_vec p) as [|ac l IH]; simpl; [done|].
    rewrite IH. by rewrite (Permutation_length (HP (ac_classId ac))).
Qed.

Lemma PoolInv_max sa p Ls hole d n : PoolInv sa p Ls hole d -> PoolInv sa (set_max n p) Ls hole d.
Proof. intros []. by split. Qed.

(** ** Calls that go to a pool *)

Lemma runs_on_pool {A} id (c : ST PS (Res A)) m p (Q : Res A -> MemoryAllocator -> Prop) : aget (pools_ m) id = Some p ->
  runs c (mkPS (slabAllocator_ m) p) (fun r w => Q r (set_pools (aput (pools_ m) id (ps_mp w)) (set_sa (ps_sa w) m))) ->
  runs (on_pool id c) m Q.
Proof.
  intros Hp HQ. pose proof (aget_Some_range _ _ _ Hp). unfold runs, on_pool, getPoolById, nextPoolId_ in *.
  rewrite (proj2 (Z.ltb_lt id _)), (proj2 (Z.leb_le 0 id)) by lia. simpl. rewrite Hp. destruct (c _) as [[r w]|]; auto.
Qed.

(** A call with an invalid pool id throws and changes nothing. *)
Lemma runs_no_pool {A} id (c : ST PS (Res A)) m (Q : Res A -> MemoryAllocator -> Prop) : aget (pools_ m) id = None ->
  Q (inl invalid_argument) m -> runs (on_pool id c) m Q.
Proof.
  intros Hp HQ. unfold runs, on_pool, getPoolById, nextPoolId_.
  destruct (id <? Z.of_nat (length (pools_ m))) eqn:E1; [|done]. destruct (0 <=? id) eqn:E2; [|done]. zbool.
  destruct (aget_range (pools_ m) id) as [p Hp']; [lia|congruence].
Qed.

Lemma max_total_aput l i p p' : aget l i = Some p -> max_total (aput l i p') = max_total l + maxSize_ p' - maxSize_ p.
Proof.
  unfold aget, aput, max_total. destruct (0 <=? i); [|done]. generalize (Z.to_nat i). clear i.
  induction l as [|a l IH]; intros [|n]; simpl; intros H; simplify_eq; [lia|]. rewrite (IH n H). lia.
Qed.

(** A pool is replaced after a call to it. *)
Lemma MInv_pool m live ctxs id p w live' ctxs' d : MInv m live ctxs -> aget (pools_ m) id = Some p ->
  keeps (slabAllocator_ m) p w -> PoolInv (ps_sa w) (ps_mp w) (chunks_of live' id) [] d ->
  (forall id' c, id' <> id -> chunks_of live' id' c = chunks_of live id' c) ->
  (forall x, x ∈ live' -> exists q, aget (aput (pools_ m) id (ps_mp w)) (lv_pool x) = Some q /\ 0 <= lv_class x < Z.of_nat (length (ac_vec q))) ->
  (forall ctx, ctx ∈ ctxs' -> ctx ∈ ctxs /\ (ctx_pid ctx = id -> ctx_waits (ps_mp w) ctx) \/ ctx_pid ctx = id /\ ctx_waits (ps_mp w) ctx) ->
  NoDup (ctx_slab <$> ctxs') ->
  MInv (set_pools (aput (pools_ m) id (ps_mp w)) (set_sa (ps_sa w) m)) live' ctxs'.
Proof.
  intros HM Hp (HS & [Hf1 Hf2] & Hos & Eid & Esz & Emx & Elen) HP Hlv Hlive Hctx HND. pose proof HM as [].
  pose proof (aget_Some_range _ _ _ Hp) as Hr. destruct (mi_pools0 id p Hp) as (Epid & Hmx & _).
  assert (En : forall sa ps, nextPoolId_ (set_pools (aput (pools_ m) id ps) (set_sa sa m)) = nextPoolId_ m).
  { intros sa ps. unfold nextPoolId_. simpl. by rewrite length_aput. }
  split; simpl; rewrite ?En; try done.
  - intros id' q Hq. destruct (decide (id' = id)) as [-> |Hn].
    + rewrite aget_aput_eq in Hq by lia. injection Hq as <-. split; [congruence|]. split; [lia|]. by exists d.
    + rewrite aget_aput_ne in Hq by (done || lia). destruct (mi_pools0 id' q Hq) as (Eq & Hmq & d' & HPq).
      split; [done|]. split; [done|]. exists d'.
      apply (PoolInv_live _ _ (chunks_of live id')); [|intros c; by rewrite (Hlv id' c Hn)]. eapply PoolInv_frame; [exact HPq|].
      intros s h Hh. apply Hos; rewrite Hh; [congruence|]. pose proof (aget_Some_range _ _ _ Hq). unfold kInvalidPoolId. lia.
  - intros s h Hh. destruct (decide (h_poolId h = kInvalidPoolId)); [by left|]. right.
    destruct (decide (h_poolId h = mp_id p)) as [E|Hn]; [rewrite E, Epid; unfold nextPoolId_; lia|].
    destruct (mi_cover0 s h) as [|]; [by apply Hos|done|done].
  - rewrite (max_total_aput _ _ p) by done. rewrite Hf2, Emx. lia.
  - intros ctx Hc. destruct (Hctx ctx Hc) as [[Hold Hw]|[E Hw]].
    + destruct (mi_ctxs0 ctx Hold) as (q & Hq & Hwq). destruct (decide (ctx_pid ctx = id)) as [E|Hn].
      * exists (ps_mp w). rewrite E. split; [by apply aget_aput_eq|by apply Hw].
      * exists q. split; [by rewrite aget_aput_ne by (done || lia)|done].
    + exists (ps_mp w). rewrite E. split; [by apply aget_aput_eq|done].
Qed.

(** A context keeps waiting while its slab does. *)
Lemma ctx_waits_kept p p' but ctx : waiting_kept p p' but -> mp_id p' = mp_id p -> length (ac_vec p') = length (ac_vec p) ->
  ctx_waits p ctx -> ~ but (ctx_slab ctx) -> ctx_waits p' ctx.
Proof.
  intros Hw Eid Elen (H1 & H2 & H3 & ac & Hac & Hs) Hb. split; [done|]. split; [congruence|]. split.
  - destruct H3 as [|[? ?]]; [by left|right]. by rewrite Elen.
  - by apply (Hw _ _ ac).
Qed.

(** Slabs of classes whose headers stay keep waiting. *)
Lemma classed_waiting sa p Ls d sa' p' Ls' d' : PoolInv sa p Ls [] d -> PoolInv sa' p' Ls' [] d' ->
  classed_kept (mp_id p) sa sa' -> mp_id p' = mp_id p -> acSizes_ p' = acSizes_ p ->
  length (ac_vec p') = length (ac_vec p) /\ waiting_kept p p' (fun _ => False).
Proof.
  intros HP HP' Hck Eid Esz. destruct (pv_sizes _ _ _ _ _ HP) as (_ & El & _). destruct (pv_sizes _ _ _ _ _ HP') as (_ & El' & _).
  assert (Elen : length (ac_vec p') = length (ac_vec p)) by congruence. split; [done|]. intros c s ac Hac Hs _.
  pose proof (aget_Some_range _ _ _ Hac) as Hr. destruct (pv_class _ _ _ _ _ HP c ac Hac) as (Ec & Ep & Es & HC).
  destruct (pool_class _ _ _ _ _ HP' c) as (ac' & Hac' & Ec' & Ep' & Es' & HC'); [lia|]. exists ac'. split; [done|].
  destruct (proj1 (ci_own _ _ _ _ HC s) (releasing_slabs ac s Hs)) as [h (Hh & Hhp & Hhc)].
  eapply (releasing_keep sa sa' ac ac'); [exact HC|exact HC'| | |done]; [split_and!; congruence|].
  rewrite Hh. apply (Hck s h Hh); [congruence|]. rewrite Hhc, Ec. unfold kInvalidClassId. lia.
Qed.

(** What calls never change. *)
Definition shape (m : MemoryAllocator) :=
  (config_ m, poolsByName_ m, slabMemoryStart_ (slabAllocator_ m), slabMemorySize_ (slabAllocator_ m),
   (fun p => (acSizes_ p, maxSize_ p)) <$> pools_ m).

Lemma shape_pool m id p w : aget (pools_ m) id = Some p -> keeps (slabAllocator_ m) p w ->
  shape (set_pools (aput (pools_ m) id (ps_mp w)) (set_sa (ps_sa w) m)) = shape m.
Proof.
  intros Hp (_ & [Hf1 Hf2] & _ & _ & Esz & Emx & _). unfold shape. simpl. rewrite Hf1, Hf2. f_equal.
  pose proof (aget_Some_range _ _ _ Hp). unfold aget in Hp. rewrite (proj2 (Z.leb_le 0 id)) in Hp by lia.
  unfold aput. rewrite list_fmap_insert, list_insert_id; [done|]. rewrite list_lookup_fmap, Hp. simpl. by rewrite Esz, Emx.
Qed.

Lemma shape_get m m' id p : shape m' = shape m -> aget (pools_ m) id = Some p ->
  exists p', aget (pools_ m') id = Some p' /\ acSizes_ p' = acSizes_ p /\ maxSize_ p' = maxSize_ p.
Proof.
  intros [= _ _ _ _ E] Hp. unfold aget in *. destruct (0 <=? id); [|done].
  apply (f_equal (fun l => l !! Z.to_nat id)) in E. rewrite !list_lookup_fmap, Hp in E.
  destruct (pools_ m' !! Z.to_nat id) as [p'|]; [|done]. simpl in E. injection E as E1 E2. by exists p'.
Qed.

(** A call to pool [id] that keeps its invariant keeps that of the memory
    allocator; [but] are the slabs whose release ends. *)
Lemma MInv_call m live ctxs id p w live' ctxs' d but : MInv m live ctxs -> aget (pools_ m) id = Some p ->
  keeps (slabAllocator_ m) p w -> waiting_kept p (ps_mp w) but -> PoolInv (ps_sa w) (ps_mp w) (chunks_of live' id) [] d ->
  (forall id' c, id' <> id -> chunks_of live' id' c = chunks_of live id' c) ->
  (forall x, x ∈ live' -> x ∈ live \/ lv_pool x = id /\ 0 <= lv_class x < Z.of_nat (length (ac_vec p))) ->
  (forall ctx, ctx ∈ ctxs' -> ctx ∈ ctxs /\ ~ but (ctx_slab ctx) \/ ctx_pid ctx = id /\ ctx_waits (ps_mp w) ctx) ->
  NoDup (ctx_slab <$> ctxs') ->
  let m' := set_pools (aput (pools_ m) id (ps_mp w)) (set_sa (ps_sa w) m) in shape m' = shape m /\ MInv m' live' ctxs'.
Proof.
  intros HM Hp Hk Hw HP Hlv Hin Hctx HND m'. split; [by eapply shape_pool|]. pose proof (aget_Some_range _ _ _ Hp) as Hr.
  pose proof Hk as (_ & _ & _ & Eid & _ & _ & El). eapply MInv_pool; try done.
  - intros x Hx. assert (Hcls : 0 <= lv_class x < Z.of_nat (length (ac_vec p)) -> lv_pool x = id ->
      exists q, aget (aput (pools_ m) id (ps_mp w)) (lv_pool x) = Some q /\ 0 <= lv_class x < Z.of_nat (length (ac_vec q))).
    { intros H1 H2. exists (ps_mp w). rewrite H2, El. split; [by apply aget_aput_eq|done]. }
    destruct (Hin x Hx) as [Hold|[E Hc]]; [|by apply Hcls]. destruct (mi_live _ _ _ HM x Hold) as (q & Hq & Hc).
    destruct (decide (lv_pool x = id)) as [E|Hn]; [apply Hcls; congruence|]. exists q.
    split; [by rewrite aget_aput_ne by (done || lia)|done].
  - intros ctx Hc. destruct (Hctx ctx Hc) as [[Hold Hb]|]; [|by right]. left. split; [done|]. intros E.
    destruct (mi_ctxs _ _ _ HM ctx Hold) as (q & Hq & Hwq). assert (q = p) as -> by congruence.
    by apply (ctx_waits_kept p _ but).
Qed.

(** ** allocate *)

Definition ma_alloc_post (m : MemoryAllocator) (live : list Live) (ctxs : list SlabReleaseContext) (id size : Z)
    (r : Res Z) (m' : MemoryAllocator) : Prop :=
  shape m' = shape m /\
  ((r = inl invalid_argument /\ MInv m' live ctxs /\
     (forall p, aget (pools_ m) id = Some p -> size = 0 \/ (forall x, x ∈ acSizes_ p -> x < size))) \/
   exists p ac, let c := lower_bound (acSizes_ p) size in
     aget (pools_ m) id = Some p /\ aget (ac_vec p) c = Some ac /\ 0 < size <= allocationSize_ ac /\
     (r = inr 0 /\ exhausted ac /\ no_slab (slabAllocator_ m) p /\ MInv m' live ctxs \/
      exists x, r = inr x /\ x <> 0 /\ ~ (exhausted ac /\ no_slab (slabAllocator_ m) p) /\
        MInv m' (mkLive id c x :: live) ctxs)).

Lemma ma_allocate_ok m live ctxs id size : MInv m live ctxs -> 0 <= size ->
  runs (ma_allocate id size) m (ma_alloc_post m live ctxs id size).
Proof.
  intros HM Hsz. unfold ma_allocate. destruct (aget (pools_ m) id) as [p|] eqn:Hp.
  2: { apply runs_no_pool; [done|]. split; [done|]. left. split; [done|]. split; [done|]. intros p Hp'. congruence. }
  destruct (mi_pools _ _ _ HM id p Hp) as (Epid & Hmx & d & HP). eapply runs_on_pool; [exact Hp|].
  eapply runs_mono; [apply (mp_allocate_ok _ p (chunks_of live id) d); [apply (mi_sa _ _ _ HM)|done|done]|].
  intros r w (HS & Hfr & Hos & Hck & Eid & Esz & Emx & Hcase).
  assert (Hgo : forall live', PoolInv (ps_sa w) (ps_mp w) (chunks_of live' id) [] d ->
    (forall id' c, id' <> id -> chunks_of live' id' c = chunks_of live id' c) ->
    (forall x, x ∈ live' -> x ∈ live \/ lv_pool x = id /\ 0 <= lv_class x < Z.of_nat (length (ac_vec p))) ->
    shape (set_pools (aput (pools_ m) id (ps_mp w)) (set_sa (ps_sa w) m)) = shape m /\
    MInv (set_pools (aput (pools_ m) id (ps_mp w)) (set_sa (ps_sa w) m)) live' ctxs).
  { intros live' HP' Hlv Hin. destruct (classed_waiting _ _ _ _ _ _ _ _ HP HP' Hck Eid Esz) as [El Hw].
    eapply (MInv_call m live ctxs id p w live' ctxs d (fun _ => False)); try done; [|by apply HM]. intros ctx Hc. left. split; [done|by intros []]. }
  destruct Hcase as [(-> & Hbad & HP')|(ac & Hac & Hle & Hcase)].
  - destruct (Hgo live HP') as [Hsh HM']; [done|by left|]. split; [done|]. left. split; [done|]. split; [done|].
    intros p' Hp'. rewrite Hp in Hp'. by injection Hp' as <-.
  - set (c := lower_bound (acSizes_ p) size) in *. pose proof (aget_Some_range _ _ _ Hac) as Hc.
    destruct Hcase as [(-> & Hex & Hno & HP')|(x & -> & Hx & Hyes & HP')].
    + destruct (Hgo live HP') as [Hsh HM']; [done|by left|]. split; [done|]. right. exists p, ac. cbv zeta. fold c.
      split; [done|]. split; [done|]. split; [done|]. by left.
    + destruct (Hgo (mkLive id c x :: live)) as [Hsh HM'].
      * apply (PoolInv_live _ _ _ _ _ _ HP'). intros c'. by rewrite (chunks_of_upd live (mkLive id c x) id).
      * intros id' c' Hn. by apply chunks_of_other.
      * intros y [-> |Hy]%elem_of_cons; [by right|by left].
      * split; [done|]. right. exists p, ac. cbv zeta. fold c. split; [done|]. split; [done|]. split; [done|]. right. by exists x.
Qed.

(** ** free *)

(** The slab of a live allocation is headed by its pool and its class. *)
Lemma live_header m live ctxs x : MInv m live ctxs -> x ∈ live -> exists p ac h,
  aget (pools_ m) (lv_pool x) = Some p /\ mp_id p = lv_pool x /\ aget (ac_vec p) (lv_class x) = Some ac /\ ac_classId ac = lv_class x /\
  CInv (slabAllocator_ m) ac None (chunks_of live (lv_pool x) (lv_class x)) /\
  lv_addr x ∈ chunks_of live (lv_pool x) (lv_class x) /\
  hdr (slabAllocator_ m) (getSlabForMemory (lv_addr x)) = Some h /\ h_poolId h = lv_pool x /\ h_classId h = lv_class x.
Proof.
  intros HM Hx. destruct (mi_live _ _ _ HM x Hx) as (p & Hp & Hc). destruct (mi_pools _ _ _ HM _ p Hp) as (Epid & _ & d & HP).
  destruct (pool_class _ _ _ _ _ HP _ Hc) as (ac & Hac & Ec & Ep & _ & HC).
  assert (Hin : lv_addr x ∈ chunks_of live (lv_pool x) (lv_class x)).
  { unfold chunks_of. apply list_elem_of_fmap. exists x. split; [done|]. by apply list_elem_of_filter. }
  destruct (live_where _ ac None _ (lv_addr x) (si_wf _ (mi_sa _ _ _ HM)) HC Hin) as (s & h & <- & _ & (Hh & Ehp & Ehc) & _).
  exists p, ac, h. split_and!; congruence.
Qed.

Lemma ma_free_ok m live ctxs x : MInv m (x :: live) ctxs ->
  runs (ma_free (lv_addr x)) m (fun r m' => r = inr tt /\ shape m' = shape m /\ MInv m' live ctxs).
Proof.
  intros HM. destruct (live_header m _ ctxs x HM ltac:(left)) as (p & ac & h & Hp & Epid & Hac & _ & HC & Hin & Hh & Ehp & Ehc).
  pose proof (si_wf _ (mi_sa _ _ _ HM)) as Hwf. pose proof (hdr_valid _ Hwf _ h Hh) as Hv.
  pose proof (aget_Some_range _ _ _ Hp) as Hr. unfold ma_free. apply runs_bindx. unfold runs, getMemoryPool.
  destruct (getSlabHeader_hdr _ Hwf _ h Hh) as [E1 E2]. rewrite (getSlabHeader_mem_eq _ Hwf), E1, E2, Ehp.
  unfold getPoolById, nextPoolId_. rewrite (proj2 (Z.ltb_lt _ _)), (proj2 (Z.leb_le 0 _)) by lia. cbn [andb].
  destruct (mi_pools _ _ _ HM _ p Hp) as (_ & _ & d & HP). eapply runs_on_pool; [exact Hp|].
  assert (HP1 : PoolInv (slabAllocator_ m) p
    (upd (chunks_of live (lv_pool x)) (lv_class x) (lv_addr x :: chunks_of live (lv_pool x) (lv_class x))) [] d).
  { apply (PoolInv_live _ _ _ _ _ _ HP). intros c. by rewrite (chunks_of_upd live x (lv_pool x)). }
  eapply runs_mono; [apply (mp_free_ok _ p (chunks_of live (lv_pool x)) d (lv_class x) ac (lv_addr x)); [apply (mi_sa _ _ _ HM)|done|done]|].
  intros r [sa1 p1] (-> & E & Eid & Esz & Emx & HP2). simpl in E. subst sa1. cbn [ps_sa ps_mp] in *. split; [done|].
  destruct (classed_waiting _ _ _ _ _ _ _ _ HP HP2 ltac:(done) Eid Esz) as [El Hw].
  apply (MInv_call m (x :: live) ctxs (lv_pool x) p (mkPS (slabAllocator_ m) p1) live ctxs d (fun _ => False)); try done.
  - split_and!; try done. apply (mi_sa _ _ _ HM).
  - intros id' c Hn. by rewrite chunks_of_other.
  - intros y Hy. left. by right.
  - intros ctx Hc. left. split; [done|by intros []].
  - by apply HM.
Qed.

(** ** Slab release *)

(** The slab of a context that waits is marked in its header. *)
Lemma ctx_marked m live ctxs ctx : MInv m live ctxs -> ctx ∈ ctxs -> exists p h,
  aget (pools_ m) (ctx_pid ctx) = Some p /\ ctx_waits p ctx /\
  hdr (slabAllocator_ m) (ctx_slab ctx) = Some h /\ isMarkedForRelease h = true.
Proof.
  intros HM Hc. destruct (mi_ctxs _ _ _ HM ctx Hc) as (p & Hp & Hw). pose proof Hw as (_ & _ & _ & ac & Hac & Hs).
  destruct (mi_pools _ _ _ HM _ p Hp) as (_ & _ & d & HP). destruct (pv_class _ _ _ _ _ HP _ ac Hac) as (_ & _ & _ & HC).
  pose proof (releasing_slabs ac _ Hs) as Hs'. destruct (proj1 (ci_own _ _ _ _ HC _) Hs') as [h [Hh _]]. exists p, h.
  destruct (ci_hdr _ _ _ _ HC _ h Hs' Hh) as [_ Em]. rewrite bool_decide_eq_true_2 in Em by done. done.
Qed.

Definition class_arg (m : MemoryAllocator) (id c : Z) : Prop :=
  c = kInvalidClassId \/ forall p, aget (pools_ m) id = Some p -> 0 <= c < Z.of_nat (length (ac_vec p)).

Lemma ma_start_ok m live ctxs rnd id victim receiver mode hint : MInv m live ctxs ->
  class_arg m id victim -> class_arg m id receiver ->
  runs (ma_startSlabRelease (fun _ => false) rnd id victim receiver mode hint) m (fun r m' => shape m' = shape m /\
    (r = inl invalid_argument /\ MInv m' live ctxs \/
     exists ctx, r = inr ctx /\
       (isReleased ctx = true /\ MInv m' live ctxs /\ (forall x, x ∈ live -> getSlabForMemory (lv_addr x) <> ctx_slab ctx) \/
        isReleased ctx = false /\ MInv m' live (ctx :: ctxs) /\
        (forall a, a ∈ activeAllocations_ ctx <-> exists x, x ∈ live /\ lv_addr x = a /\ getSlabForMemory a = ctx_slab ctx)))).
Proof.
  intros HM Hv Hrc. unfold ma_startSlabRelease. destruct (aget (pools_ m) id) as [p|] eqn:Hp.
  2: { apply runs_no_pool; [done|]. split; [done|]. by left. }
  destruct (mi_pools _ _ _ HM id p Hp) as (Epid & Hmx & d & HP). eapply runs_on_pool; [exact Hp|].
  eapply runs_mono; [apply (mp_start_ok _ p (chunks_of live id) d); [apply (mi_sa _ _ _ HM)|done|..]|].
  { destruct Hv as [|Hv]; [by left|right; by apply Hv]. } { destruct Hrc as [|Hrc]; [by left|right; by apply Hrc]. }
  intros r w (Hk & Hw & [(-> & ->)|(ctx & -> & HP' & (h & Hh & Hhp & Hhc & Hum) & Hcase)]).
  { cbn [ps_sa ps_mp]. rewrite (aput_same _ _ _ Hp). assert (set_pools (pools_ m) (set_sa (slabAllocator_ m) m) = m) as -> by (by destruct m).
    split; [done|]. by left. }
  assert (Hsame : forall x a, x ∈ live -> lv_addr x = a -> getSlabForMemory a = ctx_slab ctx -> lv_pool x = id /\
    (0 <= lv_class x < Z.of_nat (length (ac_vec p))) /\ h_classId h = lv_class x).
  { intros x a Hx <- Hs. destruct (live_header m live ctxs x HM Hx) as (q & ac & k & Hq & Eq & Hac & _ & _ & _ & Hk' & Ekp & Ekc).
    rewrite Hs, Hh in Hk'. injection Hk' as <-. assert (E : lv_pool x = id) by congruence. split; [done|].
    rewrite E, Hp in Hq. injection Hq as <-. pose proof (aget_Some_range _ _ _ Hac). done. }
  assert (Hgo : forall ctxs', NoDup (ctx_slab <$> ctxs') ->
    (forall c, c ∈ ctxs' -> c ∈ ctxs \/ ctx_pid c = id /\ ctx_waits (ps_mp w) c) ->
    shape (set_pools (aput (pools_ m) id (ps_mp w)) (set_sa (ps_sa w) m)) = shape m /\
    MInv (set_pools (aput (pools_ m) id (ps_mp w)) (set_sa (ps_sa w) m)) live ctxs').
  { intros ctxs' HND Hin. eapply (MInv_call m live ctxs id p w live ctxs' _ (fun _ => False)); try done; [by left|].
    intros c Hc. destruct (Hin c Hc); [left; split; [done|by intros []]|by right]. }
  assert (Hmem : forall x, x ∈ live -> lv_pool x = id -> lv_addr x ∈ chunks_of live id (lv_class x)).
  { intros x Hx E. apply list_elem_of_fmap. exists x. split; [done|]. by apply list_elem_of_filter. }
  destruct Hcase as [(Hrel & Hnone)|(Hwt & Evict & Hact)].
  - destruct (Hgo ctxs) as [Hsh HM']; [apply HM|by left|]. split; [done|]. right. exists ctx. split; [done|]. left.
    split; [done|]. split; [done|]. intros x Hx Hs. destruct (Hsame x _ Hx eq_refl Hs) as (E & Hc & _).
    by apply (Hnone (lv_class x) (lv_addr x) Hc); [apply Hmem|].
  - destruct (Hgo (ctx :: ctxs)) as [Hsh HM'].
    + simpl. apply list.NoDup_cons. split; [|apply HM]. intros (c & Ec & Hc)%list_elem_of_fmap.
      destruct (ctx_marked m live ctxs c HM Hc) as (_ & k & _ & _ & Hk' & Em). rewrite <- Ec in Hk'. congruence.
    + intros c [-> |Hc]%elem_of_cons; [right|by left]. split; [|done]. destruct Hwt as (_ & E & _), Hk as (_ & _ & _ & E' & _). congruence.
    + split; [done|]. right. exists ctx. split; [done|]. right. split; [apply Hwt|]. split; [done|]. intros a. rewrite Hact. split.
      * intros [Ha Hs]. apply list_elem_of_fmap in Ha as (x & -> & [[? ?] Hx]%list_elem_of_filter). by exists x.
      * intros (x & Hx & <- & Hs). destruct (Hsame x _ Hx eq_refl Hs) as (E & Hc & Ecl). split; [|done].
        rewrite <- Hhc, Ecl. by apply Hmem.
Qed.

(** The release of a slab ends. *)
Lemma MInv_ended m live ctxs ctx p w d : MInv m live (ctx :: ctxs) -> aget (pools_ m) (ctx_pid ctx) = Some p ->
  keeps (slabAllocator_ m) p w -> waiting_kept p (ps_mp w) (fun s => s = ctx_slab ctx) ->
  PoolInv (ps_sa w) (ps_mp w) (chunks_of live (ctx_pid ctx)) [] d ->
  let m' := set_pools (aput (pools_ m) (ctx_pid ctx) (ps_mp w)) (set_sa (ps_sa w) m) in shape m' = shape m /\ MInv m' live ctxs.
Proof.
  intros HM Hp Hk Hw HP. pose proof (mi_ctx_nodup _ _ _ HM) as HND. simpl in HND. apply list.NoDup_cons in HND as [Hni HND].
  eapply (MInv_call m live (ctx :: ctxs) _ p w live ctxs d); try done; [by left|]. intros c Hc. left. split; [by right|].
  intros E. apply Hni. rewrite <- E. by apply list_elem_of_fmap_2.
Qed.

(** A release is completed exactly when no allocation in the slab is live. *)
Lemma ma_complete_ok m live ctxs ctx : MInv m live (ctx :: ctxs) ->
  runs (ma_completeSlabRelease ctx) m (fun r m' => shape m' = shape m /\
    (r = inr Waiting /\ m' = m /\ (exists x, x ∈ live /\ getSlabForMemory (lv_addr x) = ctx_slab ctx) \/
     r = inr Completed /\ MInv m' live ctxs /\ (forall x, x ∈ live -> getSlabForMemory (lv_addr x) <> ctx_slab ctx))).
Proof.
  intros HM. destruct (ctx_marked m live _ ctx HM ltac:(left)) as (p & h & Hp & Hwt & Hh & Hm).
  destruct (mi_pools _ _ _ HM _ p Hp) as (Epid & Hmx & d & HP). eapply runs_on_pool; [exact Hp|].
  eapply runs_mono; [apply (mp_complete_ok _ p (chunks_of live (ctx_pid ctx)) d ctx); [apply (mi_sa _ _ _ HM)|done|done]|].
  intros r w (Hk & Hw & HP' & Hcase). destruct Hcase as [(-> & -> & (a & Ha & Hs))|(-> & Hnone)].
  - cbn [ps_sa ps_mp]. rewrite (aput_same _ _ _ Hp). assert (set_pools (pools_ m) (set_sa (slabAllocator_ m) m) = m) as -> by (by destruct m).
    split; [done|]. left. split; [done|]. split; [done|].
    apply list_elem_of_fmap in Ha as (x & -> & [_ Hx]%list_elem_of_filter). by exists x.
  - destruct (MInv_ended m live ctxs ctx p w d HM Hp Hk Hw HP') as [Hsh HM']. split; [done|]. right. split; [done|]. split; [done|].
    intros x Hx Hs. destruct (live_header m live _ x HM Hx) as (q & ac & k & Hq & Eq & Hac & _ & _ & Hin & Hk' & Ekp & Ekc).
    rewrite Hs, Hh in Hk'. injection Hk' as <-. destruct Hwt as (_ & _ & _ & ac' & Hac' & Hs').
    destruct (pv_class _ _ _ _ _ HP _ ac' Hac') as (Ec' & Ep' & _ & HC').
    destruct (proj1 (ci_own _ _ _ _ HC' _) (releasing_slabs ac' _ Hs')) as [k (Hk1 & Hk2 & Hk3)]. rewrite Hh in Hk1. injection Hk1 as <-.
    apply (Hnone (lv_addr x)); [|done]. replace (ctx_pid ctx) with (lv_pool x) by congruence. by replace (ctx_victim ctx) with (lv_class x) by congruence.
Qed.

Lemma ma_abort_ok m live ctxs ctx : MInv m live (ctx :: ctxs) ->
  runs (ma_abortSlabRelease ctx) m (fun r m' => r = inr tt /\ shape m' = shape m /\ MInv m' live ctxs).
Proof.
  intros HM. destruct (ctx_marked m live _ ctx HM ltac:(left)) as (p & h & Hp & Hwt & Hh & Hm).
  destruct (mi_pools _ _ _ HM _ p Hp) as (Epid & Hmx & d & HP). eapply runs_on_pool; [exact Hp|].
  eapply runs_mono; [apply (mp_abort_ok _ p (chunks_of live (ctx_pid ctx)) d ctx); [apply (mi_sa _ _ _ HM)|done|done]|].
  intros r w (-> & Hk & Hw & HP'). split; [done|]. by apply (MInv_ended m live ctxs ctx p w d).
Qed.

End SlabSys.
