(* ===== verification/SlabAdmin.v ===== *)
(** * SlabAdmin: pools of the memory allocator

    Construction of the memory allocator, creation and resizing of pools. *)

From Stdlib Require Import ZArith Lia.
From stdpp Require Import base list gmap strings numbers.
From S2P Require Import Prelude Types Slab SlabClass SlabPool SlabMemory SlabInv SlabOps SlabRelease SlabStart SlabPoolInv SlabPoolOps SlabPoolRelease SlabSys.
Import Types Slab SlabClass SlabPool SlabMemory SlabFacts SlabInv SlabOps SlabStart SlabPoolInv SlabPoolOps SlabPoolRelease SlabSys.

Open Scope moon_scope.
Open Scope Z_scope.

Module SlabAdmin.

(** ** Construction *)

Lemma MemoryAllocator_new_ok config hs hsize start size m :
  0 <= start -> 0 <= size < 2 ^ 32 * kSize -> start + size < 2 ^ 64 -> size <= kSize * Z.of_nat (length hs) ->
  MemoryAllocator_new config (Some hs) hsize start size = inr m -> MInv m [] [] /\ shape m = (config, ∅, start, size, []).
Proof.
  unfold MemoryAllocator_new, SlabAllocator_new. intros Hst Hsz Hend Hhs H. repeat case_match; simplify_eq. split; [|done].
  match goal with H : _ || _ = false |- _ => apply orb_false_iff in H as [Hnz Hal] end.
  repeat match goal with H : negb _ = false |- _ => apply negb_false_iff in H end. zbool.
  assert (Hwf : SAWf (mkSA (replicate 127 0) [] hs start size start true)).
  { split; simpl; try done; mlia. }
  assert (Hno : forall s h, hdr (mkSA (replicate 127 0) [] hs start size start true) s = Some h -> False).
  { intros s h Hh%(hdr_valid _ Hwf). destruct Hh as [Hh _]. simpl in Hh. lia. }
  split; simpl; try done; try (intros; exfalso; eauto; fail).
  - split; simpl; try done; [constructor|]. intros s. split; [by intros ?%elem_of_nil|]. intros (h & Hh & _). by apply Hno in Hh.
  - intros id p. unfold aget. by destruct (0 <=? id).
  - lia.
  - by intros x ?%elem_of_nil.
  - by intros x ?%elem_of_nil.
  - constructor.
Qed.

(** ** Creation of a pool *)

Lemma new_class sa cid pid size : SAWf sa -> 0 < size <= kSize ->
  (forall s h, hdr sa s = Some h -> h_poolId h <> pid) -> CInv sa (mkAC cid pid size 0 0 [] [] [] true 0 ∅) None [].
Proof.
  intros Hwf Hs Hno. split; simpl; try done.
  - constructor.
  - intros s. split; [by intros ?%elem_of_nil|]. intros (h & Hh & Hp & _). by destruct (Hno s h Hh).
  - intros s h Hs'. by apply elem_of_nil in Hs'.
  - by left.
  - exists 0. split; [lia|]. pose proof (per_slab_bounds size Hs). lia.
  - by intros x ?%elem_of_nil.
Qed.

Lemma createAllocationClasses_ok sa pid id sizes acs : SAWf sa -> 0 <= id -> id + Z.of_nat (length sizes) <= 127 ->
  createAllocationClasses sa pid id sizes = Some (inr acs) ->
  length acs = length sizes /\ forall i ac, acs !! i = Some ac ->
    exists size, sizes !! i = Some size /\ 0 < size <= kSize /\ ac = mkAC (id + Z.of_nat i) pid size 0 0 [] [] [] true 0 ∅.
Proof.
  intros Hwf. revert id acs. induction sizes as [|size sizes IH]; intros id acs Hid Hl H; simpl in *.
  - injection H as <-. split; [done|]. by intros [|i].
  - destruct ((size <? kMinAllocSize) || (kSize <? size)) eqn:Eb; [done|]. apply orb_false_iff in Eb as [E1 E2].
    apply Z.ltb_ge in E1, E2. rewrite kMinAllocSize_eq in E1.
    destruct (AllocationClass_new sa id pid size) as [[|ac]|] eqn:En; [done| |done].
    assert (ac = mkAC id pid size 0 0 [] [] [] true 0 ∅) as -> by (unfold AllocationClass_new in En; repeat case_match; by simplify_eq).
    destruct (createAllocationClasses sa pid (s8 (id + 1)) sizes) as [[|acs']|] eqn:Er; [done| |done]. injection H as <-.
    assert (s8 (id + 1) = id + 1) as E by (unfold s8; rewrite Z.mod_small by lia; lia). rewrite E in Er.
    destruct (IH (id + 1) acs') as [El Hnth]; [lia|lia|done|]. split; [simpl; lia|]. intros [|i] ac Hac; simpl in *.
    + injection Hac as <-. exists size. split; [done|]. split; [lia|]. f_equal. lia.
    + destruct (Hnth i ac Hac) as (sz & ? & ? & ->). exists sz. split; [done|]. split; [done|]. f_equal. lia.
Qed.

Lemma is_sorted_lt l : is_sorted l = true -> has_adjacent l = false ->
  forall i j x y, l !! i = Some x -> l !! j = Some y -> (i < j)%nat -> x < y.
Proof.
  induction l as [|a l IH]; intros Hs Ha i j x y Hi Hj Hij; [done|]. destruct l as [|b l]; [destruct i, j; simpl in *; by try lia|].
  cbn [is_sorted has_adjacent] in Hs, Ha. apply andb_true_iff in Hs as [Hab Hs]. apply orb_false_iff in Ha as [Hne Ha]. zbool.
  specialize (IH Hs Ha). destruct j as [|j]; [lia|]. simpl in Hj. destruct i as [|i]; simpl in Hi; [|by apply (IH i j); [..|lia]].
  injection Hi as <-. destruct j as [|j]; simpl in Hj; [injection Hj as <-; lia|].
  assert (b < y) by (by apply (IH 0%nat (S j)); [..|lia]). lia.
Qed.

Lemma MemoryPool_new_ok sa id size sizes p : SAWf sa -> 0 <= id < 127 -> Z.of_nat (length sizes) <= 127 ->
  (forall s h, hdr sa s = Some h -> h_poolId h <> id) -> MemoryPool_new sa id size sizes = Some (inr p) ->
  PoolInv sa p (fun _ => []) [] 0 /\ mp_id p = id /\ maxSize_ p = size /\ acSizes_ p = sizes.
Proof.
  intros Hwf Hid Hl Hno H. unfold MemoryPool_new in H.
  destruct (createAllocationClasses sa id 0 sizes) as [[|acs]|] eqn:Ec; [done| |done].
  destruct (createAllocationClasses_ok sa id 0 sizes acs Hwf ltac:(lia) ltac:(lia) Ec) as [El Hnth].
  destruct (mp_checkState sa _) eqn:Ek; [done|]. injection H as <-. split; [|done].
  unfold mp_checkState in Ek. simpl in Ek. repeat case_match; try done.
  repeat match goal with H : _ || _ = false |- _ => apply orb_false_iff in H as [? ?] end.
  repeat match goal with H : negb _ = false |- _ => apply negb_false_iff in H end.
  repeat match goal with H : bool_decide _ = false |- _ => apply bool_decide_eq_false in H end.
  assert (Hof : forall c s h, of_class sa id c s h -> False) by (intros c s h (Hh & Hp & _); by apply (Hno s h)).
  split; simpl; try done.
  - split; [destruct sizes; simpl in *; [done|lia]|]. split; [lia|]. by apply is_sorted_lt.
  - intros c ac Hac. pose proof (aget_Some_range _ _ _ Hac). unfold aget in Hac. rewrite (proj2 (Z.leb_le 0 c)) in Hac by lia.
    destruct (Hnth _ ac Hac) as (sz & Hsz & Hb & ->). cbn [ac_classId ac_poolId allocationSize_].
    rewrite Z2Nat.id, Z.add_0_l by lia. split; [done|]. split; [done|]. split; [unfold aget; by rewrite (proj2 (Z.leb_le 0 c)) by lia|].
    by apply new_class.
  - constructor.
  - intros s. split; [by intros ?%elem_of_nil|]. intros [h Hh]. by apply Hof in Hh.
  - intros s h Hh. by apply Hof in Hh.
  - intros s h Hh Hp. by destruct (Hno s h Hh).
  - assert (class_slabs (mkMP id size 0 0 [] sizes acs 0 0 0 0) = 0) as ->; [|done]. unfold class_slabs. simpl.
    assert (HF : Forall (fun ac => slabs ac = []) acs).
    { apply list.Forall_lookup. intros i ac Hac. by destruct (Hnth i ac Hac) as (sz & _ & _ & ->). }
    clear -HF. induction HF as [|ac l E HF IH]; simpl; [done|]. by rewrite IH, E.
  - assert (live_bytes (mkMP id size 0 0 [] sizes acs 0 0 0 0) (fun _ => []) = 0) as ->; [|done]. unfold live_bytes, live_sum. simpl.
    clear. induction acs as [|ac l IH]; simpl; [done|]. rewrite IH. lia.
Qed.

Lemma no_header_0 sa : SAWf sa -> getSlabHeader sa 0 = None.
Proof.
  intros Hwf. unfold getSlabHeader, isValidSlab. pose proof (sw_start _ Hwf).
  by rewrite (proj2 (Z.leb_gt (slabMemoryStart_ sa) 0)) by lia.
Qed.

Lemma AllocationClass_new_total sa cid pid size : SAWf sa -> AllocationClass_new sa cid pid size <> None.
Proof.
  intros Hwf. unfold AllocationClass_new, ac_checkState. simpl.
  rewrite (no_header_0 sa Hwf). repeat case_match; simplify_eq; congruence.
Qed.

Lemma createAllocationClasses_total sa pid id sizes : SAWf sa -> createAllocationClasses sa pid id sizes <> None.
Proof.
  intros Hwf. revert id. induction sizes as [|size sizes IH]; intros id; simpl; [done|].
  destruct (_ || _); [done|]. destruct (AllocationClass_new sa id pid size) as [[|ac]|] eqn:E; [done| |by destruct (AllocationClass_new_total sa id pid size)].
  specialize (IH (s8 (id + 1))). by destruct (createAllocationClasses sa pid (s8 (id + 1)) sizes) as [[|]|].
Qed.

Lemma MemoryPool_new_total sa id size sizes : SAWf sa -> MemoryPool_new sa id size sizes <> None.
Proof.
  intros Hwf. unfold MemoryPool_new. pose proof (createAllocationClasses_total sa id 0 sizes Hwf).
  destruct (createAllocationClasses sa id 0 sizes) as [[|]|]; [done| |done]. by destruct (mp_checkState sa _).
Qed.

Lemma total_pool_size_eq ps : Forall (fun p => 0 <= maxSize_ p) ps -> max_total ps < 2 ^ 64 ->
  total_pool_size ps = max_total ps /\ 0 <= max_total ps.
Proof.
  induction 1 as [|p ps Hp HF IH]; intros Hm; simpl in *; [done|]. destruct IH as [IH1 IH2]; [lia|]. unfold max_total in *.
  rewrite IH1. rewrite u64_small by lia. lia.
Qed.

(** What is left of the segment for new or larger pools. *)
Definition remaining (m : MemoryAllocator) : Z := slabMemorySize_ (slabAllocator_ m) - max_total (pools_ m).

Lemma usable_size sa : SAWf sa -> u64 (getNumUsableSlabs sa * kSize) = slabMemorySize_ sa.
Proof.
  intros []. unfold getNumUsableSlabs, getSlabMemoryEnd. rewrite (u64_small (_ + _)) by lia. rewrite Z.add_simpl_l, u32_small by mlia.
  rewrite u64_small by mlia. mlia.
Qed.

Lemma remaining_ok {B} m live ctxs (k : Z -> ST MemoryAllocator B) (Q : B -> MemoryAllocator -> Prop) : MInv m live ctxs ->
  (0 <= remaining m -> runs (k (remaining m)) m Q) -> runs (bind getRemainingSizeLocked k) m Q.
Proof.
  intros HM HQ. pose proof (si_wf _ (mi_sa _ _ _ HM)) as Hwf. pose proof (mi_total _ _ _ HM) as Ht.
  pose proof (sw_size _ Hwf). pose proof (sw_start _ Hwf).
  destruct (total_pool_size_eq (pools_ m)) as [E1 E2]; [|lia|].
  { apply list.Forall_lookup. intros i p Hp. destruct (mi_pools _ _ _ HM (Z.of_nat i) p) as (_ & ? & _); [by rewrite aget_nat|done]. }
  apply runs_bind. unfold getRemainingSizeLocked. apply runs_gets. rewrite (usable_size _ Hwf), E1.
  apply runs_xdcheck; [apply Z.leb_le; lia|]. apply runs_ret. rewrite u64_small by lia. apply HQ. unfold remaining. lia.
Qed.

Lemma max_total_snoc ps p : max_total (ps ++ [p]) = max_total ps + maxSize_ p.
Proof. unfold max_total. induction ps as [|q ps IH]; simpl; [lia|]. rewrite IH. lia. Qed.

Lemma addPool_ok m live ctxs name size allocSizes ens : MInv m live ctxs -> 0 <= size ->
  (length (if bool_decide (allocSizes = []) then config_ m else allocSizes) <= 127)%nat ->
  runs (addPool name size allocSizes ens) m (fun r m' =>
    (exists e, r = inl e /\ m' = m) \/
    r = inr (nextPoolId_ m) /\ MInv m' live ctxs /\ poolsByName_ m' = <[name := nextPoolId_ m]> (poolsByName_ m) /\
    slabAllocator_ m' = slabAllocator_ m /\ (exists p, pools_ m' = pools_ m ++ [p] /\ maxSize_ p = size /\
      acSizes_ p = if bool_decide (allocSizes = []) then config_ m else allocSizes)).
Proof.
  intros HM Hsz Hlen. unfold addPool. apply runs_gets. set (sizes := if bool_decide (allocSizes = []) then config_ m else allocSizes) in *.
  pose proof (si_wf _ (mi_sa _ _ _ HM)) as Hwf.
  destruct (kMaxClasses <? _); [left; by eexists|]. destruct (ens && _); [left; by eexists|].
  unfold createNewPool. apply runs_gets. destruct (poolsByName_ m !! name) eqn:Enm; [left; by eexists|].
  destruct (Z.eqb_spec (nextPoolId_ m) kMaxPools) as [|Hnp]; [left; by eexists|].
  apply (remaining_ok m live ctxs); [done|]. intros Hrem. destruct (Z.ltb_spec (remaining m) size) as [|Hfit]; [left; by eexists|].
  apply runs_bind. unfold runs at 1, lift. pose proof (MemoryPool_new_total (slabAllocator_ m) (nextPoolId_ m) size sizes Hwf) as Htot.
  destruct (MemoryPool_new _ _ _ _) as [[e|p]|] eqn:Enew; [left; by exists e| |done].
  pose proof (mi_count _ _ _ HM) as Hcnt. unfold kMaxPools in Hnp.
  destruct (MemoryPool_new_ok (slabAllocator_ m) (nextPoolId_ m) size sizes p) as (HP & Eid & Emx & Esz); try done.
  { unfold nextPoolId_ in *. lia. } { lia. }
  { intros s h Hh E. destruct (mi_cover _ _ _ HM s h Hh) as [E'|?]; [|lia]. unfold kInvalidPoolId, nextPoolId_ in *. lia. }
  apply runs_modify, runs_modify, runs_ret. right. split; [done|]. split; [|split; [done|]; split; [done|]; by exists p].
  assert (En : nextPoolId_ (set_names (<[name:=nextPoolId_ m]> (poolsByName_ m)) (set_pools (pools_ m ++ [p]) m)) = nextPoolId_ m + 1).
  { unfold nextPoolId_. simpl. rewrite length_app. simpl. lia. }
  pose proof HM as []. split; rewrite ?En; simpl; try done.
  - intros id q [Hq|[-> ->]]%aget_snoc_inv; [by apply mi_pools0|]. split; [done|]. split; [lia|]. exists 0.
    apply (PoolInv_live _ _ _ _ _ _ HP). intros c. assert (chunks_of live (nextPoolId_ m) c = []) as E; [|by rewrite <- E].
    destruct (chunks_of live (nextPoolId_ m) c) as [|a l] eqn:E; [done|]. assert (Ha : a ∈ chunks_of live (nextPoolId_ m) c) by (rewrite E; left).
    apply list_elem_of_fmap in Ha as (x & -> & [[Ex _] Hx]%list_elem_of_filter). destruct (mi_live0 x Hx) as (q & Hq & _).
    apply aget_Some_range in Hq. unfold nextPoolId_ in Ex. lia.
  - intros s h Hh. destruct (mi_cover0 s h Hh); [by left|right; lia].
  - lia.
  - intros name' id' [[-> <-]|[_ Hn]]%lookup_insert_Some; [unfold nextPoolId_; lia|]. pose proof (mi_names0 _ _ Hn). lia.
  - rewrite max_total_snoc. unfold remaining in *. lia.
  - intros x Hx. destruct (mi_live0 x Hx) as (q & Hq & Hc). exists q. split; [by apply aget_app_l|done].
  - intros ctx Hc. destruct (mi_ctxs0 ctx Hc) as (q & Hq & Hw). exists q. split; [by apply aget_app_l|done].
Qed.

(** Class sizes a pool accepts. *)
Definition sizes_ok (l : list Z) : bool :=
  negb (bool_decide (l = [])) && forallb (fun x => (kMinAllocSize <=? x) && (x <=? kSize)) l && is_sorted l &&
  negb (has_adjacent l) && bool_decide (length l <= 127)%nat.

Lemma AllocationClass_new_eq sa cid pid size : SAWf sa -> 0 <= cid -> size <= kSize ->
  AllocationClass_new sa cid pid size = Some (inr (mkAC cid pid size 0 0 [] [] [] true 0 ∅)).
Proof.
  intros Hwf Hc Hs. unfold AllocationClass_new, ac_checkState. simpl.
  rewrite (proj2 (Z.ltb_ge cid 0)), (proj2 (Z.ltb_ge kSize size)) by lia. by rewrite (no_header_0 sa Hwf).
Qed.

Lemma createAllocationClasses_eq sa pid id sizes : SAWf sa -> 0 <= id -> id + Z.of_nat (length sizes) <= 127 ->
  forallb (fun x => (kMinAllocSize <=? x) && (x <=? kSize)) sizes = true ->
  exists acs, createAllocationClasses sa pid id sizes = Some (inr acs) /\ length acs = length sizes /\ sizes_match sizes acs = true.
Proof.
  intros Hwf. revert id. induction sizes as [|x sizes IH]; intros id Hid Hl Hf; cbn [length forallb createAllocationClasses] in *; [by exists []|].
  apply andb_true_iff in Hf as [[H1 H2]%andb_true_iff Hf]. pose proof (proj1 (Z.leb_le _ _) H1). pose proof (proj1 (Z.leb_le _ _) H2).
  rewrite (proj2 (Z.ltb_ge x kMinAllocSize)), (proj2 (Z.ltb_ge kSize x)) by lia. cbn [orb].
  rewrite AllocationClass_new_eq by (done || lia).
  assert (s8 (id + 1) = id + 1) as -> by (unfold s8; rewrite Z.mod_small by lia; lia).
  destruct (IH (id + 1)) as (acs & -> & El & Hm); [lia|lia|done|]. eexists. split; [done|]. split; [simpl; lia|].
  cbn [sizes_match allocationSize_]. by rewrite Z.eqb_refl, H1, H2, Hm.
Qed.

Lemma MemoryPool_new_eq sa id size sizes : SAWf sa -> 0 <= id -> 0 <= size -> sizes_ok sizes = true ->
  exists p, MemoryPool_new sa id size sizes = Some (inr p).
Proof.
  intros Hwf Hid Hsz Hok. unfold sizes_ok in Hok. repeat (apply andb_true_iff in Hok as [Hok ?]).
  destruct (createAllocationClasses_eq sa id 0 sizes) as (acs & E & El & Hm); [done|lia| |done|].
  { match goal with H : bool_decide (_ <= _)%nat = true |- _ => apply bool_decide_eq_true in H; lia end. }
  unfold MemoryPool_new. rewrite E. eexists. unfold mp_checkState. cbn [mp_id currSlabAllocSize_ currAllocSize_ acSizes_ ac_vec mp_freeSlabs forallb].
  rewrite (proj2 (Z.ltb_ge id 0)) by lia. change (0 <? 0) with false. apply negb_true_iff in Hok.
  rewrite Hok, El, (bool_decide_eq_true_2 (length sizes = length sizes)) by done.
  assert (bool_decide (length sizes = 0%nat) = false) as -> by (apply bool_decide_eq_false; apply bool_decide_eq_false in Hok; by destruct sizes).
  repeat match goal with H : _ = true |- _ => rewrite H end.
  match goal with H : negb (has_adjacent _) = true |- _ => apply negb_true_iff in H; rewrite H end. reflexivity.
Qed.

(** A pool that fits is added. *)
Lemma addPool_adds m live ctxs name size allocSizes : MInv m live ctxs -> 0 <= size <= remaining m ->
  poolsByName_ m !! name = None -> nextPoolId_ m < 64 ->
  sizes_ok (if bool_decide (allocSizes = []) then config_ m else allocSizes) = true ->
  runs (addPool name size allocSizes false) m (fun r m' => r = inr (nextPoolId_ m)).
Proof.
  intros HM Hsz Hnm Hcnt Hok. unfold addPool. apply runs_gets. set (sizes := if bool_decide (allocSizes = []) then config_ m else allocSizes) in *.
  assert (Hl : (length sizes <= 127)%nat).
  { unfold sizes_ok in Hok. apply andb_true_iff in Hok as [_ Hok]. by apply bool_decide_eq_true in Hok. }
  rewrite (proj2 (Z.ltb_ge kMaxClasses _)) by (unfold kMaxClasses; lia). cbn [andb]. unfold createNewPool. apply runs_gets. rewrite Hnm.
  rewrite (proj2 (Z.eqb_neq (nextPoolId_ m) kMaxPools)) by (unfold kMaxPools; lia).
  apply (remaining_ok m live ctxs); [done|]. intros _. rewrite (proj2 (Z.ltb_ge (remaining m) size)) by lia.
  destruct (MemoryPool_new_eq (slabAllocator_ m) (nextPoolId_ m) size sizes) as [p Ep];
    [apply (si_wf _ (mi_sa _ _ _ HM))|unfold nextPoolId_; lia|lia|done|].
  apply runs_bind. unfold runs at 1, lift. rewrite Ep. by apply runs_modify, runs_modify, runs_ret.
Qed.

(** ** Resizing *)

Definition resized (m : MemoryAllocator) (id n : Z) (p : MemoryPool) : MemoryAllocator :=
  set_pools (aput (pools_ m) id (set_max n p)) m.

Lemma MInv_resized m live ctxs id p n : MInv m live ctxs -> aget (pools_ m) id = Some p -> 0 <= n <= maxSize_ p + remaining m ->
  MInv (resized m id n p) live ctxs.
Proof.
  intros HM Hp Hn. pose proof (aget_Some_range _ _ _ Hp) as Hr. pose proof HM as [].
  assert (En : nextPoolId_ (resized m id n p) = nextPoolId_ m) by (unfold nextPoolId_; simpl; by rewrite length_aput).
  assert (Hget : forall id' q, aget (pools_ m) id' = Some q -> exists q', aget (aput (pools_ m) id (set_max n p)) id' = Some q' /\
    ac_vec q' = ac_vec q /\ mp_id q' = mp_id q).
  { intros id' q Hq. destruct (decide (id' = id)) as [-> |Hne].
    - exists (set_max n p). rewrite aget_aput_eq by done. by simplify_eq.
    - exists q. by rewrite aget_aput_ne by (done || lia). }
  split; rewrite ?En; simpl; try done.
  - intros id' q Hq. destruct (decide (id' = id)) as [-> |Hne].
    + rewrite aget_aput_eq in Hq by done. injection Hq as <-. destruct (mi_pools0 id p Hp) as (? & _ & d & HP). split; [done|].
      split; [simpl; lia|]. exists d. by apply PoolInv_max.
    + rewrite aget_aput_ne in Hq by (done || lia). by apply mi_pools0.
  - rewrite (max_total_aput _ _ p) by done. unfold remaining in Hn. simpl. lia.
  - intros x Hx. destruct (mi_live0 x Hx) as (q & Hq & Hc). destruct (Hget _ q Hq) as (q' & Hq' & E & _). exists q'. by rewrite E.
  - intros ctx Hc. destruct (mi_ctxs0 ctx Hc) as (q & Hq & Hw). destruct (Hget _ q Hq) as (q' & Hq' & E & E'). exists q'. split; [done|].
    destruct Hw as (H1 & H2 & H3 & H4). unfold ctx_waits, receiver_ok in *. by rewrite E, E'.
Qed.

Lemma runs_resize {B} m id p n (k : unit -> ST MemoryAllocator (Res B)) (Q : Res B -> MemoryAllocator -> Prop) : aget (pools_ m) id = Some p ->
  runs (k tt) (resized m id n p) Q -> runs (bindx (on_pool id (mp_resize n)) k) m Q.
Proof.
  intros Hp HQ. apply runs_bindx. eapply runs_on_pool; [exact Hp|]. unfold mp_resize. apply runs_upd_mp, runs_ret. simpl.
  by assert (set_pools (aput (pools_ m) id (set_max n p)) (set_sa (slabAllocator_ m) m) = resized m id n p) as -> by (by destruct m).
Qed.

Lemma runs_pool_size {B} m id (k : Z -> ST MemoryAllocator (Res B)) (Q : Res B -> MemoryAllocator -> Prop) :
  (aget (pools_ m) id = None -> Q (inl invalid_argument) m) ->
  (forall p, aget (pools_ m) id = Some p -> runs (k (maxSize_ p)) m Q) -> runs (bindx (pool_size id) k) m Q.
Proof.
  intros Hnone Hsome. apply runs_bindx. unfold pool_size. destruct (aget (pools_ m) id) as [p|] eqn:Hp.
  - eapply runs_on_pool; [exact Hp|]. apply runs_mp, runs_ret. cbn [ps_sa ps_mp]. rewrite (aput_same _ _ _ Hp).
    assert (set_pools (pools_ m) (set_sa (slabAllocator_ m) m) = m) as -> by (by destruct m). by apply Hsome.
  - apply runs_no_pool; [done|]. by apply Hnone.
Qed.

(** Pool sizes as the calls change them. *)
Definition max_of (m : MemoryAllocator) (id : Z) : option Z := maxSize_ <$> aget (pools_ m) id.

Lemma max_of_resized m id n p id' : aget (pools_ m) id = Some p -> 0 <= id' ->
  max_of (resized m id n p) id' = if decide (id' = id) then Some n else max_of m id'.
Proof.
  intros Hp Hi. pose proof (aget_Some_range _ _ _ Hp). unfold max_of, resized. simpl. case_decide as E.
  - subst. by rewrite aget_aput_eq.
  - by rewrite aget_aput_ne by (done || lia).
Qed.

Lemma remaining_resized m id n p : aget (pools_ m) id = Some p -> remaining (resized m id n p) = remaining m + maxSize_ p - n.
Proof. intros Hp. unfold remaining, resized. simpl. rewrite (max_total_aput _ _ p) by done. simpl. lia. Qed.

Lemma max_bound m live ctxs id p : MInv m live ctxs -> aget (pools_ m) id = Some p ->
  0 <= maxSize_ p /\ 0 <= remaining m /\ maxSize_ p + remaining m < 2 ^ 64.
Proof.
  intros HM Hp. pose proof (si_wf _ (mi_sa _ _ _ HM)) as []. pose proof (mi_total _ _ _ HM).
  assert (Hle : 0 <= maxSize_ p <= max_total (pools_ m)); [|unfold remaining; lia].
  assert (HF : Forall (fun q => 0 <= maxSize_ q) (pools_ m)).
  { apply list.Forall_lookup. intros i q Hq. destruct (mi_pools _ _ _ HM (Z.of_nat i) q) as (_ & ? & _); [by rewrite aget_nat|done]. }
  unfold aget in Hp. destruct (0 <=? id); [|done]. revert Hp. generalize (Z.to_nat id). clear -HF.
  induction HF as [|q l Hq HF IH]; intros [|i] Hp; simpl in *; simplify_eq.
  - assert (0 <= max_total l); [|unfold max_total in *; lia]. clear IH. induction HF; simpl; unfold max_total in *; [done|simpl; lia].
  - specialize (IH i Hp). unfold max_total in *. lia.
Qed.

Lemma shrinkPool_ok m live ctxs id bytes : MInv m live ctxs -> 0 <= bytes ->
  runs (shrinkPool id bytes) m (fun r m' => MInv m' live ctxs /\
    (m' = m /\ r <> inr true \/ r = inr true /\ exists p, aget (pools_ m) id = Some p /\ bytes <= maxSize_ p /\
       m' = resized m id (maxSize_ p - bytes) p)).
Proof.
  intros HM Hb. unfold shrinkPool. apply runs_pool_size.
  { intros _. split; [done|]. by left. }
  intros p Hp. pose proof (max_bound m live ctxs id p HM Hp) as Hmx. destruct (Z.ltb_spec (maxSize_ p) bytes) as [|Hle].
  { apply runs_ret. split; [done|]. by left. }
  rewrite u64_small by lia. eapply runs_resize; [exact Hp|]. apply runs_ret. split; [apply MInv_resized; [done|done|lia]|]. right.
  split; [done|]. by exists p.
Qed.

Lemma growPool_ok m live ctxs id bytes : MInv m live ctxs -> 0 <= bytes ->
  runs (growPool id bytes) m (fun r m' => MInv m' live ctxs /\
    (m' = m /\ r <> inr true \/ r = inr true /\ exists p, aget (pools_ m) id = Some p /\ bytes <= remaining m /\
       m' = resized m id (maxSize_ p + bytes) p)).
Proof.
  intros HM Hb. unfold growPool. apply runs_pool_size.
  { intros _. split; [done|]. by left. }
  intros p Hp. pose proof (max_bound m live ctxs id p HM Hp) as Hmx. apply (remaining_ok m live ctxs); [done|]. intros Hrem.
  destruct (Z.ltb_spec (remaining m) bytes) as [|Hle].
  { apply runs_ret. split; [done|]. by left. }
  rewrite u64_small by lia. eapply runs_resize; [exact Hp|]. apply runs_ret. split; [apply MInv_resized; [done|done|lia]|]. right.
  split; [done|]. by exists p.
Qed.

Lemma resizePools_ok m live ctxs src dest bytes : MInv m live ctxs -> 0 <= bytes ->
  runs (resizePools src dest bytes) m (fun r m' => MInv m' live ctxs /\
    (m' = m /\ r <> inr true \/ r = inr true /\ remaining m' = remaining m /\
       exists p q, aget (pools_ m) src = Some p /\ bytes <= maxSize_ p /\
         let m1 := resized m src (maxSize_ p - bytes) p in
         aget (pools_ m1) dest = Some q /\ m' = resized m1 dest (maxSize_ q + bytes) q)).
Proof.
  intros HM Hb. unfold resizePools. apply runs_pool_size.
  { intros _. split; [done|]. by left. }
  intros p Hp. apply runs_pool_size.
  { intros _. split; [done|]. by left. }
  intros q0 Hq0. pose proof (max_bound m live ctxs src p HM Hp) as Hmx. destruct (Z.ltb_spec (maxSize_ p) bytes) as [|Hle].
  { apply runs_ret. split; [done|]. by left. }
  rewrite u64_small by lia. set (m1 := resized m src (maxSize_ p - bytes) p). eapply runs_resize; [exact Hp|]. fold m1.
  assert (HM1 : MInv m1 live ctxs) by (apply MInv_resized; [done|done|lia]).
  pose proof (remaining_resized m src (maxSize_ p - bytes) p Hp) as Er. fold m1 in Er.
  apply runs_pool_size.
  { intros Hnone. exfalso. pose proof (aget_Some_range _ _ _ Hq0). destruct (aget_range (pools_ m1) dest); [|congruence].
    unfold m1. simpl. by rewrite length_aput. }
  intros q Hq. pose proof (max_bound m1 live ctxs dest q HM1 Hq) as Hmq. rewrite u64_small by lia.
  eapply runs_resize; [exact Hq|]. apply runs_ret. split; [apply MInv_resized; [done|done|lia]|]. right. split; [done|].
  split; [rewrite (remaining_resized m1 dest _ q Hq); lia|]. exists p, q. split; [done|]. split; [done|]. by split.
Qed.

End SlabAdmin.
