(* ===== verification/SlabClient.v ===== *)
(** * SlabClient: clients of the memory allocator

    A client holds the allocations and the slab release contexts it was given
    and has not given back.  It may call any operation of the memory allocator
    with what it holds. *)

From Stdlib Require Import ZArith Lia.
From stdpp Require Import base list gmap strings numbers.
From S2P Require Import Prelude Types Slab SlabClass SlabPool SlabMemory SlabInv SlabOps SlabPoolInv SlabPoolOps SlabPoolRelease SlabSys SlabAdmin.
Import Types Slab SlabClass SlabPool SlabMemory SlabFacts SlabInv SlabOps SlabPoolInv SlabPoolOps SlabPoolRelease SlabSys SlabAdmin.

Open Scope moon_scope.
Open Scope Z_scope.

Module SlabClient.

Record World : Type := mkWorld {
  w_ma : MemoryAllocator;
  w_live : list Live;
  w_ctxs : list SlabReleaseContext;
}.

Inductive Call : Type :=
  | Allocate (id size : Z)
  | Free (x : Live)
  | AddPool (name : string) (size : Z) (allocSizes : list Z) (ensureProvisionable : bool)
  | ResizePools (src dest bytes : Z)
  | ShrinkPool (id bytes : Z)
  | GrowPool (id bytes : Z)
  | StartSlabRelease (rnd id victim receiver : Z) (mode : SlabReleaseMode) (hint : Z)
  | CompleteSlabRelease (ctx : SlabReleaseContext)
  | AbortSlabRelease (ctx : SlabReleaseContext).

(** What [getAllocInfo] says of an address, as a live allocation and its size. *)
Definition alloc_info (m : MemoryAllocator) (x : Z) : option AllocInfo :=
  match getAllocInfo x m with Some (inr info, _) => Some info | _ => None end.
Definition live_size (m : MemoryAllocator) (x : Live) : Z :=
  match alloc_info m (lv_addr x) with Some info => ai_allocSize info | None => 0 end.

(** What the client holds after a call. *)
Definition hold (m : MemoryAllocator) (r : Res Z) (live : list Live) : list Live :=
  match r with
  | inr x =>
      if x =? 0 then live
      else match alloc_info m x with Some info => mkLive (ai_poolId info) (ai_classId info) x :: live | None => live end
  | inl _ => live
  end.

Definition drop_live (x : Live) (l : list Live) : list Live := filter (fun y => lv_addr y <> lv_addr x) l.
Definition drop_ctx (ctx : SlabReleaseContext) (l : list SlabReleaseContext) : list SlabReleaseContext :=
  filter (fun c => ctx_slab c <> ctx_slab ctx) l.

Definition exec (c : Call) (w : World) : option World :=
  let m := w_ma w in
  let live := w_live w in
  let ctxs := w_ctxs w in
  match c with
  | Allocate id size =>
      match ma_allocate id size m with Some (r, m') => Some (mkWorld m' (hold m' r live) ctxs) | None => None end
  | Free x => match ma_free (lv_addr x) m with Some (_, m') => Some (mkWorld m' (drop_live x live) ctxs) | None => None end
  | AddPool name size sizes ens =>
      match addPool name size sizes ens m with Some (_, m') => Some (mkWorld m' live ctxs) | None => None end
  | ResizePools src dest bytes =>
      match resizePools src dest bytes m with Some (_, m') => Some (mkWorld m' live ctxs) | None => None end
  | ShrinkPool id bytes => match shrinkPool id bytes m with Some (_, m') => Some (mkWorld m' live ctxs) | None => None end
  | GrowPool id bytes => match growPool id bytes m with Some (_, m') => Some (mkWorld m' live ctxs) | None => None end
  | StartSlabRelease rnd id victim receiver mode hint =>
      match ma_startSlabRelease (fun _ => false) rnd id victim receiver mode hint m with
      | Some (inr ctx, m') => Some (mkWorld m' live (if isReleased ctx then ctxs else ctx :: ctxs))
      | Some (inl _, m') => Some (mkWorld m' live ctxs)
      | None => None
      end
  | CompleteSlabRelease ctx =>
      match ma_completeSlabRelease ctx m with
      | Some (inr Completed, m') => Some (mkWorld m' live (drop_ctx ctx ctxs))
      | Some (_, m') => Some (mkWorld m' live ctxs)
      | None => None
      end
  | AbortSlabRelease ctx =>
      match ma_abortSlabRelease ctx m with Some (_, m') => Some (mkWorld m' live (drop_ctx ctx ctxs)) | None => None end
  end.

(** The calls a client may make.  The callback that aborts the start of a
    release is not among them. *)
Definition permitted (w : World) (c : Call) : Prop :=
  match c with
  | Allocate _ size => 0 <= size
  | Free x => x ∈ w_live w
  | AddPool _ size sizes _ =>
      0 <= size /\ (length (if bool_decide (sizes = []) then config_ (w_ma w) else sizes) <= 127)%nat
  | ResizePools _ _ bytes | ShrinkPool _ bytes | GrowPool _ bytes => 0 <= bytes
  | StartSlabRelease _ id victim receiver _ _ => class_arg (w_ma w) id victim /\ class_arg (w_ma w) id receiver
  | CompleteSlabRelease ctx | AbortSlabRelease ctx => ctx ∈ w_ctxs w
  end.

Inductive reach (w : World) : World -> Prop :=
  | reach_start : reach w w
  | reach_call w1 w2 c : reach w w1 -> permitted w1 c -> exec c w1 = Some w2 -> reach w w2.

Definition WInv (w : World) : Prop := MInv (w_ma w) (w_live w) (w_ctxs w).

(** ** Live allocations *)

Lemma MInv_perm m live live' ctxs ctxs' : live ≡ₚ live' -> ctxs ≡ₚ ctxs' -> MInv m live ctxs -> MInv m live' ctxs'.
Proof.
  intros HL HC []. split; try done.
  - intros id p Hp. destruct (mi_pools0 id p Hp) as (? & ? & d & HP). split; [done|]. split; [done|]. exists d.
    apply (PoolInv_live _ _ _ _ _ _ HP). intros c. by apply chunks_of_perm.
  - intros x Hx. rewrite <- HL in Hx. by apply mi_live0.
  - intros x Hx. rewrite <- HC in Hx. by apply mi_ctxs0.
  - by rewrite <- HC.
Qed.

#[export] Instance MInv_proper m : Proper ((≡ₚ) ==> (≡ₚ) ==> iff) (MInv m).
Proof. intros l l' HL c c' HC. split; by apply MInv_perm. Qed.

Lemma alloc_info_hdr m live ctxs a h : MInv m live ctxs -> hdr (slabAllocator_ m) (getSlabForMemory a) = Some h ->
  alloc_info m a = Some (mkInfo (h_poolId h) (h_classId h) (h_allocSize h)).
Proof.
  intros HM Hh. pose proof (si_wf _ (mi_sa _ _ _ HM)) as Hwf. unfold alloc_info, getAllocInfo.
  destruct (getSlabHeader_hdr _ Hwf _ h Hh) as [E1 E2]. by rewrite (getSlabHeader_mem_eq _ Hwf), E1, E2.
Qed.

(** The size of a live allocation is that of its class. *)
Lemma live_info m live ctxs x : MInv m live ctxs -> x ∈ live -> exists p ac,
  aget (pools_ m) (lv_pool x) = Some p /\ aget (ac_vec p) (lv_class x) = Some ac /\
  aget (acSizes_ p) (lv_class x) = Some (allocationSize_ ac) /\
  CInv (slabAllocator_ m) ac None (chunks_of live (lv_pool x) (lv_class x)) /\
  lv_addr x ∈ chunks_of live (lv_pool x) (lv_class x) /\
  alloc_info m (lv_addr x) = Some (mkInfo (lv_pool x) (lv_class x) (allocationSize_ ac)) /\ live_size m x = allocationSize_ ac.
Proof.
  intros HM Hx. destruct (live_header m live ctxs x HM Hx) as (p & ac & h & Hp & Epid & Hac & Ec & HC & Hin & Hh & Ehp & Ehc).
  exists p, ac. destruct (mi_pools _ _ _ HM _ p Hp) as (_ & _ & d & HP). destruct (pv_class _ _ _ _ _ HP _ ac Hac) as (_ & Ep & Es & _).
  assert (Hs : getSlabForMemory (lv_addr x) ∈ slabs ac).
  { apply (ci_own _ _ _ _ HC). exists h. split; [done|]. split; congruence. }
  destruct (ci_hdr _ _ _ _ HC _ h Hs Hh) as [Esz _]. unfold live_size. rewrite (alloc_info_hdr m live ctxs _ h HM Hh), Ehp, Ehc, Esz. done.
Qed.

(** Where a live allocation is. *)
Lemma live_place m live ctxs x : MInv m live ctxs -> x ∈ live -> let sa := slabAllocator_ m in let s := getSlabForMemory (lv_addr x) in
  0 < live_size m x <= kSize /\ s mod kSize = 0 /\ slabMemoryStart_ sa <= s /\ s <= lv_addr x /\
  lv_addr x + live_size m x <= s + kSize /\ s + kSize <= slabMemoryStart_ sa + slabMemorySize_ sa.
Proof.
  intros HM Hx sa s. destruct (live_info m live ctxs x HM Hx) as (p & ac & _ & _ & _ & HC & Hin & _ & ->).
  pose proof (si_wf _ (mi_sa _ _ _ HM)) as Hwf.
  destruct (carved_place _ ac None _ Hwf HC _ (live_carved _ ac None _ Hwf HC _ Hin)) as (s' & _ & _ & <- & Hv & H1 & H2).
  pose proof (valid_bounds _ Hwf _ Hv) as Hb. pose proof (sw_next _ Hwf). pose proof (ci_size _ _ _ _ HC). destruct Hv as [Hv Hm].
  unfold s, sa. split_and!; lia || done.
Qed.

(** Two live allocations do not overlap. *)
Lemma live_apart m x y live ctxs : MInv m (x :: y :: live) ctxs ->
  lv_addr x + live_size m x <= lv_addr y \/ lv_addr y + live_size m y <= lv_addr x.
Proof.
  intros HM. pose proof (live_place m _ ctxs x HM ltac:(left)) as (_ & Hx0 & _ & Hx1 & Hx2 & _).
  pose proof (live_place m _ ctxs y HM ltac:(right; left)) as (_ & Hy0 & _ & Hy1 & Hy2 & _).
  destruct (decide (getSlabForMemory (lv_addr x) = getSlabForMemory (lv_addr y))) as [E|Hn]; [|mlia].
  destruct (live_info m _ ctxs x HM ltac:(left)) as (p & ac & Hp & Hac & _ & HC & Hin & Ix & Ex).
  destruct (live_info m _ ctxs y HM ltac:(right; left)) as (q & ac' & Hq & Hac' & _ & HC' & Hin' & Iy & Ey).
  destruct (live_header m _ ctxs x HM ltac:(left)) as (_ & _ & h & _ & _ & _ & _ & _ & _ & Hh & E1 & E2).
  destruct (live_header m _ ctxs y HM ltac:(right; left)) as (_ & _ & h' & _ & _ & _ & _ & _ & _ & Hh' & E1' & E2').
  rewrite E, Hh' in Hh. injection Hh as <-. assert (Ep : lv_pool y = lv_pool x) by congruence. assert (Ec : lv_class y = lv_class x) by congruence.
  rewrite Ep in Hq. rewrite Hp in Hq. injection Hq as <-. rewrite Ec, Hac in Hac'. injection Hac' as <-. rewrite Ex, Ey.
  pose proof (si_wf _ (mi_sa _ _ _ HM)) as Hwf. rewrite Ep, Ec in Hin'.
  apply (carved_apart _ ac None _ Hwf HC); [by apply (live_carved _ ac None _ Hwf HC)..|].
  intros Eadr. pose proof (given_NoDup _ ac None _ Hwf HC) as ND. apply list.NoDup_app in ND as (_ & _ & ND).
  rewrite !chunks_of_cons, !decide_True in ND by done. apply list.NoDup_cons in ND as [Hni _]. apply Hni. rewrite Eadr. left.
Qed.

(** Allocations keep their sizes as long as the classes do. *)
Lemma live_size_shape m m' live live' ctxs ctxs' x : MInv m live ctxs -> MInv m' live' ctxs' -> shape m' = shape m ->
  x ∈ live -> x ∈ live' -> live_size m' x = live_size m x.
Proof.
  intros HM HM' Hsh Hx Hx'. destruct (live_info m live ctxs x HM Hx) as (p & ac & Hp & _ & Es & _ & _ & _ & ->).
  destruct (live_info m' live' ctxs' x HM' Hx') as (p' & ac' & Hp' & _ & Es' & _ & _ & _ & ->).
  destruct (shape_get _ _ _ p Hsh Hp) as (q & Hq & Eq & _). rewrite Hp' in Hq. injection Hq as <-. congruence.
Qed.

(** A chunk given out by a class is marked with it, and apart from the others. *)
Lemma given_chunk m m' live ctxs id c x p ac : MInv m live ctxs -> MInv m' (mkLive id c x :: live) ctxs -> shape m' = shape m ->
  aget (pools_ m) id = Some p -> aget (ac_vec p) c = Some ac ->
  alloc_info m' x = Some (mkInfo id c (allocationSize_ ac)) /\
  (forall y, y ∈ live -> x + allocationSize_ ac <= lv_addr y \/ lv_addr y + live_size m y <= x).
Proof.
  intros HM HM' Hsh Hp Hac. destruct (live_info m' _ ctxs (mkLive id c x) HM' ltac:(left)) as (p' & ac' & Hp' & _ & Es' & _ & _ & Hi & Hsz).
  destruct (mi_pools _ _ _ HM id p Hp) as (_ & _ & d & HP). destruct (pv_class _ _ _ _ _ HP _ ac Hac) as (_ & _ & Es & _).
  destruct (shape_get _ _ _ p Hsh Hp) as (q & Hq & Eq & _). cbn [lv_pool lv_class lv_addr] in *. rewrite Hp' in Hq. injection Hq as <-.
  assert (allocationSize_ ac' = allocationSize_ ac) as E by congruence. rewrite E in *. split; [done|].
  intros y Hy. rewrite <- (live_size_shape m m' live _ ctxs ctxs y HM HM' Hsh Hy) by (by right).
  apply list_elem_of_split in Hy as (l1 & l2 & ->). rewrite <- Permutation_middle in HM'. pose proof (live_apart m' _ y _ ctxs HM') as Ha.
  rewrite <- Hsz. exact Ha.
Qed.

(** Live allocations take no more than the segment. *)
Lemma live_NoDup m live ctxs : MInv m live ctxs -> NoDup live.
Proof.
  intros HM. apply NoDup_alt. intros i j x Hi Hj. destruct (decide (i = j)) as [|Hij]; [done|exfalso].
  destruct (two_front live i j x x Hij Hi Hj) as [rest HP]. rewrite HP in HM.
  pose proof (live_place m _ ctxs x HM ltac:(left)) as (? & _). pose proof (live_apart m x x rest ctxs HM). lia.
Qed.

Definition live_total (m : MemoryAllocator) (live : list Live) : Z := foldr (fun x n => live_size m x + n) 0 live.

Lemma live_total_bound m live ctxs : MInv m live ctxs -> live_total m live <= slabMemorySize_ (slabAllocator_ m).
Proof.
  intros HM. set (sa := slabAllocator_ m). set (f := fun x => seqZ (lv_addr x) (live_size m x)).
  assert (Hlen : forall l, (forall x, x ∈ l -> x ∈ live) -> Z.of_nat (length (l ≫= f)) = live_total m l).
  { induction l as [|x l IH]; intros Hin; [done|]. rewrite bind_cons, length_app, Nat2Z.inj_add, IH by (intros; apply Hin; by right).
    unfold f at 1. rewrite length_seqZ. pose proof (live_place m live ctxs x HM (Hin x ltac:(left))) as (? & _). simpl. lia. }
  rewrite <- Hlen by done.
  assert (Hsub : (live ≫= f) ⊆+ seqZ (slabMemoryStart_ sa) (slabMemorySize_ sa)).
  { apply NoDup_submseteq.
    - apply NoDup_bind; [|intros x _; apply NoDup_seqZ|by eapply live_NoDup]. intros x y a Hx Hy Hax Hay.
      destruct (decide (x = y)) as [|Hn]; [done|exfalso]. apply elem_of_seqZ in Hax, Hay.
      apply list_elem_of_lookup in Hx as [i Hi], Hy as [j Hj]. destruct (two_front live i j x y) as [rest HP]; [congruence|done|done|].
      rewrite HP in HM. pose proof (live_apart m x y rest ctxs HM). lia.
    - intros a (x & Ha & Hx)%list_elem_of_bind. apply elem_of_seqZ in Ha. apply elem_of_seqZ.
      pose proof (live_place m live ctxs x HM Hx) as (? & ? & ? & ? & ? & ?). unfold sa. lia. }
  apply submseteq_length in Hsub. rewrite length_seqZ in Hsub. pose proof (sw_size _ (si_wf _ (mi_sa _ _ _ HM))). unfold sa in *. lia.
Qed.

(** Addresses tell live allocations apart, and slabs tell contexts apart. *)
Lemma drop_live_perm m live ctxs x : MInv m live ctxs -> x ∈ live -> live ≡ₚ x :: drop_live x live.
Proof.
  intros HM [l1 [l2 ->]]%list_elem_of_split. rewrite <- Permutation_middle in HM.
  etrans; [symmetry; apply Permutation_middle|]. apply Permutation_skip.
  assert (Hne : forall y, y ∈ l1 ++ l2 -> lv_addr y <> lv_addr x).
  { intros y [k1 [k2 E]]%list_elem_of_split Eq. rewrite E, <- Permutation_middle in HM.
    pose proof (live_place m _ ctxs x HM ltac:(left)) as (? & _). pose proof (live_place m _ ctxs y HM ltac:(right; left)) as (? & _).
    pose proof (live_apart m x y _ ctxs HM). lia. }
  unfold drop_live. rewrite list.filter_app, filter_cons_False by (by intros []). rewrite <- list.filter_app.
  by rewrite filter_all by exact Hne.
Qed.

Lemma drop_ctx_perm m live ctxs ctx : MInv m live ctxs -> ctx ∈ ctxs -> ctxs ≡ₚ ctx :: drop_ctx ctx ctxs.
Proof.
  intros HM [l1 [l2 ->]]%list_elem_of_split. pose proof (mi_ctx_nodup _ _ _ HM) as ND. rewrite <- Permutation_middle in ND.
  etrans; [symmetry; apply Permutation_middle|]. apply Permutation_skip. simpl in ND. apply list.NoDup_cons in ND as [Hni _].
  unfold drop_ctx. rewrite list.filter_app, filter_cons_False by (by intros []). rewrite <- list.filter_app.
  rewrite filter_all; [done|]. intros c Hc E. apply Hni. rewrite <- E. by apply list_elem_of_fmap_2.
Qed.

(** ** Calls *)

Lemma hold_ok m live ctxs id c x : x <> 0 -> MInv m (mkLive id c x :: live) ctxs -> hold m (inr x) live = mkLive id c x :: live.
Proof.
  intros Hx HM. unfold hold. rewrite (proj2 (Z.eqb_neq x 0)) by done.
  destruct (live_info m _ ctxs (mkLive id c x) HM ltac:(left)) as (_ & ac & _ & _ & _ & _ & _ & Ei & _). simpl in Ei. by rewrite Ei.
Qed.

(** Every call a client may make returns, and keeps the invariant. *)
Lemma exec_ok w c : WInv w -> permitted w c ->
  exists w', exec c w = Some w' /\ WInv w' /\ same_frame (slabAllocator_ (w_ma w)) (slabAllocator_ (w_ma w')).
Proof.
  unfold WInv. intros HM Hc. destruct w as [m live ctxs].
  assert (Hfr : forall m', shape m' = shape m -> same_frame (slabAllocator_ m) (slabAllocator_ m')) by (intros m' [= _ _ E1 E2 _]; by split).
  destruct c; cbn [exec w_ma w_live w_ctxs permitted] in *.
  - destruct (runs_elim _ _ _ (ma_allocate_ok m live ctxs id size HM Hc)) as (r & m' & -> & Hsh & Hcase). eexists. split; [done|]. cbn.
    split; [|by apply Hfr]. destruct Hcase as [(-> & HM' & _)|(p & ac & _ & _ & _ & [(-> & _ & _ & HM')|(x & -> & Hx & _ & HM')])]; [done|done|].
    by rewrite (hold_ok m' live ctxs id _ x Hx HM').
  - pose proof (drop_live_perm m live ctxs x HM Hc) as HP. rewrite HP in HM.
    destruct (runs_elim _ _ _ (ma_free_ok m _ ctxs x HM)) as (r & m' & -> & -> & Hsh & HM'). eexists. split; [done|]. split; [done|by apply Hfr].
  - destruct Hc as [Hs Hl]. destruct (runs_elim _ _ _ (addPool_ok m live ctxs name size allocSizes ensureProvisionable HM Hs Hl)) as (r & m' & -> & Hcase).
    eexists. split; [done|]. cbn. destruct Hcase as [(e & _ & ->)|(_ & HM' & _ & -> & _)]; done.
  - destruct (runs_elim _ _ _ (resizePools_ok m live ctxs src dest bytes HM Hc)) as (r & m' & -> & HM' & Hcase). eexists. split; [done|].
    split; [done|]. destruct Hcase as [[-> _]|(_ & _ & p & q & _ & _ & _ & ->)]; done.
  - destruct (runs_elim _ _ _ (shrinkPool_ok m live ctxs id bytes HM Hc)) as (r & m' & -> & HM' & Hcase). eexists. split; [done|].
    split; [done|]. destruct Hcase as [[-> _]|(_ & p & _ & _ & ->)]; done.
  - destruct (runs_elim _ _ _ (growPool_ok m live ctxs id bytes HM Hc)) as (r & m' & -> & HM' & Hcase). eexists. split; [done|].
    split; [done|]. destruct Hcase as [[-> _]|(_ & p & _ & _ & ->)]; done.
  - destruct Hc as [Hv Hr]. destruct (runs_elim _ _ _ (ma_start_ok m live ctxs rnd id victim receiver mode hint HM Hv Hr)) as (r & m' & -> & Hsh & Hcase).
    pose proof (Hfr m' Hsh). destruct Hcase as [(-> & HM')|(ctx & -> & [(-> & HM' & _)|(-> & HM' & _)])]; by eexists.
  - pose proof (drop_ctx_perm m live ctxs ctx HM Hc) as HP. pose proof HM as HM0. rewrite HP in HM.
    destruct (runs_elim _ _ _ (ma_complete_ok m live _ ctx HM)) as (r & m' & -> & Hsh & Hcase). pose proof (Hfr m' Hsh).
    destruct Hcase as [(-> & -> & _)|(-> & HM' & _)]; by eexists.
  - pose proof (drop_ctx_perm m live ctxs ctx HM Hc) as HP. rewrite HP in HM.
    destruct (runs_elim _ _ _ (ma_abort_ok m live _ ctx HM)) as (r & m' & -> & -> & Hsh & HM'). eexists. split; [done|]. split; [done|by apply Hfr].
Qed.

Lemma reach_inv w w' : WInv w -> reach w w' -> WInv w' /\ same_frame (slabAllocator_ (w_ma w)) (slabAllocator_ (w_ma w')).
Proof.
  intros HW. induction 1 as [|w1 w2 c _ [IH [E1 E2]] Hp He]; [done|]. destruct (exec_ok w1 c IH Hp) as (w3 & He' & HW' & [E3 E4]).
  rewrite He in He'. injection He' as <-. split; [done|]. split; congruence.
Qed.

(** A memory allocator fresh from its constructor, nothing handed out. *)
Definition fresh (config : list Z) (hs : list SlabHeader) (hsize start size : Z) (w : World) : Prop :=
  0 <= start /\ 0 <= size < 2 ^ 32 * kSize /\ start + size < 2 ^ 64 /\ size <= kSize * Z.of_nat (length hs) /\
  exists m, MemoryAllocator_new config (Some hs) hsize start size = inr m /\ w = mkWorld m [] [].

Lemma fresh_inv config hs hsize start size w0 w : fresh config hs hsize start size w0 -> reach w0 w ->
  MInv (w_ma w) (w_live w) (w_ctxs w) /\
  slabMemoryStart_ (slabAllocator_ (w_ma w)) = start /\ slabMemorySize_ (slabAllocator_ (w_ma w)) = size.
Proof.
  intros (H1 & H2 & H3 & H4 & m & Hm & ->) Hr. destruct (MemoryAllocator_new_ok config hs hsize start size m H1 H2 H3 H4 Hm) as [HM Hsh].
  injection Hsh as _ _ E1 E2 _. destruct (reach_inv (mkWorld m [] []) w HM Hr) as [HW [E3 E4]]. cbn in *. split; [done|]. split; congruence.
Qed.

(** Sequences of calls. *)
Fixpoint exec_all (cs : list Call) (w : World) : option World :=
  match cs with
  | [] => Some w
  | c :: cs => match exec c w with Some w' => exec_all cs w' | None => None end
  end.

(** [permitted], decided. *)
Definition class_argb (m : MemoryAllocator) (id c : Z) : bool :=
  (c =? kInvalidClassId) ||
  match aget (pools_ m) id with Some p => (0 <=? c) && (c <? Z.of_nat (length (ac_vec p))) | None => true end.

#[export] Instance ctx_eq : EqDecision SlabReleaseContext.
Proof. solve_decision. Defined.

Definition permittedb (w : World) (c : Call) : bool :=
  match c with
  | Allocate _ size => 0 <=? size
  | Free x => bool_decide (x ∈ w_live w)
  | AddPool _ size sizes _ =>
      (0 <=? size) && bool_decide (length (if bool_decide (sizes = []) then config_ (w_ma w) else sizes) <= 127)%nat
  | ResizePools _ _ bytes | ShrinkPool _ bytes | GrowPool _ bytes => 0 <=? bytes
  | StartSlabRelease _ id victim receiver _ _ => class_argb (w_ma w) id victim && class_argb (w_ma w) id receiver
  | CompleteSlabRelease ctx | AbortSlabRelease ctx => bool_decide (ctx ∈ w_ctxs w)
  end.

Lemma class_argb_ok m id c : class_argb m id c = true -> class_arg m id c.
Proof.
  unfold class_argb. intros [H|H]%orb_true_iff; [left; by apply Z.eqb_eq|right]. intros p Hp. rewrite Hp in H.
  apply andb_true_iff in H as [? ?]. zbool. lia.
Qed.

Lemma permittedb_ok w c : permittedb w c = true -> permitted w c.
Proof.
  destruct c; simpl; rewrite ?andb_true_iff, ?Z.leb_le, ?bool_decide_eq_true; try done.
  intros [? ?]. split; by apply class_argb_ok.
Qed.

Fixpoint run_calls (cs : list Call) (w : World) : option World :=
  match cs with
  | [] => Some w
  | c :: cs => if permittedb w c then match exec c w with Some w' => run_calls cs w' | None => None end else None
  end.

Lemma run_calls_reach cs w0 w w' : reach w0 w -> run_calls cs w = Some w' -> reach w0 w'.
Proof.
  revert w. induction cs as [|c cs IH]; intros w Hr H; simpl in H; [by injection H as <-|].
  destruct (permittedb w c) eqn:Ep; [|done]. destruct (exec c w) as [w1|] eqn:Ee; [|done].
  eapply IH; [|exact H]. eapply reach_call; [exact Hr|by apply permittedb_ok|done].
Qed.

(** The client frees allocations it holds. *)
Lemma exec_frees xs w : WInv w -> NoDup xs -> (forall x, x ∈ xs -> x ∈ w_live w) ->
  exists w', exec_all (Free <$> xs) w = Some w' /\ WInv w' /\ w_ctxs w' = w_ctxs w /\
    (forall y, y ∈ w_live w' <-> y ∈ w_live w /\ y ∉ xs).
Proof.
  revert w. induction xs as [|x xs IH]; intros w HW ND Hin; cbn [exec_all fmap list_fmap].
  { exists w. split_and!; try done. set_solver. }
  apply list.NoDup_cons in ND as [Hx ND]. pose proof (Hin x ltac:(left)) as Hxl.
  destruct (exec_ok w (Free x) HW Hxl) as (w1 & E1 & HW1 & _). rewrite E1.
  assert (Hl1 : w_ctxs w1 = w_ctxs w /\ forall y, y ∈ w_live w1 <-> y ∈ w_live w /\ y <> x).
  { pose proof (drop_live_perm _ _ _ x HW Hxl) as HP. pose proof (live_NoDup _ _ _ HW) as NDl. rewrite HP in NDl.
    apply list.NoDup_cons in NDl as [Hnd _]. cbn [exec] in E1. destruct (ma_free _ _) as [[r m']|]; [|done]. injection E1 as <-. cbn [w_live w_ctxs].
    split; [done|]. intros y. rewrite HP at 2. rewrite elem_of_cons. split; [intros Hy; split; [by right|]; by intros ->|]. by intros [[-> |Hy] Hn]. }
  destruct Hl1 as [Ec1 Hl1]. destruct (IH w1 HW1 ND) as (w' & E' & HW' & Ec & Hl).
  { intros y Hy. apply Hl1. split; [apply Hin; by right|]. by intros ->. }
  exists w'. split; [done|]. split; [done|]. split; [congruence|]. intros y. rewrite Hl, Hl1. set_solver.
Qed.

End SlabClient.
