(* ===== verification/BufAlloc.v ===== *)
(** * BufAlloc: buffer allocators

    [BufferAllocator] is the virtual base class of allocator.h: what the
    segment manager, the allocation strategy and the master call.
    [BufferAllocatorLaws] is the contract they rely on.  Module [OffsetBuffer]
    models [OffsetBufferAllocator] of src/allocator.cpp on top of
    [OffsetAllocator] and proves the contract. *)

From Stdlib Require Import ZArith Lia.
From stdpp Require Import base list strings numbers relations.
From S2P Require Import Prelude Types SmallFloat OffsetAlloc OffsetBins OffsetOps OffsetClient OffsetWrapper.
Import Types.

Open Scope moon_scope.
Open Scope Z_scope.

(** [A] is the state of an allocator object, [H] the RAII handle stored in an
    allocated buffer.  The outer [option] of every operation is undefined
    behaviour; [ba_create] answers [Some None] when the constructor throws. *)
Class BufferAllocator (A H : Type) : Type := {
  ba_create : string -> Z -> Z -> option (option A);
  ba_allocate : Z -> ST A (option (Z * H));
  ba_deallocate : H -> Z -> ST A unit;
  ba_base : A -> Z;
  ba_capacity : A -> Z;
  ba_size : A -> Z;
  ba_name : A -> string;
}.

(** An outstanding buffer: address, size, handle. *)
Definition Out (H : Type) : Type := (Z * Z * H)%type.
Definition out_total {H} (l : list (Out H)) : Z := foldr (fun x n => x.1.2 + n) 0 l.
Definition same_object {A H} `{BufferAllocator A H} (a a' : A) : Prop :=
  ba_base a' = ba_base a /\ ba_capacity a' = ba_capacity a /\ ba_name a' = ba_name a.

(** The contract: the invariant relates an allocator to its outstanding
    buffers, whose order is irrelevant; operations never fail on admissible
    arguments, buffers are disjoint ranges of the segment and the reported
    size is the sum of theirs. *)
Class BufferAllocatorLaws (A H : Type) `{BufferAllocator A H} : Type := {
  ba_inv : A -> list (Out H) -> Prop;
  ba_inv_perm : forall a l l', l ≡ₚ l' -> ba_inv a l -> ba_inv a l';
  ba_create_ok : forall n base size, 0 < base -> 0 < size -> base + size < 2 ^ 64 ->
    ba_create n base size = Some None \/
    exists a, ba_create n base size = Some (Some a) /\ ba_inv a [] /\
      ba_base a = base /\ ba_capacity a = size /\ ba_name a = n;
  ba_allocate_ok : forall a l size, ba_inv a l -> 0 <= size <= kMaxSliceSize ->
    exists r a', ba_allocate size a = Some (r, a') /\ same_object a a' /\
      match r with
      | Some (p, h) => ba_inv a' ((p, size, h) :: l)
      | None => ba_inv a' l
      end;
  ba_deallocate_ok : forall a l1 l2 p size h, ba_inv a (l1 ++ (p, size, h) :: l2) ->
    exists a', ba_deallocate h size a = Some (tt, a') /\ same_object a a' /\ ba_inv a' (l1 ++ l2);
  ba_bounds : forall a l x, ba_inv a l -> x ∈ l ->
    ba_base a <= x.1.1 /\ 0 <= x.1.2 /\ x.1.1 + x.1.2 <= ba_base a + ba_capacity a;
  ba_disjoint : forall a l i j x y, ba_inv a l -> i <> j -> l !! i = Some x -> l !! j = Some y ->
    x.1.1 + x.1.2 <= y.1.1 \/ y.1.1 + y.1.2 <= x.1.1;
  ba_size_exact : forall a l, ba_inv a l -> ba_size a = out_total l;
}.

(** ** OffsetBufferAllocator *)

Module OffsetBuffer.
Import SmallFloat Alloc Ops Client Wrapper.

Record OffsetBufferAllocator : Type := mkOBA {
  ob_segment_name : string;
  ob_base : Z;
  ob_total_size : Z;
  ob_cur_size : Z;
  offset_allocator_ : OffsetAllocator;
}.

Definition init_capacity_of (size : Z) : Z := Z.min (Z.max (size / 4096) 1024) (64 * 1024).
Definition max_capacity_of (size : Z) : Z := Z.min (Z.max (size / 1024) (1024 * 1024)) (64 * 1024 * 1024).

Definition ob_create (name : string) (base size : Z) : option (option OffsetBufferAllocator) :=
  match create base size (u32 (init_capacity_of size)) (u32 (max_capacity_of size)) with
  | Some o => Some (Some (mkOBA name base size 0 o))
  | None => None
  end.

Definition set_ob o c b := mkOBA (ob_segment_name b) (ob_base b) (ob_total_size b) c o.

Definition ob_allocate (size : Z) : ST OffsetBufferAllocator (option (Z * Handle)) := fun b =>
  match allocate size (offset_allocator_ b) with
  | Some (Some h, o) => Some (Some (real_base h, h), set_ob o (u64 (ob_cur_size b + size)) b)
  | Some (None, o) => Some (None, set_ob o (ob_cur_size b) b)
  | None => None
  end.

(** [handle->offset_handle_.reset()] runs the handle's destructor. *)
Definition ob_deallocate (h : Handle) (size : Z) : ST OffsetBufferAllocator unit := fun b =>
  match handle_dtor h (offset_allocator_ b) with
  | Some (_, o) => Some (tt, set_ob o (u64 (ob_cur_size b - size)) b)
  | None => None
  end.

#[export] Instance offset_buffer : BufferAllocator OffsetBufferAllocator Handle := {
  ba_create := ob_create;
  ba_allocate := ob_allocate;
  ba_deallocate := ob_deallocate;
  ba_base := ob_base;
  ba_capacity := ob_total_size;
  ba_size := ob_cur_size;
  ba_name := ob_segment_name;
}.

(** An outstanding buffer of the class is the handle it holds. *)
Definition out_wf (x : Out Handle) : Prop := x.1.1 = real_base x.2 /\ x.1.2 = requested_size x.2.

Definition ob_inv (b : OffsetBufferAllocator) (l : list (Out Handle)) : Prop :=
  WInv (mkWSys (offset_allocator_ b) (snd <$> l)) /\ Forall out_wf l /\
  ob_base b = m_base (offset_allocator_ b) /\ ob_total_size b = m_capacity (offset_allocator_ b) /\
  ob_cur_size b = out_total l.

Lemma out_total_requested l : Forall out_wf l -> out_total l = requested_total (snd <$> l).
Proof.
  induction 1 as [|x l [_ Hx] _ IH]; [done|]. rewrite fmap_cons. unfold out_total, requested_total in *. simpl. lia.
Qed.

Lemma requested_total_perm hs hs' : hs ≡ₚ hs' -> requested_total hs = requested_total hs'.
Proof. induction 1; unfold requested_total in *; simpl in *; lia. Qed.

Lemma WInv_perm o hs hs' : hs ≡ₚ hs' -> WInv (mkWSys o hs) -> WInv (mkWSys o hs').
Proof.
  intros HP [(a & Ea & HI & Hm) Hb Hf Hc Hbs HF Hs Hn]. simpl in *. split; simpl; try done.
  - exists a. split_and!; try done. eapply Inv_proper_live; [|exact HI]. by rewrite HP.
  - by rewrite <- HP.
  - by rewrite <- (requested_total_perm _ _ HP).
  - by rewrite <- HP.
Qed.

Lemma WInv_requested_bound o hs : WInv (mkWSys o hs) -> 0 <= requested_total hs < 2 ^ 64.
Proof.
  intros [(a & _ & HI & Hm) Hb _ Hc _ HF _ _]. simpl in *.
  pose proof (requested_bound o hs a HF Hb (proj1 Hc) HI Hm). lia.
Qed.

Lemma capacities size : 0 <= size ->
  0 < init_capacity_of size <= max_capacity_of size /\ max_capacity_of size < 2 ^ 32.
Proof. intros Hs. unfold init_capacity_of, max_capacity_of. lia. Qed.

Lemma ob_create_ok n base size : 0 < base -> 0 < size -> base + size < 2 ^ 64 ->
  exists b, ob_create n base size = Some (Some b) /\ ob_inv b [] /\
    ob_base b = base /\ ob_total_size b = size /\ ob_segment_name b = n.
Proof.
  intros Hb Hs Hbs. destruct (capacities size ltac:(lia)) as [Hic Hmc]. unfold ob_create.
  rewrite !u32_small by lia.
  destruct (create_WInv base size _ _ Hic Hmc ltac:(lia) ltac:(lia) ltac:(lia)) as (o & -> & HW & E1 & E2).
  eexists. split; [reflexivity|]. split; [|done]. split_and!; try done.
Qed.

Lemma ob_allocate_ok b l size : ob_inv b l -> 0 <= size <= kMaxSliceSize ->
  exists r b', ob_allocate size b = Some (r, b') /\ same_object b b' /\
    match r with Some (p, h) => ob_inv b' ((p, size, h) :: l) | None => ob_inv b' l end.
Proof.
  intros (HW & HF & E1 & E2 & E3) Hs. pose proof (wi_bits _ HW) as Hbits. simpl in Hbits.
  destruct (WInv_allocate _ size HW) as (r & o' & Hrun & (F1 & F2 & F3) & Hreq & HW'); [lia| |].
  { simpl. pose proof (Z.pow_le_mono_r 2 (m_multiplier_bits (offset_allocator_ b)) 33 ltac:(lia) ltac:(lia)).
    unfold kMaxSliceSize, Slab_kSize in Hs. lia. }
  simpl in *. unfold ob_allocate. rewrite Hrun. destruct r as [h|].
  - do 2 eexists. split; [reflexivity|]. split; [done|]. specialize (Hreq h eq_refl).
    assert (HF' : Forall out_wf ((real_base h, size, h) :: l)) by (by constructor).
    pose proof (WInv_requested_bound _ _ HW') as Hb. rewrite <- Hreq in *.
    split_and!; simpl; try congruence; try done.
    change (out_total (?x :: l)) with (x.1.2 + out_total l). simpl.
    rewrite E3, (out_total_requested _ HF). unfold requested_total in *. simpl in Hb. rewrite u64_small; lia.
  - do 2 eexists. split; [reflexivity|]. split; [done|]. split_and!; simpl; congruence || done.
Qed.

Lemma ob_deallocate_ok b l1 l2 p size h : ob_inv b (l1 ++ (p, size, h) :: l2) ->
  exists b', ob_deallocate h size b = Some (tt, b') /\ same_object b b' /\ ob_inv b' (l1 ++ l2).
Proof.
  intros (HW & HF & E1 & E2 & E3). rewrite fmap_app, fmap_cons in HW. simpl in HW.
  apply Forall_app in HF as [HF1 HF2]. apply Forall_cons in HF2 as [[Hp Hsz] HF2]. simpl in Hp, Hsz.
  destruct (WInv_free _ h _ _ HW eq_refl) as (o' & Hrun & (F1 & F2 & F3) & HW'). simpl in Hrun, F1, F2, F3.
  unfold ob_deallocate. rewrite Hrun. eexists. split; [reflexivity|]. split; [done|].
  rewrite <- fmap_app in HW'. pose proof (WInv_requested_bound _ _ HW') as Hb.
  assert (HF : Forall out_wf (l1 ++ l2)) by (by apply Forall_app).
  rewrite <- (out_total_requested _ HF) in Hb.
  assert (Hsplit : forall x, out_total (l1 ++ x :: l2) = x.1.2 + out_total (l1 ++ l2)).
  { intros x. unfold out_total. rewrite !foldr_app. simpl.
    clear. induction l1 as [|y l1 IH]; simpl; [done|]. rewrite IH. lia. }
  split_and!; simpl; try congruence; try done. rewrite E3, Hsplit. simpl. rewrite u64_small; lia.
Qed.

#[export] Instance offset_buffer_laws : BufferAllocatorLaws OffsetBufferAllocator Handle.
Proof.
  refine {| ba_inv := ob_inv |}.
  - intros b l l' HP (HW & HF & E1 & E2 & E3). split_and!; try done.
    + eapply WInv_perm; [|exact HW]. by rewrite HP.
    + by rewrite <- HP.
    + rewrite E3, (out_total_requested _ HF), out_total_requested by (by rewrite <- HP).
      apply requested_total_perm. by rewrite HP.
  - intros n base size H1 H2 H3. right. by apply ob_create_ok.
  - intros b l size. apply ob_allocate_ok.
  - intros b l1 l2 p size h. apply ob_deallocate_ok.
  - intros b l [[p s] h] (HW & HF & E1 & E2 & _) Hx. rewrite Forall_forall in HF.
    destruct (HF _ Hx) as [Ep Es]. simpl in *. rewrite E1, E2, Ep, Es.
    destruct (WInv_regions _ HW) as [Hr _]. destruct (Hr h) as (? & ? & ?); [|simpl in *; lia].
    simpl. apply list_elem_of_fmap. by exists (p, s, h).
  - intros b l i j [[p1 s1] h1] [[p2 s2] h2] (HW & HF & _) Hij H1 H2. rewrite Forall_forall in HF.
    destruct (HF _ (list_elem_of_lookup_2 _ _ _ H1)) as [Ep1 Es1].
    destruct (HF _ (list_elem_of_lookup_2 _ _ _ H2)) as [Ep2 Es2]. simpl in *. subst.
    destruct (WInv_regions _ HW) as [_ Hd]. apply (Hd i j h1 h2 Hij).
    + exact (eq_trans (list_lookup_fmap snd l i) (f_equal (fmap snd) H1)).
    + exact (eq_trans (list_lookup_fmap snd l j) (f_equal (fmap snd) H2)).
  - intros b l (_ & _ & _ & _ & E). exact E.
Qed.

End OffsetBuffer.
