(* ===== verification/SlabBuffer.v ===== *)
(** * SlabBuffer: CachelibBufferAllocator

    [CachelibBufferAllocator] of src/allocator.cpp: a memory allocator with
    one pool over the segment.  It is the second implementation of the
    interface [BufferAllocator] and satisfies its contract. *)

From Stdlib Require Import ZArith Lia.
From stdpp Require Import base list gmap strings numbers.
From S2P Require Import Prelude Types Slab SlabClass SlabPool SlabMemory SlabInv SlabOps SlabPoolInv SlabPoolOps SlabPoolRelease SlabSys SlabAdmin SlabClient BufAlloc.
Import Types Slab SlabClass SlabPool SlabMemory SlabFacts SlabOps SlabPoolInv SlabSys SlabAdmin SlabClient.

Open Scope moon_scope.
Open Scope Z_scope.

Module CachelibBuffer.

Record CachelibBufferAllocator : Type := mkCBA {
  cb_segment_name : string;
  cb_base : Z;
  cb_total_size : Z;
  cb_cur_size : Z;
  memory_allocator_ : MemoryAllocator;
  pool_id_ : Z;
}.

(** The header region: [make_unique<char[]>] zeroes it. *)
Definition header_region_size (size : Z) : Z := u64 (sizeof_SlabHeader * u32 (size / kSize) + 1).
Definition header_region (size : Z) : list SlabHeader :=
  replicate (Z.to_nat (header_region_size size / sizeof_SlabHeader)) (mkHeader 0 0 0 0).

(** A memory allocator with the default classes and one pool over a region. *)
Definition main_allocator (base size : Z) : option (Res (MemoryAllocator * Z)) :=
  match default_sizes with
  | Undefined | NoFuel => None
  | Done (inl e) => Some (inl e)
  | Done (inr sizes) =>
      match MemoryAllocator_new sizes (Some (header_region size)) (header_region_size size) base size with
      | inl e => Some (inl e)
      | inr m =>
          match addPool "main" size [] false m with
          | None => None
          | Some (inl e, _) => Some (inl e)
          | Some (inr id, m') => Some (inr (m', id))
          end
      end
  end.

(** The constructor; what it throws is not told apart. *)
Definition cb_create (name : string) (base size : Z) : option (option CachelibBufferAllocator) :=
  match main_allocator base size with
  | None => None
  | Some (inl _) => Some None
  | Some (inr (m, id)) => Some (Some (mkCBA name base size 0 m id))
  end.

(** The handle of a buffer is its address. *)
Definition cb_allocate (size : Z) : ST CachelibBufferAllocator (option (Z * Z)) := fun b =>
  let padding_size := Z.max size kMinSliceSize in
  match ma_allocate (pool_id_ b) (u32 padding_size) (memory_allocator_ b) with
  | None => None
  | Some (r, m) =>
      let b' c := mkCBA (cb_segment_name b) (cb_base b) (cb_total_size b) c m (pool_id_ b) in
      match r with
      | inl _ => Some (None, b' (cb_cur_size b))
      | inr buffer =>
          if buffer =? 0 then Some (None, b' (cb_cur_size b))
          else Some (Some (buffer, buffer), b' (u64 (cb_cur_size b + size)))
      end
  end.

Definition cb_deallocate (buffer_ptr size : Z) : ST CachelibBufferAllocator unit := fun b =>
  match ma_free buffer_ptr (memory_allocator_ b) with
  | None => None
  | Some (r, m) =>
      let b' c := mkCBA (cb_segment_name b) (cb_base b) (cb_total_size b) c m (pool_id_ b) in
      match r with
      | inl _ => Some (tt, b' (cb_cur_size b))
      | inr _ => Some (tt, b' (u64 (cb_cur_size b - size)))
      end
  end.

#[export] Instance cachelib_buffer : BufferAllocator CachelibBufferAllocator Z := {
  ba_create := cb_create;
  ba_allocate := cb_allocate;
  ba_deallocate := cb_deallocate;
  ba_base := cb_base;
  ba_capacity := cb_total_size;
  ba_size := cb_cur_size;
  ba_name := cb_segment_name;
}.

(** ** Invariant *)

(** The class sizes of the default configuration. *)
Definition class_sizes : list Z := Eval cbv in match default_sizes with Done (inr l) => l | _ => [] end.
Definition class_of (size : Z) : Z := lower_bound class_sizes (Z.max size kMinSliceSize).
Definition live_out (id : Z) (x : Out Z) : Live := mkLive id (class_of x.1.2) x.2.

Record cb_inv (b : CachelibBufferAllocator) (l : list (Out Z)) : Prop := mkCbInv {
  cv_mem : MInv (memory_allocator_ b) (live_out (pool_id_ b) <$> l) [];
  cv_pool : exists p, aget (pools_ (memory_allocator_ b)) (pool_id_ b) = Some p /\ acSizes_ p = class_sizes;
  cv_base : slabMemoryStart_ (slabAllocator_ (memory_allocator_ b)) = cb_base b;
  cv_total : slabMemorySize_ (slabAllocator_ (memory_allocator_ b)) = cb_total_size b;
  cv_out : forall x, x ∈ l -> x.1.1 = x.2 /\ 0 <= x.1.2 <= kMaxSliceSize;
  cv_size : cb_cur_size b = out_total l;
}.

Lemma default_sizes_eq : default_sizes = Done (inr class_sizes).
Proof. vm_compute. reflexivity. Qed.
Lemma class_sizes_length : length class_sizes = 53%nat.
Proof. vm_compute. reflexivity. Qed.
Lemma class_sizes_max : kSize ∈ class_sizes.
Proof. apply list_elem_of_In. vm_compute. tauto. Qed.
Lemma class_sizes_ok : sizes_ok class_sizes = true.
Proof. vm_compute. reflexivity. Qed.
#[local] Opaque default_sizes.

(** A buffer fits the class it is taken from. *)
Lemma live_fits b l x : cb_inv b l -> x ∈ l -> x.1.2 <= live_size (memory_allocator_ b) (live_out (pool_id_ b) x).
Proof.
  intros HI Hx. destruct (cv_pool _ _ HI) as (p & Hp & Es). destruct (cv_out _ _ HI x Hx) as (_ & Hs).
  destruct (live_info _ _ _ (live_out (pool_id_ b) x) (cv_mem _ _ HI)) as (q & ac & Hq & _ & Ha & _ & _ & _ & ->).
  { by apply list_elem_of_fmap_2. }
  simpl in Hq. rewrite Hp in Hq. injection Hq as <-. rewrite Es in Ha. simpl in Ha.
  destruct (lower_bound_spec class_sizes (Z.max x.1.2 kMinSliceSize)) as (y & Hy & Hle & _).
  { exists kSize. split; [apply class_sizes_max|]. unfold kMaxSliceSize, Slab_kSize, kMinSliceSize in *. rewrite kSize_eq. lia. }
  unfold class_of in Ha. rewrite Hy in Ha. injection Ha as <-. lia.
Qed.

Lemma out_total_live b l : cb_inv b l -> 0 <= out_total l < 2 ^ 64.
Proof.
  intros HI. pose proof (live_total_bound _ _ _ (cv_mem _ _ HI)) as Hb.
  pose proof (sw_size _ (si_wf _ (mi_sa _ _ _ (cv_mem _ _ HI)))) as (_ & _ & ?). pose proof (sw_start _ (si_wf _ (mi_sa _ _ _ (cv_mem _ _ HI)))).
  assert (Hle : forall k, (forall x, x ∈ k -> x ∈ l) ->
    0 <= out_total k <= live_total (memory_allocator_ b) (live_out (pool_id_ b) <$> k)); [|specialize (Hle l ltac:(done)); lia].
  induction k as [|x k IH]; intros Hin; [done|]. specialize (IH (fun y Hy => Hin y (list_elem_of_further _ _ _ Hy))).
  pose proof (live_fits b l x HI (Hin x ltac:(left))). destruct (cv_out _ _ HI x (Hin x ltac:(left))) as [_ ?].
  rewrite fmap_cons. unfold live_total, out_total in *. simpl. lia.
Qed.

Lemma out_total_middle {H} (l1 l2 : list (Out H)) x : out_total (l1 ++ x :: l2) = x.1.2 + out_total (l1 ++ l2).
Proof. unfold out_total. rewrite !foldr_app. simpl. induction l1 as [|y l1 IH]; simpl; [done|]. rewrite IH. lia. Qed.

(** ** Creation *)

(** The constructor throws unless the segment is aligned to slabs and has
    fewer than 2^32 of them. *)
Definition slab_aligned (base size : Z) : bool :=
  (base mod kSize =? 0) && (size mod kSize =? 0) && (size <? 2 ^ 32 * kSize).

Lemma header_size_ok size : 0 <= size -> header_region_size size = sizeof_SlabHeader * u32 (size / kSize) + 1.
Proof. intros Hs. unfold header_region_size, sizeof_SlabHeader. pose proof (u32_range (size / kSize)). rewrite u64_small by lia. done. Qed.

Lemma header_region_length size : 0 <= size < 2 ^ 32 * kSize -> size <= kSize * Z.of_nat (length (header_region size)) \/ size mod kSize <> 0.
Proof.
  intros Hs. unfold header_region. rewrite length_replicate, header_size_ok by lia. unfold sizeof_SlabHeader.
  assert (0 <= size / kSize < 2 ^ 32) by mlia. rewrite u32_small by lia.
  assert ((7 * (size / kSize) + 1) / 7 = size / kSize) as ->.
  { rewrite (Z.add_comm (7 * _)), Z.mul_comm, Z.div_add by lia. rewrite Z.div_small by lia. lia. }
  rewrite Z2Nat.id by lia. destruct (decide (size mod kSize = 0)); [left; mlia|by right].
Qed.

(** A segment with too many slabs leaves no room for its pool. *)
Lemma addPool_too_large m name size : config_ m = class_sizes -> pools_ m = [] -> poolsByName_ m = ∅ -> 2 ^ 32 * kSize <= size ->
  addPool name size [] false m = Some (inl invalid_argument, m).
Proof.
  intros Ec Ep En Hs.
  cut (runs (addPool name size [] false) m (fun r m' => r = inl invalid_argument /\ m' = m)).
  { intros Hr. by destruct (runs_elim _ _ _ Hr) as (r & m' & -> & -> & ->). }
  unfold addPool. apply runs_gets. rewrite Ec, bool_decide_eq_true_2, class_sizes_length by done. cbn [andb].
  unfold createNewPool. apply runs_gets. rewrite En, lookup_empty. unfold nextPoolId_. rewrite Ep.
  unfold getRemainingSizeLocked. apply runs_bind, runs_gets. rewrite Ep. cbn [total_pool_size foldr].
  pose proof (u32_range ((getSlabMemoryEnd (slabAllocator_ m) - slabMemoryStart_ (slabAllocator_ m)) / kSize)) as Hn.
  unfold getNumUsableSlabs. set (n := u32 _) in *. rewrite kSize_eq in *. rewrite (u64_small (n * 16777216)) by lia.
  apply runs_xdcheck; [apply Z.leb_le; lia|]. apply runs_ret. rewrite Z.sub_0_r, u64_small by lia.
  rewrite (proj2 (Z.ltb_lt _ size)) by lia. apply (runs_ret (inl invalid_argument)). split; reflexivity.
Qed.

Lemma main_allocator_ok base size : 0 < base -> 0 < size -> base + size < 2 ^ 64 ->
  if slab_aligned base size then
    exists m id p, main_allocator base size = Some (inr (m, id)) /\ MInv m [] [] /\ aget (pools_ m) id = Some p /\
      acSizes_ p = class_sizes /\ maxSize_ p = size /\ slabMemoryStart_ (slabAllocator_ m) = base /\ slabMemorySize_ (slabAllocator_ m) = size
  else exists e, main_allocator base size = Some (inl e).
Proof.
  intros Hb Hs He. unfold main_allocator. rewrite default_sizes_eq. set (hs := header_region size).
  pose proof (header_size_ok size ltac:(lia)) as Ehs. pose proof (u32_range (size / kSize)).
  assert (Enew : MemoryAllocator_new class_sizes (Some hs) (header_region_size size) base size =
    if (base mod kSize =? 0) && (size mod kSize =? 0)
    then inr (mkMA class_sizes (mkSA (replicate 127 0) [] hs base size base true) [] ∅) else inl invalid_argument).
  { unfold MemoryAllocator_new, SlabAllocator_new, numSlabs. rewrite Ehs, u64_small by (unfold sizeof_SlabHeader; lia).
    rewrite (proj2 (Z.leb_gt _ _)), (proj2 (Z.eqb_neq base 0)), class_sizes_length by lia. cbn [orb].
    by destruct (base mod kSize =? 0), (size mod kSize =? 0). }
  unfold slab_aligned. destruct (base mod kSize =? 0) eqn:E1; [|rewrite Enew; by eexists].
  destruct (size mod kSize =? 0) eqn:E2; [|rewrite Enew; by eexists]. cbn [andb] in *.
  destruct (Z.ltb_spec size (2 ^ 32 * kSize)) as [Hlt|Hge]; rewrite Enew.
  2: { rewrite addPool_too_large by done. by eexists. }
  destruct (header_region_length size ltac:(lia)) as [Hlen|]; [|by apply Z.eqb_eq in E2]. fold hs in Hlen.
  destruct (MemoryAllocator_new_ok class_sizes hs (header_region_size size) base size _ ltac:(lia) ltac:(lia) He Hlen Enew) as [HM Hsh].
  set (m := mkMA class_sizes _ [] ∅) in *.
  assert (Hrem : remaining m = size) by (unfold remaining; simpl; lia).
  assert (Ecfg : (if bool_decide (([] : list Z) = []) then config_ m else []) = class_sizes) by (by rewrite bool_decide_eq_true_2).
  destruct (runs_elim _ _ _ (addPool_adds m [] [] "main" size [] HM ltac:(lia) ltac:(apply lookup_empty) ltac:(done)
    ltac:(rewrite Ecfg; exact class_sizes_ok))) as (r & m' & Erun & Er).
  destruct (runs_elim _ _ _ (addPool_ok m [] [] "main" size [] false HM ltac:(lia) ltac:(rewrite Ecfg, class_sizes_length; lia)))
    as (r' & m'' & Erun' & Hpost). rewrite Erun in Erun'. injection Erun' as <- <-. subst r. rewrite Erun. clear Erun Enew.
  destruct Hpost as [(e & Hr & _)|(_ & HM' & _ & Esa & p & Eps & Emx & Esz)]; [discriminate Hr|].
  assert (slabMemoryStart_ (slabAllocator_ m) = base /\ slabMemorySize_ (slabAllocator_ m) = size /\ pools_ m = []) as (Eb & Et & Epl)
    by (split_and!; reflexivity).
  rewrite Ecfg in Esz. clearbody m. do 3 eexists. split; [reflexivity|]. split; [exact HM'|].
  split; [|split; [exact Esz|]; split; [exact Emx|]; rewrite Esa; split; [exact Eb|exact Et]].
  rewrite Eps. unfold nextPoolId_. rewrite Epl. reflexivity.
Qed.

Lemma cb_create_ok name base size : 0 < base -> 0 < size -> base + size < 2 ^ 64 ->
  if slab_aligned base size then
    exists b, cb_create name base size = Some (Some b) /\ cb_inv b [] /\ cb_base b = base /\ cb_total_size b = size /\ cb_segment_name b = name
  else cb_create name base size = Some None.
Proof.
  intros Hb Hs He. pose proof (main_allocator_ok base size Hb Hs He) as H. unfold cb_create. destruct (slab_aligned base size).
  - destruct H as (m & id & p & -> & HM & Hp & Esz & _ & Eb & Et). eexists. split; [reflexivity|]. split; [|done].
    split; simpl; try done; [by exists p|]. by intros x ?%elem_of_nil.
  - by destruct H as [e ->].
Qed.

(** ** The contract *)

Lemma cb_allocate_ok b l size : cb_inv b l -> 0 <= size <= kMaxSliceSize ->
  exists r b', cb_allocate size b = Some (r, b') /\ same_object b b' /\
    match r with Some (p, h) => cb_inv b' ((p, size, h) :: l) | None => cb_inv b' l end.
Proof.
  intros HI Hs. pose proof HI as []. destruct cv_pool0 as (p & Hp & Esz). unfold cb_allocate.
  assert (Eu : u32 (Z.max size kMinSliceSize) = Z.max size kMinSliceSize).
  { apply u32_small. unfold kMaxSliceSize, Slab_kSize, kMinSliceSize in *. lia. }
  rewrite Eu. assert (0 <= Z.max size kMinSliceSize) as Hpos by lia.
  destruct (runs_elim _ _ _ (ma_allocate_ok _ _ _ (pool_id_ b) _ cv_mem0 Hpos)) as (r & m' & -> & Hsh & Hcase).
  destruct (shape_get _ _ _ p Hsh Hp) as (p' & Hp' & Esz' & _). injection Hsh as _ _ E1 E2 _.
  assert (Hnone : cb_inv (mkCBA (cb_segment_name b) (cb_base b) (cb_total_size b) (cb_cur_size b) m' (pool_id_ b)) l <->
    MInv m' (live_out (pool_id_ b) <$> l) []).
  { split; [by intros []|]. intros HM'. split; simpl; try done; try congruence. exists p'. split; congruence. }
  destruct Hcase as [(-> & HM' & _)|(q & ac & Hq & _ & _ & [(-> & _ & _ & HM')|(x & -> & Hx & _ & HM')])].
  - do 2 eexists. split; [done|]. split; [done|]. by apply Hnone.
  - do 2 eexists. split; [done|]. split; [done|]. by apply Hnone.
  - rewrite (proj2 (Z.eqb_neq x 0)) by done. do 2 eexists. split; [done|]. split; [done|].
    rewrite Hp in Hq. injection Hq as <-. rewrite Esz in HM'.
    set (b' c := mkCBA (cb_segment_name b) (cb_base b) (cb_total_size b) c m' (pool_id_ b)).
    assert (HI' : cb_inv (b' (out_total ((x, size, x) :: l))) ((x, size, x) :: l)).
    { split; simpl; try done; try congruence; [exists p'; split; congruence|].
      intros y [-> |Hy]%elem_of_cons; [done|by apply cv_out0]. }
    pose proof (out_total_live _ _ HI') as Hb. change (out_total ((x, size, x) :: l)) with (size + out_total l) in Hb.
    rewrite cv_size0, u64_small by lia. rewrite Z.add_comm. exact HI'.
Qed.

Lemma cb_deallocate_ok b (l1 l2 : list (Out Z)) p size h : cb_inv b (l1 ++ (p, size, h) :: l2) ->
  exists b', cb_deallocate h size b = Some (tt, b') /\ same_object b b' /\ cb_inv b' (l1 ++ l2).
Proof.
  intros HI. pose proof HI as []. destruct cv_pool0 as (q & Hq & Esz). unfold cb_deallocate.
  rewrite fmap_app, fmap_cons, <- Permutation_middle in cv_mem0. rewrite <- fmap_app in cv_mem0.
  change h with (lv_addr (live_out (pool_id_ b) (p, size, h))) at 1.
  destruct (runs_elim _ _ _ (ma_free_ok _ _ _ _ cv_mem0)) as (r & m' & -> & -> & Hsh & HM').
  destruct (shape_get _ _ _ q Hsh Hq) as (q' & Hq' & Esz' & _). injection Hsh as _ _ E1 E2 _.
  eexists. split; [done|]. split; [done|].
  set (b' c := mkCBA (cb_segment_name b) (cb_base b) (cb_total_size b) c m' (pool_id_ b)).
  assert (HI' : cb_inv (b' (out_total (l1 ++ l2))) (l1 ++ l2)).
  { split; simpl; try done; try congruence; [exists q'; split; congruence|].
    intros y Hy. apply cv_out0. set_solver. }
  pose proof (out_total_live _ _ HI') as Hb. pose proof (eq_trans cv_size0 (out_total_middle l1 l2 (p, size, h))) as Em. cbn [fst snd] in Em.
  assert (u64 (cb_cur_size b - size) = out_total (l1 ++ l2)) as ->; [|exact HI'].
  rewrite Em, Z.add_simpl_l. by apply u64_small.
Qed.

Lemma out_total_perm {H} (l l' : list (Out H)) : l ≡ₚ l' -> out_total l = out_total l'.
Proof. induction 1; unfold out_total in *; simpl in *; lia. Qed.

Lemma cb_bounds b l x : cb_inv b l -> x ∈ l -> cb_base b <= x.1.1 /\ 0 <= x.1.2 /\ x.1.1 + x.1.2 <= cb_base b + cb_total_size b.
Proof.
  intros HI Hx. destruct (cv_out _ _ HI x Hx) as [E Hs]. pose proof (live_fits b l x HI Hx).
  destruct (live_place _ _ _ (live_out (pool_id_ b) x) (cv_mem _ _ HI)) as (? & ? & ? & ? & ? & ?); [by apply list_elem_of_fmap_2|].
  rewrite (cv_base _ _ HI), (cv_total _ _ HI) in *. simpl in *. lia.
Qed.

Lemma cb_apart b l i j x y : cb_inv b l -> i <> j -> l !! i = Some x -> l !! j = Some y ->
  x.1.1 + x.1.2 <= y.1.1 \/ y.1.1 + y.1.2 <= x.1.1.
Proof.
  intros HI Hij Hx Hy. destruct (two_front l i j x y Hij Hx Hy) as [rest HP].
  pose proof (cv_mem _ _ HI) as HM. rewrite HP in HM. rewrite !fmap_cons in HM. apply live_apart in HM. simpl in HM.
  apply list_elem_of_lookup_2 in Hx, Hy. pose proof (live_fits b l x HI Hx). pose proof (live_fits b l y HI Hy).
  destruct (cv_out _ _ HI x Hx) as [-> _], (cv_out _ _ HI y Hy) as [-> _]. lia.
Qed.

#[export] Instance cachelib_buffer_laws : BufferAllocatorLaws CachelibBufferAllocator Z.
Proof.
  refine {| ba_inv := cb_inv |}.
  - intros b l l' HP []. split; try done.
    + by rewrite <- HP.
    + intros x Hx. rewrite <- HP in Hx. by apply cv_out0.
    + by rewrite <- (out_total_perm _ _ HP).
  - intros n base size H1 H2 H3. pose proof (cb_create_ok n base size H1 H2 H3) as H. destruct (slab_aligned base size); [by right|by left].
  - intros b l size. apply cb_allocate_ok.
  - intros b l1 l2 p size h. apply cb_deallocate_ok.
  - intros b l x. apply cb_bounds.
  - intros b l i j x y. apply cb_apart.
  - intros b l HI. apply (cv_size _ _ HI).
Qed.

End CachelibBuffer.

(** ** SimpleAllocator *)

Module SimpleBuffer.
Import CachelibBuffer.

(** [memory_allocator_] is not null once the constructor returned. *)
Record SimpleAllocator : Type := mkSimple {
  sm_base : Z;
  sm_memory_allocator : MemoryAllocator;
  sm_pool_id : Z;
}.

(** [region] is what [aligned_alloc] answers, [None] for a null pointer. *)
Definition simple_create (region : option Z) (size : Z) : option (option SimpleAllocator) :=
  match region with
  | None => Some None
  | Some base =>
      match main_allocator base size with
      | None => None
      | Some (inl _) => Some None
      | Some (inr (m, id)) => Some (Some (mkSimple base m id))
      end
  end.

Definition simple_allocate (size : Z) : ST SimpleAllocator Z := fun a =>
  let padding_size := Z.max size kMinSliceSize in
  match ma_allocate (sm_pool_id a) (u32 padding_size) (sm_memory_allocator a) with
  | None => None
  | Some (inl _, m) => Some (0, mkSimple (sm_base a) m (sm_pool_id a))
  | Some (inr ptr, m) => Some (ptr, mkSimple (sm_base a) m (sm_pool_id a))
  end.

Definition simple_deallocate (ptr size : Z) : ST SimpleAllocator unit := fun a =>
  if ptr =? 0 then Some (tt, a)
  else
    match ma_free ptr (sm_memory_allocator a) with
    | None => None
    | Some (_, m) => Some (tt, mkSimple (sm_base a) m (sm_pool_id a))
    end.

(** The allocator and the buffers in use. *)
Definition simple_inv (a : SimpleAllocator) (live : list Live) : Prop :=
  MInv (sm_memory_allocator a) live [] /\
  exists p, aget (pools_ (sm_memory_allocator a)) (sm_pool_id a) = Some p /\ acSizes_ p = class_sizes.

Lemma simple_create_ok base size : 0 < base -> 0 < size -> base + size < 2 ^ 64 -> slab_aligned base size = true ->
  exists a, simple_create (Some base) size = Some (Some a) /\ simple_inv a [].
Proof.
  intros Hb Hs He Hal. pose proof (main_allocator_ok base size Hb Hs He) as H. rewrite Hal in H.
  destruct H as (m & id & p & E & HM & Hp & Esz & _). unfold simple_create. rewrite E. clear E.
  eexists. split; [reflexivity|]. split; [exact HM|]. by exists p.
Qed.

(** The buffer is as large as the request modulo 2^32. *)
Lemma simple_allocate_ok a live size : simple_inv a live -> 0 <= size ->
  exists r a', simple_allocate size a = Some (r, a') /\
    (r = 0 /\ simple_inv a' live \/
     exists c, r <> 0 /\ simple_inv a' (mkLive (sm_pool_id a) c r :: live) /\
       u32 (Z.max size kMinSliceSize) <= live_size (sm_memory_allocator a') (mkLive (sm_pool_id a) c r)).
Proof.
  intros [HM (p & Hp & Esz)] Hs. unfold simple_allocate. set (n := u32 (Z.max size kMinSliceSize)).
  pose proof (u32_range (Z.max size kMinSliceSize)) as Hn. fold n in Hn.
  destruct (runs_elim _ _ _ (ma_allocate_ok _ _ _ (sm_pool_id a) n HM (proj1 Hn))) as (r & m' & -> & Hsh & Hcase).
  destruct (shape_get _ _ _ p Hsh Hp) as (p' & Hp' & Esz' & _). rewrite Esz in Esz'.
  assert (Hinv : forall l, MInv m' l [] -> simple_inv (mkSimple (sm_base a) m' (sm_pool_id a)) l) by (intros l HM'; split; [done|by exists p']).
  destruct Hcase as [(-> & HM' & _)|(q & ac & Hq & Hac & Hle & [(-> & _ & _ & HM')|(x & -> & Hx & _ & HM')])].
  - do 2 eexists. split; [done|]. left. split; [done|]. by apply Hinv.
  - do 2 eexists. split; [done|]. left. split; [done|]. by apply Hinv.
  - do 2 eexists. split; [done|]. right. rewrite Hp in Hq. injection Hq as <-. eexists. split; [done|]. split; [by apply Hinv|]. simpl.
    destruct (mi_pools _ _ _ HM _ p Hp) as (_ & _ & d & HP). destruct (pv_class _ _ _ _ _ HP _ ac Hac) as (_ & _ & Ea & _).
    set (c := lower_bound (acSizes_ p) n) in *.
    destruct (live_info m' _ _ (mkLive (sm_pool_id a) c x) HM' ltac:(left)) as (q & ac' & Hq & _ & Ea' & _ & _ & _ & ->). simpl in *.
    rewrite Hp' in Hq. injection Hq as <-. rewrite Esz', <- Esz in Ea'. rewrite Ea in Ea'. injection Ea' as <-. lia.
Qed.

End SimpleBuffer.
