(* ===== verification/SlabProps.v ===== *)
(** * SlabProps: class sizes, and what the slab allocator promises

    Module [SlabSizes]: what [generateAllocSizes] of MemoryAllocator.cpp computes, for every
    factor and both ways of stepping.  Module [SlabProps]: the
    properties. *)

From Stdlib Require Import ZArith Lia SpecFloat.
From stdpp Require Import base list sets numbers gmap strings relations.
From S2P Require Import Prelude Types Double Slab SlabClass SlabPool SlabMemory SlabInv SlabOps SlabRelease SlabStart SlabRace SlabPoolInv SlabPoolOps SlabPoolRelease SlabSys SlabAdmin SlabClient BufAlloc SlabBuffer.
Import Types Slab SlabClass SlabPool SlabMemory SlabFacts SlabInv SlabAdmin.

Open Scope moon_scope.
Open Scope Z_scope.

Module SlabSizes.

(** Increasing, as [MemoryPool::checkState] tests it. *)
Definition increasing (l : list Z) : Prop := is_sorted l = true /\ has_adjacent l = false.
Definition above (z : Z) (l : list Z) : Prop := match l with [] => True | y :: _ => z < y end.

Lemma increasing_cons x l : increasing (x :: l) <-> above x l /\ increasing l.
Proof.
  unfold increasing. destruct l as [|y l]; [done|]. cbn [is_sorted has_adjacent above].
  rewrite andb_true_iff, orb_false_iff, Z.leb_le, Z.eqb_neq. split; [intros [[? ?] [? ?]]; split; [lia|done]|intros [? [? ?]]; split_and!; lia || done].
Qed.

Lemma set_insert_increasing x l : increasing l -> increasing (set_insert x l) /\ (forall z, z < x -> above z l -> above z (set_insert x l)).
Proof.
  induction l as [|y l IH]; intros Hl; cbn [set_insert]; [done|]. apply increasing_cons in Hl as [Hy Hl]. destruct (IH Hl) as [IH1 IH2].
  destruct (Z.ltb_spec x y); [split; [|done]; apply increasing_cons; split; [done|by apply increasing_cons]|].
  destruct (Z.eqb_spec x y); [split; [by apply increasing_cons|done]|]. split; [|done]. apply increasing_cons. split; [|done]. apply IH2; [lia|done].
Qed.

Lemma set_insert_elem x l y : y ∈ set_insert x l -> y = x \/ y ∈ l.
Proof.
  induction l as [|z l IH]; cbn [set_insert]; [set_solver|]. destruct (x <? z); [set_solver|]. destruct (x =? z); [set_solver|].
  rewrite elem_of_cons. intros [-> |Hy%IH]; set_solver.
Qed.

Lemma set_insert_length x l : (length (set_insert x l) <= S (length l))%nat.
Proof. induction l as [|z l IH]; cbn [set_insert length]; [lia|]. destruct (x <? z); [done|]. destruct (x =? z); simpl; lia. Qed.

Lemma getAlignedSize_nonneg n : 0 <= n -> 0 <= getAlignedSize n kAlignment.
Proof. intros Hn. unfold getAlignedSize. destruct (_ =? 0); [done|]. apply u32_range. Qed.

Lemma to_u32_nonneg x n : Dbl.to_u32 x = Some n -> 0 <= n.
Proof.
  destruct x; simpl; try done; [by intros [= <-]|]. destruct (_ && _) eqn:E; [|done]. intros [= <-]. apply andb_true_iff in E as [E _]. by apply Z.leb_le.
Qed.

Lemma scaled_nonneg n f m : scaled n f = Some m -> 0 <= m.
Proof.
  unfold scaled. destruct (Dbl.to_u32 _) as [k|] eqn:E; [|done]. intros [= <-]. by apply getAlignedSize_nonneg, (to_u32_nonneg _ k E).
Qed.

Lemma to_u32_below x n : Dbl.to_u32 x = Some n -> n < 2 ^ 32.
Proof.
  destruct x; simpl; try done; [by intros [= <-]|]. destruct (_ && _) eqn:E; [|done]. intros [= <-]. apply andb_true_iff in E as [_ E]. by apply Z.ltb_lt.
Qed.

(** ** The loops end *)

Section Ends.
Context (f : spec_float) (Hv : valid_binary Dbl.prec Dbl.emax f = true) (Hf : Dbl.leb f Dbl.one = false).

(** A size of at most a slab that the factor takes out of the range of
    [uint32_t], or to itself. *)
Definition leaves_range : Prop := exists s, 0 < s <= kSize /\ (scaled s f = None \/ scaled s f = Some 0).
Definition stays : Prop := exists s, 0 < s <= kSize /\ scaled s f = Some s.

Lemma scaled_grows n k : 0 < n <= kSize -> scaled n f = Some k -> k = 0 \/ (n <= k /\ k mod 8 = 0).
Proof.
  intros Hn. unfold scaled. destruct (Dbl.to_u32 _) as [m|] eqn:E; [|done]. intros [= <-]. pose proof (to_u32_nonneg _ _ E). pose proof (to_u32_below _ _ E).
  apply DblFacts.trunc_mul_ge in E; [|rewrite kSize_eq in Hn; lia|done|done]. unfold getAlignedSize, kAlignment.
  destruct (Z.eqb_spec (m mod 8) 0); [by right|]. destruct (decide (m + 8 - m mod 8 = 2 ^ 32)) as [-> |]; [by left|]. right.
  rewrite u32_small by (Z.div_mod_to_equations; lia). Z.div_mod_to_equations. lia.
Qed.

(** Rounding a chunk size up to the most that keeps the number per slab. *)
Lemma aligned_chunk k : 0 < k <= kSize -> k mod 8 = 0 ->
  let mc := kSize / (kSize / k) in k <= mc - mc mod 8 /\ kSize / (mc - mc mod 8) = kSize / k.
Proof.
  assert (HK : 0 < kSize) by (rewrite kSize_eq; lia). set (K := kSize) in *. clearbody K. intros Hk H8 mc. assert (Hper : 1 <= K / k) by (apply Z.div_le_lower_bound; lia).
  assert (Hmc : k <= mc) by (apply Z.div_le_lower_bound; [lia|]; pose proof (Z.mul_div_le K k ltac:(lia)); lia).
  assert (Hal : k <= mc - mc mod 8) by (Z.div_mod_to_equations; lia). split; [done|].
  assert (Hm : (K / k) * mc <= K) by (apply Z.mul_div_le; lia). pose proof (Z.mod_pos_bound mc 8).
  apply Z.le_antisymm; [apply Z.div_le_compat_l; lia|]. apply Z.div_le_lower_bound; [lia|]. nia.
Qed.

Lemma next_loop_ends fuel prev n : prev <= n -> 0 < n <= kSize -> kSize - n < Z.of_nat fuel ->
  match next_loop fuel prev n f with
  | NoFuel => False | Undefined => leaves_range | Done (inl _) => stays | Done (inr m) => prev < m
  end.
Proof.
  revert n. induction fuel as [|fuel IH]; intros n Hp Hn Hfuel; [lia|]. cbn [next_loop].
  destruct (scaled n f) as [k|] eqn:E; [|by exists n; auto]. destruct (Z.eqb_spec k n) as [-> |Hne]; [by exists n|].
  destruct (scaled_grows n k Hn E) as [-> |[Hge H8]].
  { rewrite (proj2 (Z.ltb_ge kSize 0)) by lia. exists n. auto. }
  destruct (Z.ltb_spec kSize k); [lia|]. destruct (Z.eqb_spec k 0); [lia|]. destruct (_ =? _); [apply IH; lia|].
  destruct (aligned_chunk k ltac:(lia) H8) as [Hc Hd]. cbv zeta. change kAlignment with 8. rewrite Hd, Z.eqb_refl.
  destruct (Z.eqb_spec (kSize / (kSize / k) - (kSize / (kSize / k)) mod 8) 0); [lia|]. simpl. lia.
Qed.

Lemma nextSize_ends n : 0 < n <= kSize ->
  match nextSize n f with NoFuel => False | Undefined => leaves_range | Done (inl _) => stays | Done (inr m) => n < m end.
Proof. intros Hn. apply next_loop_ends; lia. Qed.

Lemma set_insert_longer x l : Forall (fun y => y < x) l -> length (set_insert x l) = S (length l) /\ Forall (fun y => y <= x) (set_insert x l).
Proof.
  induction 1 as [|y l Hy _ [IH1 IH2]]; cbn [set_insert]; [by split; [|repeat constructor]|].
  destruct (Z.ltb_spec x y); [lia|]. destruct (Z.eqb_spec x y); [lia|]. simpl. split; [lia|]. constructor; [lia|done].
Qed.

Lemma sizes_loop_ends fuel maxSize size rf acc : maxSize <= kSize -> 0 <= size -> Forall (fun y => y < size) acc ->
  (length acc < 127)%nat -> (127 < fuel + length acc)%nat ->
  match sizes_loop fuel f maxSize size rf acc with
  | NoFuel => False | Undefined => size = 0 \/ leaves_range | Done (inl _) => stays | Done (inr _) => True
  end.
Proof.
  intros Hmax. revert size acc. induction fuel as [|fuel IH]; intros size acc Hs Hacc Hl Hfuel; [lia|]. cbn [sizes_loop].
  destruct (Z.ltb_spec size maxSize); cbn [negb]; [|done]. destruct (Z.eqb_spec size 0); [by left|]. destruct (_ <=? 1); [done|].
  destruct (set_insert_longer size acc Hacc) as [Hlen Hle]. cbv zeta.
  assert (Hstep : match (if rf then nextSize size f else match scaled size f with
                    | None => Undefined | Some size' => Done (if size' =? size then inl invalid_argument else inr size') end) with
                  | NoFuel => False | Undefined => leaves_range | Done (inl _) => stays | Done (inr m) => size < m \/ (m = 0 /\ leaves_range) end).
  { destruct rf; [pose proof (nextSize_ends size ltac:(lia)) as H'; by destruct (nextSize size f) as [| |[|]]; auto|].
    destruct (scaled size f) as [k|] eqn:E; [|exists size; split; [lia|auto]]. destruct (Z.eqb_spec k size) as [-> |]; [by exists size; split; [lia|]|].
    destruct (scaled_grows size k ltac:(lia) E) as [-> |[? _]]; [right; split; [done|]; exists size; split; [lia|auto]|left; lia]. }
  destruct (if rf then _ else _) as [| |[e|m]]; [by right|done|done|].
  destruct (Z.leb_spec kMaxClasses (Z.of_nat (length (set_insert size acc)) + 1)) as [|Hk]; [done|]. unfold kMaxClasses in Hk.
  destruct Hstep as [Hm|[-> Hr]].
  - specialize (IH m (set_insert size acc)). destruct (sizes_loop fuel f maxSize m rf (set_insert size acc)) as [| |[|]]; auto; try (apply IH; try lia; eapply Forall_impl; [exact Hle|simpl; lia]).
    right. destruct IH as [-> |?]; [lia| |lia|lia|lia|done]. eapply Forall_impl; [exact Hle|simpl; lia].
  - destruct fuel as [|fuel]; [lia|]. cbn [sizes_loop]. destruct (0 <? maxSize); cbn [negb]; [simpl; by right|done].
Qed.

Lemma generate_ends maxSize minSize rf : 0 <= minSize ->
  match generateAllocSizes f maxSize minSize rf with
  | NoFuel => False | Undefined => minSize = 0 \/ leaves_range | Done (inl _) => kSize < maxSize \/ stays | Done (inr _) => True
  end.
Proof.
  intros Hmin. unfold generateAllocSizes. rewrite Hf. destruct (Z.ltb_spec kSize maxSize); [by left|].
  pose proof (sizes_loop_ends (Z.to_nat kMaxClasses) maxSize minSize rf [] ltac:(done) Hmin ltac:(constructor)) as H'.
  change (Z.to_nat kMaxClasses) with 128%nat in *. simpl length in H'. specialize (H' ltac:(lia) ltac:(lia)).
  destruct (sizes_loop _ _ _ _ _ _) as [| |[|]]; auto.
Qed.

End Ends.

Lemma div_nonneg a b : 0 <= a -> 0 <= b -> 0 <= a / b.
Proof. intros Ha Hb. destruct (decide (b = 0)) as [-> |]; [by rewrite Z.div_0_r|]. apply Z.div_pos; lia. Qed.

Lemma next_loop_nonneg fuel prev n f m : next_loop fuel prev n f = Done (inr m) -> 0 <= m.
Proof.
  revert n. induction fuel as [|fuel IH]; intros n H; cbn [next_loop] in H; [done|]. destruct (scaled n f) as [k|] eqn:E; [|done].
  pose proof (scaled_nonneg _ _ _ E) as Hk. destruct (k =? n); [done|]. destruct (kSize <? k); [by injection H as <-|].
  destruct (Z.eqb_spec k 0); [done|]. destruct (_ =? _); [by eapply IH|]. destruct (_ || _); [done|]. injection H as <-.
  assert (0 <= kSize / (kSize / k)) by (rewrite kSize_eq; apply div_nonneg; [lia|apply div_nonneg; lia]).
  unfold kAlignment. pose proof (Z.mod_le (kSize / (kSize / k)) 8). lia.
Qed.

Lemma nextSize_nonneg n f m : nextSize n f = Done (inr m) -> 0 <= m.
Proof. unfold nextSize. generalize (Z.to_nat kSize). intros fuel. apply next_loop_nonneg. Qed.

(** What holds of the sizes collected so far. *)
Definition sizes_inv (n : nat) (l : list Z) : Prop := increasing l /\ (length l <= n)%nat /\ Forall (fun x => 0 < x <= kSize) l.

Lemma sizes_inv_insert n x l : sizes_inv n l -> 0 < x <= kSize -> sizes_inv (S n) (set_insert x l).
Proof.
  intros (H1 & H2 & H3) Hx. split; [by apply set_insert_increasing|]. split; [pose proof (set_insert_length x l); lia|].
  rewrite list.Forall_forall in *. intros y [-> |Hy]%set_insert_elem; auto.
Qed.

Lemma sizes_loop_inv fuel f maxSize size rf acc l : maxSize <= kSize -> 0 <= size -> sizes_inv 126 acc ->
  sizes_loop fuel f maxSize size rf acc = Done (inr l) -> sizes_inv 127 l.
Proof.
  intros Hmax. revert size acc. induction fuel as [|fuel IH]; intros size acc Hs HI H; cbn [sizes_loop] in H; [done|].
  assert (Hacc : sizes_inv 127 acc) by (destruct HI as (? & ? & ?); split_and!; [done|lia|done]).
  destruct (Z.ltb_spec size maxSize) as [Hlt|]; cbn [negb] in H; [|by injection H as <-].
  destruct (Z.eqb_spec size 0); [done|]. destruct (_ <=? 1); [by injection H as <-|].
  assert (HI' : sizes_inv 127 (set_insert size acc)) by (apply sizes_inv_insert; [done|lia]).
  destruct (if rf then _ else _) as [| |[e|size']] eqn:En; [done..|].
  assert (Hs' : 0 <= size').
  { destruct rf; [by apply nextSize_nonneg in En|]. destruct (scaled size f) as [k|] eqn:Ek; [|done]. destruct (k =? size); [done|].
    injection En as <-. by eapply scaled_nonneg. }
  destruct (Z.leb_spec kMaxClasses (Z.of_nat (length (set_insert size acc)) + 1)); [by injection H as <-|].
  eapply IH; [exact Hs'| |exact H]. destruct HI' as (? & ? & ?). unfold kMaxClasses in *. split_and!; [done|lia|done].
Qed.

Lemma generate_inv f maxSize minSize rf l : 0 < maxSize -> 0 <= minSize ->
  generateAllocSizes f maxSize minSize rf = Done (inr l) -> sizes_inv 128 l.
Proof.
  intros Hmax Hmin. unfold generateAllocSizes. destruct (Z.ltb_spec kSize maxSize) as [|Hle]; [done|]. destruct (Dbl.leb f Dbl.one); [done|].
  destruct (sizes_loop (Z.to_nat kMaxClasses) f maxSize minSize rf []) as [| |[e|k]] eqn:E; [done..|]. intros [= <-].
  apply sizes_inv_insert; [eapply sizes_loop_inv; [exact Hle|exact Hmin| |exact E]; split_and!; [done|simpl; lia|constructor]|].
  unfold getAlignedSize, kAlignment. rewrite kSize_eq in *. destruct (Z.eqb_spec (maxSize mod 8) 0); [lia|].
  rewrite u32_small by (Z.div_mod_to_equations; lia). Z.div_mod_to_equations. lia.
Qed.

Lemma generate_nonempty f maxSize minSize rf l : generateAllocSizes f maxSize minSize rf = Done (inr l) -> l <> [].
Proof.
  unfold generateAllocSizes. destruct (kSize <? maxSize); [done|]. destruct (Dbl.leb f Dbl.one); [done|].
  destruct (sizes_loop _ _ _ _ _ _) as [| |[e|[|y k]]]; try done; intros [= <-]; cbn [set_insert]; [done|]. destruct (_ <? _); [done|]. by destruct (_ =? _).
Qed.

Lemma pool_accepts sa id size sizes : SAWf sa -> 0 <= id -> 0 <= size -> increasing sizes -> sizes <> [] -> (length sizes <= 127)%nat ->
  Forall (fun x => 0 < x <= kSize) sizes -> Forall (fun x => kMinAllocSize <= x) sizes ->
  exists p, MemoryPool_new sa id size sizes = Some (inr p) /\ acSizes_ p = sizes.
Proof.
  intros Hwf Hid Hsz Hinc Hne Hl HF Hm. destruct (MemoryPool_new_eq sa id size sizes Hwf Hid Hsz) as [p Hp].
  - unfold sizes_ok. destruct Hinc as [-> ->]. rewrite !andb_true_iff. split_and!; try done.
    + by rewrite bool_decide_eq_false_2.
    + apply forallb_forall. intros x Hx%list_elem_of_In. rewrite list.Forall_forall in HF, Hm.
      apply andb_true_iff. split; apply Z.leb_le; [by apply Hm|by apply HF].
    + by apply bool_decide_eq_true_2.
  - exists p. split; [done|]. unfold MemoryPool_new in Hp. destruct (createAllocationClasses sa id 0 sizes) as [[|acs]|]; [done| |done].
    destruct (mp_checkState sa _); [done|]. by injection Hp as <-.
Qed.

End SlabSizes.

(** ** What the slab allocator promises

    Theorems on the memory allocator for every sequence of calls, on the
    release of slabs, on the sizes of classes and on the buffer allocators
    built on it. *)

Import Types Slab SlabClass SlabPool SlabMemory SlabFacts SlabInv SlabOps SlabPrune SlabStart SlabRace SlabPoolInv SlabPoolOps SlabPoolRelease SlabSys SlabAdmin SlabClient CachelibBuffer SimpleBuffer SlabSizes.

Module SlabProps.

(** ** A concrete memory allocator *)

(** Four slabs, classes of half a slab and of a slab, one pool of three slabs. *)
Definition demo_start : World :=
  mkWorld (mkMA [2 ^ 23; 2 ^ 24] (mkSA (replicate 127 0) [] (replicate 4 (mkHeader 0 0 0 0)) (2 ^ 24) (2 ^ 26) (2 ^ 24) true) [] ∅) [] [].

Lemma demo_fresh : fresh [2 ^ 23; 2 ^ 24] (replicate 4 (mkHeader 0 0 0 0)) 29 (2 ^ 24) (2 ^ 26) demo_start.
Proof. split_and!; try (rewrite ?kSize_eq; simpl; lia). eexists. split; reflexivity. Qed.

Definition demo_setup : list Call :=
  [AddPool "main" (3 * 2 ^ 24) [] false; Allocate 0 (2 ^ 23); Allocate 0 1000; Allocate 0 (2 ^ 24)].

Definition demo_world : World := match run_calls demo_setup demo_start with Some w => w | None => demo_start end.

Lemma demo_reach : reach demo_start demo_world.
Proof. apply (run_calls_reach demo_setup demo_start demo_start); [constructor|]. vm_compute. reflexivity. Qed.

(** ** Calls *)

(** C18: whatever sequence of calls clients make, live allocations are disjoint ranges of
    the slab memory, and every further call a client may make returns: no
    assertion of the allocator fails, and no call loops. *)
Theorem slab_calls_safe config hs hsize start size w0 w : fresh config hs hsize start size w0 -> reach w0 w ->
  (forall i j x y, i <> j -> w_live w !! i = Some x -> w_live w !! j = Some y ->
     lv_addr x + live_size (w_ma w) x <= lv_addr y \/ lv_addr y + live_size (w_ma w) y <= lv_addr x) /\
  (forall x, x ∈ w_live w -> start <= lv_addr x /\ 0 < live_size (w_ma w) x /\ lv_addr x + live_size (w_ma w) x <= start + size) /\
  (forall c, permitted w c -> exists w', exec c w = Some w').
Proof.
  intros Hf Hr. destruct (fresh_inv _ _ _ _ _ _ _ Hf Hr) as (HM & Es & Ez). split; [|split].
  - intros i j x y Hij Hx Hy. destruct (two_front _ i j x y Hij Hx Hy) as [rest HP]. rewrite HP in HM. by eapply live_apart.
  - intros x Hx. destruct (live_place _ _ _ x HM Hx) as (? & ? & ? & ? & ? & ?). rewrite Es, Ez in *. lia.
  - intros c Hc. destruct (exec_ok w c HM Hc) as (w' & E & _). by exists w'.
Qed.

Lemma slab_calls_safe_witness : w_live demo_world !! 0%nat = Some (mkLive 0 1 (2 ^ 25)) /\
  (2 ^ 24 <= 2 ^ 25 /\ 0 < live_size (w_ma demo_world) (mkLive 0 1 (2 ^ 25)) /\
   2 ^ 25 + live_size (w_ma demo_world) (mkLive 0 1 (2 ^ 25)) <= 2 ^ 24 + 2 ^ 26).
Proof.
  split; [vm_compute; reflexivity|].
  apply (proj1 (proj2 (slab_calls_safe _ _ _ _ _ _ _ demo_fresh demo_reach)) (mkLive 0 1 (2 ^ 25))).
  apply (list_elem_of_lookup_2 _ 0%nat). vm_compute. reflexivity.
Defined.

(** C19: in every state that the permitted calls of a client (it frees what it holds, and completes or aborts
    what it started) lead to, an allocation takes a chunk of the smallest class that fits: afterwards the address is
    recorded as a chunk of that class of that pool, with the chunk size of the class, and the chunk overlaps no allocation that was
    live before.  The call throws exactly
    for a pool that does not exist, for no bytes and for more than the largest class, and it answers
    the null pointer exactly when the class has no chunk left and no slab can be had: the pool is at its limit, or all
    memory is in slabs and none is free. *)
Theorem slab_allocate_exact config hs hsize start size w0 w id n : fresh config hs hsize start size w0 -> reach w0 w -> 0 <= n ->
  exists r m', ma_allocate id n (w_ma w) = Some (r, m') /\
    match aget (pools_ (w_ma w)) id with
    | None => r = inl invalid_argument
    | Some p =>
        if (n =? 0) || forallb (fun c => c <? n) (acSizes_ p) then r = inl invalid_argument
        else exists ac x, aget (ac_vec p) (lower_bound (acSizes_ p) n) = Some ac /\ r = inr x /\
          n <= allocationSize_ ac /\ (forall c, c ∈ acSizes_ p -> n <= c -> allocationSize_ ac <= c) /\
          (x = 0 <-> exhausted ac /\ no_slab (slabAllocator_ (w_ma w)) p) /\
          (x <> 0 ->
             alloc_info m' x = Some (mkInfo id (lower_bound (acSizes_ p) n) (allocationSize_ ac)) /\
             forall y, y ∈ w_live w -> x + allocationSize_ ac <= lv_addr y \/ lv_addr y + live_size (w_ma w) y <= x)
    end.
Proof.
  intros Hf Hr Hn. destruct (fresh_inv _ _ _ _ _ _ _ Hf Hr) as (HM & _ & _).
  destruct (runs_elim _ _ _ (ma_allocate_ok _ _ _ id n HM Hn)) as (r & m' & E & Hsh & Hcase). exists r, m'. split; [done|].
  destruct (aget (pools_ (w_ma w)) id) as [p|] eqn:Hp.
  2: { destruct Hcase as [(-> & _)|(p & ac & Hp' & _)]; [done|discriminate Hp']. }
  assert (Hbad : (n =? 0) || forallb (fun c => c <? n) (acSizes_ p) = true <-> n = 0 \/ (forall x, x ∈ acSizes_ p -> x < n)).
  { rewrite orb_true_iff, Z.eqb_eq, forallb_forall. setoid_rewrite list_elem_of_In. setoid_rewrite Z.ltb_lt. done. }
  destruct Hcase as [(-> & _ & Hwhy)|(q & ac & Hq & Hac & Hle & Hcase)].
  - rewrite (proj2 Hbad (Hwhy p eq_refl)). done.
  - injection Hq as <-. destruct (mi_pools _ _ _ HM id p Hp) as (_ & _ & d & HP).
    destruct (pv_class _ _ _ _ _ HP _ ac Hac) as (_ & _ & Es & _). destruct (pv_sizes _ _ _ _ _ HP) as (_ & _ & Hsort).
    destruct (_ || _) eqn:Eb.
    + exfalso. destruct (proj1 Hbad eq_refl) as [|Hall]; [lia|]. unfold aget in Es. destruct (0 <=? _); [|done].
      specialize (Hall _ (list_elem_of_lookup_2 _ _ _ Es)). lia.
    + assert (Hmin : forall c, c ∈ acSizes_ p -> n <= c -> allocationSize_ ac <= c).
      { intros c Hc Hnc. destruct (lower_bound_spec (acSizes_ p) n) as (y & Hy & Hny & Hb & Hlt); [by exists c|].
        rewrite Es in Hy. injection Hy as <-. apply list_elem_of_lookup in Hc as [i Hi].
        destruct (Z.lt_ge_cases (Z.of_nat i) (lower_bound (acSizes_ p) n)) as [Hi'|Hi']; [specialize (Hlt i c Hi' Hi); lia|].
        unfold aget in Es. rewrite (proj2 (Z.leb_le 0 _)) in Es by lia.
        destruct (decide (i = Z.to_nat (lower_bound (acSizes_ p) n))) as [Ei|]; [rewrite Ei, Es in Hi; injection Hi; lia|].
        pose proof (Hsort _ i _ c Es Hi ltac:(lia)). lia. }
      destruct Hcase as [(-> & Hex & Hno & _)|(x & -> & Hx & Hyes & HM')].
      * exists ac, 0. split_and!; try done; lia.
      * pose proof (given_chunk _ _ _ _ _ _ _ p ac HM HM' Hsh Hp Hac). exists ac, x. split_and!; try done; lia || done.
Qed.

Lemma slab_allocate_exact_witness : exists r m', ma_allocate 0 5 (w_ma demo_world) = Some (r, m') /\
  match aget (pools_ (w_ma demo_world)) 0 with
  | None => r = inl invalid_argument
  | Some p =>
      if (5 =? 0) || forallb (fun c => c <? 5) (acSizes_ p) then r = inl invalid_argument
      else exists ac x, aget (ac_vec p) (lower_bound (acSizes_ p) 5) = Some ac /\ r = inr x /\
        5 <= allocationSize_ ac /\ (forall c, c ∈ acSizes_ p -> 5 <= c -> allocationSize_ ac <= c) /\
        (x = 0 <-> exhausted ac /\ no_slab (slabAllocator_ (w_ma demo_world)) p) /\
        (x <> 0 ->
           alloc_info m' x = Some (mkInfo 0 (lower_bound (acSizes_ p) 5) (allocationSize_ ac)) /\
           forall y, y ∈ w_live demo_world -> x + allocationSize_ ac <= lv_addr y \/ lv_addr y + live_size (w_ma demo_world) y <= x)
  end.
Proof. apply (slab_allocate_exact _ _ _ _ _ _ _ 0 5 demo_fresh demo_reach). lia. Defined.

(** ** Slab release *)

(** The live allocations in a slab. *)
Definition in_slab (w : World) (s : Z) : list Live := filter (fun x => getSlabForMemory (lv_addr x) = s) (w_live w).

Lemma in_slab_elem w s x : x ∈ in_slab w s <-> x ∈ w_live w /\ getSlabForMemory (lv_addr x) = s.
Proof. unfold in_slab. rewrite list_elem_of_filter. tauto. Qed.

(** C30: a started release lists exactly the live allocations in its slab; it is released
    at once only if there are none.  Its completion returns exactly when none is left; until then it waits and changes nothing. *)
Theorem slab_release_exact config hs hsize start size w0 w : fresh config hs hsize start size w0 -> reach w0 w ->
  (forall rnd id victim receiver mode hint, permitted w (StartSlabRelease rnd id victim receiver mode hint) ->
     exists r m', ma_startSlabRelease (fun _ => false) rnd id victim receiver mode hint (w_ma w) = Some (r, m') /\
       match r with
       | inl e => e = invalid_argument
       | inr ctx => isReleased ctx = bool_decide (in_slab w (ctx_slab ctx) = []) /\
           (forall a, a ∈ activeAllocations_ ctx <-> a ∈ lv_addr <$> in_slab w (ctx_slab ctx))
       end) /\
  (forall ctx, ctx ∈ w_ctxs w ->
     exists r m', ma_completeSlabRelease ctx (w_ma w) = Some (r, m') /\
       if bool_decide (in_slab w (ctx_slab ctx) = []) then r = inr Completed else r = inr Waiting /\ m' = w_ma w).
Proof.
  intros Hf Hr. destruct (fresh_inv _ _ _ _ _ _ _ Hf Hr) as (HM & _ & _).
  assert (Hnil : forall s, in_slab w s = [] <-> forall x, x ∈ w_live w -> getSlabForMemory (lv_addr x) <> s).
  { intros s. split.
    - intros E x Hx Es. assert (Hi : x ∈ in_slab w s) by (by apply in_slab_elem). rewrite E in Hi. by apply elem_of_nil in Hi.
    - intros Hn. destruct (in_slab w s) as [|x l] eqn:E; [done|]. assert (Hi : x ∈ in_slab w s) by (rewrite E; left).
      apply in_slab_elem in Hi as [Hx Es]. by destruct (Hn x Hx). }
  split.
  - intros rnd id victim receiver mode hint [Hv Hrc].
    destruct (runs_elim _ _ _ (ma_start_ok _ _ _ rnd id victim receiver mode hint HM Hv Hrc)) as (r & m' & E & _ & Hcase). exists r, m'. split; [done|].
    destruct Hcase as [(-> & _)|(ctx & -> & [(Hrel & _ & Hno)|(Hrel & _ & Hact)])]; [done| |].
    + apply Hnil in Hno. split; [rewrite bool_decide_eq_true_2 by done; done|]. intros a. rewrite Hno. simpl.
      unfold isReleased in Hrel. apply bool_decide_eq_true in Hrel. by rewrite Hrel.
    + assert (Hiff : forall a, a ∈ activeAllocations_ ctx <-> a ∈ lv_addr <$> in_slab w (ctx_slab ctx)).
      { intros a. rewrite Hact, list_elem_of_fmap. setoid_rewrite in_slab_elem. naive_solver. }
      split; [|done]. rewrite Hrel. symmetry. apply bool_decide_eq_false_2. intros E0. unfold isReleased in Hrel.
      apply bool_decide_eq_false in Hrel. apply Hrel. destruct (activeAllocations_ ctx) as [|a l]; [done|].
      assert (Ha : a ∈ lv_addr <$> in_slab w (ctx_slab ctx)) by (apply Hiff; left). rewrite E0 in Ha. by apply elem_of_nil in Ha.
  - intros ctx Hc. rewrite (drop_ctx_perm _ _ _ ctx HM Hc) in HM.
    destruct (runs_elim _ _ _ (ma_complete_ok _ _ _ ctx HM)) as (r & m' & E & _ & Hcase). exists r, m'. split; [done|].
    destruct Hcase as [(-> & -> & x & Hx & Es)|(-> & _ & Hno)].
    + rewrite bool_decide_eq_false_2; [done|]. intros E0. by apply (proj1 (Hnil _) E0 x Hx).
    + by rewrite bool_decide_eq_true_2 by (by apply Hnil).
Qed.

(** The half-slab class starts to give up its slab, whose two chunks are live. *)
Definition demo_release : Call := StartSlabRelease 0 0 0 kInvalidClassId kResize 0.
Definition demo_waiting : World := match run_calls [demo_release] demo_world with Some w => w | None => demo_world end.
Definition demo_ctx : SlabReleaseContext := mkCtx (2 ^ 24) 0 0 [2 ^ 24; 2 ^ 24 + 2 ^ 23] kInvalidClassId kResize.

Lemma demo_waiting_reach : reach demo_start demo_waiting.
Proof. apply (run_calls_reach [demo_release] demo_start demo_world); [exact demo_reach|]. vm_compute. reflexivity. Qed.

Lemma slab_release_exact_witness : w_ctxs demo_waiting = [demo_ctx] /\
  exists r m', ma_completeSlabRelease demo_ctx (w_ma demo_waiting) = Some (r, m') /\
    if bool_decide (in_slab demo_waiting (ctx_slab demo_ctx) = []) then r = inr Completed else r = inr Waiting /\ m' = w_ma demo_waiting.
Proof.
  assert (E : w_ctxs demo_waiting = [demo_ctx]) by (vm_compute; reflexivity). split; [exact E|].
  apply (proj2 (slab_release_exact _ _ _ _ _ _ _ demo_fresh demo_waiting_reach)). rewrite E. left.
Defined.

(** C31: a client that frees the allocations in a slab being released lets the release
    complete: none of the calls fails, and the context is dropped. *)
Theorem slab_release_drains config hs hsize start size w0 w ctx : fresh config hs hsize start size w0 -> reach w0 w -> ctx ∈ w_ctxs w ->
  exists w1 w2, exec_all (Free <$> in_slab w (ctx_slab ctx)) w = Some w1 /\ exec (CompleteSlabRelease ctx) w1 = Some w2 /\
    (ctx ∉ w_ctxs w2) /\ w_live w2 ≡ₚ filter (fun x => getSlabForMemory (lv_addr x) <> ctx_slab ctx) (w_live w).
Proof.
  intros Hf Hr Hc. destruct (fresh_inv _ _ _ _ _ _ _ Hf Hr) as (HM & _ & _). pose proof (live_NoDup _ _ _ HM) as ND.
  destruct (exec_frees (in_slab w (ctx_slab ctx)) w HM) as (w1 & E1 & HW1 & Ec & Hl).
  { by apply NoDup_filter. } { intros x Hx. by apply in_slab_elem in Hx as [? _]. }
  exists w1. pose proof HW1 as HM1. unfold WInv in HM1. rewrite <- Ec in Hc. rewrite (drop_ctx_perm _ _ _ ctx HW1 Hc) in HM1.
  destruct (runs_elim _ _ _ (ma_complete_ok _ _ _ ctx HM1)) as (r & m' & E & _ & Hcase).
  destruct Hcase as [(_ & _ & x & Hx & Es)|(-> & _ & _)].
  { exfalso. apply Hl in Hx as [Hx Hn]. apply Hn. by apply in_slab_elem. }
  eexists. split; [done|]. cbn [exec]. rewrite E. split; [reflexivity|]. cbn [w_ctxs w_live]. split.
  - unfold drop_ctx. rewrite list_elem_of_filter. tauto.
  - apply NoDup_Permutation; [by eapply live_NoDup|by apply NoDup_filter|]. intros x. rewrite Hl, list_elem_of_filter, in_slab_elem. tauto.
Qed.

Lemma slab_release_drains_witness : exists w1 w2, exec_all (Free <$> in_slab demo_waiting (ctx_slab demo_ctx)) demo_waiting = Some w1 /\
  exec (CompleteSlabRelease demo_ctx) w1 = Some w2 /\ (demo_ctx ∉ w_ctxs w2) /\
  w_live w2 ≡ₚ filter (fun x => getSlabForMemory (lv_addr x) <> ctx_slab demo_ctx) (w_live demo_waiting).
Proof.
  apply (slab_release_drains _ _ _ _ _ _ _ demo_ctx demo_fresh demo_waiting_reach).
  assert (E : w_ctxs demo_waiting = [demo_ctx]) by (vm_compute; reflexivity). rewrite E. left.
Defined.

(** ** A release and its clients, interleaved *)

(** C29: while a release starts, scope by scope of the lock, other threads allocate and
    free in every possible order: neither they nor the releasing thread ever
    fail, every batch shortens the free list still to be searched, and when the thread is done either no live chunk is in the slab or all those that are
    are on the list of the context. *)
Theorem release_race_safe rnd hint mode sa ac L r : SAWf sa -> 0 <= ac_classId ac -> CInv sa ac None L ->
  rtc (race_step rnd hint mode) (mkRace (mkCS sa ac) L Starting) r ->
  (exists x w', ac_allocate (rc_cs r) = Some (x, w')) /\
  (forall x, x ∈ rc_live r -> exists w', ac_free x (rc_cs r) = Some (inr tt, w')) /\
  match rc_phase r with
  | Starting => pick_slab rnd hint (rc_cs r) <> None
  | Pruning s hd p => exists w' ph', thread_step rnd hint mode (rc_cs r) (Pruning s hd p) w' ph' /\
      match ph' with Pruning _ _ p' => (length (pr_freeAllocs p') < length (pr_freeAllocs p))%nat | _ => ph' = Swept s hd end
  | Finished ctx => if isReleased ctx then forall x, x ∈ rc_live r -> getSlabForMemory x <> ctx_slab ctx
                    else forall x, x ∈ rc_live r -> getSlabForMemory x = ctx_slab ctx -> x ∈ activeAllocations_ ctx
  | ph => exists w' ph', thread_step rnd hint mode (rc_cs r) ph w' ph'
  end.
Proof.
  intros Hwf Hid HI Hrun. assert (HR0 : RInv (mkRace (mkCS sa ac) L Starting)) by done.
  pose proof (race_inv rnd hint mode _ r HR0 Hrun) as HR.
  destruct r as [w L' ph]. pose proof (next_step rnd hint mode w L' ph HR) as Hn. destruct HR as (Hwf' & Hid' & HP).
  destruct w as [sa' ac']. cbn [rc_cs rc_live rc_phase cs_sa cs_ac] in *. pose proof (phase_CInv _ _ _ _ HP) as HC. split; [|split].
  - destruct (runs_elim _ _ _ (ac_allocate_ok sa' _ _ Hwf' ac' HC)) as (x & w' & E & _). by exists x, w'.
  - intros x Hx. apply elem_of_Permutation in Hx as [k Hk].
    assert (HC' : CInv sa' ac' (target ph) (x :: held ph ++ k)) by (eapply CInv_perm; [|exact HC]; by rewrite Hk, <- Permutation_middle).
    destruct (runs_elim _ _ _ (ac_free_ok sa' ac' _ _ x Hwf' HC')) as (r & w' & E & -> & _). by exists w'.
  - destruct ph; cbn [next_ok] in Hn.
    + destruct (runs_elim _ _ _ Hn) as (? & ? & -> & _). done.
    + destruct (runs_elim _ _ _ Hn) as (? & ? & E & _). do 2 eexists. by constructor.
    + destruct (runs_elim _ _ _ Hn) as (r' & w' & E & p' & -> & _). cbn [phase_inv] in HP. destruct HP as [-> HPI].
      destruct (runs_elim _ _ _ (prune_locked_ok sa' slab Hwf' ac' p L' HPI)) as (r'' & w'' & E' & -> & Esa & _ & HPI').
      rewrite E in E'. injection E' as -> <-. destruct (pr_freeAllocs p) as [|x fa] eqn:Efa.
      * do 2 eexists. split; [eapply ts_last; [exact E|done]|done].
      * do 2 eexists. split; [eapply ts_batch; [exact E|done]|]. rewrite Esa.
        assert (Hv : valid sa' slab) by (apply (ci_valid sa' ac' _ _ Hwf' (pi_inv _ _ _ _ _ HPI)); apply releasing_slabs, HPI).
        destruct (prune_batch_ok sa' slab Hwf' (x :: fa) Hv) as (p1 & -> & _ & _ & _ & Hl). simpl in *. lia.
    + destruct (runs_elim _ _ _ Hn) as (? & ? & E & ? & -> & _). do 2 eexists. by constructor.
    + destruct (runs_elim _ _ _ Hn) as (? & ? & E & _). do 2 eexists. by constructor.
    + cbn [phase_inv] in HP. destruct HP as [HI' [(-> & h & Hh & Ec)|(-> & _ & Hact)]]; [|done].
      intros x Hx. apply (live_not_in sa' ac' None L' (ctx_slab ctx) h Hwf' HI' Hh); [|done]. rewrite Ec. unfold kInvalidClassId. lia.
Qed.

(** The half-slab class of the demo; one of its two live chunks is freed
    after its slab was picked. *)
Definition demo_class : CS :=
  match aget (pools_ (w_ma demo_world)) 0 with
  | Some p => match aget (ac_vec p) 0 with Some ac => mkCS (slabAllocator_ (w_ma demo_world)) ac | None => mkCS (slabAllocator_ (w_ma demo_world)) (mkAC 0 0 1 0 0 [] [] [] true 0 ∅) end
  | None => mkCS (slabAllocator_ (w_ma demo_world)) (mkAC 0 0 1 0 0 [] [] [] true 0 ∅)
  end.

Lemma demo_class_inv : SAWf (cs_sa demo_class) /\ 0 <= ac_classId (cs_ac demo_class) /\ CInv (cs_sa demo_class) (cs_ac demo_class) None [2 ^ 24 + 2 ^ 23; 2 ^ 24].
Proof.
  destruct (fresh_inv _ _ _ _ _ _ _ demo_fresh demo_reach) as (HM & _ & _). pose proof (si_wf _ (mi_sa _ _ _ HM)) as Hwf.
  unfold demo_class. destruct (aget (pools_ (w_ma demo_world)) 0) as [p|] eqn:Hp; [|vm_compute in Hp; discriminate Hp].
  destruct (mi_pools _ _ _ HM 0 p Hp) as (_ & _ & d & HP).
  destruct (aget (ac_vec p) 0) as [ac|] eqn:Hac.
  2: { exfalso. vm_compute in Hp. injection Hp as <-. vm_compute in Hac. discriminate Hac. }
  destruct (pv_class _ _ _ _ _ HP 0 ac Hac) as (E & _ & _ & HC). split; [exact Hwf|]. split; [simpl; lia|].
  assert (El : chunks_of (w_live demo_world) 0 0 = [2 ^ 24 + 2 ^ 23; 2 ^ 24]) by (vm_compute; reflexivity). rewrite El in HC. exact HC.
Qed.

Definition demo_race : option Race :=
  match pick_slab 0 0 demo_class with
  | Some (inr (s, hd, false), w1) =>
      match ac_free (2 ^ 24) w1 with
      | Some (_, w2) =>
          match prune_begin s w2 with
          | Some (p, w3) =>
              match prune_locked s p w3 with
              | Some (inr (mkPrune [] _ _), w4) =>
                  match prune_collect s w4 with
                  | Some (inr active, w5) =>
                      match release_pruned s hd active kResize w5 with
                      | Some (c, w6) => Some (mkRace w6 [2 ^ 24 + 2 ^ 23] (Finished c))
                      | None => None
                      end
                  | _ => None
                  end
              | _ => None
              end
          | None => None
          end
      | None => None
      end
  | _ => None
  end.

Lemma demo_race_runs r : demo_race = Some r ->
  rtc (race_step 0 0 kResize) (mkRace demo_class [2 ^ 24 + 2 ^ 23; 2 ^ 24] Starting) r.
Proof.
  unfold demo_race. intros H.
  destruct (pick_slab 0 0 demo_class) as [[[|[[s hd] [|]]] w1]|] eqn:E1; [discriminate H|discriminate H| |discriminate H].
  destruct (ac_free (2 ^ 24) w1) as [[r2 w2]|] eqn:E2; [|discriminate H]. destruct (prune_begin s w2) as [[p w3]|] eqn:E3; [|discriminate H].
  destruct (prune_locked s p w3) as [[[|[[|] i o]] w4]|] eqn:E4; [discriminate H| |discriminate H|discriminate H].
  destruct (prune_collect s w4) as [[[|active] w5]|] eqn:E5; [discriminate H| |discriminate H].
  destruct (release_pruned s hd active kResize w5) as [[c w6]|] eqn:E6; [|discriminate H]. injection H as <-.
  eapply rtc_l; [apply rs_thread, (ts_pick 0 0 kResize _ _ _ _ E1)|].
  eapply rtc_l; [eapply (rs_free 0 0 kResize _ _ [2 ^ 24 + 2 ^ 23] _ (2 ^ 24)); [apply Permutation_swap|exact E2]|].
  eapply rtc_l; [apply rs_thread, (ts_begin 0 0 kResize _ _ _ _ _ E3)|].
  eapply rtc_l; [apply rs_thread, (ts_last 0 0 kResize _ _ _ _ _ _ E4 eq_refl)|].
  eapply rtc_l; [apply rs_thread, (ts_collect 0 0 kResize _ _ _ _ _ E5)|].
  apply rtc_once, rs_thread, (ts_finish 0 0 kResize _ _ _ _ _ _ E6).
Qed.

Lemma release_race_safe_witness : exists w L ctx, demo_race = Some (mkRace w L (Finished ctx)) /\ isReleased ctx = false /\
  (exists x w', ac_allocate w = Some (x, w')) /\
  (forall x, x ∈ L -> getSlabForMemory x = ctx_slab ctx -> x ∈ activeAllocations_ ctx).
Proof.
  assert (E : exists w L ctx, demo_race = Some (mkRace w L (Finished ctx)) /\ isReleased ctx = false).
  { do 3 eexists. vm_compute. split; reflexivity. }
  destruct E as (w & L & ctx & E & Hrel). exists w, L, ctx. split; [exact E|]. split; [exact Hrel|].
  destruct demo_class_inv as (H1 & H2 & H3).
  assert (Hd : demo_class = mkCS (cs_sa demo_class) (cs_ac demo_class)) by (destruct demo_class; reflexivity).
  pose proof (demo_race_runs _ E) as Hr. rewrite Hd in Hr.
  destruct (release_race_safe 0 0 kResize _ _ _ _ H1 H2 H3 Hr) as (Ha & _ & Hfin). cbn [rc_cs rc_live rc_phase] in *.
  rewrite Hrel in Hfin. split; [exact Ha|exact Hfin].
Defined.

(** ** Class sizes and buffer allocators *)

(** C33: for every [double] factor, every maximum above zero and every minimum, the computation of
    the class sizes ends.  Its behaviour is undefined only if the minimum is zero or the factor takes some size of at
    most a slab out of the range of [uint32_t]; it throws only for a maximum above the slab size, a factor of at
    most one or one that leaves some such size as it is; otherwise the
    sizes are strictly increasing, at most 128, positive and no larger than a slab.  A pool accepts them
    if they are at most 127 and none is below [kMinAllocSize]. *)
Theorem generated_sizes_typed factor maxSize minSize reduceFragmentation :
  valid_binary Dbl.prec Dbl.emax factor = true -> 0 < maxSize -> 0 <= minSize ->
  match generateAllocSizes factor maxSize minSize reduceFragmentation with
  | NoFuel => False
  | Undefined => minSize = 0 \/ leaves_range factor
  | Done (inl _) => kSize < maxSize \/ Dbl.leb factor Dbl.one = true \/ stays factor
  | Done (inr sizes) =>
      increasing sizes /\ (length sizes <= 128)%nat /\ Forall (fun x => 0 < x <= kSize) sizes /\
      (forall sa id size, SAWf sa -> 0 <= id -> 0 <= size -> (length sizes <= 127)%nat -> Forall (fun x => kMinAllocSize <= x) sizes ->
         exists p, MemoryPool_new sa id size sizes = Some (inr p) /\ acSizes_ p = sizes)
  end.
Proof.
  intros Hv Hmax Hmin. destruct (Dbl.leb factor Dbl.one) eqn:Hf.
  { unfold generateAllocSizes. rewrite Hf. destruct (_ <? _); auto. }
  pose proof (generate_ends factor Hv Hf maxSize minSize reduceFragmentation Hmin) as He.
  destruct (generateAllocSizes _ _ _ _) as [| |[e|sizes]] eqn:E; [done|done|by destruct He; auto|].
  destruct (generate_inv _ _ _ _ _ Hmax Hmin E) as (Hinc & Hlen & HF). split_and!; try done.
  intros sa id size Hwf Hid Hsz Hl Hm. apply pool_accepts; try done. by apply (generate_nonempty _ _ _ _ _ E).
Qed.

Lemma generated_sizes_typed_witness : increasing class_sizes /\ (length class_sizes <= 128)%nat.
Proof.
  assert (Hv : valid_binary Dbl.prec Dbl.emax default_factor = true) by reflexivity.
  assert (H1 : 0 < kSize) by (rewrite kSize_eq; lia). assert (H2 : 0 <= 72) by lia.
  pose proof (generated_sizes_typed default_factor kSize 72 false Hv H1 H2) as H. change (generateAllocSizes default_factor kSize 72 false) with default_sizes in H.
  rewrite default_sizes_eq in H. destruct H as (Ha & Hb & _). split; [exact Ha|exact Hb].
Defined.

(** a segment becomes a CacheLib allocator exactly when its base and size are
    multiples of the slab size and it has fewer than 2^32 slabs; otherwise the constructor throws.
    The new allocator covers the segment and is empty. *)
Theorem cachelib_create_exact name base size : 0 < base -> 0 < size -> base + size < 2 ^ 64 ->
  if (base mod kSize =? 0) && (size mod kSize =? 0) && (size <? 2 ^ 32 * kSize) then
    exists b, cb_create name base size = Some (Some b) /\ cb_base b = base /\ cb_total_size b = size /\ cb_cur_size b = 0 /\
      exists p, aget (pools_ (memory_allocator_ b)) (pool_id_ b) = Some p /\ maxSize_ p = size /\ acSizes_ p = class_sizes
  else cb_create name base size = Some None.
Proof.
  intros Hb Hs He. pose proof (main_allocator_ok base size Hb Hs He) as H. fold (slab_aligned base size). unfold cb_create.
  destruct (slab_aligned base size).
  - destruct H as (m & id & p & -> & _ & Hp & Esz & Emx & _). eexists. split; [reflexivity|]. split_and!; try done. by exists p.
  - by destruct H as [e ->].
Qed.

Lemma cachelib_create_exact_witness : cb_create "seg" (2 ^ 24) (2 ^ 25 + 1) = Some None.
Proof. apply (cachelib_create_exact "seg" (2 ^ 24) (2 ^ 25 + 1)); lia. Defined.

(** The buffers a client of a CacheLib allocator holds after any sequence of
    allocations and deallocations. *)
Inductive buffers (b0 : CachelibBufferAllocator) : CachelibBufferAllocator -> list (Out Z) -> Prop :=
  | bu_new : buffers b0 b0 []
  | bu_allocate b l size p h b' : buffers b0 b l -> 0 <= size <= kMaxSliceSize ->
      cb_allocate size b = Some (Some (p, h), b') -> buffers b0 b' ((p, size, h) :: l)
  | bu_fail b l size b' : buffers b0 b l -> 0 <= size <= kMaxSliceSize -> cb_allocate size b = Some (None, b') -> buffers b0 b' l
  | bu_deallocate b l1 x l2 b' : buffers b0 b (l1 ++ x :: l2) -> cb_deallocate x.2 x.1.2 b = Some (tt, b') -> buffers b0 b' (l1 ++ l2).

Lemma buffers_inv b0 b l : cb_inv b0 [] -> buffers b0 b l -> cb_inv b l /\ cb_base b = cb_base b0 /\ cb_total_size b = cb_total_size b0.
Proof.
  intros H0. induction 1 as [|b l size p h b' _ (IH & E1 & E2) Hs E|b l size b' _ (IH & E1 & E2) Hs E|b l1 [[p s] h] l2 b' _ (IH & E1 & E2) E]; [done|..].
  - destruct (cb_allocate_ok b l size IH Hs) as (r & b1 & E' & (F1 & F2 & _) & Hr). rewrite E in E'. injection E' as <- <-. simpl in *. split; [done|]. split; congruence.
  - destruct (cb_allocate_ok b l size IH Hs) as (r & b1 & E' & (F1 & F2 & _) & Hr). rewrite E in E'. injection E' as <- <-. simpl in *. split; [done|]. split; congruence.
  - destruct (cb_deallocate_ok b l1 l2 p s h IH) as (b1 & E' & (F1 & F2 & _) & Hr). cbn [fst snd] in E. rewrite E in E'. injection E' as <-. simpl in *. split; [done|]. split; congruence.
Qed.

(** C32: a CacheLib allocator over a segment that does not start at address zero, is not empty and ends below
    2^64 keeps the contract of buffer allocators, as long as every request is of at most [kMaxSliceSize] bytes, the limit
    the master checks (a longer size is truncated to 32 bits), and buffers are given back once, as they were handed out: after any sequence
    of such calls its outstanding buffers are disjoint ranges of the segment, the reported size is the sum of their sizes, and every further
    such allocation and deallocation returns. *)
Theorem cachelib_buffers_exact name base size b0 b l : 0 < base -> 0 < size -> base + size < 2 ^ 64 ->
  cb_create name base size = Some (Some b0) -> buffers b0 b l ->
  (forall x, x ∈ l -> base <= x.1.1 /\ x.1.1 + x.1.2 <= base + size) /\
  (forall i j x y, i <> j -> l !! i = Some x -> l !! j = Some y -> x.1.1 + x.1.2 <= y.1.1 \/ y.1.1 + y.1.2 <= x.1.1) /\
  cb_cur_size b = out_total l /\
  (forall n, 0 <= n <= kMaxSliceSize -> exists r b', cb_allocate n b = Some (r, b')) /\
  (forall x, x ∈ l -> exists b', cb_deallocate x.2 x.1.2 b = Some (tt, b')).
Proof.
  intros Hb Hs He Ec Hbu. pose proof (cb_create_ok name base size Hb Hs He) as H. destruct (slab_aligned base size); [|rewrite Ec in H; discriminate H].
  destruct H as (b1 & Ec' & HI & Eb & Et & _). rewrite Ec in Ec'. injection Ec' as <-. clear Ec.
  destruct (buffers_inv b0 b l HI Hbu) as (HI' & E1 & E2). rewrite <- Eb, <- Et, <- E1, <- E2. split; [|split; [|split; [|split]]].
  - intros x Hx. destruct (cb_bounds b l x HI' Hx) as (? & ? & ?). done.
  - intros i j x y Hij Hx Hy. exact (cb_apart b l i j x y HI' Hij Hx Hy).
  - exact (cv_size b l HI').
  - intros n Hn. destruct (cb_allocate_ok b l n HI' Hn) as (r & b' & E & _). by exists r, b'.
  - intros [[p n] h] Hx. apply list_elem_of_split in Hx as (l1 & l2 & ->).
    destruct (cb_deallocate_ok b l1 l2 p n h HI') as (b' & E & _). by exists b'.
Qed.

Lemma cachelib_buffers_exact_witness : exists b0 b p h, cb_create "seg" (2 ^ 24) (2 ^ 25) = Some (Some b0) /\
  cb_allocate 1000 b0 = Some (Some (p, h), b) /\ cb_cur_size b = out_total [(p, 1000, h)] /\ out_total [(p, 1000, h)] = 1000.
Proof.
  assert (E : exists b0 b p h, cb_create "seg" (2 ^ 24) (2 ^ 25) = Some (Some b0) /\ cb_allocate 1000 b0 = Some (Some (p, h), b)).
  { assert (H : match cb_create "seg" (2 ^ 24) (2 ^ 25) with
                | Some (Some b0) => match cb_allocate 1000 b0 with Some (Some _, _) => true | _ => false end
                | _ => false
                end = true) by (vm_compute; reflexivity).
    destruct (cb_create "seg" (2 ^ 24) (2 ^ 25)) as [[b0|]|]; [|discriminate H|discriminate H].
    destruct (cb_allocate 1000 b0) as [[[[p h]|] b]|] eqn:E; [|discriminate H|discriminate H]. exists b0, b, p, h. split; [reflexivity|exact E]. }
  destruct E as (b0 & b & p & h & E0 & E). exists b0, b, p, h. split; [exact E0|]. split; [exact E|].
  split; [|reflexivity]. assert (Hk : 0 <= 1000 <= kMaxSliceSize) by (vm_compute; split; discriminate).
  assert (H1 : 0 < 2 ^ 24) by lia. assert (H2 : 0 < 2 ^ 25) by lia. assert (H3 : 2 ^ 24 + 2 ^ 25 < 2 ^ 64) by lia.
  exact (proj1 (proj2 (proj2 (cachelib_buffers_exact "seg" _ _ b0 b _ H1 H2 H3 E0 (bu_allocate b0 b0 [] 1000 p h b (bu_new b0) Hk E))))).
Defined.

End SlabProps.
