(* ===== verification/SlabFlaws.v ===== *)
(** * SlabFlaws: where the slab allocator loses slabs, limits or bytes

    Each theorem of this file states a behaviour of the code that a caller
    does not expect. *)

From Stdlib Require Import ZArith Lia SpecFloat.
From stdpp Require Import base list gmap strings numbers.
From S2P Require Import Prelude Types Double Slab SlabClass SlabPool SlabMemory SlabInv SlabOps SlabRelease SlabStart SlabRace SlabPoolInv SlabPoolOps SlabPoolRelease SlabSys SlabAdmin SlabClient BufAlloc SlabBuffer SlabProps.
Import Types Slab SlabClass SlabPool SlabMemory SlabFacts SlabInv SlabOps SlabRelease SlabPrune SlabStart SlabRace SlabPoolInv SlabSys SlabClient CachelibBuffer SimpleBuffer SlabProps.

Open Scope moon_scope.
Open Scope Z_scope.

Module SlabFlaws.

(** ** An aborted start *)

Lemma bindx_err {S A B} (c : ST S (Res A)) (k : A -> ST S (Res B)) s e s'' : bindx c k s = Some (inl e, s'') ->
  c s = Some (inl e, s'') \/ exists a s', c s = Some (inr a, s') /\ k a s' = Some (inl e, s'').
Proof. unfold bindx, bind. destruct (c s) as [[[e'|a] s']|]; [|by right; exists a, s'|done]. intros [= -> ->]. by left. Qed.

#[local] Opaque prune_loop prune_begin.

(** Pruning keeps the slabs of the class, aborted or not. *)
Lemma prune_slabs sa ac L s abort r w' : SAWf sa -> CInv sa ac (Some s) L -> s ∈ releasing ac ->
  pruneFreeAllocs abort s (mkCS sa ac) = Some (r, w') -> exists b active ac1 L1 fr, r = inr (b, active) /\
    w' = mkCS sa (set_freed fr ac1) /\ same_class ac ac1 /\ CInv sa ac1 (Some s) L1 /\ s ∈ releasing ac1.
Proof.
  intros Hwf HI Hr Hrun. refine (runs_post _ _ _ _ (fun r w' => exists b active ac1 L1 fr, r = inr (b, active) /\
    w' = mkCS sa (set_freed fr ac1) /\ same_class ac ac1 /\ CInv sa ac1 (Some s) L1 /\ s ∈ releasing ac1) _ Hrun). clear Hrun.
  unfold pruneFreeAllocs. csteps. apply runs_bind. eapply runs_mono; [by apply (prune_begin_ok sa s Hwf ac L)|].
  intros p [sa1 ac1] (E1 & Hsc1 & Hcan & HP1 & Hl). cbn [cs_sa cs_ac] in *. subst sa1. apply runs_bindx.
  eapply runs_mono; [apply (prune_loop_ok sa s Hwf _ 0 abort ac1 p L HP1); lia|].
  intros r2 [sa2 ac2] (E2 & Hsc2 & b & p' & -> & HP2 & Hcase). cbn [cs_sa cs_ac fst snd] in *. subst sa2.
  pose proof (same_class_trans _ _ _ Hsc1 Hsc2) as Hsc. pose proof HP2 as [HC Hrel _ _ Hfr _]. destruct Hcase as [[-> _]|[-> Eo]].
  - unfold prune_undo. csteps. do 5 eexists. split; [done|]. split; [done|]. by split.
  - rewrite Eo in HC. apply runs_bindx. eapply runs_mono; [by apply (prune_collect_ok sa s Hwf ac2 (Some s) L)|].
    intros r3 w3 (-> & bits & _ & -> & _). apply runs_ret. exists false, (clear (allocationSize_ ac2) s 0 bits), ac2, L, (freedAllocations_ ac2).
    split; [done|]. split; [by destruct ac2|]. by split.
Qed.

(** When the callback of [startSlabRelease] aborts it, the slab picked belongs to the
    class by its header and to none of the lists of the class: it is never
    carved again, and the class can not release it any more. *)
Theorem aborted_start_loses_slab sa ac L abort rnd mode hint w' : SAWf sa -> 0 <= ac_classId ac -> CInv sa ac None L ->
  ac_startSlabRelease abort rnd mode hint (mkCS sa ac) = Some (inl SlabReleaseAborted, w') ->
  exists s h, s ∈ slabs ac /\ ~ (s ∈ slabs (cs_ac w')) /\
    hdr (cs_sa w') s = Some h /\ h_poolId h = ac_poolId ac /\ h_classId h = ac_classId ac /\ isMarkedForRelease h = false.
Proof.
  intros Hwf Hid HI H. unfold ac_startSlabRelease in H. apply bind_inv in H as (v & w0 & E0 & H). injection E0 as <- <-.
  destruct (_ && _); [discriminate H|]. pose proof (pick_slab_ok sa ac L rnd hint Hwf Hid HI) as Hpick.
  apply bindx_err in H as [H|([[s hd] free] & [sa1 ac1] & E1 & H)].
  { destruct (runs_post _ _ _ _ _ Hpick H) as [_ [[Hr _]|(s & h & _ & _ & [(Hr & _)|(Hr & _)])]]; discriminate Hr. }
  destruct (runs_post _ _ _ _ _ Hpick E1) as [(Ec1 & Ep1 & _) Hcase]. cbn [cs_sa cs_ac] in *.
  destruct Hcase as [[Hr _]|(s' & h & Hof & Hm & [([= -> -> ->] & _)|([= -> -> ->] & -> & Hrel & HC)])]; [discriminate Hr| |].
  { unfold bind in H. destruct (context _ _ _ _ _) as [[c w2]|]; discriminate H. }
  pose proof Hof as (Hh & Hhp & Hhc). set (h1 := setMarkedForRelease true h) in *. set (sa1 := put sa s' h1) in *.
  assert (Hwf1 : SAWf sa1) by (by apply put_wf). assert (Hh1 : hdr sa1 s' = Some h1) by (by apply (hdr_put_eq sa Hwf s' h)).
  apply bindx_err in H as [H|([b active] & w2 & E2 & H)].
  { destruct (prune_slabs sa1 ac1 L s' abort _ _ Hwf1 HC Hrel H) as (? & ? & ? & ? & ? & Hr & _). discriminate Hr. }
  destruct (prune_slabs sa1 ac1 L s' abort _ _ Hwf1 HC Hrel E2) as (b' & act' & ac2 & L2 & fr & _ & -> & (Ec2 & Ep2 & _) & HC2 & Hrel2).
  cbn [fst snd] in H. destruct b; [|unfold bind in H; destruct (release_pruned _ _ _ _ _) as [[c w3]|]; discriminate H].
  apply bind_inv in H as ([] & w3 & E3 & H). injection H as <-. unfold release_aborted in E3. apply bind_inv in E3 as ([] & w4 & E4 & E3).
  injection E3 as <-. unfold on_sa in E4. cbn [cs_sa cs_ac] in E4.
  replace (Some (idx sa s')) with (getSlabHeader sa1 s') in E4 by (apply (getSlabHeader_valid sa1 Hwf1); by apply (hdr_valid sa1 Hwf1 s' h1)).
  rewrite (write_ok sa1 Hwf1 s' h1 _ Hh1) in E4. injection E4 as <-. cbn [cs_sa cs_ac].
  exists s', (setMarkedForRelease false h1). split; [apply (ci_own _ _ _ _ HI); by exists h|].
  pose proof Hrel2 as [bits Hb]%releasing_elem.
  split; [|split; [by apply (hdr_put_eq sa1 Hwf1 s' h1)|]; split; [done|]; split; [done|apply marked_unset]].
  pose proof (ci_nodup _ _ _ _ HC2) as ND. unfold slabs in *. simpl. unfold releasing in ND |- *. simpl.
  rewrite (releasing_delete _ s' bits Hb) in ND. rewrite <- !Permutation_middle in ND. apply list.NoDup_cons in ND as [Hni _]. exact Hni.
Qed.

(** The slab of the demo class whose release is aborted at the first poll. *)
Lemma aborted_start_loses_slab_witness : exists w', 
  ac_startSlabRelease (fun _ => true) 0 kResize 0 demo_class = Some (inl SlabReleaseAborted, w') /\
  exists s h, s ∈ slabs (cs_ac demo_class) /\ ~ (s ∈ slabs (cs_ac w')) /\ hdr (cs_sa w') s = Some h /\
    h_poolId h = ac_poolId (cs_ac demo_class) /\ h_classId h = ac_classId (cs_ac demo_class) /\ isMarkedForRelease h = false.
Proof.
  assert (E : exists w', ac_startSlabRelease (fun _ => true) 0 kResize 0 demo_class = Some (inl SlabReleaseAborted, w')).
  { eexists. vm_compute. reflexivity. }
  destruct E as [w' E]. exists w'. split; [exact E|]. destruct demo_class_inv as (H1 & H2 & H3).
  assert (Hd : demo_class = mkCS (cs_sa demo_class) (cs_ac demo_class)) by (destruct demo_class; reflexivity). rewrite Hd in E.
  exact (aborted_start_loses_slab _ _ _ _ _ _ _ _ H1 H2 H3 E).
Defined.

(** ** A pool of 128 classes *)

(** A pool may have [kMaxClasses] = 128 classes, but their number does not fit the
    [ClassId] (a signed byte) it is compared with: no allocation of such a pool can be freed. *)
Theorem full_pool_never_frees memory w r w' : length (ac_vec (ps_mp w)) = 128%nat -> mp_free memory w = Some (r, w') ->
  (exists e, r = inl e) /\ w' = w.
Proof.
  intros Hl H. cut (forall r1 w1, getAllocationClassId_mem memory w = Some (r1, w1) -> (exists e, r1 = inl e) /\ w1 = w).
  { intros Hc. unfold mp_free, bindx, bind in H. destruct (getAllocationClassId_mem memory w) as [[r1 w1]|]; [|discriminate H].
    destruct (Hc r1 w1 eq_refl) as [[e ->] ->]. injection H as <- <-. split; [by exists e|done]. }
  clear r w' H. intros r w' H. unfold getAllocationClassId_mem in H. apply bind_inv in H as (w0 & w1 & E0 & H). injection E0 as <- <-.
  destruct (getSlabHeader_mem (ps_sa w) memory) as [i|]; [|injection H as <- <-; split; [by eexists|done]].
  apply bind_inv in H as (h & w1 & E1 & H).
  assert (w1 = w) as ->.
  { unfold pool_sa, read_header in E1. simpl in E1. destruct (aget (headers (ps_sa w)) i); [|discriminate E1]. injection E1 as _ <-. by destruct w. }
  destruct (negb _); [injection H as <- <-; split; [by eexists|done]|].
  destruct (h_classId h =? kInvalidClassId); [injection H as <- <-; split; [by eexists|done]|].
  assert (Eb : (s8 (Z.of_nat (length (ac_vec (ps_mp w)))) <=? h_classId h) || (h_classId h <? 0) = true).
  { rewrite Hl. change (s8 (Z.of_nat 128)) with (-128). apply orb_true_iff. destruct (Z.ltb_spec (h_classId h) 0); [by right|left; apply Z.leb_le; lia]. }
  rewrite Eb in H. injection H as <- <-. split; [by eexists|done].
Qed.

(** A factor of 1.05 generates 128 sizes. *)
Definition fine_sizes : list Z :=
  match generateAllocSizes (Dbl.div (Dbl.of_Z 21) (Dbl.of_Z 20)) kSize 64 false with Done (inr l) => l | _ => [] end.
Definition fine_world : option (Z * PS) :=
  match addPool "fine" (2 ^ 26) fine_sizes false (w_ma demo_start) with
  | Some (inr id, m) =>
      match ma_allocate id 100 m with
      | Some (inr x, m') => match aget (pools_ m') id with Some p => Some (x, mkPS (slabAllocator_ m') p) | None => None end
      | _ => None
      end
  | _ => None
  end.

Lemma full_pool_never_frees_witness : exists x w r w', fine_world = Some (x, w) /\ x <> 0 /\ mp_free x w = Some (r, w') /\
  (exists e, r = inl e) /\ w' = w.
Proof.
  assert (H : match fine_world with
              | Some (x, w) => negb (x =? 0) && bool_decide (length (ac_vec (ps_mp w)) = 128%nat) && (match mp_free x w with Some _ => true | None => false end)
              | None => false
              end = true) by (vm_compute; reflexivity).
  destruct fine_world as [[x w]|]; [|discriminate H]. apply andb_true_iff in H as [[Hx Hl]%andb_true_iff Hf]. apply bool_decide_eq_true in Hl.
  destruct (mp_free x w) as [[r w']|] eqn:E; [|discriminate Hf]. exists x, w, r, w'. split; [reflexivity|].
  split; [by apply negb_true_iff, Z.eqb_neq in Hx|]. split; [exact E|]. exact (full_pool_never_frees x w r w' Hl E).
Defined.

(** ** Limits and bytes *)

(** Slab [s] of the demo goes to the free slabs of its pool and from there to
    other pools; the pool then takes more slabs. *)
Definition limit_calls : list Call :=
  [AddPool "small" (2 * 2 ^ 24) [] false; Allocate 0 (2 ^ 24); Allocate 0 (2 ^ 24);
   Free (mkLive 0 1 (2 ^ 24)); StartSlabRelease 0 0 1 kInvalidClassId kRebalance (2 ^ 24);
   StartSlabRelease 0 0 kInvalidClassId kInvalidClassId kResize 0;
   Allocate 0 (2 ^ 24); Allocate 0 (2 ^ 24)].

(** Releasing a free slab of a pool subtracts it from the slabs of the pool although
    it was not counted among them: a pool of two slabs ends up with three live slabs and is not over its limit. *)
Theorem pool_exceeds_limit : exists w p, run_calls limit_calls demo_start = Some w /\ aget (pools_ (w_ma w)) 0 = Some p /\
  maxSize_ p = 2 * kSize /\ length (w_live w) = 3%nat /\ Forall (fun x => lv_pool x = 0 /\ live_size (w_ma w) x = kSize) (w_live w) /\
  overLimit p = false.
Proof.
  assert (H : match run_calls limit_calls demo_start with
              | Some w => match aget (pools_ (w_ma w)) 0 with
                          | Some p => (maxSize_ p =? 2 * kSize) && bool_decide (length (w_live w) = 3%nat) &&
                                      forallb (fun x => (lv_pool x =? 0) && (live_size (w_ma w) x =? kSize)) (w_live w) && negb (overLimit p)
                          | None => false end
              | None => false end = true) by (vm_compute; reflexivity).
  destruct (run_calls limit_calls demo_start) as [w|]; [|discriminate H].
  destruct (aget (pools_ (w_ma w)) 0) as [p|] eqn:Hp; [|discriminate H]. exists w, p. repeat (apply andb_true_iff in H as [H ?]).
  split; [reflexivity|]. split; [done|]. split; [by apply Z.eqb_eq|]. split; [by eapply bool_decide_eq_true|]. split; [|by apply negb_true_iff].
  apply list.Forall_forall. intros x Hx%list_elem_of_In. 
  match goal with Hf : forallb _ _ = true |- _ => rewrite forallb_forall in Hf; specialize (Hf x Hx); apply andb_true_iff in Hf as [? ?] end.
  split; by apply Z.eqb_eq.
Qed.

(** [SimpleAllocator::allocate] takes a [size_t] and passes it on as 32 bits: a request of
    4 GiB and 64 bytes is answered with a buffer of 72 bytes. *)
Theorem simple_allocate_truncates : exists a a' x, simple_create (Some (2 ^ 24)) (2 ^ 25) = Some (Some a) /\
  simple_allocate (2 ^ 32 + 64) a = Some (x, a') /\ x <> 0 /\ live_size (sm_memory_allocator a') (mkLive 0 0 x) = 72.
Proof.
  assert (H : match simple_create (Some (2 ^ 24)) (2 ^ 25) with
              | Some (Some a) => match simple_allocate (2 ^ 32 + 64) a with
                                 | Some (x, a') => negb (x =? 0) && (live_size (sm_memory_allocator a') (mkLive 0 0 x) =? 72)
                                 | None => false end
              | _ => false end = true) by (vm_compute; reflexivity).
  destruct (simple_create (Some (2 ^ 24)) (2 ^ 25)) as [[a|]|]; [|discriminate H|discriminate H].
  destruct (simple_allocate (2 ^ 32 + 64) a) as [[x a']|] eqn:E; [|discriminate H]. apply andb_true_iff in H as [H1 H2].
  exists a, a', x. split; [reflexivity|]. split; [exact E|]. split; [by apply negb_true_iff, Z.eqb_neq in H1|by apply Z.eqb_eq].
Qed.

(** ** A receiver that does not exist *)

(** The half-slab class of the demo has a slab and no live chunk. *)
Definition idle_calls : list Call := demo_setup ++ [Free (mkLive 0 0 (2 ^ 24)); Free (mkLive 0 0 (2 ^ 24 + 2 ^ 23))].

(** A release for a class that does not exist throws after the slab left its class: the slab
    stays with the pool by its header and is on no list. *)
Theorem bad_receiver_loses_slab : exists w m p h, run_calls idle_calls demo_start = Some w /\
  ma_startSlabRelease (fun _ => false) 0 0 0 7 kRebalance 0 (w_ma w) = Some (inl invalid_argument, m) /\
  aget (pools_ m) 0 = Some p /\ hdr (slabAllocator_ m) (2 ^ 24) = Some h /\ h_poolId h = 0 /\ h_classId h = kInvalidClassId /\
  ~ (2 ^ 24 ∈ mp_freeSlabs p) /\ ~ (2 ^ 24 ∈ sa_freeSlabs (slabAllocator_ m)) /\
  Forall (fun ac => ~ (2 ^ 24 ∈ slabs ac)) (ac_vec p).
Proof.
  assert (H : match run_calls idle_calls demo_start with
    | Some w => match ma_startSlabRelease (fun _ => false) 0 0 0 7 kRebalance 0 (w_ma w) with
        | Some (inl invalid_argument, m) => match aget (pools_ m) 0, hdr (slabAllocator_ m) (2 ^ 24) with
            | Some p, Some h => (h_poolId h =? 0) && (h_classId h =? kInvalidClassId) && negb (bool_decide (2 ^ 24 ∈ mp_freeSlabs p)) &&
                negb (bool_decide (2 ^ 24 ∈ sa_freeSlabs (slabAllocator_ m))) && forallb (fun ac => negb (bool_decide (2 ^ 24 ∈ slabs ac))) (ac_vec p)
            | _, _ => false end
        | _ => false end
    | None => false end = true) by (vm_compute; reflexivity).
  destruct (run_calls idle_calls demo_start) as [w|]; [|discriminate H].
  destruct (ma_startSlabRelease _ _ _ _ _ _ _ _) as [[[[]|] m]|] eqn:E; try discriminate H.
  destruct (aget (pools_ m) 0) as [p|] eqn:Hp; [|discriminate H]. destruct (hdr (slabAllocator_ m) (2 ^ 24)) as [h|] eqn:Hh; [|discriminate H].
  repeat (apply andb_true_iff in H as [H ?]). repeat match goal with Hb : negb _ = true |- _ => apply negb_true_iff, bool_decide_eq_false in Hb end.
  exists w, m, p, h. split; [reflexivity|]. split_and!; try done; try (by apply Z.eqb_eq).
  apply list.Forall_forall. intros ac Hac%list_elem_of_In.
  match goal with Hf : forallb _ _ = true |- _ => rewrite forallb_forall in Hf; specialize (Hf ac Hac);
    by apply negb_true_iff, bool_decide_eq_false in Hf end.
Qed.

End SlabFlaws.
