(* ===== verification/Segment.v ===== *)
(** * Segment: the segment manager

    Models mooncake-store/include/segment.h and src/segment.cpp.  Allocator
    objects live in [heap] under an identity; the containers hold shared
    pointers, i.e. identities, and an object is [alive] while a container
    refers to it (buffers hold weak pointers only).  Every operation runs
    under [segment_mutex_].  The gauges of the metric manager that these
    operations update are part of the state. *)

From Stdlib Require Import ZArith Lia.
From stdpp Require Import base list gmap strings numbers.
From S2P Require Import Prelude Types BufAlloc.
Import Types.

Open Scope moon_scope.
Open Scope Z_scope.

(** [std::find] and [erase]: drops the first occurrence. *)
Fixpoint erase_first {A} `{EqDecision A} (x : A) (l : list A) : list A :=
  match l with [] => [] | y :: l => if decide (y = x) then l else y :: erase_first x l end.

Section erase.
Context {A : Type} `{EqDecision A}.
Implicit Types (x y : A) (l : list A).

Lemma erase_first_notin x l : x ∉ l -> erase_first x l = l.
Proof.
  induction l as [|y l IH]; intros Hx; [done|]. rewrite elem_of_cons in Hx. simpl.
  destruct (decide (y = x)) as [->|]; [naive_solver|]. f_equal. naive_solver.
Qed.

Lemma erase_first_snoc x l : x ∉ l -> erase_first x (l ++ [x]) = l.
Proof.
  induction l as [|y l IH]; intros Hx; simpl; [by rewrite decide_True|].
  rewrite elem_of_cons in Hx. rewrite decide_False by naive_solver. f_equal. naive_solver.
Qed.

Lemma erase_first_subset x y l : y ∈ erase_first x l -> y ∈ l.
Proof.
  induction l as [|z l IH]; simpl; [done|]. destruct (decide (z = x)); [by right|].
  rewrite !elem_of_cons. naive_solver.
Qed.

Lemma erase_first_other x y l : y ∈ l -> y <> x -> y ∈ erase_first x l.
Proof.
  induction l as [|z l IH]; simpl; [done|]. rewrite elem_of_cons. intros [->|Hy] Hne.
  - rewrite decide_False by done. left.
  - destruct (decide (z = x)); [done|]. right. by apply IH.
Qed.

Lemma NoDup_erase_first x l : NoDup l -> NoDup (erase_first x l).
Proof.
  induction 1 as [|z l Hz Hnd IH]; simpl; [constructor|]. destruct (decide (z = x)); [done|].
  apply list.NoDup_cons. split; [|done]. intros ?%erase_first_subset. done.
Qed.

Lemma elem_of_erase_first x y l : NoDup l -> y ∈ erase_first x l <-> y ∈ l /\ y <> x.
Proof.
  intros Hnd. split; [|intros [??]; by apply erase_first_other].
  intros Hy. split; [by eapply erase_first_subset|]. intros ->.
  induction Hnd as [|z l Hz Hnd IH]; simpl in *; [by apply not_elem_of_nil in Hy|].
  destruct (decide (z = x)) as [->|]; [done|]. rewrite elem_of_cons in Hy. naive_solver.
Qed.

End erase.

Module Seg.

Inductive SegmentStatus : Type := SEG_UNDEFINED | SEG_OK | SEG_UNMOUNTING.
#[export] Instance SegmentStatus_eq_dec : EqDecision SegmentStatus.
Proof. solve_decision. Defined.

Record MountedSegment : Type := mkMounted {
  ms_segment : Segment; ms_status : SegmentStatus; ms_allocator : option nat }.

Section manager.
Context {A H : Type} `{BufferAllocator A H}.

Record SegmentManager : Type := mkManager {
  memory_allocator_ : BufferAllocatorType;
  allocators_by_name_ : gmap string (list nat);
  allocators_ : list nat;
  mounted_segments_ : gmap UUID MountedSegment;
  client_segments_ : gmap UUID (list UUID);
  heap : gmap nat A;
  next_id : nat;
  allocated_size : Z;
  total_capacity : Z;
}.

Definition empty_manager (t : BufferAllocatorType) : SegmentManager :=
  mkManager t ∅ [] ∅ ∅ ∅ 0 0 0.

Definition set_heap h s := mkManager (memory_allocator_ s) (allocators_by_name_ s) (allocators_ s)
  (mounted_segments_ s) (client_segments_ s) h (next_id s) (allocated_size s) (total_capacity s).
Definition set_allocated v s := mkManager (memory_allocator_ s) (allocators_by_name_ s) (allocators_ s)
  (mounted_segments_ s) (client_segments_ s) (heap s) (next_id s) v (total_capacity s).

(** [!weak_ptr.expired()]: some container still holds the object. *)
Definition alive (s : SegmentManager) (i : nat) : bool :=
  bool_decide (i ∈ allocators_ s) ||
  existsb (fun p : string * list nat => bool_decide (i ∈ p.2)) (map_to_list (allocators_by_name_ s)) ||
  existsb (fun p : UUID * MountedSegment => bool_decide (ms_allocator p.2 = Some i)) (map_to_list (mounted_segments_ s)).

Abbreviation M := (ST SegmentManager).

(** The containers of a freshly mounted segment with allocator [a]. *)
Definition add_segment (segment : Segment) (client_id : UUID) (a : A) (s : SegmentManager) : SegmentManager :=
  let i := next_id s in
  mkManager (memory_allocator_ s)
    (<[seg_name segment := default [] (allocators_by_name_ s !! seg_name segment) ++ [i]]> (allocators_by_name_ s))
    (allocators_ s ++ [i])
    (<[seg_id segment := mkMounted segment SEG_OK (Some i)]> (mounted_segments_ s))
    (<[client_id := default [] (client_segments_ s !! client_id) ++ [seg_id segment]]> (client_segments_ s))
    (<[i := a]> (heap s)) (S i) (allocated_size s) (total_capacity s + seg_size segment).

Definition MountSegment (segment : Segment) (client_id : UUID) : M ErrorCode :=
  let buffer := seg_base segment in
  let size := seg_size segment in
  if (buffer =? 0) || (size =? 0) then ret INVALID_PARAMS
  else
    let* t := gets memory_allocator_ in
    if bool_decide (t = CACHELIB) &&
       (negb (buffer mod Slab_kSize =? 0) || negb (size mod Slab_kSize =? 0))
    then ret INVALID_PARAMS
    else
      let* mounted := gets mounted_segments_ in
      match mounted !! seg_id segment with
      | Some exist_segment =>
          if decide (ms_status exist_segment = SEG_OK) then ret SEGMENT_ALREADY_EXISTS
          else ret UNAVAILABLE_IN_CURRENT_STATUS
      | None =>
          let* created := lift (ba_create (seg_name segment) buffer size) in
          match created with
          | None => ret INVALID_PARAMS
          | Some a => do* modify (add_segment segment client_id a) in ret OK
          end
      end.

Fixpoint ReMountSegment (segments : list Segment) (client_id : UUID) : M ErrorCode :=
  match segments with
  | [] => ret OK
  | segment :: segments =>
      let* err := MountSegment segment client_id in
      if bool_decide (err = UNAVAILABLE_IN_CURRENT_STATUS) || bool_decide (err = INTERNAL_ERROR)
      then ret err
      else ReMountSegment segments client_id
  end.

(** The containers after the allocator [i] of a segment was taken out. *)
Definition drop_allocator (id : UUID) (ms : MountedSegment) (i : nat) (s : SegmentManager) : SegmentManager :=
  let name := seg_name (ms_segment ms) in
  mkManager (memory_allocator_ s)
    (match allocators_by_name_ s !! name with
     | Some l =>
         match erase_first i l with
         | [] => delete name (allocators_by_name_ s)
         | l' => <[name := l']> (allocators_by_name_ s)
         end
     | None => allocators_by_name_ s
     end)
    (erase_first i (allocators_ s))
    (<[id := mkMounted (ms_segment ms) SEG_UNMOUNTING None]> (mounted_segments_ s))
    (client_segments_ s) (heap s) (next_id s) (allocated_size s) (total_capacity s).

(** Answers the error code and [metrics_dec_capacity] (0 when not written).
    A segment that is not unmounting but holds no allocator cannot arise; the
    source then looks for a null pointer, which no container holds. *)
Definition PrepareUnmountSegment (segment_id : UUID) : M (ErrorCode * Z) :=
  let* mounted := gets mounted_segments_ in
  match mounted !! segment_id with
  | None => ret (SEGMENT_NOT_FOUND, 0)
  | Some ms =>
      if decide (ms_status ms = SEG_UNMOUNTING) then ret (UNAVAILABLE_IN_CURRENT_STATUS, 0)
      else
        do* modify (match ms_allocator ms with
                    | Some i => drop_allocator segment_id ms i
                    | None => fun s => mkManager (memory_allocator_ s) (allocators_by_name_ s)
                        (allocators_ s)
                        (<[segment_id := mkMounted (ms_segment ms) SEG_UNMOUNTING None]> (mounted_segments_ s))
                        (client_segments_ s) (heap s) (next_id s) (allocated_size s) (total_capacity s)
                    end) in
        ret (OK, seg_size (ms_segment ms))
  end.

Definition CommitUnmountSegment (segment_id client_id : UUID) (metrics_dec_capacity : Z) : M ErrorCode :=
  do* modify (fun s =>
    mkManager (memory_allocator_ s) (allocators_by_name_ s) (allocators_ s)
      (delete segment_id (mounted_segments_ s))
      (match client_segments_ s !! client_id with
       | Some l =>
           match erase_first segment_id l with
           | [] => delete client_id (client_segments_ s)
           | l' => <[client_id := l']> (client_segments_ s)
           end
       | None => client_segments_ s
       end)
      (heap s) (next_id s) (allocated_size s) (total_capacity s - metrics_dec_capacity)) in
  ret OK.

(** [None] is SEGMENT_NOT_FOUND, which leaves the output untouched. *)
Definition GetClientSegments (client_id : UUID) : M (option (list Segment)) :=
  let* s := gets id in
  ret (match client_segments_ s !! client_id with
       | None => None
       | Some l => Some (omap (fun sid => ms_segment <$> mounted_segments_ s !! sid) l)
       end).

(** The names come in the iteration order of the hash map, which the map's
    own enumeration stands for. *)
Definition GetAllSegments : M (list string) :=
  let* mounted := gets mounted_segments_ in
  ret (omap (fun p : UUID * MountedSegment => if decide (ms_status p.2 = SEG_OK) then Some (seg_name (ms_segment p.2)) else None)
         (map_to_list mounted)).

(** [None] is SEGMENT_NOT_FOUND; [second[0]] of an empty vector is undefined. *)
Definition QuerySegments (name : string) : M (option (Z * Z)) :=
  let* s := gets id in
  match allocators_by_name_ s !! name with
  | None => ret None
  | Some [] => ub
  | Some (i :: _) =>
      let* a := lift (heap s !! i) in ret (Some (ba_size a, ba_capacity a))
  end.

(** ** The invariant *)

(** The bytes of all mounted segments. *)
Definition capacity_of (m : gmap UUID MountedSegment) : Z :=
  foldr (fun p n => seg_size (ms_segment p.2) + n) 0 (map_to_list m).

Record SegInv (s : SegmentManager) : Prop := {
  si_nodup : NoDup (allocators_ s);
  si_heap : forall i, i ∈ allocators_ s -> is_Some (heap s !! i);
  si_next : forall i, is_Some (heap s !! i) -> (i < next_id s)%nat;
  si_list : forall n l, allocators_by_name_ s !! n = Some l -> l <> [] /\ NoDup l;
  si_name : forall n l i, allocators_by_name_ s !! n = Some l -> i ∈ l ->
    exists id ms, mounted_segments_ s !! id = Some ms /\ ms_allocator ms = Some i /\ seg_name (ms_segment ms) = n;
  si_alloc : forall i, i ∈ allocators_ s ->
    exists id ms, mounted_segments_ s !! id = Some ms /\ ms_allocator ms = Some i;
  si_mounted : forall id ms, mounted_segments_ s !! id = Some ms -> seg_id (ms_segment ms) = id /\
    match ms_allocator ms with
    | Some i => ms_status ms = SEG_OK /\ i ∈ allocators_ s /\
        exists l, allocators_by_name_ s !! seg_name (ms_segment ms) = Some l /\ i ∈ l
    | None => ms_status ms = SEG_UNMOUNTING
    end;
  si_inj : forall id1 id2 ms1 ms2 i, mounted_segments_ s !! id1 = Some ms1 ->
    mounted_segments_ s !! id2 = Some ms2 -> ms_allocator ms1 = Some i -> ms_allocator ms2 = Some i -> id1 = id2;
  si_client : forall id, is_Some (mounted_segments_ s !! id) ->
    exists c l, client_segments_ s !! c = Some l /\ id ∈ l;
  si_capacity : total_capacity s = capacity_of (mounted_segments_ s);
}.

Lemma capacity_perm l l' : l ≡ₚ l' ->
  foldr (fun (p : UUID * MountedSegment) n => seg_size (ms_segment p.2) + n) 0 l =
  foldr (fun p n => seg_size (ms_segment p.2) + n) 0 l'.
Proof. induction 1; simpl; lia. Qed.

Lemma capacity_insert id ms m : m !! id = None ->
  capacity_of (<[id := ms]> m) = seg_size (ms_segment ms) + capacity_of m.
Proof. intros Hm. unfold capacity_of. by rewrite (capacity_perm _ _ (map_to_list_insert m id ms Hm)). Qed.

Lemma capacity_delete id ms m : m !! id = Some ms ->
  capacity_of (delete id m) = capacity_of m - seg_size (ms_segment ms).
Proof.
  intros Hm. rewrite <- (insert_delete_id m id ms Hm) at 2.
  rewrite capacity_insert by apply lookup_delete_eq. lia.
Qed.

Lemma capacity_update id ms ms' m : m !! id = Some ms -> seg_size (ms_segment ms') = seg_size (ms_segment ms) ->
  capacity_of (<[id := ms']> m) = capacity_of m.
Proof.
  intros Hm Hs. rewrite <- insert_delete_eq, capacity_insert by apply lookup_delete_eq.
  rewrite (capacity_delete id ms) by done. lia.
Qed.

Lemma SegInv_empty t : SegInv (empty_manager t).
Proof.
  split; simpl; try done; try (intros; set_solver); try (intros ??; rewrite lookup_empty; naive_solver).
  - constructor.
  - intros i [x Hx]. by rewrite lookup_empty in Hx.
  - intros id [x Hx]. by rewrite lookup_empty in Hx.
Qed.

(** Under the invariant the expiry of a weak pointer is membership in
    [allocators_]: every other reference is shadowed by one there. *)
Lemma alive_iff s i : SegInv s -> alive s i = true <-> i ∈ allocators_ s.
Proof.
  intros HI. unfold alive. rewrite !orb_true_iff, bool_decide_eq_true, !existsb_exists.
  assert (Hms : forall id ms, mounted_segments_ s !! id = Some ms -> ms_allocator ms = Some i -> i ∈ allocators_ s).
  { intros id ms Hm Ha. destruct (si_mounted _ HI id ms Hm) as [_ Hx]. rewrite Ha in Hx. tauto. }
  split; [|tauto]. intros [[?|([n l] & Hin & Hi)]|([id ms] & Hin & Hi)]; [done| |].
  - apply list_elem_of_In, elem_of_map_to_list in Hin. simpl in Hi. apply bool_decide_eq_true in Hi.
    destruct (si_name _ HI n l i Hin Hi) as (id & ms & H1 & H2 & _). by eapply Hms.
  - apply list_elem_of_In, elem_of_map_to_list in Hin. simpl in Hi. apply bool_decide_eq_true in Hi. by eapply Hms.
Qed.

End manager.

Arguments SegmentManager : clear implicits.

End Seg.
