(* ===== verification/SegmentProofs.v ===== *)
(** * SegmentProofs: the segment manager keeps its containers consistent

    [SegInv] is preserved by mounting, remounting and both phases of an
    unmount; mount is idempotent and undone by the two-phase unmount; the
    prepare phase kills the segment's allocator, which is what invalidates the
    buffers that live there. *)

From Stdlib Require Import ZArith Lia.
From stdpp Require Import base list gmap strings numbers.
From S2P Require Import Prelude Types BufAlloc Segment.
Import Types Seg.

Open Scope moon_scope.
Open Scope Z_scope.

Module SegProofs.

Section proofs.
Context {A H : Type} `{!BufferAllocator A H} `{!BufferAllocatorLaws A H}.
Implicit Types (s : SegmentManager A) (ms : MountedSegment).

Lemma next_fresh s : SegInv s -> next_id s ∉ allocators_ s.
Proof. intros HI Hi. apply (si_heap _ HI) in Hi. apply (si_next _ HI) in Hi. lia. Qed.

Lemma next_fresh_name s n l : SegInv s -> allocators_by_name_ s !! n = Some l -> next_id s ∉ l.
Proof.
  intros HI Hn Hi. destruct (si_name _ HI n l _ Hn Hi) as (id & ms & Hm & Ha & _).
  destruct (si_mounted _ HI id ms Hm) as [_ Hx]. rewrite Ha in Hx. apply (next_fresh s HI). tauto.
Qed.

Lemma next_fresh_mounted s id ms : SegInv s -> mounted_segments_ s !! id = Some ms ->
  ms_allocator ms <> Some (next_id s).
Proof.
  intros HI Hm Ha. destruct (si_mounted _ HI id ms Hm) as [_ Hx]. rewrite Ha in Hx.
  apply (next_fresh s HI). tauto.
Qed.

(** The list a segment name maps to after one more allocator. *)
Lemma name_list s n : SegInv s -> NoDup (default [] (allocators_by_name_ s !! n) ++ [next_id s]).
Proof.
  intros HI. destruct (allocators_by_name_ s !! n) as [l|] eqn:E; simpl; [|apply NoDup_singleton].
  apply list.NoDup_app. split; [by apply (si_list _ HI n l E)|]. split; [|apply NoDup_singleton].
  intros i Hi ->%list_elem_of_singleton. by eapply (next_fresh_name s n l).
Qed.

Lemma add_segment_inv s segment c a : SegInv s -> mounted_segments_ s !! seg_id segment = None ->
  SegInv (add_segment segment c a s).
Proof.
  intros HI Hnew. set (i := next_id s). split; simpl; fold i.
  - apply list.NoDup_app. split; [apply HI|]. split; [|apply NoDup_singleton].
    intros j Hj ->%list_elem_of_singleton. by apply (next_fresh s).
  - intros j. rewrite elem_of_app, list_elem_of_singleton. intros [Hj| ->]; [|by rewrite lookup_insert_eq].
    destruct (decide (i = j)) as [<-|]; [by rewrite lookup_insert_eq|]. rewrite lookup_insert_ne by done. by apply HI.
  - intros j. destruct (decide (i = j)) as [<-|]; [intros; unfold i; lia|]. rewrite lookup_insert_ne by done.
    intros Hj%(si_next _ HI). fold i in Hj. lia.
  - intros n l. destruct (decide (seg_name segment = n)) as [<-|].
    + rewrite lookup_insert_eq. intros [= <-]. split; [by destruct (default _ _)|by apply name_list].
    + rewrite lookup_insert_ne by done. apply HI.
  - intros n l j. destruct (decide (seg_name segment = n)) as [<-|].
    + rewrite lookup_insert_eq. intros [= <-]. rewrite elem_of_app, list_elem_of_singleton. intros [Hj| ->].
      * destruct (allocators_by_name_ s !! seg_name segment) as [l|] eqn:E; simpl in Hj; [|by apply not_elem_of_nil in Hj].
        destruct (si_name _ HI _ l j E Hj) as (id & ms & Hm & ?). exists id, ms.
        rewrite lookup_insert_ne by congruence. done.
      * eexists (seg_id segment), _. by rewrite lookup_insert_eq.
    + rewrite lookup_insert_ne by done. intros Hn Hj. destruct (si_name _ HI n l j Hn Hj) as (id & ms & Hm & ?).
      exists id, ms. rewrite lookup_insert_ne by congruence. done.
  - intros j. rewrite elem_of_app, list_elem_of_singleton. intros [Hj| ->].
    + destruct (si_alloc _ HI j Hj) as (id & ms & Hm & ?). exists id, ms. by rewrite lookup_insert_ne by congruence.
    + eexists (seg_id segment), _. by rewrite lookup_insert_eq.
  - intros id ms. destruct (decide (seg_id segment = id)) as [<-|].
    + rewrite lookup_insert_eq. intros [= <-]. simpl. split_and!; try done.
      * rewrite elem_of_app, list_elem_of_singleton. by right.
      * eexists. rewrite lookup_insert_eq. split; [done|]. rewrite elem_of_app, list_elem_of_singleton. by right.
    + rewrite lookup_insert_ne by done. intros Hm. destruct (si_mounted _ HI id ms Hm) as [E Hx]. split; [done|].
      destruct (ms_allocator ms) as [j|]; [|done]. destruct Hx as (H1 & H2 & l & H3 & H4).
      split_and!; [done|rewrite elem_of_app; by left|].
      destruct (decide (seg_name segment = seg_name (ms_segment ms))) as [->|].
      * eexists. rewrite lookup_insert_eq. split; [done|]. rewrite H3, elem_of_app. by left.
      * exists l. by rewrite lookup_insert_ne.
  - intros id1 id2 ms1 ms2 j. destruct (decide (seg_id segment = id1)) as [<-|], (decide (seg_id segment = id2)) as [<-|];
      rewrite ?lookup_insert_eq, ?lookup_insert_ne by done; try done.
    + intros [= <-] H2 [= <-] Ha. by destruct (next_fresh_mounted s id2 ms2 HI H2).
    + intros H1 [= <-] Ha [= <-]. by destruct (next_fresh_mounted s id1 ms1 HI H1).
    + apply (si_inj _ HI).
  - intros id [ms Hm]. destruct (decide (seg_id segment = id)) as [<-|].
    + eexists c, _. rewrite lookup_insert_eq. split; [done|]. rewrite elem_of_app, list_elem_of_singleton. by right.
    + rewrite lookup_insert_ne in Hm by done. destruct (si_client _ HI id ltac:(eauto)) as (c' & l & Hc & Hl).
      destruct (decide (c = c')) as [<-|].
      * eexists c, _. rewrite lookup_insert_eq. split; [done|]. rewrite Hc, elem_of_app. by left.
      * exists c', l. by rewrite lookup_insert_ne.
  - rewrite capacity_insert by done. rewrite (si_capacity _ HI). simpl. lia.
Qed.

(** Looking up the name map after an allocator was dropped from it. *)
Lemma drop_name s id ms i n l : SegInv s ->
  allocators_by_name_ (drop_allocator id ms i s) !! n = Some l ->
  exists l0, allocators_by_name_ s !! n = Some l0 /\ l <> [] /\ NoDup l /\
    (forall j, j ∈ l <-> j ∈ l0 /\ (n = seg_name (ms_segment ms) -> j <> i)).
Proof.
  intros HI. simpl. set (nm := seg_name (ms_segment ms)).
  assert (Hsame : forall l0, allocators_by_name_ s !! n = Some l0 -> n <> nm -> exists l0', allocators_by_name_ s !! n = Some l0' /\
    l0 <> [] /\ NoDup l0 /\ (forall j, j ∈ l0 <-> j ∈ l0' /\ (n = nm -> j <> i))).
  { intros l0 Hl0 Hne. exists l0. destruct (si_list _ HI n l0 Hl0). split_and!; try done. intros j. naive_solver. }
  destruct (allocators_by_name_ s !! nm) as [l1|] eqn:E.
  2: { intros Hl. apply Hsame; [done|]. congruence. }
  destruct (si_list _ HI nm l1 E) as [_ Hnd]. destruct (erase_first i l1) as [|x r] eqn:Er.
  - destruct (decide (nm = n)) as [<-|]; [by rewrite lookup_delete_eq|]. rewrite lookup_delete_ne by done.
    intros Hl. by apply Hsame.
  - destruct (decide (nm = n)) as [<-|]; [|rewrite lookup_insert_ne by done; intros Hl; by apply Hsame].
    rewrite lookup_insert_eq. intros [= <-]. exists l1. rewrite <- Er. split_and!; try done.
    + by rewrite Er.
    + by apply NoDup_erase_first.
    + intros j. rewrite elem_of_erase_first by done. naive_solver.
Qed.

(** Every name list that keeps an element survives. *)
Lemma drop_name_keep s id ms i n l j : SegInv s -> allocators_by_name_ s !! n = Some l -> j ∈ l -> j <> i ->
  exists l', allocators_by_name_ (drop_allocator id ms i s) !! n = Some l' /\ j ∈ l'.
Proof.
  intros HI Hl Hj Hne. simpl. set (nm := seg_name (ms_segment ms)).
  destruct (decide (nm = n)) as [->|Hn].
  - rewrite Hl. pose proof (erase_first_other i j l Hj Hne) as Hj'.
    destruct (erase_first i l) as [|x r]; [by apply not_elem_of_nil in Hj'|]. exists (x :: r). by rewrite lookup_insert_eq.
  - exists l. split; [|done]. destruct (allocators_by_name_ s !! nm); [|done].
    destruct (erase_first i _); [by rewrite lookup_delete_ne|by rewrite lookup_insert_ne].
Qed.

Lemma drop_allocator_inv s id ms i : SegInv s -> mounted_segments_ s !! id = Some ms -> ms_allocator ms = Some i ->
  SegInv (drop_allocator id ms i s) /\ i ∉ allocators_ (drop_allocator id ms i s).
Proof.
  intros HI Hm Ha. destruct (si_mounted _ HI id ms Hm) as [Eid Hx]. rewrite Ha in Hx.
  assert (Hother : forall id' ms' j, mounted_segments_ s !! id' = Some ms' -> ms_allocator ms' = Some j -> id' <> id -> j <> i).
  { intros id' ms' j Hm' Ha' Hne ->. apply Hne. by eapply (si_inj _ HI). }
  assert (Hnd := si_nodup _ HI). split; [|simpl; rewrite elem_of_erase_first by done; tauto]. split.
  - simpl. by apply NoDup_erase_first.
  - intros j. simpl. intros Hj%erase_first_subset. by apply HI.
  - apply HI.
  - intros n l Hl. destruct (drop_name s id ms i n l HI Hl) as (l0 & _ & ? & ? & _). done.
  - intros n l j Hl Hj. destruct (drop_name s id ms i n l HI Hl) as (l0 & Hl0 & _ & _ & Hiff).
    destruct (proj1 (Hiff j) Hj) as [Hj0 Hni]. destruct (si_name _ HI n l0 j Hl0 Hj0) as (id' & ms' & Hm' & Ha' & En).
    destruct (decide (id = id')) as [<-|Hne]; [simplify_eq; by destruct (Hni eq_refl)|].
    exists id', ms'. simpl. by rewrite lookup_insert_ne.
  - intros j. simpl. rewrite elem_of_erase_first by done. intros [Hj Hji].
    destruct (si_alloc _ HI j Hj) as (id' & ms' & Hm' & Ha').
    destruct (decide (id = id')) as [<-|Hne]; [simplify_eq|]. exists id', ms'. by rewrite lookup_insert_ne.
  - intros id' ms'. simpl. destruct (decide (id = id')) as [<-|Hne]; [rewrite lookup_insert_eq; by intros [= <-]|].
    rewrite lookup_insert_ne by done. intros Hm'. destruct (si_mounted _ HI id' ms' Hm') as [E Hx']. split; [done|].
    destruct (ms_allocator ms') as [j|] eqn:Ha'; [|done]. destruct Hx' as (H1 & H2 & l & H3 & H4).
    assert (j <> i) by (by eapply Hother). split_and!; [done|by apply erase_first_other|].
    exact (drop_name_keep s id ms i _ l j HI H3 H4 ltac:(done)).
  - intros id1 id2 ms1 ms2 j. simpl. destruct (decide (id = id1)) as [<-|], (decide (id = id2)) as [<-|];
      rewrite ?lookup_insert_eq, ?lookup_insert_ne by done; try done; [by intros [= <-]|by intros ? [= <-]|]. apply (si_inj _ HI).
  - intros id' [ms' Hm']. simpl in *. apply (si_client _ HI).
    destruct (decide (id = id')) as [<-|]; [eauto|]. rewrite lookup_insert_ne in Hm' by done. eauto.
  - simpl. rewrite (capacity_update id ms) by done. apply HI.
Qed.

Lemma commit_inv s id c ms : SegInv s -> mounted_segments_ s !! id = Some ms -> ms_allocator ms = None ->
  exists s', CommitUnmountSegment id c (seg_size (ms_segment ms)) s = Some (OK, s') /\ SegInv s' /\
    mounted_segments_ s' = delete id (mounted_segments_ s) /\ allocators_ s' = allocators_ s /\ heap s' = heap s.
Proof.
  intros HI Hm Ha. eexists. split; [reflexivity|]. split; [|done].
  assert (Hkeep : forall id' ms', mounted_segments_ s !! id' = Some ms' -> is_Some (ms_allocator ms') -> id' <> id).
  { intros id' ms' Hm' Hs ->. simplify_eq. rewrite Ha in Hs. by destruct Hs. }
  split; simpl; try apply HI.
  - intros n l j Hn Hj. destruct (si_name _ HI n l j Hn Hj) as (id' & ms' & Hm' & Ha' & En).
    exists id', ms'. rewrite lookup_delete_ne by (apply not_eq_sym; eapply Hkeep; eauto). done.
  - intros j Hj. destruct (si_alloc _ HI j Hj) as (id' & ms' & Hm' & Ha').
    exists id', ms'. rewrite lookup_delete_ne by (apply not_eq_sym; eapply Hkeep; eauto). done.
  - intros id' ms' [? Hm']%lookup_delete_Some. by apply (si_mounted _ HI).
  - intros id1 id2 ms1 ms2 j [? H1]%lookup_delete_Some [? H2]%lookup_delete_Some. by apply (si_inj _ HI).
  - intros id' [ms' [Hne Hm']%lookup_delete_Some]. destruct (si_client _ HI id' ltac:(eauto)) as (c' & l & Hc & Hl).
    destruct (decide (c = c')) as [<-|].
    + rewrite Hc. pose proof (erase_first_other id id' l Hl ltac:(done)) as Hl'.
      destruct (erase_first id l) as [|x r]; [by apply not_elem_of_nil in Hl'|]. exists c, (x :: r). by rewrite lookup_insert_eq.
    + exists c', l. split; [|done]. destruct (client_segments_ s !! c); [|done].
      destruct (erase_first id _); [by rewrite lookup_delete_ne|by rewrite lookup_insert_ne].
  - rewrite (capacity_delete id ms) by done. by rewrite (si_capacity _ HI).
Qed.

(** ** Whole operations *)

(** A segment request whose range is a range of addresses. *)
Definition wf_segment (segment : Segment) : Prop :=
  0 <= seg_base segment /\ 0 <= seg_size segment /\ seg_base segment + seg_size segment < 2 ^ 64.

Definition misaligned (t : BufferAllocatorType) (segment : Segment) : bool :=
  bool_decide (t = CACHELIB) &&
  (negb (seg_base segment mod Slab_kSize =? 0) || negb (seg_size segment mod Slab_kSize =? 0)).

(** What [MountSegment] answers and does, case by case. *)
Inductive mount_spec (segment : Segment) (c : UUID) s : ErrorCode -> SegmentManager A -> Prop :=
  | mount_invalid : seg_base segment = 0 \/ seg_size segment = 0 \/
      misaligned (memory_allocator_ s) segment = true \/
      (mounted_segments_ s !! seg_id segment = None /\
       ba_create (seg_name segment) (seg_base segment) (seg_size segment) = Some None) ->
      mount_spec segment c s INVALID_PARAMS s
  | mount_exists ms : mounted_segments_ s !! seg_id segment = Some ms -> ms_status ms = SEG_OK ->
      mount_spec segment c s SEGMENT_ALREADY_EXISTS s
  | mount_unavailable ms : mounted_segments_ s !! seg_id segment = Some ms -> ms_status ms <> SEG_OK ->
      mount_spec segment c s UNAVAILABLE_IN_CURRENT_STATUS s
  | mount_done a : mounted_segments_ s !! seg_id segment = None -> ba_inv a [] ->
      ba_base a = seg_base segment -> ba_capacity a = seg_size segment -> ba_name a = seg_name segment ->
      mount_spec segment c s OK (add_segment segment c a s).

Lemma mount_ok s segment c : wf_segment segment ->
  exists e s', MountSegment segment c s = Some (e, s') /\ mount_spec segment c s e s'.
Proof using A BufferAllocator0 BufferAllocatorLaws0 H.
  intros (Hb & Hz & Hbz). unfold MountSegment.
  destruct (Z.eqb_spec (seg_base segment) 0) as [|Hb0]; [do 2 eexists; split; [done|]; apply mount_invalid; auto|].
  destruct (Z.eqb_spec (seg_size segment) 0) as [|Hz0]; [do 2 eexists; split; [done|]; apply mount_invalid; auto|].
  cbn [orb]. rewrite bind_gets. fold (misaligned (memory_allocator_ s) segment).
  destruct (misaligned (memory_allocator_ s) segment) eqn:Hal; [do 2 eexists; split; [done|]; apply mount_invalid; auto|].
  rewrite bind_gets. destruct (mounted_segments_ s !! seg_id segment) as [ms|] eqn:Hm.
  - destruct (decide (ms_status ms = SEG_OK)); do 2 eexists; (split; [done|]); [by eapply mount_exists|by eapply mount_unavailable].
  - destruct (ba_create_ok (seg_name segment) (seg_base segment) (seg_size segment)) as [E|(a & E & HI & ? & ? & ?)];
      [lia|lia|done|..]; rewrite (bind_lift _ _ _ _ E).
    + do 2 eexists. split; [done|]. apply mount_invalid. auto.
    + do 2 eexists. split; [done|]. by apply mount_done.
Qed.

Lemma mount_spec_inv segment c s e s' : SegInv s -> mount_spec segment c s e s' -> SegInv s'.
Proof. intros HI []; try done. by apply add_segment_inv. Qed.

Lemma remount_inv segments c : forall s, SegInv s -> Forall wf_segment segments ->
  exists e s', ReMountSegment segments c s = Some (e, s') /\ SegInv s' /\
    (e = OK \/ e = UNAVAILABLE_IN_CURRENT_STATUS).
Proof using A BufferAllocator0 BufferAllocatorLaws0 H.
  induction segments as [|g gs IH]; intros s HI Hwf; simpl; [do 2 eexists; split_and!; eauto|].
  apply list.Forall_cons in Hwf as [Hg Hgs]. destruct (mount_ok s g c Hg) as (e & s1 & Hrun & Hsp).
  erewrite bind_Some by exact Hrun. pose proof (mount_spec_inv _ _ _ _ _ HI Hsp) as HI1.
  destruct (IH s1 HI1 Hgs) as (e' & s' & Hrun' & HI' & He').
  destruct Hsp; cbn [bool_decide decide decide_rel ErrorCode_eq_dec ErrorCode_rec ErrorCode_rect sumbool_rec sumbool_rect orb];
    try (do 2 eexists; split_and!; [exact Hrun'|done|done]). do 2 eexists. split_and!; [reflexivity|done|auto].
Qed.

(** [PrepareUnmountSegment]: only a segment that is mounted and not already
    unmounting is prepared, and its allocator leaves every container. *)
Lemma prepare_ok s id : SegInv s ->
  (mounted_segments_ s !! id = None /\
     PrepareUnmountSegment id s = Some ((SEGMENT_NOT_FOUND, 0), s)) \/
  (exists ms, mounted_segments_ s !! id = Some ms /\ ms_status ms = SEG_UNMOUNTING /\
     PrepareUnmountSegment id s = Some ((UNAVAILABLE_IN_CURRENT_STATUS, 0), s)) \/
  (exists ms i, mounted_segments_ s !! id = Some ms /\ ms_status ms = SEG_OK /\ ms_allocator ms = Some i /\
     PrepareUnmountSegment id s = Some ((OK, seg_size (ms_segment ms)), drop_allocator id ms i s)).
Proof.
  intros HI. unfold PrepareUnmountSegment. rewrite bind_gets.
  destruct (mounted_segments_ s !! id) as [ms|] eqn:Hm; [|by left]. right.
  destruct (si_mounted _ HI id ms Hm) as [_ Hx].
  destruct (decide (ms_status ms = SEG_UNMOUNTING)) as [E|E]; [left; by exists ms|right].
  destruct (ms_allocator ms) as [i|] eqn:Ha; [|done]. exists ms, i. destruct Hx as (? & _). by split_and!.
Qed.

(** [QuerySegments] never indexes an empty vector. *)
Lemma query_ok s name : SegInv s -> exists r, QuerySegments name s = Some (r, s) /\
  (r = None <-> allocators_by_name_ s !! name = None).
Proof.
  intros HI. unfold QuerySegments. rewrite bind_gets. change (id s) with s.
  destruct (allocators_by_name_ s !! name) as [l|] eqn:E; [|by exists None].
  destruct (si_list _ HI name l E) as [Hne _]. destruct l as [|i l]; [done|].
  destruct (si_name _ HI name (i :: l) i E ltac:(left)) as (id' & ms & Hm & Ha & _).
  destruct (si_mounted _ HI id' ms Hm) as [_ Hx]. rewrite Ha in Hx. destruct Hx as (_ & Hi & _).
  destruct (si_heap _ HI i Hi) as [a Ea]. rewrite (bind_lift _ _ _ _ Ea). by eexists.
Qed.

(** ** Executions of the segment manager *)

Inductive sstep s : SegmentManager A -> Prop :=
  | sstep_mount g c e s' : wf_segment g -> MountSegment g c s = Some (e, s') -> sstep s s'
  | sstep_remount gs c e s' : Forall wf_segment gs -> ReMountSegment gs c s = Some (e, s') -> sstep s s'
  | sstep_prepare id r s' : PrepareUnmountSegment id s = Some (r, s') -> sstep s s'
  | sstep_commit id c ms e s' : mounted_segments_ s !! id = Some ms -> ms_status ms = SEG_UNMOUNTING ->
      CommitUnmountSegment id c (seg_size (ms_segment ms)) s = Some (e, s') -> sstep s s'.

Lemma sstep_inv s s' : SegInv s -> sstep s s' -> SegInv s'.
Proof using A BufferAllocator0 BufferAllocatorLaws0 H.
  intros HI [g c e s1 Hg Hrun|gs c e s1 Hg Hrun|id r s1 Hrun|id c ms e s1 Hm Hst Hrun].
  - destruct (mount_ok s g c Hg) as (e' & s2 & Hrun' & Hsp). simplify_eq. by eapply mount_spec_inv.
  - destruct (remount_inv gs c s HI Hg) as (e' & s2 & Hrun' & HI' & _). by simplify_eq.
  - destruct (prepare_ok s id HI) as [[_ E]|[(ms & _ & _ & E)|(ms & i & Hm & _ & Ha & E)]]; simplify_eq; try done.
    by apply drop_allocator_inv.
  - destruct (si_mounted _ HI id ms Hm) as [_ Hx].
    destruct (ms_allocator ms) eqn:Ha; [destruct Hx as [? _]; congruence|].
    destruct (commit_inv s id c ms HI Hm Ha) as (s2 & E & HI' & _). by simplify_eq.
Qed.

(** Mounting and then unmounting in two phases restores every container. *)
Lemma mount_unmount s g c s1 : SegInv s -> wf_segment g -> seg_id g ∉ default [] (client_segments_ s !! c) ->
  (forall l, client_segments_ s !! c = Some l -> l <> []) ->
  MountSegment g c s = Some (OK, s1) ->
  exists s2 s3, PrepareUnmountSegment (seg_id g) s1 = Some ((OK, seg_size g), s2) /\
    CommitUnmountSegment (seg_id g) c (seg_size g) s2 = Some (OK, s3) /\
    allocators_ s3 = allocators_ s /\ allocators_by_name_ s3 = allocators_by_name_ s /\
    mounted_segments_ s3 = mounted_segments_ s /\ client_segments_ s3 = client_segments_ s /\
    total_capacity s3 = total_capacity s.
Proof using A BufferAllocator0 BufferAllocatorLaws0 H.
  intros HI Hg Hc Hne Hrun. destruct (mount_ok s g c Hg) as (e & s' & Hrun' & Hsp).
  assert (mounted_segments_ s !! seg_id g = None /\ exists a, s1 = add_segment g c a s) as [Hm [a ->]].
  { rewrite Hrun in Hrun'. simplify_eq. inversion Hsp; subst. eauto. }
  eexists _, _. split; [unfold PrepareUnmountSegment; rewrite bind_gets; simpl; rewrite lookup_insert_eq; reflexivity|].
  split; [reflexivity|]. simpl. set (i := next_id s). rewrite !lookup_insert_eq.
  split_and!.
  - by apply erase_first_snoc, next_fresh.
  - destruct (allocators_by_name_ s !! seg_name g) as [l|] eqn:E; simpl.
    + rewrite erase_first_snoc by (by eapply next_fresh_name). destruct (si_list _ HI _ l E) as [Hl _].
      destruct l; [done|]. by rewrite insert_insert_eq, insert_id.
    + rewrite decide_True by done. by rewrite delete_insert_id.
  - rewrite insert_insert_eq. by rewrite delete_insert_id.
  - rewrite erase_first_snoc by done. destruct (client_segments_ s !! c) as [l|] eqn:E; simpl.
    + specialize (Hne l eq_refl). destruct l; [done|]. by rewrite insert_insert_eq, insert_id.
    + by rewrite delete_insert_id.
  - lia.
Qed.

End proofs.

End SegProofs.
