(* ===== verification/Strategy.v ===== *)
(** * Strategy: choosing an allocator for a buffer

    Models mooncake-store/include/allocation_strategy.h
    ([RandomAllocationStrategy]) over the segment manager's allocators, and
    the construction and destruction of an [AllocatedBuffer]
    (src/allocator.cpp).  The random generator is an oracle [rng]: draw [k] of
    a call over a range of [n] values is [rng k mod n], so every outcome of
    [uniform_int_distribution] is covered by some oracle. *)

From Stdlib Require Import ZArith Lia.
From stdpp Require Import base list gmap strings numbers.
From S2P Require Import Prelude Types BufAlloc Segment SegmentProofs.
Import Types Seg SegProofs.

Open Scope moon_scope.
Open Scope Z_scope.

Module Strategy.

Section strategy.
Context {A H : Type} `{!BufferAllocator A H}.

Abbreviation M := (ST (SegmentManager A)).
Abbreviation Buffer := (AllocatedBuffer H).

(** [allocator->allocate(size)] on the object [i]: the object's state changes,
    a new buffer starts in status INIT, and the allocated-size gauge grows. *)
Definition alloc_from (i : nat) (size : Z) : M (option Buffer) := fun s =>
  match heap s !! i with
  | None => None
  | Some a =>
      match ba_allocate size a with
      | None => None
      | Some (None, a') => Some (None, set_heap (<[i := a']> (heap s)) s)
      | Some (Some (p, h), a') =>
          Some (Some (mkBuffer i (ba_name a') BUF_INIT p size h),
                set_allocated (allocated_size s + size) (set_heap (<[i := a']> (heap s)) s))
      end
  end.

(** [AllocatedBuffer::~AllocatedBuffer]: gives the memory back when the
    allocator is still alive; the gauge shrinks either way. *)
Definition destroy_buffer (b : Buffer) : M unit := fun s =>
  if alive s (buf_allocator b) then
    match heap s !! buf_allocator b with
    | None => None
    | Some a =>
        match ba_deallocate (offset_handle_ b) (size_ b) a with
        | None => None
        | Some (_, a') =>
            Some (tt, set_allocated (allocated_size s - size_ b)
                        (set_heap (<[buf_allocator b := a']> (heap s)) s))
        end
    end
  else Some (tt, set_allocated (allocated_size s - size_ b) s).

Fixpoint destroy_buffers (bs : list Buffer) : M unit :=
  match bs with
  | [] => ret tt
  | b :: bs => do* destroy_buffer b in destroy_buffers bs
  end.

Fixpoint try_each (js : list nat) (size : Z) : M (option Buffer) :=
  match js with
  | [] => ret None
  | i :: js =>
      let* r := alloc_from i size in
      match r with Some b => ret (Some b) | None => try_each js size end
  end.

Definition TryPreferredAllocate (objectSize : Z) (config : ReplicateConfig) : M (option Buffer) :=
  if String.eqb (preferred_segment config) "" then ret None
  else
    let* by_name := gets allocators_by_name_ in
    match by_name !! preferred_segment config with
    | None => ret None
    | Some preferred => try_each preferred objectSize
    end.

Definition kMaxRetryLimit : nat := 10.

(** The loop of [TryRandomAllocate].  The source draws a position of
    [allocator_indices], but subscripts the vector with the allocator index it
    found there; beyond the vector's size that is undefined. *)
Fixpoint random_loop (tries : nat) (k : nat) (rng : nat -> nat) (allocators allocator_indices : list nat)
    (objectSize : Z) : M (option Buffer) :=
  match tries with
  | O => ret None
  | S tries =>
      let n := length allocator_indices in
      let* random_index := lift (allocator_indices !! (rng k mod n)%nat) in
      let* allocator := lift (allocators !! random_index) in
      let* r := alloc_from allocator objectSize in
      match r with
      | Some b => ret (Some b)
      | None =>
          let* swapped :=
            (if decide (random_index + 1 = n)%nat then ret allocator_indices
             else
               let* x := lift (allocator_indices !! random_index) in
               let* y := lift (allocator_indices !! (n - 1)%nat) in
               ret (<[(n - 1)%nat := x]> (<[random_index := y]> allocator_indices))) in
          random_loop tries (S k) rng allocators (take (n - 1) swapped) objectSize
      end
  end.

Definition TryRandomAllocate (rng : nat -> nat) (allocators : list nat) (objectSize : Z) : M (option Buffer) :=
  let n := length allocators in
  random_loop (Nat.min kMaxRetryLimit n) 0 rng allocators (seq 0 n) objectSize.

Definition Allocate (rng : nat -> nat) (objectSize : Z) (config : ReplicateConfig) : M (option Buffer) :=
  let* allocators := gets allocators_ in
  match allocators with
  | [i] => alloc_from i objectSize
  | _ =>
      let* preferred := TryPreferredAllocate objectSize config in
      match preferred with
      | Some b => ret (Some b)
      | None => TryRandomAllocate rng allocators objectSize
      end
  end.

(** ** Ownership *)

(** [HeapInv s outs]: every allocator in use satisfies its contract, with
    [outs i] the buffers of allocator [i] that are outstanding. *)
Context `{!BufferAllocatorLaws A H}.

Definition HeapInv (s : SegmentManager A) (outs : nat -> list (Out H)) : Prop :=
  forall i, i ∈ allocators_ s -> exists a, heap s !! i = Some a /\ ba_inv a (outs i).

Definition out_of (b : Buffer) : Out H := (buffer_ptr_ b, size_ b, offset_handle_ b).

(** One more outstanding buffer. *)
Definition add_out (b : Buffer) (outs : nat -> list (Out H)) : nat -> list (Out H) :=
  fun i => if decide (buf_allocator b = i) then out_of b :: outs i else outs i.

(** Same containers; only the heap and the gauge may differ. *)
Definition same_containers (s s' : SegmentManager A) : Prop :=
  allocators_ s' = allocators_ s /\ allocators_by_name_ s' = allocators_by_name_ s /\
  mounted_segments_ s' = mounted_segments_ s /\ client_segments_ s' = client_segments_ s /\
  next_id s' = next_id s /\ total_capacity s' = total_capacity s /\ memory_allocator_ s' = memory_allocator_ s /\
  (forall i, option_Forall2 same_object (heap s !! i) (heap s' !! i)).

Lemma same_object_refl (a : A) : same_object a a.
Proof. done. Qed.

Lemma same_heap_refl s i : option_Forall2 same_object (heap s !! i) (heap s !! i).
Proof. destruct (heap s !! i); by constructor. Qed.

(** One object is replaced by its new state. *)
Lemma same_heap_insert s i a a' j : heap s !! i = Some a -> same_object a a' ->
  option_Forall2 same_object (heap s !! j) (<[i := a']> (heap s) !! j).
Proof.
  intros Ea Hs. destruct (decide (i = j)) as [<-|]; [rewrite lookup_insert_eq, Ea; by constructor|].
  rewrite lookup_insert_ne by done. apply same_heap_refl.
Qed.

Lemma same_heap_is_Some s s' i : option_Forall2 same_object (heap s !! i) (heap s' !! i) ->
  is_Some (heap s' !! i) <-> is_Some (heap s !! i).
Proof. destruct 1; split; intros []; done || by eexists. Qed.

Lemma same_containers_refl s : same_containers s s.
Proof. split_and!; try done. apply same_heap_refl. Qed.

Lemma same_containers_trans s1 s2 s3 : same_containers s1 s2 -> same_containers s2 s3 -> same_containers s1 s3.
Proof.
  intros (?&?&?&?&?&?&?&Hs1) (?&?&?&?&?&?&?&Hs2). split_and!; try congruence. intros i.
  specialize (Hs1 i). specialize (Hs2 i). destruct Hs1 as [a b (?&?&?)|]; inversion Hs2 as [? c (?&?&?)|]; subst; constructor.
  split_and!; congruence.
Qed.

Lemma SegInv_same s s' : same_containers s s' -> SegInv s -> SegInv s'.
Proof.
  intros (E1&E2&E3&E4&E5&E6&_&E8) [].
  split; rewrite ?E1, ?E2, ?E3, ?E4, ?E5, ?E6; try done.
  - intros i Hi. apply (same_heap_is_Some s s' i (E8 i)). auto.
  - intros i Hi%(same_heap_is_Some s s' i (E8 i)). auto.
Qed.

Lemma alive_same s s' i : same_containers s s' -> alive s' i = alive s i.
Proof. intros (E1&E2&E3&_). unfold alive. by rewrite E1, E2, E3. Qed.

(** A buffer carries the name of the segment its allocator serves. *)
Definition named (s : SegmentManager A) (b : Buffer) : Prop :=
  exists a, heap s !! buf_allocator b = Some a /\ ba_name a = segment_name_ b.

Lemma named_same s s' b : same_containers s s' -> named s b -> named s' b.
Proof.
  intros (_&_&_&_&_&_&_&Hh) (a & Ea & En). specialize (Hh (buf_allocator b)). rewrite Ea in Hh.
  inversion Hh as [? a' (_&_&E)|]; subst. exists a'. split; [done|congruence].
Qed.

Lemma alloc_from_ok s outs i size : HeapInv s outs -> i ∈ allocators_ s -> 0 <= size <= kMaxSliceSize ->
  exists r s', alloc_from i size s = Some (r, s') /\ same_containers s s' /\
    match r with
    | None => HeapInv s' outs /\ allocated_size s' = allocated_size s
    | Some b => buf_allocator b = i /\ size_ b = size /\ buf_status b = BUF_INIT /\
        HeapInv s' (add_out b outs) /\ allocated_size s' = allocated_size s + size /\ named s' b
    end.
Proof.
  intros HH Hi Hs. destruct (HH i Hi) as (a & Ea & HI). unfold alloc_from. rewrite Ea.
  destruct (ba_allocate_ok a (outs i) size HI Hs) as (r & a' & -> & Ho & Hr).
  assert (Hsame : forall v, same_containers s (set_allocated v (set_heap (<[i:=a']> (heap s)) s))).
  { intros v. split_and!; try done. intros j. by apply (same_heap_insert s i a a'). }
  destruct r as [[p h]|].
  - do 2 eexists. split; [reflexivity|]. split; [apply Hsame|]. split_and!; try done.
    + intros j Hj. simpl in *. unfold add_out. simpl. destruct (decide (i = j)) as [<-|].
      * exists a'. by rewrite lookup_insert_eq.
      * rewrite lookup_insert_ne by done. by apply HH.
    + exists a'. simpl. by rewrite lookup_insert_eq.
  - do 2 eexists. split; [reflexivity|]. split; [exact (Hsame (allocated_size s))|]. split; [|done].
    intros j Hj. simpl in *. destruct (decide (i = j)) as [<-|].
    + exists a'. by rewrite lookup_insert_eq.
    + rewrite lookup_insert_ne by done. by apply HH.
Qed.

(** The answer of a whole allocation attempt. *)
Definition alloc_result (s : SegmentManager A) (outs : nat -> list (Out H)) (size : Z)
    (r : option Buffer) (s' : SegmentManager A) : Prop :=
  same_containers s s' /\
  match r with
  | None => HeapInv s' outs /\ allocated_size s' = allocated_size s
  | Some b => buf_allocator b ∈ allocators_ s /\ size_ b = size /\ buf_status b = BUF_INIT /\
      HeapInv s' (add_out b outs) /\ allocated_size s' = allocated_size s + size /\ named s' b
  end.

Lemma alloc_result_trans s s1 outs size r s' : same_containers s s1 -> allocated_size s1 = allocated_size s ->
  alloc_result s1 outs size r s' -> alloc_result s outs size r s'.
Proof.
  intros Hs Ha [Hs' Hr]. split; [by eapply same_containers_trans|].
  destruct Hs as (E1 & _). destruct r; rewrite ?E1, ?Ha in Hr; done.
Qed.

Lemma try_each_ok js : forall s outs size, HeapInv s outs -> (forall i, i ∈ js -> i ∈ allocators_ s) ->
  0 <= size <= kMaxSliceSize ->
  exists r s', try_each js size s = Some (r, s') /\ alloc_result s outs size r s'.
Proof.
  induction js as [|i js IH]; intros s outs size HH Hin Hs; simpl.
  { do 2 eexists. split; [reflexivity|]. split; [apply same_containers_refl|done]. }
  destruct (alloc_from_ok s outs i size HH (Hin i ltac:(left)) Hs) as (r & s1 & Hrun & Hsame & Hr).
  erewrite bind_Some by exact Hrun. destruct r as [b|].
  - do 2 eexists. split; [reflexivity|]. split; [done|]. destruct Hr as (-> & ? & ? & ? & ? & ?).
    split_and!; try done. apply Hin. left.
  - destruct Hr as [HH1 Ha]. pose proof (proj1 Hsame) as E1.
    destruct (IH s1 outs size HH1) as (r & s' & Hrun' & Hres); [rewrite E1; intros; apply Hin; by right|done|].
    exists r, s'. split; [exact Hrun'|]. by eapply alloc_result_trans.
Qed.

(** The search by random draws meets undefined behaviour only when there are
    allocators to choose from. *)
Lemma random_loop_ok tries : forall k rng allocs indices s outs size, HeapInv s outs ->
  (forall i, i ∈ allocs -> i ∈ allocators_ s) -> (forall j, j ∈ indices -> (j < length allocs)%nat) ->
  (tries <= length indices)%nat -> 0 <= size <= kMaxSliceSize ->
  settles (1 < length allocs)%nat (random_loop tries k rng allocs indices size) s (alloc_result s outs size).
Proof.
  induction tries as [|tries IH]; intros k rng allocs indices s outs size HH Hin Hidx Hn Hs; cbn [random_loop].
  { split; [apply same_containers_refl|done]. }
  set (n := length indices) in *.
  assert (Hpick : (rng k mod n < length indices)%nat) by (apply Nat.mod_upper_bound; lia).
  destruct (lookup_lt_is_Some_2 indices _ Hpick) as [ri Eri].
  pose proof (Hidx ri (list_elem_of_lookup_2 _ _ _ Eri)) as Hri.
  destruct (lookup_lt_is_Some_2 allocs ri Hri) as [i Ei].
  pose proof (Hin i (list_elem_of_lookup_2 _ _ _ Ei)) as Hi.
  destruct (alloc_from_ok s outs i size HH Hi Hs) as (r & s1 & Hrun & Hsame & Hr).
  unfold settles. rewrite (bind_lift _ _ _ _ Eri), (bind_lift _ _ _ _ Ei). erewrite bind_Some by exact Hrun.
  destruct r as [b|].
  { split; [done|]. destruct Hr as (-> & ? & ? & ? & ? & ?). by split_and!. }
  destruct Hr as [HH1 Ha]. pose proof (proj1 Hsame) as E1.
  assert (Hnext : forall l, length l = n -> (forall j, j ∈ l -> (j < length allocs)%nat) ->
    settles (1 < length allocs)%nat (random_loop tries (S k) rng allocs (take (n - 1) l) size) s1 (alloc_result s outs size)).
  { intros l Hl Hj. eapply settles_mono; [apply (IH (S k) rng allocs _ s1 outs size HH1)|done|].
    - by rewrite E1.
    - intros j Hjin. apply Hj. by eapply elem_of_take in Hjin as (? & ?%list_elem_of_lookup_2 & _).
    - rewrite length_take. lia.
    - done.
    - intros r' s' Hres. by eapply alloc_result_trans. }
  destruct (decide (ri + 1 = n)%nat); [rewrite bind_ret; by apply Hnext|].
  destruct (indices !! ri) as [x|] eqn:Ex; [|apply lookup_ge_None in Ex; fold n in Ex; simpl; lia].
  destruct (lookup_lt_is_Some_2 indices (n - 1) ltac:(lia)) as [y Ey].
  erewrite bind_Some by (rewrite (bind_lift _ _ _ _ eq_refl), (bind_lift _ _ _ _ Ey); reflexivity).
  apply Hnext; [by rewrite !length_insert|]. intros j [z Hz]%list_elem_of_lookup.
  apply list_lookup_insert_Some in Hz as [(_ & <- & _)|[_ Hz]]; [by apply Hidx, (list_elem_of_lookup_2 _ _ _ Ex)|].
  apply list_lookup_insert_Some in Hz as [(_ & <- & _)|[_ Hz]]; [by apply Hidx, (list_elem_of_lookup_2 _ _ _ Ey)|].
  by apply Hidx, (list_elem_of_lookup_2 _ _ _ Hz).
Qed.

Lemma TryPreferredAllocate_ok size config s outs : SegInv s -> HeapInv s outs -> 0 <= size <= kMaxSliceSize ->
  exists r s', TryPreferredAllocate size config s = Some (r, s') /\ alloc_result s outs size r s'.
Proof.
  intros HI HH Hs. unfold TryPreferredAllocate.
  assert (Hnone : alloc_result s outs size None s) by (split; [apply same_containers_refl|done]).
  destruct (String.eqb _ _); [by do 2 eexists|]. rewrite bind_gets.
  destruct (allocators_by_name_ s !! preferred_segment config) as [l|] eqn:E; [|by do 2 eexists].
  apply try_each_ok; [done| |done]. intros i Hi. destruct (si_name _ HI _ l i E Hi) as (id & ms & Hm & Ha & _).
  destruct (si_mounted _ HI id ms Hm) as [_ Hx]. rewrite Ha in Hx. tauto.
Qed.

Lemma Allocate_ok rng size config s outs : SegInv s -> HeapInv s outs -> 0 <= size <= kMaxSliceSize ->
  settles (1 < length (allocators_ s))%nat (Allocate rng size config) s (alloc_result s outs size).
Proof.
  intros HI HH Hs. unfold Allocate.
  assert (Hrest : settles (1 < length (allocators_ s))%nat (let* preferred := TryPreferredAllocate size config in
    match preferred with Some b => ret (Some b) | None => TryRandomAllocate rng (allocators_ s) size end) s
    (alloc_result s outs size)).
  { destruct (TryPreferredAllocate_ok size config s outs HI HH Hs) as (r & s1 & Hrun & Hres).
    unfold settles. erewrite bind_Some by exact Hrun.
    destruct r as [b|]; [done|]. destruct Hres as [Hsame [HH1 Ha]]. pose proof (proj1 Hsame) as E1.
    eapply (settles_mono (1 < length (allocators_ s))%nat); [apply (random_loop_ok _ 0 rng (allocators_ s) _ s1 outs size HH1)|done|].
    - by rewrite E1.
    - intros j Hj%elem_of_seq. lia.
    - rewrite length_seq. lia.
    - done.
    - intros r s' Hres. by eapply alloc_result_trans. }
  unfold settles. rewrite bind_gets. destruct (allocators_ s) as [|i [|i' l]] eqn:E; [exact Hrest| |exact Hrest].
  destruct (alloc_from_ok s outs i size HH) as (r & s1 & -> & Hsame & Hr); [rewrite E; left|done|].
  split; [done|]. destruct r; [|done]. destruct Hr as (-> & ?). split; [rewrite E; left|done].
Qed.

(** Destroying a buffer whose allocator is alive returns it. *)
Lemma destroy_buffer_ok s outs b : SegInv s -> HeapInv s outs ->
  (buf_allocator b ∈ allocators_ s -> out_of b ∈ outs (buf_allocator b)) ->
  exists s' outs', destroy_buffer b s = Some (tt, s') /\ same_containers s s' /\ HeapInv s' outs' /\
    allocated_size s' = allocated_size s - size_ b /\
    (forall i, i <> buf_allocator b -> outs' i = outs i) /\
    (buf_allocator b ∈ allocators_ s -> outs (buf_allocator b) ≡ₚ out_of b :: outs' (buf_allocator b)).
Proof.
  intros HI HH Hout. unfold destroy_buffer. destruct (alive s (buf_allocator b)) eqn:Hal.
  - apply alive_iff in Hal; [|done]. destruct (HH _ Hal) as (a & Ea & Hinv). rewrite Ea.
    destruct (list_elem_of_split _ _ (Hout Hal)) as (l1 & l2 & El). rewrite El in Hinv.
    destruct (ba_deallocate_ok a l1 l2 _ _ _ Hinv) as (a' & -> & Hobj & Hinv').
    set (i := buf_allocator b) in *.
    exists (set_allocated (allocated_size s - size_ b) (set_heap (<[i:=a']> (heap s)) s)),
      (fun j => if decide (i = j) then l1 ++ l2 else outs j).
    split; [reflexivity|]. split_and!; try done.
    + split_and!; try done. intros j. by apply (same_heap_insert s i a a').
    + intros j Hj. simpl in *. destruct (decide (i = j)) as [<-|]; [exists a'; by rewrite lookup_insert_eq|].
      rewrite lookup_insert_ne by done. by apply HH.
    + intros j Hj. by rewrite decide_False.
    + intros _. rewrite decide_True by done. rewrite El. by rewrite <- Permutation_middle.
  - exists (set_allocated (allocated_size s - size_ b) s), outs. split; [reflexivity|].
    split; [exact (same_containers_refl s)|]. split_and!; try done.
    intros Hi. apply (alive_iff s) in Hi; [|done]. congruence.
Qed.

End strategy.

#[export] Hint Extern 0 (option_Forall2 same_object _ _) => exact (same_heap_refl _ _) : core.

End Strategy.
