(* ===== verification/Eviction.v ===== *)
(** * Eviction: the eviction strategies

    Models mooncake-store/include/eviction_strategy.h.  [std::list] nodes have
    an identity, which the iterators of [all_key_idx_map_] name; erasing
    through an iterator whose node is gone is undefined behaviour.  The LRU
    strategy refines a plain recency list of distinct keys; the FIFO strategy
    keeps no index, so it refines a queue in which [RemoveKey] does nothing. *)

From Stdlib Require Import ZArith Lia.
From stdpp Require Import base list gmap strings numbers.
From S2P Require Import Prelude Types.
Import Types.

Open Scope moon_scope.

Module Eviction.

Record EvictionStrategy : Type := mkStrategy {
  all_key_list_ : list (nat * string);
  all_key_idx_map_ : gmap string nat;
  next_node : nat;
}.

Definition empty_strategy : EvictionStrategy := mkStrategy [] ∅ 0.

Abbreviation M := (ST EvictionStrategy).

(** [all_key_list_.erase(it)]. *)
Definition list_erase (n : nat) : M unit := fun s =>
  match list_find (fun p => p.1 = n) (all_key_list_ s) with
  | None => None
  | Some (i, _) => Some (tt, mkStrategy (delete i (all_key_list_ s)) (all_key_idx_map_ s) (next_node s))
  end.

(** [all_key_list_.push_front(key)]; answers the new iterator. *)
Definition push_front (key : string) : M nat := fun s =>
  Some (next_node s, mkStrategy ((next_node s, key) :: all_key_list_ s) (all_key_idx_map_ s) (S (next_node s))).

Definition map_set (key : string) (n : nat) : M unit :=
  modify (fun s => mkStrategy (all_key_list_ s) (<[key := n]> (all_key_idx_map_ s)) (next_node s)).
Definition map_erase (key : string) : M unit :=
  modify (fun s => mkStrategy (all_key_list_ s) (delete key (all_key_idx_map_ s)) (next_node s)).

Definition RemoveKey (key : string) : M ErrorCode :=
  let* m := gets all_key_idx_map_ in
  do* match m !! key with
      | Some it => do* list_erase it in map_erase key
      | None => ret tt
      end in
  ret OK.

Definition GetSize : M nat := gets (fun s => length (all_key_list_ s)).
Definition CleanUp : M unit := modify (fun s => mkStrategy [] ∅ (next_node s)).

Definition pop_back : M (option string) := fun s =>
  match reverse (all_key_list_ s) with
  | [] => Some (None, s)
  | (_, key) :: l => Some (Some key, mkStrategy (reverse l) (all_key_idx_map_ s) (next_node s))
  end.

(** ** LRU *)

Definition lru_AddKey (key : string) : M ErrorCode :=
  let* m := gets all_key_idx_map_ in
  do* match m !! key with
      | Some it => do* list_erase it in map_erase key
      | None => ret tt
      end in
  let* it := push_front key in
  do* map_set key it in ret OK.

Definition lru_UpdateKey (key : string) : M ErrorCode :=
  let* m := gets all_key_idx_map_ in
  do* match m !! key with
      | Some it => do* list_erase it in let* it' := push_front key in map_set key it'
      | None => ret tt
      end in
  ret OK.

(** The empty string is the answer of an empty strategy. *)
Definition lru_EvictKey : M string :=
  let* r := pop_back in
  match r with
  | None => ret ""%string
  | Some key => do* map_erase key in ret key
  end.

(** ** FIFO: no index is kept *)

Definition fifo_AddKey (key : string) : M ErrorCode := let* _it := push_front key in ret OK.
Definition fifo_UpdateKey (key : string) : M ErrorCode := ret OK.
Definition fifo_EvictKey : M string :=
  let* r := pop_back in ret (default ""%string r).

(** ** Abstract strategies on lists of keys, most recent first *)

Inductive eop : Type := EAdd (k : string) | EUpdate (k : string) | ERemove (k : string) | EEvict | EClean.

Definition drop_key (k : string) (l : list string) : list string := filter (fun x => x <> k) l.

Definition last_key (l : list string) : string := default ""%string (list.last l).

Definition abs_lru (o : eop) (l : list string) : string * list string :=
  match o with
  | EAdd k => (""%string, k :: drop_key k l)
  | EUpdate k => (""%string, if decide (k ∈ l) then k :: drop_key k l else l)
  | ERemove k => (""%string, drop_key k l)
  | EEvict => (last_key l, removelast l)
  | EClean => (""%string, [])
  end.

Definition abs_fifo (o : eop) (l : list string) : string * list string :=
  match o with
  | EAdd k => (""%string, k :: l)
  | EUpdate _ | ERemove _ => (""%string, l)
  | EEvict => (last_key l, removelast l)
  | EClean => (""%string, [])
  end.

Definition quiet {A} (c : M A) : M string := let* _a := c in ret ""%string.

Definition lru_do (o : eop) : M string :=
  match o with
  | EAdd k => quiet (lru_AddKey k) | EUpdate k => quiet (lru_UpdateKey k)
  | ERemove k => quiet (RemoveKey k) | EEvict => lru_EvictKey | EClean => quiet CleanUp
  end.

Definition fifo_do (o : eop) : M string :=
  match o with
  | EAdd k => quiet (fifo_AddKey k) | EUpdate k => quiet (fifo_UpdateKey k)
  | ERemove k => quiet (RemoveKey k) | EEvict => fifo_EvictKey | EClean => quiet CleanUp
  end.

Fixpoint run (step : eop -> M string) (os : list eop) : M (list string) :=
  match os with
  | [] => ret []
  | o :: os => let* r := step o in let* rs := run step os in ret (r :: rs)
  end.

Fixpoint abs_run (step : eop -> list string -> string * list string) (os : list eop) (l : list string) : list string * list string :=
  match os with
  | [] => ([], l)
  | o :: os => let '(r, l1) := step o l in let '(rs, l2) := abs_run step os l1 in (r :: rs, l2)
  end.

(** ** The LRU invariant: the index is exactly the list *)

Record LInv (s : EvictionStrategy) : Prop := {
  li_nodes : NoDup (all_key_list_ s).*1;
  li_keys : NoDup (all_key_list_ s).*2;
  li_next : forall n k, (n, k) ∈ all_key_list_ s -> (n < next_node s)%nat;
  li_index : forall k n, all_key_idx_map_ s !! k = Some n <-> (n, k) ∈ all_key_list_ s;
}.

Definition keys (s : EvictionStrategy) : list string := (all_key_list_ s).*2.

Lemma index_None s k : LInv s -> all_key_idx_map_ s !! k = None <-> k ∉ keys s.
Proof.
  intros HI. unfold keys. rewrite list_elem_of_fmap. split.
  - intros HN ([n k'] & -> & Hin). apply (li_index _ HI) in Hin. simpl in HN. congruence.
  - intros HN. destruct (all_key_idx_map_ s !! k) as [n|] eqn:E; [|done]. exfalso. apply HN.
    apply (li_index _ HI) in E. by exists (n, k).
Qed.

Lemma drop_key_id k l : k ∉ l -> drop_key k l = l.
Proof. apply filter_absent. Qed.

(** Erasing through a live iterator removes exactly that key. *)
Lemma list_erase_ok s k n : LInv s -> all_key_idx_map_ s !! k = Some n ->
  exists l, list_erase n s = Some (tt, mkStrategy l (all_key_idx_map_ s) (next_node s)) /\
    l.*2 = drop_key k (keys s) /\ NoDup l.*1 /\ NoDup l.*2 /\
    (forall p, p ∈ l <-> p ∈ all_key_list_ s /\ p.2 <> k) /\ NoDup (keys s).
Proof.
  intros HI Hn. apply (li_index _ HI) in Hn as Hin.
  destruct (list_elem_of_split _ _ Hin) as (l1 & l2 & El). unfold list_erase, keys.
  pose proof (li_nodes _ HI) as N1. pose proof (li_keys _ HI) as N2. rewrite El in N1, N2 |- *.
  rewrite fmap_app, fmap_cons in N1. rewrite fmap_app, fmap_cons in N2. simpl in N1, N2.
  assert (list_find (fun p : nat * string => p.1 = n) (l1 ++ (n, k) :: l2) = Some (length l1, (n, k))) as ->.
  { apply list_find_Some. split_and!; [by rewrite list_lookup_middle|done|].
    intros j [n' k'] Hj Hlt Heq. simpl in Heq. subst n'.
    rewrite lookup_app_l in Hj by done. apply list_elem_of_lookup_2 in Hj.
    apply list.NoDup_app in N1 as (_ & Hd & _). apply (Hd n); [apply list_elem_of_fmap; by exists (n, k')|left]. }
  rewrite delete_middle. exists (l1 ++ l2). split; [done|].
  assert (Nk : (k ∉ l1.*2) /\ (k ∉ l2.*2)).
  { rewrite <- Permutation_middle in N2. apply list.NoDup_cons in N2 as [N2 _]. rewrite elem_of_app in N2. tauto. }
  split_and!.
  - rewrite !fmap_app, fmap_cons. unfold drop_key. rewrite list.filter_app. simpl.
    rewrite filter_cons_False by naive_solver.
    pose proof (drop_key_id k l1.*2 (proj1 Nk)) as E1. pose proof (drop_key_id k l2.*2 (proj2 Nk)) as E2.
    unfold drop_key in E1, E2. by rewrite E1, E2.
  - rewrite fmap_app. rewrite <- Permutation_middle in N1. by apply list.NoDup_cons in N1 as [_ ?].
  - rewrite fmap_app. rewrite <- Permutation_middle in N2. by apply list.NoDup_cons in N2 as [_ ?].
  - intros [n' k']. rewrite !elem_of_app, elem_of_cons. simpl. split.
    + intros Hp. split; [tauto|]. intros ->. destruct Nk as [Nk1 Nk2].
      destruct Hp as [Hp|Hp]; [apply Nk1|apply Nk2]; apply list_elem_of_fmap; by exists (n', k).
    + intros [[?|[?|?]] ?]; [tauto| |tauto]. by simplify_eq.
  - by rewrite fmap_app, fmap_cons.
Qed.

(** The state left by [erase] and [map.erase], or by nothing. *)
Lemma forget_ok s k : LInv s -> exists s',
  (match all_key_idx_map_ s !! k with
   | Some it => do* list_erase it in map_erase k
   | None => ret tt
   end) s = Some (tt, s') /\ LInv s' /\ keys s' = drop_key k (keys s) /\ all_key_idx_map_ s' !! k = None.
Proof.
  intros HI. destruct (all_key_idx_map_ s !! k) as [n|] eqn:E.
  - destruct (list_erase_ok s k n HI E) as (l & Hrun & Hl & N1 & N2 & Hiff & Hnk).
    erewrite bind_Some by exact Hrun. eexists. split; [reflexivity|]. simpl. split_and!.
    + split; simpl; try done.
      * intros n' k' [Hin _]%Hiff. by eapply (li_next _ HI).
      * intros k' n'. rewrite lookup_delete_Some, (li_index _ HI), Hiff. simpl. naive_solver.
    + exact Hl.
    + apply lookup_delete_eq.
  - exists s. split; [done|]. split_and!; try done. symmetry. apply drop_key_id. by apply index_None.
Qed.

Lemma touch_ok s k : LInv s -> k ∉ keys s -> exists s',
  (let* it := push_front k in map_set k it) s = Some (tt, s') /\ LInv s' /\ keys s' = k :: keys s.
Proof.
  intros HI Hk. eexists. split; [reflexivity|]. split; [|done]. split; simpl.
  - apply list.NoDup_cons. split; [|apply HI]. intros ([n k'] & En & Hin)%list_elem_of_fmap. simpl in En.
    apply (li_next _ HI) in Hin. lia.
  - apply list.NoDup_cons. split; [done|apply HI].
  - intros n k' [Heq|Hin]%elem_of_cons; [simplify_eq; lia|]. apply (li_next _ HI) in Hin. lia.
  - intros k' n. rewrite elem_of_cons. destruct (decide (k = k')) as [<-|Hne].
    + rewrite lookup_insert_eq. split; [intros [= ->]; by left|]. intros [Heq|Hin]; [by simplify_eq|].
      exfalso. apply Hk. apply list_elem_of_fmap. by exists (n, k).
    + rewrite lookup_insert_ne by done. rewrite (li_index _ HI). naive_solver.
Qed.

Lemma drop_key_notin k l : k ∉ drop_key k l.
Proof. unfold drop_key. rewrite list_elem_of_filter. naive_solver. Qed.

Lemma pop_back_ok s : LInv s -> exists r s', lru_EvictKey s = Some (r, s') /\ LInv s' /\
  r = last_key (keys s) /\ keys s' = removelast (keys s).
Proof.
  intros HI. unfold lru_EvictKey, pop_back, keys, last_key.
  destruct (all_key_list_ s) as [|[n k] l _] eqn:E using rev_ind.
  { unfold bind. rewrite E. simpl. do 2 eexists. split; [reflexivity|]. by rewrite E. }
  unfold bind. rewrite E, reverse_app. simpl. do 2 eexists. split; [reflexivity|].
  rewrite reverse_involutive. pose proof (li_nodes _ HI) as N1. pose proof (li_keys _ HI) as N2.
  rewrite E, fmap_app in N1. rewrite E, fmap_app in N2. apply list.NoDup_app in N1 as (N1 & _ & _). apply list.NoDup_app in N2 as (N2 & Hd & _).
  split_and!.
  - split; simpl; try done.
    + intros n' k' Hin. apply (li_next _ HI n' k'). rewrite E, elem_of_app. by left.
    + intros k' n'. rewrite lookup_delete_Some, (li_index _ HI), E, elem_of_app, list_elem_of_singleton. split.
      * intros [Hne [?|Heq]]; [done|]. by simplify_eq.
      * intros Hin. split; [|by left]. intros <-. apply (Hd k); [apply list_elem_of_fmap; by exists (n', k)|left].
  - rewrite fmap_app. simpl. by rewrite last_snoc.
  - simpl. rewrite fmap_app. simpl. by rewrite removelast_last.
Qed.

Lemma lru_do_ok o s : LInv s -> exists r s', lru_do o s = Some (r, s') /\ LInv s' /\ (r, keys s') = abs_lru o (keys s).
Proof.
  intros HI. destruct o as [k|k|k| |]; simpl.
  - destruct (forget_ok s k HI) as (s1 & Hrun & HI1 & Hk1 & _).
    destruct (touch_ok s1 k HI1) as (s2 & Hrun2 & HI2 & Hk2); [rewrite Hk1; apply drop_key_notin|].
    exists ""%string, s2. split; [|split; [done|by rewrite Hk2, Hk1]].
    assert (Hadd : lru_AddKey k s = Some (OK, s2)).
    { unfold lru_AddKey. rewrite bind_gets. erewrite bind_Some by exact Hrun. clear Hrun.
      unfold bind, push_front, map_set, modify in Hrun2 |- *. by simplify_eq. }
    unfold quiet. by erewrite bind_Some by exact Hadd.
  - unfold quiet. destruct (all_key_idx_map_ s !! k) as [n|] eqn:E.
    + rewrite decide_True by (destruct (decide (k ∈ keys s)); [done|]; by apply (index_None s k HI) in n0; congruence).
      destruct (forget_ok s k HI) as (s1 & Hrun & HI1 & Hk1 & Hm1). rewrite E in Hrun.
      destruct (list_erase_ok s k n HI E) as (l & Hle & _). erewrite bind_Some in Hrun by exact Hle.
      destruct (touch_ok s1 k HI1) as (s2 & Hrun2 & HI2 & Hk2); [rewrite Hk1; apply drop_key_notin|].
      exists ""%string, s2. split; [|split; [done|by rewrite Hk2, Hk1]].
      assert (Hupd : lru_UpdateKey k s = Some (OK, s2)).
      { unfold lru_UpdateKey. rewrite bind_gets, E. unfold map_erase, modify in Hrun.
        unfold bind, push_front, map_set, modify in Hrun2 |- *. rewrite Hle. simplify_eq. simpl.
        by rewrite insert_delete_eq. }
      by erewrite bind_Some by exact Hupd.
    + rewrite decide_False by (by apply index_None). exists ""%string, s. unfold lru_UpdateKey, bind, gets. by rewrite E.
  - destruct (forget_ok s k HI) as (s1 & Hrun & HI1 & Hk1 & _). exists ""%string, s1.
    split; [|by rewrite Hk1].
    unfold quiet, RemoveKey. unfold bind at 1. rewrite bind_gets. by erewrite bind_Some by exact Hrun.
  - destruct (pop_back_ok s HI) as (r & s' & Hrun & HI' & -> & Hk). do 2 eexists. split; [exact Hrun|]. by rewrite Hk.
  - do 2 eexists. split; [reflexivity|]. split; [|done]. split; simpl; try apply NoDup_nil_2.
    + intros n k Hin. by apply not_elem_of_nil in Hin.
    + intros k n. rewrite lookup_empty. split; [done|]. intros Hin. by apply not_elem_of_nil in Hin.
Qed.

Lemma lru_run_ok os : forall s, LInv s -> exists rs s', run lru_do os s = Some (rs, s') /\ LInv s' /\
  abs_run abs_lru os (keys s) = (rs, keys s').
Proof.
  induction os as [|o os IH]; intros s HI; simpl; [by do 2 eexists|].
  destruct (lru_do_ok o s HI) as (r & s1 & Hrun & HI1 & Habs).
  destruct (IH s1 HI1) as (rs & s' & Hrun' & HI' & Habs').
  exists (r :: rs), s'. erewrite bind_Some by exact Hrun. erewrite bind_Some by exact Hrun'.
  split; [done|]. split; [done|]. rewrite <- Habs. by rewrite Habs'.
Qed.

Lemma LInv_empty : LInv empty_strategy.
Proof.
  split; simpl; try apply NoDup_nil_2.
  - intros n k Hin. by apply not_elem_of_nil in Hin.
  - intros k n. rewrite lookup_empty. split; [done|]. intros Hin. by apply not_elem_of_nil in Hin.
Qed.

(** ** FIFO *)

Lemma fifo_do_ok o s : all_key_idx_map_ s = ∅ -> exists r s', fifo_do o s = Some (r, s') /\
  all_key_idx_map_ s' = ∅ /\ (r, keys s') = abs_fifo o (keys s).
Proof.
  intros Hm. destruct o as [k|k|k| |]; simpl; try (by do 2 eexists).
  - unfold quiet, RemoveKey, bind, gets. rewrite Hm, lookup_empty. by do 2 eexists.
  - unfold fifo_EvictKey, pop_back, bind, keys, last_key. destruct (all_key_list_ s) as [|[n k] l _] eqn:E using rev_ind.
    + do 2 eexists. split; [reflexivity|]. by rewrite E.
    + rewrite reverse_app. simpl. do 2 eexists. split; [reflexivity|]. simpl. split; [done|].
      rewrite reverse_involutive, fmap_app. simpl. by rewrite last_snoc, removelast_last.
Qed.

Lemma fifo_run_ok os : forall s, all_key_idx_map_ s = ∅ -> exists rs s', run fifo_do os s = Some (rs, s') /\
  all_key_idx_map_ s' = ∅ /\ abs_run abs_fifo os (keys s) = (rs, keys s').
Proof.
  induction os as [|o os IH]; intros s HI; simpl; [by do 2 eexists|].
  destruct (fifo_do_ok o s HI) as (r & s1 & Hrun & HI1 & Habs).
  destruct (IH s1 HI1) as (rs & s' & Hrun' & HI' & Habs').
  exists (r :: rs), s'. erewrite bind_Some by exact Hrun. erewrite bind_Some by exact Hrun'.
  split; [done|]. split; [done|]. rewrite <- Habs. by rewrite Habs'.
Qed.

End Eviction.
