(* ===== verification/Master.v ===== *)
(** * Master: the master service

    Models mooncake-store/include/master_service.h and src/master_service.cpp
    operation by operation.  The state of [MasterService] is [Master]: the
    metadata shards, the segment manager, the GC and client-ping queues, the
    flags and the gauges its operations update, and the local state of its two
    background threads.  Constant members are in [Config].

    What the operations read from outside is an argument: the clock (in
    nanoseconds), the random draws, whether a push to a lock-free queue found
    memory.  Iterating an [unordered_map] visits its entries in an unspecified
    order, given by the parameter [iter]; [std::hash], [std::regex] and
    [lexically_normal] are parameters too.

    Destroying an object destroys its replicas, whose buffers return their
    memory; the model runs those destructors where the source does. *)

From Stdlib Require Import ZArith Lia SpecFloat Ascii.
From stdpp Require Import base list gmap strings numbers sorting.
From S2P Require Import Prelude Types Double BufAlloc Segment SegmentProofs Strategy.
Import Types Seg Strategy.

Open Scope moon_scope.
Open Scope Z_scope.

Module Master.

Definition kNumShards : nat := 1024.

(** Durations in the nanoseconds of the steady clock. *)
Definition ms (t : Z) : Z := t * 1000000.
Definition sec (t : Z) : Z := t * 1000000000.

Record Config : Type := mkConfig' {
  enable_gc_ : bool;
  default_kv_lease_ttl_ : Z;
  default_kv_soft_pin_ttl_ : Z;
  allow_evict_soft_pinned_objects_ : bool;
  eviction_ratio_ : spec_float;
  eviction_high_watermark_ratio_ : spec_float;
  view_version_ : Z;
  client_live_ttl_sec_ : Z;
  enable_ha_ : bool;
  cluster_id_ : string;
  root_fs_dir_ : string;
}.

Definition use_disk_replica_ (cfg : Config) : bool := negb (String.eqb (root_fs_dir_ cfg) "").

(** The checks of the constructor: a ratio outside [0, 1] throws. *)
Definition ratio_rejected (r : spec_float) : bool := Dbl.ltb r Dbl.zero || Dbl.ltb Dbl.one r.
Definition config_accepted (cfg : Config) : bool :=
  negb (ratio_rejected (eviction_ratio_ cfg)) && negb (ratio_rejected (eviction_high_watermark_ratio_ cfg)).

Record GCTask : Type := mkTask { task_key : string; deletion_time : Z }.
Definition is_ready (now : Z) (t : GCTask) : bool := deletion_time t <=? now.

Section metadata.
Context {H : Type}.

Record ObjectMetadata : Type := mkMeta {
  replicas : list (Replica H);
  obj_size : Z;
  lease_timeout : Z;
  soft_pin_timeout : option Z;
}.

(** The constructor: the lease is the clock's epoch. *)
Definition new_metadata (value_length : Z) (reps : list (Replica H)) (enable_soft_pin : bool) : ObjectMetadata :=
  mkMeta reps value_length 0 (if enable_soft_pin then Some 0 else None).

Definition set_replicas l m := mkMeta l (obj_size m) (lease_timeout m) (soft_pin_timeout m).

Definition HasDiffRepStatus (status : ReplicaStatus) (t : ReplicaType) (m : ObjectMetadata) : option ReplicaStatus :=
  snd <$> list_find (fun st => st <> status)
            (status_ <$> filter (fun r => type r = t) (replicas m)).

Definition GrantLease (now ttl soft_ttl : Z) (m : ObjectMetadata) : ObjectMetadata :=
  mkMeta (replicas m) (obj_size m) (Z.max (lease_timeout m) (now + ms ttl))
    ((fun t => Z.max t (now + ms soft_ttl)) <$> soft_pin_timeout m).

Definition EraseReplica (t : ReplicaType) (m : ObjectMetadata) : ObjectMetadata :=
  set_replicas (filter (fun r => type r <> t) (replicas m)) m.

Definition HasMemReplica (m : ObjectMetadata) : bool := existsb is_memory_replica (replicas m).
Definition GetMemReplicaCount (m : ObjectMetadata) : Z :=
  Z.of_nat (length (filter (fun r => type r = MEMORY) (replicas m))).
Definition IsLeaseExpired (now : Z) (m : ObjectMetadata) : bool := lease_timeout m <=? now.
Definition IsSoftPinned (now : Z) (m : ObjectMetadata) : bool :=
  match soft_pin_timeout m with Some t => now <? t | None => false end.
Definition IsValid (m : ObjectMetadata) : bool :=
  match replicas m with [] => false | _ => 0 <? obj_size m end.
Definition IsAllReplicasComplete (m : ObjectMetadata) : bool :=
  forallb (fun r => bool_decide (status_ r = COMPLETE)) (replicas m).

Definition complete_descriptors (m : ObjectMetadata) : list Descriptor :=
  get_descriptor <$> filter (fun r => status_ r = COMPLETE) (replicas m).

Definition meta_buffers (m : ObjectMetadata) : list (AllocatedBuffer H) :=
  concat (replica_buffers <$> replicas m).

End metadata.

Arguments ObjectMetadata : clear implicits.

Section service.
Context {A H : Type} `{!BufferAllocator A H}.

Abbreviation Meta := (ObjectMetadata H).
Abbreviation Shard := (gmap string (ObjectMetadata H)).

(** [std::hash<std::string>], the iteration order of a shard, the regex
    engine ([None] when the pattern does not compile), path normalisation. *)
Context (hash : string -> Z) (iter : Shard -> list (string * Meta)).
Context (regex : string -> option (string -> bool)) (lexically_normal : string -> string).
Context (cfg : Config).

Record Gauges : Type := mkGauges {
  key_count : Z; soft_pin_key_count : Z; active_clients : Z;
  evicted_key_count : Z; evicted_size : Z; eviction_success : Z; eviction_attempts : Z }.

Record Master : Type := mkMaster {
  metadata_shards_ : list Shard;
  segment_manager_ : SegmentManager A;
  gc_queue_ : list GCTask;
  need_eviction_ : bool;
  ok_client_ : gset UUID;
  client_ping_queue_ : list UUID;
  gauges : Gauges;
  local_pq : list GCTask;
  client_ttl : gmap UUID Z;
}.

Definition set_shards v s := mkMaster v (segment_manager_ s) (gc_queue_ s) (need_eviction_ s) (ok_client_ s) (client_ping_queue_ s) (gauges s) (local_pq s) (client_ttl s).
Definition set_segs v s := mkMaster (metadata_shards_ s) v (gc_queue_ s) (need_eviction_ s) (ok_client_ s) (client_ping_queue_ s) (gauges s) (local_pq s) (client_ttl s).
Definition set_gc_queue v s := mkMaster (metadata_shards_ s) (segment_manager_ s) v (need_eviction_ s) (ok_client_ s) (client_ping_queue_ s) (gauges s) (local_pq s) (client_ttl s).
Definition set_need_eviction v s := mkMaster (metadata_shards_ s) (segment_manager_ s) (gc_queue_ s) v (ok_client_ s) (client_ping_queue_ s) (gauges s) (local_pq s) (client_ttl s).
Definition set_ok_client v s := mkMaster (metadata_shards_ s) (segment_manager_ s) (gc_queue_ s) (need_eviction_ s) v (client_ping_queue_ s) (gauges s) (local_pq s) (client_ttl s).
Definition set_ping_queue v s := mkMaster (metadata_shards_ s) (segment_manager_ s) (gc_queue_ s) (need_eviction_ s) (ok_client_ s) v (gauges s) (local_pq s) (client_ttl s).
Definition set_gauges v s := mkMaster (metadata_shards_ s) (segment_manager_ s) (gc_queue_ s) (need_eviction_ s) (ok_client_ s) (client_ping_queue_ s) v (local_pq s) (client_ttl s).
Definition set_local_pq v s := mkMaster (metadata_shards_ s) (segment_manager_ s) (gc_queue_ s) (need_eviction_ s) (ok_client_ s) (client_ping_queue_ s) (gauges s) v (client_ttl s).
Definition set_client_ttl v s := mkMaster (metadata_shards_ s) (segment_manager_ s) (gc_queue_ s) (need_eviction_ s) (ok_client_ s) (client_ping_queue_ s) (gauges s) (local_pq s) v.

Definition new_master (t : BufferAllocatorType) : Master :=
  mkMaster (replicate kNumShards ∅) (empty_manager t) [] false ∅ [] (mkGauges 0 0 0 0 0 0 0) [] ∅.

Abbreviation M := (ST Master).

(** Runs an operation of the segment manager. *)
Definition seg {X} (c : ST (SegmentManager A) X) : M X := fun s =>
  match c (segment_manager_ s) with Some (r, g) => Some (r, set_segs g s) | None => None end.

Definition add_key_count (n : Z) : M unit := modify (fun s =>
  let g := gauges s in set_gauges (mkGauges (key_count g + n) (soft_pin_key_count g) (active_clients g)
    (evicted_key_count g) (evicted_size g) (eviction_success g) (eviction_attempts g)) s).
Definition add_soft_pin_count (n : Z) : M unit := modify (fun s =>
  let g := gauges s in set_gauges (mkGauges (key_count g) (soft_pin_key_count g + n) (active_clients g)
    (evicted_key_count g) (evicted_size g) (eviction_success g) (eviction_attempts g)) s).
Definition add_active_clients (n : Z) : M unit := modify (fun s =>
  let g := gauges s in set_gauges (mkGauges (key_count g) (soft_pin_key_count g) (active_clients g + n)
    (evicted_key_count g) (evicted_size g) (eviction_success g) (eviction_attempts g)) s).
Definition inc_eviction_success (n size : Z) : M unit := modify (fun s =>
  let g := gauges s in set_gauges (mkGauges (key_count g) (soft_pin_key_count g) (active_clients g)
    (evicted_key_count g + n) (evicted_size g + size) (eviction_success g + 1) (eviction_attempts g + 1)) s).
Definition inc_eviction_fail : M unit := modify (fun s =>
  let g := gauges s in set_gauges (mkGauges (key_count g) (soft_pin_key_count g) (active_clients g)
    (evicted_key_count g) (evicted_size g) (eviction_success g) (eviction_attempts g + 1)) s).

Definition get_global_used_ratio (s : Master) : spec_float :=
  let allocated := Dbl.of_Z (allocated_size (segment_manager_ s)) in
  let capacity := Dbl.of_Z (total_capacity (segment_manager_ s)) in
  if SFeqb capacity Dbl.zero then Dbl.zero else Dbl.div allocated capacity.

(** ** Shards and destructors *)

Definition getShardIndex (key : string) : nat := Z.to_nat (hash key mod Z.of_nat kNumShards).

Definition get_shard (i : nat) : M Shard :=
  let* l := gets metadata_shards_ in lift (l !! i).

Definition set_shard (i : nat) (m : Shard) : M unit :=
  modify (fun s => set_shards (<[i := m]> (metadata_shards_ s)) s).

Definition put_meta (i : nat) (key : string) (m : Meta) : M unit :=
  let* sh := get_shard i in set_shard i (<[key := m]> sh).

(** [~Replica] and [~ObjectMetadata]. *)
Definition destroy_replicas (rs : list (Replica H)) : M unit :=
  seg (destroy_buffers (concat (replica_buffers <$> rs))).

Definition dec_meta_gauges (m : Meta) : M unit :=
  do* add_key_count (-1) in
  match soft_pin_timeout m with Some _ => add_soft_pin_count (-1) | None => ret tt end.

Definition destroy_metadata (m : Meta) : M unit :=
  do* dec_meta_gauges m in destroy_replicas (replicas m).

(** [metadata.erase(it)]. *)
Definition erase_meta (i : nat) (key : string) : M unit :=
  let* sh := get_shard i in
  match sh !! key with
  | None => ub
  | Some m => do* set_shard i (delete key sh) in destroy_metadata m
  end.

(** [CleanupStaleHandles]: drops every replica with a buffer whose allocator
    is gone; answers whether nothing is left. *)
Definition stale (s : Master) (r : Replica H) : bool := has_invalid_mem_handle (alive (segment_manager_ s)) r.

Definition CleanupStaleHandles (i : nat) (key : string) (m : Meta) : M (Meta * bool) :=
  let* s := gets id in
  let m' := set_replicas (filter (fun r => stale s r = false) (replicas m)) m in
  do* put_meta i key m' in
  do* destroy_replicas (filter (fun r => stale s r = true) (replicas m)) in
  ret (m', match replicas m' with [] => true | _ => false end).

(** [MetadataAccessor]: finds the key, cleaning up on the way. *)
Definition accessor (key : string) : M (option Meta) :=
  let i := getShardIndex key in
  let* sh := get_shard i in
  match sh !! key with
  | None => ret None
  | Some m =>
      let* r := CleanupStaleHandles i key m in
      let '(m', empty) := r in
      if empty then do* erase_meta i key in ret None
      else ret (Some m')
  end.

(** ** Queries *)

Definition ExistKey (now : Z) (key : string) : M bool :=
  let* r := accessor key in
  match r with
  | None => ret false
  | Some m =>
      if existsb (fun r => bool_decide (status_ r = COMPLETE)) (replicas m) then
        do* put_meta (getShardIndex key) key
              (GrantLease now (default_kv_lease_ttl_ cfg) (default_kv_soft_pin_ttl_ cfg) m) in
        ret true
      else ret false
  end.

(** Runs an operation for each key of a batch, each at its own time. *)
Fixpoint batch {X} (clock : nat -> Z) (k : nat) (op : Z -> string -> M X) (keys : list string) : M (list X) :=
  match keys with
  | [] => ret []
  | key :: keys =>
      let* r := op (clock k) key in
      let* rs := batch clock (S k) op keys in
      ret (r :: rs)
  end.

Definition BatchExistKey (clock : nat -> Z) (keys : list string) : M (list bool) := batch clock 0 ExistKey keys.

Definition GetAllKeys : M (list string) :=
  let* l := gets metadata_shards_ in ret (concat ((fun sh => fst <$> iter sh) <$> l)).

Definition MasterGetAllSegments : M (list string) := seg GetAllSegments.

Definition MasterQuerySegments (name : string) : M (ErrorCode + Z * Z) :=
  let* r := seg (QuerySegments name) in
  ret (match r with None => inl SEGMENT_NOT_FOUND | Some p => inr p end).

Definition GetKeyCount : M Z :=
  let* l := gets metadata_shards_ in ret (u64 (foldr (fun sh n => Z.of_nat (size sh) + n) 0 l)).

Definition GetReplicaListByRegex (pattern : string) : M (ErrorCode + list (string * list Descriptor)) :=
  match regex pattern with
  | None => ret (inl INVALID_PARAMS)
  | Some matches =>
      let* l := gets metadata_shards_ in
      ret (inr (concat ((fun sh =>
        omap (fun p : string * Meta =>
          if matches p.1 then
            match complete_descriptors p.2 with [] => None | ds => Some (p.1, ds) end
          else None) (iter sh)) <$> l)))
  end.

Definition MarkForGC (push_ok : bool) (now : Z) (key : string) (delay_ms : Z) : M ErrorCode :=
  if push_ok then
    do* modify (fun s => set_gc_queue (gc_queue_ s ++ [mkTask key (now + ms delay_ms)]) s) in ret OK
  else ret INTERNAL_ERROR.

Definition GetReplicaList (push_ok : bool) (now : Z) (key : string) : M (ErrorCode + list Descriptor) :=
  let* r := accessor key in
  match r with
  | None => ret (inl OBJECT_NOT_FOUND)
  | Some m =>
      match complete_descriptors m with
      | [] => ret (inl REPLICA_IS_NOT_READY)
      | replica_list =>
          do* (if enable_gc_ cfg then
                 let* _e := MarkForGC push_ok now key 1000 in ret tt
               else
                 put_meta (getShardIndex key) key
                   (GrantLease now (default_kv_lease_ttl_ cfg) (default_kv_soft_pin_ttl_ cfg) m)) in
          ret (inr replica_list)
      end
  end.

Definition BatchGetReplicaList (push_ok : bool) (clock : nat -> Z) (keys : list string) :
    M (list (ErrorCode + list Descriptor)) := batch clock 0 (GetReplicaList push_ok) keys.

(** ** Put *)

(** Allocates one buffer per slice; on failure the buffers so far are given
    back by the destructor of [handles]. *)
Fixpoint alloc_slices (rng : nat -> nat -> nat) (j : nat) (slices : list Z) (config : ReplicateConfig)
    (handles : list (AllocatedBuffer H)) : M (option (list (AllocatedBuffer H))) :=
  match slices with
  | [] => ret (Some handles)
  | chunk_size :: slices =>
      let* handle := seg (Allocate (rng j) chunk_size config) in
      match handle with
      | None =>
          do* modify (set_need_eviction true) in
          do* seg (destroy_buffers handles) in ret None
      | Some b => alloc_slices rng (S j) slices config (handles ++ [b])
      end
  end.

(** The outer loop of [PutStart], with [replicas] built so far. *)
Fixpoint alloc_replicas (rng : nat -> nat -> nat -> nat) (i n : nat) (slices : list Z) (config : ReplicateConfig)
    (reps : list (Replica H)) : M (option (list (Replica H))) :=
  match n with
  | O => ret (Some reps)
  | S n =>
      let* handles := alloc_slices (rng i) 0 slices config [] in
      match handles with
      | None => do* destroy_replicas reps in ret None
      | Some bs => alloc_replicas rng (S i) n slices config (reps ++ [mkReplica (MemoryReplicaData bs) PROCESSING])
      end
  end.

(** [emplace]: the new metadata is constructed first and destroyed again when
    the key is present. *)
Definition emplace_meta (i : nat) (key : string) (m : Meta) : M unit :=
  do* add_key_count 1 in
  do* match soft_pin_timeout m with Some _ => add_soft_pin_count 1 | None => ret tt end in
  let* sh := get_shard i in
  match sh !! key with
  | None => set_shard i (<[key := m]> sh)
  | Some _ => destroy_metadata m
  end.

(** ** Paths of disk replicas *)

Definition kInvalidChars : list Ascii.ascii := ["/"; "092"; ":"; "*"; "?"; "034"; "<"; ">"; "|"]%char.

Fixpoint SanitizeKey (key : string) : string :=
  match key with
  | EmptyString => EmptyString
  | String c key => String (if decide (c ∈ kInvalidChars) then "_"%char else c) (SanitizeKey key)
  end.

(** [std::filesystem::path::operator/] for relative right-hand sides. *)
Definition ends_with_slash (p : string) : bool :=
  match last (String.list_ascii_of_string p) with Some c => Ascii.eqb c "/"%char | None => false end.
Definition starts_with_slash (p : string) : bool :=
  match p with String c _ => Ascii.eqb c "/"%char | EmptyString => false end.
Definition path_join (p q : string) : string :=
  if starts_with_slash q then q
  else if String.eqb p "" || ends_with_slash p then (p ++ q)%string
  else (p ++ "/" ++ q)%string.

Definition dir_char (n : Z) : string := String (Ascii.ascii_of_nat (97 + Z.to_nat n)) EmptyString.

Definition ResolvePath (key : string) : string :=
  let h := hash key in
  let dir_path := path_join (dir_char (Z.land h 15)) (dir_char (Z.land (Z.shiftr h 4) 15)) in
  lexically_normal
    (path_join (path_join (path_join (root_fs_dir_ cfg) (cluster_id_ cfg)) dir_path) (SanitizeKey key)).

Fixpoint validate_slices (slices : list Z) (total : Z) : option Z :=
  match slices with
  | [] => Some total
  | x :: slices => if kMaxSliceSize <? x then None else validate_slices slices (u64 (total + x))
  end.

Definition PutStart (rng : nat -> nat -> nat -> nat) (key : string) (slice_lengths : list Z)
    (config : ReplicateConfig) : M (ErrorCode + list Descriptor) :=
  if (replica_num config =? 0) || String.eqb key "" || bool_decide (slice_lengths = []) then ret (inl INVALID_PARAMS)
  else
    match validate_slices slice_lengths 0 with
    | None => ret (inl INVALID_PARAMS)
    | Some total_length =>
        let i := getShardIndex key in
        let* sh := get_shard i in
        let* live :=
          (match sh !! key with
           | None => ret false
           | Some m => let* r := CleanupStaleHandles i key m in ret (negb r.2)
           end) in
        if live then ret (inl OBJECT_ALREADY_EXISTS)
        else
          let* mem := alloc_replicas rng 0 (Z.to_nat (replica_num config)) slice_lengths config [] in
          match mem with
          | None => ret (inl NO_AVAILABLE_HANDLE)
          | Some reps =>
              let reps := if use_disk_replica_ cfg
                          then reps ++ [mkReplica (DiskReplicaData (ResolvePath key) total_length) PROCESSING]
                          else reps in
              do* emplace_meta i key (new_metadata total_length reps (with_soft_pin config)) in
              ret (inr (get_descriptor <$> reps))
          end
    end.

Definition PutEnd (now : Z) (key : string) (t : ReplicaType) : M (option ErrorCode) :=
  let* r := accessor key in
  match r with
  | None => ret (Some OBJECT_NOT_FOUND)
  | Some m =>
      let m' := set_replicas ((fun r => if decide (type r = t) then mark_complete r else r) <$> replicas m) m in
      do* put_meta (getShardIndex key) key (GrantLease now 0 (default_kv_soft_pin_ttl_ cfg) m') in
      ret None
  end.

(** Erases the replicas of one type from an object, and the whole object when
    no valid replica is left. *)
Definition drop_replicas (t : ReplicaType) (i : nat) (key : string) (m : Meta) : M unit :=
  let m' := EraseReplica t m in
  do* put_meta i key m' in
  do* destroy_replicas (filter (fun r => type r = t) (replicas m)) in
  if IsValid m' then ret tt else erase_meta i key.

Definition PutRevoke (key : string) (t : ReplicaType) : M (option ErrorCode) :=
  let* r := accessor key in
  match r with
  | None => ret (Some OBJECT_NOT_FOUND)
  | Some m =>
      match HasDiffRepStatus PROCESSING t m with
      | Some _ => ret (Some INVALID_WRITE)
      | None =>
          do* drop_replicas t (getShardIndex key) key m in ret None
      end
  end.

Definition BatchPutEnd (clock : nat -> Z) (keys : list string) : M (list (option ErrorCode)) :=
  batch clock 0 (fun now key => PutEnd now key MEMORY) keys.
Definition BatchPutRevoke (keys : list string) : M (list (option ErrorCode)) :=
  batch (fun _ => 0) 0 (fun _ key => PutRevoke key MEMORY) keys.

(** ** Removal *)

Definition Remove (now : Z) (key : string) : M (option ErrorCode) :=
  let* r := accessor key in
  match r with
  | None => ret (Some OBJECT_NOT_FOUND)
  | Some m =>
      if negb (IsLeaseExpired now m) then ret (Some OBJECT_HAS_LEASE)
      else if negb (IsAllReplicasComplete m) then ret (Some REPLICA_IS_NOT_READY)
      else do* erase_meta (getShardIndex key) key in ret None
  end.

(** Walks the entries of a shard in iteration order and erases those chosen;
    answers how many.  The choice may depend on the time of the visit. *)
Fixpoint erase_entries (i : nat) (chosen : string -> Meta -> bool) (entries : list (string * Meta)) : M Z :=
  match entries with
  | [] => ret 0
  | (key, m) :: entries =>
      if chosen key m then
        do* erase_meta i key in
        let* n := erase_entries i chosen entries in ret (n + 1)
      else erase_entries i chosen entries
  end.

Fixpoint erase_shards (is_ : list nat) (chosen : string -> Meta -> bool) : M Z :=
  match is_ with
  | [] => ret 0
  | i :: is_ =>
      let* sh := get_shard i in
      let* n := erase_entries i chosen (iter sh) in
      let* k := erase_shards is_ chosen in ret (n + k)
  end.

(** [clock key] is the time at which [key] is examined. *)
Definition RemoveByRegex (clock : string -> Z) (pattern : string) : M (ErrorCode + Z) :=
  match regex pattern with
  | None => ret (inl INVALID_PARAMS)
  | Some matches =>
      let* n := erase_shards (seq 0 kNumShards)
        (fun key m => matches key && IsLeaseExpired (clock key) m && IsAllReplicasComplete m) in
      ret (inr n)
  end.

Definition RemoveAll (now : Z) : M Z :=
  erase_shards (seq 0 kNumShards) (fun _ m => IsLeaseExpired now m).

(** ** Segments *)

Definition push_ping (push_ok : bool) (client_id : UUID) : M bool :=
  if push_ok then do* modify (fun s => set_ping_queue (client_ping_queue_ s ++ [client_id]) s) in ret true
  else ret false.

Definition MasterMountSegment (push_ok : bool) (segment : Segment) (client_id : UUID) : M (option ErrorCode) :=
  let* pushed := (if enable_ha_ cfg then push_ping push_ok client_id else ret true) in
  if negb pushed then ret (Some INTERNAL_ERROR)
  else
    let* err := seg (MountSegment segment client_id) in
    ret (match err with SEGMENT_ALREADY_EXISTS | OK => None | e => Some e end).

Definition MasterReMountSegment (push_ok : bool) (segments : list Segment) (client_id : UUID) : M (option ErrorCode) :=
  if negb (enable_ha_ cfg) then ret (Some UNAVAILABLE_IN_CURRENT_MODE)
  else
    let* oks := gets ok_client_ in
    if decide (client_id ∈ oks) then ret None
    else
      let* pushed := push_ping push_ok client_id in
      if negb pushed then ret (Some INTERNAL_ERROR)
      else
        let* err := seg (ReMountSegment segments client_id) in
        match err with
        | OK =>
            do* modify (fun s => set_ok_client ({[client_id]} ∪ ok_client_ s) s) in
            do* add_active_clients 1 in ret None
        | e => ret (Some e)
        end.

(** One shard of [ClearInvalidHandles]. *)
Fixpoint clear_entries (i : nat) (entries : list (string * Meta)) : M unit :=
  match entries with
  | [] => ret tt
  | (key, m) :: entries =>
      let* r := CleanupStaleHandles i key m in
      do* (if r.2 : bool then erase_meta i key else ret tt) in
      clear_entries i entries
  end.

Fixpoint clear_shards (is_ : list nat) : M unit :=
  match is_ with
  | [] => ret tt
  | i :: is_ => let* sh := get_shard i in do* clear_entries i (iter sh) in clear_shards is_
  end.

Definition ClearInvalidHandles : M unit := clear_shards (seq 0 kNumShards).

Definition UnmountSegment (segment_id client_id : UUID) : M (option ErrorCode) :=
  let* r := seg (PrepareUnmountSegment segment_id) in
  let '(err, metrics_dec_capacity) := r in
  match err with
  | SEGMENT_NOT_FOUND => ret None
  | OK =>
      do* ClearInvalidHandles in
      let* err := seg (CommitUnmountSegment segment_id client_id metrics_dec_capacity) in
      ret (match err with OK => None | e => Some e end)
  | e => ret (Some e)
  end.

(** ** Clients *)

Definition Ping (push_ok : bool) (client_id : UUID) : M (ErrorCode + PingResponse) :=
  if negb (enable_ha_ cfg) then ret (inl UNAVAILABLE_IN_CURRENT_MODE)
  else
    let* oks := gets ok_client_ in
    let client_status := if decide (client_id ∈ oks) then CLIENT_OK else NEED_REMOUNT in
    let* pushed := push_ping push_ok client_id in
    if negb pushed then ret (inl INTERNAL_ERROR)
    else ret (inr (mkPing (view_version_ cfg) client_status)).

Definition GetFsdir : ErrorCode + string :=
  if String.eqb (root_fs_dir_ cfg) "" || String.eqb (cluster_id_ cfg) "" then inl INVALID_PARAMS
  else inr (root_fs_dir_ cfg ++ "/" ++ cluster_id_ cfg)%string.

(** One round of [ClientMonitorFunc]; [clients] is the iteration order of the
    local TTL table. *)
Definition refresh_ttl (now : Z) (q : list UUID) (m : gmap UUID Z) : gmap UUID Z :=
  fold_left (fun m c => <[c := now + sec (client_live_ttl_sec_ cfg)]> m) q m.

Definition expired_clients (now : Z) (order : list UUID) (m : gmap UUID Z) : list UUID :=
  filter (fun c => match m !! c with Some t => t <? now | None => false end = true) order.

Fixpoint drop_ok (cs : list UUID) : M unit :=
  match cs with
  | [] => ret tt
  | c :: cs =>
      let* oks := gets ok_client_ in
      do* (if decide (c ∈ oks) then
             do* modify (fun s => set_ok_client (ok_client_ s ∖ {[c]}) s) in add_active_clients (-1)
           else ret tt) in
      drop_ok cs
  end.

(** Prepares the segments of one expired client; answers those prepared with
    their capacities. *)
Fixpoint prepare_segments (client : UUID) (segs : list Segment) : M (list (UUID * UUID * Z)) :=
  match segs with
  | [] => ret []
  | g :: segs =>
      let* r := seg (PrepareUnmountSegment (seg_id g)) in
      let* rest := prepare_segments client segs in
      ret (match r.1 with OK => (seg_id g, client, r.2) :: rest | _ => rest end)
  end.

Fixpoint prepare_clients (cs : list UUID) : M (list (UUID * UUID * Z)) :=
  match cs with
  | [] => ret []
  | c :: cs =>
      let* segments := seg (GetClientSegments c) in
      let* l := prepare_segments c (default [] segments) in
      let* rest := prepare_clients cs in
      ret (l ++ rest)
  end.

Fixpoint commit_all (l : list (UUID * UUID * Z)) : M unit :=
  match l with
  | [] => ret tt
  | (sid, c, cap) :: l => let* _e := seg (CommitUnmountSegment sid c cap) in commit_all l
  end.

(** ** Eviction *)

(** [std::ceil(count * ratio) - evicted], converted to [long]: undefined when
    the value is not one of a [long], as when the ratio is not a number. *)
Definition quota (count : Z) (ratio : spec_float) (evicted : Z) : option Z :=
  Dbl.to_long (Dbl.sub (Dbl.ceil (Dbl.mul (Dbl.of_Z count) ratio)) (Dbl.of_Z evicted)).

(** The value [std::nth_element] puts at position [k]: the [k]-th smallest. *)
Definition nth_smallest (k : Z) (l : list Z) : option Z := aget (merge_sort Z.le l) k.

(** Complete in memory: nothing is being written there. *)
Definition mem_complete (m : Meta) : bool :=
  match HasDiffRepStatus COMPLETE MEMORY m with None => true | Some _ => false end.

Record EvictAcc : Type := mkAcc {
  evicted_count : Z; object_count : Z; total_freed_size : Z;
  no_pin_objects : list Z; soft_pin_objects : list Z }.

Definition freed_by (m : Meta) : Z := u64 (obj_size m * GetMemReplicaCount m).

(** First pass, the walk over one shard: objects that may go and whose lease
    is not later than the target are evicted, the others are noted for the
    second pass. *)
Definition first_pass_ok (now : Z) (m : Meta) : bool :=
  IsLeaseExpired now m && negb (IsSoftPinned now m) && mem_complete m && HasMemReplica m.

Fixpoint first_walk (i : nat) (now target_timeout : Z) (entries : list (string * Meta)) : M (Z * Z * list Z) :=
  match entries with
  | [] => ret (0, 0, [])
  | (key, m) :: entries =>
      if negb (first_pass_ok now m) then first_walk i now target_timeout entries
      else if lease_timeout m <=? target_timeout then
        do* drop_replicas MEMORY i key m in
        let* r := first_walk i now target_timeout entries in
        let '(n, freed, rest) := r in ret (n + 1, u64 (freed + freed_by m), rest)
      else
        let* r := first_walk i now target_timeout entries in
        let '(n, freed, rest) := r in ret (n, freed, lease_timeout m :: rest)
  end.

Definition first_shard (now : Z) (target : spec_float) (i : nat) (acc : EvictAcc) : M EvictAcc :=
  let* sh := get_shard i in
  let count := object_count acc + Z.of_nat (size sh) in
  let* ideal_evict_num := lift (quota count target (evicted_count acc)) in
  let eligible := filter (fun p : string * Meta => (IsLeaseExpired now p.2 && mem_complete p.2) = true) (iter sh) in
  let leases (b : bool) := (fun p : string * Meta => lease_timeout p.2) <$>
    filter (fun p : string * Meta => IsSoftPinned now p.2 = b) eligible in
  let soft := soft_pin_objects acc ++ (if allow_evict_soft_pinned_objects_ cfg then leases true else []) in
  if 0 <? ideal_evict_num then
    let candidates := leases false in
    match candidates with
    | [] => ret (mkAcc (evicted_count acc) count (total_freed_size acc) (no_pin_objects acc) soft)
    | _ =>
        let evict_num := Z.min ideal_evict_num (Z.of_nat (length candidates)) in
        let* target_timeout := lift (nth_smallest (evict_num - 1) candidates) in
        let* r := first_walk i now target_timeout (iter sh) in
        let '(n, freed, rest) := r in
        ret (mkAcc (evicted_count acc + n) count (u64 (total_freed_size acc + freed))
               (no_pin_objects acc ++ rest) soft)
    end
  else ret (mkAcc (evicted_count acc) count (total_freed_size acc) (no_pin_objects acc ++ leases false) soft).

Fixpoint first_pass (now : Z) (target : spec_float) (shards : list nat) (acc : EvictAcc) : M EvictAcc :=
  match shards with
  | [] => ret acc
  | i :: shards => let* acc := first_shard now target i acc in first_pass now target shards acc
  end.

(** Second pass: evicts the objects that [pick] allows, at most [target]. *)
Fixpoint second_walk (i : nat) (pick : Meta -> bool) (entries : list (string * Meta)) (target : Z) : M (Z * Z) :=
  match entries with
  | [] => ret (0, 0)
  | (key, m) :: entries =>
      if target <=? 0 then ret (0, 0)
      else if pick m then
        do* drop_replicas MEMORY i key m in
        let* r := second_walk i pick entries (target - 1) in
        ret (r.1 + 1, u64 (r.2 + freed_by m))
      else second_walk i pick entries target
  end.

Fixpoint second_pass (pick : Meta -> bool) (shards : list nat) (target : Z) : M (Z * Z) :=
  match shards with
  | [] => ret (0, 0)
  | i :: shards =>
      if target <=? 0 then ret (0, 0)
      else
        let* sh := get_shard i in
        let* r := second_walk i pick (iter sh) target in
        let* r' := second_pass pick shards (target - r.1) in
        ret (r.1 + r'.1, u64 (r.2 + r'.2))
  end.

(** Pass A: only objects without soft pin, up to a lease timeout. *)
Definition pick_a (now target_timeout : Z) (m : Meta) : bool :=
  (lease_timeout m <=? target_timeout) && negb (IsSoftPinned now m) && mem_complete m && HasMemReplica m.

(** Pass B: also soft-pinned objects up to a lease timeout. *)
Definition pick_b (now soft_target_timeout : Z) (m : Meta) : bool :=
  IsLeaseExpired now m && mem_complete m && HasMemReplica m &&
  (negb (IsSoftPinned now m) || (lease_timeout m <=? soft_target_timeout)).

(** The shards in the order of a pass. *)
Definition shard_order (start : nat) : list nat :=
  (fun i => (start + i) mod kNumShards)%nat <$> seq 0 kNumShards.

Definition BatchEvict (now : Z) (start : nat) (evict_ratio_target evict_ratio_lowerbound : spec_float) : M unit :=
  let evict_ratio_lowerbound :=
    if Dbl.ltb evict_ratio_target evict_ratio_lowerbound then evict_ratio_target else evict_ratio_lowerbound in
  let* acc := first_pass now evict_ratio_target (shard_order start) (mkAcc 0 0 0 [] []) in
  let n_no_pin := Z.of_nat (length (no_pin_objects acc)) in
  let n_soft := Z.of_nat (length (soft_pin_objects acc)) in
  let* ideal_evict_num := lift (quota (object_count acc) evict_ratio_lowerbound (evicted_count acc)) in
  let target_evict_num := Z.min ideal_evict_num (n_no_pin + n_soft) in
  let* second :=
    (if 0 <? target_evict_num then
       if target_evict_num <=? n_no_pin then
         let* target_timeout := lift (nth_smallest (target_evict_num - 1) (no_pin_objects acc)) in
         second_pass (pick_a now target_timeout) (shard_order start) target_evict_num
       else
         match soft_pin_objects acc with
         | [] => ret (0, 0)
         | _ =>
             let* soft_target := lift (nth_smallest (target_evict_num - n_no_pin - 1) (soft_pin_objects acc)) in
             second_pass (pick_b now soft_target) (shard_order start) target_evict_num
         end
     else ret (0, 0)) in
  let evicted := evicted_count acc + second.1 in
  if 0 <? evicted then
    do* modify (set_need_eviction false) in
    inc_eviction_success evicted (u64 (total_freed_size acc + second.2))
  else
    do* (if object_count acc =? 0 then modify (set_need_eviction false) else ret tt) in
    inc_eviction_fail.

(** ** Garbage collection: one round of [GCThreadFunc] *)

Definition task_before (a b : GCTask) : Prop := deletion_time a <= deletion_time b.

#[export] Instance task_before_dec : RelDecision task_before := fun a b => Z_le_dec (deletion_time a) (deletion_time b).

(** Removes the tasks that are ready, earliest first.  [clock] gives the
    readings of the clock in order: one for the readiness of a task, one for
    the lease check of its removal. *)
Fixpoint gc_ready (k : nat) (clock : nat -> Z) (tasks : list GCTask) : M (list GCTask) :=
  match tasks with
  | [] => ret []
  | t :: tasks =>
      if negb (is_ready (clock k) t) then ret (t :: tasks)
      else
        let* _r := Remove (clock (S k)) (task_key t) in
        gc_ready (S (S k)) clock tasks
  end.

(** The ratios a round hands to [BatchEvict], from the share of the memory in
    use. *)
Definition evict_target (used_ratio : spec_float) : spec_float :=
  Dbl.max (eviction_ratio_ cfg) (Dbl.add (Dbl.sub used_ratio (eviction_high_watermark_ratio_ cfg)) (eviction_ratio_ cfg)).
Definition evict_lowerbound (used_ratio : spec_float) : spec_float :=
  Dbl.max (Dbl.mul (evict_target used_ratio) Dbl.half) (Dbl.sub used_ratio (eviction_high_watermark_ratio_ cfg)).

Definition gc_round (clock : nat -> Z) (evict_now : Z) (start : nat) : M unit :=
  let* s := gets id in
  do* modify (set_gc_queue []) in
  let* rest := gc_ready 0 clock (merge_sort task_before (local_pq s ++ gc_queue_ s)) in
  do* modify (set_local_pq rest) in
  let* used_ratio := gets get_global_used_ratio in
  let* need := gets need_eviction_ in
  if Dbl.ltb (eviction_high_watermark_ratio_ cfg) used_ratio || (need && Dbl.ltb Dbl.zero (eviction_ratio_ cfg)) then
    BatchEvict evict_now start (evict_target used_ratio) (evict_lowerbound used_ratio)
  else ret tt.

Definition client_monitor_round (now : Z) (order : gmap UUID Z -> list UUID) : M unit :=
  do* modify (fun s => set_ping_queue [] (set_client_ttl (refresh_ttl now (client_ping_queue_ s) (client_ttl s)) s)) in
  let* ttl := gets client_ttl in
  let expired := expired_clients now (order ttl) ttl in
  do* modify (fun s => set_client_ttl (foldr delete (client_ttl s) expired) s) in
  match expired with
  | [] => ret tt
  | _ =>
      do* drop_ok expired in
      let* unmount := prepare_clients expired in
      match unmount with
      | [] => ret tt
      | _ => do* ClearInvalidHandles in commit_all unmount
      end
  end.

End service.

Arguments Master : clear implicits.

End Master.
