(* ===== verification/MasterOwn.v ===== *)
(** * MasterOwn: every buffer of the store has exactly one owner

    [Own extra st]: the allocators' outstanding buffers are exactly the
    buffers of the objects in the shards plus the buffers [extra] an operation
    holds in its hands; the gauges count what is there.  This file proves the
    primitive steps of the master; MasterProofs lifts them to operations. *)

From Stdlib Require Import ZArith Lia.
From stdpp Require Import base list gmap strings numbers.
From S2P Require Import Prelude Types BufAlloc Segment SegmentProofs Strategy Master.
Import Types Seg SegProofs Strategy Master.

Open Scope moon_scope.
Open Scope Z_scope.

Module Own.

Section own.
Context {A H : Type} `{!BufferAllocator A H} `{!BufferAllocatorLaws A H}.
Abbreviation Buffer := (AllocatedBuffer H).
Abbreviation Meta := (ObjectMetadata H).
Abbreviation Shard := (gmap string (ObjectMetadata H)).

(** ** Buffers and allocators *)

Definition outs_of (bs : list Buffer) (i : nat) : list (Out H) :=
  out_of <$> filter (fun b => buf_allocator b = i) bs.

Definition bytes (bs : list Buffer) : Z := foldr (fun b n => size_ b + n) 0 bs.

Record owns (g : SegmentManager A) (bs : list Buffer) : Prop := {
  ow_seg : SegInv g;
  ow_heap : HeapInv g (outs_of bs);
  ow_bytes : allocated_size g = bytes bs;
  ow_ids : forall b, b ∈ bs -> (buf_allocator b < next_id g)%nat;
  ow_named : forall b, b ∈ bs -> buf_allocator b ∈ allocators_ g -> named g b;
}.

#[export] Instance outs_of_perm i : Proper (Permutation ==> Permutation) (fun bs => outs_of bs i).
Proof. intros l l' HP. unfold outs_of. by rewrite HP. Qed.

#[export] Instance bytes_perm : Proper (Permutation ==> eq) bytes.
Proof. intros l l'; induction 1; unfold bytes in *; simpl in *; lia. Qed.

Lemma bytes_app l1 l2 : bytes (l1 ++ l2) = bytes l1 + bytes l2.
Proof. induction l1; unfold bytes in *; simpl; [done|lia]. Qed.

(** What ownership sees of a buffer: not its status. *)
Definition mem (b : Buffer) : nat * string * Out H := (buf_allocator b, segment_name_ b, out_of b).

Lemma outs_of_mem bs i : outs_of bs i = snd <$> filter (fun x => x.1.1 = i) (mem <$> bs).
Proof.
  unfold outs_of. induction bs as [|b bs IH]; [done|]. rewrite fmap_cons, !filter_cons. simpl.
  destruct (decide (buf_allocator b = i)); rewrite ?fmap_cons, <- IH; done.
Qed.

Lemma bytes_mem bs : bytes bs = foldr (fun (x : nat * string * Out H) n => x.2.1.2 + n) 0 (mem <$> bs).
Proof. induction bs as [|b bs IH]; [done|]. unfold bytes in *. simpl. by rewrite IH. Qed.

Lemma owns_mem g bs bs' : mem <$> bs ≡ₚ mem <$> bs' -> owns g bs -> owns g bs'.
Proof.
  intros HP [H1 H2 H3 H4 H5].
  assert (Hmem : forall b, b ∈ bs' -> exists b0, b0 ∈ bs /\ buf_allocator b = buf_allocator b0 /\ segment_name_ b = segment_name_ b0).
  { intros b Hb. assert (Hin : mem b ∈ mem <$> bs) by (rewrite HP; apply list_elem_of_fmap; by exists b).
    apply list_elem_of_fmap in Hin as (b0 & [= E E' _] & Hb0). by exists b0. }
  split; try done.
  - intros i Hi. destruct (H2 i Hi) as (a & Ea & HI). exists a. split; [done|].
    eapply ba_inv_perm; [|exact HI]. rewrite !outs_of_mem. by rewrite HP.
  - rewrite H3, !bytes_mem. clear -HP. induction HP; simpl in *; lia.
  - intros b (b0 & Hb0 & -> & _)%Hmem. by apply H4.
  - intros b (b0 & Hb0 & E1 & E2)%Hmem. unfold named. rewrite E1, E2. by apply H5.
Qed.

Lemma owns_perm g bs bs' : bs ≡ₚ bs' -> owns g bs -> owns g bs'.
Proof. intros HP. apply owns_mem. by rewrite HP. Qed.

Lemma outs_of_cons b bs i : outs_of (b :: bs) i = add_out b (outs_of bs) i.
Proof.
  unfold outs_of, add_out. destruct (decide (buf_allocator b = i)).
  - by rewrite filter_cons_True.
  - by rewrite filter_cons_False.
Qed.

Lemma HeapInv_ext g o o' : (forall i, i ∈ allocators_ g -> o i ≡ₚ o' i) -> HeapInv g o -> HeapInv g o'.
Proof.
  intros He HH i Hi. destruct (HH i Hi) as (a & Ea & HI). exists a. split; [done|].
  eapply ba_inv_perm; [|exact HI]. by apply He.
Qed.

Lemma owns_allocate rng size config g bs : owns g bs -> 0 <= size <= kMaxSliceSize ->
  settles (1 < length (allocators_ g))%nat (Allocate rng size config) g (fun r g' => same_containers g g' /\
    match r with
    | None => owns g' bs
    | Some b => owns g' (b :: bs) /\ size_ b = size /\ buf_status b = BUF_INIT /\ buf_allocator b ∈ allocators_ g
    end).
Proof.
  intros [H1 H2 H3 H4 H5] Hs. eapply settles_mono; [apply (Allocate_ok rng size config g _ H1 H2 Hs)|done|].
  intros r g' [Hsame Hr]. split; [done|]. pose proof (SegInv_same _ _ Hsame H1) as HI'.
  pose proof Hsame as (Ea&_&_&_&En&_&_&_). destruct r as [b|].
  - destruct Hr as (Hin & Hsz & Hst & HH & Ha & Hnm). split_and!; try done. split; try done.
    + eapply HeapInv_ext; [|exact HH]. intros i _. by rewrite outs_of_cons.
    + rewrite Ha, H3, <- Hsz. unfold bytes. simpl. lia.
    + intros b' [->|Hb]%elem_of_cons; rewrite En; [|by apply H4].
      apply (si_next _ H1), (si_heap _ H1), Hin.
    + intros b' [->|Hb]%elem_of_cons Hi; [done|]. rewrite Ea in Hi. by apply (named_same g g'), H5.
  - destruct Hr as [HH Ha]. split; try done; [congruence|intros b Hb; rewrite En; by apply H4|].
    intros b Hb Hi. rewrite Ea in Hi. by apply (named_same g g'), H5.
Qed.

Lemma owns_destroy g b bs : owns g (b :: bs) ->
  exists g', destroy_buffer b g = Some (tt, g') /\ same_containers g g' /\ owns g' bs.
Proof.
  intros [H1 H2 H3 H4 H5]. destruct (destroy_buffer_ok g (outs_of (b :: bs)) b H1 H2) as (g' & o' & Hrun & Hsame & HH & Ha & Ho & Hp).
  { intros _. rewrite outs_of_cons. unfold add_out. rewrite decide_True by done. left. }
  exists g'. split; [done|]. split; [done|]. pose proof Hsame as (Ea&_&_&_&En&_&_&_). split.
  - by eapply SegInv_same.
  - eapply HeapInv_ext; [|exact HH]. intros i Hi. rewrite Ea in Hi. destruct (decide (i = buf_allocator b)) as [->|Hne].
    + specialize (Hp Hi). rewrite outs_of_cons in Hp. unfold add_out in Hp. rewrite decide_True in Hp by done.
      symmetry. by apply Permutation_cons_inv in Hp.
    + rewrite (Ho i Hne), outs_of_cons. unfold add_out. by rewrite decide_False.
  - rewrite Ha, H3. unfold bytes. simpl. lia.
  - intros b' Hb. rewrite En. apply H4. by right.
  - intros b' Hb Hi. rewrite Ea in Hi. apply (named_same g g' b' Hsame), H5; [by right|done].
Qed.

Lemma owns_destroys ds : forall g bs, owns g (ds ++ bs) ->
  exists g', destroy_buffers ds g = Some (tt, g') /\ same_containers g g' /\ owns g' bs.
Proof.
  induction ds as [|b ds IH]; intros g bs Ho; simpl.
  { exists g. split; [done|]. split; [apply same_containers_refl|done]. }
  destruct (owns_destroy g b _ Ho) as (g1 & Hrun & Hs1 & Ho1). erewrite bind_Some by exact Hrun.
  destruct (IH g1 bs Ho1) as (g' & Hrun' & Hs2 & Ho2). exists g'. split; [done|].
  split; [by eapply same_containers_trans|done].
Qed.

(** ** Shards *)

Definition shard_buffers (sh : Shard) : list Buffer :=
  concat ((fun p : string * Meta => meta_buffers p.2) <$> map_to_list sh).
Definition all_buffers (shards : list Shard) : list Buffer := concat (shard_buffers <$> shards).

Definition objects (shards : list Shard) : Z := foldr (fun sh n => Z.of_nat (size sh) + n) 0 shards.
Definition pin (m : Meta) : Z := match soft_pin_timeout m with Some _ => 1 | None => 0 end.
Definition pinned_in (sh : Shard) : Z :=
  Z.of_nat (length (filter (fun p : string * Meta => is_Some (soft_pin_timeout p.2)) (map_to_list sh))).
Definition pinned (shards : list Shard) : Z := foldr (fun sh n => pinned_in sh + n) 0 shards.

#[export] Instance concat_perm {X} : Proper (Permutation ==> Permutation) (@concat X).
Proof.
  intros l l'. induction 1 as [|x l l' _ IH|x y l|]; simpl; [done|by rewrite IH| |by etransitivity].
  by rewrite !app_assoc, (Permutation_app_comm x y).
Qed.

Lemma shard_buffers_insert sh k m : sh !! k = None ->
  shard_buffers (<[k := m]> sh) ≡ₚ meta_buffers m ++ shard_buffers sh.
Proof.
  intros Hk. unfold shard_buffers. by rewrite map_to_list_insert.
Qed.

Lemma shard_buffers_delete sh k m : sh !! k = Some m ->
  shard_buffers sh ≡ₚ meta_buffers m ++ shard_buffers (delete k sh).
Proof.
  intros Hk. rewrite <- (insert_delete_id sh k m Hk) at 1. apply shard_buffers_insert, lookup_delete_eq.
Qed.

Lemma shard_buffers_update sh k m m' : sh !! k = Some m ->
  shard_buffers (<[k := m']> sh) ++ meta_buffers m ≡ₚ meta_buffers m' ++ shard_buffers sh.
Proof.
  intros Hk. rewrite <- insert_delete_eq, shard_buffers_insert by apply lookup_delete_eq.
  rewrite (shard_buffers_delete sh k m Hk). rewrite <- !app_assoc. apply Permutation_app_head.
  apply Permutation_app_comm.
Qed.

Lemma pinned_in_insert sh k m : sh !! k = None ->
  pinned_in (<[k := m]> sh) = pin m + pinned_in sh.
Proof.
  intros Hk. unfold pinned_in, pin. rewrite map_to_list_insert by done.
  destruct (soft_pin_timeout m) eqn:E.
  - rewrite filter_cons_True by (simpl; rewrite E; eauto). simpl. lia.
  - rewrite filter_cons_False by (simpl; rewrite E; intros [? ?]; done). lia.
Qed.

Lemma pinned_in_delete sh k m : sh !! k = Some m ->
  pinned_in (delete k sh) = pinned_in sh - pin m.
Proof.
  intros Hk. rewrite <- (insert_delete_id sh k m Hk) at 2. rewrite pinned_in_insert by apply lookup_delete_eq. lia.
Qed.

(** Replacing one shard. *)
Lemma sum_insert {X} (f : X -> Z) (l : list X) i x y : l !! i = Some x ->
  foldr (fun a n => f a + n) 0 (<[i := y]> l) = foldr (fun a n => f a + n) 0 l - f x + f y.
Proof.
  revert i; induction l as [|z l IH]; intros [|i] Hi; simpl in *; try done; [simplify_eq; lia|].
  rewrite (IH i Hi). lia.
Qed.

Lemma all_buffers_split shards i sh : shards !! i = Some sh ->
  exists rest, all_buffers shards ≡ₚ shard_buffers sh ++ rest /\
    forall sh', all_buffers (<[i := sh']> shards) ≡ₚ shard_buffers sh' ++ rest.
Proof.
  intros Hi. exists (all_buffers (delete i shards)). unfold all_buffers.
  assert (Hl : (i < length shards)%nat) by (by eapply lookup_lt_Some).
  rewrite delete_take_drop, fmap_app, concat_app.
  rewrite <- (take_drop_middle shards i sh Hi) at 1. rewrite fmap_app, fmap_cons, concat_app. simpl. split.
  - rewrite !app_assoc. apply Permutation_app_tail, Permutation_app_comm.
  - intros sh'. rewrite insert_take_drop by done. rewrite fmap_app, fmap_cons, concat_app. simpl.
    rewrite !app_assoc. apply Permutation_app_tail, Permutation_app_comm.
Qed.

(** ** The master *)

Context (hash : string -> Z).
Abbreviation shard_of := (getShardIndex hash).
Implicit Types (st : Master A H) (extra : list Buffer).

(** What the shards hold for a key. *)
Definition meta_of st (k : string) : option Meta :=
  match metadata_shards_ st !! shard_of k with Some sh => sh !! k | None => None end.

Record Own extra st : Prop := {
  on_len : length (metadata_shards_ st) = kNumShards;
  on_home : forall i sh k m, metadata_shards_ st !! i = Some sh -> sh !! k = Some m -> i = shard_of k;
  on_owns : owns (segment_manager_ st) (extra ++ all_buffers (metadata_shards_ st));
  on_count : key_count (gauges st) = objects (metadata_shards_ st);
  on_pinned : soft_pin_key_count (gauges st) = pinned (metadata_shards_ st);
}.

Lemma shard_of_lt k : (shard_of k < kNumShards)%nat.
Proof.
  unfold getShardIndex. pose proof (Z.mod_pos_bound (hash k) (Z.of_nat kNumShards)). unfold kNumShards in *. lia.
Qed.

Lemma own_shard extra st k : Own extra st ->
  exists sh, metadata_shards_ st !! shard_of k = Some sh /\ meta_of st k = sh !! k.
Proof.
  intros HO. destruct (lookup_lt_is_Some_2 (metadata_shards_ st) (shard_of k)) as [sh Hsh].
  { rewrite (on_len _ _ HO). apply shard_of_lt. }
  exists sh. split; [done|]. unfold meta_of. by rewrite Hsh.
Qed.

Lemma get_shard_ok st i sh : metadata_shards_ st !! i = Some sh -> get_shard i st = Some (sh, st).
Proof. intros Hi. unfold get_shard. rewrite bind_gets. unfold lift. by rewrite Hi. Qed.

(** The rest of the state, apart from shards, segments' heap and gauges. *)
Definition frame st st' : Prop :=
  same_containers (segment_manager_ st) (segment_manager_ st') /\
  gc_queue_ st' = gc_queue_ st /\ ok_client_ st' = ok_client_ st /\
  client_ping_queue_ st' = client_ping_queue_ st /\ local_pq st' = local_pq st /\ client_ttl st' = client_ttl st.

Lemma frame_refl st : frame st st.
Proof. split; [apply same_containers_refl|done]. Qed.

Lemma frame_trans st1 st2 st3 : frame st1 st2 -> frame st2 st3 -> frame st1 st3.
Proof.
  intros (S1&?&?&?&?&?) (S2&?&?&?&?&?). split_and!; try congruence. by eapply same_containers_trans.
Qed.

(** One key's metadata replaced, removed or added; all others kept. *)
Definition updated (k : string) (o : option Meta) st st' : Prop :=
  meta_of st' k = o /\ (forall k', k' <> k -> meta_of st' k' = meta_of st k').

Lemma updated_trans k o1 o2 st1 st2 st3 : updated k o1 st1 st2 -> updated k o2 st2 st3 -> updated k o2 st1 st3.
Proof. intros [_ H1] [H2 H3]. split; [done|]. intros k' Hk. by rewrite H3, H1. Qed.

(** Writing the shard of [k] changes the view at keys of that shard only. *)
Lemma meta_of_set st sh' k' st' i : metadata_shards_ st' = <[i := sh']> (metadata_shards_ st) ->
  (i < length (metadata_shards_ st))%nat ->
  meta_of st' k' = if decide (shard_of k' = i) then sh' !! k' else meta_of st k'.
Proof.
  intros E Hi. unfold meta_of. rewrite E. destruct (decide (shard_of k' = i)) as [->|Hne].
  - by rewrite list_lookup_insert_eq.
  - by rewrite list_lookup_insert_ne.
Qed.

Lemma updated_of_set st st' k sh sh' : metadata_shards_ st !! shard_of k = Some sh ->
  metadata_shards_ st' = <[shard_of k := sh']> (metadata_shards_ st) ->
  (forall k', k' <> k -> sh' !! k' = sh !! k') -> updated k (sh' !! k) st st'.
Proof.
  intros Hsh E Ho. assert (Hlt := lookup_lt_Some _ _ _ Hsh). split.
  - rewrite (meta_of_set st sh' k st' (shard_of k) E Hlt). by rewrite decide_True.
  - intros k' Hk'. rewrite (meta_of_set st sh' k' st' (shard_of k) E Hlt).
    destruct (decide _) as [E'|]; [|done]. rewrite Ho by done. unfold meta_of. by rewrite E', Hsh.
Qed.

End own.

End Own.
