(* ===== verification/MasterWalk.v ===== *)
(** * MasterWalk: single-key steps of the master, and walks over its shards

    Writing, erasing and adding an object, destroying replicas, cleaning up
    stale handles, and the metadata accessor: each ends without undefined
    behaviour, keeps [Own], and changes the view of a single key. *)

From Stdlib Require Import ZArith Lia.
From stdpp Require Import base list gmap strings numbers.
From S2P Require Import Prelude Types BufAlloc Segment SegmentProofs Strategy Master MasterOwn.
Import Types Seg SegProofs Strategy Master Own.

Open Scope moon_scope.
Open Scope Z_scope.

Module Prim.

(** A list split by a decidable predicate. *)
Lemma filter_split {X} (P Q : X -> Prop) `{!forall x, Decision (P x)} `{!forall x, Decision (Q x)} (l : list X) :
  (forall x, Q x <-> ~ P x) -> l ≡ₚ filter P l ++ filter Q l.
Proof.
  intros HQ. induction l as [|x l IH]; [done|]. destruct (decide (P x)) as [Hp|Hp].
  - rewrite filter_cons_True by done. rewrite filter_cons_False by (rewrite HQ; tauto). simpl. by rewrite <- IH.
  - rewrite filter_cons_False by done. rewrite filter_cons_True by (by rewrite HQ).
    rewrite <- Permutation_middle. by rewrite <- IH.
Qed.

Section prim.
Context {A H : Type} `{!BufferAllocator A H} `{!BufferAllocatorLaws A H}.
Abbreviation Buffer := (AllocatedBuffer H).
Abbreviation Meta := (ObjectMetadata H).
Abbreviation Shard := (gmap string (ObjectMetadata H)).
Context (hash : string -> Z).
Abbreviation shard_of := (getShardIndex hash).
Abbreviation Own := (Own hash).
Abbreviation meta_of := (meta_of hash).
Abbreviation updated := (updated hash).
Implicit Types (st : Master A H) (extra : list Buffer) (k : string) (m : Meta).

Definition rep_buffers (rs : list (Replica H)) : list Buffer := concat (replica_buffers <$> rs).

Lemma rep_buffers_app l1 l2 : rep_buffers (l1 ++ l2) = rep_buffers l1 ++ rep_buffers l2.
Proof. unfold rep_buffers. by rewrite fmap_app, concat_app. Qed.

Lemma rep_buffers_perm l l' : l ≡ₚ l' -> rep_buffers l ≡ₚ rep_buffers l'.
Proof. intros HP. unfold rep_buffers. by rewrite HP. Qed.

(** What stays exactly the same while buffers are destroyed. *)
Lemma destroy_replicas_ok rs extra st : Own (rep_buffers rs ++ extra) st ->
  exists st', destroy_replicas rs st = Some (tt, st') /\ Own extra st' /\ frame st st' /\
    metadata_shards_ st' = metadata_shards_ st.
Proof.
  intros HO. unfold destroy_replicas, seg. fold (rep_buffers rs).
  pose proof (on_owns _ _ _ HO) as Ho. rewrite <- app_assoc in Ho.
  destruct (owns_destroys (rep_buffers rs) _ _ Ho) as (g & -> & Hs & Ho'). eexists. split; [reflexivity|].
  split; [|done]. destruct HO. by split.
Qed.

Lemma put_meta_own extra dropped st k m m' : Own extra st -> meta_of st k = Some m ->
  pin m' = pin m -> mem <$> meta_buffers m ≡ₚ mem <$> (dropped ++ meta_buffers m') ->
  exists st', put_meta (shard_of k) k m' st = Some (tt, st') /\ Own (dropped ++ extra) st' /\ frame st st' /\
    updated k (Some m') st st' /\ segment_manager_ st' = segment_manager_ st.
Proof.
  intros HO Hm Hpin Hb. destruct (own_shard hash extra st k HO) as (sh & Hsh & Hk). rewrite Hm in Hk. symmetry in Hk.
  unfold put_meta. erewrite bind_Some by (by apply get_shard_ok). eexists. split; [reflexivity|].
  assert (Hlt := lookup_lt_Some _ _ _ Hsh).
  split; [|split; [done|split; [|done]]].
  - destruct HO as [O1 O2 O3 O4 O5]. split; simpl.
    + by rewrite length_insert.
    + intros i sh' k' m0. rewrite list_lookup_insert_Some. intros [(<- & <- & _)|[_ Hi]] Hk'; [|by eapply O2].
      destruct (decide (k = k')) as [<-|]; [done|]. rewrite lookup_insert_ne in Hk' by done. by eapply O2.
    + destruct (all_buffers_split (metadata_shards_ st) _ sh Hsh) as (rest & HP & HP').
      eapply owns_mem; [|exact O3]. rewrite (HP' (<[k:=m']> sh)), HP.
      pose proof (fmap_Permutation mem _ _ (shard_buffers_update sh k m m' Hk)) as HU.
      rewrite !fmap_app in *. rewrite Hb in HU.
      assert (mem <$> shard_buffers sh ≡ₚ (mem <$> dropped) ++ (mem <$> shard_buffers (<[k:=m']> sh))) as ->.
      { apply (Permutation_app_inv_l (mem <$> meta_buffers m')). rewrite <- HU.
        rewrite (Permutation_app_comm _ ((mem <$> dropped) ++ (mem <$> meta_buffers m'))), <- !app_assoc.
        rewrite (Permutation_app_comm (mem <$> dropped)), <- !app_assoc. apply Permutation_app_head, Permutation_app_comm. }
      rewrite <- !app_assoc.
      rewrite (app_assoc (mem <$> extra)), (Permutation_app_comm (mem <$> extra)), <- !app_assoc. done.
    + rewrite O4. unfold objects. rewrite (sum_insert _ _ _ sh) by done.
      rewrite map_size_insert_Some by eauto. lia.
    + rewrite O5. unfold pinned. rewrite (sum_insert _ _ _ sh) by done.
      rewrite <- insert_delete_eq, pinned_in_insert by apply lookup_delete_eq.
      rewrite (pinned_in_delete sh k m Hk). lia.
  - replace (Some m') with ((<[k:=m']> sh) !! k) by apply lookup_insert_eq.
    apply (updated_of_set hash st _ k sh); [done|done|]. intros k' Hk'. by apply lookup_insert_ne.
Qed.

Lemma destroy_metadata_ok st m bs : owns (segment_manager_ st) (meta_buffers m ++ bs) ->
  exists st', destroy_metadata m st = Some (tt, st') /\ frame st st' /\
    metadata_shards_ st' = metadata_shards_ st /\ owns (segment_manager_ st') bs /\
    key_count (gauges st') = key_count (gauges st) - 1 /\
    soft_pin_key_count (gauges st') = soft_pin_key_count (gauges st) - pin m.
Proof.
  intros Ho. unfold destroy_metadata, dec_meta_gauges, destroy_replicas, seg.
  destruct (owns_destroys (meta_buffers m) _ _ Ho) as (g & Hd & Hs & Ho'). unfold meta_buffers in Hd.
  unfold bind, add_key_count, add_soft_pin_count, modify, pin.
  destruct (soft_pin_timeout m); simpl; rewrite Hd; eexists; (split; [reflexivity|]); split_and!; simpl; try done; lia.
Qed.

Lemma erase_meta_ok extra st k m : Own extra st -> meta_of st k = Some m ->
  exists st', erase_meta (shard_of k) k st = Some (tt, st') /\ Own extra st' /\ frame st st' /\ updated k None st st'.
Proof.
  intros HO Hm. destruct (own_shard hash extra st k HO) as (sh & Hsh & Hk). rewrite Hm in Hk. symmetry in Hk.
  assert (Hlt := lookup_lt_Some _ _ _ Hsh).
  unfold erase_meta. erewrite bind_Some by (by apply get_shard_ok). rewrite Hk.
  unfold set_shard. rewrite bind_modify. set (st1 := set_shards _ st).
  destruct (all_buffers_split (metadata_shards_ st) _ sh Hsh) as (rest & HP & HP').
  destruct HO as [O1 O2 O3 O4 O5].
  destruct (destroy_metadata_ok st1 m (extra ++ all_buffers (metadata_shards_ st1))) as (st2 & Hrun & Hf & Hs2 & Ho2 & Hc & Hp).
  { simpl. eapply owns_perm; [|exact O3]. rewrite HP, (HP' (delete k sh)), (shard_buffers_delete sh k m Hk).
    rewrite <- !app_assoc. rewrite (app_assoc extra), (Permutation_app_comm extra), <- !app_assoc. done. }
  exists st2. split; [exact Hrun|]. split; [|split; [done|]].
  - split; rewrite ?Hs2; simpl.
    + by rewrite length_insert.
    + intros i sh' k' m0. rewrite list_lookup_insert_Some. intros [(<- & <- & _)|[_ Hi]] Hk'; [|by eapply O2].
      apply lookup_delete_Some in Hk' as [_ Hk']. by eapply O2.
    + exact Ho2.
    + rewrite Hc. simpl. rewrite O4. unfold objects. rewrite (sum_insert _ _ _ sh) by done.
      rewrite map_size_delete_Some by eauto. assert (size sh <> 0%nat) by (apply map_size_non_empty_iff; by intros ->).
      lia.
    + rewrite Hp. simpl. rewrite O5. unfold pinned. rewrite (sum_insert _ _ _ sh) by done.
      rewrite (pinned_in_delete sh k m Hk). lia.
  - replace None with ((delete k sh) !! k) by apply lookup_delete_eq.
    apply (updated_of_set hash st _ k sh); [done|by rewrite Hs2|]. intros k' Hk'. by apply lookup_delete_ne.
Qed.

(** ** Stale handles *)

(** The replicas whose allocators are all alive. *)
Definition fresh_replicas st m : list (Replica H) := filter (fun r => stale st r = false) (replicas m).
Definition cleaned st m : Meta := set_replicas (fresh_replicas st m) m.

Lemma stale_frame st st' r : frame st st' -> stale st' r = stale st r.
Proof.
  intros [Hs _]. unfold stale, has_invalid_mem_handle. destruct (data_ r) as [bs|]; [|done].
  induction bs as [|b bs IH]; simpl; [done|]. by rewrite IH, (alive_same _ _ _ Hs).
Qed.

Lemma CleanupStaleHandles_ok extra st k m : Own extra st -> meta_of st k = Some m ->
  exists st', CleanupStaleHandles (shard_of k) k m st
      = Some ((cleaned st m, match fresh_replicas st m with [] => true | _ => false end), st') /\
    Own extra st' /\ frame st st' /\ updated k (Some (cleaned st m)) st st'.
Proof.
  intros HO Hm. unfold CleanupStaleHandles. rewrite bind_gets. change (id st) with st.
  fold (fresh_replicas st m). fold (cleaned st m).
  set (gone := filter (fun r => stale st r = true) (replicas m)).
  destruct (put_meta_own extra (rep_buffers gone) st k m (cleaned st m) HO Hm) as (st1 & Hrun & HO1 & Hf1 & Hu1 & _).
  { done. }
  { unfold meta_buffers. simpl. fold (rep_buffers (fresh_replicas st m)). rewrite <- rep_buffers_app.
    apply fmap_Permutation, rep_buffers_perm, filter_split. intros r. destruct (stale st r); naive_solver. }
  erewrite bind_Some by exact Hrun.
  destruct (destroy_replicas_ok gone extra st1 HO1) as (st2 & Hrun2 & HO2 & Hf2 & Hs2).
  erewrite bind_Some by exact Hrun2. exists st2. split; [done|]. split; [done|].
  split; [by eapply frame_trans|]. destruct Hu1 as [H1 H2].
  split; [|intros k' Hk'; rewrite <- H2 by done]; unfold Own.meta_of; rewrite Hs2; [exact H1|done].
Qed.

(** What the accessor finds. *)
Definition clean_view st (o : option Meta) : option Meta :=
  match o with
  | Some m => match fresh_replicas st m with [] => None | _ => Some (cleaned st m) end
  | None => None
  end.

Lemma updated_self st k : updated k (meta_of st k) st st.
Proof. by split. Qed.

Lemma accessor_ok extra st k : Own extra st ->
  exists st', accessor hash k st = Some (clean_view st (meta_of st k), st') /\
    Own extra st' /\ frame st st' /\ updated k (clean_view st (meta_of st k)) st st'.
Proof.
  intros HO. destruct (own_shard hash extra st k HO) as (sh & Hsh & Hk).
  unfold accessor. erewrite bind_Some by (by apply get_shard_ok). rewrite <- Hk.
  destruct (meta_of st k) as [m|] eqn:Hm; simpl.
  2: { exists st. split; [done|]. split; [done|]. split; [apply frame_refl|]. by split. }
  destruct (CleanupStaleHandles_ok extra st k m HO Hm) as (st1 & Hrun & HO1 & Hf1 & Hu1).
  erewrite bind_Some by exact Hrun. cbv beta iota.
  destruct (fresh_replicas st m) as [|r rs] eqn:E.
  - destruct (erase_meta_ok extra st1 k (cleaned st m) HO1 (proj1 Hu1)) as (st2 & Hrun2 & HO2 & Hf2 & Hu2).
    erewrite bind_Some by exact Hrun2. exists st2. split; [done|]. split; [done|].
    split; [by eapply frame_trans|by eapply updated_trans].
  - exists st1. done.
Qed.

(** ** Adding an object *)

Lemma emplace_meta_ok extra st k m : Own (meta_buffers m ++ extra) st -> 
  exists st', emplace_meta (shard_of k) k m st = Some (tt, st') /\ Own extra st' /\ frame st st' /\
    updated k (match meta_of st k with Some old => Some old | None => Some m end) st st'.
Proof.
  intros HO. destruct (own_shard hash _ st k HO) as (sh & Hsh & Hk). assert (Hlt := lookup_lt_Some _ _ _ Hsh).
  pose proof HO as [O1 O2 O3 O4 O5].
  assert (Hcount : exists st1, (do* add_key_count 1 in
     match soft_pin_timeout m with Some _ => add_soft_pin_count 1 | None => ret tt end) st = Some (tt, st1) /\
     frame st st1 /\ metadata_shards_ st1 = metadata_shards_ st /\ segment_manager_ st1 = segment_manager_ st /\
     key_count (gauges st1) = key_count (gauges st) + 1 /\
     soft_pin_key_count (gauges st1) = soft_pin_key_count (gauges st) + pin m).
  { unfold bind, add_key_count, add_soft_pin_count, modify, pin.
    destruct (soft_pin_timeout m); simpl; eexists; (split; [reflexivity|]); split_and!; simpl; try done; lia. }
  destruct Hcount as (st1 & Hrun1 & Hf1 & Hs1 & Hg1 & Hk1 & Hp1). unfold emplace_meta.
  assert (Hassoc : forall (c : ST (Master A H) unit), (do* add_key_count 1 in
     do* match soft_pin_timeout m with Some _ => add_soft_pin_count 1 | None => ret tt end in c) st = c st1).
  { intros c. unfold bind in Hrun1 |- *. destruct (soft_pin_timeout m); injection Hrun1 as <-; reflexivity. }
  rewrite Hassoc. erewrite bind_Some by (apply get_shard_ok; by rewrite Hs1). rewrite <- Hk.
  destruct (meta_of st k) as [old|] eqn:Hm.
  - destruct (destroy_metadata_ok st1 m (extra ++ all_buffers (metadata_shards_ st))) as (st2 & Hrun & Hf2 & Hs2 & Ho2 & Hc2 & Hp2).
    { rewrite Hg1. by rewrite app_assoc. }
    exists st2. split; [exact Hrun|]. split; [|split; [by eapply frame_trans|]].
    + split; rewrite ?Hs2, ?Hs1; try done; lia.
    + split; [|intros k' _]; unfold Own.meta_of; rewrite Hs2, Hs1; [exact Hm|done].
  - eexists. split; [reflexivity|]. symmetry in Hk. split; [|split; [by eapply frame_trans|]].
    + destruct (all_buffers_split (metadata_shards_ st) _ sh Hsh) as (rest & HP & HP').
      split; simpl; rewrite ?Hs1, ?Hg1.
      * by rewrite length_insert.
      * intros i sh' k' m0. rewrite list_lookup_insert_Some. intros [(<- & <- & _)|[_ Hi]] Hk'; [|by eapply O2].
        destruct (decide (k = k')) as [<-|]; [done|]. rewrite lookup_insert_ne in Hk' by done. by eapply O2.
      * eapply owns_perm; [|exact O3]. rewrite HP, (HP' (<[k:=m]> sh)), (shard_buffers_insert sh k m Hk).
        rewrite (Permutation_app_comm (meta_buffers m)). by rewrite <- !app_assoc.
      * rewrite Hk1, O4. unfold objects. rewrite (sum_insert _ _ _ sh) by done. rewrite map_size_insert_None by done. lia.
      * rewrite Hp1, O5. unfold pinned. rewrite (sum_insert _ _ _ sh) by done. rewrite pinned_in_insert by done. lia.
    + replace (Some m) with ((<[k:=m]> sh) !! k) by apply lookup_insert_eq.
      apply (updated_of_set hash st _ k sh); [done|by simpl; rewrite Hs1|]. intros k' Hk'. by apply lookup_insert_ne.
Qed.

(** ** Dropping the replicas of one type *)

Definition dropped_view (t : ReplicaType) m : option Meta :=
  if IsValid (EraseReplica t m) then Some (EraseReplica t m) else None.

Lemma drop_replicas_ok extra t st k m : Own extra st -> meta_of st k = Some m ->
  exists st', drop_replicas t (shard_of k) k m st = Some (tt, st') /\ Own extra st' /\ frame st st' /\
    updated k (dropped_view t m) st st'.
Proof.
  intros HO Hm. unfold drop_replicas. set (gone := filter (fun r => type r = t) (replicas m)).
  destruct (put_meta_own extra (rep_buffers gone) st k m (EraseReplica t m) HO Hm) as (st1 & Hrun & HO1 & Hf1 & Hu1 & _).
  { done. }
  { unfold meta_buffers. simpl. fold (rep_buffers (filter (fun r => type r <> t) (replicas m))).
    rewrite <- rep_buffers_app. by apply fmap_Permutation, rep_buffers_perm, filter_split. }
  erewrite bind_Some by exact Hrun.
  destruct (destroy_replicas_ok gone extra st1 HO1) as (st2 & Hrun2 & HO2 & Hf2 & Hs2).
  erewrite bind_Some by exact Hrun2.
  assert (Hu2 : updated k (Some (EraseReplica t m)) st st2).
  { destruct Hu1 as [H1 H2].
    split; [|intros k' Hk'; rewrite <- H2 by done]; unfold Own.meta_of; rewrite Hs2; [exact H1|done]. }
  assert (Hf : frame st st2) by (by eapply frame_trans).
  unfold dropped_view. destruct (IsValid (EraseReplica t m)).
  - by exists st2.
  - destruct (erase_meta_ok extra st2 k _ HO2 (proj1 Hu2)) as (st3 & Hrun3 & HO3 & Hf3 & Hu3).
    exists st3. split; [done|]. split; [done|]. split; [by eapply frame_trans|by eapply updated_trans].
Qed.

End prim.

End Prim.

(** ** The master's walks over its shards

    Removal, clean-up and eviction visit the entries of a shard in iteration
    order while changing the shard.  [walked] relates the views before and
    after the walk over one shard, [swept] over several; both are built from
    the single-key steps of [Prim]. *)

Import Types Seg SegProofs Strategy Master Own Prim.

Module Walk.

Section walk.
Context {A H : Type} `{!BufferAllocator A H} `{!BufferAllocatorLaws A H}.
Abbreviation Buffer := (AllocatedBuffer H).
Abbreviation Meta := (ObjectMetadata H).
Abbreviation Shard := (gmap string (ObjectMetadata H)).
Context (hash : string -> Z) (iter : Shard -> list (string * Meta)).
Abbreviation shard_of := (getShardIndex hash).
Abbreviation Own := (Own hash).
Abbreviation meta_of := (meta_of hash).
Abbreviation updated := (updated hash).
Implicit Types (st : Master A H) (extra : list Buffer) (k : string) (m : Meta) (R : string -> Meta -> option Meta -> Prop).

(** ** Entries still to be visited *)

Definition present (i : nat) (entries : list (string * Meta)) st : Prop :=
  NoDup entries.*1 /\ Forall (fun p => shard_of p.1 = i /\ meta_of st p.1 = Some p.2) entries.

Lemma present_head i k m es st : present i ((k, m) :: es) st ->
  shard_of k = i /\ meta_of st k = Some m /\ present i es st /\ k ∉ es.*1.
Proof. intros [[Hk Hnd]%list.NoDup_cons [[? ?] HF]%list.Forall_cons]. by split_and!. Qed.

Lemma present_step i k o es st st' : present i es st -> k ∉ es.*1 -> updated k o st st' -> present i es st'.
Proof.
  intros [Hnd HF] Hk [_ Ho]. split; [done|]. rewrite list.Forall_forall in HF |- *. intros p Hp.
  destruct (HF p Hp) as [? <-]. split; [done|]. apply Ho. intros Ek. apply Hk, list_elem_of_fmap. by exists p.
Qed.

(** [R k m o]: an object [m] stored under [k] may become [o]. *)
Definition walked R (entries : list (string * Meta)) st st' : Prop :=
  (forall k m, (k, m) ∈ entries -> R k m (meta_of st' k)) /\
  (forall k, k ∉ entries.*1 -> meta_of st' k = meta_of st k).

Lemma walked_nil R st : walked R [] st st.
Proof. split; [|done]. intros k m Hk. by apply not_elem_of_nil in Hk. Qed.

Lemma walked_cons R i k m o es st st1 st' : present i ((k, m) :: es) st -> updated k o st st1 -> R k m o ->
  walked R es st1 st' -> walked R ((k, m) :: es) st st'.
Proof.
  intros (_ & Hm & Hp & Hk)%present_head [Ho Hu] HR [W1 W2]. split.
  - intros k' m' [[= -> ->]|Hin]%elem_of_cons; [|by apply W1]. by rewrite W2, Ho.
  - intros k'. rewrite fmap_cons, not_elem_of_cons. intros [Hne Hk']. by rewrite W2, Hu.
Qed.

Lemma walked_skip R i k m es st st' : present i ((k, m) :: es) st -> R k m (Some m) ->
  walked R es st st' -> walked R ((k, m) :: es) st st'.
Proof. intros Hp HR Hw. eapply walked_cons; [exact Hp| |exact HR|exact Hw]. split; [|done]. by apply present_head in Hp as (_ & -> & _). Qed.

(** A whole shard. *)
Definition relates R k (o o' : option Meta) : Prop := match o with Some m => R k m o' | None => o' = None end.

Definition swept R (is_ : list nat) st st' : Prop :=
  forall k, if decide (shard_of k ∈ is_) then relates R k (meta_of st k) (meta_of st' k)
            else meta_of st' k = meta_of st k.

Context (iter_perm : forall sh, iter sh ≡ₚ map_to_list sh).

Lemma present_iter extra st i sh : Own extra st -> metadata_shards_ st !! i = Some sh -> present i (iter sh) st.
Proof.
  intros HO Hsh. split; [rewrite iter_perm; apply NoDup_fst_map_to_list|].
  rewrite list.Forall_forall. intros [k m]. rewrite iter_perm, elem_of_map_to_list. intros Hk. simpl.
  pose proof (on_home _ _ _ HO i sh k m Hsh Hk) as E. split; [done|]. unfold Own.meta_of. by rewrite <- E, Hsh.
Qed.

Lemma walked_swept R extra st st' i sh : Own extra st -> metadata_shards_ st !! i = Some sh ->
  walked R (iter sh) st st' -> swept R [i] st st'.
Proof.
  intros HO Hsh [W1 W2] k.
  assert (Hin : forall m, (k, m) ∈ iter sh <-> sh !! k = Some m).
  { intros m. by rewrite iter_perm, elem_of_map_to_list. }
  assert (Hout : sh !! k = None -> k ∉ (iter sh).*1).
  { intros E (p & -> & Hp)%list_elem_of_fmap. destruct p as [k' m']. simpl in *.
    rewrite Hin in Hp. congruence. }
  destruct (decide (shard_of k ∈ [i])) as [E|E]; rewrite list_elem_of_singleton in E.
  - assert (meta_of st k = sh !! k) as -> by (unfold Own.meta_of; by rewrite E, Hsh).
    destruct (sh !! k) as [m|] eqn:Hk; simpl.
    + apply W1. by rewrite Hin.
    + rewrite W2 by auto. unfold Own.meta_of. by rewrite E, Hsh.
  - apply W2, Hout. destruct (sh !! k) as [m|] eqn:Hk; [|done]. destruct E. symmetry. by eapply on_home.
Qed.

Lemma swept_nil R st : swept R [] st st.
Proof. intros k. rewrite decide_False by apply not_elem_of_nil. done. Qed.

Lemma swept_cons R i is_ st st1 st' : i ∉ is_ -> swept R [i] st st1 -> swept R is_ st1 st' -> swept R (i :: is_) st st'.
Proof.
  intros Hi S1 S2 k. specialize (S1 k). specialize (S2 k).
  destruct (decide (shard_of k = i)) as [E|E].
  - rewrite decide_True in S1 by (by rewrite list_elem_of_singleton). rewrite decide_False in S2 by congruence.
    rewrite decide_True by (rewrite E; left). by rewrite S2.
  - rewrite decide_False in S1 by (by rewrite list_elem_of_singleton). rewrite S1 in S2.
    destruct (decide (shard_of k ∈ is_)); [rewrite decide_True by (by right)|rewrite decide_False by (rewrite not_elem_of_cons; done)]; done.
Qed.

(** Every shard was visited. *)
Lemma swept_all R is_ st st' k : (forall i, (i < kNumShards)%nat -> i ∈ is_) -> swept R is_ st st' ->
  relates R k (meta_of st k) (meta_of st' k).
Proof. intros Hall HS. specialize (HS k). rewrite decide_True in HS by (apply Hall, shard_of_lt). done. Qed.

(** Whatever was visited, a reflexive relation holds of every key. *)
Lemma swept_relates R is_ st st' k : (forall m, R k m (Some m)) -> swept R is_ st st' ->
  relates R k (meta_of st k) (meta_of st' k).
Proof.
  intros Hr HS. specialize (HS k). destruct (decide _); [done|]. rewrite HS. unfold relates. by destruct (meta_of st k).
Qed.

Lemma own_nth_shard extra st i : Own extra st -> (i < kNumShards)%nat -> exists sh, metadata_shards_ st !! i = Some sh.
Proof. intros HO Hi. apply lookup_lt_is_Some_2. by rewrite (on_len _ _ _ HO). Qed.

(** A shard is determined by the views of its keys. *)
Lemma shard_ext extra extra' st st' i : Own extra st -> Own extra' st' ->
  (forall k, shard_of k = i -> meta_of st' k = meta_of st k) -> metadata_shards_ st' !! i = metadata_shards_ st !! i.
Proof.
  intros HO HO' Hv. destruct (decide (i < kNumShards)%nat) as [Hi|Hi].
  2: { by rewrite !(proj2 (lookup_ge_None _ _)) by (rewrite ?(on_len _ _ _ HO), ?(on_len _ _ _ HO'); lia). }
  destruct (own_nth_shard _ st i HO Hi) as [sh Hsh], (own_nth_shard _ st' i HO' Hi) as [sh' Hsh'].
  rewrite Hsh, Hsh'. f_equal. apply map_eq. intros k. destruct (decide (shard_of k = i)) as [E|E].
  - specialize (Hv k E). unfold Own.meta_of in Hv. by rewrite E, Hsh, Hsh' in Hv.
  - destruct (sh' !! k) as [m|] eqn:Ek'; [by rewrite (on_home _ _ _ HO' i sh' k m Hsh' Ek') in E|].
    destruct (sh !! k) as [m|] eqn:Ek; [by rewrite (on_home _ _ _ HO i sh k m Hsh Ek) in E|done].
Qed.

(** ** Erasing *)

Definition erases (chosen : string -> Meta -> bool) : string -> Meta -> option Meta -> Prop :=
  fun k m o => o = if chosen k m then None else Some m.

Lemma erase_entries_ok i chosen es : forall extra st, Own extra st -> present i es st ->
  exists st', erase_entries i chosen es st = Some (Z.of_nat (length (filter (fun p => chosen p.1 p.2 = true) es)), st') /\
    Own extra st' /\ frame st st' /\ walked (erases chosen) es st st'.
Proof.
  induction es as [|[k m] es IH]; intros extra st HO Hp; simpl.
  { exists st. split; [done|]. split; [done|]. split; [apply frame_refl|apply walked_nil]. }
  pose proof (present_head _ _ _ _ _ Hp) as (Hi & Hm & Hp' & Hk). destruct (chosen k m) eqn:Hc.
  - rewrite filter_cons_True by done. destruct (erase_meta_ok hash extra st k m HO Hm) as (st1 & Hrun & HO1 & Hf1 & Hu1).
    rewrite Hi in Hrun. erewrite bind_Some by exact Hrun.
    destruct (IH extra st1 HO1) as (st' & Hrun' & HO' & Hf' & Hw); [by eapply present_step|].
    erewrite bind_Some by exact Hrun'. exists st'. split; [unfold ret; simpl length; do 2 f_equal; lia|].
    split; [done|]. split; [by eapply frame_trans|]. eapply walked_cons; [done|exact Hu1| |done]. unfold erases. by rewrite Hc.
  - rewrite filter_cons_False by (simpl; congruence). destruct (IH extra st HO Hp') as (st' & Hrun' & HO' & Hf' & Hw).
    exists st'. split_and!; try done. eapply walked_skip; [done| |done]. unfold erases. by rewrite Hc.
Qed.

Lemma erase_shards_ok chosen is_ : forall extra st, Own extra st -> NoDup is_ -> (forall i, i ∈ is_ -> (i < kNumShards)%nat) ->
  exists n st', erase_shards iter is_ chosen st = Some (n, st') /\ Own extra st' /\ frame st st' /\
    swept (erases chosen) is_ st st'.
Proof using A BufferAllocator0 BufferAllocatorLaws0 H hash iter iter_perm.
  induction is_ as [|i is_ IH]; intros extra st HO Hnd Hlt; simpl.
  { do 2 eexists. split; [reflexivity|]. split; [done|]. split; [apply frame_refl|apply swept_nil]. }
  apply list.NoDup_cons in Hnd as [Hi Hnd]. destruct (own_nth_shard extra st i HO) as [sh Hsh]; [apply Hlt; left|].
  erewrite bind_Some by (by apply get_shard_ok).
  destruct (erase_entries_ok i chosen (iter sh) extra st HO) as (st1 & Hrun & HO1 & Hf1 & Hw); [by eapply present_iter|].
  erewrite bind_Some by exact Hrun.
  destruct (IH extra st1 HO1 Hnd) as (n & st' & Hrun' & HO' & Hf' & Hs); [intros j Hj; apply Hlt; by right|].
  erewrite bind_Some by exact Hrun'. do 2 eexists. split; [reflexivity|]. split; [done|].
  split; [by eapply frame_trans|]. eapply swept_cons; [done| |done]. by eapply walked_swept.
Qed.

(** ** Dropping stale replicas *)

(** Liveness of buffers as in the state [st0]. *)
Definition cleans st0 : string -> Meta -> option Meta -> Prop := fun _ m o => o = clean_view st0 (Some m).

Lemma fresh_frame st st' m : frame st st' -> fresh_replicas st' m = fresh_replicas st m.
Proof.
  intros Hf. unfold fresh_replicas. induction (replicas m) as [|r l IH]; [done|].
  rewrite !filter_cons, IH, (stale_frame st st' r Hf). done.
Qed.

Lemma clean_view_frame st st' o : frame st st' -> clean_view st' o = clean_view st o.
Proof. intros Hf. destruct o as [m|]; [|done]. simpl. unfold cleaned. by rewrite (fresh_frame st st' m Hf). Qed.

Lemma clear_entries_ok i es : forall extra st, Own extra st -> present i es st ->
  exists st', clear_entries i es st = Some (tt, st') /\ Own extra st' /\ frame st st' /\ walked (cleans st) es st st'.
Proof.
  induction es as [|[k m] es IH]; intros extra st HO Hp; simpl.
  { exists st. split; [done|]. split; [done|]. split; [apply frame_refl|apply walked_nil]. }
  pose proof (present_head _ _ _ _ _ Hp) as (Hi & Hm & Hp' & Hk).
  destruct (CleanupStaleHandles_ok hash extra st k m HO Hm) as (st1 & Hrun & HO1 & Hf1 & Hu1).
  rewrite Hi in Hrun. erewrite bind_Some by exact Hrun. cbn [snd].
  assert (Hmid : exists st2, (if match fresh_replicas st m with [] => true | _ => false end then erase_meta i k else ret tt) st1
     = Some (tt, st2) /\ Own extra st2 /\ frame st1 st2 /\ updated k (clean_view st (Some m)) st1 st2).
  { simpl. destruct (fresh_replicas st m) eqn:E.
    - destruct (erase_meta_ok hash extra st1 k (cleaned st m) HO1 (proj1 Hu1)) as (st2 & Hrun2 & H2).
      rewrite Hi in Hrun2. by exists st2.
    - exists st1. split; [done|]. split; [done|]. split; [apply frame_refl|]. split; [apply Hu1|done]. }
  destruct Hmid as (st2 & Hrun2 & HO2 & Hf2 & Hu2). erewrite bind_Some by exact Hrun2.
  assert (Hu : updated k (clean_view st (Some m)) st st2) by (by eapply updated_trans).
  assert (Hf : frame st st2) by (by eapply frame_trans).
  destruct (IH extra st2 HO2) as (st' & Hrun' & HO' & Hf' & Hw); [by eapply present_step|].
  exists st'. split; [exact Hrun'|]. split; [done|]. split; [by eapply frame_trans|].
  eapply walked_cons; [done|exact Hu|done|]. destruct Hw as [W1 W2]. split; [|done].
  intros k' m' Hin. specialize (W1 k' m' Hin). unfold cleans in *. by rewrite W1, (clean_view_frame st st2).
Qed.

Lemma clear_shards_ok is_ : forall extra st, Own extra st -> NoDup is_ -> (forall i, i ∈ is_ -> (i < kNumShards)%nat) ->
  exists st', clear_shards iter is_ st = Some (tt, st') /\ Own extra st' /\ frame st st' /\ swept (cleans st) is_ st st'.
Proof using A BufferAllocator0 BufferAllocatorLaws0 H hash iter iter_perm.
  induction is_ as [|i is_ IH]; intros extra st HO Hnd Hlt; simpl.
  { eexists. split; [reflexivity|]. split; [done|]. split; [apply frame_refl|apply swept_nil]. }
  apply list.NoDup_cons in Hnd as [Hi Hnd]. destruct (own_nth_shard extra st i HO) as [sh Hsh]; [apply Hlt; left|].
  erewrite bind_Some by (by apply get_shard_ok).
  destruct (clear_entries_ok i (iter sh) extra st HO) as (st1 & Hrun & HO1 & Hf1 & Hw); [by eapply present_iter|].
  erewrite bind_Some by exact Hrun.
  destruct (IH extra st1 HO1 Hnd) as (st' & Hrun' & HO' & Hf' & Hs); [intros j Hj; apply Hlt; by right|].
  eexists. split; [exact Hrun'|]. split; [done|]. split; [by eapply frame_trans|].
  eapply swept_cons; [done|by eapply walked_swept|]. intros k. specialize (Hs k).
  destruct (decide _); [|done]. unfold relates, cleans in *. destruct (meta_of st1 k); [|done].
  by rewrite Hs, (clean_view_frame st st1).
Qed.

Lemma all_shards_nodup : NoDup (seq 0 kNumShards).
Proof. apply NoDup_seq. Qed.

Lemma all_shards i : i ∈ seq 0 kNumShards <-> (i < kNumShards)%nat.
Proof. rewrite elem_of_seq. lia. Qed.

Lemma ClearInvalidHandles_ok extra st : Own extra st ->
  exists st', ClearInvalidHandles iter st = Some (tt, st') /\ Own extra st' /\ frame st st' /\
    forall k, meta_of st' k = clean_view st (meta_of st k).
Proof using A BufferAllocator0 BufferAllocatorLaws0 H hash iter iter_perm.
  intros HO. destruct (clear_shards_ok (seq 0 kNumShards) extra st HO all_shards_nodup) as (st' & Hrun & HO' & Hf & HS).
  { intros i. apply all_shards. }
  exists st'. split; [exact Hrun|]. split; [done|]. split; [done|]. intros k.
  pose proof (swept_all _ _ _ _ k (fun i => proj2 (all_shards i)) HS) as HR. unfold relates, cleans in HR.
  by destruct (meta_of st k).
Qed.

End walk.

End Walk.
