(* ===== verification/MasterOps.v ===== *)
(** * MasterOps: what each object operation of the master answers and does

    For every operation: it ends without undefined behaviour, keeps [Own],
    leaves every other key alone, and its answer and the new state of its key
    are functions of the key's [clean_view] (what is left of the object after
    its stale replicas are gone). *)

From Stdlib Require Import ZArith Lia.
From stdpp Require Import base list gmap strings numbers.
From S2P Require Import Prelude Types BufAlloc Segment SegmentProofs Strategy Master MasterOwn MasterWalk.
Import Types Seg SegProofs Strategy Master Own Prim.

Open Scope moon_scope.
Open Scope Z_scope.

Module MOps.

Section ops.
Context {A H : Type} `{!BufferAllocator A H} `{!BufferAllocatorLaws A H}.
Abbreviation Buffer := (AllocatedBuffer H).
Abbreviation Meta := (ObjectMetadata H).
Abbreviation Shard := (gmap string (ObjectMetadata H)).
Context (hash : string -> Z) (lexically_normal : string -> string) (cfg : Config).
Abbreviation shard_of := (getShardIndex hash).
Abbreviation Own := (Own hash).
Abbreviation meta_of := (meta_of hash).
Abbreviation updated := (updated hash).
Implicit Types (st : Master A H) (extra : list Buffer) (k : string) (m : Meta).

(** Buffers keep their allocators alive or dead. *)
Definition same_segments st st' : Prop := same_containers (segment_manager_ st) (segment_manager_ st').

Lemma frame_segments st st' : frame st st' -> same_segments st st'.
Proof. intros Hf. apply Hf. Qed.

(** Queues and flags are not part of the store. *)
Lemma Own_queues extra st st' : metadata_shards_ st' = metadata_shards_ st -> segment_manager_ st' = segment_manager_ st ->
  key_count (gauges st') = key_count (gauges st) -> soft_pin_key_count (gauges st') = soft_pin_key_count (gauges st) ->
  Own extra st -> Own extra st'.
Proof. intros E1 E2 E3 E4 []. by split; rewrite ?E1, ?E2, ?E3, ?E4. Qed.

Lemma Own_perm extra extra' st : extra ≡ₚ extra' -> Own extra st -> Own extra' st.
Proof. intros HP []. split; try done. by eapply owns_perm; [apply Permutation_app_tail|]. Qed.

Lemma updated_shards k o st st1 st2 : metadata_shards_ st2 = metadata_shards_ st1 -> updated k o st st1 -> updated k o st st2.
Proof. intros E [H1 H2]. split; [|intros k' Hk'; rewrite <- H2 by done]; unfold Own.meta_of; rewrite E; done. Qed.

(** The value a key's object is replaced with, buffers unchanged. *)
Lemma put_same_ok extra st k m m' : Own extra st -> meta_of st k = Some m -> pin m' = pin m ->
  mem <$> meta_buffers m' = mem <$> meta_buffers m ->
  exists st', put_meta (shard_of k) k m' st = Some (tt, st') /\ Own extra st' /\ frame st st' /\ updated k (Some m') st st'.
Proof.
  intros HO Hm Hp Hb. destruct (put_meta_own hash extra [] st k m m' HO Hm Hp) as (st' & Hrun & HO' & Hf & Hu & _).
  - simpl. by rewrite Hb.
  - by exists st'.
Qed.

Abbreviation granted := (fun now => GrantLease now (default_kv_lease_ttl_ cfg) (default_kv_soft_pin_ttl_ cfg)).

Lemma grant_pin now ttl soft m : pin (GrantLease now ttl soft m) = pin m.
Proof. unfold pin, GrantLease. simpl. by destruct (soft_pin_timeout m). Qed.

(** ** Queries *)

Definition has_complete (m : Meta) : bool := existsb (fun r => bool_decide (status_ r = COMPLETE)) (replicas m).

Definition exist_view (now : Z) (v : option Meta) : bool * option Meta :=
  match v with
  | Some m => if has_complete m then (true, Some (granted now m)) else (false, Some m)
  | None => (false, None)
  end.

Lemma ExistKey_ok extra st now k : Own extra st ->
  exists st', ExistKey hash cfg now k st = Some ((exist_view now (clean_view st (meta_of st k))).1, st') /\
    Own extra st' /\ frame st st' /\ updated k (exist_view now (clean_view st (meta_of st k))).2 st st'.
Proof.
  intros HO. unfold ExistKey. destruct (accessor_ok hash extra st k HO) as (st1 & Hrun & HO1 & Hf1 & Hu1).
  erewrite bind_Some by exact Hrun. destruct (clean_view st (meta_of st k)) as [m|] eqn:Ev; [|by exists st1].
  unfold exist_view. fold (has_complete m). destruct (has_complete m); [|by exists st1].
  destruct (put_same_ok extra st1 k m (granted now m) HO1 (proj1 Hu1)) as (st2 & Hrun2 & HO2 & Hf2 & Hu2).
  { apply grant_pin. }
  { done. }
  erewrite bind_Some by exact Hrun2. exists st2. split; [done|]. split; [done|].
  split; [by eapply frame_trans|by eapply updated_trans].
Qed.

Definition get_view (now : Z) (v : option Meta) : (ErrorCode + list Descriptor) * option Meta :=
  match v with
  | None => (inl OBJECT_NOT_FOUND, None)
  | Some m =>
      match complete_descriptors m with
      | [] => (inl REPLICA_IS_NOT_READY, Some m)
      | ds => (inr ds, Some (if enable_gc_ cfg then m else granted now m))
      end
  end.

(** A successful read queues a deletion when garbage collection is on. *)
Definition gc_after (push_ok : bool) (now : Z) k (r : ErrorCode + list Descriptor) : list GCTask :=
  match r with
  | inr _ => if enable_gc_ cfg && push_ok then [mkTask k (now + ms 1000)] else []
  | inl _ => []
  end.

Lemma GetReplicaList_ok extra st push_ok now k : Own extra st ->
  exists st', GetReplicaList hash cfg push_ok now k st = Some ((get_view now (clean_view st (meta_of st k))).1, st') /\
    Own extra st' /\ same_segments st st' /\ updated k (get_view now (clean_view st (meta_of st k))).2 st st' /\
    gc_queue_ st' = gc_queue_ st ++ gc_after push_ok now k (get_view now (clean_view st (meta_of st k))).1.
Proof.
  intros HO. unfold GetReplicaList. destruct (accessor_ok hash extra st k HO) as (st1 & Hrun & HO1 & Hf1 & Hu1).
  erewrite bind_Some by exact Hrun. pose proof (proj1 (proj2 Hf1)) as Hq1.
  destruct (clean_view st (meta_of st k)) as [m|] eqn:Ev; simpl.
  2: { exists st1. rewrite app_nil_r. split; [done|]. split; [done|]. split; [by apply frame_segments|done]. }
  destruct (complete_descriptors m) as [|d ds] eqn:Ed; simpl.
  { exists st1. rewrite app_nil_r. split; [done|]. split; [done|]. split; [by apply frame_segments|done]. }
  destruct (enable_gc_ cfg); simpl.
  - destruct push_ok; unfold MarkForGC.
    + eexists. split; [reflexivity|]. split; [by apply (Own_queues extra st1)|]. split; [exact (frame_segments st st1 Hf1)|].
      split; [by apply (updated_shards _ _ _ st1)|]. simpl. by rewrite Hq1.
    + exists st1. split; [reflexivity|]. rewrite app_nil_r. split; [done|]. split; [by apply frame_segments|done].
  - destruct (put_same_ok extra st1 k m (granted now m) HO1 (proj1 Hu1)) as (st2 & Hrun2 & HO2 & Hf2 & Hu2).
    { apply grant_pin. }
    { done. }
    erewrite bind_Some by exact Hrun2. exists st2. split; [done|]. split; [done|].
    assert (Hf : frame st st2) by (by eapply frame_trans). rewrite app_nil_r.
    split; [by apply frame_segments|]. split; [by eapply updated_trans|apply Hf].
Qed.

(** ** Removing one object *)

Definition remove_view (now : Z) (v : option Meta) : option ErrorCode * option Meta :=
  match v with
  | None => (Some OBJECT_NOT_FOUND, None)
  | Some m =>
      if negb (IsLeaseExpired now m) then (Some OBJECT_HAS_LEASE, Some m)
      else if negb (IsAllReplicasComplete m) then (Some REPLICA_IS_NOT_READY, Some m)
      else (None, None)
  end.

Lemma Remove_ok extra st now k : Own extra st ->
  exists st', Remove hash now k st = Some ((remove_view now (clean_view st (meta_of st k))).1, st') /\
    Own extra st' /\ frame st st' /\ updated k (remove_view now (clean_view st (meta_of st k))).2 st st'.
Proof.
  intros HO. unfold Remove. destruct (accessor_ok hash extra st k HO) as (st1 & Hrun & HO1 & Hf1 & Hu1).
  erewrite bind_Some by exact Hrun. destruct (clean_view st (meta_of st k)) as [m|] eqn:Ev; [|by exists st1].
  unfold remove_view. destruct (IsLeaseExpired now m); [|by exists st1].
  destruct (IsAllReplicasComplete m); [|by exists st1]. simpl.
  destruct (erase_meta_ok hash extra st1 k m HO1 (proj1 Hu1)) as (st2 & Hrun2 & HO2 & Hf2 & Hu2).
  erewrite bind_Some by exact Hrun2. exists st2. split; [done|]. split; [done|].
  split; [by eapply frame_trans|by eapply updated_trans].
Qed.

(** ** Finishing and revoking a put *)

Definition completed (t : ReplicaType) m : Meta :=
  set_replicas ((fun r => if decide (type r = t) then mark_complete r else r) <$> replicas m) m.

Definition put_end_view (now : Z) (t : ReplicaType) (v : option Meta) : option ErrorCode * option Meta :=
  match v with
  | None => (Some OBJECT_NOT_FOUND, None)
  | Some m => (None, Some (GrantLease now 0 (default_kv_soft_pin_ttl_ cfg) (completed t m)))
  end.

Lemma mark_complete_mem (r : Replica H) : mem <$> replica_buffers (mark_complete r) = mem <$> replica_buffers r.
Proof.
  unfold mark_complete, replica_buffers. destruct r as [[bs|f o] []]; simpl; try done;
    rewrite <- list_fmap_compose; by apply list_fmap_ext.
Qed.

Lemma completed_mem t m : mem <$> meta_buffers (completed t m) = mem <$> meta_buffers m.
Proof.
  unfold meta_buffers, completed. simpl. induction (replicas m) as [|r l IH]; [done|].
  rewrite !fmap_cons. simpl. rewrite !fmap_app, IH. f_equal. destruct (decide _); [apply mark_complete_mem|done].
Qed.

Lemma PutEnd_ok extra st now k t : Own extra st ->
  exists st', PutEnd hash cfg now k t st = Some ((put_end_view now t (clean_view st (meta_of st k))).1, st') /\
    Own extra st' /\ frame st st' /\ updated k (put_end_view now t (clean_view st (meta_of st k))).2 st st'.
Proof.
  intros HO. unfold PutEnd. destruct (accessor_ok hash extra st k HO) as (st1 & Hrun & HO1 & Hf1 & Hu1).
  erewrite bind_Some by exact Hrun. destruct (clean_view st (meta_of st k)) as [m|] eqn:Ev; [|by exists st1].
  fold (completed t m). unfold put_end_view.
  destruct (put_same_ok extra st1 k m (GrantLease now 0 (default_kv_soft_pin_ttl_ cfg) (completed t m)) HO1 (proj1 Hu1))
    as (st2 & Hrun2 & HO2 & Hf2 & Hu2).
  { by rewrite grant_pin. }
  { apply completed_mem. }
  erewrite bind_Some by exact Hrun2. exists st2. split; [done|]. split; [done|].
  split; [by eapply frame_trans|by eapply updated_trans].
Qed.

Definition revoke_view (t : ReplicaType) (v : option Meta) : option ErrorCode * option Meta :=
  match v with
  | None => (Some OBJECT_NOT_FOUND, None)
  | Some m =>
      match HasDiffRepStatus PROCESSING t m with
      | Some _ => (Some INVALID_WRITE, Some m)
      | None => (None, dropped_view t m)
      end
  end.

Lemma PutRevoke_ok extra st k t : Own extra st ->
  exists st', PutRevoke hash k t st = Some ((revoke_view t (clean_view st (meta_of st k))).1, st') /\
    Own extra st' /\ frame st st' /\ updated k (revoke_view t (clean_view st (meta_of st k))).2 st st'.
Proof.
  intros HO. unfold PutRevoke. destruct (accessor_ok hash extra st k HO) as (st1 & Hrun & HO1 & Hf1 & Hu1).
  erewrite bind_Some by exact Hrun. destruct (clean_view st (meta_of st k)) as [m|] eqn:Ev; [|by exists st1].
  unfold revoke_view. destruct (HasDiffRepStatus PROCESSING t m); [by exists st1|].
  destruct (drop_replicas_ok hash extra t st1 k m HO1 (proj1 Hu1)) as (st2 & Hrun2 & HO2 & Hf2 & Hu2).
  erewrite bind_Some by exact Hrun2. exists st2. split; [done|]. split; [done|].
  split; [by eapply frame_trans|by eapply updated_trans].
Qed.

(** ** Starting a put *)

(** Shards untouched. *)
Definition quiet st st' : Prop := frame st st' /\ metadata_shards_ st' = metadata_shards_ st.

Lemma quiet_refl st : quiet st st.
Proof. split; [apply frame_refl|done]. Qed.

Lemma quiet_trans st1 st2 st3 : quiet st1 st2 -> quiet st2 st3 -> quiet st1 st3.
Proof. intros [F1 E1] [F2 E2]. split; [by eapply frame_trans|congruence]. Qed.

Lemma quiet_updated k o st st1 st2 : quiet st1 st2 -> updated k o st st1 -> updated k o st st2.
Proof. intros [_ E]. by apply updated_shards. Qed.

(** A buffer fresh from the allocation strategy. *)
Definition fresh_buffer st (b : Buffer) : Prop :=
  buf_status b = BUF_INIT /\ buf_allocator b ∈ allocators_ (segment_manager_ st).

Lemma fresh_quiet st st' b : quiet st st' -> fresh_buffer st' b -> fresh_buffer st b.
Proof. intros [((E & _) & _) _] [? Hin]. split; [done|]. by rewrite <- E. Qed.

Lemma own_destroys bs extra st : Own (bs ++ extra) st ->
  exists st', seg (destroy_buffers bs) st = Some (tt, st') /\ Own extra st' /\ quiet st st'.
Proof.
  intros HO. pose proof (on_owns _ _ _ HO) as Ho. rewrite <- app_assoc in Ho.
  destruct (owns_destroys bs _ _ Ho) as (g & Hd & Hs & Ho'). unfold seg. rewrite Hd.
  eexists. split; [reflexivity|]. split; [|done]. destruct HO. by split.
Qed.

(** Several allocators are in use: the random search may then be undefined. *)
Definition crowded st : Prop := (1 < length (allocators_ (segment_manager_ st)))%nat.

Lemma crowded_frame st st' : frame st st' -> crowded st' <-> crowded st.
Proof. intros ((E & _) & _). unfold crowded. by rewrite E. Qed.

Lemma own_allocate rng size config extra st : Own extra st -> 0 <= size <= kMaxSliceSize ->
  settles (crowded st) (seg (Allocate rng size config)) st (fun r st' => quiet st st' /\
    match r with
    | None => Own extra st'
    | Some b => Own (b :: extra) st' /\ size_ b = size /\ fresh_buffer st b
    end).
Proof.
  intros HO Hs. pose proof (owns_allocate rng size config _ _ (on_owns _ _ _ HO) Hs) as Hset. unfold settles, seg in *.
  destruct (Allocate _ _ _ _) as [[r g]|]; [|done]. destruct Hset as [Hsame Hr]. split; [done|]. destruct HO. destruct r as [b|].
  - destruct Hr as (Ho & ? & ? & ?). by split.
  - by split.
Qed.

Lemma alloc_slices_ok config slices : forall rng j handles extra st, Own (handles ++ extra) st ->
  Forall (fun x => 0 <= x <= kMaxSliceSize) slices ->
  settles (crowded st) (alloc_slices rng j slices config handles) st (fun r st' => quiet st st' /\
    match r with
    | None => Own extra st'
    | Some bs => Own (bs ++ extra) st' /\ exists new, bs = handles ++ new /\ size_ <$> new = slices /\ Forall (fresh_buffer st) new
    end).
Proof.
  induction slices as [|x xs IH]; intros rng j handles extra st HO HF; cbn [alloc_slices].
  { split; [apply quiet_refl|]. split; [done|]. exists []. by rewrite app_nil_r. }
  apply list.Forall_cons in HF as [Hx HF]. apply settles_bind.
  eapply settles_mono; [apply (own_allocate (rng j) x config _ st HO Hx)|done|]. intros r st1 [Hq1 Hr].
  destruct r as [b|].
  - destruct Hr as (HO1 & Hsz & Hb). eapply settles_mono; [apply (IH rng (S j) (handles ++ [b]) extra st1); [|done]|..].
    { eapply Own_perm; [|exact HO1]. rewrite <- app_assoc. apply Permutation_middle. }
    { apply (crowded_frame st st1), Hq1. }
    intros r st' [Hq' Hr']. split; [by eapply quiet_trans|]. destruct r as [bs|]; [|done].
    destruct Hr' as (HO' & new & -> & Hn & HF'). split; [done|]. exists (b :: new).
    rewrite <- app_assoc. split; [done|]. split; [by rewrite fmap_cons, Hsz, Hn|]. constructor; [done|].
    eapply list.Forall_impl; [exact HF'|]. intros y. by apply fresh_quiet.
  - unfold settles. rewrite bind_modify. destruct (own_destroys handles extra (set_need_eviction true st1)) as (st2 & Hrun2 & HO2 & Hq2).
    { by apply (Own_queues _ st1). }
    erewrite bind_Some by exact Hrun2. split; [|done].
    eapply quiet_trans; [exact Hq1|]. by eapply quiet_trans.
Qed.

(** A memory replica as [PutStart] builds it. *)
Definition fresh_replica st (slices : list Z) (r : Replica H) : Prop :=
  exists bs, r = mkReplica (MemoryReplicaData bs) PROCESSING /\ size_ <$> bs = slices /\ Forall (fresh_buffer st) bs.

Lemma alloc_replicas_ok config slices n : forall rng i reps extra st, Own (rep_buffers reps ++ extra) st ->
  Forall (fun x => 0 <= x <= kMaxSliceSize) slices ->
  settles (crowded st) (alloc_replicas rng i n slices config reps) st (fun r st' => quiet st st' /\
    match r with
    | None => Own extra st'
    | Some rs => Own (rep_buffers rs ++ extra) st' /\
        exists new, rs = reps ++ new /\ length new = n /\ Forall (fresh_replica st slices) new
    end).
Proof.
  induction n as [|n IH]; intros rng i reps extra st HO HF; cbn [alloc_replicas].
  { split; [apply quiet_refl|]. split; [done|]. exists []. by rewrite app_nil_r. }
  apply settles_bind. eapply settles_mono; [apply (alloc_slices_ok config slices (rng i) 0 [] (rep_buffers reps ++ extra) st HO HF)|done|].
  intros r st1 [Hq1 Hr]. destruct r as [bs|].
  - destruct Hr as (HO1 & new & -> & Hn & HF1). simpl in *. set (rep := mkReplica (MemoryReplicaData new) PROCESSING).
    eapply settles_mono; [apply (IH rng (S i) (reps ++ [rep]) extra st1); [|done]|..].
    { eapply Own_perm; [|exact HO1]. rewrite rep_buffers_app. change (rep_buffers [rep]) with (new ++ []).
      rewrite app_nil_r, <- !app_assoc, app_assoc, (Permutation_app_comm new), <- app_assoc. done. }
    { apply (crowded_frame st st1), Hq1. }
    intros r st' [Hq' Hr']. split; [by eapply quiet_trans|]. destruct r as [rs|]; [|done].
    destruct Hr' as (HO' & new' & -> & Hl & HF'). split; [done|]. exists (rep :: new').
    rewrite <- app_assoc. split; [done|]. split; [simpl; lia|]. constructor; [by exists new|].
    eapply list.Forall_impl; [exact HF'|]. intros y (bs & -> & ? & HFb). exists bs. split_and!; try done.
    eapply list.Forall_impl; [exact HFb|]. intros b. by apply fresh_quiet.
  - destruct (destroy_replicas_ok hash reps extra st1 Hr) as (st2 & Hrun2 & HO2 & Hf2 & Hs2).
    unfold settles. erewrite bind_Some by exact Hrun2. split; [|done]. by eapply quiet_trans.
Qed.

Lemma validate_slices_ok slices : forall acc total, Forall (fun x => 0 <= x) slices ->
  validate_slices slices acc = Some total -> Forall (fun x => 0 <= x <= kMaxSliceSize) slices.
Proof.
  induction slices as [|x xs IH]; intros acc total HF Hv; simpl in *; [done|].
  apply list.Forall_cons in HF as [Hx HF]. destruct (Z.ltb_spec kMaxSliceSize x); [done|].
  constructor; [lia|]. by eapply IH.
Qed.

(** The replicas of a new object: memory replicas, and one on disk when the
    store has a directory. *)
Definition with_disk k (total : Z) (reps : list (Replica H)) : list (Replica H) :=
  if use_disk_replica_ cfg
  then reps ++ [mkReplica (DiskReplicaData (ResolvePath hash lexically_normal cfg k) total) PROCESSING] else reps.

Definition put_invalid k (slices : list Z) (config : ReplicateConfig) : bool :=
  (replica_num config =? 0) || String.eqb k "" || bool_decide (slices = []).

(** What [PutStart] answers and leaves under its key. *)
Inductive put_start_spec st k (slices : list Z) (config : ReplicateConfig) :
    ErrorCode + list Descriptor -> option Meta -> Prop :=
  | ps_invalid : put_invalid k slices config = true \/ validate_slices slices 0 = None ->
      put_start_spec st k slices config (inl INVALID_PARAMS) (meta_of st k)
  | ps_exists m : clean_view st (meta_of st k) = Some m ->
      put_start_spec st k slices config (inl OBJECT_ALREADY_EXISTS) (Some m)
  | ps_full : clean_view st (meta_of st k) = None ->
      put_start_spec st k slices config (inl NO_AVAILABLE_HANDLE) (cleaned st <$> meta_of st k)
  | ps_done total reps : meta_of st k = None -> validate_slices slices 0 = Some total ->
      length reps = Z.to_nat (replica_num config) -> Forall (fresh_replica st slices) reps ->
      put_start_spec st k slices config (inr (get_descriptor <$> with_disk k total reps))
        (Some (new_metadata total (with_disk k total reps) (with_soft_pin config)))
  | ps_lost old ds : meta_of st k = Some old -> fresh_replicas st old = [] ->
      put_start_spec st k slices config (inr ds) (Some (cleaned st old)).

Lemma with_disk_buffers k total reps : rep_buffers (with_disk k total reps) = rep_buffers reps.
Proof. unfold with_disk. destruct (use_disk_replica_ cfg); [|done]. rewrite rep_buffers_app. apply app_nil_r. Qed.

(** The clean-up at the head of [PutStart] does not erase the object. *)
Lemma put_cleanup_ok extra st k : Own extra st ->
  exists st' sh, get_shard (shard_of k) st = Some (sh, st) /\
    (match sh !! k with
     | None => ret false
     | Some m => let* r := CleanupStaleHandles (shard_of k) k m in ret (negb r.2)
     end) st = Some (match clean_view st (meta_of st k) with Some _ => true | None => false end, st') /\
    Own extra st' /\ frame st st' /\ updated k (cleaned st <$> meta_of st k) st st'.
Proof.
  intros HO. destruct (own_shard hash extra st k HO) as (sh & Hsh & Hk).
  pose proof (get_shard_ok st _ sh Hsh) as Hg.
  destruct (meta_of st k) as [m|] eqn:Hm; simpl.
  2: { exists st, sh. rewrite <- Hk. split; [done|]. split; [done|]. split; [done|]. split; [apply frame_refl|]. by split. }
  destruct (CleanupStaleHandles_ok hash extra st k m HO Hm) as (st1 & Hrun & HO1 & Hf1 & Hu1).
  exists st1, sh. rewrite <- Hk. split; [done|]. erewrite bind_Some by exact Hrun. split; [|done].
  simpl. by destruct (fresh_replicas st m).
Qed.

(** [PutStart] is undefined at most when it has to choose between allocators
    for a key that has no live replica. *)
Lemma PutStart_ok extra st rng k slices config : Own extra st -> Forall (fun x => 0 <= x) slices ->
  settles (crowded st /\ clean_view st (meta_of st k) = None) (PutStart hash lexically_normal cfg rng k slices config) st
    (fun r st' => exists o, Own extra st' /\ frame st st' /\ updated k o st st' /\ put_start_spec st k slices config r o).
Proof.
  intros HO HF. unfold PutStart. fold (put_invalid k slices config).
  assert (Hbad : put_invalid k slices config = true \/ validate_slices slices 0 = None ->
    settles (crowded st /\ clean_view st (meta_of st k) = None) (ret (inl INVALID_PARAMS)) st
      (fun r st' => exists o, Own extra st' /\ frame st st' /\ updated k o st st' /\ put_start_spec st k slices config r o)).
  { intros Hinv. eexists. split; [done|]. split; [apply frame_refl|]. split; [apply updated_self|by apply ps_invalid]. }
  destruct (put_invalid k slices config) eqn:Hinv; [apply Hbad; by left|].
  destruct (validate_slices slices 0) as [total|] eqn:Hv; [|apply Hbad; by right]. clear Hbad.
  destruct (put_cleanup_ok extra st k HO) as (st1 & sh & Hg & Hrun & HO1 & Hf1 & Hu1).
  unfold settles. erewrite bind_Some by exact Hg. erewrite bind_Some by exact Hrun.
  destruct (clean_view st (meta_of st k)) as [m|] eqn:Ev.
  { exists (Some m). split; [done|]. split; [done|].
    split; [|by apply ps_exists]. destruct (meta_of st k) as [m0|]; [|done]. simpl in *.
    by destruct (fresh_replicas st m0); simplify_eq. }
  eapply settles_bind, settles_mono; [apply (alloc_replicas_ok config slices (Z.to_nat (replica_num config)) rng 0 [] extra st1 HO1)|..].
  { by eapply validate_slices_ok. }
  { intros Hc. split; [by apply (crowded_frame st st1)|done]. }
  intros r st2 [Hq2 Hr]. pose proof (frame_trans _ _ _ Hf1 (proj1 Hq2)) as Hf2.
  pose proof (quiet_updated k _ st st1 st2 Hq2 Hu1) as Hu2. destruct r as [rs|].
  2: { exists (cleaned st <$> meta_of st k). split_and!; try done; [apply Hu2..|]. by apply ps_full. }
  destruct Hr as (HO2 & new & -> & Hlen & HFr). simpl in *. fold (with_disk k total new).
  set (nm := new_metadata total (with_disk k total new) (with_soft_pin config)).
  destruct (emplace_meta_ok hash extra st2 k nm) as (st3 & Hrun3 & HO3 & Hf3 & Hu3).
  { unfold meta_buffers. simpl. fold (rep_buffers (with_disk k total new)). by rewrite with_disk_buffers. }
  unfold settles. erewrite bind_Some by exact Hrun3. rewrite (proj1 Hu2) in Hu3. pose proof (updated_trans _ _ _ _ _ _ _ Hu2 Hu3) as Hu.
  eexists. split; [done|]. split; [by eapply frame_trans|]. split; [exact Hu|].
  destruct (meta_of st k) as [old|] eqn:Hm; simpl in *.
  - apply ps_lost; [done|]. by destruct (fresh_replicas st old).
  - apply ps_done; try done. eapply list.Forall_impl; [exact HFr|]. intros rep (bs & -> & ? & HFb). exists bs.
    split_and!; try done. eapply list.Forall_impl; [exact HFb|]. intros b [? Hin]. split; [done|].
    destruct Hf1 as ((E & _) & _). by rewrite <- E.
Qed.

End ops.

End MOps.
