(* ===== verification/MasterSegs.v ===== *)
(** * MasterSegs: segments and clients of the master

    Mounting gives the store an allocator nobody holds buffers of; preparing
    an unmount takes one away, which makes the buffers that live there stale;
    the clean-up then drops them.  The client monitor runs the same two phases
    for every segment of every expired client. *)

From Stdlib Require Import ZArith Lia.
From stdpp Require Import base list gmap strings numbers.
From S2P Require Import Prelude Types BufAlloc Segment SegmentProofs Strategy Master MasterOwn MasterWalk MasterOps.
Import Types Seg SegProofs Strategy Master Own Prim MOps Walk.

Open Scope moon_scope.
Open Scope Z_scope.

Module MSegs.

Section segs.
Context {A H : Type} `{!BufferAllocator A H} `{!BufferAllocatorLaws A H}.
Abbreviation Buffer := (AllocatedBuffer H).
Abbreviation Meta := (ObjectMetadata H).
Abbreviation Shard := (gmap string (ObjectMetadata H)).
Context (hash : string -> Z) (iter : Shard -> list (string * Meta)) (cfg : Config).
Context (iter_perm : forall sh, iter sh ≡ₚ map_to_list sh).
Abbreviation Own := (Own hash).
Abbreviation meta_of := (meta_of hash).
Implicit Types (st : Master A H) (g : SegmentManager A) (bs : list Buffer) (extra : list Buffer).

(** ** Ownership across container changes *)

Lemma outs_of_fresh g bs : owns g bs -> outs_of bs (next_id g) = [].
Proof.
  intros Ho. unfold outs_of. assert (Hids := ow_ids _ _ Ho). clear Ho. induction bs as [|b l IH]; [done|].
  rewrite filter_cons_False by (pose proof (Hids b ltac:(left)); lia).
  apply IH. intros b' Hb'. apply Hids. by right.
Qed.

Lemma owns_mount g bs segment c e g' : owns g bs -> mount_spec segment c g e g' -> owns g' bs.
Proof.
  intros Ho Hsp. pose proof (mount_spec_inv _ _ _ _ _ (ow_seg _ _ Ho) Hsp) as HI. destruct Hsp as [?|?|?|a Hm Ha]; try done.
  pose proof (outs_of_fresh g bs Ho) as Hfresh. destruct Ho as [O1 O2 O3 O4 O5]. split; try done.
  - intros i. simpl. rewrite elem_of_app, list_elem_of_singleton. intros [Hi| ->].
    + rewrite lookup_insert_ne; [by apply O2|]. intros <-. by apply (next_fresh g O1).
    + exists a. rewrite lookup_insert_eq, Hfresh. done.
  - intros b Hb. specialize (O4 b Hb). simpl. lia.
  - intros b Hb. simpl. rewrite elem_of_app, list_elem_of_singleton. specialize (O4 b Hb).
    intros [Hi|Hi]; [|lia]. destruct (O5 b Hb Hi) as (a0 & Ea0 & En). exists a0. simpl.
    by rewrite lookup_insert_ne by lia.
Qed.

Lemma owns_remount segments c : forall g bs, owns g bs -> Forall wf_segment segments ->
  exists e g', ReMountSegment segments c g = Some (e, g') /\ owns g' bs.
Proof using A BufferAllocator0 BufferAllocatorLaws0 H.
  induction segments as [|s l IH]; intros g bs Ho Hwf; simpl; [by do 2 eexists|].
  apply list.Forall_cons in Hwf as [Hs Hl]. destruct (mount_ok g s c Hs) as (e & g1 & Hrun & Hsp).
  erewrite bind_Some by exact Hrun. pose proof (owns_mount _ _ _ _ _ _ Ho Hsp) as Ho1.
  destruct (IH g1 bs Ho1 Hl) as (e' & g' & Hrun' & Ho'). destruct (_ || _); [by do 2 eexists|by exists e', g'].
Qed.

Lemma owns_drop g bs id ms i : owns g bs -> mounted_segments_ g !! id = Some ms -> ms_allocator ms = Some i ->
  owns (drop_allocator id ms i g) bs.
Proof.
  intros [H1 H2 H3 H4 H5] Hm Ha. destruct (drop_allocator_inv g id ms i H1 Hm Ha) as [HI _]. split; try done.
  - intros j Hj. apply H2. simpl in Hj. by eapply erase_first_subset.
  - intros b Hb Hj. apply H5; [done|]. simpl in Hj. by eapply erase_first_subset.
Qed.

Lemma owns_commit g bs id c ms : owns g bs -> mounted_segments_ g !! id = Some ms -> ms_allocator ms = None ->
  exists g', CommitUnmountSegment id c (seg_size (ms_segment ms)) g = Some (OK, g') /\ owns g' bs /\
    mounted_segments_ g' = delete id (mounted_segments_ g) /\ allocators_ g' = allocators_ g.
Proof.
  intros [H1 H2 H3 H4 H5] Hm Ha. destruct (commit_inv g id c ms H1 Hm Ha) as (g' & Hrun & HI & E1 & E2 & E3).
  exists g'. split; [done|]. unfold CommitUnmountSegment in Hrun. rewrite bind_modify in Hrun.
  unfold ret in Hrun. injection Hrun as <-. done.
Qed.

(** ** Lifting to the master *)

Lemma Own_set_segs extra st g : Own extra st -> owns g (extra ++ all_buffers (metadata_shards_ st)) ->
  Own extra (set_segs g st).
Proof. intros [] Ho. by split. Qed.

(** Nothing but the segment manager and the queues changed. *)
Definition same_objects st st' : Prop := metadata_shards_ st' = metadata_shards_ st.

Lemma push_ping_ok extra st ok c : Own extra st ->
  exists b st', push_ping ok c st = Some (b, st') /\ Own extra st' /\ same_objects st st' /\
    segment_manager_ st' = segment_manager_ st.
Proof.
  intros HO. unfold push_ping. destruct ok; do 2 eexists; (split; [reflexivity|]); split_and!; try done.
  by apply (Own_queues hash extra st).
Qed.

Lemma MountSegment_ok extra st push_ok segment c : Own extra st -> wf_segment segment ->
  exists r st', MasterMountSegment cfg push_ok segment c st = Some (r, st') /\ Own extra st' /\ same_objects st st' /\
    (r = None -> exists ms, mounted_segments_ (segment_manager_ st') !! seg_id segment = Some ms /\ ms_status ms = SEG_OK).
Proof using A BufferAllocator0 BufferAllocatorLaws0 H hash cfg.
  intros HO Hwf. unfold MasterMountSegment.
  assert (Hpush : exists b st1, (if enable_ha_ cfg then push_ping push_ok c else ret true) st = Some (b, st1) /\
    Own extra st1 /\ same_objects st st1 /\ segment_manager_ st1 = segment_manager_ st).
  { destruct (enable_ha_ cfg); [by apply push_ping_ok|]. by exists true, st. }
  destruct Hpush as (b & st1 & Hrun & HO1 & Hs1 & Hg1). erewrite bind_Some by exact Hrun.
  destruct b; simpl; [|by do 2 eexists].
  destruct (mount_ok (segment_manager_ st1) segment c Hwf) as (e & g & Hm & Hsp).
  erewrite bind_Some by (unfold seg; rewrite Hm; reflexivity). do 2 eexists. split; [reflexivity|].
  split; [apply Own_set_segs; [done|]; eapply owns_mount; [apply HO1|exact Hsp]|]. split; [done|].
  destruct Hsp as [?|ms ? ?|?|a]; intros E; simpl; try done; [by exists ms|].
  eexists. rewrite lookup_insert_eq. done.
Qed.

Lemma ReMountSegment_ok extra st push_ok segments c : Own extra st -> Forall wf_segment segments ->
  exists r st', MasterReMountSegment cfg push_ok segments c st = Some (r, st') /\ Own extra st' /\ same_objects st st'.
Proof using A BufferAllocator0 BufferAllocatorLaws0 H hash cfg.
  intros HO Hwf. unfold MasterReMountSegment. destruct (negb (enable_ha_ cfg)); [by do 2 eexists|].
  rewrite bind_gets. destruct (decide _); [by do 2 eexists|].
  destruct (push_ping_ok extra st push_ok c HO) as (b & st1 & Hrun & HO1 & Hs1 & Hg1). erewrite bind_Some by exact Hrun.
  destruct b; simpl; [|by do 2 eexists].
  destruct (owns_remount segments c _ _ (on_owns _ _ _ HO1) Hwf) as (e & g & Hm & Ho).
  erewrite bind_Some by (unfold seg; rewrite Hm; reflexivity).
  pose proof (Own_set_segs extra st1 g HO1 Ho) as HO2.
  destruct e; do 2 eexists; (split; [reflexivity|]); (split; [|done]); try done.
  by apply (Own_queues hash extra (set_segs g st1)).
Qed.

(** Preparing one segment. *)
Lemma prepare_own extra st id : Own extra st ->
  exists e n st', seg (PrepareUnmountSegment id) st = Some ((e, n), st') /\ Own extra st' /\ same_objects st st' /\
    match e with
    | OK => exists ms i, mounted_segments_ (segment_manager_ st) !! id = Some ms /\ ms_status ms = SEG_OK /\
        ms_allocator ms = Some i /\ n = seg_size (ms_segment ms) /\
        segment_manager_ st' = drop_allocator id ms i (segment_manager_ st)
    | SEGMENT_NOT_FOUND => mounted_segments_ (segment_manager_ st) !! id = None /\ st' = st
    | UNAVAILABLE_IN_CURRENT_STATUS => st' = st
    | _ => False
    end.
Proof.
  intros HO. pose proof (on_owns _ _ _ HO) as Ho. unfold seg.
  destruct (prepare_ok (segment_manager_ st) id (ow_seg _ _ Ho)) as [[Hm E]|[(ms & _ & _ & E)|(ms & i & Hm & Hst & Ha & E)]];
    rewrite E; do 3 eexists; (split; [reflexivity|]).
  - split; [by destruct HO|]. split; [done|]. split; [done|]. by destruct st.
  - split; [by destruct HO|]. split; [done|]. by destruct st.
  - split; [apply Own_set_segs; [done|]; by apply owns_drop|]. split; [done|]. by exists ms, i.
Qed.

(** A prepared segment, waiting for its commit. *)
Definition prepared g (id : UUID) (cap : Z) : Prop :=
  exists ms, mounted_segments_ g !! id = Some ms /\ ms_allocator ms = None /\ cap = seg_size (ms_segment ms).

Lemma drop_prepared g id ms i : prepared (drop_allocator id ms i g) id (seg_size (ms_segment ms)).
Proof. eexists. simpl. rewrite lookup_insert_eq. split; [reflexivity|done]. Qed.

Lemma drop_prepared_other g id ms i id' cap : mounted_segments_ g !! id = Some ms -> is_Some (ms_allocator ms) ->
  prepared g id' cap -> prepared (drop_allocator id ms i g) id' cap /\ id' <> id.
Proof.
  intros Hm [j Hj] (ms' & Hm' & Ha' & E). assert (id' <> id) by congruence. split; [|done].
  exists ms'. simpl. by rewrite lookup_insert_ne.
Qed.

Lemma commit_own extra st id c cap : Own extra st -> prepared (segment_manager_ st) id cap ->
  exists st', seg (CommitUnmountSegment id c cap) st = Some (OK, st') /\ Own extra st' /\ same_objects st st' /\
    mounted_segments_ (segment_manager_ st') = delete id (mounted_segments_ (segment_manager_ st)) /\
    allocators_ (segment_manager_ st') = allocators_ (segment_manager_ st).
Proof.
  intros HO (ms & Hm & Ha & ->). destruct (owns_commit _ _ id c ms (on_owns _ _ _ HO) Hm Ha) as (g & Hrun & Ho & E1 & E2).
  unfold seg. rewrite Hrun. eexists. split; [reflexivity|]. split; [by apply Own_set_segs|]. done.
Qed.

(** ** Unmounting *)

(** Every replica of every object lives in allocators still in use. *)
Definition no_stale st : Prop := forall k m, meta_of st k = Some m -> replicas m <> [] /\ Forall (fun r => stale st r = false) (replicas m).

Lemma stale_alloc st r : SegInv (segment_manager_ st) ->
  stale st r = existsb (fun b => negb (bool_decide (buf_allocator b ∈ allocators_ (segment_manager_ st)))) (replica_buffers r).
Proof.
  intros HI. unfold stale, has_invalid_mem_handle, replica_buffers. destruct (data_ r) as [l|]; [|done].
  induction l as [|b l IH]; simpl; [done|]. rewrite IH. f_equal. f_equal.
  pose proof (alive_iff (segment_manager_ st) (buf_allocator b) HI) as Hal.
  destruct (alive _ _); case_bool_decide; naive_solver.
Qed.

(** Staleness depends on the set of allocators in use only. *)
Lemma stale_allocators st st' r : SegInv (segment_manager_ st) -> SegInv (segment_manager_ st') ->
  allocators_ (segment_manager_ st') = allocators_ (segment_manager_ st) -> stale st' r = stale st r.
Proof. intros H1 H2 E. rewrite !stale_alloc by done. by rewrite E. Qed.

Lemma cleaned_fresh st m : Forall (fun r => stale st r = false) (replicas (cleaned st m)).
Proof. unfold cleaned, fresh_replicas. simpl. apply list.Forall_forall. intros r [? _]%list_elem_of_filter. done. Qed.

(** After [ClearInvalidHandles] nothing is stale. *)
Lemma clean_no_stale st st' : frame st st' -> (forall k, meta_of st' k = clean_view st (meta_of st k)) -> no_stale st'.
Proof.
  intros Hf Hv k m. rewrite Hv. unfold clean_view. destruct (meta_of st k) as [m0|]; [|done].
  destruct (fresh_replicas st m0) as [|r l] eqn:E; [done|]. intros [= <-]. split.
  - unfold cleaned. simpl. by rewrite E.
  - eapply list.Forall_impl; [apply cleaned_fresh|]. intros r' Hr'. cbv beta in *. by rewrite (stale_frame st st' r' Hf).
Qed.

Lemma no_stale_ext st st' : SegInv (segment_manager_ st) -> SegInv (segment_manager_ st') -> same_objects st st' ->
  allocators_ (segment_manager_ st') = allocators_ (segment_manager_ st) -> no_stale st -> no_stale st'.
Proof.
  intros H1 H2 Hs E Hn k m Hm. unfold same_objects in Hs. unfold Own.meta_of in *. rewrite Hs in Hm.
  destruct (Hn k m Hm) as [? HF]. split; [done|]. eapply list.Forall_impl; [exact HF|]. intros r Hr. cbv beta in *.
  by rewrite (stale_allocators st st').
Qed.

Lemma UnmountSegment_ok extra st id c : Own extra st ->
  exists r st', UnmountSegment iter id c st = Some (r, st') /\ Own extra st' /\
    match r with
    | None => mounted_segments_ (segment_manager_ st') !! id = None /\
        (is_Some (mounted_segments_ (segment_manager_ st) !! id) -> no_stale st')
    | Some e => e = UNAVAILABLE_IN_CURRENT_STATUS /\ st' = st
    end.
Proof using A BufferAllocator0 BufferAllocatorLaws0 H hash iter iter_perm.
  intros HO. unfold UnmountSegment. destruct (prepare_own extra st id HO) as (e & n & st1 & Hrun & HO1 & Hs1 & He).
  erewrite bind_Some by exact Hrun. cbv beta iota. destruct e; try done.
  2,3: do 2 eexists; split; [reflexivity|].
  - destruct He as (ms & i & Hm & _ & Ha & -> & Eg).
    destruct (ClearInvalidHandles_ok hash iter iter_perm extra st1 HO1) as (st2 & Hrun2 & HO2 & Hf2 & Hv2).
    erewrite bind_Some by exact Hrun2.
    destruct (commit_own extra st2 id c (seg_size (ms_segment ms)) HO2) as (st3 & Hrun3 & HO3 & Hs3 & Em & Ea).
    { destruct Hf2 as ((_ & _ & E & _) & _). unfold prepared. rewrite E, Eg. apply drop_prepared. }
    erewrite bind_Some by exact Hrun3. do 2 eexists. split; [reflexivity|]. split; [done|].
    split; [rewrite Em; apply lookup_delete_eq|]. intros _.
    eapply (no_stale_ext st2 st3); [apply HO2|apply HO3|done|done|]. by eapply clean_no_stale.
  - destruct He as [Hm ->]. split; [done|]. split; [done|]. intros [? ?]. congruence.
  - split; [by rewrite He|done].
Qed.

(** ** The client monitor *)

(** The segments prepared so far, each waiting for its own commit. *)
Definition pending g (l : list (UUID * UUID * Z)) : Prop :=
  NoDup (fst <$> (fst <$> l)) /\ Forall (fun p => prepared g p.1.1 p.2) l.

(** What preparing leaves alone: objects, and segments already prepared. *)
Definition keeps_prepared st st' (l : list (UUID * UUID * Z)) : Prop :=
  same_objects st st' /\
  forall id cap, prepared (segment_manager_ st) id cap ->
    prepared (segment_manager_ st') id cap /\ id ∉ fst <$> (fst <$> l).

Lemma keeps_nil st : keeps_prepared st st [].
Proof. split; [done|]. intros id cap Hp. split; [done|]. apply not_elem_of_nil. Qed.

Lemma keeps_app st1 st2 st3 l1 l2 : keeps_prepared st1 st2 l1 -> keeps_prepared st2 st3 l2 -> keeps_prepared st1 st3 (l1 ++ l2).
Proof.
  intros [E1 K1] [E2 K2]. split; [unfold same_objects in *; congruence|]. intros id cap Hp.
  destruct (K1 id cap Hp) as [Hp1 Hn1]. destruct (K2 id cap Hp1) as [Hp2 Hn2]. split; [done|].
  rewrite !fmap_app, not_elem_of_app. done.
Qed.

Lemma pending_app st1 st2 l1 l2 : pending (segment_manager_ st1) l1 -> keeps_prepared st1 st2 l2 ->
  pending (segment_manager_ st2) l2 -> pending (segment_manager_ st2) (l1 ++ l2).
Proof.
  intros [N1 F1] [_ K] [N2 F2]. rewrite list.Forall_forall in F1. split.
  - rewrite !fmap_app. apply list.NoDup_app. split_and!; try done. intros id (p & -> & Hp)%list_elem_of_fmap.
    apply list_elem_of_fmap in Hp as (q & -> & Hq). by destruct (K _ _ (F1 _ Hq)).
  - apply list.Forall_app. split; [|done]. apply list.Forall_forall. intros p Hp. apply K, F1, Hp.
Qed.

Lemma prepare_segments_ok extra client segs : forall st, Own extra st ->
  exists l st', prepare_segments client segs st = Some (l, st') /\ Own extra st' /\
    pending (segment_manager_ st') l /\ keeps_prepared st st' l.
Proof.
  induction segs as [|s segs IH]; intros st HO; simpl.
  { do 2 eexists. split; [reflexivity|]. split; [done|]. split; [split; constructor|apply keeps_nil]. }
  destruct (prepare_own extra st (seg_id s) HO) as (e & n & st1 & Hrun & HO1 & Hs1 & He).
  erewrite bind_Some by exact Hrun. destruct (IH st1 HO1) as (l & st' & Hrun' & HO' & HP & HK).
  erewrite bind_Some by exact Hrun'. do 2 eexists. split; [reflexivity|]. split; [done|]. cbn [fst snd].
  destruct e; try done; cycle 1.
  { destruct He as [_ ->]. done. }
  { rewrite He in *. done. }
  destruct He as (ms & i & Hm & _ & Ha & -> & Eg).
  assert (HK1 : keeps_prepared st st1 [(seg_id s, client, seg_size (ms_segment ms))]).
  { split; [done|]. intros id cap Hp. rewrite Eg. simpl. rewrite list_elem_of_singleton.
    by apply drop_prepared_other; [|rewrite Ha|]. }
  split.
  - apply (pending_app st1 st' [_] l); try done. split; [apply NoDup_singleton|].
    constructor; [|constructor]. simpl. rewrite Eg. apply drop_prepared.
  - by apply (keeps_app st st1 st' [_] l).
Qed.

Lemma prepare_clients_ok extra cs : forall st, Own extra st ->
  exists l st', prepare_clients cs st = Some (l, st') /\ Own extra st' /\
    pending (segment_manager_ st') l /\ keeps_prepared st st' l.
Proof.
  induction cs as [|c cs IH]; intros st HO; simpl.
  { do 2 eexists. split; [reflexivity|]. split; [done|]. split; [split; constructor|apply keeps_nil]. }
  erewrite bind_Some by (unfold seg, GetClientSegments; rewrite bind_gets; reflexivity).
  assert (HO0 : Own extra (set_segs (segment_manager_ st) st)) by (by destruct HO).
  destruct (prepare_segments_ok extra c (default []
    match client_segments_ (id (segment_manager_ st)) !! c with
    | Some l => Some (omap (fun sid => ms_segment <$> mounted_segments_ (id (segment_manager_ st)) !! sid) l)
    | None => None end) _ HO0) as (l1 & st1 & Hrun1 & HO1 & HP1 & HK1).
  erewrite bind_Some by exact Hrun1. destruct (IH st1 HO1) as (l2 & st2 & Hrun2 & HO2 & HP2 & HK2).
  erewrite bind_Some by exact Hrun2. do 2 eexists. split; [reflexivity|]. split; [done|].
  split; [by eapply pending_app|]. eapply keeps_app; [|exact HK2]. destruct HK1. by split.
Qed.

Lemma commit_all_ok extra l : forall st, Own extra st -> pending (segment_manager_ st) l ->
  exists st', commit_all l st = Some (tt, st') /\ Own extra st' /\ same_objects st st' /\
    allocators_ (segment_manager_ st') = allocators_ (segment_manager_ st).
Proof.
  induction l as [|[[id c] cap] l IH]; intros st HO [HN HF]; simpl; [by eexists|].
  apply list.NoDup_cons in HN as [Hid HN]. apply list.Forall_cons in HF as [Hp HF]. simpl in *.
  destruct (commit_own extra st id c cap HO Hp) as (st1 & Hrun & HO1 & Hs1 & Em & Ea).
  erewrite bind_Some by exact Hrun. destruct (IH st1 HO1) as (st' & Hrun' & HO' & Hs' & Ea').
  { split; [done|]. rewrite list.Forall_forall in HF |- *. intros p Hin. destruct (HF p Hin) as (ms & Hm & ? & ?).
    exists ms. rewrite Em, lookup_delete_ne; [done|]. intros ->. apply Hid. apply list_elem_of_fmap.
    exists p.1. split; [done|]. apply list_elem_of_fmap. by exists p. }
  exists st'. split; [done|]. split; [done|]. unfold same_objects in *. split; congruence.
Qed.

Lemma drop_ok_ok extra cs : forall st, Own extra st ->
  exists st', drop_ok cs st = Some (tt, st') /\ Own extra st' /\ same_objects st st' /\
    segment_manager_ st' = segment_manager_ st.
Proof.
  induction cs as [|c cs IH]; intros st HO; simpl; [by eexists|]. rewrite bind_gets.
  assert (Hone : exists st1, (if decide (c ∈ ok_client_ st) then
     do* modify (fun s => set_ok_client (ok_client_ s ∖ {[c]}) s) in add_active_clients (-1) else ret tt) st = Some (tt, st1) /\
     Own extra st1 /\ same_objects st st1 /\ segment_manager_ st1 = segment_manager_ st).
  { destruct (decide _); eexists; (split; [reflexivity|]); [|done]. split; [|done]. by apply (Own_queues hash extra st). }
  destruct Hone as (st1 & Hrun & HO1 & Hs1 & Hg1). erewrite bind_Some by exact Hrun.
  destruct (IH st1 HO1) as (st' & Hrun' & HO' & Hs' & Hg'). exists st'. unfold same_objects in *.
  split; [done|]. split; [done|]. split; congruence.
Qed.

Lemma client_monitor_ok extra st now order : Own extra st ->
  exists st', client_monitor_round iter cfg now order st = Some (tt, st') /\ Own extra st' /\
    (same_objects st st' \/ no_stale st').
Proof using A BufferAllocator0 BufferAllocatorLaws0 H hash iter iter_perm cfg.
  intros HO. unfold client_monitor_round. rewrite bind_modify, bind_gets, bind_modify. simpl.
  set (expired := expired_clients _ _ _). set (st1 := set_client_ttl _ _).
  assert (HO1 : Own extra st1) by (by apply (Own_queues hash extra st)).
  assert (Hs1 : same_objects st st1) by done. clearbody st1.
  assert (Hrest : exists st', (do* drop_ok expired in
      let* unmount := prepare_clients expired in
      match unmount with [] => ret tt | _ => do* ClearInvalidHandles iter in commit_all unmount end) st1 = Some (tt, st') /\
    Own extra st' /\ (same_objects st st' \/ no_stale st')).
  { destruct (drop_ok_ok extra expired st1 HO1) as (st2 & Hrun2 & HO2 & Hs2 & Hg2). erewrite bind_Some by exact Hrun2.
    destruct (prepare_clients_ok extra expired st2 HO2) as (l & st3 & Hrun3 & HO3 & HP & [Hs3 _]).
    erewrite bind_Some by exact Hrun3.
    destruct l as [|x l]; [exists st3; split; [done|]; split; [done|]; left; unfold same_objects in *; congruence|].
    destruct (ClearInvalidHandles_ok hash iter iter_perm extra st3 HO3) as (st4 & Hrun4 & HO4 & Hf4 & Hv4).
    erewrite bind_Some by exact Hrun4. destruct (commit_all_ok extra (x :: l) st4 HO4) as (st5 & Hrun5 & HO5 & Hs5 & Ea).
    { destruct HP as [HN HF]. split; [done|]. eapply list.Forall_impl; [exact HF|]. intros p (ms & Hm & ?).
      exists ms. destruct Hf4 as ((_ & _ & E & _) & _). by rewrite E. }
    exists st5. split; [exact Hrun5|]. split; [done|]. right.
    eapply (no_stale_ext st4 st5); [apply HO4|apply HO5|done|done|]. by eapply clean_no_stale. }
  destruct expired; [|exact Hrest]. exists st1. split; [done|]. split; [done|]. by left.
Qed.

End segs.

End MSegs.
