(* ===== verification/MasterEvict.v ===== *)
(** * MasterEvict: eviction and garbage collection

    [BatchEvict] ends without undefined behaviour unless its quota is no [long]
    (a ratio that is not a number), keeps ownership, and takes
    the memory replicas of an object only when its lease has run out, nothing
    is being written to its memory replicas, and it is not soft-pinned unless
    the configuration allows that.  [gc_round] composes it with the removal of
    the keys whose deletion time has come. *)

From Stdlib Require Import ZArith Lia SpecFloat.
From stdpp Require Import base list gmap strings numbers sorting.
From S2P Require Import Prelude Types Double BufAlloc Segment SegmentProofs Strategy Master MasterOwn MasterWalk MasterOps.
Import Types Seg SegProofs Strategy Master Own Prim MOps Walk.

Open Scope moon_scope.
Open Scope Z_scope.

Module MEvict.

Section evict.
Context {A H : Type} `{!BufferAllocator A H} `{!BufferAllocatorLaws A H}.
Abbreviation Buffer := (AllocatedBuffer H).
Abbreviation Meta := (ObjectMetadata H).
Abbreviation Shard := (gmap string (ObjectMetadata H)).
Context (hash : string -> Z) (iter : Shard -> list (string * Meta)) (cfg : Config).
Context (iter_perm : forall sh, iter sh ≡ₚ map_to_list sh).
Abbreviation Own := (Own hash).
Abbreviation meta_of := (meta_of hash).
Abbreviation present := (present hash).
Abbreviation walked := (walked hash).
Abbreviation swept := (swept hash).
Implicit Types (st : Master A H) (extra : list Buffer) (m : Meta).

(** When an object may lose its memory replicas. *)
Definition may_evict (now : Z) m : bool :=
  IsLeaseExpired now m && mem_complete m && HasMemReplica m &&
  (negb (IsSoftPinned now m) || allow_evict_soft_pinned_objects_ cfg).

(** Kept as it is, or stripped of its memory replicas because [ok] allows it. *)
Definition evicts (ok : Meta -> bool) : string -> Meta -> option Meta -> Prop :=
  fun _ m o => o = Some m \/ (ok m = true /\ o = dropped_view MEMORY m).

Lemma evicts_mono (ok ok' : Meta -> bool) k m o : (forall m, ok m = true -> ok' m = true) -> evicts ok k m o -> evicts ok' k m o.
Proof. intros Hi [?|[? ?]]; [by left|right; auto]. Qed.

Lemma walked_mono R R' es st st' : (forall k m o, R k m o -> R' k m o) -> walked R es st st' -> walked R' es st st'.
Proof. intros Hi [W1 W2]. split; [|done]. intros k m Hk. by apply Hi, W1. Qed.

(** ** Walks *)

Lemma first_walk_ok i now t es : forall extra st, Own extra st -> present i es st ->
  exists n freed rest st', first_walk i now t es st = Some ((n, freed, rest), st') /\ Own extra st' /\ frame st st' /\
    walked (evicts (first_pass_ok now)) es st st' /\ 0 <= n <= Z.of_nat (length es) /\ Forall (fun x => x <= now) rest.
Proof.
  induction es as [|[k m] es IH]; intros extra st HO Hp; simpl.
  { do 4 eexists. split; [reflexivity|]. split_and!; try done; by apply walked_nil. }
  pose proof (present_head _ _ _ _ _ _ Hp) as (Hi & Hm & Hp' & Hk).
  destruct (first_pass_ok now m) eqn:Hok; simpl; [destruct (Z.leb_spec (lease_timeout m) t)|].
  - destruct (drop_replicas_ok hash extra MEMORY st k m HO Hm) as (st1 & Hrun & HO1 & Hf1 & Hu1).
    rewrite Hi in Hrun. erewrite bind_Some by exact Hrun.
    destruct (IH extra st1 HO1) as (n & fr & rest & st' & Hrun' & HO' & Hf' & Hw & Hn & HF); [by eapply present_step|].
    erewrite bind_Some by exact Hrun'. do 4 eexists. split; [reflexivity|]. split; [done|].
    split; [by eapply frame_trans|]. split; [|split; [lia|done]].
    eapply walked_cons; [done|exact Hu1| |done]. by right.
  - destruct (IH extra st HO Hp') as (n & fr & rest & st' & Hrun' & HO' & Hf' & Hw & Hn & HF).
    erewrite bind_Some by exact Hrun'. do 4 eexists. split; [reflexivity|]. split; [done|]. split; [done|].
    split; [eapply walked_skip; [done|by left|done]|]. split; [lia|]. constructor; [|done].
    unfold first_pass_ok, IsLeaseExpired in Hok. destruct (Z.leb_spec (lease_timeout m) now); [done|]. simpl in Hok. congruence.
  - destruct (IH extra st HO Hp') as (n & fr & rest & st' & Hrun' & HO' & Hf' & Hw & Hn & HF).
    do 4 eexists. split; [exact Hrun'|]. split_and!; try done; try lia; eapply walked_skip; try done; by left.
Qed.

Lemma second_walk_ok i pick es : forall extra st target, Own extra st -> present i es st ->
  exists r st', second_walk i pick es target st = Some (r, st') /\ Own extra st' /\ frame st st' /\
    walked (evicts pick) es st st' /\ 0 <= r.1 /\ r.1 <= Z.max 0 target.
Proof.
  induction es as [|[k m] es IH]; intros extra st target HO Hp; simpl.
  { do 2 eexists. split; [reflexivity|]. split; [done|]. split; [apply frame_refl|]. split; [apply walked_nil|]. simpl. lia. }
  destruct (Z.leb_spec target 0).
  { do 2 eexists. split; [reflexivity|]. split; [done|]. split; [apply frame_refl|]. split; [|simpl; lia].
    destruct Hp as [Hnd HF]. split; [|done]. rewrite list.Forall_forall in HF. intros k' m' Hin.
    destruct (HF _ Hin) as [_ E]. simpl in E. left. done. }
  pose proof (present_head _ _ _ _ _ _ Hp) as (Hi & Hm & Hp' & Hk). destruct (pick m) eqn:Hpk.
  - destruct (drop_replicas_ok hash extra MEMORY st k m HO Hm) as (st1 & Hrun & HO1 & Hf1 & Hu1).
    rewrite Hi in Hrun. erewrite bind_Some by exact Hrun.
    destruct (IH extra st1 (target - 1) HO1) as (r & st' & Hrun' & HO' & Hf' & Hw & Hn); [by eapply present_step|].
    erewrite bind_Some by exact Hrun'. do 2 eexists. split; [reflexivity|]. split; [done|].
    split; [by eapply frame_trans|]. split; [eapply walked_cons; [done|exact Hu1| |done]; by right|]. simpl. lia.
  - destruct (IH extra st target HO Hp') as (r & st' & Hrun' & HO' & Hf' & Hw & Hn).
    exists r, st'. split; [exact Hrun'|]. split; [done|]. split; [done|]. split; [|done].
    eapply walked_skip; [done|by left|done].
Qed.

Lemma second_pass_ok pick is_ : forall extra st target, Own extra st -> NoDup is_ -> (forall i, i ∈ is_ -> (i < kNumShards)%nat) ->
  exists r st', second_pass iter pick is_ target st = Some (r, st') /\ Own extra st' /\ frame st st' /\
    swept (evicts pick) is_ st st' /\ 0 <= r.1 /\ r.1 <= Z.max 0 target.
Proof using A BufferAllocator0 BufferAllocatorLaws0 H hash iter iter_perm.
  induction is_ as [|i is_ IH]; intros extra st target HO Hnd Hlt; simpl.
  { do 2 eexists. split; [reflexivity|]. split; [done|]. split; [apply frame_refl|]. split; [apply swept_nil|]. simpl. lia. }
  destruct (Z.leb_spec target 0).
  { do 2 eexists. split; [reflexivity|]. split; [done|]. split; [apply frame_refl|]. split; [|simpl; lia].
    intros k. destruct (decide _); [|done]. unfold relates. destruct (meta_of st k); [by left|done]. }
  apply list.NoDup_cons in Hnd as [Hi Hnd]. destruct (own_nth_shard hash extra st i HO) as [sh Hsh]; [apply Hlt; left|].
  erewrite bind_Some by (by apply get_shard_ok).
  destruct (second_walk_ok i pick (iter sh) extra st target HO) as (r & st1 & Hrun & HO1 & Hf1 & Hw & Hr); [by eapply present_iter|].
  erewrite bind_Some by exact Hrun.
  destruct (IH extra st1 (target - r.1) HO1 Hnd) as (r' & st' & Hrun' & HO' & Hf' & Hs & Hr'); [intros j Hj; apply Hlt; by right|].
  erewrite bind_Some by exact Hrun'. do 2 eexists. split; [reflexivity|]. split; [done|].
  split; [by eapply frame_trans|]. split; [|simpl; lia]. eapply swept_cons; [done| |done]. by eapply walked_swept.
Qed.

(** ** The first pass *)

(** Candidates noted for the second pass have no running lease, and no
    soft-pinned one is noted unless that is allowed. *)
Definition acc_ok (now : Z) (acc : EvictAcc) : Prop :=
  0 <= evicted_count acc <= object_count acc /\ Forall (fun x => x <= now) (no_pin_objects acc) /\
  Forall (fun x => x <= now) (soft_pin_objects acc) /\
  (allow_evict_soft_pinned_objects_ cfg = false -> soft_pin_objects acc = []).

Lemma nth_smallest_ok l n : 0 <= n < Z.of_nat (length l) -> exists x, nth_smallest n l = Some x /\ x ∈ l.
Proof.
  intros Hn. unfold nth_smallest. destruct (aget_range (merge_sort Z.le l) n) as [x Hx].
  { by rewrite (Permutation_length (merge_sort_Permutation Z.le l)). }
  exists x. split; [done|]. rewrite <- (merge_sort_Permutation Z.le l). unfold aget in Hx.
  destruct (_ <=? _) eqn:?; [|done]. by apply list_elem_of_lookup_2 in Hx.
Qed.

(** The quotas an eviction computes among at most [n] objects are not all
    values of a [long]. *)
Definition quota_fails (n : Z) (target lower : spec_float) : Prop :=
  exists c e r, 0 <= e <= c /\ c <= n /\ (r = target \/ r = lower) /\ quota c r e = None.

Lemma quota_none n target lower r acc c now : acc_ok now acc -> object_count acc <= c <= n -> r = target \/ r = lower ->
  quota c r (evicted_count acc) = None -> quota_fails n target lower.
Proof. intros (Hc & _) Hn Hr Hq. exists c, (evicted_count acc), r. split_and!; try done; lia. Qed.

(** The objects of some shards. *)
Definition size_at (shards : list Shard) (i : nat) : Z := from_option (fun sh : Shard => Z.of_nat (size sh)) 0 (shards !! i).
Definition sizes (shards : list Shard) (is_ : list nat) : Z := foldr (fun i n => size_at shards i + n) 0 is_.

Lemma sizes_all shards : sizes shards (seq 0 (length shards)) = objects shards.
Proof.
  induction shards as [|sh l IH]; [done|]. simpl. rewrite <- IH. unfold size_at at 1. simpl. f_equal.
  rewrite <- fmap_S_seq. generalize (seq 0 (length l)). clear. intros is_. induction is_ as [|i is_ IH]; [done|].
  rewrite fmap_cons. simpl. by rewrite IH.
Qed.

Lemma sizes_perm shards is_ is_' : is_ ≡ₚ is_' -> sizes shards is_ = sizes shards is_'.
Proof. induction 1; simpl; lia. Qed.

Lemma sizes_nonneg shards is_ : 0 <= sizes shards is_.
Proof. induction is_ as [|i is_ IH]; simpl; [done|]. unfold size_at. destruct (shards !! i); simpl; lia. Qed.

Lemma sizes_ext shards shards' is_ : (forall i, i ∈ is_ -> shards' !! i = shards !! i) -> sizes shards' is_ = sizes shards is_.
Proof.
  induction is_ as [|i is_ IH]; intros He; simpl; [done|]. rewrite IH by (intros j Hj; apply He; by right).
  unfold size_at. by rewrite He by left.
Qed.

Lemma iter_length sh : length (iter sh) = size sh.
Proof using iter_perm. by rewrite (Permutation_length (iter_perm sh)), length_map_to_list. Qed.

Lemma first_shard_ok N now target lower i acc extra st : Own extra st -> (i < kNumShards)%nat -> acc_ok now acc ->
  object_count acc + size_at (metadata_shards_ st) i <= N ->
  settles (quota_fails N target lower) (first_shard iter cfg now target i acc) st (fun acc' st' => Own extra st' /\ frame st st' /\
    swept (evicts (may_evict now)) [i] st st' /\ acc_ok now acc' /\
    object_count acc' = object_count acc + size_at (metadata_shards_ st) i).
Proof using A BufferAllocator0 BufferAllocatorLaws0 H hash iter iter_perm cfg.
  intros HO Hi Hacc HN. pose proof Hacc as (Hc & Hn & Hs & Hallow). unfold first_shard, settles.
  destruct (own_nth_shard hash extra st i HO Hi) as [sh Hsh]. erewrite bind_Some by (by apply get_shard_ok).
  unfold size_at in *. rewrite Hsh in *. simpl in HN. cbv zeta. set (count := object_count acc + _). simpl from_option.
  destruct (quota count target (evicted_count acc)) as [q|] eqn:Hq;
    [|by apply (quota_none N target lower target acc count now Hacc ltac:(lia) (or_introl eq_refl))].
  rewrite (bind_lift _ _ _ _ eq_refl). set (eligible := filter _ (iter sh)).
  pose (leases := fun b : bool => (fun p : string * Meta => lease_timeout p.2) <$>
    filter (fun p : string * Meta => IsSoftPinned now p.2 = b) eligible).
  assert (Hl : forall b, Forall (fun x => x <= now) (leases b)).
  { intros b. apply list.Forall_forall. intros x (p & -> & [_ [Hp _]%list_elem_of_filter]%list_elem_of_filter)%list_elem_of_fmap.
    apply andb_prop in Hp as [Hp _]. by apply Z.leb_le. }
  fold (leases true) (leases false). clearbody leases. clear eligible. pose proof (iter_length sh) as Hlen.
  set (soft := soft_pin_objects acc ++ _).
  assert (Hsoft : Forall (fun x => x <= now) soft /\ (allow_evict_soft_pinned_objects_ cfg = false -> soft = [])).
  { subst soft. destruct (allow_evict_soft_pinned_objects_ cfg); [split; [by apply list.Forall_app|done]|].
    rewrite app_nil_r. done. }
  destruct Hsoft as [Hs1 Hs2].
  assert (Hstay : swept (evicts (may_evict now)) [i] st st).
  { intros k. destruct (decide _); [|done]. unfold relates. destruct (meta_of st k); [by left|done]. }
  destruct (Z.ltb_spec 0 q).
  2: { split; [done|]. split; [apply frame_refl|]. split; [done|]. split; [|done].
       split_and!; simpl; try done; try lia. by apply list.Forall_app. }
  destruct (leases false) as [|x0 l0] eqn:El.
  { split; [done|]. split; [apply frame_refl|]. split; [done|]. split; [|done]. split_and!; simpl; try done; lia. }
  rewrite <- El.
  destruct (nth_smallest_ok (leases false) (Z.min q (Z.of_nat (length (leases false))) - 1))
    as (t & Ht & _); [rewrite El; simpl length; lia|].
  rewrite (bind_lift _ _ _ _ Ht).
  destruct (first_walk_ok i now t (iter sh) extra st HO) as (n & fr & rest & st' & Hrun & HO' & Hf' & Hw & Hn0 & HF);
    [by eapply present_iter|].
  erewrite bind_Some by exact Hrun. split; [done|]. split; [done|]. split; [|split; [|done]].
  - eapply walked_swept; [exact iter_perm|exact HO|exact Hsh|]. eapply walked_mono; [|exact Hw]. intros k m o.
    apply evicts_mono. clear. intros m. unfold first_pass_ok, may_evict.
    destruct (IsLeaseExpired now m), (IsSoftPinned now m), (mem_complete m), (HasMemReplica m); simpl; done.
  - split_and!; simpl; try done; try lia. by apply list.Forall_app.
Qed.

Lemma first_pass_run N now target lower is_ : forall acc extra st, Own extra st -> NoDup is_ -> (forall i, i ∈ is_ -> (i < kNumShards)%nat) ->
  acc_ok now acc -> object_count acc + sizes (metadata_shards_ st) is_ <= N ->
  settles (quota_fails N target lower) (first_pass iter cfg now target is_ acc) st (fun acc' st' => Own extra st' /\ frame st st' /\
    swept (evicts (may_evict now)) is_ st st' /\ acc_ok now acc' /\ object_count acc' <= N).
Proof using A BufferAllocator0 BufferAllocatorLaws0 H hash iter iter_perm cfg.
  induction is_ as [|i is_ IH]; intros acc extra st HO Hnd Hlt Hacc HN; cbn [first_pass].
  { simpl in HN. split; [done|]. split; [apply frame_refl|]. split; [apply swept_nil|]. split; [done|lia]. }
  apply list.NoDup_cons in Hnd as [Hi Hnd]. simpl in HN. pose proof (sizes_nonneg (metadata_shards_ st) is_).
  eapply settles_bind, settles_mono; [apply (first_shard_ok N now target lower i acc extra st HO (Hlt i ltac:(left)) Hacc); lia|done|].
  intros acc1 st1 (HO1 & Hf1 & Hs1 & Ha1 & Hc1).
  assert (Hrest : sizes (metadata_shards_ st1) is_ = sizes (metadata_shards_ st) is_).
  { apply sizes_ext. intros j Hj. apply (shard_ext hash extra extra st st1 j HO HO1). intros k Hk. specialize (Hs1 k).
    rewrite decide_False in Hs1; [done|]. intros Hin%list_elem_of_singleton. congruence. }
  eapply settles_mono; [apply (IH acc1 extra st1 HO1 Hnd)|done|].
  - intros j Hj. apply Hlt. by right.
  - done.
  - lia.
  - intros acc' st' (HO' & Hf' & Hs' & Ha' & Hc'). split; [done|]. split; [by eapply frame_trans|]. split; [by eapply swept_cons|done].
Qed.

(** The visiting order of a pass covers every shard once. *)
Lemma shard_order_ok start : NoDup (shard_order start) /\ (forall i, i ∈ shard_order start -> (i < kNumShards)%nat).
Proof.
  unfold shard_order. split.
  - apply NoDup_fmap_2_strong; [|apply NoDup_seq]. intros x y Hx%elem_of_seq Hy%elem_of_seq E.
    pose proof (Nat.div_mod_eq (start + x) kNumShards). pose proof (Nat.div_mod_eq (start + y) kNumShards).
    assert ((start + x) / kNumShards = (start + y) / kNumShards)%nat; [|lia]. rewrite E in *.
    pose proof (Nat.mod_upper_bound (start + y) kNumShards). unfold kNumShards in *. nia.
  - intros i (j & -> & _)%list_elem_of_fmap. apply Nat.mod_upper_bound. done.
Qed.

Lemma shard_order_sizes extra st start : Own extra st ->
  sizes (metadata_shards_ st) (shard_order start) = objects (metadata_shards_ st).
Proof.
  intros HO. rewrite <- sizes_all, (on_len _ _ _ HO). apply sizes_perm. destruct (shard_order_ok start) as [Hnd Hlt].
  apply submseteq_length_Permutation; [|unfold shard_order; by rewrite length_fmap, !length_seq].
  apply NoDup_submseteq; [done|]. intros i Hi. apply elem_of_seq. specialize (Hlt i Hi). lia.
Qed.

(** ** Whole rounds *)

(** The view of every key after evictions allowed by [may_evict]. *)
Definition evicted_ok (now : Z) st st' : Prop :=
  forall k, relates (evicts (may_evict now)) k (meta_of st k) (meta_of st' k).

Lemma dropped_no_mem m m' : dropped_view MEMORY m = Some m' -> HasMemReplica m' = false.
Proof.
  unfold dropped_view. destruct (IsValid _); [|done]. intros [= <-]. unfold HasMemReplica, EraseReplica. simpl.
  apply not_true_iff_false. rewrite existsb_exists. intros (r & [Hr _]%list_elem_of_In%list_elem_of_filter & Hm).
  unfold type, is_memory_replica in *. by destruct (data_ r).
Qed.

Lemma evicted_trans now st1 st2 st3 : evicted_ok now st1 st2 -> evicted_ok now st2 st3 -> evicted_ok now st1 st3.
Proof.
  intros E1 E2 k. specialize (E1 k). specialize (E2 k). unfold relates in *. destruct (meta_of st1 k) as [m|].
  - destruct E1 as [E1|[Hok E1]]; rewrite E1 in E2; [done|]. destruct (dropped_view MEMORY m) as [m1|] eqn:Ed.
    + destruct E2 as [E2|[Hbad _]]; [by right; rewrite E2|]. unfold may_evict in Hbad.
      rewrite (dropped_no_mem m m1 Ed), andb_false_r in Hbad. done.
    + right. by rewrite E2.
  - by rewrite E1 in E2.
Qed.

Lemma evicted_swept (ok : Meta -> bool) now is_ st st' : (forall m, ok m = true -> may_evict now m = true) ->
  swept (evicts ok) is_ st st' -> evicted_ok now st st'.
Proof.
  intros Hok HS k. pose proof (swept_relates _ _ _ _ _ k (fun m => or_introl eq_refl) HS) as HR.
  unfold relates in *. destruct (meta_of st k); [|done]. by eapply evicts_mono.
Qed.

Lemma pick_a_may now t m : t <= now -> pick_a now t m = true -> may_evict now m = true.
Proof.
  unfold pick_a, may_evict, IsLeaseExpired. intros Ht. destruct (Z.leb_spec (lease_timeout m) t); [|done].
  rewrite (proj2 (Z.leb_le (lease_timeout m) now)) by lia.
  by destruct (IsSoftPinned now m), (mem_complete m), (HasMemReplica m).
Qed.

Lemma pick_b_may now t m : allow_evict_soft_pinned_objects_ cfg = true -> pick_b now t m = true -> may_evict now m = true.
Proof.
  unfold pick_b, may_evict. intros ->. rewrite orb_true_r.
  destruct (IsLeaseExpired now m), (mem_complete m), (HasMemReplica m); simpl; done.
Qed.

Lemma second_part_ok now start acc ideal extra st : Own extra st -> acc_ok now acc ->
  let n_no_pin := Z.of_nat (length (no_pin_objects acc)) in
  let target_evict_num := Z.min ideal (n_no_pin + Z.of_nat (length (soft_pin_objects acc))) in
  exists r st', (if 0 <? target_evict_num then
       if target_evict_num <=? n_no_pin then
         let* target_timeout := lift (nth_smallest (target_evict_num - 1) (no_pin_objects acc)) in
         second_pass iter (pick_a now target_timeout) (shard_order start) target_evict_num
       else
         match soft_pin_objects acc with
         | [] => ret (0, 0)
         | _ =>
             let* soft_target := lift (nth_smallest (target_evict_num - n_no_pin - 1) (soft_pin_objects acc)) in
             second_pass iter (pick_b now soft_target) (shard_order start) target_evict_num
         end
     else ret (0, 0)) st = Some (r, st') /\ Own extra st' /\ frame st st' /\ evicted_ok now st st'.
Proof using A BufferAllocator0 BufferAllocatorLaws0 H hash iter iter_perm cfg.
  intros HO (Hc & Hn & Hs & Hallow) n_no_pin t. destruct (shard_order_ok start) as [Hnd Hlt].
  assert (Hstay : exists r st', ret (0, 0) st = Some (r, st') /\ Own extra st' /\ frame st st' /\ evicted_ok now st st').
  { do 2 eexists. split; [reflexivity|]. split; [done|]. split; [apply frame_refl|]. intros k.
    unfold relates. destruct (meta_of st k); [by left|done]. }
  assert (Hpass : forall pick, (forall m, pick m = true -> may_evict now m = true) ->
    exists r st', second_pass iter pick (shard_order start) t st = Some (r, st') /\ Own extra st' /\ frame st st' /\ evicted_ok now st st').
  { intros pick Hpick. destruct (second_pass_ok pick (shard_order start) extra st t HO Hnd Hlt) as (r & st' & Hrun & HO' & Hf & HS & _).
    exists r, st'. split; [done|]. split; [done|]. split; [done|]. by eapply evicted_swept. }
  destruct (Z.ltb_spec 0 t); [|done]. destruct (Z.leb_spec t n_no_pin).
  - destruct (nth_smallest_ok (no_pin_objects acc) (t - 1)) as (x & Hx & Hin); [unfold n_no_pin in *; lia|]. rewrite (bind_lift _ _ _ _ Hx).
    apply Hpass. intros m. apply pick_a_may. rewrite list.Forall_forall in Hn. by apply Hn.
  - assert (Hrange : 0 <= t - n_no_pin - 1 < Z.of_nat (length (soft_pin_objects acc))) by lia.
    destruct (soft_pin_objects acc) as [|y l] eqn:Es; [done|]. rewrite <- Es in *.
    destruct (nth_smallest_ok (soft_pin_objects acc) (t - n_no_pin - 1)) as (x & Hx & Hin); [done|].
    rewrite (bind_lift _ _ _ _ Hx). apply Hpass. intros m. apply pick_b_may.
    destruct (allow_evict_soft_pinned_objects_ cfg); [done|]. rewrite Hallow in Es by done. done.
Qed.

Lemma BatchEvict_ok now start target lower extra st : Own extra st ->
  settles (quota_fails (objects (metadata_shards_ st)) target lower) (BatchEvict iter cfg now start target lower) st
    (fun _ st' => Own extra st' /\ frame st st' /\ evicted_ok now st st').
Proof using A BufferAllocator0 BufferAllocatorLaws0 H hash iter iter_perm cfg.
  intros HO. unfold BatchEvict. destruct (shard_order_ok start) as [Hnd Hlt]. set (N := objects (metadata_shards_ st)).
  eapply settles_bind, settles_mono;
    [apply (first_pass_run N now target lower (shard_order start) (mkAcc 0 0 0 [] []) extra st HO Hnd Hlt)|done|].
  { split_and!; simpl; try done; lia. }
  { rewrite (shard_order_sizes extra st start HO). simpl. subst N. lia. }
  intros acc st1 (HO1 & Hf1 & HS1 & Hacc & HN). cbv zeta.
  set (low := if Dbl.ltb target lower then target else lower).
  assert (Hlow : low = target \/ low = lower) by (subst low; destruct (Dbl.ltb target lower); auto).
  unfold settles.
  destruct (quota (object_count acc) low (evicted_count acc)) as [q|] eqn:Hq;
    [|by apply (quota_none N target lower low acc (object_count acc) now Hacc ltac:(lia) Hlow)].
  rewrite (bind_lift _ _ _ _ eq_refl).
  destruct (second_part_ok now start acc q extra st1 HO1 Hacc)
    as (r & st2 & Hrun2 & HO2 & Hf2 & HE2). cbv zeta in Hrun2. erewrite bind_Some by exact Hrun2.
  clear Hrun2.
  assert (HE : evicted_ok now st st2) by (eapply evicted_trans; [by eapply evicted_swept|exact HE2]).
  assert (Hf : frame st st2) by (by eapply frame_trans).
  assert (Hend : forall st', metadata_shards_ st' = metadata_shards_ st2 -> segment_manager_ st' = segment_manager_ st2 ->
    key_count (gauges st') = key_count (gauges st2) -> soft_pin_key_count (gauges st') = soft_pin_key_count (gauges st2) ->
    frame st2 st' -> Own extra st' /\ frame st st' /\ evicted_ok now st st').
  { intros st' E1 E2 E3 E4 Hf'. split; [by apply (Own_queues hash extra st2)|]. split; [by eapply frame_trans|].
    intros k. specialize (HE k). unfold Own.meta_of in *. by rewrite E1. }
  destruct (0 <? _); [by apply Hend|]. destruct (_ =? _); by apply Hend.
Qed.

(** What [gc_ready] and [gc_round] may do to a key: nothing, clean it up,
    remove it once its lease ran out, evict it. *)
Lemma gc_ready_ok clock tasks : forall n extra st, Own extra st ->
  exists rest st', gc_ready hash n clock tasks st = Some (rest, st') /\ Own extra st' /\ frame st st'.
Proof.
  induction tasks as [|t l IH]; intros n extra st HO; simpl; [do 2 eexists; split_and!; try done|].
  destruct (negb _); [do 2 eexists; split_and!; try done|].
  destruct (Remove_ok hash extra st (clock (S n)) (task_key t) HO) as (st1 & Hrun & HO1 & Hf1 & _).
  erewrite bind_Some by exact Hrun. destruct (IH (S (S n)) extra st1 HO1) as (rest & st' & Hrun' & HO' & Hf').
  exists rest, st'. split; [done|]. split; [done|]. by eapply frame_trans.
Qed.

(** A round is undefined at most when it evicts with a quota out of range:
    [gc_fails] looks at the state the removals of the round leave. *)
Definition gc_fails clock st : Prop :=
  exists rest st1, gc_ready hash 0 clock (merge_sort task_before (local_pq st ++ gc_queue_ st)) (set_gc_queue [] st) = Some (rest, st1) /\
    quota_fails (objects (metadata_shards_ st1)) (evict_target cfg (get_global_used_ratio st1))
      (evict_lowerbound cfg (get_global_used_ratio st1)).

Lemma gc_round_ok clock now start extra st : Own extra st ->
  settles (gc_fails clock st) (gc_round hash iter cfg clock now start) st (fun _ st' => Own extra st' /\ same_segments st st').
Proof using A BufferAllocator0 BufferAllocatorLaws0 H hash iter iter_perm cfg.
  intros HO. unfold gc_round, settles. rewrite bind_gets. change (id st) with st. rewrite bind_modify.
  set (st0 := set_gc_queue [] st). assert (HO0 : Own extra st0) by (by apply (Own_queues hash extra st)).
  destruct (gc_ready_ok clock (merge_sort task_before (local_pq st ++ gc_queue_ st)) 0 extra st0 HO0)
    as (rest & st1 & Hrun1 & HO1 & Hf1).
  erewrite bind_Some by exact Hrun1. rewrite bind_modify. set (st2 := set_local_pq rest st1).
  assert (HO2 : Own extra st2) by (by apply (Own_queues hash extra st1)). rewrite !bind_gets.
  assert (Hs : same_segments st st2) by (exact (frame_segments _ _ Hf1)).
  destruct (_ || _); [|done].
  eapply settles_mono; [apply (BatchEvict_ok now start (evict_target cfg (get_global_used_ratio st2))
    (evict_lowerbound cfg (get_global_used_ratio st2)) extra st2 HO2)|..].
  - intros Hq. by exists rest, st1.
  - intros _ st3 (HO3 & Hf3 & _). split; [done|]. eapply same_containers_trans; [exact Hs|apply Hf3].
Qed.

End evict.

End MEvict.
