(* ===== verification/MasterSys.v ===== *)
(** * MasterSys: the master under any sequence of requests

    [Op] lists what can happen to the master: every request of its interface,
    a round of each background thread, and, because unmounting releases its
    locks between its phases, each phase on its own.  [reachable] is closed
    under all of them in any order. *)

From Stdlib Require Import ZArith Lia SpecFloat.
From stdpp Require Import base list gmap strings numbers.
From S2P Require Import Prelude Types BufAlloc Segment SegmentProofs Strategy Master MasterOwn MasterWalk MasterOps MasterSegs MasterEvict.
Import Types Seg SegProofs Strategy Master Own Prim MOps Walk MSegs MEvict.

Open Scope moon_scope.
Open Scope Z_scope.

Module MSys.

Inductive Op : Type :=
  | OpExistKey (now : Z) (key : string)
  | OpBatchExistKey (clock : nat -> Z) (keys : list string)
  | OpGetReplicaList (push_ok : bool) (now : Z) (key : string)
  | OpBatchGetReplicaList (push_ok : bool) (clock : nat -> Z) (keys : list string)
  | OpGetReplicaListByRegex (pattern : string)
  | OpGetAllKeys | OpGetKeyCount | OpGetAllSegments
  | OpQuerySegments (name : string)
  | OpMarkForGC (push_ok : bool) (now : Z) (key : string) (delay_ms : Z)
  | OpPutStart (rng : nat -> nat -> nat -> nat) (key : string) (slices : list Z) (config : ReplicateConfig)
  | OpPutEnd (now : Z) (key : string) (t : ReplicaType)
  | OpPutRevoke (key : string) (t : ReplicaType)
  | OpBatchPutEnd (clock : nat -> Z) (keys : list string)
  | OpBatchPutRevoke (keys : list string)
  | OpRemove (now : Z) (key : string)
  | OpRemoveByRegex (clock : string -> Z) (pattern : string)
  | OpRemoveAll (now : Z)
  | OpMountSegment (push_ok : bool) (segment : Segment) (client : UUID)
  | OpReMountSegment (push_ok : bool) (segments : list Segment) (client : UUID)
  | OpUnmountSegment (id client : UUID)
  | OpPing (push_ok : bool) (client : UUID)
  | OpGcRound (clock : nat -> Z) (evict_now : Z) (start : nat)
  | OpMonitorRound (now : Z) (order : gmap UUID Z -> list UUID)
  | OpPrepareUnmount (id : UUID)
  | OpClearShard (i : nat)
  | OpCommitUnmount (id client : UUID) (cap : Z).

Section sys.
Context {A H : Type} `{!BufferAllocator A H} `{!BufferAllocatorLaws A H}.
Abbreviation Buffer := (AllocatedBuffer H).
Abbreviation Meta := (ObjectMetadata H).
Abbreviation Shard := (gmap string (ObjectMetadata H)).
Context (hash : string -> Z) (iter : Shard -> list (string * Meta)).
Context (regex : string -> option (string -> bool)) (lexically_normal : string -> string) (cfg : Config).
Abbreviation Own := (Own hash).
Implicit Types (st : Master A H) (extra : list Buffer).

Definition void {X} (c : ST (Master A H) X) : ST (Master A H) unit := let* _x := c in ret tt.

Definition run (op : Op) : ST (Master A H) unit :=
  match op with
  | OpExistKey now key => void (ExistKey hash cfg now key)
  | OpBatchExistKey clock keys => void (BatchExistKey hash cfg clock keys)
  | OpGetReplicaList push_ok now key => void (GetReplicaList hash cfg push_ok now key)
  | OpBatchGetReplicaList push_ok clock keys => void (BatchGetReplicaList hash cfg push_ok clock keys)
  | OpGetReplicaListByRegex pattern => void (GetReplicaListByRegex iter regex pattern)
  | OpGetAllKeys => void (GetAllKeys iter)
  | OpGetKeyCount => void GetKeyCount
  | OpGetAllSegments => void MasterGetAllSegments
  | OpQuerySegments name => void (MasterQuerySegments name)
  | OpMarkForGC push_ok now key delay => void (MarkForGC push_ok now key delay)
  | OpPutStart rng key slices config => void (PutStart hash lexically_normal cfg rng key slices config)
  | OpPutEnd now key t => void (PutEnd hash cfg now key t)
  | OpPutRevoke key t => void (PutRevoke hash key t)
  | OpBatchPutEnd clock keys => void (BatchPutEnd hash cfg clock keys)
  | OpBatchPutRevoke keys => void (BatchPutRevoke hash keys)
  | OpRemove now key => void (Remove hash now key)
  | OpRemoveByRegex clock pattern => void (RemoveByRegex iter regex clock pattern)
  | OpRemoveAll now => void (RemoveAll iter now)
  | OpMountSegment push_ok segment client => void (MasterMountSegment cfg push_ok segment client)
  | OpReMountSegment push_ok segments client => void (MasterReMountSegment cfg push_ok segments client)
  | OpUnmountSegment id client => void (UnmountSegment iter id client)
  | OpPing push_ok client => void (Ping cfg push_ok client)
  | OpGcRound clock now start => gc_round hash iter cfg clock now start
  | OpMonitorRound now order => client_monitor_round iter cfg now order
  | OpPrepareUnmount id => void (seg (PrepareUnmountSegment id))
  | OpClearShard i => clear_shards iter [i]
  | OpCommitUnmount id client cap => void (seg (CommitUnmountSegment id client cap))
  end.

(** What callers guarantee: lengths are unsigned, a segment is a range of
    addresses, only a prepared segment is committed. *)
Definition op_wf st (op : Op) : Prop :=
  match op with
  | OpPutStart _ _ slices _ => Forall (fun x => 0 <= x) slices
  | OpMountSegment _ segment _ => wf_segment segment
  | OpReMountSegment _ segments _ => Forall wf_segment segments
  | OpClearShard i => (i < kNumShards)%nat
  | OpCommitUnmount id _ cap => prepared (segment_manager_ st) id cap
  | _ => True
  end.

Inductive reachable (t : BufferAllocatorType) : Master A H -> Prop :=
  | reach_new : reachable t (new_master t)
  | reach_step st op st' : reachable t st -> op_wf st op -> run op st = Some (tt, st') -> reachable t st'.

Context (iter_perm : forall sh, iter sh ≡ₚ map_to_list sh).

(** Where an operation may meet undefined behaviour: a put of a key without
    live replica that has to choose between allocators, and an eviction whose
    quota is not a [long]. *)
Definition hazard st (op : Op) : Prop :=
  match op with
  | OpPutStart _ key _ _ => crowded st /\ clean_view st (meta_of hash st key) = None
  | OpGcRound clock _ _ => gc_fails hash cfg clock st
  | _ => False
  end.

Lemma void_ok {X} (c : ST (Master A H) X) (P : Master A H -> Prop) st :
  (exists r st', c st = Some (r, st') /\ P st') -> exists st', void c st = Some (tt, st') /\ P st'.
Proof. intros (r & st' & Hrun & HP). exists st'. unfold void. by erewrite bind_Some by exact Hrun. Qed.

Lemma batch_ok {X} (op : Z -> string -> ST (Master A H) X) (P : Master A H -> Prop) clock keys : 
  (forall now k st, P st -> exists r st', op now k st = Some (r, st') /\ P st') ->
  forall n st, P st -> exists rs st', batch clock n op keys st = Some (rs, st') /\ P st'.
Proof.
  intros Hop. induction keys as [|k keys IH]; intros n st HP; simpl; [by do 2 eexists|].
  destruct (Hop (clock n) k st HP) as (r & st1 & Hrun & HP1). erewrite bind_Some by exact Hrun.
  destruct (IH (S n) st1 HP1) as (rs & st' & Hrun' & HP'). erewrite bind_Some by exact Hrun'. by do 2 eexists.
Qed.

Lemma Own_segs_id extra st : Own extra st -> Own extra (set_segs (segment_manager_ st) st).
Proof. by intros []. Qed.

Lemma new_master_own t : Own [] (new_master t).
Proof.
  assert (Hrep : forall n, objects (replicate n (∅ : Shard)) = 0 /\ pinned (replicate n (∅ : Shard)) = 0 /\
    all_buffers (replicate n (∅ : Shard)) = []).
  { assert (Hp : pinned_in (∅ : Shard) = 0) by (unfold pinned_in; by rewrite map_to_list_empty).
    assert (Hb : shard_buffers (∅ : Shard) = []) by (unfold shard_buffers; by rewrite map_to_list_empty).
    assert (Hz : size (∅ : Shard) = 0%nat) by apply map_size_empty.
    induction n as [|n (I1 & I2 & I3)]; [done|]. unfold objects, pinned, all_buffers in *.
    simpl replicate. rewrite fmap_cons. simpl. rewrite Hp, Hb, Hz, I1, I2. done. }
  destruct (Hrep kNumShards) as (E1 & E2 & E3). split; unfold new_master; cbn [metadata_shards_ segment_manager_ gauges].
  - by rewrite length_replicate.
  - intros i sh k m [-> _]%lookup_replicate. by rewrite lookup_empty.
  - rewrite E3. split; simpl; try done.
    + apply SegInv_empty.
    + intros i Hi. by apply not_elem_of_nil in Hi.
    + intros b Hb. by apply not_elem_of_nil in Hb.
    + intros b Hb. by apply not_elem_of_nil in Hb.
  - by rewrite E1.
  - by rewrite E2.
Qed.

Lemma void_settles {X} (c : ST (Master A H) X) (R : Prop) (P : X -> Master A H -> Prop) (Q : Master A H -> Prop) st :
  settles R c st P -> (forall r st', P r st' -> Q st') -> settles R (void c) st (fun _ => Q).
Proof. intros Hs HQ. eapply settles_bind, settles_mono; [exact Hs|done|]. exact HQ. Qed.

(** Every operation without a hazard ends and keeps ownership. *)
Lemma run_plain op st : Own [] st -> op_wf st op ->
  match op with OpPutStart _ _ _ _ | OpGcRound _ _ _ => True | _ => exists st', run op st = Some (tt, st') /\ Own [] st' end.
Proof using A BufferAllocator0 BufferAllocatorLaws0 H hash iter iter_perm regex lexically_normal cfg.
  intros HO Hwf. destruct op; simpl in *; try exact I; try apply void_ok.
  - destruct (ExistKey_ok hash cfg [] st now key HO) as (st' & -> & ? & _). eauto.
  - apply (batch_ok _ (Own [])); [|done]. intros now k s Hs.
    destruct (ExistKey_ok hash cfg [] s now k Hs) as (st' & -> & ? & _). eauto.
  - destruct (GetReplicaList_ok hash cfg [] st push_ok now key HO) as (st' & -> & ? & _). eauto.
  - apply (batch_ok _ (Own [])); [|done]. intros now k s Hs.
    destruct (GetReplicaList_ok hash cfg [] s push_ok now k Hs) as (st' & -> & ? & _). eauto.
  - unfold GetReplicaListByRegex. destruct (regex pattern); by do 2 eexists.
  - by do 2 eexists.
  - by do 2 eexists.
  - do 2 eexists. split; [reflexivity|]. by apply Own_segs_id.
  - destruct (query_ok (segment_manager_ st) name (ow_seg _ _ (on_owns _ _ _ HO))) as (r & Hr & _).
    unfold MasterQuerySegments. erewrite bind_Some by (unfold seg; rewrite Hr; reflexivity).
    do 2 eexists. split; [reflexivity|]. by apply Own_segs_id.
  - unfold MarkForGC. destruct push_ok; do 2 eexists; (split; [reflexivity|]); [|done]. by apply (Own_queues hash [] st).
  - destruct (PutEnd_ok hash cfg [] st now key t HO) as (st' & -> & ? & _). eauto.
  - destruct (PutRevoke_ok hash [] st key t HO) as (st' & -> & ? & _). eauto.
  - apply (batch_ok _ (Own [])); [|done]. intros now k s Hs.
    destruct (PutEnd_ok hash cfg [] s now k MEMORY Hs) as (st' & -> & ? & _). eauto.
  - apply (batch_ok _ (Own [])); [|done]. intros now k s Hs.
    destruct (PutRevoke_ok hash [] s k MEMORY Hs) as (st' & -> & ? & _). eauto.
  - destruct (Remove_ok hash [] st now key HO) as (st' & -> & ? & _). eauto.
  - unfold RemoveByRegex. destruct (regex pattern) as [f|]; [|by do 2 eexists].
    destruct (erase_shards_ok hash iter iter_perm (fun key m => f key && IsLeaseExpired (clock key) m && IsAllReplicasComplete m)
      (seq 0 kNumShards) [] st HO all_shards_nodup) as (n & st' & Hrun & ? & _); [intros i; apply all_shards|].
    erewrite bind_Some by exact Hrun. by do 2 eexists.
  - destruct (erase_shards_ok hash iter iter_perm (fun _ m => IsLeaseExpired now m)
      (seq 0 kNumShards) [] st HO all_shards_nodup) as (n & st' & Hrun & ? & _); [intros i; apply all_shards|]. eauto.
  - destruct (MountSegment_ok hash cfg [] st push_ok segment client HO Hwf) as (r & st' & -> & ? & _). eauto.
  - destruct (ReMountSegment_ok hash cfg [] st push_ok segments client HO Hwf) as (r & st' & -> & ? & _). eauto.
  - destruct (UnmountSegment_ok hash iter iter_perm [] st id client HO) as (r & st' & -> & ? & _). eauto.
  - unfold Ping. destruct (negb _); [by do 2 eexists|]. rewrite bind_gets.
    destruct (push_ping_ok hash [] st push_ok client HO) as (b & st1 & Hrun & HO1 & _). erewrite bind_Some by exact Hrun.
    destruct (negb b); by do 2 eexists.
  - destruct (client_monitor_ok hash iter cfg iter_perm [] st now order HO) as (st' & -> & ? & _). eauto.
  - destruct (prepare_own hash [] st id HO) as (e & n & st' & -> & ? & _). eauto.
  - destruct (clear_shards_ok hash iter iter_perm [i] [] st HO) as (st' & Hrun & ? & _); [apply NoDup_singleton| |by exists st'].
    intros j ->%list_elem_of_singleton. done.
  - destruct (commit_own hash [] st id client cap HO Hwf) as (st' & -> & ? & _). eauto.
Qed.

Lemma run_ok op st : Own [] st -> op_wf st op -> settles (hazard st op) (run op) st (fun _ st' => Own [] st').
Proof using A BufferAllocator0 BufferAllocatorLaws0 H hash iter iter_perm regex lexically_normal cfg.
  intros HO Hwf. pose proof (run_plain op st HO Hwf) as Hp.
  destruct op; try (apply settles_ok; destruct Hp as (st' & Hrun & ?); by exists tt, st').
  - eapply void_settles; [apply (PutStart_ok hash lexically_normal cfg [] st rng key slices config HO Hwf)|].
    by intros r st' (o & ? & _).
  - eapply settles_mono; [apply (gc_round_ok hash iter cfg iter_perm clock evict_now start [] st HO)|done|]. by intros _ st' [? _].
Qed.

Lemma reachable_own t st : reachable t st -> Own [] st.
Proof using A BufferAllocator0 BufferAllocatorLaws0 H hash iter iter_perm regex lexically_normal cfg.
  induction 1 as [|st op st' _ IH Hwf Hrun]; [apply new_master_own|].
  exact (settles_done _ _ _ _ _ _ (run_ok op st IH Hwf) Hrun).
Qed.

End sys.

End MSys.

(** ** Consequences of ownership used by the master's theorems

    Intact objects and what keeps them, the store as a function of its views,
    pairs of buffers of the store, and concrete runs. *)

Import Types Seg SegProofs Strategy Master Own Prim MOps Walk MSegs MEvict MSys.

Module MFacts.

Section facts.
Context {A H : Type} `{!BufferAllocator A H} `{!BufferAllocatorLaws A H}.
Abbreviation Buffer := (AllocatedBuffer H).
Abbreviation Meta := (ObjectMetadata H).
Abbreviation Shard := (gmap string (ObjectMetadata H)).
Context (hash : string -> Z) (iter : Shard -> list (string * Meta)).
Context (regex : string -> option (string -> bool)) (lexically_normal : string -> string) (cfg : Config).
Context (iter_perm : forall sh, iter sh ≡ₚ map_to_list sh).
Abbreviation Own := (Own hash).
Abbreviation meta_of := (meta_of hash).
Implicit Types (st : Master A H) (m : Meta).

(** ** Intact objects *)

(** An object with replicas, none of them in a segment that is gone. *)
Definition intact st m : Prop := replicas m <> [] /\ Forall (fun r => stale st r = false) (replicas m).

Lemma intact_fresh st m : Forall (fun r => stale st r = false) (replicas m) -> fresh_replicas st m = replicas m.
Proof.
  intros HF. unfold fresh_replicas. induction HF as [|r l Hr _ IH]; [done|]. by rewrite filter_cons_True, IH.
Qed.

Lemma intact_clean st m : intact st m -> clean_view st (Some m) = Some m.
Proof.
  intros [Hne HF]. simpl. unfold cleaned. rewrite (intact_fresh st m HF).
  destruct m as [rs n l s]. simpl in *. by destruct rs.
Qed.

Lemma intact_frame st st' m : frame st st' -> intact st m -> intact st' m.
Proof.
  intros Hf [Hne HF]. split; [done|]. eapply list.Forall_impl; [exact HF|]. intros r Hr. cbv beta in *.
  by rewrite (stale_frame st st' r Hf).
Qed.

Lemma intact_meta st m m' : replicas m' = replicas m -> intact st m -> intact st m'.
Proof. intros E [? ?]. unfold intact. by rewrite E. Qed.

(** ** The store is determined by its views *)

Lemma shards_ext extra extra' st st' : Own extra st -> Own extra' st' -> (forall k, meta_of st' k = meta_of st k) ->
  metadata_shards_ st' = metadata_shards_ st.
Proof. intros HO HO' Hv. apply list_eq. intros i. apply (shard_ext hash extra extra' st st' i HO HO'). auto. Qed.

(** ** Removal by garbage collection *)

(** A round of GC tasks leaves an intact object alone while its lease runs. *)
Lemma gc_ready_keeps clock tasks k m : (forall n, clock n < lease_timeout m) ->
  forall n st rest st', Own [] st -> meta_of st k = Some m -> intact st m ->
  gc_ready hash n clock tasks st = Some (rest, st') -> meta_of st' k = Some m /\ intact st' m.
Proof.
  intros Hlease. induction tasks as [|t l IH]; intros n st rest st' HO Hm Hint Hrun; simpl in Hrun.
  { unfold ret in Hrun. by simplify_eq. }
  destruct (negb _); [unfold ret in Hrun; by simplify_eq|].
  destruct (Remove_ok hash [] st (clock (S n)) (task_key t) HO) as (st1 & Hrun1 & HO1 & Hf1 & Hu1).
  erewrite bind_Some in Hrun by exact Hrun1.
  apply (IH (S (S n)) st1 rest st' HO1); [|by eapply intact_frame|done].
  destruct (decide (k = task_key t)) as [E|Hne]; [|rewrite (proj2 Hu1) by done; exact Hm].
  rewrite <- E in Hu1. rewrite (proj1 Hu1), Hm, (intact_clean st m Hint). unfold remove_view, IsLeaseExpired.
  destruct (Z.leb_spec (lease_timeout m) (clock (S n))); [|done]. specialize (Hlease (S n)). lia.
Qed.

(** ** Counting removals *)

Lemma erase_meta_count extra st k m st' : Own extra st -> meta_of st k = Some m ->
  erase_meta (getShardIndex hash k) k st = Some (tt, st') -> key_count (gauges st') = key_count (gauges st) - 1.
Proof.
  intros HO Hm. destruct (own_shard hash extra st k HO) as (sh & Hsh & Hk). rewrite Hm in Hk. symmetry in Hk.
  unfold erase_meta. erewrite bind_Some by (by apply get_shard_ok). rewrite Hk. unfold set_shard. rewrite bind_modify.
  unfold destroy_metadata, dec_meta_gauges, destroy_replicas, seg, bind, add_key_count, add_soft_pin_count, modify.
  destruct (soft_pin_timeout m); simpl;
    destruct (destroy_buffers _ _) as [[[] g]|]; simpl; try done; intros [= <-]; simpl; lia.
Qed.

Lemma erase_entries_count i chosen es : forall extra st n st', Own extra st -> present hash i es st ->
  erase_entries i chosen es st = Some (n, st') -> key_count (gauges st') = key_count (gauges st) - n.
Proof.
  induction es as [|[k m] es IH]; intros extra st n st' HO Hp Hrun; simpl in Hrun.
  { unfold ret in Hrun. simplify_eq. lia. }
  pose proof (present_head _ _ _ _ _ _ Hp) as (Hi & Hm & Hp' & Hk).
  destruct (chosen k m); [|by eapply IH].
  destruct (erase_meta_ok hash extra st k m HO Hm) as (st1 & Hrun1 & HO1 & Hf1 & Hu1).
  pose proof (erase_meta_count extra st k m st1 HO Hm Hrun1) as Hc. rewrite Hi in Hrun1.
  erewrite bind_Some in Hrun by exact Hrun1. unfold bind in Hrun.
  destruct (erase_entries i chosen es st1) as [[n1 st2]|] eqn:E; [|done]. unfold ret in Hrun. injection Hrun as <- <-.
  assert (Hp1 : present hash i es st1) by (by eapply present_step).
  rewrite (IH extra st1 n1 st2 HO1 Hp1 E). lia.
Qed.

Lemma erase_shards_count chosen is_ : forall extra st n st', Own extra st -> NoDup is_ -> (forall i, i ∈ is_ -> (i < kNumShards)%nat) ->
  erase_shards iter is_ chosen st = Some (n, st') -> key_count (gauges st') = key_count (gauges st) - n.
Proof using A BufferAllocator0 BufferAllocatorLaws0 H hash iter iter_perm.
  induction is_ as [|i is_ IH]; intros extra st n st' HO Hnd Hlt Hrun; simpl in Hrun.
  { unfold ret in Hrun. simplify_eq. lia. }
  apply list.NoDup_cons in Hnd as [Hi Hnd]. destruct (own_nth_shard hash extra st i HO) as [sh Hsh]; [apply Hlt; left|].
  erewrite bind_Some in Hrun by (by apply get_shard_ok).
  assert (Hp : present hash i (iter sh) st) by (by eapply present_iter).
  destruct (erase_entries_ok hash i chosen (iter sh) extra st HO Hp) as (st1 & Hrun1 & HO1 & Hf1 & Hw).
  erewrite bind_Some in Hrun by exact Hrun1. unfold bind in Hrun.
  destruct (erase_shards iter is_ chosen st1) as [[n2 st2]|] eqn:E; [|done]. unfold ret in Hrun. simplify_eq.
  rewrite (IH extra st1 n2 st' HO1 Hnd (fun j Hj => Hlt j (list_elem_of_further _ _ _ Hj)) E).
  rewrite (erase_entries_count i chosen (iter sh) extra st _ st1 HO Hp Hrun1). lia.
Qed.

(** ** Pairs of buffers *)

(** A buffer inside the memory its allocator manages. *)
Definition in_segment (a : A) (b : Buffer) : Prop :=
  ba_base a <= buffer_ptr_ b /\ 0 <= size_ b /\ buffer_ptr_ b + size_ b <= ba_base a + ba_capacity a.
Definition apart (b1 b2 : Buffer) : Prop :=
  buffer_ptr_ b1 + size_ b1 <= buffer_ptr_ b2 \/ buffer_ptr_ b2 + size_ b2 <= buffer_ptr_ b1.

Lemma own_in_segment g bs b : owns g bs -> b ∈ bs -> buf_allocator b ∈ allocators_ g ->
  exists a, heap g !! buf_allocator b = Some a /\ in_segment a b.
Proof using A BufferAllocator0 BufferAllocatorLaws0 H.
  intros Ho Hb Hi. destruct (ow_heap _ _ Ho _ Hi) as (a & Ea & HI). exists a. split; [done|].
  apply (ba_bounds a _ (out_of b) HI). apply list_elem_of_fmap. exists b. split; [done|]. by apply list_elem_of_filter.
Qed.

Lemma own_apart g bs i j b1 b2 : owns g bs -> i <> j -> bs !! i = Some b1 -> bs !! j = Some b2 ->
  buf_allocator b1 = buf_allocator b2 -> buf_allocator b1 ∈ allocators_ g -> apart b1 b2.
Proof using A BufferAllocator0 BufferAllocatorLaws0 H.
  intros Ho Hij H1 H2 E Hi. destruct (two_front bs i j b1 b2 Hij H1 H2) as [rest HP].
  destruct (ow_heap _ _ Ho _ Hi) as (a & _ & HI).
  assert (HI' : ba_inv a (out_of b1 :: out_of b2 :: outs_of rest (buf_allocator b1))).
  { eapply ba_inv_perm; [|exact HI]. rewrite (outs_of_perm (buf_allocator b1) _ _ HP). unfold outs_of.
    by rewrite !filter_cons_True by done. }
  exact (ba_disjoint a _ 0 1 _ _ HI' ltac:(done) eq_refl eq_refl).
Qed.

(** ** Concrete runs *)

Fixpoint run_all (ops : list Op) st : option (Master A H) :=
  match ops with
  | [] => Some st
  | op :: ops => match run hash iter regex lexically_normal cfg op st with Some (_, st') => run_all ops st' | None => None end
  end.

(** Requests whose arguments are in order whatever the state. *)
Definition op_static (op : Op) : bool :=
  match op with
  | OpPutStart _ _ slices _ => forallb (fun x => 0 <=? x) slices
  | OpMountSegment _ s _ => (0 <=? seg_base s) && (0 <=? seg_size s) && (seg_base s + seg_size s <? 2 ^ 64)
  | OpReMountSegment _ _ _ | OpClearShard _ | OpCommitUnmount _ _ _ => false
  | _ => true
  end.

Lemma op_static_wf st op : op_static op = true -> op_wf st op.
Proof.
  destruct op; simpl; try done.
  - intros Hf. apply list.Forall_forall. intros x Hx. rewrite forallb_forall in Hf. apply list_elem_of_In in Hx.
    specialize (Hf x Hx). by apply Z.leb_le.
  - unfold wf_segment. rewrite !andb_true_iff, !Z.leb_le, Z.ltb_lt. tauto.
Qed.

Lemma run_all_reachable t ops : forall st st', forallb op_static ops = true ->
  reachable hash iter regex lexically_normal cfg t st -> run_all ops st = Some st' ->
  reachable hash iter regex lexically_normal cfg t st'.
Proof.
  induction ops as [|op ops IH]; intros st st' Hs Hr Hrun; simpl in *; [by simplify_eq|].
  apply andb_prop in Hs as [Hop Hs]. destruct (run _ _ _ _ _ op st) as [[[] st1]|] eqn:E; [|done].
  eapply IH; [done| |exact Hrun]. eapply reach_step; [exact Hr|by apply op_static_wf|exact E].
Qed.

End facts.

End MFacts.
