(* ===== verification/MasterProps.v ===== *)
(** * MasterProps: the correctness properties of the master service

    Safety and ownership under any sequence of requests, protection by leases,
    the life of an object from [PutStart] to [Remove], bulk removal, unmount
    and eviction, with a concrete run of the service over the offset allocator
    for each hypothesis. *)

From Stdlib Require Import ZArith Lia SpecFloat Ascii.
From stdpp Require Import base list gmap strings numbers.
From S2P Require Import Prelude Types Double OffsetWrapper BufAlloc Segment SegmentProofs Strategy Master MasterOwn MasterWalk MasterOps MasterSegs MasterEvict MasterSys.
Import Types Seg SegProofs Strategy Master Own Prim MOps Walk MSegs MEvict MSys MFacts.

Open Scope moon_scope.
Open Scope Z_scope.

Module MProps.

Section props.
Context {A H : Type} `{!BufferAllocator A H} `{!BufferAllocatorLaws A H}.
Abbreviation Buffer := (AllocatedBuffer H).
Abbreviation Meta := (ObjectMetadata H).
Abbreviation Shard := (gmap string (ObjectMetadata H)).
Context (hash : string -> Z) (iter : Shard -> list (string * Meta)).
Context (regex : string -> option (string -> bool)) (lexically_normal : string -> string) (cfg : Config).
(** An [unordered_map] is iterated entry by entry, each once. *)
Context (iter_perm : forall sh, iter sh ≡ₚ map_to_list sh).
Abbreviation Own := (Own hash).
Abbreviation meta_of := (meta_of hash).
Abbreviation reachable := (reachable hash iter regex lexically_normal cfg).
Abbreviation run := (run hash iter regex lexically_normal cfg).
Implicit Types (st : Master A H) (m : Meta).

Lemma reach_own t st : reachable t st -> Own [] st.
Proof using A BufferAllocator0 BufferAllocatorLaws0 H hash iter iter_perm regex lexically_normal cfg.
  intros Hr. by eapply reachable_own.
Qed.


(** C3: Any two buffers the store holds in one mounted segment occupy disjoint
    byte ranges inside that segment, whichever objects and replicas they
    belong to. *)
Theorem store_buffers_disjoint t st i j b1 b2 : reachable t st -> i <> j ->
  all_buffers (metadata_shards_ st) !! i = Some b1 -> all_buffers (metadata_shards_ st) !! j = Some b2 ->
  buf_allocator b1 = buf_allocator b2 -> buf_allocator b1 ∈ allocators_ (segment_manager_ st) ->
  exists a, heap (segment_manager_ st) !! buf_allocator b1 = Some a /\ in_segment a b1 /\ in_segment a b2 /\ apart b1 b2.
Proof using A BufferAllocator0 BufferAllocatorLaws0 H hash iter iter_perm regex lexically_normal cfg.
  intros Hr Hij H1 H2 E Hi. pose proof (on_owns _ _ _ (reach_own t st Hr)) as Ho. simpl in Ho.
  destruct (own_in_segment _ _ b1 Ho (list_elem_of_lookup_2 _ _ _ H1) Hi) as (a & Ea & Hb1).
  destruct (own_in_segment _ _ b2 Ho (list_elem_of_lookup_2 _ _ _ H2)) as (a' & Ea' & Hb2); [by rewrite <- E|].
  rewrite <- E, Ea in Ea'. simplify_eq. exists a'. split_and!; try done; try apply Hb1; try apply Hb2. by eapply own_apart.
Qed.

(** C27: The metrics are exact: the key count is the number of objects, the
    soft-pin count the number of soft-pinned ones, the allocated size the sum
    of all buffers of the store, each allocator's size that of its own
    buffers, and the total capacity that of the mounted segments. *)
Theorem store_accounting t st : reachable t st ->
  key_count (gauges st) = objects (metadata_shards_ st) /\
  soft_pin_key_count (gauges st) = pinned (metadata_shards_ st) /\
  GetKeyCount st = Some (u64 (key_count (gauges st)), st) /\
  allocated_size (segment_manager_ st) = bytes (all_buffers (metadata_shards_ st)) /\
  total_capacity (segment_manager_ st) = capacity_of (mounted_segments_ (segment_manager_ st)) /\
  (forall i, i ∈ allocators_ (segment_manager_ st) -> exists a, heap (segment_manager_ st) !! i = Some a /\
     ba_size a = out_total (outs_of (all_buffers (metadata_shards_ st)) i)).
Proof using A BufferAllocator0 BufferAllocatorLaws0 H hash iter iter_perm regex lexically_normal cfg.
  intros Hr. destruct (reach_own t st Hr) as [_ _ [Hs Hh Hb _] Hc Hp]. simpl in *. split; [done|]. split; [done|].
  split; [unfold GetKeyCount; rewrite bind_gets, Hc; done|]. split; [done|]. split; [apply Hs|].
  intros i Hi. destruct (Hh i Hi) as (a & Ea & HI). exists a. split; [done|]. by apply ba_size_exact.
Qed.

(** ** Leases *)

(** The instants at which an operation looks at the lease of a key. *)
Definition examined (op : Op) (k : string) (t : Z) : Prop :=
  match op with
  | OpRemove now _ => t = now
  | OpRemoveByRegex clock _ => t = clock k
  | OpRemoveAll now => t = now
  | OpGcRound clock now _ => t = now \/ exists n, t = clock n
  | _ => False
  end.
Definition removes (op : Op) : Prop :=
  match op with OpRemove _ _ | OpRemoveByRegex _ _ | OpRemoveAll _ | OpGcRound _ _ _ => True | _ => False end.

Lemma erases_keeps (chosen : string -> Meta -> bool) is_ st st' k m : swept hash (erases chosen) is_ st st' ->
  meta_of st k = Some m -> chosen k m = false -> meta_of st' k = Some m.
Proof.
  intros HS Hm Hc. specialize (HS k). rewrite Hm in HS. destruct (decide _); [|done].
  unfold relates, erases in HS. by rewrite Hc in HS.
Qed.

Lemma gc_round_keeps clock now start st st' k m : Own [] st -> meta_of st k = Some m -> intact st m ->
  (forall n, clock n < lease_timeout m) -> now < lease_timeout m ->
  gc_round hash iter cfg clock now start st = Some (tt, st') -> meta_of st' k = Some m.
Proof using A BufferAllocator0 BufferAllocatorLaws0 H hash iter iter_perm cfg.
  intros HO Hm Hint Hcl Hnow. unfold gc_round. rewrite bind_gets, bind_modify. change (id st) with st.
  set (st0 := set_gc_queue [] st). assert (HO0 : Own [] st0) by (by apply (Own_queues hash [] st)).
  set (tasks := sorting.merge_sort _ _).
  destruct (gc_ready_ok hash clock tasks 0 [] st0 HO0) as (rest & st1 & Hrun1 & HO1 & _).
  destruct (gc_ready_keeps hash clock tasks k m Hcl 0 st0 rest st1 HO0 Hm Hint Hrun1) as [Hm1 _].
  erewrite bind_Some by exact Hrun1. rewrite bind_modify, !bind_gets. set (st2 := set_local_pq rest st1).
  assert (HO2 : Own [] st2) by (by apply (Own_queues hash [] st1)).
  destruct (_ || _); [|unfold ret; by intros [= <-]]. intros Hrun.
  match type of Hrun with BatchEvict _ _ _ _ ?a ?b _ = _ =>
    destruct (settles_done _ _ _ _ _ _ (BatchEvict_ok hash iter cfg iter_perm now start a b [] st2 HO2) Hrun) as (_ & _ & HE) end.
  specialize (HE k). unfold relates in HE.
  change (meta_of st2 k) with (meta_of st1 k) in HE. rewrite Hm1 in HE. destruct HE as [?|[Hok _]]; [done|].
  unfold may_evict, IsLeaseExpired in Hok. rewrite (proj2 (Z.leb_gt _ _) Hnow) in Hok. done.
Qed.

(** C5: While its lease runs, an intact object survives every operation that
    removes objects ([Remove], [RemoveByRegex], [RemoveAll], and a round of
    garbage collection with its eviction), unchanged. *)
Theorem lease_protects t st op st' k m : reachable t st -> removes op ->
  meta_of st k = Some m -> intact st m -> (forall now, examined op k now -> now < lease_timeout m) ->
  run op st = Some (tt, st') -> meta_of st' k = Some m.
Proof using A BufferAllocator0 BufferAllocatorLaws0 H hash iter iter_perm regex lexically_normal cfg.
  intros Hr Hop Hm Hint Hl Hrun. pose proof (reach_own t st Hr) as HO.
  assert (Hlive : forall now, now < lease_timeout m -> IsLeaseExpired now m = false) by (intros; by apply Z.leb_gt).
  destruct op; simpl in *; try done; unfold void in Hrun.
  - destruct (Remove_ok hash [] st now key HO) as (st1 & Hrun1 & _ & _ & Hu). erewrite bind_Some in Hrun by exact Hrun1.
    unfold ret in Hrun. simplify_eq. destruct (decide (k = key)) as [<-|Hne]; [|by rewrite (proj2 Hu)].
    rewrite (proj1 Hu), Hm, (intact_clean st m Hint). unfold remove_view. by rewrite Hlive by auto.
  - unfold RemoveByRegex in Hrun. destruct (regex pattern) as [f|]; [|unfold ret, bind in Hrun; by simplify_eq].
    destruct (erase_shards_ok hash iter iter_perm (fun key m => f key && IsLeaseExpired (clock key) m && IsAllReplicasComplete m)
      (seq 0 kNumShards) [] st HO all_shards_nodup) as (n & st1 & Hrun1 & _ & _ & HS); [intros i; apply all_shards|].
    unfold bind in Hrun. rewrite Hrun1 in Hrun. unfold ret in Hrun. simplify_eq. eapply erases_keeps; [exact HS|done|].
    cbv beta. rewrite Hlive by auto. by rewrite andb_false_r.
  - destruct (erase_shards_ok hash iter iter_perm (fun _ m => IsLeaseExpired now m)
      (seq 0 kNumShards) [] st HO all_shards_nodup) as (n & st1 & Hrun1 & _ & _ & HS); [intros i; apply all_shards|].
    unfold bind, RemoveAll in Hrun. rewrite Hrun1 in Hrun. unfold ret in Hrun. simplify_eq. eapply erases_keeps; [exact HS|done|].
    by apply Hlive, Hl.
  - apply (gc_round_keeps clock evict_now start st st' k m HO Hm Hint); [| |exact Hrun].
    + intros n. apply Hl. right. by exists n.
    + apply Hl. by left.
Qed.

Lemma clean_view_intact st o m : clean_view st o = Some m -> intact st m.
Proof.
  unfold clean_view. destruct o as [m0|]; [|done]. destruct (fresh_replicas st m0) eqn:E; [done|]. intros [= <-].
  split; [unfold cleaned; simpl; by rewrite E|apply cleaned_fresh].
Qed.

Lemma intact_segments st st' m : same_segments st st' -> intact st m -> intact st' m.
Proof.
  intros Hs [Hne HF]. split; [done|]. eapply list.Forall_impl; [exact HF|]. intros r Hr. cbv beta in *.
  rewrite <- Hr. unfold stale, has_invalid_mem_handle. destruct (data_ r) as [bs|]; [|done].
  clear -Hs BufferAllocatorLaws0. induction bs as [|b bs IH]; simpl; [done|]. by rewrite IH, (alive_same _ _ _ Hs).
Qed.

(** A read protects what it returned: after [GetReplicaList] succeeds
    (garbage collection off), [Remove] answers OBJECT_HAS_LEASE and leaves the
    object in place at every instant before the lease time has passed. *)
Theorem read_holds_object t st push_ok now k ds st1 now' : reachable t st -> enable_gc_ cfg = false ->
  GetReplicaList hash cfg push_ok now k st = Some (inr ds, st1) -> now' < now + ms (default_kv_lease_ttl_ cfg) ->
  exists st2 m, Remove hash now' k st1 = Some (Some OBJECT_HAS_LEASE, st2) /\
    meta_of st1 k = Some m /\ meta_of st2 k = Some m /\ ds = complete_descriptors m.
Proof using A BufferAllocator0 BufferAllocatorLaws0 H hash iter iter_perm regex lexically_normal cfg.
  intros Hr Hgc Hget Ht. pose proof (reach_own t st Hr) as HO.
  destruct (GetReplicaList_ok hash cfg [] st push_ok now k HO) as (st1' & Hrun & HO1 & Hs & [Hu _] & _).
  rewrite Hget in Hrun. injection Hrun as Hds <-. unfold get_view in *.
  destruct (clean_view st (meta_of st k)) as [m|] eqn:Ev; [|done].
  destruct (complete_descriptors m) as [|d l] eqn:Ed; [done|]. rewrite Hgc in Hu. simpl in Hu, Hds.
  set (m1 := GrantLease now _ _ m) in Hu. injection Hds as ->.
  assert (Hint : intact st1 m1).
  { apply (intact_meta st1 m m1 eq_refl), (intact_segments st st1 m Hs). by eapply clean_view_intact. }
  destruct (Remove_ok hash [] st1 now' k HO1) as (st2 & Hrun2 & _ & _ & [Hu2 _]).
  assert (Hview : remove_view now' (clean_view st1 (meta_of st1 k)) = (Some OBJECT_HAS_LEASE, Some m1)).
  { rewrite Hu, (intact_clean st1 m1 Hint). unfold remove_view. replace (IsLeaseExpired now' m1) with false; [done|].
    symmetry. apply Z.leb_gt. unfold m1. simpl. lia. }
  rewrite Hview in Hrun2, Hu2. by exists st2, m1.
Qed.

(** ** The life of an object *)

(** Where the bytes of a replica are. *)
Definition locations (d : Descriptor) : list (string * Z * Z) :=
  (fun b => (bd_segment_name b, bd_size b, bd_address b)) <$> default [] (get_memory_descriptor d).
Definition lengths (d : Descriptor) : list Z := bd_size <$> default [] (get_memory_descriptor d).

Lemma fresh_stale st slices r : SegInv (segment_manager_ st) -> fresh_replica st slices r -> stale st r = false.
Proof.
  intros HI (bs & -> & _ & HF). rewrite (stale_alloc st _ HI). unfold replica_buffers. simpl.
  induction HF as [|b bs [_ Hb] _ IH]; [done|]. simpl. by rewrite bool_decide_eq_true_2.
Qed.

Lemma complete_with_disk st slices k total reps : Forall (fresh_replica st slices) reps ->
  filter (fun r => status_ r = COMPLETE)
    ((fun r => if decide (type r = MEMORY) then mark_complete r else r) <$> with_disk hash lexically_normal cfg k total reps) =
  mark_complete <$> reps.
Proof.
  intros HF. unfold with_disk. assert (Hreps : filter (fun r => status_ r = COMPLETE)
    ((fun r => if decide (type r = MEMORY) then mark_complete r else r) <$> reps) = mark_complete <$> reps).
  { induction HF as [|r l (bs & -> & _) _ IH]; [done|]. rewrite !fmap_cons. rewrite decide_True by done.
    rewrite filter_cons_True by done. by rewrite IH. }
  destruct (use_disk_replica_ cfg); [|done]. rewrite fmap_app, list.filter_app, Hreps. simpl.
  rewrite filter_cons_False by done. apply app_nil_r.
Qed.

Lemma memory_descriptors st slices k total reps : Forall (fresh_replica st slices) reps ->
  filter (fun d => is_Some (get_memory_descriptor d)) (get_descriptor <$> with_disk hash lexically_normal cfg k total reps) =
  get_descriptor <$> reps.
Proof.
  intros HF. unfold with_disk. assert (Hreps : filter (fun d => is_Some (get_memory_descriptor d)) (get_descriptor <$> reps) =
    get_descriptor <$> reps).
  { induction HF as [|r l (bs & -> & _) _ IH]; [done|]. rewrite !fmap_cons. rewrite filter_cons_True by (by eexists). by rewrite IH. }
  destruct (use_disk_replica_ cfg); [|done]. rewrite fmap_app, list.filter_app, Hreps. simpl.
  rewrite filter_cons_False by (by intros [? ?]). apply app_nil_r.
Qed.

(** An object as [PutStart] stores it, and after [PutEnd] for its memory
    replicas. *)
Lemma put_end_stored st1 st slices total reps k now t : Own [] st1 -> same_segments st st1 -> SegInv (segment_manager_ st) ->
  Forall (fresh_replica st slices) reps -> reps <> [] ->
  meta_of st1 k = Some (new_metadata total (with_disk hash lexically_normal cfg k total reps) t) ->
  exists st2 m2, PutEnd hash cfg now k MEMORY st1 = Some (None, st2) /\ Own [] st2 /\ meta_of st2 k = Some m2 /\
    intact st2 m2 /\ complete_descriptors m2 = get_descriptor <$> (mark_complete <$> reps).
Proof using A BufferAllocator0 BufferAllocatorLaws0 H hash lexically_normal cfg.
  intros HO1 Hs HI HF Hne Hm. set (nm := new_metadata _ _ _) in Hm.
  assert (Hstale : Forall (fun r => stale st r = false) (replicas nm)).
  { simpl. unfold with_disk. assert (Forall (fun r => stale st r = false) reps)
      by (eapply list.Forall_impl; [exact HF|]; intros r; by apply fresh_stale).
    destruct (use_disk_replica_ cfg); [|done]. apply list.Forall_app. by split; [|constructor]. }
  assert (Hint : intact st1 nm).
  { apply (intact_segments st); [done|]. split; [|done]. simpl. unfold with_disk. destruct reps; [done|].
    by destruct (use_disk_replica_ cfg). }
  destruct (PutEnd_ok hash cfg [] st1 now k MEMORY HO1) as (st2 & Hrun2 & HO2 & Hf2 & [Hu2 _]).
  rewrite Hm, (intact_clean st1 nm Hint) in Hrun2, Hu2. simpl in Hrun2, Hu2.
  exists st2. eexists. split; [exact Hrun2|]. split; [done|]. split; [exact Hu2|]. split.
  - apply (intact_frame st1 st2); [done|]. destruct Hint as [Hne1 Hst1]. split.
    + simpl in *. destruct (with_disk _ _ _ _ _ _); done.
    + simpl in *. apply list.Forall_fmap. eapply list.Forall_impl; [exact Hst1|]. intros r Hr. cbv beta in *. simpl.
      destruct (decide _); [|done]. unfold stale in *. by rewrite mark_complete_stale.
  - unfold complete_descriptors. simpl. f_equal. by eapply complete_with_disk.
Qed.

(** C4: What is put can be read: after a successful [PutStart] of a new key
    and [PutEnd] of its memory replicas, [GetReplicaList] answers exactly the
    memory replicas that [PutStart] handed out, at the same addresses, all
    complete, as many as requested and each with the requested slice sizes. *)
Theorem put_roundtrip t st rng k slices config ds st1 now push_ok now' : reachable t st ->
  Forall (fun x => 0 <= x) slices -> 0 <= replica_num config -> meta_of st k = None ->
  PutStart hash lexically_normal cfg rng k slices config st = Some (inr ds, st1) ->
  exists st2 st3 ds', PutEnd hash cfg now k MEMORY st1 = Some (None, st2) /\
    GetReplicaList hash cfg push_ok now' k st2 = Some (inr ds', st3) /\
    locations <$> ds' = locations <$> filter (fun d => is_Some (get_memory_descriptor d)) ds /\
    Forall (fun d => desc_status d = COMPLETE /\ lengths d = slices) ds' /\
    Z.of_nat (length ds') = replica_num config.
Proof using A BufferAllocator0 BufferAllocatorLaws0 H hash iter iter_perm regex lexically_normal cfg.
  intros Hr HFs Hrep Hm Hput. pose proof (reach_own t st Hr) as HO.
  destruct (settles_done _ _ _ _ _ _ (PutStart_ok hash lexically_normal cfg [] st rng k slices config HO HFs) Hput)
    as (o & HO1 & Hf1 & [Hu1 _] & Hsp).
  assert (Hinv : put_invalid k slices config = false /\ Forall (fun x => 0 <= x <= kMaxSliceSize) slices).
  { unfold PutStart in Hput. fold (put_invalid k slices config) in Hput. destruct (put_invalid _ _ _); [done|].
    destruct (validate_slices slices 0) eqn:Ev; [|done]. split; [done|]. by eapply validate_slices_ok. }
  destruct Hinv as [Hinv Hmax]. inversion Hsp as [| | |total reps _ Hv Hlen HF Eds Eo|old ? Hm']; [|congruence].
  rewrite <- Eo in Hu1.
  assert (Hn : replica_num config <> 0).
  { unfold put_invalid in Hinv. destruct (Z.eqb_spec (replica_num config) 0); [done|lia]. }
  assert (Hne : reps <> []) by (intros ->; simpl in Hlen; lia).
  destruct (put_end_stored st1 st slices total reps k now _ HO1 (frame_segments _ _ Hf1) (ow_seg _ _ (on_owns _ _ _ HO)) HF Hne Hu1)
    as (st2 & m2 & Hend & HO2 & Hm2 & Hint2 & Hc2).
  destruct (GetReplicaList_ok hash cfg [] st2 push_ok now' k HO2) as (st3 & Hget & _).
  rewrite Hm2, (intact_clean st2 m2 Hint2) in Hget. unfold get_view in Hget. rewrite Hc2 in Hget.
  exists st2, st3, (get_descriptor <$> (mark_complete <$> reps)). split; [done|].
  split; [rewrite Hget; by destruct reps|]. split; [|split].
  - rewrite (memory_descriptors st slices k total reps HF). rewrite <- !list_fmap_compose.
    apply list_fmap_ext. intros i r _. apply mark_complete_locations.
  - rewrite <- list_fmap_compose. apply list.Forall_fmap. eapply list.Forall_impl; [exact HF|].
    intros r (bs & -> & Hsz & _). split; [done|]. unfold lengths. simpl. rewrite <- Hsz in Hmax |- *.
    apply list.Forall_fmap in Hmax. rewrite <- !list_fmap_compose. clear -Hmax.
    induction Hmax as [|b l Hb _ IH]; [done|]. rewrite !fmap_cons, IH. f_equal. simpl.
    apply u64_small. simpl in Hb. unfold kMaxSliceSize, Slab_kSize in Hb. lia.
  - rewrite !length_fmap. lia.
Qed.

(** A put never overwrites: [PutStart] of a key that still has a live
    replica answers OBJECT_ALREADY_EXISTS and leaves that object (less its
    stale replicas) and every other key as they are. *)
Theorem put_never_overwrites t st rng k slices config m : reachable t st -> Forall (fun x => 0 <= x) slices ->
  put_invalid k slices config = false -> is_Some (validate_slices slices 0) -> clean_view st (meta_of st k) = Some m ->
  exists st', PutStart hash lexically_normal cfg rng k slices config st = Some (inl OBJECT_ALREADY_EXISTS, st') /\
    meta_of st' k = Some m /\ (forall k', k' <> k -> meta_of st' k' = meta_of st k').
Proof using A BufferAllocator0 BufferAllocatorLaws0 H hash iter iter_perm regex lexically_normal cfg.
  intros Hr HFs Hinv [total Hv] Hm. pose proof (reach_own t st Hr) as HO.
  pose proof (PutStart_ok hash lexically_normal cfg [] st rng k slices config HO HFs) as Hset. unfold settles in Hset.
  destruct (PutStart _ _ _ _ _ _ _ _) as [[r st1]|] eqn:Hrun; [|destruct Hset; congruence].
  destruct Hset as (o & HO1 & Hf1 & [Hu1 Hu2] & Hsp). exists st1. inversion Hsp as [[?|?] Er Eo|m' Hm' Er Eo|Hm' Er Eo|total' reps Hm' _ _ _ Er Eo|old ds Hm' Hfr Er Eo];
    rewrite ?Hm' in Hm; simpl in Hm; try congruence.
  - rewrite <- Er, <- Eo in *. by simplify_eq.
  - by rewrite Hfr in Hm.
Qed.

(** C22: A failed put leaks nothing: when [PutStart] answers an error in a
    store without stale replicas, the objects, the allocated size and the size
    of every allocator are what they were, whichever slice or replica could
    not be allocated. *)
Theorem put_failure_leaks_nothing t st rng k slices config e st' : reachable t st -> Forall (fun x => 0 <= x) slices ->
  no_stale hash st -> PutStart hash lexically_normal cfg rng k slices config st = Some (inl e, st') ->
  metadata_shards_ st' = metadata_shards_ st /\
  allocated_size (segment_manager_ st') = allocated_size (segment_manager_ st) /\
  allocators_ (segment_manager_ st') = allocators_ (segment_manager_ st) /\
  (forall i a, i ∈ allocators_ (segment_manager_ st) -> heap (segment_manager_ st) !! i = Some a ->
    exists a', heap (segment_manager_ st') !! i = Some a' /\ ba_size a' = ba_size a).
Proof using A BufferAllocator0 BufferAllocatorLaws0 H hash iter iter_perm regex lexically_normal cfg.
  intros Hr HFs Hns Hput. pose proof (reach_own t st Hr) as HO.
  destruct (settles_done _ _ _ _ _ _ (PutStart_ok hash lexically_normal cfg [] st rng k slices config HO HFs) Hput)
    as (o & HO1 & Hf1 & [Hu1 Hu2] & Hsp).
  assert (Hsame : o = meta_of st k).
  { inversion Hsp as [_ Er Eo|m' Hm' Er Eo|Hm' Er Eo| |]; [done|..];
      (destruct (meta_of st k) as [m|] eqn:Em; [|done]); destruct (Hns k m Em) as [Hne HF];
      rewrite (intact_clean st m (conj Hne HF)) in Hm'; congruence. }
  assert (Hsh : metadata_shards_ st' = metadata_shards_ st).
  { apply (shards_ext hash [] [] st st' HO HO1). intros k'. destruct (decide (k' = k)) as [->|]; [congruence|by apply Hu2]. }
  destruct (on_owns _ _ _ HO) as [_ Hh Hb _]. destruct (on_owns _ _ _ HO1) as [_ Hh1 Hb1 _]. rewrite Hsh in *.
  pose proof (proj1 (proj1 Hf1)) as Ea. split; [done|]. split; [congruence|]. split; [done|].
  intros i a Hi Ei. destruct (Hh i Hi) as (a0 & E0 & HI0). destruct (Hh1 i) as (a1 & E1 & HI1); [by rewrite Ea|].
  exists a1. split; [done|]. rewrite Ei in E0. simplify_eq. by rewrite (ba_size_exact _ _ HI0), (ba_size_exact _ _ HI1).
Qed.

(** [Remove] succeeds exactly when the key has a live replica, its lease
    has run out and all its live replicas are complete; then the object is
    gone, otherwise it is left in place, and no other key changes. *)
Theorem remove_exact t st now k : reachable t st ->
  exists e st', Remove hash now k st = Some (e, st') /\
    (e = None <-> exists m, clean_view st (meta_of st k) = Some m /\ lease_timeout m <= now /\
                    Forall (fun r => status_ r = COMPLETE) (replicas m)) /\
    meta_of st' k = (if decide (e = None) then None else clean_view st (meta_of st k)) /\
    (forall k', k' <> k -> meta_of st' k' = meta_of st k').
Proof using A BufferAllocator0 BufferAllocatorLaws0 H hash iter iter_perm regex lexically_normal cfg.
  intros Hr. destruct (Remove_ok hash [] st now k (reach_own t st Hr)) as (st' & Hrun & _ & _ & [Hu Ho]).
  do 2 eexists. split; [exact Hrun|]. rewrite Hu. unfold remove_view, IsLeaseExpired, IsAllReplicasComplete.
  destruct (clean_view st (meta_of st k)) as [m|]; [|split; [split; [done|by intros (? & ? & _)]|done]].
  destruct (Z.leb_spec (lease_timeout m) now); cycle 1.
  { split; [|done]. split; [done|]. intros (m' & [= <-] & ? & _). lia. }
  destruct (forallb _ _) eqn:Ef; (split; [|done]); split; try done.
  - intros _. exists m. split_and!; try done. rewrite list.Forall_forall. rewrite forallb_forall in Ef. intros r Hin%list_elem_of_In.
    specialize (Ef r Hin). by apply bool_decide_eq_true in Ef.
  - intros (m' & [= <-] & _ & HF). rewrite <- not_true_iff_false in Ef. destruct Ef. apply forallb_forall.
    intros r Hin%list_elem_of_In. rewrite list.Forall_forall in HF. apply bool_decide_eq_true. by apply HF.
Qed.

(** C26: Bulk removal is exact: [RemoveByRegex] removes precisely the matching
    objects whose lease has run out and whose replicas are all complete,
    [RemoveAll] precisely those whose lease has run out, every other object
    stays as it is, and the answer is the number of objects removed. *)
Theorem bulk_removal_exact t st clock pattern now : reachable t st ->
  (match regex pattern with
   | None => RemoveByRegex iter regex clock pattern st = Some (inl INVALID_PARAMS, st)
   | Some f => exists n st', RemoveByRegex iter regex clock pattern st = Some (inr n, st') /\
       objects (metadata_shards_ st') = objects (metadata_shards_ st) - n /\
       forall k, meta_of st' k = match meta_of st k with
         | Some m => if f k && IsLeaseExpired (clock k) m && IsAllReplicasComplete m then None else Some m
         | None => None end
   end) /\
  (exists n st', RemoveAll iter now st = Some (n, st') /\
     objects (metadata_shards_ st') = objects (metadata_shards_ st) - n /\
     forall k, meta_of st' k = match meta_of st k with
       | Some m => if IsLeaseExpired now m then None else Some m | None => None end).
Proof using A BufferAllocator0 BufferAllocatorLaws0 H hash iter iter_perm regex lexically_normal cfg.
  intros Hr. pose proof (reach_own t st Hr) as HO.
  assert (Hgen : forall chosen : string -> Meta -> bool, exists n st', erase_shards iter (seq 0 kNumShards) chosen st = Some (n, st') /\
    objects (metadata_shards_ st') = objects (metadata_shards_ st) - n /\
    forall k, meta_of st' k = match meta_of st k with Some m => if chosen k m then None else Some m | None => None end).
  { intros chosen. destruct (erase_shards_ok hash iter iter_perm chosen (seq 0 kNumShards) [] st HO all_shards_nodup)
      as (n & st' & Hrun & HO' & _ & HS); [intros i; apply all_shards|].
    exists n, st'. split; [done|]. split.
    - rewrite <- (on_count _ _ _ HO'), <- (on_count _ _ _ HO). eapply erase_shards_count; [exact iter_perm|exact HO| | |exact Hrun].
      + apply all_shards_nodup.
      + intros i. apply all_shards.
    - intros k. pose proof (swept_all _ _ _ _ _ k (fun i => proj2 (all_shards i)) HS) as HR. unfold relates, erases in HR.
      by destruct (meta_of st k). }
  split.
  - unfold RemoveByRegex. destruct (regex pattern) as [f|]; [|done].
    destruct (Hgen (fun key m => f key && IsLeaseExpired (clock key) m && IsAllReplicasComplete m)) as (n & st' & Hrun & Hn & Hv).
    exists n, st'. by erewrite bind_Some by exact Hrun.
  - apply (Hgen (fun _ m => IsLeaseExpired now m)).
Qed.

(** C21: After a successful [UnmountSegment] the segment is no longer mounted
    and, if it was, every buffer of every object left in the store lies in a
    segment still mounted, and every such object still has a replica. *)
Theorem unmount_leaves_no_stale t st id c st' : reachable t st ->
  UnmountSegment iter id c st = Some (None, st') ->
  mounted_segments_ (segment_manager_ st') !! id = None /\
  (is_Some (mounted_segments_ (segment_manager_ st) !! id) -> forall k m, meta_of st' k = Some m ->
     replicas m <> [] /\ Forall (fun b => buf_allocator b ∈ allocators_ (segment_manager_ st')) (meta_buffers m)).
Proof using A BufferAllocator0 BufferAllocatorLaws0 H hash iter iter_perm regex lexically_normal cfg.
  intros Hr Hun. destruct (UnmountSegment_ok hash iter iter_perm [] st id c (reach_own t st Hr)) as (r & st1 & Hrun & HO1 & Hcase).
  rewrite Hun in Hrun. injection Hrun as <- <-. destruct Hcase as [Hm Hns]. split; [done|]. intros Hmounted k m Hk.
  destruct (Hns Hmounted k m Hk) as [Hne HF]. split; [done|]. unfold meta_buffers. apply List.Forall_concat, list.Forall_fmap.
  eapply list.Forall_impl; [exact HF|]. intros rep Hst. cbv beta in *. simpl. rewrite stale_alloc in Hst by apply HO1.
  apply list.Forall_forall. intros b Hb. rewrite <- not_true_iff_false, existsb_exists in Hst.
  destruct (decide (buf_allocator b ∈ allocators_ (segment_manager_ st'))) as [|Hno]; [done|]. destruct Hst. exists b.
  split; [by apply list_elem_of_In|]. by rewrite bool_decide_eq_false_2.
Qed.

Lemma dropped_view_disk m : dropped_view MEMORY m =
  (if decide (0 < obj_size m /\ filter (fun r => type r = DISK) (replicas m) <> [])
   then Some (set_replicas (filter (fun r => type r = DISK) (replicas m)) m) else None).
Proof.
  assert (E : filter (fun r : Replica H => type r <> MEMORY) (replicas m) = filter (fun r => type r = DISK) (replicas m)).
  { apply filter_iff_in. intros r _. by destruct (type r). }
  unfold dropped_view, EraseReplica, IsValid. rewrite E. cbn [replicas obj_size set_replicas].
  destruct (filter (fun r => type r = DISK) (replicas m)) as [|r l].
  { rewrite decide_False; [done|by intros [_ ?]]. }
  destruct (Z.ltb_spec 0 (obj_size m)); [by rewrite decide_True|rewrite decide_False; [done|]]. intros [? _]. lia.
Qed.

(** C20: Eviction is careful.  Whatever its ratios, [BatchEvict] ends, unless
    one of the quotas it may compute for at most the objects of the store is
    not a value of type long.  When it ends it has added no object, and an
    object it changed had no running lease, only complete memory replicas, and
    no soft pin unless the configuration allows evicting those; such an object
    is left with exactly its disk replicas, or is removed when it has none or
    is empty (size 0). *)
Theorem evict_respects_leases t st now start target lower : reachable t st ->
  match BatchEvict iter cfg now start target lower st with
  | None => quota_fails (objects (metadata_shards_ st)) target lower
  | Some (_, st') =>
      (forall k, meta_of st k = None -> meta_of st' k = None) /\
      (forall k m, meta_of st k = Some m -> meta_of st' k <> Some m ->
         lease_timeout m <= now /\ mem_complete m = true /\
         (IsSoftPinned now m = true -> allow_evict_soft_pinned_objects_ cfg = true) /\
         let disk := filter (fun r => type r = DISK) (replicas m) in
         meta_of st' k = if decide (0 < obj_size m /\ disk <> []) then Some (set_replicas disk m) else None)
  end.
Proof using A BufferAllocator0 BufferAllocatorLaws0 H hash iter iter_perm regex lexically_normal cfg.
  intros Hr. pose proof (BatchEvict_ok hash iter cfg iter_perm now start target lower [] st (reach_own t st Hr)) as Hs.
  unfold settles in Hs. destruct (BatchEvict _ _ _ _ _ _ _) as [[u st']|]; [|done]. destruct Hs as (_ & _ & HE).
  split; intros k; specialize (HE k); unfold relates in HE; [by intros E; rewrite E in HE|].
  intros m Hm Hch. rewrite Hm in HE. destruct HE as [?|[Hok Hv]]; [done|]. unfold may_evict, IsLeaseExpired in Hok.
  rewrite !andb_true_iff in Hok. destruct Hok as [[[Hl Hc] _] Hsp]. apply Z.leb_le in Hl. split; [done|]. split; [done|]. split.
  { intros Hp. by rewrite Hp in Hsp. }
  cbv zeta. by rewrite Hv, dropped_view_disk.
Qed.

(** ** Races the operations leave open *)

(** When every replica of a key is stale but its entry is still there
    (an unmount is between its phases), [PutStart] answers buffers without
    storing them: they are already back with their allocators, and the
    [PutEnd] that follows finds no object. *)
Theorem put_over_stale_is_lost t st rng k slices config ds st1 old now ty : reachable t st ->
  Forall (fun x => 0 <= x) slices -> meta_of st k = Some old -> fresh_replicas st old = [] ->
  PutStart hash lexically_normal cfg rng k slices config st = Some (inr ds, st1) ->
  (exists m, meta_of st1 k = Some m /\ replicas m = []) /\
  exists st2, PutEnd hash cfg now k ty st1 = Some (Some OBJECT_NOT_FOUND, st2) /\ meta_of st2 k = None.
Proof using A BufferAllocator0 BufferAllocatorLaws0 H hash iter iter_perm regex lexically_normal cfg.
  intros Hr HFs Hm Hfr Hput. pose proof (reach_own t st Hr) as HO.
  destruct (settles_done _ _ _ _ _ _ (PutStart_ok hash lexically_normal cfg [] st rng k slices config HO HFs) Hput)
    as (o & HO1 & Hf1 & [Hu1 _] & Hsp). inversion Hsp as [| | |? ? Hm'|old' ? Hm' _ Er Eo]; [congruence|].
  rewrite Hm in Hm'. injection Hm' as <-. rewrite <- Eo in Hu1.
  assert (Hempty : replicas (cleaned st old) = []) by exact Hfr. split; [by exists (cleaned st old)|].
  destruct (PutEnd_ok hash cfg [] st1 now k ty HO1) as (st2 & Hend & _ & _ & [Hu2 _]). exists st2.
  assert (Hv : clean_view st1 (meta_of st1 k) = None).
  { rewrite Hu1. simpl. unfold fresh_replicas at 1. by rewrite Hempty. }
  rewrite Hv in Hend, Hu2. done.
Qed.

(** [RemoveAll] drops an object whose upload is still running, at any time,
    where [Remove] refuses with REPLICA_IS_NOT_READY. *)
Theorem remove_all_drops_uploads t st rng k slices config ds st1 now : reachable t st ->
  Forall (fun x => 0 <= x) slices -> 0 <= replica_num config -> 0 <= now -> meta_of st k = None ->
  PutStart hash lexically_normal cfg rng k slices config st = Some (inr ds, st1) ->
  (exists n st2, RemoveAll iter now st1 = Some (n, st2) /\ meta_of st2 k = None) /\
  (exists st2, Remove hash now k st1 = Some (Some REPLICA_IS_NOT_READY, st2)).
Proof using A BufferAllocator0 BufferAllocatorLaws0 H hash iter iter_perm regex lexically_normal cfg.
  intros Hr HFs Hrep Hnow Hm Hput. pose proof (reach_own t st Hr) as HO.
  destruct (settles_done _ _ _ _ _ _ (PutStart_ok hash lexically_normal cfg [] st rng k slices config HO HFs) Hput)
    as (o & HO1 & Hf1 & [Hu1 _] & Hsp).
  inversion Hsp as [| | |total reps _ _ Hlen HF Er Eo|? ? Hm']; [|congruence].
  set (nm := new_metadata _ _ _) in Hu1.
  assert (Hlease : IsLeaseExpired now nm = true) by (by apply Z.leb_le).
  assert (Hreps : exists rep l, reps = rep :: l /\ status_ rep = PROCESSING).
  { destruct reps as [|rep l]; [|apply list.Forall_cons in HF as [(bs & -> & _) _]; by do 2 eexists].
    unfold PutStart in Hput. fold (put_invalid k slices config) in Hput. unfold put_invalid in Hput. simpl in Hlen.
    destruct (Z.eqb_spec (replica_num config) 0); [done|lia]. }
  destruct Hreps as (rep & l & -> & Hpr). split.
  - destruct (erase_shards_ok hash iter iter_perm (fun _ m => IsLeaseExpired now m) (seq 0 kNumShards) [] st1 HO1 all_shards_nodup)
      as (n & st2 & Hrun & _ & _ & HS); [intros i; apply all_shards|].
    exists n, st2. split; [exact Hrun|]. pose proof (swept_all _ _ _ _ _ k (fun i => proj2 (all_shards i)) HS) as HR.
    rewrite Hu1 in HR. unfold relates, erases in HR. by rewrite Hlease in HR.
  - destruct (Remove_ok hash [] st1 now k HO1) as (st2 & Hrem & _). exists st2. rewrite Hrem, Hu1.
    assert (Hint : intact st1 nm).
    { apply (intact_segments st); [by apply frame_segments|]. split; [simpl; unfold with_disk; by destruct (use_disk_replica_ cfg)|].
      simpl. unfold with_disk. assert (Forall (fun r => stale st r = false) (rep :: l)).
      { eapply list.Forall_impl; [exact HF|]. intros r. by apply fresh_stale, HO. }
      destruct (use_disk_replica_ cfg); [|done]. apply list.Forall_app. by split; [|constructor]. }
    rewrite (intact_clean st1 nm Hint). unfold remove_view. rewrite Hlease. simpl.
    assert (IsAllReplicasComplete nm = false) as ->; [|done].
    unfold IsAllReplicasComplete, nm. simpl. unfold with_disk. destruct (use_disk_replica_ cfg); simpl; by rewrite Hpr.
Qed.

End props.


(** ** A concrete service *)

Import OffsetBuffer.

Abbreviation OBA := OffsetBufferAllocator.
Abbreviation OBH := Wrapper.Handle.

Definition hash0 (k : string) : Z := Z.of_nat (String.length k).
Definition iter0 (sh : gmap string (ObjectMetadata OBH)) : list (string * ObjectMetadata OBH) := map_to_list sh.
Definition regex0 (p : string) : option (string -> bool) := if String.eqb p "(" then None else Some (String.prefix p).
Definition path0 (p : string) : string := p.
Definition cfg0 : Config :=
  mkConfig' false 5000 10000 false (Dbl.div (Dbl.of_Z 1) (Dbl.of_Z 10)) Dbl.one 0 10 false "c" "".
Definition seg0 : Segment := mkSegment (1, 1) "s0" 1048576 1048576.
Definition seg1 : Segment := mkSegment (2, 2) "s1" 4194304 1048576.
Definition client0 : UUID := (7, 7).
Definition rng0 : nat -> nat -> nat -> nat := fun _ _ _ => 0%nat.
Definition one_copy : ReplicateConfig := mkConfig 1 false "".

Lemma iter0_perm sh : iter0 sh ≡ₚ map_to_list sh.
Proof. done. Qed.

Abbreviation run_demo := (run_all hash0 iter0 regex0 path0 cfg0).
Abbreviation reach_demo := (reachable hash0 iter0 regex0 path0 cfg0 OFFSET).

Definition fresh0 : Master OBA OBH := new_master OFFSET.
Definition after (ops : list Op) : Master OBA OBH := default fresh0 (run_demo ops fresh0).

Lemma after_reachable ops : forallb op_static ops = true -> reach_demo (after ops).
Proof.
  intros Hs. unfold after. destruct (run_demo ops fresh0) as [st|] eqn:E; [|apply reach_new].
  by eapply run_all_reachable; [|apply reach_new|exact E].
Qed.

(** A segment with one complete object, read at time 20. *)
Definition demo_ops : list Op :=
  [OpMountSegment true seg0 client0; OpPutStart rng0 "k" [100; 200] one_copy; OpPutEnd 10 "k" MEMORY; OpExistKey 20 "k"].
Definition demo : Master OBA OBH := after demo_ops.
Definition empty0 : Master OBA OBH := after [OpMountSegment true seg0 client0].
Definition demo_meta : ObjectMetadata OBH := default (new_metadata 0 [] false) (meta_of hash0 demo "k").

Lemma master_demo_reachable : reach_demo demo.
Proof. by apply after_reachable. Qed.

Lemma empty0_reachable : reach_demo empty0.
Proof. by apply after_reachable. Qed.

Lemma demo_has : meta_of hash0 demo "k" = Some demo_meta.
Proof. vm_compute. reflexivity. Qed.

Definition intactb {A H} (st : Master A H) (m : ObjectMetadata H) : bool :=
  match replicas m with [] => false | rs => forallb (fun r => negb (stale st r)) rs end.

Lemma intactb_ok {A H} (st : Master A H) (m : ObjectMetadata H) : intactb st m = true -> intact st m.
Proof.
  unfold intactb, intact. destruct (replicas m) as [|r rs]; [done|]. rewrite forallb_forall. intros Hf. split; [done|].
  apply list.Forall_forall. intros x Hx. apply list_elem_of_In in Hx. specialize (Hf x Hx). by destruct (stale st x).
Qed.

Lemma demo_intact : intact demo demo_meta.
Proof. apply intactb_ok. vm_compute. reflexivity. Qed.

(** A run whose answer passes a test. *)
Lemma ran {S X} (c : ST S X) (check : X -> bool) s :
  match c s with Some (x, _) => check x | None => false end = true -> exists x s', c s = Some (x, s') /\ check x = true.
Proof. destruct (c s) as [[x s']|]; [|done]. by exists x, s'. Qed.


Definition demo_buffers : list (AllocatedBuffer OBH) := all_buffers (metadata_shards_ demo).
Definition no_buffer : AllocatedBuffer OBH := mkBuffer 0 "" BUF_INIT 0 0 (Wrapper.mkHandle false OffsetAlloc.Alloc.noSpace 0 0).

Lemma store_buffers_disjoint_witness : exists a, heap (segment_manager_ demo) !! buf_allocator (nth 0 demo_buffers no_buffer) = Some a /\
  in_segment a (nth 0 demo_buffers no_buffer) /\ in_segment a (nth 1 demo_buffers no_buffer) /\
  apart (nth 0 demo_buffers no_buffer) (nth 1 demo_buffers no_buffer).
Proof.
  apply (store_buffers_disjoint hash0 iter0 regex0 path0 cfg0 iter0_perm OFFSET demo 0 1); [exact master_demo_reachable|done|..].
  - vm_compute. reflexivity.
  - vm_compute. reflexivity.
  - vm_compute. reflexivity.
  - apply list_elem_of_In. vm_compute. left. reflexivity.
Defined.

Lemma store_accounting_witness : allocated_size (segment_manager_ demo) = bytes (all_buffers (metadata_shards_ demo)).
Proof.
  exact (proj1 (proj2 (proj2 (proj2 (store_accounting hash0 iter0 regex0 path0 cfg0 iter0_perm OFFSET demo master_demo_reachable))))).
Defined.

Lemma lease_protects_witness : exists st', run hash0 iter0 regex0 path0 cfg0 (OpRemoveAll 4999999999) demo = Some (tt, st') /\
  meta_of hash0 st' "k" = Some demo_meta.
Proof.
  destruct (run_plain hash0 iter0 regex0 path0 cfg0 iter0_perm (OpRemoveAll 4999999999) demo) as (st' & Hrun & _); [|exact I|].
  { exact (reach_own hash0 iter0 regex0 path0 cfg0 iter0_perm OFFSET demo master_demo_reachable). }
  exists st'. split; [exact Hrun|].
  apply (lease_protects hash0 iter0 regex0 path0 cfg0 iter0_perm OFFSET demo (OpRemoveAll 4999999999));
    [exact master_demo_reachable|exact I|exact demo_has|exact demo_intact| |exact Hrun].
  intros now ->. vm_compute. reflexivity.
Defined.

Definition is_inr {X Y} (r : X + Y) : bool := match r with inr _ => true | inl _ => false end.

Lemma read_holds_object_witness : exists st1 st2, Remove hash0 4000000000 "k" st1 = Some (Some OBJECT_HAS_LEASE, st2).
Proof.
  destruct (ran (GetReplicaList hash0 cfg0 true 30 "k") is_inr demo) as (r & st1 & Hrun & Hr); [vm_compute; reflexivity|].
  destruct r as [e|ds]; [discriminate Hr|].
  destruct (read_holds_object hash0 iter0 regex0 path0 cfg0 iter0_perm OFFSET demo true 30 "k" ds st1 4000000000
    master_demo_reachable eq_refl Hrun eq_refl) as (st2 & m & Hrem & _).
  exists st1, st2. exact Hrem.
Defined.

Lemma put_roundtrip_witness : exists ds st1 st2 st3 ds',
  PutStart hash0 path0 cfg0 rng0 "k" [100; 200] one_copy empty0 = Some (inr ds, st1) /\
  PutEnd hash0 cfg0 10 "k" MEMORY st1 = Some (None, st2) /\ GetReplicaList hash0 cfg0 true 20 "k" st2 = Some (inr ds', st3) /\
  Z.of_nat (length ds') = 1.
Proof.
  destruct (ran (PutStart hash0 path0 cfg0 rng0 "k" [100; 200] one_copy) is_inr empty0) as (r & st1 & Hrun & Hr);
    [vm_compute; reflexivity|]. destruct r as [e|ds]; [discriminate Hr|].
  destruct (put_roundtrip hash0 iter0 regex0 path0 cfg0 iter0_perm OFFSET empty0 rng0 "k" [100; 200] one_copy ds st1 10 true 20
    empty0_reachable) as (st2 & st3 & ds' & H1 & H2 & _ & _ & H3); [repeat constructor; discriminate|discriminate| |exact Hrun|].
  - vm_compute. reflexivity.
  - exists ds, st1, st2, st3, ds'. split; [exact Hrun|]. split; [exact H1|]. split; [exact H2|exact H3].
Defined.

Lemma put_never_overwrites_witness : exists st',
  PutStart hash0 path0 cfg0 rng0 "k" [7] one_copy demo = Some (inl OBJECT_ALREADY_EXISTS, st') /\
  meta_of hash0 st' "k" = Some demo_meta.
Proof.
  destruct (put_never_overwrites hash0 iter0 regex0 path0 cfg0 iter0_perm OFFSET demo rng0 "k" [7] one_copy demo_meta
    master_demo_reachable) as (st' & Hrun & Hm & _); [repeat constructor; discriminate|reflexivity|eexists; vm_compute; reflexivity| |].
  - rewrite demo_has. exact (intact_clean demo demo_meta demo_intact).
  - exists st'. split; [exact Hrun|exact Hm].
Defined.

Lemma empty0_no_stale : no_stale hash0 empty0.
Proof.
  intros k m Hm. exfalso. assert (Hc : key_count (gauges empty0) = 0) by (vm_compute; reflexivity).
  pose proof (reach_own hash0 iter0 regex0 path0 cfg0 iter0_perm OFFSET empty0 empty0_reachable) as HO.
  destruct (erase_meta_ok hash0 [] empty0 k m HO Hm) as (st' & Hrun & HO' & _).
  pose proof (erase_meta_count hash0 [] empty0 k m st' HO Hm Hrun) as Hd. rewrite Hc, (on_count _ _ _ HO') in Hd.
  assert (Hpos : 0 <= objects (metadata_shards_ st')); [|lia].
  clear. unfold objects. induction (metadata_shards_ st') as [|sh l IH]; simpl; lia.
Qed.

Definition is_inl {X Y} (r : X + Y) : bool := match r with inl _ => true | inr _ => false end.

Lemma put_failure_leaks_nothing_witness : exists e st',
  PutStart hash0 path0 cfg0 rng0 "k" [600000; 600000] one_copy empty0 = Some (inl e, st') /\
  metadata_shards_ st' = metadata_shards_ empty0 /\ allocated_size (segment_manager_ st') = allocated_size (segment_manager_ empty0).
Proof.
  destruct (ran (PutStart hash0 path0 cfg0 rng0 "k" [600000; 600000] one_copy) is_inl empty0) as (r & st' & Hrun & Hr);
    [vm_compute; reflexivity|]. destruct r as [e|ds]; [|discriminate Hr].
  destruct (put_failure_leaks_nothing hash0 iter0 regex0 path0 cfg0 iter0_perm OFFSET empty0 rng0 "k" [600000; 600000] one_copy e st'
    empty0_reachable) as (H1 & H2 & _); [repeat constructor; discriminate|exact empty0_no_stale|exact Hrun|].
  exists e, st'. split; [exact Hrun|]. split; [exact H1|exact H2].
Defined.

Lemma remove_exact_witness : exists e st', Remove hash0 6000000000 "k" demo = Some (e, st') /\
  meta_of hash0 st' "k" = (if decide (e = None) then None else clean_view demo (meta_of hash0 demo "k")).
Proof.
  destruct (remove_exact hash0 iter0 regex0 path0 cfg0 iter0_perm OFFSET demo 6000000000 "k" master_demo_reachable)
    as (e & st' & H1 & _ & H2 & _).
  exists e, st'. split; [exact H1|exact H2].
Defined.

Lemma bulk_removal_exact_witness : RemoveByRegex iter0 regex0 (fun _ => 0) "(" demo = Some (inl INVALID_PARAMS, demo) /\
  exists n st', RemoveAll iter0 6000000000 demo = Some (n, st') /\ meta_of hash0 st' "k" = None.
Proof.
  destruct (bulk_removal_exact hash0 iter0 regex0 path0 cfg0 iter0_perm OFFSET demo (fun _ => 0) "(" 6000000000 master_demo_reachable)
    as [H1 (n & st' & H2 & _ & H3)].
  split; [exact H1|]. exists n, st'. split; [exact H2|]. rewrite (H3 "k"), demo_has. vm_compute. reflexivity.
Defined.

Lemma unmount_leaves_no_stale_witness : exists st', UnmountSegment iter0 (1, 1) client0 demo = Some (None, st') /\
  mounted_segments_ (segment_manager_ st') !! (1, 1) = None.
Proof.
  destruct (ran (UnmountSegment iter0 (1, 1) client0) (fun r => match r with None => true | Some _ => false end) demo)
    as (r & st' & Hrun & Hr); [vm_compute; reflexivity|]. destruct r as [e|]; [discriminate Hr|].
  exists st'. split; [exact Hrun|].
  exact (proj1 (unmount_leaves_no_stale hash0 iter0 regex0 path0 cfg0 iter0_perm OFFSET demo (1, 1) client0 st' master_demo_reachable Hrun)).
Defined.

(** A store with a directory: an object with a replica in memory and one on
    disk, whose lease is over. *)
Definition cfg_disk : Config :=
  mkConfig' false 5000 10000 false (Dbl.div (Dbl.of_Z 1) (Dbl.of_Z 10)) Dbl.one 0 10 false "c" "/d".
Definition expired : Master OBA OBH := default fresh0 (run_all hash0 iter0 regex0 path0 cfg_disk
  [OpMountSegment true seg0 client0; OpPutStart rng0 "k" [100; 200] one_copy; OpPutEnd 10 "k" MEMORY] fresh0).
Definition expired_meta : ObjectMetadata OBH := default (new_metadata 0 [] false) (meta_of hash0 expired "k").
Definition disk_of (m : ObjectMetadata OBH) : list (Replica OBH) := filter (fun r => type r = DISK) (replicas m).

Lemma expired_reachable : reachable hash0 iter0 regex0 path0 cfg_disk OFFSET expired.
Proof.
  unfold expired. destruct (run_all _ _ _ _ _ _ fresh0) as [st|] eqn:E; [|apply reach_new].
  eapply run_all_reachable; [|apply reach_new|exact E]. done.
Qed.

Lemma evict_respects_leases_witness : exists st', BatchEvict iter0 cfg_disk 6000000000 3 Dbl.one Dbl.half expired = Some (tt, st') /\
  length (replicas expired_meta) = 2%nat /\ lease_timeout expired_meta <= 6000000000 /\
  meta_of hash0 st' "k" = Some (set_replicas (disk_of expired_meta) expired_meta) /\ length (disk_of expired_meta) = 1%nat.
Proof.
  pose proof (evict_respects_leases hash0 iter0 regex0 path0 cfg_disk iter0_perm OFFSET expired 6000000000 3 Dbl.one Dbl.half
    expired_reachable) as Hs.
  assert (Hb : match BatchEvict iter0 cfg_disk 6000000000 3 Dbl.one Dbl.half expired with
    | Some (_, st') => match meta_of hash0 st' "k" with Some m => length (replicas m) =? 1 | None => false end%nat
    | None => false end = true) by (vm_compute; reflexivity).
  destruct (BatchEvict iter0 cfg_disk 6000000000 3 Dbl.one Dbl.half expired) as [[[] st']|]; [|discriminate Hb].
  exists st'. split; [reflexivity|]. destruct Hs as [_ Hs].
  assert (Hm : meta_of hash0 expired "k" = Some expired_meta) by (vm_compute; reflexivity).
  assert (Hlen : length (replicas expired_meta) = 2%nat) by (vm_compute; reflexivity).
  destruct (Hs "k"%string expired_meta Hm) as (Hl & _ & _ & Hd).
  { intros E. rewrite E, Hlen in Hb. discriminate Hb. }
  assert (Hdisk : length (disk_of expired_meta) = 1%nat) by (vm_compute; reflexivity).
  assert (Hpos : (0 <? obj_size expired_meta) = true) by (vm_compute; reflexivity). apply Z.ltb_lt in Hpos.
  split; [exact Hlen|]. split; [exact Hl|]. split; [|exact Hdisk]. rewrite Hd. fold (disk_of expired_meta).
  rewrite decide_True; [reflexivity|]. split; [exact Hpos|]. intros E. rewrite E in Hdisk. discriminate Hdisk.
Defined.

(** Between the phases of an unmount: the object's only replica is stale. *)
Definition torn : Master OBA OBH := after
  [OpMountSegment true seg0 client0; OpMountSegment true seg1 client0;
   OpPutStart rng0 "k" [100] (mkConfig 1 false "s0"); OpPutEnd 10 "k" MEMORY; OpPrepareUnmount (1, 1)].
Definition torn_meta : ObjectMetadata OBH := default (new_metadata 0 [] false) (meta_of hash0 torn "k").

Lemma put_over_stale_is_lost_witness : exists ds st1 st2,
  PutStart hash0 path0 cfg0 rng0 "k" [100] one_copy torn = Some (inr ds, st1) /\
  PutEnd hash0 cfg0 50 "k" MEMORY st1 = Some (Some OBJECT_NOT_FOUND, st2).
Proof.
  destruct (ran (PutStart hash0 path0 cfg0 rng0 "k" [100] one_copy) is_inr torn) as (r & st1 & Hrun & Hr);
    [vm_compute; reflexivity|]. destruct r as [e|ds]; [discriminate Hr|].
  destruct (put_over_stale_is_lost hash0 iter0 regex0 path0 cfg0 iter0_perm OFFSET torn rng0 "k" [100] one_copy ds st1 torn_meta 50 MEMORY)
    as (_ & st2 & Hend & _); [by apply after_reachable|repeat constructor; discriminate| | |exact Hrun|].
  - vm_compute. reflexivity.
  - vm_compute. reflexivity.
  - exists ds, st1, st2. split; [exact Hrun|exact Hend].
Defined.

Lemma remove_all_drops_uploads_witness : exists ds st1 n st2,
  PutStart hash0 path0 cfg0 rng0 "k" [100] one_copy empty0 = Some (inr ds, st1) /\
  RemoveAll iter0 5 st1 = Some (n, st2) /\ meta_of hash0 st2 "k" = None.
Proof.
  destruct (ran (PutStart hash0 path0 cfg0 rng0 "k" [100] one_copy) is_inr empty0) as (r & st1 & Hrun & Hr);
    [vm_compute; reflexivity|]. destruct r as [e|ds]; [discriminate Hr|].
  destruct (remove_all_drops_uploads hash0 iter0 regex0 path0 cfg0 iter0_perm OFFSET empty0 rng0 "k" [100] one_copy ds st1 5)
    as ((n & st2 & Hrem & Hm) & _); [exact empty0_reachable|repeat constructor; discriminate|discriminate|discriminate| |exact Hrun|].
  - vm_compute. reflexivity.
  - exists ds, st1, n, st2. split; [exact Hrun|]. split; [exact Hrem|exact Hm].
Defined.

(** ** Disk paths *)

(** A sanitised key has no path separator and no other character the
    filesystem reserves, keeps its length, and is its own sanitised form. *)
Theorem SanitizeKey_safe key :
  Forall (fun c => c ∉ kInvalidChars) (String.list_ascii_of_string (SanitizeKey key)) /\
  String.length (SanitizeKey key) = String.length key /\ SanitizeKey (SanitizeKey key) = SanitizeKey key.
Proof.
  induction key as [|c key (IH1 & IH2 & IH3)]; [done|]. simpl. destruct (decide (c ∈ kInvalidChars)) as [Hc|Hc].
  - assert (Hu : ("_"%char) ∉ kInvalidChars) by (intros Hin%list_elem_of_In; simpl in Hin; naive_solver).
    rewrite decide_False by done. split; [by constructor|]. by rewrite IH2, IH3.
  - rewrite decide_False by done. split; [by constructor|]. by rewrite IH2, IH3.
Qed.

(** Two keys whose sanitised forms agree share one file as soon as the
    low eight bits of their hashes do. *)
Theorem disk_paths_collide (hash : string -> Z) (lexically_normal : string -> string) (cfg : Config) k1 k2 :
  SanitizeKey k1 = SanitizeKey k2 -> Z.land (hash k1) 255 = Z.land (hash k2) 255 ->
  ResolvePath hash lexically_normal cfg k1 = ResolvePath hash lexically_normal cfg k2.
Proof.
  intros Hs Hh. unfold ResolvePath.
  assert (Hlow : forall h, Z.land h 15 = Z.land (Z.land h 255) 15) by (intros; by rewrite <- Z.land_assoc).
  assert (Hhigh : forall h, Z.land (Z.shiftr h 4) 15 = Z.shiftr (Z.land h 255) 4)
    by (intros; by rewrite Z.shiftr_land).
  by rewrite (Hlow (hash k1)), (Hlow (hash k2)), !Hhigh, Hh, Hs.
Qed.

Lemma disk_paths_collide_witness : ResolvePath hash0 path0 cfg0 "a/b" = ResolvePath hash0 path0 cfg0 "a:b".
Proof. apply (disk_paths_collide hash0 path0 cfg0 "a/b" "a:b"); vm_compute; reflexivity. Defined.


End MProps.
