(* ===== verification/StoreProps.v ===== *)
(** * StoreProps: properties of the parts below the master

    Error codes, the segment manager, the allocation strategy over it and the
    eviction strategies. *)

From Stdlib Require Import ZArith Lia.
From stdpp Require Import base list gmap strings numbers relations.
From S2P Require Import Prelude Types OffsetWrapper BufAlloc Segment SegmentProofs Strategy Eviction.
Import Types Seg SegProofs Strategy.

Open Scope moon_scope.
Open Scope Z_scope.

Module StoreProps.

(** The numeric error codes are a faithful encoding: [fromInt] inverts
    [toInt] and answers a code only for that code's own number. *)
Theorem error_code_roundtrip e z : fromInt (toInt e) = Some e /\ (fromInt z = Some e <-> z = toInt e).
Proof. split; [apply fromInt_toInt|]. split; [intros Hz; symmetry; by apply fromInt_Some|intros ->; apply fromInt_toInt]. Qed.

Section segments.
Context {A H : Type} `{!BufferAllocator A H} `{!BufferAllocatorLaws A H}.
Implicit Types (s : SegmentManager A).

Lemma steps_inv t s : rtc sstep (empty_manager t) s -> SegInv s.
Proof using A BufferAllocator0 BufferAllocatorLaws0 H.
  intros Hr. assert (Hgen : forall s0, SegInv s0 -> rtc sstep s0 s -> SegInv s).
  { intros s0 HI Hs. clear Hr. revert HI. induction Hs as [|s1 s2 s3 Hs _ IH]; intros HI; [done|]. apply IH. by eapply sstep_inv. }
  eapply Hgen; [apply SegInv_empty|exact Hr].
Qed.

(** C34: After any sequence of mounts, remounts and unmount phases the five
    containers of the segment manager agree: no allocator is listed twice,
    every listed allocator belongs to exactly one mounted segment and is
    found under its name, a segment without allocator is being unmounted,
    every mounted segment has an owner, the capacity gauge is their sum, and a
    weak pointer to an allocator is alive exactly while it is listed. *)
Theorem segments_consistent t s : rtc sstep (empty_manager t) s -> SegInv s /\ forall i, alive s i = true <-> i ∈ allocators_ s.
Proof using A BufferAllocator0 BufferAllocatorLaws0 H.
  intros Hr. pose proof (steps_inv t s Hr) as HI. split; [done|]. intros i. by apply alive_iff.
Qed.

(** [MountSegment] on a range of addresses always ends, and its answer is
    the one its checks give: INVALID_PARAMS for a null or misaligned range or
    one the allocator refuses, SEGMENT_ALREADY_EXISTS for a mounted id,
    UNAVAILABLE_IN_CURRENT_STATUS for one being unmounted, and OK with the
    segment registered in every container otherwise. *)
Theorem mount_answers s segment c : wf_segment segment ->
  exists e s', MountSegment segment c s = Some (e, s') /\ mount_spec segment c s e s'.
Proof using A BufferAllocator0 BufferAllocatorLaws0 H.
  apply mount_ok.
Qed.

(** Mounting a segment and unmounting it in its two phases restores every
    container of the segment manager and the capacity gauge. *)
Theorem mount_unmount_restores t s g c s1 : rtc sstep (empty_manager t) s -> wf_segment g ->
  seg_id g ∉ default [] (client_segments_ s !! c) -> (forall l, client_segments_ s !! c = Some l -> l <> []) ->
  MountSegment g c s = Some (OK, s1) ->
  exists s2 s3, PrepareUnmountSegment (seg_id g) s1 = Some ((OK, seg_size g), s2) /\
    CommitUnmountSegment (seg_id g) c (seg_size g) s2 = Some (OK, s3) /\
    allocators_ s3 = allocators_ s /\ allocators_by_name_ s3 = allocators_by_name_ s /\
    mounted_segments_ s3 = mounted_segments_ s /\ client_segments_ s3 = client_segments_ s /\
    total_capacity s3 = total_capacity s.
Proof using A BufferAllocator0 BufferAllocatorLaws0 H.
  intros Hr. apply mount_unmount. by eapply steps_inv.
Qed.

(** Whatever the random draws, when [Allocate] ends either every allocator
    keeps its outstanding buffers and the gauge its value, or one allocator in
    use has exactly one more buffer, of the requested size, and the gauge grows
    by it; it ends whenever at most one allocator is in use. *)
Theorem strategy_allocates rng size config s outs : SegInv s -> HeapInv s outs -> 0 <= size <= kMaxSliceSize ->
  match Allocate rng size config s with
  | None => (2 <= length (allocators_ s))%nat
  | Some (r, s') => same_containers s s' /\
      match r with
      | None => HeapInv s' outs /\ allocated_size s' = allocated_size s
      | Some b => buf_allocator b ∈ allocators_ s /\ size_ b = size /\ buf_status b = BUF_INIT /\
          HeapInv s' (add_out b outs) /\ allocated_size s' = allocated_size s + size /\ named s' b
      end
  end.
Proof.
  intros HI HH Hs. pose proof (Allocate_ok rng size config s outs HI HH Hs) as Hset. unfold settles in Hset.
  by destruct (Allocate _ _ _ _) as [[r s']|].
Qed.

End segments.

(** ** Concrete segments *)

Import OffsetBuffer.

Definition seg_a : Segment := mkSegment (1, 1) "a" 4096 1024.
Definition seg_b : Segment := mkSegment (2, 2) "b" 1048576 1048576.
Definition seg_c : Segment := mkSegment (3, 3) "c" 8192 1024.
Definition owner : UUID := (9, 9).

Definition mount1 (g : Segment) (s : SegmentManager OffsetBufferAllocator) : SegmentManager OffsetBufferAllocator :=
  match MountSegment g owner s with Some (_, s') => s' | None => s end.
Definition none0 : SegmentManager OffsetBufferAllocator := empty_manager OFFSET.
Definition three0 : SegmentManager OffsetBufferAllocator := mount1 seg_c (mount1 seg_b (mount1 seg_a none0)).

Lemma mount1_step g s : wf_segment g -> rtc sstep s (mount1 g s).
Proof.
  intros Hg. unfold mount1. destruct (MountSegment g owner s) as [[e s']|] eqn:E; [|apply rtc_refl].
  apply rtc_once. by eapply sstep_mount.
Qed.

Lemma wf_a : wf_segment seg_a. Proof. by split_and!. Qed.
Lemma wf_b : wf_segment seg_b. Proof. by split_and!. Qed.
Lemma wf_c : wf_segment seg_c. Proof. by split_and!. Qed.

Lemma three0_reachable : rtc sstep (empty_manager OFFSET) three0.
Proof.
  transitivity (mount1 seg_a none0); [apply mount1_step, wf_a|].
  transitivity (mount1 seg_b (mount1 seg_a none0)); [apply mount1_step, wf_b|apply mount1_step, wf_c].
Qed.

Lemma segments_consistent_witness : SegInv three0.
Proof. exact (proj1 (segments_consistent OFFSET three0 three0_reachable)). Defined.

Lemma mount_answers_witness : exists e s', MountSegment seg_a owner none0 = Some (e, s') /\ mount_spec seg_a owner none0 e s'.
Proof. exact (mount_answers none0 seg_a owner wf_a). Defined.

Definition is_ok (e : ErrorCode) : bool := match e with OK => true | _ => false end.

Lemma mount_unmount_restores_witness : exists s1 s2 s3, MountSegment seg_a owner none0 = Some (OK, s1) /\
  PrepareUnmountSegment (seg_id seg_a) s1 = Some ((OK, seg_size seg_a), s2) /\
  CommitUnmountSegment (seg_id seg_a) owner (seg_size seg_a) s2 = Some (OK, s3) /\ mounted_segments_ s3 = mounted_segments_ none0.
Proof.
  assert (Hm : exists s1, MountSegment seg_a owner none0 = Some (OK, s1)).
  { assert (Hb : match MountSegment seg_a owner none0 with Some (e, _) => is_ok e | None => false end = true) by (vm_compute; reflexivity).
    destruct (MountSegment seg_a owner none0) as [[[] s1]|]; try discriminate Hb. by exists s1. }
  destruct Hm as [s1 Hm]. exists s1.
  destruct (mount_unmount_restores OFFSET none0 seg_a owner s1 (rtc_refl _ _) wf_a) as (s2 & s3 & H1 & H2 & _ & _ & H3 & _);
    [apply not_elem_of_nil|discriminate|exact Hm|].
  exists s2, s3. split; [exact Hm|]. split; [exact H1|]. split; [exact H2|exact H3].
Defined.

Lemma strategy_allocates_witness : exists r s', Allocate (fun _ => 0%nat) 100 (mkConfig 1 false "") none0 = Some (r, s').
Proof.
  pose proof (strategy_allocates (fun _ => 0%nat) 100 (mkConfig 1 false "") none0 (fun _ => []) (SegInv_empty OFFSET)) as Hs.
  destruct (Allocate (fun _ => 0%nat) 100 (mkConfig 1 false "") none0) as [[r s']|]; [by exists r, s'|].
  exfalso. assert (Hbad : (2 <= 0)%nat); [|lia]. apply Hs.
  - intros i Hi. apply not_elem_of_nil in Hi. destruct Hi.
  - split; discriminate.
Defined.

(** The random search subscripts its vector of indices with the drawn
    allocator instead of its position: with three segments of which only the
    second has room, draws exist for which the second attempt leaves the
    vector, while the allocator with room has not been asked. *)
Theorem random_search_undefined :
  TryRandomAllocate (H := Wrapper.Handle) (fun _ => 0%nat) (allocators_ three0) 100000 three0 = None /\
  (exists b s', alloc_from (H := Wrapper.Handle) 1 100000 three0 = Some (Some b, s')) /\ 1%nat ∈ allocators_ three0.
Proof.
  split; [vm_compute; reflexivity|split].
  - assert (Hb : match alloc_from (H := Wrapper.Handle) 1 100000 three0 with Some (Some _, _) => true | _ => false end = true)
      by (vm_compute; reflexivity).
    destruct (alloc_from _ _ _) as [[[b|] s']|]; try discriminate Hb. by exists b, s'.
  - apply list_elem_of_In. vm_compute. right. left. reflexivity.
Qed.

(** ** Eviction strategies *)

Import Eviction.

(** The LRU strategy refines a recency list: for any sequence of
    operations it never dereferences a dead list iterator, keeps the index
    exactly the list, and answers what a list of distinct keys ordered by
    last use answers. *)
Theorem lru_refines os : exists rs s', run lru_do os empty_strategy = Some (rs, s') /\ LInv s' /\
  abs_run abs_lru os [] = (rs, keys s').
Proof. exact (lru_run_ok os empty_strategy LInv_empty). Qed.

(** The FIFO strategy refines a queue in which removing a key does
    nothing: for any sequence of operations its answers are those of a queue
    that ignores removals, so a removed key is still evicted. *)
Theorem fifo_refines os : exists rs s', run fifo_do os empty_strategy = Some (rs, s') /\
  abs_run abs_fifo os [] = (rs, keys s') /\
  run fifo_do [EAdd "k"; ERemove "k"; EEvict] empty_strategy = Some ([""; ""; "k"]%string, mkStrategy [] ∅ 1).
Proof.
  destruct (fifo_run_ok os empty_strategy eq_refl) as (rs & s' & Hrun & _ & Habs). by exists rs, s'.
Qed.

End StoreProps.
