(* ===== verification/StoreCachelib.v ===== *)
(** * StoreCachelib: the store over CacheLib segments

    The segment manager and the master service with [CachelibBufferAllocator]
    in the place of the buffer allocator; the theorems on them hold of it as
    of every allocator that keeps the contract. *)

From Stdlib Require Import ZArith Lia SpecFloat Ascii.
From stdpp Require Import base list gmap strings numbers.
From S2P Require Import Prelude Types Double Slab SlabInv SlabMemory BufAlloc SlabBuffer Segment SegmentProofs Strategy Master MasterOwn MasterSys MasterProps.
Import Types SlabFacts CachelibBuffer Seg SegProofs Strategy Master Own MSys MFacts MProps.

Open Scope moon_scope.
Open Scope Z_scope.

Module StoreCachelib.

Abbreviation Manager := (SegmentManager CachelibBufferAllocator).

Lemma kSize_Slab : Slab.kSize = Slab_kSize.
Proof. reflexivity. Qed.

(** a segment is mounted for CacheLib exactly when its range is not null, is
    aligned to slabs and has fewer than 2^32 of them, and its id is new; the allocator it gets covers it. Otherwise the
    answer tells why and nothing changes. *)
Theorem cachelib_mount_exact (s : Manager) segment client : wf_segment segment -> Seg.memory_allocator_ s = CACHELIB ->
  let aligned := negb (seg_base segment =? 0) && negb (seg_size segment =? 0) &&
    (seg_base segment mod Slab_kSize =? 0) && (seg_size segment mod Slab_kSize =? 0) in
  match mounted_segments_ s !! seg_id segment with
  | Some ms =>
      MountSegment segment client s =
        Some (if aligned then if decide (ms_status ms = SEG_OK) then SEGMENT_ALREADY_EXISTS else UNAVAILABLE_IN_CURRENT_STATUS
              else INVALID_PARAMS, s)
  | None =>
      if aligned && (seg_size segment <? 2 ^ 32 * Slab_kSize) then
        exists a, MountSegment segment client s = Some (OK, add_segment segment client a s) /\
          cb_base a = seg_base segment /\ cb_total_size a = seg_size segment /\ cb_segment_name a = seg_name segment
      else MountSegment segment client s = Some (INVALID_PARAMS, s)
  end.
Proof.
  intros (Hb & Hz & He) Ht aligned. unfold MountSegment.
  destruct (Z.eqb_spec (seg_base segment) 0) as [Eb|Hb0]; [by destruct (mounted_segments_ s !! _)|].
  destruct (Z.eqb_spec (seg_size segment) 0) as [Ez|Hz0]; [by destruct (mounted_segments_ s !! _)|].
  cbn [orb]. rewrite bind_gets, Ht. unfold aligned. clear aligned. cbn [bool_decide decide decide_rel].
  assert (bool_decide (CACHELIB = CACHELIB) = true) as -> by (by apply bool_decide_eq_true_2). cbn [andb negb].
  destruct (seg_base segment mod Slab_kSize =? 0) eqn:Eb; [|by destruct (mounted_segments_ s !! _)].
  destruct (seg_size segment mod Slab_kSize =? 0) eqn:Ez; [|by destruct (mounted_segments_ s !! _)].
  cbn [andb negb orb]. rewrite bind_gets. destruct (mounted_segments_ s !! seg_id segment) as [ms|]; [by case_decide|].
  pose proof (cb_create_ok (seg_name segment) (seg_base segment) (seg_size segment) ltac:(lia) ltac:(lia) He) as Hc.
  unfold slab_aligned in Hc. rewrite kSize_Slab, Eb, Ez in Hc. cbn [andb] in Hc. cbn [ba_create cachelib_buffer].
  destruct (seg_size segment <? 2 ^ 32 * Slab_kSize).
  - destruct Hc as (a & Ec & _ & E1 & E2 & E3). rewrite (bind_lift _ _ _ _ Ec). clear Ec. exists a. split; [reflexivity|]. split; [exact E1|]. split; [exact E2|exact E3].
  - rewrite (bind_lift _ _ _ _ Hc). reflexivity.
Qed.

Definition slab_segment : Segment := mkSegment (1, 1) "s0" (2 ^ 24) (2 ^ 25).

Lemma cachelib_mount_exact_witness : exists a : CachelibBufferAllocator,
  MountSegment slab_segment (7, 7) (empty_manager CACHELIB) = Some (OK, add_segment slab_segment (7, 7) a (empty_manager CACHELIB)) /\
  cb_base a = 2 ^ 24 /\ cb_total_size a = 2 ^ 25 /\ cb_segment_name a = "s0"%string.
Proof.
  assert (Hwf : wf_segment slab_segment) by (unfold wf_segment; simpl; lia).
  exact (cachelib_mount_exact (empty_manager CACHELIB) slab_segment (7, 7) Hwf eq_refl).
Defined.

(** ** A service over CacheLib *)

Definition hash1 (k : string) : Z := Z.of_nat (String.length k).
Definition iter1 (sh : gmap string (ObjectMetadata Z)) : list (string * ObjectMetadata Z) := map_to_list sh.
Definition regex1 (p : string) : option (string -> bool) := Some (String.prefix p).
Definition cfg1 : Config :=
  mkConfig' false 5000 10000 false (Dbl.div (Dbl.of_Z 1) (Dbl.of_Z 10)) Dbl.one 0 10 false "c" "".
Definition fresh1 : Master CachelibBufferAllocator Z := new_master CACHELIB.
Definition cachelib_ops : list Op :=
  [OpMountSegment true slab_segment (7, 7); OpPutStart (fun _ _ _ => 0%nat) "k" [100; 200] (mkConfig 1 false ""); OpPutEnd 10 "k" MEMORY].

(** Objects of the store lie apart in the slabs of their segment. *)
Lemma cachelib_store_demo : exists st b1 b2, run_all hash1 iter1 regex1 (fun p => p) cfg1 cachelib_ops fresh1 = Some st /\
  all_buffers (metadata_shards_ st) = [b1; b2] /\ size_ b1 = 100 /\ size_ b2 = 200 /\ apart b1 b2.
Proof.
  assert (H : match run_all hash1 iter1 regex1 (fun p => p) cfg1 cachelib_ops fresh1 with
              | Some st => match all_buffers (metadata_shards_ st) with
                           | [b1; b2] => (size_ b1 =? 100) && (size_ b2 =? 200) && bool_decide (buf_allocator b1 = buf_allocator b2) &&
                                         bool_decide (buf_allocator b1 ∈ allocators_ (segment_manager_ st))
                           | _ => false
                           end
              | None => false
              end = true) by (vm_compute; reflexivity).
  destruct (run_all hash1 iter1 regex1 _ cfg1 cachelib_ops fresh1) as [st|] eqn:E; [|discriminate H].
  assert (Hr : reachable hash1 iter1 regex1 (fun p => p) cfg1 CACHELIB st).
  { eapply run_all_reachable; [|apply reach_new|exact E]. vm_compute. reflexivity. }
  destruct (all_buffers (metadata_shards_ st)) as [|b1 [|b2 [|]]] eqn:Eb; try discriminate H.
  exists st, b1, b2. split; [reflexivity|]. split; [exact Eb|]. apply andb_true_iff in H as [[[H1 H2]%andb_true_iff H3]%andb_true_iff H4].
  apply bool_decide_eq_true in H3, H4. split; [by apply Z.eqb_eq|]. split; [by apply Z.eqb_eq|].
  pose proof (on_owns _ _ _ (reach_own hash1 iter1 regex1 (fun p => p) cfg1 (fun _ => reflexivity _) CACHELIB st Hr)) as Ho. simpl in Ho. rewrite Eb in Ho.
  exact (own_apart _ _ 0 1 b1 b2 Ho ltac:(discriminate) eq_refl eq_refl H3 H4).
Qed.

End StoreCachelib.
