(* ===== verification/Topology.v ===== *)
(** * Topology: which device serves which memory

    Models mooncake-transfer-engine/src/topology.cpp and include/topology.h:
    the topology matrix, its resolution to device indices, device selection
    with retries and hints, disabling a device, reading and printing the matrix
    as JSON, and the pure part of discovery.

    Outside the model and therefore arguments: the JSON library (class
    [JsonLib], with the laws the round trip needs in [JsonLaws]), the iteration
    order of the unordered matrix ([iter]), the devices found in sysfs, and the
    random number of a selection. *)

From Stdlib Require Import ZArith Lia Ascii.
From stdpp Require Import base list gmap strings numbers pretty.
From S2P Require Import Prelude.

Open Scope moon_scope.
Open Scope Z_scope.

(** The part of jsoncpp's [Json::Value] and [Json::Reader] the code calls.
    [None] is a thrown exception (or, for the reader, text it rejects). *)
Class JsonLib (J : Type) : Type := {
  reader_parse : string -> option J;
  toStyledString : J -> string;
  getMemberNames : J -> option (list string);
  get_member : J -> string -> J;
  isArray : J -> bool;
  array_size : J -> nat;
  array_at : J -> nat -> J;
  elements_of : J -> list J;
  asString : J -> option string;
  ofString : string -> J;
  arrayValue : J;
  objectValue : J;
  append : J -> J -> J;
  set_member : J -> string -> J -> J;
}.

(** [json_array v l]: [v] is an array with the elements [l]; [json_object v m]:
    [v] is an object with the members [m].  Printed objects are read back. *)
Class JsonLaws (J : Type) `{JsonLib J} : Type := {
  json_array : J -> list J -> Prop;
  json_object : J -> gmap string J -> Prop;
  array_empty : json_array arrayValue [];
  array_append : forall v l x, json_array v l -> json_array (append v x) (l ++ [x]);
  array_facts : forall v l, json_array v l ->
    isArray v = true /\ array_size v = length l /\ elements_of v = l /\
    (forall i x, l !! i = Some x -> array_at v i = x);
  string_value : forall s, asString (ofString s) = Some s;
  object_empty : json_object objectValue ∅;
  object_set : forall v m k x, json_object v m -> json_object (set_member v k x) (<[k := x]> m);
  object_names : forall v m, json_object v m -> exists ks, getMemberNames v = Some ks /\ ks ≡ₚ (map_to_list m).*1;
  object_get : forall v m k x, json_object v m -> m !! k = Some x -> get_member v k = x;
  print_parse : forall v m, json_object v m -> toStyledString v <> ""%string /\ reader_parse (toStyledString v) = Some v;
}.

Module Topology.

Definition ERR_DEVICE_NOT_FOUND : Z := -6.
Definition ERR_MALFORMED_JSON : Z := -103.
Definition kWildcardLocation : string := "*".

Record TopologyEntry : Type := mkEntry {
  name : string; preferred_hca : list string; avail_hca : list string }.

Record ResolvedTopologyEntry : Type := mkResolved {
  r_preferred_hca : list Z;
  r_avail_hca : list Z;
  preferred_hca_name_to_index_map_ : gmap string Z;
  avail_hca_name_to_index_map_ : gmap string Z;
}.
Definition no_hca : ResolvedTopologyEntry := mkResolved [] [] ∅ ∅.

(** -1 when the name is in neither map. *)
Definition getHcaIndex (e : ResolvedTopologyEntry) (hca_name : string) : Z :=
  match preferred_hca_name_to_index_map_ e !! hca_name with
  | Some i => i
  | None => default (-1) (avail_hca_name_to_index_map_ e !! hca_name)
  end.

Record Topology : Type := mkTopology {
  matrix_ : gmap string TopologyEntry;
  hca_list_ : list string;
  resolved_matrix_ : gmap string ResolvedTopologyEntry;
}.
Definition empty_topology : Topology := mkTopology ∅ [] ∅.

(** ** resolve *)

(** The members and locals of [resolve]. *)
Record RState : Type := mkR {
  rs_hca_list : list string;
  hca_id_map : gmap string Z;
  next_hca_map_index : Z;
  rs_resolved : gmap string ResolvedTopologyEntry;
}.

(** [resolved_matrix_[key]] creates the entry it names. *)
Definition at_entry (f : ResolvedTopologyEntry -> ResolvedTopologyEntry) (key : string)
    (m : gmap string ResolvedTopologyEntry) : gmap string ResolvedTopologyEntry :=
  <[key := f (default no_hca (m !! key))]> m.

Definition add_preferred (hca : string) (i : Z) (e : ResolvedTopologyEntry) : ResolvedTopologyEntry :=
  mkResolved (r_preferred_hca e ++ [i]) (r_avail_hca e)
    (<[hca := i]> (preferred_hca_name_to_index_map_ e)) (avail_hca_name_to_index_map_ e).
Definition add_avail (hca : string) (i : Z) (e : ResolvedTopologyEntry) : ResolvedTopologyEntry :=
  mkResolved (r_preferred_hca e) (r_avail_hca e ++ [i])
    (preferred_hca_name_to_index_map_ e) (<[hca := i]> (avail_hca_name_to_index_map_ e)).

(** A device seen for the first time gets the next index, also under the
    wildcard location. *)
Definition register (hca : string) (s : RState) : RState :=
  match hca_id_map s !! hca with
  | Some _ => s
  | None =>
      let i := next_hca_map_index s in
      mkR (rs_hca_list s ++ [hca]) (<[hca := i]> (hca_id_map s)) (i + 1)
        (at_entry (add_preferred hca i) kWildcardLocation (rs_resolved s))
  end.

Definition place (add : string -> Z -> ResolvedTopologyEntry -> ResolvedTopologyEntry) (key : string)
    (s : RState) (hca : string) : RState :=
  let s := register hca s in
  mkR (rs_hca_list s) (hca_id_map s) (next_hca_map_index s)
    (at_entry (add hca (default 0 (hca_id_map s !! hca))) key (rs_resolved s)).

Definition resolve_entry (s : RState) (entry : string * TopologyEntry) : RState :=
  fold_left (place add_avail entry.1) (avail_hca entry.2)
    (fold_left (place add_preferred entry.1) (preferred_hca entry.2) s).

Definition resolve_entries (entries : list (string * TopologyEntry)) : RState :=
  fold_left resolve_entry entries (mkR [] ∅ 0 ∅).

(** ** Selection *)

Definition s32 (x : Z) : Z := (x + 2 ^ 31) mod 2 ^ 32 - 2 ^ 31.

(** [None] is a remainder by zero, a subscript out of range or the overflow of
    [retry_count - 1].  [rand] is the 32-bit random number. *)
Definition select (rand : Z) (storage_type : string) (retry_count : Z) (t : Topology) : option Z :=
  match resolved_matrix_ t !! storage_type with
  | None => Some ERR_DEVICE_NOT_FOUND
  | Some entry =>
      let p := Z.of_nat (length (r_preferred_hca entry)) in
      let a := Z.of_nat (length (r_avail_hca entry)) in
      if retry_count =? 0 then
        let rand_value := u64 (s32 rand) in
        if negb (p =? 0) then aget (r_preferred_hca entry) (rand_value mod p)
        else if a =? 0 then None else aget (r_avail_hca entry) (rand_value mod a)
      else
        if (p + a =? 0) || (retry_count =? - 2 ^ 31) then None
        else
          let index := u64 (retry_count - 1) mod (p + a) in
          if index <? p then aget (r_preferred_hca entry) index
          else aget (r_avail_hca entry) (index - p)
  end.

Definition select_hint (rand : Z) (storage_type hint : string) (retry_count : Z) (t : Topology) : option Z :=
  match resolved_matrix_ t !! storage_type with
  | None => Some ERR_DEVICE_NOT_FOUND
  | Some entry =>
      let hca_idx := getHcaIndex entry hint in
      if negb (String.eqb hint "") && negb (hca_idx =? -1) then Some hca_idx
      else select rand storage_type retry_count t
  end.

Definition is_empty (t : Topology) : bool :=
  forallb (fun p : string * ResolvedTopologyEntry =>
    match r_preferred_hca p.2, r_avail_hca p.2 with [], [] => true | _, _ => false end) (map_to_list (resolved_matrix_ t)).
Definition clear (t : Topology) : Topology := empty_topology.

Section iteration.
Context (iter : gmap string TopologyEntry -> list (string * TopologyEntry)).

Definition resolve (m : gmap string TopologyEntry) : Topology :=
  let s := resolve_entries (iter m) in mkTopology m (rs_hca_list s) (rs_resolved s).

(** ** Disabling a device: its first occurrence in each list goes *)

Fixpoint erase_name (x : string) (l : list string) : list string :=
  match l with [] => [] | y :: l => if decide (y = x) then l else y :: erase_name x l end.

Definition disable_in (device_name : string) (e : TopologyEntry) : TopologyEntry :=
  mkEntry (name e) (erase_name device_name (preferred_hca e)) (erase_name device_name (avail_hca e)).

Definition disableDevice (device_name : string) (t : Topology) : Z * Topology :=
  (0, resolve (disable_in device_name <$> matrix_ t)).

(** ** JSON *)

Context {J : Type} `{!JsonLib J}.

Definition names_json (l : list string) : J := fold_left (fun v hca => append v (ofString hca)) l arrayValue.
Definition entry_toJson (e : TopologyEntry) : J :=
  append (append arrayValue (names_json (preferred_hca e))) (names_json (avail_hca e)).

Definition toString (t : Topology) : string :=
  toStyledString (fold_left (fun v (p : string * TopologyEntry) => set_member v p.1 (entry_toJson p.2)) (iter (matrix_ t)) objectValue).

Inductive outcome : Type := Ret (code : Z) | Throw.

Fixpoint strings_of (l : list J) : option (list string) :=
  match l with
  | [] => Some []
  | v :: l => match asString v, strings_of l with Some s, Some r => Some (s :: r) | _, _ => None end
  end.

(** Reads the members one by one into the matrix; stops at the first that is
    not an array of two. *)
Fixpoint parse_members (root : J) (keys : list string) (m : gmap string TopologyEntry) : option outcome * gmap string TopologyEntry :=
  match keys with
  | [] => (None, m)
  | key :: keys =>
      let value := get_member root key in
      if isArray value && (array_size value =? 2)%nat then
        match strings_of (elements_of (array_at value 0)), strings_of (elements_of (array_at value 1)) with
        | Some p, Some a => parse_members root keys (<[key := mkEntry key p a]> m)
        | _, _ => (Some Throw, m)
        end
      else (Some (Ret ERR_MALFORMED_JSON), m)
  end.

Definition parse (topology_json : string) (t : Topology) : outcome * Topology :=
  if String.eqb topology_json "" then (Ret ERR_MALFORMED_JSON, t)
  else
    match reader_parse topology_json with
    | None => (Ret ERR_MALFORMED_JSON, t)
    | Some root =>
        match getMemberNames root with
        | None => (Throw, mkTopology ∅ (hca_list_ t) (resolved_matrix_ t))
        | Some keys =>
            match parse_members root keys ∅ with
            | (None, m) => (Ret 0, resolve m)
            | (Some o, m) => (o, mkTopology m (hca_list_ t) (resolved_matrix_ t))
            end
        end
    end.

End iteration.

(** ** Discovery, given the devices *)

Record InfinibandDevice : Type := mkDevice { dev_name : string; pci_bus_id : string; numa_node : Z }.

Definition cpu_entry (all_hca : list InfinibandDevice) (node_id : Z) : TopologyEntry :=
  mkEntry ("cpu:" ++ pretty node_id)
    (dev_name <$> filter (fun h => numa_node h = node_id) all_hca)
    (dev_name <$> filter (fun h => numa_node h <> node_id) all_hca).

Fixpoint strip_common (p q : string) : string * string :=
  match p, q with
  | String c p', String d q' => if Ascii.eqb c d then strip_common p' q' else (p, q)
  | _, _ => (p, q)
  end.
Fixpoint slashes (p : string) : Z :=
  match p with EmptyString => 0 | String c p => (if Ascii.eqb c "/"%char then 1 else 0) + slashes p end.

Section pci.
Context (realpath : string -> option string).

Definition getPciDistance (bus1 bus2 : string) : Z :=
  match realpath ("/sys/bus/pci/devices/" ++ bus1), realpath ("/sys/bus/pci/devices/" ++ bus2) with
  | Some p, Some q => let '(p, q) := strip_common p q in slashes p + slashes q
  | _, _ => -1
  end.

Definition INT_MAX : Z := 2 ^ 31 - 1.

Definition nearest_step (bus : string) (acc : Z * list string) (hca : InfinibandDevice) : Z * list string :=
  let distance := getPciDistance (pci_bus_id hca) bus in
  if 0 <=? distance then
    if distance <? acc.1 then (distance, [dev_name hca])
    else if distance =? acc.1 then (acc.1, acc.2 ++ [dev_name hca]) else acc
  else acc.

Definition cuda_entry (all_hca : list InfinibandDevice) (gpu : Z * string) : TopologyEntry :=
  let min_distance_hcas := (fold_left (nearest_step gpu.2) all_hca (INT_MAX, [])).2 in
  mkEntry ("cuda:" ++ pretty gpu.1)
    (filter (fun h => h ∈ min_distance_hcas) (dev_name <$> all_hca))
    (filter (fun h => h ∉ min_distance_hcas) (dev_name <$> all_hca)).

Definition discover (iter : gmap string TopologyEntry -> list (string * TopologyEntry))
    (all_hca : list InfinibandDevice) (nodes : list Z) (gpus : list (Z * string)) : Z * Topology :=
  let entries := (cpu_entry all_hca <$> nodes) ++ (cuda_entry all_hca <$> gpus) in
  (0, resolve iter (fold_left (fun m e => <[name e := e]> m) entries ∅)).
End pci.

End Topology.
