(* ===== verification/TopologyProofs.v ===== *)
(** * TopologyProofs: what resolving a matrix establishes

    [Mirror s G]: the devices are numbered without gaps or repetitions, and
    under each key the resolution [s] lists exactly the devices [G] names,
    by their numbers.  Every step of [resolve] keeps it, for the [G] that the
    matrix entries spell out. *)

From Stdlib Require Import ZArith Lia.
From stdpp Require Import base list gmap strings numbers.
From S2P Require Import Prelude Topology.
Import Topology.

Open Scope Z_scope.

Module TopoProofs.

(** The devices named under each key, preferred ones first. *)
Abbreviation names := (string -> list string * list string).

Definition no_names : names := fun _ => ([], []).
Definition add_name (pref : bool) (key h : string) (G : names) : names := fun k =>
  if decide (k = key) then if pref then ((G k).1 ++ [h], (G k).2) else ((G k).1, (G k).2 ++ [h]) else G k.

(** ** Device numbers *)

Definition numbers (L : list string) : list Z -> list string -> Prop :=
  Forall2 (fun i h => aget L i = Some h).

Lemma numbers_grow L k xs ns : numbers L xs ns -> numbers (L ++ k) xs ns.
Proof. intros H. eapply list.Forall2_impl; [exact H|]. intros; by apply aget_app_l. Qed.

Lemma numbers_snoc L xs ns i h :
  numbers L xs ns -> aget L i = Some h -> numbers L (xs ++ [i]) (ns ++ [h]).
Proof. intros. apply Forall2_app; [done|]. by constructor. Qed.

Lemma numbers_length L xs ns : numbers L xs ns -> length xs = length ns.
Proof. apply list.Forall2_length. Qed.

(** ** The relation between an entry and the names it stands for *)

(** A name map knows exactly the names of its list. *)
Definition indexes (L : list string) (m : gmap string Z) (ns : list string) : Prop :=
  forall h i, m !! h = Some i <-> h ∈ ns /\ aget L i = Some h.

Record Means (L : list string) (e : ResolvedTopologyEntry) (ns : list string * list string) : Prop := {
  means_pref : numbers L (r_preferred_hca e) ns.1;
  means_avail : numbers L (r_avail_hca e) ns.2;
  means_pmap : indexes L (preferred_hca_name_to_index_map_ e) ns.1;
  means_amap : indexes L (avail_hca_name_to_index_map_ e) ns.2;
}.

Record Mirror (s : RState) (G : names) : Prop := {
  mir_next : next_hca_map_index s = Z.of_nat (length (rs_hca_list s));
  mir_ids : forall h i, hca_id_map s !! h = Some i <-> aget (rs_hca_list s) i = Some h;
  mir_none : forall k, rs_resolved s !! k = None <-> G k = ([], []);
  mir_means : forall k, Means (rs_hca_list s) (default no_hca (rs_resolved s !! k)) (G k);
  mir_known : forall k h, h ∈ (G k).1 ++ (G k).2 -> h ∈ rs_hca_list s;
}.

Lemma mirror_nodup s G : Mirror s G -> NoDup (rs_hca_list s).
Proof.
  intros M. apply NoDup_alt. intros i j h Hi Hj.
  assert (Z' : forall n, rs_hca_list s !! n = Some h -> hca_id_map s !! h = Some (Z.of_nat n)).
  { intros n Hn. apply (mir_ids _ _ M). unfold aget. by rewrite (proj2 (Z.leb_le 0 _)), Nat2Z.id by lia. }
  apply Z' in Hi, Hj. rewrite Hi in Hj. injection Hj. lia.
Qed.

Lemma indexes_grow L k m ns :
  (forall h, h ∈ ns -> h ∈ L) -> NoDup (L ++ k) -> indexes L m ns -> indexes (L ++ k) m ns.
Proof.
  intros Sub ND I h i. rewrite (I h i). split; intros [Hh Hi]; (split; [done|]).
  - by apply aget_app_l.
  - destruct (elem_aget L h (Sub h Hh)) as [j Hj].
    by rewrite (aget_inj _ i j h ND Hi (aget_app_l _ k _ _ Hj)).
Qed.

Lemma indexes_snoc L m ns h i :
  aget L i = Some h -> (forall j, aget L j = Some h -> j = i) ->
  indexes L m ns -> indexes L (<[h := i]> m) (ns ++ [h]).
Proof.
  intros Hi Un I h' j. rewrite elem_of_app, list_elem_of_singleton, lookup_insert_Some, (I h' j). split.
  - intros [[<- <-]|[? [? ?]]]; [by auto|by auto].
  - intros [[Hin| ->] Hj]; [|left; split; [done|by rewrite (Un j Hj)]].
    destruct (decide (h = h')) as [<-|]; [left; split; [done|by rewrite (Un j Hj)]|right; done].
Qed.

Lemma means_grow L k e ns :
  (forall h, h ∈ ns.1 ++ ns.2 -> h ∈ L) -> NoDup (L ++ k) -> Means L e ns -> Means (L ++ k) e ns.
Proof.
  intros Sub ND [P A PM AM]. split; try (by apply numbers_grow);
    (apply indexes_grow; [intros h Hh; apply Sub, elem_of_app; auto|done|done]).
Qed.

Lemma means_nothing L : Means L no_hca ([], []).
Proof.
  split; simpl; try apply Forall2_nil; intros h i; rewrite lookup_empty; split; try done; intros [H _]; inversion H.
Qed.

(** ** Each step keeps the mirror *)

Definition adder (pref : bool) := if pref then add_preferred else add_avail.

Lemma mirror_add s G pref key h i :
  Mirror s G -> aget (rs_hca_list s) i = Some h ->
  Mirror (mkR (rs_hca_list s) (hca_id_map s) (next_hca_map_index s) (at_entry (adder pref h i) key (rs_resolved s)))
    (add_name pref key h G).
Proof.
  intros M Hi. pose proof M as [N I NO ME K].
  assert (Un : forall j, aget (rs_hca_list s) j = Some h -> j = i).
  { intros j Hj. apply I in Hi, Hj. rewrite Hi in Hj. by injection Hj. }
  split; simpl; try done; unfold add_name, at_entry; intros k; destruct (decide (k = key)) as [->|Hk].
  - rewrite lookup_insert. case_decide; [|done]. split; [done|]. destruct pref; simpl; intros E;
      injection E as E1 E2; [destruct (G key).1|destruct (G key).2]; done.
  - rewrite lookup_insert_ne by done. apply NO.
  - rewrite lookup_insert. case_decide; [|done]. simpl.
    destruct (ME key) as [P A PM AM]. destruct pref; split; simpl; try done;
      (by apply numbers_snoc) || (by apply indexes_snoc).
  - rewrite lookup_insert_ne by done. apply ME.
  - intros x Hx. assert (Hx' : x ∈ (G key).1 ++ (G key).2 \/ x = h).
    { destruct pref; simpl in Hx; revert Hx; rewrite !elem_of_app, !list_elem_of_singleton; tauto. }
    destruct Hx' as [Hx'| ->]; [by apply (K key)|by eapply aget_elem].
  - apply K.
Qed.

(** A new device: it is appended, and joins the wildcard location. *)
Definition reg_name (s : RState) (h : string) (G : names) : names :=
  match hca_id_map s !! h with Some _ => G | None => add_name true kWildcardLocation h G end.

Lemma mirror_register s G h : Mirror s G -> Mirror (register h s) (reg_name s h G).
Proof.
  intros M. unfold register, reg_name. destruct (hca_id_map s !! h) eqn:E; [done|].
  pose proof M as [N I NO ME K].
  assert (Hnew : h ∉ rs_hca_list s).
  { intros [i Hi]%elem_aget. apply I in Hi. congruence. }
  assert (ND : NoDup (rs_hca_list s ++ [h])).
  { apply list.NoDup_app. split; [by eapply mirror_nodup|]. split; [|apply NoDup_singleton].
    intros x Hx ->%list_elem_of_singleton. done. }
  set (s' := mkR (rs_hca_list s ++ [h]) (<[h := next_hca_map_index s]> (hca_id_map s))
    (next_hca_map_index s + 1) (rs_resolved s)).
  enough (M' : Mirror s' G).
  { refine (mirror_add s' G true kWildcardLocation h (next_hca_map_index s) M' _).
    unfold s'; simpl. rewrite N. apply aget_snoc. }
  split; simpl; try done.
  - rewrite length_app, N. simpl. lia.
  - intros x i. rewrite lookup_insert_Some, I. split.
    + intros [[<- <-]|[_ Hi]]; [rewrite N; apply aget_snoc|by apply aget_app_l].
    + intros [Hi|[-> ->]]%aget_snoc_inv; [right|left; by rewrite N]. split; [|done].
      intros <-. by apply Hnew, (aget_elem _ i).
  - intros k. apply means_grow; [apply K|done|apply ME].
  - intros k x Hx. apply elem_of_app. left. by apply (K k).
Qed.

Lemma register_knows s G h :
  Mirror s G -> aget (rs_hca_list (register h s)) (default 0 (hca_id_map (register h s) !! h)) = Some h.
Proof.
  intros M. unfold register. destruct (hca_id_map s !! h) as [i|] eqn:E; simpl.
  - rewrite E. by apply (mir_ids _ _ M).
  - rewrite lookup_insert. case_decide; [|done]. simpl. rewrite (mir_next _ _ M). apply aget_snoc.
Qed.

Definition place_name (pref : bool) (key : string) (s : RState) (h : string) (G : names) : names :=
  add_name pref key h (reg_name s h G).

Lemma mirror_place s G pref key h :
  Mirror s G -> Mirror (place (adder pref) key s h) (place_name pref key s h G).
Proof. intros M. apply mirror_add; [by apply mirror_register|by eapply register_knows]. Qed.

(** What a run of places does to the names: the key's list grows by the names,
    the wildcard list by the new devices, the others stay. *)
Record Grew (pref : bool) (key : string) (l : list string) (s s' : RState) (G G' : names) : Prop := {
  grew_mirror : Mirror s' G';
  grew_key : key <> kWildcardLocation -> G' key =
    if pref then ((G key).1 ++ l, (G key).2) else ((G key).1, (G key).2 ++ l);
  grew_other : forall k, k <> key -> k <> kWildcardLocation -> G' k = G k;
  grew_wild : key <> kWildcardLocation -> G kWildcardLocation = (rs_hca_list s, []) ->
    G' kWildcardLocation = (rs_hca_list s', []);
  grew_devices : forall h, h ∈ rs_hca_list s' <-> h ∈ rs_hca_list s \/ h ∈ l;
}.

Lemma register_list s h : rs_hca_list (register h s) =
  match hca_id_map s !! h with Some _ => rs_hca_list s | None => rs_hca_list s ++ [h] end.
Proof. unfold register. by destruct (hca_id_map s !! h). Qed.

Lemma grew_place s G pref key h :
  Mirror s G -> Grew pref key [h] s (place (adder pref) key s h) G (place_name pref key s h G).
Proof.
  intros M. split.
  - by apply mirror_place.
  - intros Hk. unfold place_name, add_name at 1, reg_name. case_decide; [|done].
    destruct (hca_id_map s !! h); [done|]. unfold add_name. by case_decide.
  - intros k Hk Hw. unfold place_name, add_name at 1, reg_name. case_decide; [done|].
    destruct (hca_id_map s !! h); [done|]. unfold add_name. by case_decide.
  - intros Hk Hw. unfold place_name, add_name at 1, reg_name. case_decide; [by subst|].
    change (rs_hca_list (place (adder pref) key s h)) with (rs_hca_list (register h s)).
    rewrite register_list. destruct (hca_id_map s !! h); [done|].
    unfold add_name. rewrite Hw. by case_decide.
  - intros x. change (rs_hca_list (place (adder pref) key s h)) with (rs_hca_list (register h s)).
    rewrite register_list, list_elem_of_singleton. destruct (hca_id_map s !! h) as [i|] eqn:E.
    + split; [by left|]. intros [?| ->]; [done|]. eapply aget_elem. by apply (mir_ids _ _ M), E.
    + by rewrite elem_of_app, list_elem_of_singleton.
Qed.

Lemma grew_trans pref key l l' s s' s'' G G' G'' :
  Grew pref key l s s' G G' -> Grew pref key l' s' s'' G' G'' -> Grew pref key (l ++ l') s s'' G G''.
Proof.
  intros [_ K1 O1 W1 D1] [M K2 O2 W2 D2]. split; [done|..].
  - intros Hk. rewrite K2, K1 by done. destruct pref; simpl; by rewrite app_assoc.
  - intros k ? ?. by rewrite O2, O1.
  - auto.
  - intros h. rewrite D2, D1, elem_of_app. clear. tauto.
Qed.

Lemma grew_places pref key l : forall s G, Mirror s G ->
  exists G', Grew pref key l s (fold_left (place (adder pref) key) l s) G G'.
Proof.
  induction l as [|h l IH]; intros s G M; simpl.
  - exists G. split; try done; [intros _; destruct pref; by rewrite app_nil_r, <- surjective_pairing|].
    intros h. split; [by left|intros [?|H]; [done|inversion H]].
  - pose proof (grew_place s G pref key h M) as H1.
    destruct (IH _ _ (grew_mirror _ _ _ _ _ _ _ H1)) as [G' H2].
    exists G'. exact (grew_trans _ _ [h] l _ _ _ _ _ _ H1 H2).
Qed.

(** ** The whole resolution *)

Definition named (e : TopologyEntry) : list string := preferred_hca e ++ avail_hca e.

Record Spelled (es : list (string * TopologyEntry)) (s : RState) (G : names) : Prop := {
  sp_mirror : Mirror s G;
  sp_entry : forall k e, (k, e) ∈ es -> k <> kWildcardLocation -> G k = (preferred_hca e, avail_hca e);
  sp_absent : forall k, k ∉ es.*1 -> k <> kWildcardLocation -> G k = ([], []);
  sp_wild : kWildcardLocation ∉ es.*1 -> G kWildcardLocation = (rs_hca_list s, []);
  sp_devices : forall h, h ∈ rs_hca_list s <-> exists k e, (k, e) ∈ es /\ h ∈ named e;
}.

Lemma spelled_nil : Spelled [] (mkR [] ∅ 0 ∅) no_names.
Proof.
  split; try done.
  - split; simpl; try done.
    + intros h i. rewrite lookup_empty. split; [done|]. intros H%aget_elem. inversion H.
    + intros k. rewrite lookup_empty. apply means_nothing.
  - intros k e H. inversion H.
  - intros h. split; [intros H; inversion H|intros (k & e & H & _); inversion H].
Qed.

Lemma spelled_snoc es s G k e :
  k ∉ es.*1 -> Spelled es s G -> exists G', Spelled (es ++ [(k, e)]) (resolve_entry s (k, e)) G'.
Proof.
  intros Hk [M En Ab Wi De]. unfold resolve_entry; simpl.
  destruct (grew_places true k (preferred_hca e) s G M) as [G1 [M1 K1 O1 W1 D1]].
  destruct (grew_places false k (avail_hca e) _ G1 M1) as [G2 [M2 K2 O2 W2 D2]].
  exists G2. split; [done|..].
  - intros k' e' [Hin|[= -> ->]%list_elem_of_singleton]%elem_of_app Hw.
    + assert (k' <> k) by (intros ->; apply Hk, list_elem_of_fmap; by exists (k, e')).
      rewrite O2, O1 by done. by apply En.
    + by rewrite K2, K1, (Ab k).
  - intros k'. rewrite fmap_app, not_elem_of_app. simpl. rewrite list_elem_of_singleton.
    intros [Hin Hne] Hw. rewrite O2, O1 by done. by apply Ab.
  - rewrite fmap_app, not_elem_of_app. simpl. rewrite list_elem_of_singleton.
    intros [Hin Hne]. apply W2; [by apply not_eq_sym|]. apply W1; [by apply not_eq_sym|]. by apply Wi.
  - intros h. rewrite D2, D1, De. split.
    + intros [[(k' & e' & ? & ?)|?]|?]; [exists k', e'|exists k, e..]; unfold named in *;
        rewrite ?elem_of_app, ?list_elem_of_singleton in *; auto.
    + intros (k' & e' & [?|[= -> ->]%list_elem_of_singleton]%elem_of_app & [?|?]%elem_of_app); auto;
        left; left; exists k', e'; unfold named; rewrite elem_of_app; auto.
Qed.

Lemma resolve_spelled es : NoDup es.*1 -> exists G, Spelled es (resolve_entries es) G.
Proof.
  unfold resolve_entries. induction es as [|[k e] es IH] using rev_ind; intros ND.
  - exists no_names. apply spelled_nil.
  - rewrite fmap_app in ND. apply list.NoDup_app in ND as (ND & Hd & _).
    destruct (IH ND) as [G S]. rewrite fold_left_app. simpl.
    apply (spelled_snoc _ _ G); [|done]. intros Hin. apply (Hd k Hin). by left.
Qed.

End TopoProofs.
