(* ===== verification/TopologyJson.v ===== *)
(** * TopologyJson: a model of the JSON interface

    Trees with string leaves, printed through a self-delimiting binary code,
    satisfy [JsonLaws]: the laws the topology's round trip relies on can hold. *)

From Stdlib Require Import ZArith Lia Ascii.
From stdpp Require Import base list gmap strings numbers countable.
From S2P Require Import Prelude Topology.

Module TopoJson.

Abbreviation tree := (gen_tree string).

Fixpoint print_bits (p : positive) : string :=
  match p with
  | xI p => String "1"%char (print_bits p)
  | xO p => String "0"%char (print_bits p)
  | xH => "."
  end.
Fixpoint read_bits (s : string) : option positive :=
  match s with
  | String "1"%char s => xI <$> read_bits s
  | String "0"%char s => xO <$> read_bits s
  | String "."%char EmptyString => Some xH
  | _ => None
  end.

Lemma read_print p : read_bits (print_bits p) = Some p.
Proof. induction p as [p IH|p IH|]; cbn; [by rewrite IH..|done]. Qed.

Definition field (kv : string * tree) : tree := GenNode 2 [GenLeaf kv.1; kv.2].
Definition unfield (v : tree) : option (string * tree) :=
  match v with GenNode 2 [GenLeaf k; x] => Some (k, x) | _ => None end.
Definition object (l : list (string * tree)) : tree := GenNode 1 (field <$> l).
Definition fields (v : tree) : list (string * tree) :=
  match v with GenNode 1 l => omap unfield l | _ => [] end.
Definition elements (v : tree) : list tree := match v with GenNode 0 l => l | _ => [] end.

Lemma fields_object l : fields (object l) = l.
Proof.
  change (omap unfield (field <$> l) = l). induction l as [|[k v] l IH]; [done|].
  change ((k, v) :: omap unfield (field <$> l) = (k, v) :: l). by rewrite IH.
Qed.

#[export] Instance tree_json : JsonLib tree := {
  reader_parse s := read_bits s ≫= decode;
  toStyledString v := print_bits (encode v);
  getMemberNames v := match v with GenNode 1 _ => Some (fields v).*1 | _ => None end;
  get_member v k := default (GenNode 3 []) ((list_to_map (fields v) : gmap string tree) !! k);
  isArray v := match v with GenNode 0 _ => true | _ => false end;
  array_size v := length (elements v);
  array_at v i := default (GenNode 3 []) (elements v !! i);
  elements_of := elements;
  asString v := match v with GenLeaf s => Some s | GenNode 3 [] => Some ""%string | _ => None end;
  ofString := GenLeaf;
  arrayValue := GenNode 0 [];
  objectValue := object [];
  append v x := GenNode 0 (elements v ++ [x]);
  set_member v k x := object ((k, x) :: filter (fun kv => kv.1 <> k) (fields v));
}.

Definition tree_object (v : tree) (m : gmap string tree) : Prop :=
  exists l, v = object l /\ NoDup l.*1 /\ list_to_map l = m.

Lemma filter_keys (l : list (string * tree)) k :
  (filter (fun kv => kv.1 <> k) l).*1 = filter (fun x => x <> k) l.*1.
Proof.
  induction l as [|[k' v] l IH]; [done|]. rewrite fmap_cons, !filter_cons. cbn [fst].
  destruct (decide (k' <> k)); by rewrite ?fmap_cons, IH.
Qed.

Lemma filter_list_to_map (l : list (string * tree)) k :
  delete k (list_to_map (filter (fun kv => kv.1 <> k) l) : gmap string tree) = delete k (list_to_map l).
Proof.
  induction l as [|[k' v] l IH]; [done|]. rewrite filter_cons. cbn [fst].
  destruct (decide (k' <> k)) as [Hne|He]; cbn [list_to_map foldr].
  - by rewrite !delete_insert_ne, IH by done.
  - apply dec_stable in He. subst k'. by rewrite delete_insert_eq.
Qed.

#[export, refine] Instance tree_laws : JsonLaws tree := {
  json_array v l := v = GenNode 0 l;
  json_object := tree_object;
}.
Proof.
  - done.
  - by intros v l x ->.
  - intros v l ->. split_and!; try done. simpl. by intros i x ->.
  - done.
  - exists []. split_and!; [done|apply NoDup_nil_2|done].
  - intros v m k x (l & -> & ND & <-). cbn [set_member tree_json]. rewrite fields_object.
    eexists. split; [reflexivity|]. split.
    + rewrite fmap_cons, filter_keys. apply list.NoDup_cons. split; [|by apply list.NoDup_filter].
      rewrite list_elem_of_filter. naive_solver.
    + simpl. by rewrite <- insert_delete_eq, filter_list_to_map, insert_delete_eq.
  - intros v m (l & -> & ND & <-). exists l.*1. split; [by rewrite <- (fields_object l) at 2|].
    by rewrite map_to_list_to_map.
  - intros v m k x (l & -> & ND & <-) Hx. cbn [get_member tree_json]. by rewrite fields_object, Hx.
  - intros v m _. cbn [toStyledString reader_parse tree_json]. split; [by destruct (encode v)|].
    rewrite read_print. simpl. by rewrite decode_encode.
Defined.

End TopoJson.
