(* ===== verification/TopologyProps.v ===== *)
(** * TopologyProps: properties of the topology

    Selection answers a device of the entry asked for, preferred devices first,
    whatever sequence of operations built the topology; resolving numbers the
    devices of the matrix; a disabled device is never selected again; the
    printed form is read back; discovery prefers the nearest devices. *)

From Stdlib Require Import ZArith Lia.
From stdpp Require Import base list gmap strings numbers relations pretty.
From S2P Require Import Prelude Topology TopologyProofs TopologyJson.
Import Topology TopoProofs TopoJson.

Open Scope Z_scope.

Module TopoProps.

(** The devices that indices stand for. *)
Definition devices (t : Topology) (xs : list Z) : list (option string) := aget (hca_list_ t) <$> xs.

Lemma numbers_devices L xs ns : numbers L xs ns -> aget L <$> xs = Some <$> ns.
Proof. induction 1 as [|i h xs ns Hi _ IH]; [done|]. by rewrite !fmap_cons, Hi, IH. Qed.

Lemma numbers_aget L xs ns i h : numbers L xs ns -> aget ns i = Some h ->
  exists d, aget xs i = Some d /\ aget L d = Some h.
Proof.
  unfold aget. intros H. destruct (0 <=? i); [|done]. intros Hh.
  destruct (Forall2_lookup_r _ _ _ _ _ H Hh) as (d & ? & ?). eauto.
Qed.

(** What every topology keeps: its numbers and its resolution fit together. *)
Definition Fits (t : Topology) (G : names) : Prop :=
  exists ids next, Mirror (mkR (hca_list_ t) ids next (resolved_matrix_ t)) G.

(** ** Selection on a topology that fits *)

Section selection.
Context (t : Topology) (G : names) (HF : Fits t G) (k : string).
Abbreviation p := (G k).1.
Abbreviation a := (G k).2.

Lemma fits_none : resolved_matrix_ t !! k = None <-> G k = ([], []).
Proof. destruct HF as (ids & next & M). apply (mir_none _ _ M k). Qed.

Lemma fits_some e : resolved_matrix_ t !! k = Some e -> Means (hca_list_ t) e (G k) /\ p ++ a <> [].
Proof.
  destruct HF as (ids & next & M). intros He. split.
  - pose proof (mir_means _ _ M k) as ME. simpl in ME. by rewrite He in ME.
  - intros [E1 E2]%app_eq_nil. assert (G k = ([], [])) as E by (rewrite (surjective_pairing (G k)); by f_equal).
    apply (mir_none _ _ M k) in E. simpl in E. congruence.
Qed.

(** The first attempt: a device of the preferred list, or of the other when
    that is empty. *)
Lemma select_first rand : p ++ a <> [] ->
  exists d h, select rand k 0 t = Some d /\ aget (hca_list_ t) d = Some h /\
    h ∈ (match p with [] => a | _ => p end).
Proof.
  intros Hne. unfold select. destruct (resolved_matrix_ t !! k) as [e|] eqn:He.
  2:{ apply fits_none in He. by rewrite He in Hne. }
  destruct (fits_some e He) as [[P A _ _] _]. rewrite Z.eqb_refl.
  pose proof (numbers_length _ _ _ P) as LP. pose proof (numbers_length _ _ _ A) as LA.
  rewrite LP, LA. destruct p as [|x l] eqn:Ep; simpl in Hne.
  - simpl. destruct (aget_mod a (u64 (s32 rand)) Hne) as [h Hh].
    destruct (numbers_aget _ _ _ _ _ A Hh) as (d & Hd & Hdh).
    rewrite (proj2 (Z.eqb_neq _ _)) by (destruct a; [done|simpl; lia]).
    exists d, h. split; [done|]. split; [done|]. by eapply aget_elem.
  - destruct (aget_mod (x :: l) (u64 (s32 rand))) as [h Hh]; [done|].
    destruct (numbers_aget _ _ _ _ _ P Hh) as (d & Hd & Hdh).
    rewrite (proj2 (Z.eqb_neq _ _)) by (simpl; lia). simpl negb. cbv iota.
    exists d, h. split; [done|]. split; [done|]. by eapply aget_elem.
Qed.

(** Later attempts walk through the preferred devices, then the others, and
    start again. *)
Lemma select_retry rand r : p ++ a <> [] -> r <> 0 -> r <> - 2 ^ 31 ->
  exists d h, select rand k r t = Some d /\ aget (hca_list_ t) d = Some h /\
    aget (p ++ a) (u64 (r - 1) mod Z.of_nat (length (p ++ a))) = Some h.
Proof.
  intros Hne Hr Hr'. destruct (aget_mod (p ++ a) (u64 (r - 1)) Hne) as [h Hh].
  unfold select. destruct (resolved_matrix_ t !! k) as [e|] eqn:He.
  2:{ apply fits_none in He. by rewrite He in Hne. }
  destruct (fits_some e He) as [[P A _ _] _].
  rewrite (numbers_length _ _ _ P), (numbers_length _ _ _ A), <- Nat2Z.inj_add, <- length_app.
  rewrite (proj2 (Z.eqb_neq r _)), (proj2 (Z.eqb_neq r _)) by done.
  assert (0 < Z.of_nat (length (p ++ a))) by (destruct (p ++ a); [done|simpl; lia]).
  rewrite (proj2 (Z.eqb_neq _ 0)) by lia. simpl.
  rewrite aget_app in Hh by (apply Z.mod_pos_bound; lia).
  set (i := u64 (r - 1) mod _) in *.
  destruct (i <? Z.of_nat (length p)) eqn:Ei;
    [destruct (numbers_aget _ _ _ _ _ P Hh) as (d & Hd & Hdh)|destruct (numbers_aget _ _ _ _ _ A Hh) as (d & Hd & Hdh)];
    exists d, h; (split; [done|]); (split; [done|]);
    rewrite aget_app by (apply Z.mod_pos_bound; lia); fold i; by rewrite Ei.
Qed.


Lemma select_missing rand r : G k = ([], []) -> select rand k r t = Some ERR_DEVICE_NOT_FOUND.
Proof. intros H. apply fits_none in H. unfold select. by rewrite H. Qed.

(** A hint that names a device of the entry decides. *)
Lemma select_hint_known rand hint r : hint <> ""%string -> hint ∈ p ++ a ->
  exists d, select_hint rand k hint r t = Some d /\ aget (hca_list_ t) d = Some hint.
Proof.
  intros Hh Hin. unfold select_hint. destruct (resolved_matrix_ t !! k) as [e|] eqn:He.
  2:{ apply fits_none in He. rewrite He in Hin. inversion Hin. }
  destruct (fits_some e He) as [[P A PM AM] _].
  assert (exists d, getHcaIndex e hint = d /\ aget (hca_list_ t) d = Some hint) as (d & -> & Hd).
  { unfold getHcaIndex. destruct (preferred_hca_name_to_index_map_ e !! hint) as [d|] eqn:Ed.
    - exists d. split; [done|]. by apply PM in Ed as [_ ?].
    - destruct HF as (ids & next & M). pose proof (mir_known _ _ M k hint Hin) as Hkn.
      destruct (elem_aget _ _ Hkn) as [d Hd]. simpl in Hd. apply elem_of_app in Hin as [Hin|Hin].
      + rewrite (proj2 (PM hint d)) in Ed by done. done.
      + exists d. by rewrite (proj2 (AM hint d)) by done. }
  exists d. split; [|done]. pose proof (aget_Some_range _ _ _ Hd).
  rewrite (proj2 (Z.eqb_neq _ _)) by lia. by rewrite (proj2 (String.eqb_neq _ _)).
Qed.

Lemma select_hint_unknown rand hint r : hint ∉ p ++ a -> select_hint rand k hint r t = select rand k r t.
Proof.
  intros Hin. unfold select_hint. destruct (resolved_matrix_ t !! k) as [e|] eqn:He.
  - destruct (fits_some e He) as [[P A PM AM] _].
    assert (forall d, preferred_hca_name_to_index_map_ e !! hint <> Some d) as E1.
    { intros d [H _]%PM. apply Hin, elem_of_app. auto. }
    assert (forall d, avail_hca_name_to_index_map_ e !! hint <> Some d) as E2.
    { intros d [H _]%AM. apply Hin, elem_of_app. auto. }
    unfold getHcaIndex. destruct (preferred_hca_name_to_index_map_ e !! hint) eqn:?; [by destruct (E1 z)|].
    destruct (avail_hca_name_to_index_map_ e !! hint) eqn:?; [by destruct (E2 z)|].
    simpl. by rewrite andb_false_r.
  - unfold select. by rewrite He.
Qed.
End selection.

(** Selection on a topology that fits answers a device, or that there is none. *)
Lemma select_defined t G rand k hint r : Fits t G -> - 2 ^ 31 < r < 2 ^ 31 ->
  forall res, res = select rand k r t \/ res = select_hint rand k hint r t ->
  exists d, res = Some d /\
    (d = ERR_DEVICE_NOT_FOUND /\ resolved_matrix_ t !! k = None \/ 0 <= d < Z.of_nat (length (hca_list_ t))).
Proof.
  intros HF Hr.
  assert (Hs : exists d, select rand k r t = Some d /\
    (d = ERR_DEVICE_NOT_FOUND /\ resolved_matrix_ t !! k = None \/ 0 <= d < Z.of_nat (length (hca_list_ t)))).
  { destruct (resolved_matrix_ t !! k) as [e|] eqn:He.
    - destruct (fits_some t G HF k e He) as [_ Hne]. destruct (decide (r = 0)) as [->|Hr0].
      + destruct (select_first t G HF k rand Hne) as (d & h & ? & Hd & _).
        exists d. split; [done|right]. by eapply aget_Some_range.
      + destruct (select_retry t G HF k rand r Hne Hr0) as (d & h & ? & Hd & _); [lia|].
        exists d. split; [done|right]. by eapply aget_Some_range.
    - exists ERR_DEVICE_NOT_FOUND. split; [|by left]. unfold select. by rewrite He. }
  intros res [-> | ->]; [done|].
  destruct (decide (hint ∈ (G k).1 ++ (G k).2)) as [Hin|Hin].
  2:{ by rewrite (select_hint_unknown t G HF k). }
  destruct (decide (hint = ""%string)) as [->|Hh].
  - unfold select_hint. destruct (resolved_matrix_ t !! k) eqn:He; [done|]. by exists ERR_DEVICE_NOT_FOUND; auto.
  - destruct (select_hint_known t G HF k rand hint r Hh Hin) as (d & ? & Hd).
    exists d. split; [done|right]. by eapply aget_Some_range.
Qed.

(** ** Topologies built by the operations *)

Section operations.
Context (iter : gmap string TopologyEntry -> list (string * TopologyEntry)).
Context (iter_perm : forall m, iter m ≡ₚ map_to_list m).
Context {J : Type} `{!JsonLib J} (realpath : string -> option string).

(** Every public operation that changes a topology, failed reads included. *)
Inductive topo_step : Topology -> Topology -> Prop :=
| step_clear t : topo_step t (clear t)
| step_parse t json : topo_step t (parse iter json t).2
| step_disable t dev : topo_step t (disableDevice iter dev t).2
| step_discover t hcas nodes gpus : topo_step t (discover realpath iter hcas nodes gpus).2.

Lemma iter_lookup m k e : (k, e) ∈ iter m <-> m !! k = Some e.
Proof. rewrite (elem_of_Permutation_proper _ _ _ (iter_perm m)). apply elem_of_map_to_list. Qed.

Lemma iter_keys m k : k ∈ (iter m).*1 <-> is_Some (m !! k).
Proof.
  rewrite list_elem_of_fmap. split.
  - intros ([k' e] & -> & ?%iter_lookup). by exists e.
  - intros [e He%iter_lookup]. by exists (k, e).
Qed.

Lemma iter_nodup m : NoDup (iter m).*1.
Proof. rewrite (iter_perm m). apply NoDup_fst_map_to_list. Qed.

(** What resolving a matrix yields. *)
Record Resolves (m : gmap string TopologyEntry) (t : Topology) (G : names) : Prop := {
  rv_fits : Fits t G;
  rv_entry : forall k e, m !! k = Some e -> k <> kWildcardLocation -> G k = (preferred_hca e, avail_hca e);
  rv_absent : forall k, m !! k = None -> k <> kWildcardLocation -> G k = ([], []);
  rv_wild : m !! kWildcardLocation = None -> G kWildcardLocation = (hca_list_ t, []);
  rv_devices : forall h, h ∈ hca_list_ t <-> exists k e, m !! k = Some e /\ h ∈ named e;
}.

Lemma resolve_ok m : exists G, Resolves m (resolve iter m) G.
Proof.
  destruct (resolve_spelled (iter m) (iter_nodup m)) as [G [M En Ab Wi De]]. exists G. split.
  - unfold resolve; simpl. destruct (resolve_entries (iter m)) as [L ids next r]. by exists ids, next.
  - intros k e He. apply En. by apply iter_lookup.
  - intros k Hk. apply Ab. rewrite iter_keys, Hk. apply is_Some_None.
  - intros Hw. apply Wi. rewrite iter_keys, Hw. apply is_Some_None.
  - intros h. unfold resolve; simpl. rewrite De. by setoid_rewrite iter_lookup.
Qed.

Lemma resolve_fits m : exists G, Fits (resolve iter m) G.
Proof. destruct (resolve_ok m) as [G H]. exists G. apply H. Qed.

Lemma empty_fits : Fits empty_topology no_names.
Proof. exists ∅, 0. apply spelled_nil. Qed.

Lemma parse_fits json t G : Fits t G -> exists G', Fits (parse iter json t).2 G'.
Proof.
  intros H. unfold parse. repeat split_match; simpl; try (by exists G); apply resolve_fits.
Qed.

Lemma step_fits t t' G : topo_step t t' -> Fits t G -> exists G', Fits t' G'.
Proof.
  destruct 1; intros HF.
  - exists no_names. apply empty_fits.
  - by eapply parse_fits.
  - apply resolve_fits.
  - apply resolve_fits.
Qed.

Lemma reachable_fits t : rtc topo_step empty_topology t -> exists G, Fits t G.
Proof.
  intros H. assert (exists G, Fits empty_topology G) as HG by (eexists; apply empty_fits).
  revert HG. induction H as [|t t' t'' Hs _ IH]; intros [G HG]; [by exists G|].
  apply IH. by apply (step_fits t t' G).
Qed.

(** ** Theorems *)

(** C35: on a topology built by any sequence of operations, reads that fail
    halfway included, selecting a device is defined for every location, random
    number, hint and attempt: it answers the index of a device in the device
    list, or that the location is unknown. *)
Theorem selection_safe t rand k hint r :
  rtc topo_step empty_topology t -> - 2 ^ 31 < r < 2 ^ 31 ->
  forall res, res = select rand k r t \/ res = select_hint rand k hint r t ->
  exists d, res = Some d /\
    (d = ERR_DEVICE_NOT_FOUND /\ resolved_matrix_ t !! k = None \/ 0 <= d < Z.of_nat (length (hca_list_ t))).
Proof. intros [G HF]%reachable_fits Hr. by apply (select_defined t G). Qed.

(** resolving numbers each device of the matrix once, lists under every
    location exactly the devices of its matrix entry, in order, and lists all
    devices under the wildcard location. *)
Theorem resolve_mirrors m :
  let t := resolve iter m in
  NoDup (hca_list_ t) /\
  (forall h, h ∈ hca_list_ t <-> exists k e, m !! k = Some e /\ (h ∈ preferred_hca e \/ h ∈ avail_hca e)) /\
  (forall k, k <> kWildcardLocation ->
    match m !! k, resolved_matrix_ t !! k with
    | Some e, Some r => devices t (r_preferred_hca r) = Some <$> preferred_hca e /\
                        devices t (r_avail_hca r) = Some <$> avail_hca e
    | Some e, None => preferred_hca e = [] /\ avail_hca e = []
    | None, r => r = None
    end) /\
  (m !! kWildcardLocation = None -> hca_list_ t <> [] ->
    exists r, resolved_matrix_ t !! kWildcardLocation = Some r /\
      devices t (r_preferred_hca r) = Some <$> hca_list_ t /\ r_avail_hca r = []).
Proof.
  intros t. destruct (resolve_ok m) as [G [HF En Ab Wi De]]. fold t in HF, Wi, De.
  pose proof HF as (ids & next & M). split; [apply (mirror_nodup _ _ M)|]. split; [|split].
  - intros h. rewrite De. unfold named. by setoid_rewrite elem_of_app.
  - intros k Hk. destruct (m !! k) as [e|] eqn:He; [|by apply (fits_none t G HF k), Ab].
    specialize (En k e He Hk). destruct (resolved_matrix_ t !! k) as [r|] eqn:Hr.
    + destruct (fits_some t G HF k r Hr) as [[P A _ _] _]. rewrite En in P, A.
      split; by apply numbers_devices.
    + apply (fits_none t G HF k) in Hr. rewrite En in Hr. by injection Hr.
  - intros Hw Hne. specialize (Wi Hw). destruct (resolved_matrix_ t !! kWildcardLocation) as [r|] eqn:Hr.
    + destruct (fits_some t G HF _ r Hr) as [[P A _ _] _]. rewrite Wi in P, A. exists r.
      split; [done|]. split; [by apply numbers_devices|]. by inversion A.
    + apply (fits_none t G HF) in Hr. rewrite Wi in Hr. by injection Hr.
Qed.

(** selection follows the matrix: the first attempt answers a preferred
    device of the location when there is one, attempt [r] answers the device
    at position [r - 1] of the preferred devices followed by the others,
    cyclically, and a hint that names a device of the location decides. *)
Theorem selection_follows_matrix m k e rand :
  m !! k = Some e -> k <> kWildcardLocation -> preferred_hca e ++ avail_hca e <> [] ->
  let t := resolve iter m in
  let all := preferred_hca e ++ avail_hca e in
  (exists d h, select rand k 0 t = Some d /\ aget (hca_list_ t) d = Some h /\
    h ∈ (match preferred_hca e with [] => avail_hca e | p => p end)) /\
  (forall r, 0 < r < 2 ^ 31 -> exists d, select rand k r t = Some d /\
    aget (hca_list_ t) d = aget all ((r - 1) mod Z.of_nat (length all))) /\
  (forall hint r, hint <> ""%string -> hint ∈ all ->
    exists d, select_hint rand k hint r t = Some d /\ aget (hca_list_ t) d = Some hint).
Proof.
  intros He Hk Hne t all. destruct (resolve_ok m) as [G [HF En _ _ _]]. fold t in HF.
  specialize (En k e He Hk).
  assert (Hne' : (G k).1 ++ (G k).2 <> []) by (by rewrite En). split; [|split].
  - destruct (select_first t G HF k rand Hne') as (d & h & ? & ? & Hin). exists d, h.
    rewrite En in Hin. simpl in Hin. by destruct (preferred_hca e).
  - intros r Hr. destruct (select_retry t G HF k rand r Hne') as (d & h & ? & Hd & Hh); [lia..|].
    exists d. split; [done|]. rewrite Hd, <- Hh, En, u64_small by lia. done.
  - intros hint r Hh Hin. apply (select_hint_known t G HF); [done|by rewrite En].
Qed.

(** a read that fails keeps the device list and the resolved matrix of
    before, so selection is not disturbed by it; the matrix itself is kept only
    when the text is no JSON, for it is emptied before the members are read. *)
Theorem parse_failure_keeps_selection json t :
  (parse iter json t).1 <> Ret 0 ->
  let t' := (parse iter json t).2 in
  hca_list_ t' = hca_list_ t /\ resolved_matrix_ t' = resolved_matrix_ t /\
  (forall rand k r, select rand k r t' = select rand k r t) /\
  (json = ""%string \/ reader_parse json = None -> t' = t) /\
  (json <> ""%string -> forall root, reader_parse json = Some root ->
    forall k e, matrix_ t' !! k = Some e ->
      exists p a, strings_of (elements_of (array_at (get_member root k) 0)) = Some p /\
        strings_of (elements_of (array_at (get_member root k) 1)) = Some a /\ e = mkEntry k p a).
Proof.
  unfold parse. destruct (String.eqb_spec json "") as [->|Hne]; [by intros|].
  destruct (reader_parse json) as [root|]; [|by intros].
  assert (Hm : forall ks m o m', parse_members root ks m = (o, m') ->
    forall k e, m' !! k = Some e -> m !! k = Some e \/
      exists p a, strings_of (elements_of (array_at (get_member root k) 0)) = Some p /\
        strings_of (elements_of (array_at (get_member root k) 1)) = Some a /\ e = mkEntry k p a).
  { induction ks as [|k ks IH]; intros m o m' Hp k' e; cbn [parse_members] in Hp.
    - injection Hp as <- <-. by left.
    - repeat case_match; simplify_eq; try (by left).
      intros He. destruct (IH _ _ _ Hp k' e He) as [Hi|?]; [|by right].
      apply lookup_insert_Some in Hi as [[<- <-]|[_ ?]]; [right; eauto|by left]. }
  destruct (getMemberNames root) as [keys|].
  - destruct (parse_members root keys ∅) as [[o|] m] eqn:Hp; [|done]. simpl. intros _.
    split_and!; try done; [by intros [?|?]|]. intros _ root' [= <-] k e He.
    destruct (Hm _ _ _ _ Hp k e He) as [Hi|?]; [by rewrite lookup_empty in Hi|done].
  - simpl. intros _. split_and!; try done. by intros [?|?].
Qed.

(** ** Disabling a device *)

Lemma erase_name_filter x l : NoDup l -> erase_name x l = filter (fun h => h <> x) l.
Proof.
  induction 1 as [|y l Hy ND IH]; [done|]. cbn [erase_name]. rewrite filter_cons.
  destruct (decide (y = x)) as [->|Hne].
  - rewrite decide_False by (intros H; by apply H). by rewrite filter_absent.
  - rewrite decide_True by done. by rewrite IH.
Qed.

(** when no entry lists a device twice, disabling a device takes it out of
    every entry and out of the device list, and leaves every other device in
    its place. *)
Theorem disabled_device_gone t dev :
  (forall k e, matrix_ t !! k = Some e -> NoDup (preferred_hca e) /\ NoDup (avail_hca e)) ->
  let '(code, t') := disableDevice iter dev t in
  code = 0 /\ (dev ∉ hca_list_ t') /\
  (forall k e, matrix_ t !! k = Some e -> matrix_ t' !! k =
    Some (mkEntry (name e) (filter (fun h => h <> dev) (preferred_hca e)) (filter (fun h => h <> dev) (avail_hca e)))) /\
  (forall h, h <> dev -> (h ∈ hca_list_ t' <-> exists k e, matrix_ t !! k = Some e /\ h ∈ preferred_hca e ++ avail_hca e)).
Proof.
  intros ND. unfold disableDevice. set (t' := resolve iter _).
  destruct (resolve_ok (disable_in dev <$> matrix_ t)) as [G [_ _ _ _ De]]. fold t' in De.
  assert (Hin : forall h, h ∈ hca_list_ t' <-> exists k e, matrix_ t !! k = Some e /\ h <> dev /\ h ∈ named e).
  { intros h. rewrite De. split.
    - intros (k & e' & (e & <- & He)%lookup_fmap_Some & Hh). exists k, e. destruct (ND k e He).
      unfold named, disable_in in *. cbn [preferred_hca avail_hca] in Hh.
      rewrite !erase_name_filter, <- filter_app, list_elem_of_filter in Hh by done. by destruct Hh.
    - intros (k & e & He & Hne & Hh). exists k, (disable_in dev e). rewrite lookup_fmap, He.
      split; [done|]. destruct (ND k e He). unfold named, disable_in in *. cbn [preferred_hca avail_hca].
      rewrite !erase_name_filter, <- filter_app, list_elem_of_filter by done. done. }
  split; [done|]. split; [|split].
  - rewrite Hin. by intros (k & e & _ & ? & _).
  - intros k e He. unfold t', resolve; simpl. rewrite lookup_fmap, He. simpl. unfold disable_in.
    destruct (ND k e He). by rewrite !erase_name_filter.
  - intros h Hne. rewrite Hin. split; [intros (k & e & ? & _ & ?); eauto|intros (k & e & ? & ?); eauto 6].
Qed.

(** ** Printing and reading back *)

Section json.
Context `{!JsonLaws J}.

Lemma names_array l : json_array (names_json l : J) (ofString <$> l).
Proof.
  unfold names_json. induction l as [|h l IH] using rev_ind; [apply array_empty|].
  rewrite fold_left_app, fmap_app. simpl. by apply array_append.
Qed.

Lemma entry_array e : json_array (entry_toJson e : J) [names_json (preferred_hca e); names_json (avail_hca e)].
Proof. apply (array_append _ [_]), (array_append _ []), array_empty. Qed.

Lemma strings_of_array (v : J) l : json_array v (ofString <$> l) -> strings_of (elements_of v) = Some l.
Proof.
  intros H. destruct (array_facts _ _ H) as (_ & _ & -> & _). clear H.
  induction l as [|h l IH]; [done|]. rewrite fmap_cons. cbn [strings_of]. by rewrite string_value, IH.
Qed.

Lemma matrix_object (m : gmap string TopologyEntry) :
  json_object (fold_left (fun v (p : string * TopologyEntry) => set_member v p.1 (entry_toJson p.2)) (iter m) (objectValue : J))
    (entry_toJson <$> m).
Proof.
  assert (G : forall l, NoDup l.*1 ->
    json_object (fold_left (fun v (p : string * TopologyEntry) => set_member v p.1 (entry_toJson p.2)) l (objectValue : J))
      (entry_toJson <$> (list_to_map l : gmap string TopologyEntry))).
  { induction l as [|[k e] l IH] using rev_ind; intros ND.
    - simpl. rewrite fmap_empty. apply object_empty.
    - pose proof ND as ND'. rewrite fmap_app in ND'. apply list.NoDup_app in ND' as (ND' & _ & _).
      rewrite fold_left_app. cbn [fold_left fst snd]. rewrite (list_to_map_proper (l ++ [(k, e)]) ((k, e) :: l)).
      + simpl. rewrite fmap_insert. by apply object_set, IH.
      + done.
      + symmetry. apply Permutation_cons_append. }
  specialize (G (iter m) (iter_nodup m)).
  by rewrite (list_to_map_proper _ _ (iter_nodup m) (iter_perm m)), list_to_map_to_list in G.
Qed.

Lemma parse_members_all (root : J) m ks : forall acc,
  json_object root (entry_toJson <$> m) ->
  (forall k, k ∈ ks -> exists e, m !! k = Some e /\ name e = k) ->
  exists m', parse_members root ks acc = (None, m') /\
    forall k, m' !! k = if decide (k ∈ ks) then m !! k else acc !! k.
Proof.
  induction ks as [|k ks IH]; intros acc Hroot Hks.
  - exists acc. split; [done|]. intros k. by rewrite decide_False by (intros H; inversion H).
  - destruct (Hks k) as (e & He & Hn); [by left|].
    assert (Hv : get_member root k = entry_toJson e).
    { apply (object_get _ (entry_toJson <$> m)); [done|]. by rewrite lookup_fmap, He. }
    destruct (array_facts _ _ (entry_array e)) as (Ha & Hs & _ & Hat).
    destruct (IH (<[k := e]> acc) Hroot) as (m' & Hp & Hm'); [intros k' ?; apply Hks; by right|].
    exists m'. split.
    + cbn [parse_members]. rewrite Hv, Ha, Hs, (Hat 0%nat _ eq_refl), (Hat 1%nat _ eq_refl).
      rewrite !(strings_of_array _ _ (names_array _)). cbn.
      destruct e as [n p a]. simpl in Hn. subst n. exact Hp.
    + intros k'. rewrite Hm', lookup_insert. destruct (decide (k' ∈ ks)).
      * by rewrite decide_True by (by right).
      * destruct (decide (k = k')) as [<-|]; [by rewrite decide_True by (by left)|].
        rewrite decide_False; [done|]. by intros [->|?]%elem_of_cons.
Qed.

(** What a topology prints is read back. *)
Lemma parse_print t t0 :
  (forall k e, matrix_ t !! k = Some e -> name e = k) ->
  parse iter (toString iter t) t0 = (Ret 0, resolve iter (matrix_ t)).
Proof.
  intros Hn. unfold parse, toString. set (v := fold_left _ _ _).
  pose proof (matrix_object (matrix_ t)) as Hv. fold v in Hv.
  destruct (print_parse _ _ Hv) as [Hne ->]. rewrite (proj2 (String.eqb_neq _ _)) by done.
  destruct (object_names _ _ Hv) as (ks & -> & Hks).
  assert (Hk : forall k, k ∈ ks <-> is_Some (matrix_ t !! k)).
  { intros k. rewrite (elem_of_Permutation_proper _ _ _ Hks), list_elem_of_fmap. split.
    - intros ([k' x] & -> & H%elem_of_map_to_list). rewrite lookup_fmap in H. simpl.
      destruct (matrix_ t !! k'); [by eexists|done].
    - intros [e He]. exists (k, entry_toJson e). split; [done|]. apply elem_of_map_to_list.
      by rewrite lookup_fmap, He. }
  destruct (parse_members_all v (matrix_ t) ks ∅ Hv) as (m' & -> & Hm').
  { intros k [e He]%Hk. exists e. split; [done|]. by apply Hn. }
  do 2 f_equal. apply map_eq. intros k. rewrite Hm', lookup_empty. case_decide as Hin; [done|].
  symmetry. apply eq_None_not_Some. by rewrite <- Hk.
Qed.

(** C36: reading back what a topology prints succeeds and gives the same matrix,
    freshly resolved, whatever the topology that reads it held before. *)
Theorem parse_toString_roundtrip t t0 :
  (forall k e, matrix_ t !! k = Some e -> name e = k) ->
  parse iter (toString iter t) t0 = (Ret 0, resolve iter (matrix_ t)).
Proof. apply parse_print. Qed.
End json.

(** ** Discovery *)

Lemma matrix_of_entries es k e :
  e ∈ es -> name e = k -> (forall e', e' ∈ es -> name e' = k -> e' = e) ->
  fold_left (fun m e => <[name e := e]> m) es (∅ : gmap string TopologyEntry) !! k = Some e.
Proof.
  induction es as [|x es IH] using rev_ind; intros Hin Hk Hu; [inversion Hin|].
  rewrite fold_left_app. cbn [fold_left]. destruct (decide (name x = k)) as [Hx|Hx].
  - rewrite (Hu x), Hk, lookup_insert; [by case_decide|apply elem_of_app; right; by left|done].
  - rewrite lookup_insert_ne by done. apply elem_of_app in Hin as [Hin|Hin%list_elem_of_singleton]; [|congruence].
    apply IH; [done|done|]. intros e' He'. apply Hu, elem_of_app. by left.
Qed.

Lemma slashes_range p : 0 <= slashes p <= Z.of_nat (String.length p).
Proof. induction p as [|c p IH]; simpl; [lia|]. destruct (Ascii.eqb c _); lia. Qed.

Lemma strip_common_length p : forall q,
  (String.length (strip_common p q).1 <= String.length p)%nat /\ (String.length (strip_common p q).2 <= String.length q)%nat.
Proof.
  induction p as [|c p IH]; intros [|d q]; simpl; try lia.
  destruct (Ascii.eqb c d); simpl; [|lia]. specialize (IH q). lia.
Qed.

Definition PATH_MAX : Z := 4096.
Context (realpath_short : forall p q, realpath p = Some q -> Z.of_nat (String.length q) < PATH_MAX).

Lemma getPciDistance_range bus1 bus2 : -1 <= getPciDistance realpath bus1 bus2 < INT_MAX.
Proof.
  unfold getPciDistance, INT_MAX.
  destruct (realpath _) as [p|] eqn:Hp; [|lia]. destruct (realpath _) as [q|] eqn:Hq in |- *; [|lia].
  pose proof (realpath_short _ _ Hp). pose proof (realpath_short _ _ Hq). unfold PATH_MAX in *.
  pose proof (strip_common_length p q). destruct (strip_common p q) as [p' q']. simpl in *.
  pose proof (slashes_range p'). pose proof (slashes_range q'). lia.
Qed.

Section nearest.
Context (bus : string).
Abbreviation dist h := (getPciDistance realpath (pci_bus_id h) bus).

(** What the search for the nearest devices knows after the devices [l]. *)
Record Nearest (l : list InfinibandDevice) (acc : Z * list string) : Prop := {
  nr_least : forall h, h ∈ l -> dist h < 0 \/ acc.1 <= dist h;
  nr_names : forall x, x ∈ acc.2 <-> exists h, h ∈ l /\ dev_name h = x /\ 0 <= dist h /\ dist h = acc.1;
  nr_found : acc.1 = INT_MAX \/ acc.2 <> [];
}.

Lemma nearest_fold l : Nearest l (fold_left (nearest_step realpath bus) l (INT_MAX, [])).
Proof.
  induction l as [|h l [LE NA FO]] using rev_ind.
  - split; simpl; [intros h H; inversion H| |by left].
    intros x. split; [intros H; inversion H|intros (h & H & _); inversion H].
  - rewrite fold_left_app. cbn [fold_left]. set (acc := fold_left _ l _) in *.
    pose proof (getPciDistance_range (pci_bus_id h) bus) as Hd.
    unfold nearest_step. destruct (0 <=? dist h) eqn:H0; zbool;
      [destruct (dist h <? acc.1) eqn:H1; zbool; [|destruct (dist h =? acc.1) eqn:H2; zbool]|];
      (split; cbn [fst snd];
       [intros h' [Hin| ->%list_elem_of_singleton]%elem_of_app; [destruct (LE h' Hin)|]; lia| |]); try (by right); try done.
    + intros x. rewrite list_elem_of_singleton. split.
      * intros ->. exists h. rewrite elem_of_app, list_elem_of_singleton. auto.
      * intros (h' & [Hin| ->%list_elem_of_singleton]%elem_of_app & <- & ? & ?); [|done].
        destruct (LE h' Hin); lia.
    + intros x. rewrite elem_of_app, list_elem_of_singleton, NA. split.
      * intros [(h' & ? & ? & ? & ?)| ->]; [exists h'|exists h]; rewrite elem_of_app, list_elem_of_singleton; auto.
      * intros (h' & [Hin| ->%list_elem_of_singleton]%elem_of_app & <- & ? & ?); [left; eauto|by right].
    + right. by destruct acc.2.
    + intros x. rewrite NA. split; intros (h' & Hin & <- & ? & ?); exists h'; [rewrite elem_of_app; auto|].
      apply elem_of_app in Hin as [Hin| ->%list_elem_of_singleton]; [done|lia].
    + intros x. rewrite NA. split; intros (h' & Hin & <- & ? & ?); exists h'; [rewrite elem_of_app; auto|].
      apply elem_of_app in Hin as [Hin| ->%list_elem_of_singleton]; [done|lia].
Qed.

Lemma nearest_exact hcas h : NoDup (dev_name <$> hcas) -> h ∈ hcas ->
  dev_name h ∈ (fold_left (nearest_step realpath bus) hcas (INT_MAX, [])).2 <->
  0 <= dist h /\ forall h', h' ∈ hcas -> dist h' < 0 \/ dist h <= dist h'.
Proof.
  intros ND Hin. destruct (nearest_fold hcas) as [LE NA FO]. set (acc := fold_left _ _ _) in *.
  rewrite NA. split.
  - intros (h' & Hin' & Hn & ? & Hd). assert (h' = h) as ->; [|split; [done|rewrite Hd; auto]].
    by apply (NoDup_fmap_elem_inj dev_name hcas).
  - intros [H0 Hle]. exists h. split_and!; try done. pose proof (getPciDistance_range (pci_bus_id h) bus).
    destruct (LE h Hin) as [?|Hm]; [lia|]. destruct FO as [?|Hne]; [lia|].
    destruct acc.2 as [|x l] eqn:E; [done|]. destruct (proj1 (NA x)) as (h' & Hin' & _ & ? & Hd'); [left|].
    destruct (Hle h' Hin'); lia.
Qed.
End nearest.

(** C37: discovery splits the devices of every location in two: a NUMA node
    prefers the devices attached to it, a GPU the devices at the least PCI
    distance from it, and the others stay available. *)
Theorem discovery_prefers_nearest hcas nodes gpus :
  NoDup (dev_name <$> hcas) -> NoDup gpus.*1 ->
  let m := matrix_ (discover realpath iter hcas nodes gpus).2 in
  (forall n, n ∈ nodes -> exists e, m !! ("cpu:" +:+ pretty n) = Some e /\
    preferred_hca e ++ avail_hca e ≡ₚ dev_name <$> hcas /\
    forall h, h ∈ hcas -> (dev_name h ∈ preferred_hca e <-> numa_node h = n)) /\
  (forall i bus, (i, bus) ∈ gpus -> exists e, m !! ("cuda:" +:+ pretty i) = Some e /\
    preferred_hca e ++ avail_hca e ≡ₚ dev_name <$> hcas /\
    forall h, h ∈ hcas -> (dev_name h ∈ preferred_hca e <->
      let d h := getPciDistance realpath (pci_bus_id h) bus in
      0 <= d h /\ forall h', h' ∈ hcas -> d h' < 0 \/ d h <= d h')).
Proof.
  intros ND NDg m. unfold m, discover, resolve; cbn [snd matrix_]. clear m. split.
  - intros n Hn. exists (cpu_entry hcas n). split; [|split].
    + apply matrix_of_entries; [apply elem_of_app; left; apply list_elem_of_fmap; eauto|done|].
      intros e' [(n' & -> & _)%list_elem_of_fmap|([i bus] & -> & _)%list_elem_of_fmap]%elem_of_app Hk; [|done].
      injection Hk as Hk. apply (pretty_Z_inj _ _) in Hk as ->. done.
    + simpl. rewrite <- fmap_app. apply fmap_Permutation, filter_app_complement.
    + intros h Hh. simpl. split.
      * intros (h' & Hn' & [Hf Hin']%list_elem_of_filter)%list_elem_of_fmap. 
        assert (h = h') as ->; [|done]. by apply (NoDup_fmap_elem_inj dev_name hcas).
      * intros Hf. apply list_elem_of_fmap. exists h. by rewrite list_elem_of_filter.
  - intros i bus Hi. exists (cuda_entry realpath hcas (i, bus)). split; [|split].
    + apply matrix_of_entries; [apply elem_of_app; right; apply list_elem_of_fmap; eauto|done|].
      intros e' [(n' & -> & _)%list_elem_of_fmap|([j bus'] & -> & Hj)%list_elem_of_fmap]%elem_of_app Hk; [done|].
      injection Hk as Hk. apply (pretty_Z_inj _ _) in Hk as ->. f_equal. by apply (NoDup_fmap_elem_inj fst gpus).
    + simpl. apply filter_app_complement.
    + intros h Hh. simpl. rewrite list_elem_of_filter, (nearest_exact bus hcas h ND Hh), list_elem_of_fmap.
      split; [tauto|]. intros H. split; [done|eauto].
Qed.

End operations.

(** ** Concrete topologies *)

Definition iter0 (m : gmap string TopologyEntry) : list (string * TopologyEntry) := map_to_list m.
Definition two_nodes : gmap string TopologyEntry :=
  <["cpu:0" := mkEntry "cpu:0" ["mlx5_0"] ["mlx5_1"]]> (<["cpu:1" := mkEntry "cpu:1" ["mlx5_1"] ["mlx5_0"]]> ∅).
Definition demo : Topology := resolve iter0 two_nodes.
Definition realpath0 (p : string) : option string :=
  if String.eqb p "/sys/bus/pci/devices/a" then Some "/sys/devices/pci0/a"%string
  else if String.eqb p "/sys/bus/pci/devices/b" then Some "/sys/devices/pci1/x/b"%string
  else if String.eqb p "/sys/bus/pci/devices/g" then Some "/sys/devices/pci0/g"%string else None.

Lemma iter0_ok m : iter0 m ≡ₚ map_to_list m.
Proof. done. Qed.
Lemma realpath0_short p q : realpath0 p = Some q -> Z.of_nat (String.length q) < PATH_MAX.
Proof. unfold realpath0. repeat case_match; intros; simplify_eq; by vm_compute. Qed.

Definition hca_a := mkDevice "mlx5_0" "a" 0.
Definition hca_b := mkDevice "mlx5_1" "b" 1.

Lemma demo_step : rtc (topo_step iter0 realpath0) empty_topology
  (parse iter0 (toStyledString (object [("cpu:0", GenLeaf "mlx5_0")]))
     (discover realpath0 iter0 [hca_a; hca_b] [0; 1] [(0, "g"%string)]).2).2.
Proof.
  eapply rtc_l; [apply (step_discover iter0 realpath0 _ [hca_a; hca_b] [0; 1] [(0, "g"%string)])|].
  eapply rtc_l; [apply step_parse|]. apply rtc_refl.
Qed.

(** The second attempt for the GPU after a discovery and a failed read. *)
Lemma selection_safe_witness : exists d,
  select 7 "cuda:0" 1 (parse iter0 (toStyledString (object [("cpu:0", GenLeaf "mlx5_0")]))
     (discover realpath0 iter0 [hca_a; hca_b] [0; 1] [(0, "g"%string)]).2).2 = Some d /\ 0 <= d < 2.
Proof.
  destruct (selection_safe iter0 iter0_ok realpath0 _ 7 "cuda:0" "" 1 demo_step ltac:(lia) _ (or_introl eq_refl))
    as (d & Hd & Hr).
  exists d. split; [exact Hd|]. destruct Hr as [[_ Hr]|Hr]; [by vm_compute in Hr|exact Hr].
Defined.

Lemma resolve_mirrors_witness : NoDup (hca_list_ demo).
Proof. exact (proj1 (resolve_mirrors iter0 iter0_ok two_nodes)). Defined.

Lemma selection_follows_matrix_witness : exists d, select 5 "cpu:1" 2 demo = Some d /\
  aget (hca_list_ demo) d = Some "mlx5_0"%string.
Proof.
  destruct (selection_follows_matrix iter0 iter0_ok two_nodes "cpu:1" (mkEntry "cpu:1" ["mlx5_1"] ["mlx5_0"]) 5
    eq_refl ltac:(done) ltac:(done)) as (_ & Hr & _).
  exact (Hr 2 ltac:(lia)).
Defined.

Lemma disabled_device_gone_witness : "mlx5_1"%string ∉ hca_list_ (disableDevice iter0 "mlx5_1" demo).2.
Proof.
  assert (ND : forall k e, matrix_ demo !! k = Some e -> NoDup (preferred_hca e) /\ NoDup (avail_hca e)).
  { change (matrix_ demo) with two_nodes. unfold two_nodes.
    intros k e [[<- <-]|[_ [[<- <-]|[_ He]]%lookup_insert_Some]]%lookup_insert_Some;
      [split; apply NoDup_singleton..|by rewrite lookup_empty in He]. }
  exact (proj1 (proj2 (disabled_device_gone iter0 iter0_ok demo "mlx5_1" ND))).
Defined.

Lemma parse_toString_roundtrip_witness :
  parse iter0 (toString iter0 demo) empty_topology = (Ret 0, resolve iter0 two_nodes).
Proof.
  apply (parse_toString_roundtrip iter0 iter0_ok demo empty_topology).
  change (matrix_ demo) with two_nodes. unfold two_nodes.
  intros k e [[<- <-]|[_ [[<- <-]|[_ He]]%lookup_insert_Some]]%lookup_insert_Some;
    [done..|by rewrite lookup_empty in He].
Defined.

Lemma discovery_prefers_nearest_witness : exists e,
  matrix_ (discover realpath0 iter0 [hca_a; hca_b] [0; 1] [(0, "g"%string)]).2 !! "cuda:0"%string = Some e /\
  "mlx5_0"%string ∈ preferred_hca e.
Proof.
  destruct (discovery_prefers_nearest iter0 realpath0 realpath0_short [hca_a; hca_b] [0; 1] [(0, "g"%string)])
    as [_ H]; [by apply (bool_decide_unpack _)|by apply (bool_decide_unpack _)|].
  destruct (H 0 "g"%string) as (e & He & _ & Hp); [left|]. exists e. split; [exact He|].
  apply (Hp hca_a); [left|]. split; [by vm_compute|].
  intros h' [-> |[-> |Hn]%elem_of_cons]%elem_of_cons; [right; by vm_compute..|inversion Hn].
Defined.

(** Reading an entry that is not a pair of lists empties the matrix while the
    selection goes on answering from the old one. *)
Lemma parse_failure_keeps_selection_witness :
  let t' := (parse iter0 (toStyledString (object [("cpu:0", GenLeaf "mlx5_0")])) demo).2 in
  matrix_ t' = ∅ /\ resolved_matrix_ t' = resolved_matrix_ demo /\ select 0 "cpu:0" 0 t' = Some 1.
Proof.
  assert (Hf : (parse iter0 (toStyledString (object [("cpu:0", GenLeaf "mlx5_0")])) demo).1 <> Ret 0).
  { vm_compute. discriminate. }
  assert (Hm : matrix_ (parse iter0 (toStyledString (object [("cpu:0", GenLeaf "mlx5_0")])) demo).2 = ∅).
  { vm_compute. reflexivity. }
  pose proof (parse_failure_keeps_selection iter0 _ demo Hf) as Hp. revert Hp Hm.
  generalize (parse iter0 (toStyledString (object [("cpu:0", GenLeaf "mlx5_0")])) demo).2.
  intros t (_ & Hr & Hs & _) Hm. split; [exact Hm|]. split; [exact Hr|].
  rewrite Hs. vm_compute. reflexivity.
Defined.

End TopoProps.
