(* ===== verification/Endpoint.v ===== *)
(** * Endpoint: one RDMA connection

    Models class [RdmaEndPoint] of mooncake-transfer-engine:
    include/transport/rdma_transport/rdma_endpoint.h and
    src/transport/rdma_transport/rdma_endpoint.cpp, without the handshake.
    Endpoints are objects of a heap, named by a number; the counters of
    outstanding work requests belong to completion queues and are shared by
    the endpoints of a queue.

    Whether the verbs library creates or destroys a queue pair is an argument.
    [None] is undefined behaviour: a null or destroyed queue pair, memory that
    is not initialised or already deleted. *)

From Stdlib Require Import ZArith Lia.
From stdpp Require Import base list gmap strings numbers.
From S2P Require Import Prelude.

Open Scope moon_scope.
Open Scope Z_scope.

Module Endpoint.

Definition ERR_ENDPOINT : Z := -201.

Inductive Status : Type := INITIALIZING | UNCONNECTED | CONNECTED.
#[export] Instance Status_eq_dec : EqDecision Status.
Proof. solve_decision. Defined.

Inductive QP : Type := QNull | QLive | QDestroyed.

(** [wr_depth_list_]: [None] when there is no array, else the cells, [None]
    for a cell never written. *)
Record RdmaEndPoint : Type := mkEp {
  status_ : Status;
  qp_list_ : list QP;
  peer_nic_path_ : string;
  wr_depth_list_ : option (list (option Z));
  max_wr_depth_ : Z;
  active_ : bool;
  cq_ : nat;
  inactive_time_ : Z;
}.

Definition set_status x e := mkEp x (qp_list_ e) (peer_nic_path_ e) (wr_depth_list_ e) (max_wr_depth_ e) (active_ e) (cq_ e) (inactive_time_ e).
Definition set_qps x e := mkEp (status_ e) x (peer_nic_path_ e) (wr_depth_list_ e) (max_wr_depth_ e) (active_ e) (cq_ e) (inactive_time_ e).
Definition set_path x e := mkEp (status_ e) (qp_list_ e) x (wr_depth_list_ e) (max_wr_depth_ e) (active_ e) (cq_ e) (inactive_time_ e).
Definition set_depths x e := mkEp (status_ e) (qp_list_ e) (peer_nic_path_ e) x (max_wr_depth_ e) (active_ e) (cq_ e) (inactive_time_ e).

Definition new_endpoint : RdmaEndPoint := mkEp INITIALIZING [] "" None 0 true 0 0.

(** The heap of endpoints and the outstanding counts of the completion queues. *)
Record World : Type := mkWorld {
  eps : gmap nat RdmaEndPoint;
  next_ep : nat;
  cq_outstanding : gmap nat Z;
}.
Abbreviation W := (ST World).

Definition ep_get (id : nat) : W RdmaEndPoint := fun w =>
  match eps w !! id with Some e => Some (e, w) | None => None end.
Definition ep_put (id : nat) (e : RdmaEndPoint) : W unit :=
  modify (fun w => mkWorld (<[id := e]> (eps w)) (next_ep w) (cq_outstanding w)).
Definition ep_delete (id : nat) : W unit :=
  modify (fun w => mkWorld (delete id (eps w)) (next_ep w) (cq_outstanding w)).

Definition s32 (x : Z) : Z := (x + 2 ^ 31) mod 2 ^ 32 - 2 ^ 31.

(** [__sync_fetch_and_sub(cq_outstanding_, d)]. *)
Definition cq_sub (cq : nat) (d : Z) : W unit :=
  modify (fun w => mkWorld (eps w) (next_ep w) (<[cq := s32 (default 0 (cq_outstanding w !! cq) - d)]> (cq_outstanding w))).

Definition make_shared : W nat := fun w =>
  Some (next_ep w, mkWorld (<[next_ep w := new_endpoint]> (eps w)) (S (next_ep w)) (cq_outstanding w)).

(** [wr_depth_list_[i] = v] and its read. *)
Definition depth_set (e : RdmaEndPoint) (i : nat) (v : Z) : option RdmaEndPoint :=
  match wr_depth_list_ e with
  | Some l => if decide (i < length l)%nat then Some (set_depths (Some (<[i := Some v]> l)) e) else None
  | None => None
  end.
Definition depth_get (e : RdmaEndPoint) (i : nat) : option Z :=
  match wr_depth_list_ e with Some l => mjoin (l !! i) | None => None end.

Definition resize (n : nat) (l : list QP) : list QP := take n l ++ replicate (n - length l) QNull.

(** Creates the queue pairs [i .. i+k-1]. *)
Fixpoint create_qps (create_ok : nat -> bool) (id i k : nat) : W Z :=
  match k with
  | O => let* e := ep_get id in do* ep_put id (set_status UNCONNECTED e) in ret 0
  | S k =>
      let* e := ep_get id in
      let* e := lift (depth_set e i 0) in
      if create_ok i then
        do* ep_put id (set_qps (<[i := QLive]> (qp_list_ e)) e) in create_qps create_ok id (S i) k
      else
        do* ep_put id (set_qps (<[i := QNull]> (qp_list_ e)) e) in ret ERR_ENDPOINT
  end.

Definition construct (create_ok : nat -> bool) (id cq num_qp_list : nat) (max_wr_depth : Z) : W Z :=
  let* e := ep_get id in
  if negb (bool_decide (status_ e = INITIALIZING)) then ret ERR_ENDPOINT
  else
    do* ep_put id (mkEp (status_ e) (resize num_qp_list (qp_list_ e)) (peer_nic_path_ e)
          (Some (replicate num_qp_list None)) (s32 max_wr_depth) (active_ e) cq (inactive_time_ e)) in
    create_qps create_ok id 0 num_qp_list.

(** Gives the outstanding requests of queue pair [i] back to the counter. *)
Definition drain (id i : nat) : W unit :=
  let* e := ep_get id in
  let* d := lift (depth_get e i) in
  when (negb (d =? 0))
    (do* cq_sub (cq_ e) d in
     let* e := lift (depth_set e i 0) in ep_put id e).

(** [None] of [destroy_ok] does not occur: [false] is an error of the library. *)
Fixpoint destroy_qps (destroy_ok : nat -> bool) (id i k : nat) : W bool :=
  match k with
  | O => ret true
  | S k =>
      let* e := ep_get id in
      match qp_list_ e !! i with
      | Some QLive =>
          if destroy_ok i then
            do* ep_put id (set_qps (<[i := QDestroyed]> (qp_list_ e)) e) in
            do* drain id i in
            destroy_qps destroy_ok id (S i) k
          else ret false
      | _ => ub
      end
  end.

Definition deconstruct (destroy_ok : nat -> bool) (id : nat) : W Z :=
  let* e := ep_get id in
  let* ok := destroy_qps destroy_ok id 0 (length (qp_list_ e)) in
  if ok then
    let* e := ep_get id in
    match wr_depth_list_ e with
    | None => ub
    | Some _ => do* ep_put id (set_depths None (set_qps [] e)) in ret 0
    end
  else ret ERR_ENDPOINT.

Definition destroyQP := deconstruct.

(** [~RdmaEndPoint], run when the last shared pointer goes. *)
Definition destructor (destroy_ok : nat -> bool) (id : nat) : W unit :=
  let* e := ep_get id in
  do* (match qp_list_ e with [] => ret tt | _ => let* _c := deconstruct destroy_ok id in ret tt end) in
  ep_delete id.

Fixpoint reset_qps (id i k : nat) : W unit :=
  match k with
  | O => ret tt
  | S k =>
      let* e := ep_get id in
      match qp_list_ e !! i with
      | Some QLive => do* drain id i in reset_qps id (S i) k
      | _ => ub
      end
  end.

Definition disconnectUnlocked (id : nat) : W unit :=
  let* e := ep_get id in
  do* reset_qps id 0 (length (qp_list_ e)) in
  let* e := ep_get id in
  ep_put id (set_status UNCONNECTED e).

Definition disconnect := disconnectUnlocked.

Definition setPeerNicPath (id : nat) (path : string) : W unit :=
  let* e := ep_get id in
  do* when (bool_decide (status_ e = CONNECTED)) (disconnectUnlocked id) in
  let* e := ep_get id in
  ep_put id (set_path path e).

Definition set_active (id : nat) (flag : bool) (now : Z) : W unit :=
  let* e := ep_get id in
  ep_put id (mkEp (status_ e) (qp_list_ e) (peer_nic_path_ e) (wr_depth_list_ e) (max_wr_depth_ e) flag (cq_ e)
    (if flag then inactive_time_ e else now)).

Fixpoint any_outstanding (e : RdmaEndPoint) (i k : nat) : option bool :=
  match k with
  | O => Some false
  | S k =>
      match depth_get e i with
      | None => None
      | Some d => if negb (d =? 0) then Some true else any_outstanding e (S i) k
      end
  end.

Definition hasOutstandingSlice (id : nat) : W bool :=
  let* e := ep_get id in
  if active_ e then ret true else lift (any_outstanding e 0 (length (qp_list_ e))).

Definition getQPNumber (id : nat) : W nat :=
  let* e := ep_get id in ret (length (qp_list_ e)).

(** ** Submission of work requests *)

Definition cq_add (cq : nat) (d : Z) : W unit :=
  modify (fun w => mkWorld (eps w) (next_ep w) (<[cq := s32 (default 0 (cq_outstanding w !! cq) + d)]> (cq_outstanding w))).

(** [__sync_fetch_and_sub] on a cell of [wr_depth_list_], through a pointer to
    the cell: endpoint and position. *)
Definition depth_sub (id i : nat) (d : Z) : W unit :=
  let* e := ep_get id in
  let* v := lift (depth_get e i) in
  let* e := lift (depth_set e i (s32 (v - d))) in
  ep_put id e.

(** The loop over the requests the device refused. *)
Fixpoint give_back (id i cq k : nat) : W unit :=
  match k with
  | O => ret tt
  | S k => do* depth_sub id i 1 in do* cq_sub cq 1 in give_back id i cq k
  end.

(** What [submitPostSend] does to the slices it is given. *)
Record Submitted : Type := mkSubmitted {
  slice_list : list nat;         (** left for a later call *)
  failed_slice_list : list nat;
  accepted : list nat;           (** in the hands of the device *)
  on_qp : nat;
}.

(** [draw] is the random number; [post] is the answer of [ibv_post_send]:
    [None] when all requests are taken, [Some k] when it fails at the [k]-th. *)
Definition submitPostSend (max_cqe draw : Z) (post : option nat) (id : nat) (slices : list nat) : W Submitted :=
  let* e := ep_get id in
  if negb (active_ e) then ret (mkSubmitted slices [] [] 0)
  else
    let n := Z.of_nat (length (qp_list_ e)) in
    if n =? 0 then ub
    else
      let qp_index := Z.to_nat (draw mod n) in
      let* depth := lift (depth_get e qp_index) in
      let* outstanding := gets (fun w => default 0 (cq_outstanding w !! cq_ e)) in
      let wr_count := Z.min (max_wr_depth_ e - depth) (s32 (Z.of_nat (length slices))) in
      let wr_count := Z.min (s32 max_cqe - outstanding) wr_count in
      if wr_count <=? 0 then ret (mkSubmitted slices [] [] 0)
      else
        let k := Z.to_nat wr_count in
        let* e := lift (depth_set e qp_index (s32 (depth + wr_count))) in
        do* ep_put id e in
        do* cq_add (cq_ e) wr_count in
        match qp_list_ e !! qp_index with
        | Some QLive =>
            let taken := match post with None => k | Some j => Nat.min j k end in
            do* give_back id qp_index (cq_ e) (k - taken) in
            ret (mkSubmitted (drop k slices) (drop taken (take k slices)) (take taken slices) qp_index)
        | _ => ub
        end.

(** The counters after polling a completion queue ([WorkerPool::performPollCq]):
    the completed requests come with pointers to the cells that count them,
    which are grouped before the cells are written. *)
Definition qp_depth_set (completed : list (nat * nat)) : gmap (nat * nat) Z :=
  fold_left (fun m c => match m !! c with Some v => <[c := v + 1]> m | None => <[c := 1]> m end) completed ∅.

Fixpoint sub_cells (l : list (nat * nat * Z)) : W unit :=
  match l with [] => ret tt | (c, d) :: l => do* depth_sub c.1 c.2 d in sub_cells l end.

Definition poll_counters (cq : nat) (completed : list (nat * nat)) : W unit :=
  do* when (negb (length completed =? 0)%nat) (cq_sub cq (Z.of_nat (length completed))) in
  sub_cells (map_to_list (qp_depth_set completed)).

End Endpoint.
