(* ===== verification/EndpointStore.v ===== *)
(** * EndpointStore: the caches of connections

    Models mooncake-transfer-engine:
    include/transport/rdma_transport/endpoint_store.h and
    src/transport/rdma_transport/endpoint_store.cpp: [FIFOEndpointStore] and
    [SIEVEEndpointStore], with [RdmaContext::endpoint] which uses the latter.

    The nodes of [fifo_list_] have identities, which the iterators of
    [fifo_map_] and [hand_] name; using an iterator whose node was erased is
    undefined behaviour.  A loop that does not end is [None] as well: its fuel
    is the number of endpoints, and it would otherwise repeat itself.  An
    operation runs under the lock of the store, so it is one step. *)

From Stdlib Require Import ZArith Lia.
From stdpp Require Import base list gmap strings numbers.
From S2P Require Import Prelude Endpoint.
Import Endpoint.

Open Scope moon_scope.
Open Scope Z_scope.

Module EndpointStore.

(** What the two stores share; [V] is an endpoint, for SIEVE with its mark. *)
Record Store (V : Type) : Type := mkStore {
  endpoint_map_ : gmap string V;
  fifo_map_ : gmap string nat;
  fifo_list_ : list (nat * string);
  next_node : nat;
  waiting_list_ : gset nat;
  max_size_ : Z;
}.
Arguments mkStore {V}.
Arguments endpoint_map_ {V}.
Arguments fifo_map_ {V}.
Arguments fifo_list_ {V}.
Arguments next_node {V}.
Arguments waiting_list_ {V}.
Arguments max_size_ {V}.

Definition set_map {V} x (s : Store V) : Store V := mkStore x (fifo_map_ s) (fifo_list_ s) (next_node s) (waiting_list_ s) (max_size_ s).
Definition set_fmap {V} x (s : Store V) : Store V := mkStore (endpoint_map_ s) x (fifo_list_ s) (next_node s) (waiting_list_ s) (max_size_ s).
Definition set_list {V} x (s : Store V) : Store V := mkStore (endpoint_map_ s) (fifo_map_ s) x (next_node s) (waiting_list_ s) (max_size_ s).
Definition set_waiting {V} x (s : Store V) : Store V := mkStore (endpoint_map_ s) (fifo_map_ s) (fifo_list_ s) (next_node s) x (max_size_ s).

Definition getSize {V} (s : Store V) : Z := Z.of_nat (size (endpoint_map_ s)).

(** [fifo_list_.erase(it)]. *)
Definition erase_node (n : nat) (l : list (nat * string)) : option (list (nat * string)) :=
  match list_find (fun p => p.1 = n) l with Some (i, _) => Some (delete i l) | None => None end.

Section verbs.
Context (create_ok destroy_ok : nat -> nat -> bool).
(** Whether someone else holds a shared pointer to the endpoint. *)
Context (held : nat -> bool).

(** The store lets go of an endpoint. *)
Definition release (id : nat) : W unit := if held id then ret tt else destructor (destroy_ok id) id.
Fixpoint release_all (ids : list nat) : W unit :=
  match ids with [] => ret tt | id :: ids => do* release id in release_all ids end.

(** The endpoints of the waiting list that are done. *)
Fixpoint done_waiting (ids : list nat) : W (list nat) :=
  match ids with
  | [] => ret []
  | id :: ids =>
      let* o := hasOutstandingSlice id in
      let* r := done_waiting ids in
      ret (if o then r else id :: r)
  end.

(** [construct] with the configuration, on a fresh endpoint; [None] answers
    a null pointer, after the endpoint was destroyed. *)
Definition new_constructed (cq num_qp_per_ep : nat) (max_wr : Z) : W (option nat) :=
  let* id := make_shared in
  let* rc := construct (create_ok id) id cq num_qp_per_ep max_wr in
  if rc =? 0 then ret (Some id) else do* destructor (destroy_ok id) id in ret None.

Fixpoint total_qps (ids : list nat) : W nat :=
  match ids with
  | [] => ret 0%nat
  | id :: ids => let* n := getQPNumber id in let* r := total_qps ids in ret (n + r)%nat
  end.
Fixpoint destroy_all (ids : list nat) : W unit :=
  match ids with [] => ret tt | id :: ids => let* _c := destroyQP (destroy_ok id) id in destroy_all ids end.
Fixpoint disconnect_all (ids : list nat) : W unit :=
  match ids with [] => ret tt | id :: ids => do* disconnect id in disconnect_all ids end.

(** ** FIFO *)

Abbreviation FIFO := (Store nat).
Abbreviation F := (ST (FIFO * World)).

Definition fst_upd {S} (f : S -> S) : ST (S * World) unit := modify (fun p => (f p.1, p.2)).
Definition the_store {S} : ST (S * World) S := gets fst.
Definition on_world {S A} (c : W A) : ST (S * World) A := fun p =>
  match c p.2 with Some (a, w) => Some (a, (p.1, w)) | None => None end.

Definition fifo_getEndpoint (path : string) : F (option nat) :=
  let* m := gets (fun p : FIFO * World => endpoint_map_ p.1) in ret (m !! path).

Definition fifo_evictEndpoint : F unit :=
  let* s := the_store in
  match fifo_list_ s with
  | [] => ret tt
  | (_, victim) :: l =>
      match endpoint_map_ s !! victim with
      | None => ub
      | Some id =>
          fst_upd (fun s => set_map (delete victim (endpoint_map_ s))
            (set_waiting ({[id]} ∪ waiting_list_ s) (set_fmap (delete victim (fifo_map_ s)) (set_list l s))))
      end
  end.

(** [while (getSize() >= max_size_) evictEndpoint();] *)
Fixpoint fifo_make_room (fuel : nat) : F unit :=
  let* s := the_store in
  if max_size_ s <=? getSize s then
    match fuel with O => ub | S fuel => do* fifo_evictEndpoint in fifo_make_room fuel end
  else ret tt.

Definition fifo_insertEndpoint (cq num_qp_per_ep : nat) (max_wr : Z) (path : string) : F (option nat) :=
  let* s := the_store in
  match endpoint_map_ s !! path with
  | Some id => ret (Some id)
  | None =>
      let* r := on_world (new_constructed cq num_qp_per_ep max_wr) in
      match r with
      | None => ret None
      | Some id =>
          do* fifo_make_room (size (endpoint_map_ s)) in
          do* on_world (setPeerNicPath id path) in
          do* fst_upd (fun s => mkStore (<[path := id]> (endpoint_map_ s)) (<[path := next_node s]> (fifo_map_ s))
                (fifo_list_ s ++ [(next_node s, path)]) (S (next_node s)) (waiting_list_ s) (max_size_ s)) in
          ret (Some id)
      end
  end.

Definition fifo_deleteEndpoint (path : string) : F Z :=
  let* s := the_store in
  match endpoint_map_ s !! path with
  | None => ret 0
  | Some id =>
      let* n := lift (fifo_map_ s !! path) in
      let* l := lift (erase_node n (fifo_list_ s)) in
      do* fst_upd (fun s => set_waiting ({[id]} ∪ waiting_list_ s) (set_map (delete path (endpoint_map_ s))
            (set_fmap (delete path (fifo_map_ s)) (set_list l s)))) in
      ret 0
  end.

Definition fifo_reclaimEndpoint : F unit :=
  let* s := the_store in
  let* to_delete := on_world (done_waiting (elements (waiting_list_ s))) in
  do* fst_upd (fun s => set_waiting (waiting_list_ s ∖ list_to_set to_delete) s) in
  on_world (release_all to_delete).

Definition fifo_getTotalQPNumber : F nat :=
  let* s := the_store in on_world (total_qps (snd <$> map_to_list (endpoint_map_ s))).
Definition fifo_destroyQPs : F Z :=
  let* s := the_store in do* on_world (destroy_all (snd <$> map_to_list (endpoint_map_ s))) in ret 0.
Definition fifo_disconnectQPs : F Z :=
  let* s := the_store in do* on_world (disconnect_all (snd <$> map_to_list (endpoint_map_ s))) in ret 0.

(** ** SIEVE *)

Record SIEVE : Type := mkSieve { store : Store (nat * bool); hand_ : option nat; waiting_list_len_ : Z }.
Abbreviation V := (ST (SIEVE * World)).

Definition upd_store (f : Store (nat * bool) -> Store (nat * bool)) (s : SIEVE) : SIEVE :=
  mkSieve (f (store s)) (hand_ s) (waiting_list_len_ s).

Definition sieve_getEndpoint (path : string) : V (option nat) :=
  let* s := the_store in
  match endpoint_map_ (store s) !! path with
  | Some (id, _) => do* fst_upd (upd_store (fun s => set_map (<[path := (id, true)]> (endpoint_map_ s)) s)) in ret (Some id)
  | None => ret None
  end.

(** The node before [n] in the list, the last one for the first. *)
Definition circular_prev (n : nat) (l : list (nat * string)) : option nat :=
  match list_find (fun p => p.1 = n) l with
  | None => None
  | Some (O, _) => fst <$> list.last l
  | Some (S i, _) => fst <$> l !! i
  end.
Definition key_at (n : nat) (l : list (nat * string)) : option string := (fun r => r.2.2) <$> list_find (fun p => p.1 = n) l.

(** Walks back from [o] over marked endpoints, taking their marks away;
    answers the node of the first without a mark, and its endpoint. *)
Fixpoint sieve_walk (fuel : nat) (o : nat) (s : Store (nat * bool)) : option (nat * string * nat * Store (nat * bool)) :=
  match key_at o (fifo_list_ s) with
  | None => None
  | Some victim =>
      match endpoint_map_ s !! victim with
      | None => None
      | Some (id, visited) =>
          if (visited : bool) then
            match fuel, circular_prev o (fifo_list_ s) with
            | S fuel, Some o' => sieve_walk fuel o' (set_map (<[victim := (id, false)]> (endpoint_map_ s)) s)
            | _, _ => None
            end
          else Some (o, victim, id, s)
      end
  end.

Definition sieve_evictEndpoint (now : Z) : V unit :=
  let* s := the_store in
  match fifo_list_ (store s) with
  | [] => ret tt
  | l =>
      let* o := lift (match hand_ s with Some o => Some o | None => fst <$> list.last l end) in
      let* r := lift (sieve_walk (length l) o (store s)) in
      let '(o, victim, id, st) := r in
      let* hand := lift (circular_prev o l) in
      let* l' := lift (erase_node o l) in
      do* on_world (set_active id false now) in
      fst_upd (fun s => mkSieve
        (set_map (delete victim (endpoint_map_ st)) (set_waiting ({[id]} ∪ waiting_list_ st)
          (set_fmap (delete victim (fifo_map_ st)) (set_list l' st))))
        (Some hand) (s32 (waiting_list_len_ s + 1)))
  end.

Fixpoint sieve_make_room (fuel : nat) (now : Z) : V unit :=
  let* s := the_store in
  if max_size_ (store s) <=? getSize (store s) then
    match fuel with O => ub | S fuel => do* sieve_evictEndpoint now in sieve_make_room fuel now end
  else ret tt.

Definition sieve_insertEndpoint (now : Z) (cq num_qp_per_ep : nat) (max_wr : Z) (path : string) : V (option nat) :=
  let* s := the_store in
  match endpoint_map_ (store s) !! path with
  | Some (id, _) => ret (Some id)
  | None =>
      let* r := on_world (new_constructed cq num_qp_per_ep max_wr) in
      match r with
      | None => ret None
      | Some id =>
          do* sieve_make_room (size (endpoint_map_ (store s))) now in
          do* on_world (setPeerNicPath id path) in
          do* fst_upd (upd_store (fun s => mkStore (<[path := (id, false)]> (endpoint_map_ s)) (<[path := next_node s]> (fifo_map_ s))
                ((next_node s, path) :: fifo_list_ s) (S (next_node s)) (waiting_list_ s) (max_size_ s))) in
          ret (Some id)
      end
  end.

Definition sieve_deleteEndpoint (path : string) : V Z :=
  let* s := the_store in
  let st := store s in
  match endpoint_map_ st !! path with
  | None => ret 0
  | Some (id, _) =>
      let* n := lift (fifo_map_ st !! path) in
      let* hand := lift (
        if decide (hand_ s = Some n) then
          match fifo_list_ st with
          | [] => None
          | p :: _ => if decide (p.1 = n) then Some None else Some <$> circular_prev n (fifo_list_ st)
          end
        else Some (hand_ s)) in
      let* l := lift (erase_node n (fifo_list_ st)) in
      do* fst_upd (fun s => mkSieve
        (set_waiting ({[id]} ∪ waiting_list_ st) (set_map (delete path (endpoint_map_ st))
          (set_fmap (delete path (fifo_map_ st)) (set_list l st))))
        hand (s32 (waiting_list_len_ s + 1))) in
      ret 0
  end.

Definition sieve_reclaimEndpoint : V unit :=
  let* s := the_store in
  if waiting_list_len_ s =? 0 then ret tt
  else
    let* to_delete := on_world (done_waiting (elements (waiting_list_ (store s)))) in
    do* fst_upd (fun s => mkSieve (set_waiting (waiting_list_ (store s) ∖ list_to_set to_delete) (store s))
          (hand_ s) (s32 (waiting_list_len_ s - Z.of_nat (length to_delete)))) in
    on_world (release_all to_delete).

Definition sieve_ids (s : SIEVE) : list nat :=
  elements (waiting_list_ (store s)) ++ ((fun p : string * (nat * bool) => p.2.1) <$> map_to_list (endpoint_map_ (store s))).
Definition sieve_getTotalQPNumber : V nat := let* s := the_store in on_world (total_qps (sieve_ids s)).
Definition sieve_destroyQPs : V Z := let* s := the_store in do* on_world (destroy_all (sieve_ids s)) in ret 0.
Definition sieve_disconnectQPs : V Z := let* s := the_store in do* on_world (disconnect_all (sieve_ids s)) in ret 0.

(** [RdmaContext::endpoint]. *)
Definition context_endpoint (active : bool) (now : Z) (cq num_qp_per_ep : nat) (max_wr : Z) (path : string) : V (option nat) :=
  if negb active then ret None
  else if String.eqb path "" then ret None
  else
    let* e := sieve_getEndpoint path in
    match e with
    | Some id => ret (Some id)
    | None =>
        let* e := sieve_insertEndpoint now cq num_qp_per_ep max_wr path in
        do* sieve_reclaimEndpoint in
        ret e
    end.

End verbs.

Definition new_store {V} (max_size : Z) : Store V := mkStore ∅ ∅ [] 0 ∅ max_size.
Definition new_sieve (max_size : Z) : SIEVE := mkSieve (new_store max_size) None 0.
Definition empty_world : World := mkWorld ∅ 0 ∅.

End EndpointStore.
