(* ===== verification/EndpointInv.v ===== *)
(** * EndpointInv: good endpoints, and the invariant of their stores

    [Good e]: the queue pairs of [e] exist and each has a counter.  Building an
    endpoint makes a good one; every other operation on a good endpoint is
    defined, changes no other endpoint and keeps it good. *)

From Stdlib Require Import ZArith Lia.
From stdpp Require Import base list gmap strings numbers.
From S2P Require Import Prelude Endpoint EndpointStore.
Import Endpoint.

Open Scope moon_scope.
Open Scope Z_scope.

Module EpProofs.

(** ** 32-bit counters *)

Lemma s32_plus a b : s32 (s32 a + b) = s32 (a + b).
Proof.
  unfold s32. replace ((a + 2 ^ 31) mod 2 ^ 32 - 2 ^ 31 + b + 2 ^ 31) with ((a + 2 ^ 31) mod 2 ^ 32 + b) by lia.
  rewrite Z.add_mod_idemp_l by lia. do 2 f_equal. lia.
Qed.

Lemma s32_idem a : s32 (s32 a) = s32 a.
Proof. pose proof (s32_plus a 0) as H. by rewrite !Z.add_0_r in H. Qed.

Lemma s32_small a : - 2 ^ 31 <= a < 2 ^ 31 -> s32 a = a.
Proof. intros. unfold s32. rewrite Z.mod_small; lia. Qed.

Lemma s32_le a : 0 <= a -> s32 a <= a.
Proof.
  intros. unfold s32. assert ((a + 2 ^ 31) mod 2 ^ 32 <= a + 2 ^ 31) by (apply Z.mod_le; lia). lia.
Qed.

(** Queue pairs from [i] on exist; every counter is initialised. *)
Record Shape (i : nat) (e : RdmaEndPoint) (ds : list Z) : Prop := {
  sh_depths : wr_depth_list_ e = Some (Some <$> ds);
  sh_length : length ds = length (qp_list_ e);
  sh_live : forall j, (i <= j < length (qp_list_ e))%nat -> qp_list_ e !! j = Some QLive;
}.
Definition Good (e : RdmaEndPoint) : Prop := exists ds, Shape 0 e ds.

Lemma depth_get_eq e ds j d : wr_depth_list_ e = Some (Some <$> ds) -> ds !! j = Some d -> depth_get e j = Some d.
Proof. intros D Hj. unfold depth_get. rewrite D, list_lookup_fmap, Hj. done. Qed.

Lemma shape_depth_set i e ds j v : Shape i e ds -> (j < length ds)%nat ->
  exists e', depth_set e j v = Some e' /\ Shape i e' (<[j := v]> ds) /\
    e' = set_depths (Some (Some <$> <[j := v]> ds)) e.
Proof.
  intros [D L LV] Hj. exists (set_depths (Some (Some <$> <[j := v]> ds)) e). unfold depth_set.
  rewrite D, length_fmap, decide_True by done. rewrite list_fmap_insert. split; [done|]. split; [|done].
  split; simpl; [by rewrite list_fmap_insert|by rewrite length_insert|done].
Qed.

(** [w'] is [w] with endpoint [id] replaced by one that satisfies [P]. *)
Definition Changed (id : nat) (P : RdmaEndPoint -> Prop) (w w' : World) : Prop :=
  next_ep w' = next_ep w /\ exists e', eps w' = <[id := e']> (eps w) /\ P e'.

Lemma changed_get id P w w' : Changed id P w w' -> exists e', eps w' !! id = Some e' /\ P e'.
Proof. intros [_ (e' & -> & HP)]. exists e'. rewrite lookup_insert. by case_decide. Qed.

Lemma changed_trans id P Q w w' w'' : Changed id P w w' -> Changed id Q w' w'' -> Changed id Q w w''.
Proof.
  intros [N1 (e1 & E1 & _)] [N2 (e2 & E2 & HQ)]. split; [congruence|]. exists e2.
  split; [|done]. by rewrite E2, E1, insert_insert_eq.
Qed.

Lemma changed_same id (P : RdmaEndPoint -> Prop) w e : eps w !! id = Some e -> P e -> Changed id P w w.
Proof. intros He HP. split; [done|]. exists e. by rewrite insert_id. Qed.

Lemma changed_mono id (P Q : RdmaEndPoint -> Prop) w w' : Changed id P w w' -> (forall e, P e -> Q e) -> Changed id Q w w'.
Proof. intros [N (e & E & HP)] H. split; [done|]. exists e. auto. Qed.

Lemma ep_get_runs {B} id e w (k : RdmaEndPoint -> W B) Q : eps w !! id = Some e -> runs (k e) w Q -> runs (bind (ep_get id) k) w Q.
Proof. intros He H. unfold runs, bind, ep_get. by rewrite He. Qed.

Lemma ep_put_changed id (P : RdmaEndPoint -> Prop) e w :
  P e -> runs (ep_put id e) w (fun _ w' => Changed id P w w').
Proof. intros HP. split; [done|]. exists e. done. Qed.

(** ** Taking back outstanding requests *)

(** What draining keeps of an endpoint. *)
Definition Drained (e : RdmaEndPoint) (i j : nat) (ds : list Z) (e' : RdmaEndPoint) : Prop :=
  Shape i e' (<[j := 0]> ds) /\ qp_list_ e' = qp_list_ e /\ status_ e' = status_ e /\ active_ e' = active_ e /\
  peer_nic_path_ e' = peer_nic_path_ e.

Lemma drain_runs id i j w e ds : eps w !! id = Some e -> Shape i e ds -> (j < length ds)%nat ->
  runs (drain id j) w (fun _ w' => Changed id (Drained e i j ds) w w').
Proof.
  intros He Sh Hj. unfold drain. apply (ep_get_runs _ e); [done|].
  destruct (lookup_lt_is_Some_2 _ _ Hj) as [d Hd].
  apply (runs_lift _ _ _ d); [by eapply depth_get_eq; [apply Sh|]|]. destruct (Z.eqb_spec d 0) as [->|Hne]; simpl.
  - apply (changed_same id _ w e He). unfold Drained. rewrite list_insert_id by done. done.
  - destruct (shape_depth_set i e ds j 0 Sh Hj) as (e' & Hs & Sh' & Ee').
    apply runs_bind. unfold cq_sub. cbn. rewrite Hs. cbn.
    split; [done|]. exists e'. split; [done|]. subst e'. done.
Qed.

Lemma reset_qps_runs id k : forall i w e ds, eps w !! id = Some e -> Shape 0 e ds -> (i + k = length ds)%nat ->
  runs (reset_qps id i k) w (fun _ w' => Changed id (fun e' => exists ds', Shape 0 e' ds' /\
    qp_list_ e' = qp_list_ e /\ status_ e' = status_ e /\ active_ e' = active_ e /\
    peer_nic_path_ e' = peer_nic_path_ e) w w').
Proof.
  induction k as [|k IH]; intros i w e ds He Sh Hk.
  - apply (changed_same id _ w e He). by exists ds.
  - cbn [reset_qps]. apply (ep_get_runs _ e); [done|].
    rewrite (sh_live _ _ _ Sh i) by (rewrite <- (sh_length _ _ _ Sh); lia).
    apply runs_bind. apply (runs_mono _ _ _ _ (drain_runs id 0 i w e ds He Sh ltac:(lia))).
    intros [] w1 Hc. destruct (changed_get _ _ _ _ Hc) as (e1 & He1 & Sh1 & Q1 & S1 & A1 & N1).
    eapply runs_mono; [apply (IH (S i) w1 e1 (<[i := 0]> ds) He1 Sh1); rewrite length_insert; lia|].
    intros [] w2 Hc2. eapply changed_trans; [exact Hc|]. eapply changed_mono; [exact Hc2|].
    intros e2 (ds2 & ? & ? & ? & ? & ?). exists ds2. split_and!; congruence.
Qed.

Lemma disconnectUnlocked_full id w e : eps w !! id = Some e -> Good e ->
  runs (disconnectUnlocked id) w (fun _ w' => Changed id (fun e' => Good e' /\ active_ e' = active_ e /\ length (qp_list_ e') = length (qp_list_ e) /\
    peer_nic_path_ e' = peer_nic_path_ e) w w').
Proof.
  intros He [ds Sh]. unfold disconnectUnlocked. apply (ep_get_runs _ e); [done|]. apply runs_bind.
  eapply runs_mono; [apply (reset_qps_runs id _ 0 w e ds He Sh); rewrite (sh_length _ _ _ Sh); lia|].
  intros [] w1 Hc. destruct (changed_get _ _ _ _ Hc) as (e1 & He1 & ds1 & Sh1 & Q1 & _ & A1 & N1).
  apply (ep_get_runs _ e1); [done|]. eapply runs_mono.
  - apply (ep_put_changed id (fun e' => Good e' /\ active_ e' = active_ e /\ length (qp_list_ e') = length (qp_list_ e) /\ peer_nic_path_ e' = peer_nic_path_ e)).
    simpl. split; [|by rewrite Q1]. exists ds1. by destruct Sh1.
  - intros [] w2 Hc2. by eapply changed_trans.
Qed.

Lemma disconnectUnlocked_runs id w e : eps w !! id = Some e -> Good e ->
  runs (disconnectUnlocked id) w (fun _ w' => Changed id (fun e' => Good e' /\ active_ e' = active_ e /\ length (qp_list_ e') = length (qp_list_ e)) w w').
Proof.
  intros He G. eapply runs_mono; [by apply (disconnectUnlocked_full id w e)|]. intros [] w' Hc. eapply changed_mono; [exact Hc|]. by intros e' (? & ? & ? & _).
Qed.

Lemma setPeerNicPath_runs id path w e : eps w !! id = Some e -> Good e ->
  runs (setPeerNicPath id path) w (fun _ w' => Changed id (fun e' => Good e' /\ active_ e' = active_ e /\ length (qp_list_ e') = length (qp_list_ e)) w w').
Proof.
  intros He G. unfold setPeerNicPath. apply (ep_get_runs _ e); [done|]. apply runs_bind.
  assert (H : runs (when (bool_decide (status_ e = CONNECTED)) (disconnectUnlocked id)) w
    (fun _ w' => Changed id (fun e' => Good e' /\ active_ e' = active_ e /\ length (qp_list_ e') = length (qp_list_ e)) w w')).
  { destruct (bool_decide (status_ e = CONNECTED)); [by apply disconnectUnlocked_runs|].
    by apply (changed_same id _ w e). }
  eapply runs_mono; [exact H|]. intros [] w1 Hc. destruct (changed_get _ _ _ _ Hc) as (e1 & He1 & [ds1 Sh1] & A1 & L1).
  apply (ep_get_runs _ e1); [done|]. eapply runs_mono.
  - apply (ep_put_changed id (fun e' => Good e' /\ active_ e' = active_ e /\ length (qp_list_ e') = length (qp_list_ e))).
    split; [|done]. exists ds1. by destruct Sh1.
  - intros [] w2 Hc2. by eapply changed_trans.
Qed.

Lemma set_active_runs id flag now w e : eps w !! id = Some e -> Good e ->
  runs (set_active id flag now) w (fun _ w' => Changed id (fun e' => Good e' /\ active_ e' = flag) w w').
Proof.
  intros He [ds Sh]. apply (ep_get_runs _ e); [done|].
  apply (ep_put_changed id (fun e' => Good e' /\ active_ e' = flag)). split; [|done]. exists ds. by destruct Sh.
Qed.

(** ** Construction and destruction *)

(** The queue pairs up to [i] are created. *)
Definition Built (n i : nat) (e : RdmaEndPoint) : Prop :=
  active_ e = true /\ length (qp_list_ e) = n /\
  (forall j, (j < i)%nat -> qp_list_ e !! j = Some QLive) /\
  wr_depth_list_ e = Some (replicate i (Some 0) ++ replicate (n - i) None).

Lemma built_good n e : Built n n e -> Good e.
Proof.
  intros (_ & L & LV & D). exists (replicate n 0). split.
  - rewrite D, Nat.sub_diag, fmap_replicate. by rewrite app_nil_r.
  - by rewrite length_replicate.
  - intros j Hj. apply LV. lia.
Qed.

Lemma create_qps_runs (create_ok : nat -> bool) id n k : forall i w e,
  (forall j, create_ok j = true) -> eps w !! id = Some e -> Built n i e -> (i + k = n)%nat ->
  runs (create_qps create_ok id i k) w (fun rc w' => rc = 0 /\ Changed id (Built n n) w w').
Proof.
  induction k as [|k IH]; intros i w e Hok He B Hk.
  - cbn [create_qps]. apply (ep_get_runs _ e); [done|]. split; [done|]. split; [done|].
    eexists. split; [done|]. assert (i = n) as -> by lia. exact B.
  - cbn [create_qps]. apply (ep_get_runs _ e); [done|]. destruct B as (A & L & LV & D).
    assert (Hds : depth_set e i 0 = Some (set_depths (Some (replicate (S i) (Some 0) ++ replicate (n - S i) None)) e)).
    { unfold depth_set. rewrite D, decide_True by (rewrite length_app, !length_replicate; lia). do 3 f_equal.
      rewrite (replicate_S_end i), <- app_assoc. rewrite insert_app_r_alt by (rewrite length_replicate; lia). rewrite length_replicate, Nat.sub_diag.
      replace (n - i)%nat with (S (n - S i)) by lia. done. }
    apply (runs_lift _ _ _ _ _ Hds). rewrite Hok. apply runs_bind.
    set (e' := set_qps _ _). eapply runs_mono.
    + apply (ep_put_changed id (eq e')). done.
    + intros [] w1 Hc. destruct (changed_get _ _ _ _ Hc) as (e1 & He1 & <-).
      assert (B' : Built n (S i) e').
      { unfold e'. split; [done|]. split; [simpl; by rewrite length_insert|]. split; [|done].
        intros j Hj. simpl. destruct (decide (j = i)) as [->|].
        - apply list_lookup_insert_eq. lia.
        - rewrite list_lookup_insert_ne by done. apply LV. lia. }
      eapply runs_mono; [apply (IH (S i) w1 e' Hok He1 B'); lia|].
      intros rc w2 [-> Hc2]. split; [done|]. by eapply changed_trans.
Qed.

Lemma construct_runs (create_ok : nat -> bool) id cq n max_wr w :
  (forall j, create_ok j = true) -> eps w !! id = Some new_endpoint ->
  runs (construct create_ok id cq n max_wr) w (fun rc w' => rc = 0 /\ Changed id (Built n n) w w').
Proof.
  intros Hok He. unfold construct. apply (ep_get_runs _ new_endpoint); [done|]. cbn [new_endpoint status_].
  rewrite bool_decide_true by done. cbn [negb]. apply runs_bind. set (e := mkEp _ _ _ _ _ _ _ _).
  eapply runs_mono; [apply (ep_put_changed id (eq e)); done|]. intros [] w1 Hc.
  destruct (changed_get _ _ _ _ Hc) as (e1 & He1 & <-).
  eapply runs_mono; [apply (create_qps_runs create_ok id n n 0 w1 e Hok He1); [|lia]|].
  - unfold e, Built, resize; cbn [active_ qp_list_ wr_depth_list_ new_endpoint].
    rewrite take_nil, length_app, length_replicate, !Nat.sub_0_r. split_and!; try done. intros j Hj. lia.
  - intros rc w2 [-> Hc2]. split; [done|]. by eapply changed_trans.
Qed.

Lemma destroy_qps_runs (destroy_ok : nat -> bool) id k : forall i w e ds,
  eps w !! id = Some e -> Shape i e ds -> (i + k = length ds)%nat ->
  runs (destroy_qps destroy_ok id i k) w (fun _ w' => Changed id (fun e' => is_Some (wr_depth_list_ e')) w w').
Proof.
  induction k as [|k IH]; intros i w e ds He Sh Hk.
  - apply (changed_same id _ w e He). rewrite (sh_depths _ _ _ Sh). by eexists.
  - cbn [destroy_qps]. apply (ep_get_runs _ e); [done|].
    rewrite (sh_live _ _ _ Sh i) by (rewrite <- (sh_length _ _ _ Sh); lia).
    destruct (destroy_ok i).
    2:{ apply (changed_same id _ w e He). rewrite (sh_depths _ _ _ Sh). by eexists. }
    apply runs_bind. set (e1 := set_qps _ e).
    eapply runs_mono; [apply (ep_put_changed id (eq e1)); done|]. intros [] w1 Hc.
    destruct (changed_get _ _ _ _ Hc) as (e1' & He1 & <-).
    assert (Sh1 : Shape (S i) e1 ds).
    { destruct Sh as [D L LV]. unfold e1. split; simpl; [done|by rewrite length_insert|].
      intros j. rewrite length_insert. intros Hj. rewrite list_lookup_insert_ne by lia. apply LV. lia. }
    apply runs_bind. eapply runs_mono; [apply (drain_runs id (S i) i w1 e1 ds He1 Sh1); lia|].
    intros [] w2 Hc2. destruct (changed_get _ _ _ _ Hc2) as (e2 & He2 & Sh2 & _).
    eapply runs_mono; [apply (IH (S i) w2 e2 _ He2 Sh2); rewrite length_insert; lia|].
    intros b w3 Hc3. eapply changed_trans; [exact Hc|]. by eapply changed_trans.
Qed.

Lemma destructor_runs (destroy_ok : nat -> bool) id w e : eps w !! id = Some e -> Good e ->
  runs (destructor destroy_ok id) w (fun _ w' => eps w' = delete id (eps w) /\ next_ep w' = next_ep w).
Proof.
  intros He [ds Sh]. unfold destructor. apply (ep_get_runs _ e); [done|]. apply runs_bind.
  assert (H : runs (let* _c := deconstruct destroy_ok id in ret tt) w (fun _ w' => Changed id (fun _ => True) w w')).
  { apply runs_bind. unfold deconstruct. apply (ep_get_runs _ e); [done|]. apply runs_bind.
    eapply runs_mono; [apply (destroy_qps_runs destroy_ok id _ 0 w e ds He Sh); by rewrite (sh_length _ _ _ Sh)|].
    intros ok w1 Hc. destruct (changed_get _ _ _ _ Hc) as (e1 & He1 & [l Hl]).
    destruct ok; [|by eapply changed_mono].
    apply (ep_get_runs _ e1); [done|]. rewrite Hl. apply runs_bind.
    eapply runs_mono; [by apply (ep_put_changed id (fun _ => True))|]. intros [] w2 Hc2. by eapply changed_trans. }
  destruct (qp_list_ e) eqn:Eq.
  - split; [|done]. done.
  - eapply runs_mono; [exact H|]. intros [] w1 [N (e1 & E & _)]. split; [|done]. simpl. by rewrite E, delete_insert_eq.
Qed.

(** ** Outstanding requests *)

(** The endpoint is in use or has requests in flight. *)
Definition busy (e : RdmaEndPoint) : bool :=
  active_ e || existsb (fun d => negb (default 0 d =? 0)) (default [] (wr_depth_list_ e)).

Lemma any_outstanding_eq e ds k : forall i, wr_depth_list_ e = Some (Some <$> ds) -> (i + k = length ds)%nat ->
  any_outstanding e i k = Some (existsb (fun d => negb (default 0 d =? 0)) (Some <$> drop i ds)).
Proof.
  induction k as [|k IH]; intros i D Hk; cbn [any_outstanding].
  - rewrite drop_ge by lia. done.
  - destruct (lookup_lt_is_Some_2 ds i) as [d Hd]; [lia|].
    rewrite (depth_get_eq e ds i d D Hd).
    rewrite (drop_S _ _ _ Hd), fmap_cons. cbn [existsb]. change (default 0 (Some d)) with d. destruct (negb (d =? 0)); [done|].
    apply IH; [done|lia].
Qed.

Lemma hasOutstandingSlice_eq id w e : eps w !! id = Some e -> Good e ->
  hasOutstandingSlice id w = Some (busy e, w).
Proof.
  intros He [ds Sh]. unfold hasOutstandingSlice, bind, ep_get. rewrite He. unfold busy.
  destruct (active_ e); [done|]. unfold lift.
  rewrite (any_outstanding_eq e ds _ 0 (sh_depths _ _ _ Sh)) by (rewrite (sh_length _ _ _ Sh); lia).
  by rewrite (sh_depths _ _ _ Sh).
Qed.

Lemma busy_spec e : Good e -> busy e = true <-> active_ e = true \/ exists i d, depth_get e i = Some d /\ d <> 0.
Proof.
  intros [ds [D _ _]]. unfold busy. rewrite orb_true_iff, D. change (default [] (Some ?l)) with l.
  assert (H : existsb (fun d => negb (default 0 d =? 0)) (Some <$> ds) = true <-> exists i d, depth_get e i = Some d /\ d <> 0);
    [|by rewrite H].
  rewrite existsb_exists. split.
  - intros (o & Hin & Ho). apply list_elem_of_In, list_elem_of_fmap in Hin as (d & -> & Hin).
    apply list_elem_of_lookup in Hin as [i Hi]. exists i, d. split; [by eapply depth_get_eq|].
    change (default 0 (Some d)) with d in Ho. zbool. done.
  - intros (i & d & Hd & Hne). unfold depth_get in Hd. rewrite D, list_lookup_fmap in Hd.
    destruct (ds !! i) as [d'|] eqn:Hi; [|done]. injection Hd as ->. exists (Some d). split.
    + apply list_elem_of_In, list_elem_of_fmap. exists d. split; [done|]. by eapply list_elem_of_lookup_2.
    + change (default 0 (Some d)) with d. by rewrite (proj2 (Z.eqb_neq _ _)).
Qed.

End EpProofs.

(** ** The invariant of an endpoint store

    The map, the list and the index of a store describe the same endpoints,
    none of which waits for destruction; all endpoints of the store are good
    objects of the heap.  Adding, removing and reclaiming keep it. *)

Import Endpoint EndpointStore EpProofs.

Module EpInv.

(** ** Nodes of the list *)

Lemma node_split (l : list (nat * string)) n k : (n, k) ∈ l -> exists l1 l2, l = l1 ++ (n, k) :: l2.
Proof. apply list_elem_of_split. Qed.

Lemma find_node l1 n k (l2 : list (nat * string)) : NoDup (l1 ++ (n, k) :: l2).*1 ->
  list_find (fun p => p.1 = n) (l1 ++ (n, k) :: l2) = Some (length l1, (n, k)).
Proof.
  rewrite fmap_app, fmap_cons. intros ND. apply list_find_Some. split; [|split; [done|]].
  - rewrite lookup_app_r, Nat.sub_diag by lia. done.
  - intros j [m k'] Hj Hlt Hm. simpl in Hm. subst m. rewrite lookup_app_l in Hj by done.
    apply list.NoDup_app in ND as (_ & Hd & _). apply (Hd n); [|by left].
    apply list_elem_of_fmap. exists (n, k'). split; [done|]. by eapply list_elem_of_lookup_2.
Qed.

Lemma erase_node_eq l1 n k (l2 : list (nat * string)) : NoDup (l1 ++ (n, k) :: l2).*1 ->
  erase_node n (l1 ++ (n, k) :: l2) = Some (l1 ++ l2).
Proof. intros ND. unfold erase_node. rewrite (find_node _ _ _ _ ND). f_equal. by apply delete_middle. Qed.

Lemma key_at_eq l1 n k (l2 : list (nat * string)) : NoDup (l1 ++ (n, k) :: l2).*1 ->
  key_at n (l1 ++ (n, k) :: l2) = Some k.
Proof. intros ND. unfold key_at. by rewrite (find_node _ _ _ _ ND). Qed.

Section store.
Context {V : Type} (ep : V -> nat).
Implicit Types s : Store V.

Record SInv s : Prop := {
  si_nodes : NoDup (fifo_list_ s).*1;
  si_keys : NoDup (fifo_list_ s).*2;
  si_index : forall k n, fifo_map_ s !! k = Some n <-> (n, k) ∈ fifo_list_ s;
  si_map : forall k, is_Some (endpoint_map_ s !! k) <-> k ∈ (fifo_list_ s).*2;
  si_inj : forall k k' v v', endpoint_map_ s !! k = Some v -> endpoint_map_ s !! k' = Some v' -> ep v = ep v' -> k = k';
  si_wait : forall k v, endpoint_map_ s !! k = Some v -> ep v ∉ waiting_list_ s;
  si_next : forall n k, (n, k) ∈ fifo_list_ s -> (n < next_node s)%nat;
}.

(** The endpoints the store holds a pointer to. *)
Definition owned s (id : nat) : Prop :=
  (exists k v, endpoint_map_ s !! k = Some v /\ ep v = id) \/ id ∈ waiting_list_ s.

Record HInv s (w : World) : Prop := {
  hi_good : forall id, owned s id -> exists e, eps w !! id = Some e /\ Good e;
  hi_next : forall id, is_Some (eps w !! id) -> (id < next_ep w)%nat;
}.

Lemma size_list s : SInv s -> size (endpoint_map_ s) = length (fifo_list_ s).
Proof.
  intros I. rewrite <- size_dom, <- (length_fmap snd).
  rewrite <- (size_list_to_set (C := gset string) _ (si_keys _ I)). apply set_size_proper.
  intros k. rewrite elem_of_dom, elem_of_list_to_set. apply (si_map _ I).
Qed.

Lemma getSize_list s : SInv s -> getSize s = Z.of_nat (length (fifo_list_ s)).
Proof. intros I. unfold getSize. by rewrite size_list. Qed.

Lemma node_of s k v : SInv s -> endpoint_map_ s !! k = Some v ->
  exists n l1 l2, fifo_list_ s = l1 ++ (n, k) :: l2 /\ fifo_map_ s !! k = Some n.
Proof.
  intros I Hk. assert (Hin : k ∈ (fifo_list_ s).*2) by (apply (si_map _ I); by exists v).
  apply list_elem_of_fmap in Hin as ([n k'] & -> & Hin). destruct (node_split _ _ _ Hin) as (l1 & l2 & E).
  exists n, l1, l2. split; [done|]. by apply (si_index _ I).
Qed.

Lemma value_of s n k : SInv s -> (n, k) ∈ fifo_list_ s -> is_Some (endpoint_map_ s !! k).
Proof. intros I Hin. apply (si_map _ I), list_elem_of_fmap. by exists (n, k). Qed.

(** The store after an endpoint moved to the waiting list. *)
Definition moved (k : string) (id : nat) (l : list (nat * string)) s : Store V :=
  set_map (delete k (endpoint_map_ s)) (set_waiting ({[id]} ∪ waiting_list_ s)
    (set_fmap (delete k (fifo_map_ s)) (set_list l s))).

Lemma moved_inv s k v n l1 l2 : SInv s -> endpoint_map_ s !! k = Some v -> fifo_list_ s = l1 ++ (n, k) :: l2 ->
  SInv (moved k (ep v) (l1 ++ l2) s).
Proof.
  intros I Hk E. pose proof (si_nodes _ I) as ND1. pose proof (si_keys _ I) as ND2.
  rewrite E, fmap_app, fmap_cons in ND1. rewrite E, fmap_app, fmap_cons in ND2.
  assert (Hin : forall p, p ∈ fifo_list_ s <-> p = (n, k) \/ p ∈ l1 ++ l2).
  { intros p. rewrite E, !elem_of_app, elem_of_cons. tauto. }
  assert (Hkeys : forall k', k' ∈ (fifo_list_ s).*2 <-> k' = k \/ k' ∈ (l1 ++ l2).*2).
  { intros k'. rewrite E, !fmap_app, fmap_cons, !elem_of_app, elem_of_cons. simpl. tauto. }
  assert (Hk1 : k ∉ (l1 ++ l2).*2).
  { rewrite fmap_app, elem_of_app. apply list.NoDup_app in ND2 as (_ & Hd & [Hk' _]%list.NoDup_cons).
    intros [H|H]; [|done]. apply (Hd k H). by left. }
  split; simpl.
  - rewrite fmap_app. apply list.NoDup_app in ND1 as (? & Hd & [_ ?]%list.NoDup_cons).
    apply list.NoDup_app. split_and!; try done. intros x Hx Hx'. apply (Hd x Hx). by right.
  - rewrite fmap_app. apply list.NoDup_app in ND2 as (? & Hd & [_ ?]%list.NoDup_cons).
    apply list.NoDup_app. split_and!; try done. intros x Hx Hx'. apply (Hd x Hx). by right.
  - intros k' m. rewrite lookup_delete_Some, (si_index _ I), Hin. split.
    + intros [Hne [[= -> ->]|?]]; done.
    + intros Hm. assert (k <> k'); [|by auto]. intros <-. apply Hk1, list_elem_of_fmap. by exists (m, k).
  - intros k'. rewrite lookup_delete_is_Some, (si_map _ I), Hkeys. naive_solver.
  - intros k1 k2 v1 v2 [_ ?]%lookup_delete_Some [_ ?]%lookup_delete_Some. by apply (si_inj _ I).
  - intros k' v' [Hne Hv']%lookup_delete_Some. rewrite elem_of_union, elem_of_singleton. intros [Heq|Hw].
    + by destruct Hne; apply (si_inj _ I k k' v v').
    + by apply (si_wait _ I k' v').
  - intros m k' Hm. apply (si_next _ I m k'), Hin. by right.
Qed.

Lemma moved_owned s k v n l1 l2 id : SInv s -> endpoint_map_ s !! k = Some v -> fifo_list_ s = l1 ++ (n, k) :: l2 ->
  owned (moved k (ep v) (l1 ++ l2) s) id -> owned s id.
Proof.
  intros I Hk E [(k' & v' & Hk' & <-)|Hw].
  - simpl in Hk'. apply lookup_delete_Some in Hk' as [_ Hk']. left. eauto.
  - simpl in Hw. apply elem_of_union in Hw as [->%elem_of_singleton|Hw]; [left; eauto|by right].
Qed.

(** The store with a new endpoint. *)
Definition added (k : string) (v : V) (l : list (nat * string)) s : Store V :=
  mkStore (<[k := v]> (endpoint_map_ s)) (<[k := next_node s]> (fifo_map_ s)) l (S (next_node s)) (waiting_list_ s) (max_size_ s).

Lemma added_inv s k v l : SInv s -> endpoint_map_ s !! k = None -> ~ owned s (ep v) ->
  l ≡ₚ (next_node s, k) :: fifo_list_ s -> SInv (added k v l s).
Proof.
  intros I Hk Hf Hl. pose proof I as [ND1 ND2 IX MP IJ WT NX].
  assert (Hnk : k ∉ (fifo_list_ s).*2) by (rewrite <- MP, Hk; apply is_Some_None).
  split; simpl.
  - rewrite Hl, fmap_cons. apply list.NoDup_cons. split; [|done]. simpl.
    intros ([m k'] & Hm & Hin)%list_elem_of_fmap. apply NX in Hin. simpl in Hm. lia.
  - rewrite Hl, fmap_cons. apply list.NoDup_cons. done.
  - intros k' m. rewrite lookup_insert_Some, (elem_of_Permutation_proper _ _ _ Hl), elem_of_cons, IX. split.
    + intros [[-> ->]|[_ ?]]; auto.
    + intros [[= -> ->]|Hin]; [by left|right]. split; [|done]. intros <-.
      apply Hnk, list_elem_of_fmap. by exists (m, k).
  - intros k'. rewrite lookup_insert_is_Some, Hl, fmap_cons, elem_of_cons, MP. simpl.
    destruct (decide (k = k')); naive_solver.
  - intros k1 k2 v1 v2 [[<- <-]|[_ H1]]%lookup_insert_Some [[<- <-]|[_ H2]]%lookup_insert_Some E; [done|..].
    + destruct Hf. left. by exists k2, v2.
    + destruct Hf. left. by exists k1, v1.
    + by apply (IJ k1 k2 v1 v2).
  - intros k' v' [[<- <-]|[_ H1]]%lookup_insert_Some; [|by apply (WT k')]. intros Hw. apply Hf. by right.
  - intros m k'. rewrite (elem_of_Permutation_proper _ _ _ Hl), elem_of_cons. intros [[= -> _]|Hin]; [lia|].
    apply NX in Hin. lia.
Qed.

Lemma added_owned s k v l id : owned (added k v l s) id -> id = ep v \/ owned s id.
Proof.
  intros [(k' & v' & H & <-)|Hw]; [|right; by right].
  simpl in H. apply lookup_insert_Some in H as [[<- <-]|[_ H]]; [by left|right; left; eauto].
Qed.

(** Values may change as long as the endpoints stay. *)
Lemma same_endpoints_inv s m : SInv s -> (forall k, ep <$> m !! k = ep <$> endpoint_map_ s !! k) -> SInv (set_map m s).
Proof.
  intros [ND1 ND2 IX MP IJ WT NX] Hm.
  assert (Hb : forall k v, m !! k = Some v -> exists v', endpoint_map_ s !! k = Some v' /\ ep v = ep v').
  { intros k v Hk. specialize (Hm k). rewrite Hk in Hm. destruct (endpoint_map_ s !! k) as [v'|]; [|done].
    injection Hm as Hm. eauto. }
  split; simpl; try done.
  - intros k. rewrite <- MP, <- (fmap_is_Some ep), Hm, fmap_is_Some. done.
  - intros k k' v v' (u & Hu & E)%Hb (u' & Hu' & E')%Hb Ev. apply (IJ k k' u u'); congruence.
  - intros k v (u & Hu & ->)%Hb. by apply (WT k).
Qed.

Lemma same_endpoints_owned s m id : (forall k, ep <$> m !! k = ep <$> endpoint_map_ s !! k) ->
  owned (set_map m s) id -> owned s id.
Proof.
  intros Hm [(k & v & Hk & <-)|?]; [|by right]. left. exists k. specialize (Hm k). simpl in Hk. rewrite Hk in Hm.
  destruct (endpoint_map_ s !! k) as [v'|]; [|done]. injection Hm as Hm. eauto.
Qed.

(** The heap may change as long as the endpoints of the store stay good. *)
Lemma heap_changed s w w' id P : HInv s w -> Changed id P w w' -> (forall e, P e -> Good e) -> is_Some (eps w !! id) -> HInv s w'.
Proof.
  intros [G N] [Hn (e & E & HP)] HG Hid. split.
  - intros id' Ho. rewrite E. destruct (decide (id = id')) as [<-|Hne].
    + rewrite lookup_insert. case_decide; [|done]. eauto.
    + rewrite lookup_insert_ne by done. by apply G.
  - intros id'. rewrite E, Hn. rewrite lookup_insert_is_Some. intros [<-|[_ H]]; by apply N.
Qed.

(** A fresh endpoint belongs to no store. *)
Lemma fresh_not_owned s w : HInv s w -> ~ owned s (next_ep w).
Proof. intros [G N] Ho. destruct (G _ Ho) as (e & He & _). assert (next_ep w < next_ep w)%nat by (apply N; by exists e). lia. Qed.

(** ** Building an endpoint *)

Lemma new_constructed_runs create_ok destroy_ok cq n max_wr s w :
  (forall id j, create_ok id j = true) -> HInv s w ->
  runs (new_constructed create_ok destroy_ok cq n max_wr) w (fun r w' => r = Some (next_ep w) /\ HInv s w' /\
    next_ep w' = S (next_ep w) /\
    (forall id, id <> next_ep w -> eps w' !! id = eps w !! id) /\ exists e, eps w' !! next_ep w = Some e /\ Good e).
Proof.
  intros Hok H. unfold new_constructed. apply runs_bind.
  set (w1 := mkWorld (<[next_ep w := new_endpoint]> (eps w)) (S (next_ep w)) (cq_outstanding w)).
  apply (runs_eq _ _ (next_ep w) w1); [done|].
  assert (He : eps w1 !! next_ep w = Some new_endpoint) by (simpl; apply lookup_insert_eq).
  apply runs_bind. eapply runs_mono; [apply (construct_runs (create_ok (next_ep w)) (next_ep w) cq n max_wr w1 (Hok _) He)|].
  intros rc w2 [-> Hc]. simpl. destruct (changed_get _ _ _ _ Hc) as (e & He2 & B). pose proof (built_good _ _ B) as Gd.
  destruct Hc as [N2 (e' & E2 & _)]. split_and!; [done|..|done| |by exists e].
  - split.
    + intros id Ho. destruct (hi_good _ _ H id Ho) as (e1 & He1 & G1). exists e1. split; [|done].
      assert (id <> next_ep w) by (intros ->; by eapply fresh_not_owned).
      rewrite E2, lookup_insert_ne by done. simpl. by rewrite lookup_insert_ne.
    + intros id. rewrite N2. simpl. rewrite E2. simpl. rewrite !lookup_insert_is_Some. intros [<-|[_ [<-|[_ Hid]]]]; try lia.
      apply (hi_next _ _ H) in Hid. lia.
  - intros id Hne. rewrite E2. simpl. by rewrite !lookup_insert_ne.
Qed.

(** ** Reclaiming *)

Definition busy_in (w : World) (id : nat) : bool := match eps w !! id with Some e => busy e | None => true end.

Lemma done_waiting_eq w ids : (forall id, id ∈ ids -> exists e, eps w !! id = Some e /\ Good e) ->
  done_waiting ids w = Some (filter (fun id => busy_in w id = false) ids, w).
Proof.
  induction ids as [|id ids IH]; intros Hg; [done|]. cbn [done_waiting]. unfold bind.
  destruct (Hg id) as (e & He & G); [by left|]. rewrite (hasOutstandingSlice_eq id w e He G).
  rewrite IH by (intros id' ?; apply Hg; by right). rewrite filter_cons.
  assert (Hb : busy_in w id = busy e) by (unfold busy_in; by rewrite He).
  destruct (decide (busy_in w id = false)) as [D|D]; rewrite Hb in D; by destruct (busy e).
Qed.

Lemma release_all_runs destroy_ok held ids : forall w, NoDup ids ->
  (forall id, id ∈ ids -> exists e, eps w !! id = Some e /\ Good e) ->
  runs (release_all destroy_ok held ids) w (fun _ w' => next_ep w' = next_ep w /\
    (forall id, id ∉ ids -> eps w' !! id = eps w !! id) /\ forall id, is_Some (eps w' !! id) -> is_Some (eps w !! id)).
Proof.
  induction ids as [|id ids IH]; intros w ND Hg; [by split_and!|].
  apply list.NoDup_cons in ND as [Hid ND]. cbn [release_all]. apply runs_bind.
  assert (H : runs (release destroy_ok held id) w (fun _ w' => next_ep w' = next_ep w /\
    (forall id', id' <> id -> eps w' !! id' = eps w !! id') /\ forall id, is_Some (eps w' !! id) -> is_Some (eps w !! id))).
  { unfold release. destruct (held id); [by split_and!|]. destruct (Hg id) as (e & He & G); [by left|].
    eapply runs_mono; [by apply (destructor_runs (destroy_ok id) id w e)|]. intros [] w1 [E N]. rewrite E, N.
    split_and!; [done|intros id' ?; by rewrite lookup_delete_ne|]. intros id' [? [_ ?]%lookup_delete_Some]. by eexists. }
  eapply runs_mono; [exact H|]. intros [] w1 (N1 & E1 & S1).
  eapply runs_mono; [apply (IH w1 ND)|].
  - intros id' Hin. rewrite E1 by (intros ->; done). apply Hg. by right.
  - intros [] w2 (N2 & E2 & S2). split_and!; [congruence| |auto].
    intros id' Hn. rewrite not_elem_of_cons in Hn. rewrite E2, E1; tauto.
Qed.

(** The store without the endpoints [td] of its waiting list. *)
Lemma reclaimed_inv s w w' td : SInv s -> HInv s w -> (forall id, id ∈ td -> id ∈ waiting_list_ s) ->
  next_ep w' = next_ep w -> (forall id, id ∉ td -> eps w' !! id = eps w !! id) ->
  (forall id, is_Some (eps w' !! id) -> is_Some (eps w !! id)) ->
  let s' := set_waiting (waiting_list_ s ∖ list_to_set td) s in SInv s' /\ HInv s' w'.
Proof.
  intros I H Htd N F Sub s'. split.
  - destruct I as [A1 A2 A3 A4 A5 A6 A7]. split; simpl; try done. intros k v Hk. pose proof (A6 k v Hk). set_solver.
  - split; [|intros id Hid; rewrite N; by apply (hi_next _ _ H), Sub]. intros id Ho.
    assert (owned s id /\ id ∉ td) as [Ho1 Ho2].
    { destruct Ho as [(k & v & Hk & <-)|Hw]; simpl in *.
      - split; [left; eauto|]. intros Hw%Htd. by apply (si_wait _ I k v).
      - apply elem_of_difference in Hw as [Hw Hn]. rewrite elem_of_list_to_set in Hn. split; [by right|done]. }
    rewrite F by done. by apply (hi_good _ _ H).
Qed.
End store.

End EpInv.
