(* ===== verification/EndpointSieve.v ===== *)
(** * EndpointSieve: the SIEVE store

    The walk of the hand follows a fixed cyclic order of the list and stops at
    the first endpoint without a mark, so it ends; every operation of a store
    for at least two endpoints is defined and keeps the invariant. *)

From Stdlib Require Import ZArith Lia.
From stdpp Require Import base list gmap strings numbers.
From S2P Require Import Prelude Endpoint EndpointStore EndpointInv.
Import Endpoint EndpointStore EpProofs EpInv.

Open Scope moon_scope.
Open Scope Z_scope.

Module EpSieve.

Abbreviation node := (nat * string)%type.

(** ** The order of the walk: from the hand to the front, then from the back *)

Definition order (l1 : list node) (x : node) (l2 : list node) : list node := x :: reverse l1 ++ reverse l2.

Lemma order_perm l1 x l2 : order l1 x l2 ≡ₚ l1 ++ x :: l2.
Proof. unfold order. rewrite !reverse_Permutation. apply Permutation_middle. Qed.

(** One step of the walk turns the order by one. *)
Lemma order_step l1 x l2 y r : reverse l1 ++ reverse l2 ++ [x] = y :: r ->
  exists l1' l2', l1 ++ x :: l2 = l1' ++ y :: l2' /\ order l1' y l2' = y :: r.
Proof.
  unfold order. destruct l1 as [|z l1 _] using rev_ind.
  - destruct l2 as [|z l2 _] using rev_ind; simpl.
    + intros [= <- <-]. by exists [], [].
    + rewrite reverse_snoc. intros [= <- <-]. exists (x :: l2), []. split; [done|].
      by rewrite reverse_cons, reverse_nil, app_nil_r.
  - rewrite reverse_snoc. intros [= <- <-]. exists l1, (x :: l2). split; [by rewrite <- app_assoc|].
    by rewrite reverse_cons, app_assoc.
Qed.

Lemma circular_prev_eq l1 n k l2 : NoDup (l1 ++ (n, k) :: l2).*1 ->
  circular_prev n (l1 ++ (n, k) :: l2) = fst <$> head (reverse l1 ++ reverse l2 ++ [(n, k)]).
Proof.
  intros ND. unfold circular_prev. rewrite (find_node _ _ _ _ ND). destruct l1 as [|z l1 _] using rev_ind; simpl.
  - destruct l2 as [|z l2 _] using rev_ind; [done|]. rewrite reverse_snoc.
    change ((n, k) :: l2 ++ [z]) with (((n, k) :: l2) ++ [z]). by rewrite last_snoc.
  - rewrite length_app, Nat.add_1_r, reverse_snoc, <- app_assoc. simpl.
    rewrite lookup_app_r, Nat.sub_diag by lia. done.
Qed.

(** ** Marks *)

Definition clear_marks (ks : list string) (m : gmap string (nat * bool)) : gmap string (nat * bool) :=
  map_imap (fun k v => Some (v.1, v.2 && bool_decide (k ∉ ks))) m.
Definition marked (m : gmap string (nat * bool)) (k : string) : bool := match m !! k with Some v => v.2 | None => false end.

Lemma clear_marks_lookup ks m k :
  clear_marks ks m !! k = (fun v : nat * bool => (v.1, v.2 && bool_decide (k ∉ ks))) <$> m !! k.
Proof. unfold clear_marks. rewrite map_lookup_imap. by destruct (m !! k). Qed.

Lemma clear_marks_same ks m k : fst <$> clear_marks ks m !! k = fst <$> m !! k.
Proof. rewrite clear_marks_lookup. by destruct (m !! k). Qed.

Lemma clear_marks_nil m : clear_marks [] m = m.
Proof.
  apply map_eq. intros k. rewrite clear_marks_lookup, bool_decide_true by apply not_elem_of_nil.
  destruct (m !! k) as [[id b]|]; [|done]. simpl. by rewrite andb_true_r.
Qed.

Lemma clear_marks_insert ks m k id b : m !! k = Some (id, b) ->
  clear_marks ks (<[k := (id, false)]> m) = clear_marks (k :: ks) m.
Proof.
  intros Hk. apply map_eq. intros k'. rewrite !clear_marks_lookup, lookup_insert.
  destruct (decide (k = k')) as [<-|Hne].
  - rewrite Hk. simpl. rewrite (bool_decide_false (k ∉ k :: ks)), andb_false_r; [done|]. intros H. apply H. by left.
  - destruct (m !! k') as [[id' b']|]; [|done]. simpl. repeat f_equal. apply bool_decide_ext.
    rewrite elem_of_cons. naive_solver.
Qed.

(** ** The walk *)

Lemma walk_found pre : forall l1 o k l2 y post s fuel id,
  SInv fst s -> fifo_list_ s = l1 ++ (o, k) :: l2 -> order l1 (o, k) l2 = pre ++ y :: post ->
  (forall p, p ∈ pre -> marked (endpoint_map_ s) p.2 = true) -> endpoint_map_ s !! y.2 = Some (id, false) ->
  (length pre <= fuel)%nat ->
  sieve_walk fuel o s = Some (y.1, y.2, id, set_map (clear_marks pre.*2 (endpoint_map_ s)) s).
Proof.
  induction pre as [|p pre IH]; intros l1 o k l2 y post s fuel id I El Eo Hp Hy Hf;
    pose proof (si_nodes _ _ I) as ND; rewrite El in ND.
  - injection Eo as <- _. simpl in Hy.
    destruct fuel; cbn [sieve_walk]; rewrite El, (key_at_eq _ _ _ _ ND), Hy; simpl;
      rewrite clear_marks_nil; by destruct s.
  - injection Eo as <- Er. destruct fuel as [|fuel]; [simpl in Hf; lia|].
    cbn [sieve_walk]. rewrite El, (key_at_eq _ _ _ _ ND).
    pose proof (Hp (o, k) ltac:(by left)) as Hm. unfold marked in Hm. simpl in Hm.
    destruct (endpoint_map_ s !! k) as [[idk b]|] eqn:Hk; [|done]. simpl in Hm. subst b.
    assert (Hkeys : NoDup (order l1 (o, k) l2).*2).
    { rewrite (order_perm l1 (o, k) l2), <- El. apply (si_keys _ _ I). }
    unfold order in Hkeys. rewrite Er, fmap_cons in Hkeys. apply list.NoDup_cons in Hkeys as [Hnk _]. simpl in Hnk.
    rewrite (circular_prev_eq _ _ _ _ ND), app_assoc, Er, <- app_assoc. simpl.
    destruct (pre ++ y :: post ++ [(o, k)]) as [|h r] eqn:Eh; [by destruct pre|].
    assert (Eh' : reverse l1 ++ reverse l2 ++ [(o, k)] = h :: r) by (rewrite app_assoc, Er, <- app_assoc; exact Eh).
    destruct (order_step _ _ _ _ _ Eh') as (l1' & l2' & El' & Eo'). simpl. destruct h as [ho hk].
    rewrite (IH l1' ho hk l2' y (post ++ [(o, k)]) (set_map (<[k := (idk, false)]> (endpoint_map_ s)) s) fuel id).
    + simpl. rewrite (clear_marks_insert _ _ _ _ _ Hk). by destruct s.
    + apply same_endpoints_inv; [done|]. intros k'. rewrite lookup_insert. destruct (decide (k = k')) as [<-|]; [by rewrite Hk|done].
    + simpl. by rewrite El, El'.
    + rewrite Eo', <- Eh. done.
    + intros p Hin. unfold marked. simpl. rewrite lookup_insert_ne; [apply (Hp p); by right|].
      intros ->. apply Hnk, list_elem_of_fmap. exists p. rewrite elem_of_app. auto.
    + simpl. rewrite lookup_insert_ne; [done|]. intros ->. apply Hnk, list_elem_of_fmap. exists y.
      rewrite elem_of_app, elem_of_cons. auto.
    + simpl in Hf. lia.
Qed.

(** What the walk finds: the first endpoint in walking order without a mark,
    or the first of all when every endpoint has one. *)
Definition stops_at (m : gmap string (nat * bool)) (ord : list node) (y : node) (cleared : list node) : Prop :=
  (exists post, ord = cleared ++ y :: post /\ marked m y.2 = false /\ forall p, p ∈ cleared -> marked m p.2 = true) \/
  (exists r, ord = y :: r /\ cleared = ord /\ forall p, p ∈ ord -> marked m p.2 = true).

Lemma first_unmarked m (ord : list node) : ord <> [] -> exists y cleared, stops_at m ord y cleared.
Proof.
  intros Hne.
  assert (H : (forall p, p ∈ ord -> marked m p.2 = true) \/ exists y cleared, stops_at m ord y cleared).
  { clear Hne. induction ord as [|p ord IH]; [left; intros p H; inversion H|].
    destruct (marked m p.2) eqn:Hp.
    - destruct IH as [Hall|(y & cl & [(post & -> & Hy & Hcl)|(r & -> & -> & Hcl)])].
      + left. intros q [->|Hq]%elem_of_cons; auto.
      + right. exists y, (p :: cl). left. exists post. split; [done|]. split; [done|].
        intros q [->|Hq]%elem_of_cons; auto.
      + left. intros q [->|Hq]%elem_of_cons; auto.
    - right. exists p, []. left. exists ord. split; [done|]. split; [done|]. intros q Hq. inversion Hq. }
  destruct H as [Hall|?]; [|done]. destruct ord as [|y r]; [done|]. exists y, (y :: r). right. by exists r.
Qed.

Lemma walk_runs l1 o k l2 s y cleared fuel :
  SInv fst s -> fifo_list_ s = l1 ++ (o, k) :: l2 -> stops_at (endpoint_map_ s) (order l1 (o, k) l2) y cleared ->
  (length (fifo_list_ s) <= fuel)%nat ->
  exists id b, endpoint_map_ s !! y.2 = Some (id, b) /\ y ∈ fifo_list_ s /\
    sieve_walk fuel o s = Some (y.1, y.2, id, set_map (clear_marks cleared.*2 (endpoint_map_ s)) s).
Proof.
  intros I El Hst Hf. pose proof (order_perm l1 (o, k) l2) as Hperm. rewrite <- El in Hperm.
  assert (Hval : forall p, p ∈ order l1 (o, k) l2 -> p ∈ fifo_list_ s /\ is_Some (endpoint_map_ s !! p.2)).
  { intros [n k'] Hin. rewrite (elem_of_Permutation_proper _ _ _ Hperm) in Hin. split; [done|]. by eapply value_of. }
  assert (Hlen : length (order l1 (o, k) l2) = length (fifo_list_ s)) by (by rewrite Hperm).
  destruct Hst as [(post & Eo & Hy & Hcl)|(r & Eo & -> & Hcl)].
  - destruct (Hval y) as [Hin [[id b] Hv]]; [rewrite Eo; apply elem_of_app; right; by left|].
    assert (b = false) as -> by (unfold marked in Hy; by rewrite Hv in Hy). exists id, false.
    split; [done|]. split; [done|]. apply (walk_found cleared l1 o k l2 y post); try done.
    rewrite Eo, length_app in Hlen. lia.
  - destruct (Hval y) as [Hin [[id b] Hv]]; [rewrite Eo; by left|]. exists id, b. split; [done|]. split; [done|].
    pose proof (si_nodes _ _ I) as ND. rewrite El in ND. rewrite Eo in Hlen. simpl in Hlen.
    destruct fuel as [|fuel]; [lia|]. unfold order in Eo. injection Eo as <- Er. simpl in Hv.
    assert (b = true) as ->.
    { pose proof (Hcl (o, k) ltac:(by left)) as Hm. unfold marked in Hm. simpl in Hm. by rewrite Hv in Hm. }
    cbn [sieve_walk]. rewrite El, (key_at_eq _ _ _ _ ND), Hv, (circular_prev_eq _ _ _ _ ND), app_assoc, Er.
    destruct (r ++ [(o, k)]) as [|h r'] eqn:Eh; [by destruct r|]. simpl.
    assert (Eh' : reverse l1 ++ reverse l2 ++ [(o, k)] = h :: r') by (by rewrite app_assoc, Er).
    destruct (order_step _ _ _ _ _ Eh') as (l1' & l2' & El' & Eo'). destruct h as [ho hk].
    assert (Hkeys : NoDup (order l1 (o, k) l2).*2) by (rewrite Hperm; apply (si_keys _ _ I)).
    unfold order in Hkeys. rewrite Er, fmap_cons in Hkeys. apply list.NoDup_cons in Hkeys as [Hnk _]. simpl in Hnk.
    rewrite (walk_found r l1' ho hk l2' (o, k) [] (set_map (<[k := (id, false)]> (endpoint_map_ s)) s) fuel id).
    + simpl. unfold order. rewrite Er, (clear_marks_insert _ _ _ _ _ Hv). by destruct s.
    + apply same_endpoints_inv; [done|]. intros k'. rewrite lookup_insert. destruct (decide (k = k')) as [<-|]; [by rewrite Hv|done].
    + simpl. by rewrite El, El'.
    + by rewrite Eo', Eh.
    + intros p Hp. unfold marked. simpl. rewrite lookup_insert_ne.
      * apply (Hcl p). unfold order. rewrite Er. by right.
      * intros ->. apply Hnk, list_elem_of_fmap. by exists p.
    + simpl. apply lookup_insert_eq.
    + lia.
Qed.

End EpSieve.

(** ** The operations of the SIEVE store keep its invariant

    [SVInv s w]: the store is consistent, the hand names a node of the list,
    and the counter of waiting endpoints is right.  On a store for at least
    two endpoints every operation is defined and keeps it. *)

Import Endpoint EndpointStore EpProofs EpInv EpSieve.

Module EpSieveOps.

Record SVInv (s : SIEVE) (w : World) : Prop := {
  sv_inv : SInv fst (store s);
  sv_heap : HInv fst (store s) w;
  sv_hand : forall n, hand_ s = Some n -> n ∈ (fifo_list_ (store s)).*1;
  sv_len : waiting_list_len_ s = s32 (Z.of_nat (size (waiting_list_ (store s))));
}.

Lemma waiting_grows (x : gset nat) id : id ∉ x -> Z.of_nat (size ({[id]} ∪ x)) = Z.of_nat (size x) + 1.
Proof. intros H. rewrite size_union by set_solver. rewrite size_singleton. lia. Qed.

Lemma on_world_runs {S A} (c : W A) (s : S) w Q : runs c w (fun a w' => Q a (s, w')) -> runs (on_world c) (s, w) Q.
Proof. unfold runs, on_world. simpl. by destruct (c w) as [[a w']|]. Qed.

Lemma the_store_runs {S B} (s : S) w (k : S -> ST (S * World) B) Q : runs (k s) (s, w) Q -> runs (bind the_store k) (s, w) Q.
Proof. done. Qed.

(** What an eviction leaves alone. *)
Record Evicts (s : SIEVE) (w : World) (s' : SIEVE) (w' : World) : Prop := {
  ev_inv : SVInv s' w';
  ev_length : S (length (fifo_list_ (store s'))) = length (fifo_list_ (store s));
  ev_max : max_size_ (store s') = max_size_ (store s);
  ev_keys : forall k, endpoint_map_ (store s) !! k = None -> endpoint_map_ (store s') !! k = None;
  ev_owned : forall id, owned fst (store s') id -> owned fst (store s) id;
  ev_frame : forall id, ~ owned fst (store s) id -> eps w' !! id = eps w !! id;
  ev_next : next_ep w' = next_ep w;
}.

(** The effect of an eviction: which endpoint goes, which marks are cleared,
    where the hand ends. *)
Definition deactivated (now : Z) (e : RdmaEndPoint) : RdmaEndPoint :=
  mkEp (status_ e) (qp_list_ e) (peer_nic_path_ e) (wr_depth_list_ e) (max_wr_depth_ e) false (cq_ e) now.

Lemma deactivate_eq id now w e : eps w !! id = Some e ->
  set_active id false now w = Some (tt, mkWorld (<[id := deactivated now e]> (eps w)) (next_ep w) (cq_outstanding w)).
Proof. intros He. unfold set_active, bind, ep_get, lift, gets. by rewrite He. Qed.

Definition evicts_first_unmarked (now : Z) (s : SIEVE) (w : World) (s' : SIEVE) (w' : World) : Prop :=
  exists l1 start l2 y cleared id b,
    fifo_list_ (store s) = l1 ++ start :: l2 /\
    match hand_ s with Some n => start.1 = n | None => l2 = [] end /\
    stops_at (endpoint_map_ (store s)) (order l1 start l2) y cleared /\
    endpoint_map_ (store s) !! y.2 = Some (id, b) /\
    endpoint_map_ (store s') = delete y.2 (clear_marks cleared.*2 (endpoint_map_ (store s))) /\
    fifo_list_ (store s') = filter (fun p => p <> y) (fifo_list_ (store s)) /\
    hand_ s' = circular_prev y.1 (fifo_list_ (store s)) /\
    fifo_map_ (store s') = delete y.2 (fifo_map_ (store s)) /\
    waiting_list_ (store s') = {[id]} ∪ waiting_list_ (store s) /\ waiting_list_len_ s' = s32 (waiting_list_len_ s + 1) /\
    max_size_ (store s') = max_size_ (store s) /\
    (exists e, eps w !! id = Some e /\
       w' = mkWorld (<[id := deactivated now e]> (eps w)) (next_ep w) (cq_outstanding w)).

(** Where the walk starts. *)
Lemma hand_start s w : SVInv s w -> fifo_list_ (store s) <> [] ->
  exists l1 o k l2, fifo_list_ (store s) = l1 ++ (o, k) :: l2 /\
    match hand_ s with Some n => (o, k).1 = n | None => l2 = [] end /\
    (match hand_ s with Some o => Some o | None => fst <$> list.last (fifo_list_ (store s)) end) = Some o.
Proof.
  intros Inv Hne. destruct (hand_ s) as [n|] eqn:Hh.
  - pose proof (sv_hand _ _ Inv n Hh) as Hin. apply list_elem_of_fmap in Hin as ([n' k] & -> & Hin).
    destruct (node_split _ _ _ Hin) as (l1 & l2 & E). by exists l1, n', k, l2.
  - destruct (fifo_list_ (store s)) as [|[o k] l _] using rev_ind; [done|]. exists l, o, k, [].
    split; [done|]. split; [done|]. by rewrite last_snoc.
Qed.

Lemma filter_node l1 n k (l2 : list node) : NoDup (l1 ++ (n, k) :: l2).*1 ->
  filter (fun p => p <> (n, k)) (l1 ++ (n, k) :: l2) = l1 ++ l2.
Proof.
  rewrite fmap_app, fmap_cons. intros ND. apply list.NoDup_app in ND as (_ & Hd & [Hn _]%list.NoDup_cons).
  rewrite list.filter_app, filter_cons. rewrite decide_False by (intros H; by apply H).
  f_equal; apply filter_absent; intros Hin.
  - apply (Hd n); [|by left]. apply list_elem_of_fmap. by exists (n, k).
  - apply Hn, list_elem_of_fmap. by exists (n, k).
Qed.

(** With a second endpoint in the list, the node before [y] is another one. *)
Lemma prev_other l1 n k (l2 : list node) : NoDup (l1 ++ (n, k) :: l2).*1 -> l1 ++ l2 <> [] ->
  exists h, circular_prev n (l1 ++ (n, k) :: l2) = Some h /\ h ∈ (l1 ++ l2).*1.
Proof.
  intros ND Hne. rewrite (circular_prev_eq _ _ _ _ ND), app_assoc.
  destruct (reverse l1 ++ reverse l2) as [|h r] eqn:E.
  - apply app_eq_nil in E as [E1 E2]. destruct l1; [|by rewrite reverse_cons in E1; destruct (reverse l1)].
    destruct l2; [done|]. rewrite reverse_cons in E2. by destruct (reverse l2).
  - exists h.1. split; [done|]. apply list_elem_of_fmap. exists h. split; [done|].
    assert (Hin : h ∈ reverse l1 ++ reverse l2) by (rewrite E; by left).
    rewrite !elem_of_app, !elem_of_reverse in *. done.
Qed.

(** Moving an endpoint to the waiting list keeps the invariant of the store. *)
Lemma moved_sv s w w' k n l1 l2 id b hand m :
  SVInv s w -> fifo_list_ (store s) = l1 ++ (n, k) :: l2 ->
  (forall k', fst <$> m !! k' = fst <$> endpoint_map_ (store s) !! k') -> m !! k = Some (id, b) ->
  HInv fst (store s) w' -> (forall h, hand = Some h -> h ∈ (l1 ++ l2).*1) ->
  SVInv (mkSieve (moved k id (l1 ++ l2) (set_map m (store s))) hand (s32 (waiting_list_len_ s + 1))) w'.
Proof.
  intros Inv El Hm Hk HH Hhand. set (st := set_map m (store s)).
  assert (I : SInv fst st) by (apply same_endpoints_inv; [apply Inv|done]).
  assert (HO : forall id', owned fst (moved k id (l1 ++ l2) st) id' -> owned fst (store s) id').
  { intros id' Ho. eapply same_endpoints_owned; [exact Hm|]. apply (moved_owned fst st k (id, b) n l1 l2 id' I Hk El Ho). }
  split; simpl.
  - apply (moved_inv fst st k (id, b) n l1 l2); done.
  - split; [intros id' Ho; apply (hi_good _ _ _ HH), HO, Ho|apply (hi_next _ _ _ HH)].
  - done.
  - rewrite (sv_len _ _ Inv), s32_plus. f_equal. symmetry. apply waiting_grows. apply (si_wait _ _ I k (id, b) Hk).
Qed.

Lemma owned_map (s : Store (nat * bool)) k id b : endpoint_map_ s !! k = Some (id, b) -> owned fst s id.
Proof. intros H. left. by exists k, (id, b). Qed.

Lemma evict_runs now s w : SVInv s w -> (2 <= length (fifo_list_ (store s)))%nat ->
  runs (sieve_evictEndpoint now) (s, w) (fun _ p => Evicts s w p.1 p.2 /\ evicts_first_unmarked now s w p.1 p.2).
Proof.
  intros Inv Hlen. pose proof (sv_inv _ _ Inv) as I. set (st := store s) in *.
  assert (Hne : fifo_list_ st <> []) by (destruct (fifo_list_ st); [simpl in Hlen; lia|done]).
  destruct (hand_start s w Inv Hne) as (l1 & o & k & l2 & El & Hst & Ho). fold st in El, Ho.
  destruct (first_unmarked (endpoint_map_ st) (order l1 (o, k) l2)) as (y & cl & Hs); [done|].
  destruct (walk_runs l1 o k l2 st y cl (length (fifo_list_ st)) I El Hs (le_n _)) as (id & b & Hy & Hin & Hw).
  destruct y as [n v]. simpl in Hy, Hw. destruct (node_split _ _ _ Hin) as (a1 & a2 & Ea).
  pose proof (si_nodes _ _ I) as ND. rewrite Ea in ND.
  assert (Hrest : a1 ++ a2 <> []).
  { intros [-> ->]%app_eq_nil. rewrite Ea in Hlen. simpl in Hlen. lia. }
  destruct (prev_other a1 n v a2 ND Hrest) as (h & Hh & Hhin).
  assert (Hown : owned fst st id) by (by eapply owned_map).
  destruct (hi_good _ _ _ (sv_heap _ _ Inv) id Hown) as (e & He & G).
  unfold sieve_evictEndpoint. apply the_store_runs. fold st. destruct (fifo_list_ st) as [|p0 l0] eqn:E0; [done|]. rewrite <- E0 in *.
  apply (runs_lift _ _ _ o _ Ho). apply (runs_lift _ _ _ _ _ Hw). cbv beta iota zeta.
  apply (runs_lift _ _ _ h); [by rewrite Ea|]. apply (runs_lift _ _ _ (a1 ++ a2)); [rewrite Ea; by apply erase_node_eq|].
  apply runs_bind, on_world_runs. pose proof (set_active_runs id false now w e He G) as Hrun. unfold runs in Hrun |- *.
  rewrite (deactivate_eq id now w e He) in Hrun |- *. rename Hrun into Hc. set (w' := mkWorld _ _ _) in *.
  cbn -[moved w']. set (s' := mkSieve _ _ _).
  assert (Hm : forall k', fst <$> clear_marks cl.*2 (endpoint_map_ st) !! k' = fst <$> endpoint_map_ st !! k')
    by (intros; apply clear_marks_same).
  assert (Hv : clear_marks cl.*2 (endpoint_map_ st) !! v = Some (id, b && bool_decide (v ∉ cl.*2)))
    by (rewrite clear_marks_lookup, Hy; done).
  assert (HH : HInv fst st w') by (eapply heap_changed; [apply Inv|exact Hc|by intros ? []|by exists e]).
  destruct (changed_get _ _ _ _ Hc) as (e' & He' & _ & Hact). destruct Hc as [Hn (e1 & Ee & _)].
  split.
  - split; simpl.
    + apply (moved_sv s w w' v n a1 a2 id _ (Some h) _ Inv Ea Hm Hv HH). by intros ? [= <-].
    + fold st. rewrite Ea, !length_app. simpl. lia.
    + done.
    + intros k' Hk'. fold st in Hk'. rewrite lookup_delete_None, clear_marks_lookup, Hk'. by right.
    + intros id' Ho'. eapply same_endpoints_owned; [exact Hm|].
      apply (moved_owned fst (set_map (clear_marks cl.*2 (endpoint_map_ st)) st) v (id, b && bool_decide (v ∉ cl.*2)) n a1 a2); try done.
      by apply same_endpoints_inv.
    + intros id' Hno. rewrite lookup_insert_ne; [done|]. by intros <-.
    + done.
  - exists l1, (o, k), l2, (n, v), cl, id, b. simpl. fold st.
    split_and!; try done; [by rewrite Ea, filter_node|by rewrite <- Ea in Hh|by exists e].
Qed.

Lemma make_room_runs now fuel : forall s w, SVInv s w -> 2 <= max_size_ (store s) ->
  Z.of_nat (length (fifo_list_ (store s))) - max_size_ (store s) < Z.of_nat fuel ->
  runs (sieve_make_room fuel now) (s, w) (fun _ p => SVInv p.1 p.2 /\ getSize (store p.1) < max_size_ (store p.1) /\
    max_size_ (store p.1) = max_size_ (store s) /\
    (forall k, endpoint_map_ (store s) !! k = None -> endpoint_map_ (store p.1) !! k = None) /\
    (forall id, owned fst (store p.1) id -> owned fst (store s) id) /\
    (forall id, ~ owned fst (store s) id -> eps p.2 !! id = eps w !! id) /\ next_ep p.2 = next_ep w).
Proof.
  induction fuel as [|fuel IH]; intros s w Inv Hmax Hf; cbn [sieve_make_room]; apply the_store_runs;
    rewrite (getSize_list fst _ (sv_inv _ _ Inv)); destruct (Z.leb_spec (max_size_ (store s)) (Z.of_nat (length (fifo_list_ (store s))))).
  - lia.
  - cbn. split_and!; try done. by rewrite (getSize_list fst _ (sv_inv _ _ Inv)).
  - apply runs_bind. eapply runs_mono; [apply (evict_runs now s w Inv); lia|].
    intros [] [s1 w1] [[Inv1 L1 M1 K1 O1 F1 N1] _]. simpl in *.
    eapply runs_mono; [apply (IH s1 w1 Inv1); lia|].
    intros [] [s2 w2] (Inv2 & G2 & M2 & K2 & O2 & F2 & N2). simpl in *.
    split_and!; try done; [lia|auto|auto| |congruence].
    intros id Hno. rewrite F2, F1 by auto. done.
  - cbn. split_and!; try done. by rewrite (getSize_list fst _ (sv_inv _ _ Inv)).
Qed.

(** ** The requests *)

(** What every request keeps. *)
Definition Keeps (s : SIEVE) (s' : SIEVE) (w' : World) : Prop :=
  SVInv s' w' /\ max_size_ (store s') = max_size_ (store s) /\
  (getSize (store s) <= max_size_ (store s) -> getSize (store s') <= max_size_ (store s')).

Lemma get_runs path s w : SVInv s w ->
  runs (sieve_getEndpoint path) (s, w) (fun r p => Keeps s p.1 p.2 /\
    r = fst <$> endpoint_map_ (store s) !! path /\
    (forall id, r = Some id -> endpoint_map_ (store p.1) !! path = Some (id, true))).
Proof.
  intros Inv. apply the_store_runs. destruct (endpoint_map_ (store s) !! path) as [[id b]|] eqn:Hk; [|done].
  cbn. set (m := <[path := (id, true)]> _).
  assert (Hm : forall k', fst <$> m !! k' = fst <$> endpoint_map_ (store s) !! k').
  { intros k'. unfold m. rewrite lookup_insert. destruct (decide (path = k')) as [<-|]; [by rewrite Hk|done]. }
  assert (I : SInv fst (set_map m (store s))) by (apply same_endpoints_inv; [apply Inv|done]).
  split; [split; [|split; [done|]]|].
  - split; simpl; [done| |apply Inv|apply Inv].
    split; [|apply (sv_heap _ _ Inv)]. intros id' Ho. apply (hi_good _ _ _ (sv_heap _ _ Inv)).
    by eapply same_endpoints_owned.
  - rewrite !(getSize_list fst) by (done || apply Inv). done.
  - split; [done|]. intros id' [= <-]. simpl. apply lookup_insert_eq.
Qed.

Section requests.
Context (create_ok destroy_ok : nat -> nat -> bool) (held : nat -> bool).
Context (Hcreate : forall id j, create_ok id j = true).

Lemma insert_runs now cq n max_wr path s w : SVInv s w -> 2 <= max_size_ (store s) ->
  runs (sieve_insertEndpoint create_ok destroy_ok now cq n max_wr path) (s, w) (fun r p => Keeps s p.1 p.2 /\
    exists id b, r = Some id /\ endpoint_map_ (store p.1) !! path = Some (id, b)).
Proof.
  intros Inv Hmax. apply the_store_runs. destruct (endpoint_map_ (store s) !! path) as [[id b]|] eqn:Hk.
  - cbn. split; [|by exists id, b]. by split.
  - apply runs_bind, on_world_runs.
    eapply runs_mono; [apply (new_constructed_runs fst create_ok destroy_ok cq n max_wr (store s) w Hcreate (sv_heap _ _ Inv))|].
    intros r w1 (-> & HH1 & N1 & F1 & e1 & He1 & G1).
    assert (Inv1 : SVInv s w1) by (split; apply Inv || done). set (id := next_ep w) in *.
    assert (Hno : ~ owned fst (store s) id) by (apply fresh_not_owned, Inv).
    apply runs_bind. eapply runs_mono; [apply (make_room_runs now _ s w1 Inv1 Hmax)|].
    { rewrite (size_list fst _ (sv_inv _ _ Inv)). lia. }
    intros [] [s2 w2] (Inv2 & Hsz & M2 & K2 & O2 & F2 & N2). simpl in *.
    assert (He2 : eps w2 !! id = Some e1) by (by rewrite F2).
    apply runs_bind, on_world_runs. eapply runs_mono; [by apply (setPeerNicPath_runs id path w2 e1)|].
    intros [] w3 Hc.
    set (st := added path (id, false) ((next_node (store s2), path) :: fifo_list_ (store s2)) (store s2)).
    apply (runs_eq _ _ (Some id) (mkSieve st (hand_ s2) (waiting_list_len_ s2), w3)); [done|].
    assert (HH3 : HInv fst (store s2) w3) by (eapply heap_changed; [apply Inv2|exact Hc|by intros ? []|by exists e1]).
    destruct (changed_get _ _ _ _ Hc) as (e3 & He3 & G3 & _).
    assert (Hno2 : ~ owned fst (store s2) id) by auto.
    assert (I3 : SInv fst st) by (apply (added_inv fst (store s2) path (id, false)); [apply Inv2|by apply K2|done|done]).
    split.
    + split; [|split; [done|]].
      * split; simpl; [done| | |apply Inv2].
        -- split; [|apply HH3]. intros id' [->|Ho]%(added_owned fst (store s2) path (id, false)).
           ++ exists e3. auto.
           ++ by apply (hi_good _ _ _ HH3).
        -- intros m Hm. right. by apply (sv_hand _ _ Inv2).
      * intros _. simpl. fold st. rewrite (getSize_list fst st I3). simpl.
        rewrite (getSize_list fst _ (sv_inv _ _ Inv2)) in Hsz. lia.
    + exists id, false. split; [done|]. apply lookup_insert_eq.
Qed.

Lemma delete_runs path s w : SVInv s w ->
  runs (sieve_deleteEndpoint path) (s, w) (fun r p => r = 0 /\ Keeps s p.1 p.2 /\
    endpoint_map_ (store p.1) = delete path (endpoint_map_ (store s)) /\ p.2 = w).
Proof.
  intros Inv. apply the_store_runs. cbv zeta. destruct (endpoint_map_ (store s) !! path) as [[id b]|] eqn:Hk.
  2:{ apply runs_ret. cbn. rewrite delete_id by done. split; [done|]. split; [by split|done]. }
  destruct (node_of fst _ _ _ (sv_inv _ _ Inv) Hk) as (n & l1 & l2 & El & Hn).
  pose proof (si_nodes _ _ (sv_inv _ _ Inv)) as ND. rewrite El in ND.
  apply (runs_lift _ _ _ n _ Hn).
  assert (Hhand : exists hand, (if decide (hand_ s = Some n) then
      match fifo_list_ (store s) with
      | [] => None
      | p :: _ => if decide (p.1 = n) then Some None else Some <$> circular_prev n (fifo_list_ (store s))
      end else Some (hand_ s)) = Some hand /\ forall h, hand = Some h -> h ∈ (l1 ++ l2).*1).
  { destruct (decide (hand_ s = Some n)) as [Hh|Hh].
    - rewrite El. destruct l1 as [|p l1].
      + simpl. rewrite decide_True by done. by exists None.
      + cbn [app]. rewrite decide_False.
        * destruct (prev_other (p :: l1) n path l2 ND) as (h & Hp & Hin); [done|]. exists (Some h).
          cbn [app] in Hp. rewrite Hp. split; [done|]. by intros ? [= <-].
        * intros Hp. cbn [app] in ND. rewrite fmap_cons in ND. apply list.NoDup_cons in ND as [Hni _].
          apply Hni. rewrite Hp, fmap_app, fmap_cons, elem_of_app, elem_of_cons. auto.
    - exists (hand_ s). split; [done|]. intros h Hh'. pose proof (sv_hand _ _ Inv h Hh') as Hin.
      rewrite El, fmap_app, fmap_cons, elem_of_app, elem_of_cons in Hin. rewrite fmap_app, elem_of_app.
      simpl in Hin. destruct Hin as [?|[->|?]]; auto. by destruct Hh. }
  destruct Hhand as (hand & Hhand & Hhin). apply (runs_lift _ _ _ hand _ Hhand).
  apply (runs_lift _ _ _ (l1 ++ l2)); [rewrite El; by apply erase_node_eq|]. cbn.
  pose proof (moved_sv s w w path n l1 l2 id b hand (endpoint_map_ (store s)) Inv El (fun _ => eq_refl) Hk (sv_heap _ _ Inv) Hhin) as Inv'.
  split; [done|]. split; [|done]. split; [|split; [done|]].
  - unfold moved, set_map, set_waiting, set_fmap, set_list in *. exact Inv'.
  - simpl. unfold getSize. simpl. intros H. etrans; [|exact H]. apply inj_le.
    rewrite map_size_delete_Some by (by exists (id, b)). lia.
Qed.

Lemma reclaim_runs s w : SVInv s w ->
  runs (sieve_reclaimEndpoint destroy_ok held) (s, w) (fun _ p => Keeps s p.1 p.2 /\
    endpoint_map_ (store p.1) = endpoint_map_ (store s) /\
    (waiting_list_len_ s <> 0 -> forall id, id ∈ waiting_list_ (store p.1) <-> id ∈ waiting_list_ (store s) /\ busy_in w id = true)).
Proof.
  intros Inv. apply the_store_runs. destruct (Z.eqb_spec (waiting_list_len_ s) 0) as [H0|H0].
  { cbn. split; [by split|]. by split. }
  set (wl := waiting_list_ (store s)).
  assert (Hg : forall id, id ∈ elements wl -> exists e, eps w !! id = Some e /\ Good e).
  { intros id Hid%elem_of_elements. apply (hi_good _ _ _ (sv_heap _ _ Inv)). by right. }
  apply runs_bind, on_world_runs. eapply runs_eq; [by apply done_waiting_eq|].
  set (td := filter _ _). cbn -[release_all].
  assert (NDt : NoDup td) by (apply list.NoDup_filter, NoDup_elements).
  assert (Htd : forall id, id ∈ td <-> id ∈ wl /\ busy_in w id = false).
  { intros id. unfold td. rewrite list_elem_of_filter, elem_of_elements. tauto. }
  apply on_world_runs. eapply runs_mono; [apply (release_all_runs destroy_ok held td w NDt)|].
  { intros id [Hid _]%Htd. by apply Hg, elem_of_elements. }
  intros [] w' (N & F & Sub). cbn.
  destruct (reclaimed_inv fst (store s) w w' td (sv_inv _ _ Inv) (sv_heap _ _ Inv)) as [I' H']; try done.
  { by intros id [? _]%Htd. }
  split; [split; [|split; [done|done]]|split; [done|]].
  - split; simpl; [done|done|apply Inv|].
    fold wl. rewrite (sv_len _ _ Inv). fold wl. unfold Z.sub. rewrite s32_plus. f_equal.
    rewrite size_difference.
    + rewrite size_list_to_set by done. assert (length td <= size wl)%nat; [|lia].
        rewrite <- (size_list_to_set (C := gset nat) td) by done. apply subseteq_size.
        intros id. rewrite elem_of_list_to_set. by intros [? _]%Htd.
    + intros id. rewrite elem_of_list_to_set. by intros [? _]%Htd.
  - intros _ id. simpl. fold wl. rewrite elem_of_difference, elem_of_list_to_set, Htd.
    destruct (busy_in w id); naive_solver.
Qed.
End requests.

End EpSieveOps.
