(* ===== verification/EndpointFifo.v ===== *)
(** * EndpointFifo: the FIFO store is a bounded queue

    Each operation of the FIFO store is defined and acts on the keys of its
    list as on a queue of bounded length; the endpoints it drops wait, still
    active, for their destruction. *)

From Stdlib Require Import ZArith Lia.
From stdpp Require Import base list gmap strings numbers.
From S2P Require Import Prelude Endpoint EndpointStore EndpointInv EndpointSieve.
Import Endpoint EndpointStore EpProofs EpInv EpSieveOps.

Open Scope moon_scope.
Open Scope Z_scope.

Module EpFifo.

Abbreviation ep := (fun id : nat => id).
Definition FVInv (s : Store nat) (w : World) : Prop := SInv ep s /\ HInv ep s w.
Definition queue (s : Store nat) : list string := (fifo_list_ s).*2.

Lemma queue_elem s k : SInv ep s -> k ∈ queue s <-> is_Some (endpoint_map_ s !! k).
Proof. intros I. symmetry. apply (si_map _ _ I). Qed.

Lemma fifo_evict_runs s w n k l : FVInv s w -> fifo_list_ s = (n, k) :: l ->
  runs fifo_evictEndpoint (s, w) (fun _ p => p.2 = w /\ FVInv p.1 w /\ fifo_list_ p.1 = l /\ max_size_ p.1 = max_size_ s /\
    (forall id, owned ep p.1 id -> owned ep s id) /\
    (forall k', endpoint_map_ s !! k' = None -> endpoint_map_ p.1 !! k' = None) /\
    exists id, endpoint_map_ s !! k = Some id /\ waiting_list_ p.1 = {[id]} ∪ waiting_list_ s).
Proof.
  intros [I H] El. apply the_store_runs. rewrite El.
  destruct (value_of ep s n k I) as [id Hk]; [rewrite El; by left|]. rewrite Hk.
  apply (runs_eq _ _ tt (moved k id l s, w)); [done|]. cbn -[moved].
  assert (HO : forall id', owned ep (moved k id l s) id' -> owned ep s id').
  { intros id'. by apply (moved_owned ep s k id n [] l). }
  split_and!; try done.
  - split; [by apply (moved_inv ep s k id n [] l)|]. split; [|apply H]. intros id' Ho. by apply (hi_good _ _ _ H), HO.
  - intros k' Hk'. simpl. rewrite lookup_delete_None. by right.
  - by exists id.
Qed.

Lemma fifo_make_room_runs fuel : forall s w, FVInv s w -> 1 <= max_size_ s ->
  Z.of_nat (length (fifo_list_ s)) - max_size_ s < Z.of_nat fuel ->
  runs (fifo_make_room fuel) (s, w) (fun _ p => p.2 = w /\ FVInv p.1 w /\ max_size_ p.1 = max_size_ s /\
    fifo_list_ p.1 = drop (length (fifo_list_ s) + 1 - Z.to_nat (max_size_ s)) (fifo_list_ s) /\
    (forall id, owned ep p.1 id -> owned ep s id) /\
    (forall k', endpoint_map_ s !! k' = None -> endpoint_map_ p.1 !! k' = None)).
Proof.
  induction fuel as [|fuel IH]; intros s w Inv Hmax Hf; cbn [fifo_make_room]; apply the_store_runs;
    rewrite (getSize_list ep _ (proj1 Inv)); destruct (Z.leb_spec (max_size_ s) (Z.of_nat (length (fifo_list_ s)))) as [Hle|Hle].
  - lia.
  - apply runs_ret. cbn. split_and!; try done. by rewrite (proj2 (Nat.sub_0_le _ _)) by lia.
  - destruct (fifo_list_ s) as [|[n k] l] eqn:El; [simpl in Hle; lia|].
    apply runs_bind. eapply runs_mono; [by apply (fifo_evict_runs s w n k l)|].
    intros [] [s1 w1] (E1 & Inv1 & L1 & M1 & O1 & K1 & _). cbn [fst snd length] in *. subst w1.
    eapply runs_mono; [apply (IH s1 w Inv1); rewrite ?L1, ?M1; lia|].
    intros [] [s2 w2] (E2 & Inv2 & M2 & L2 & O2 & K2). cbn [fst snd] in *. subst w2.
    split_and!; try done; [congruence| |auto|auto]. rewrite L2, L1, M1.
    replace (S (length l) + 1 - Z.to_nat (max_size_ s))%nat with (S (length l + 1 - Z.to_nat (max_size_ s))) by lia. done.
  - apply runs_ret. cbn. split_and!; try done. by rewrite (proj2 (Nat.sub_0_le _ _)) by lia.
Qed.

(** ** The abstract queue *)

Inductive freq : Type :=
| FGet (path : string) | FInsert (cq num_qp : nat) (max_wr : Z) (path : string) | FDelete (path : string) | FReclaim.

(** The answer says whether an endpoint is returned. *)
Definition queue_step (max : Z) (r : freq) (q : list string) : bool * list string :=
  match r with
  | FGet k => (bool_decide (k ∈ q), q)
  | FInsert _ _ _ k => (true, if decide (k ∈ q) then q else drop (length q + 1 - Z.to_nat max) q ++ [k])
  | FDelete k => (false, filter (fun x => x <> k) q)
  | FReclaim => (false, q)
  end.

Section requests.
Context (create_ok destroy_ok : nat -> nat -> bool) (held : nat -> bool).
Context (Hcreate : forall id j, create_ok id j = true).

Definition fifo_do (r : freq) : ST (Store nat * World) (option nat) :=
  match r with
  | FGet k => fifo_getEndpoint k
  | FInsert cq n max_wr k => fifo_insertEndpoint create_ok destroy_ok cq n max_wr k
  | FDelete k => let* _rc := fifo_deleteEndpoint k in ret None
  | FReclaim => do* fifo_reclaimEndpoint destroy_ok held in ret None
  end.

(** The store after a request, against the queue. *)
Definition Simulates (r : freq) (s : Store nat) (a : option nat) (p : Store nat * World) : Prop :=
  FVInv p.1 p.2 /\ max_size_ p.1 = max_size_ s /\ (bool_decide (is_Some a), queue p.1) = queue_step (max_size_ s) r (queue s).

Lemma fifo_get_sim k s w : FVInv s w -> runs (fifo_getEndpoint k) (s, w) (Simulates (FGet k) s).
Proof.
  intros Inv. cbn. split; [done|]. split; [done|]. cbn. f_equal. apply bool_decide_ext. symmetry. by apply queue_elem, Inv.
Qed.

Lemma fifo_insert_sim cq n max_wr k s w : FVInv s w -> 1 <= max_size_ s ->
  runs (fifo_insertEndpoint create_ok destroy_ok cq n max_wr k) (s, w) (Simulates (FInsert cq n max_wr k) s).
Proof.
  intros Inv Hmax. destruct Inv as [I H]. apply the_store_runs. pose proof (queue_elem s k I) as Hq.
  destruct (endpoint_map_ s !! k) as [id|] eqn:Hk.
  - apply runs_ret. split; [done|]. split; [done|]. cbn. rewrite decide_True by (by apply Hq; eexists). done.
  - apply runs_bind, on_world_runs.
    eapply runs_mono; [apply (new_constructed_runs ep create_ok destroy_ok cq n max_wr s w Hcreate H)|].
    intros r w1 (-> & HH1 & N1 & F1 & e1 & He1 & G1). set (id := next_ep w) in *.
    assert (Hno : ~ owned ep s id) by (by apply fresh_not_owned).
    apply runs_bind. eapply runs_mono; [apply (fifo_make_room_runs _ s w1 (conj I HH1) Hmax)|].
    { rewrite (size_list ep _ I). lia. }
    intros [] [s2 w2] (E2 & [I2 H2] & M2 & L2 & O2 & K2). simpl in *. subst w2.
    apply runs_bind, on_world_runs. eapply runs_mono; [by apply (setPeerNicPath_runs id k w1 e1)|].
    intros [] w3 Hc.
    set (st := added k id (fifo_list_ s2 ++ [(next_node s2, k)]) s2).
    apply (runs_eq _ _ (Some id) (st, w3)); [done|].
    assert (HH3 : HInv ep s2 w3) by (eapply heap_changed; [exact H2|exact Hc|by intros ? []|by exists e1]).
    destruct (changed_get _ _ _ _ Hc) as (e3 & He3 & G3 & _).
    split; [split|split; [done|]].
    + apply (added_inv ep s2 k id); [done|by apply K2|by auto|symmetry; apply Permutation_cons_append].
    + split; [|apply HH3]. intros id' [->|Ho]%(added_owned ep s2 k id); [by exists e3|by apply (hi_good _ _ _ HH3)].
    + cbn. rewrite decide_False by (rewrite Hq; apply is_Some_None). unfold queue. simpl.
      by rewrite L2, fmap_app, fmap_drop, length_fmap.
Qed.

Lemma fifo_delete_sim k s w : FVInv s w ->
  runs (fifo_do (FDelete k)) (s, w) (Simulates (FDelete k) s).
Proof.
  intros [I H]. apply runs_bind, the_store_runs. destruct (endpoint_map_ s !! k) as [id|] eqn:Hk.
  - destruct (node_of ep _ _ _ I Hk) as (n & l1 & l2 & El & Hn). pose proof (si_nodes _ _ I) as ND. rewrite El in ND.
    apply (runs_lift _ _ _ n _ Hn). apply (runs_lift _ _ _ (l1 ++ l2)); [rewrite El; by apply erase_node_eq|].
    apply (runs_eq _ _ 0 (moved k id (l1 ++ l2) s, w)); [done|]. apply runs_ret.
    split; [split; [by apply (moved_inv ep s k id n)|]|split; [done|]].
    + split; [|apply H]. intros id' Ho. apply (hi_good _ _ _ H). by apply (moved_owned ep s k id n l1 l2).
    + cbn. f_equal. unfold queue. pose proof (si_keys _ _ I) as NK. rewrite El in *. simpl.
      rewrite fmap_app, fmap_cons in NK. apply list.NoDup_app in NK as (_ & Hd & [Hk2 _]%list.NoDup_cons).
      rewrite !fmap_app, fmap_cons, list.filter_app, filter_cons. simpl.
      rewrite decide_False by (intros X; by apply X). rewrite !filter_absent; [done|done|].
      intros Hk1. apply (Hd k Hk1). by left.
  - apply runs_ret, runs_ret. split; [done|]. split; [done|]. cbn. rewrite filter_absent; [done|].
    rewrite queue_elem, Hk by done. apply is_Some_None.
Qed.

(** Reclaiming lets go of exactly the waiting endpoints that are not busy. *)
Lemma fifo_reclaim_runs s w : FVInv s w ->
  runs (fifo_reclaimEndpoint destroy_ok held) (s, w) (fun _ p => FVInv p.1 p.2 /\ max_size_ p.1 = max_size_ s /\ queue p.1 = queue s /\
    forall id, id ∈ waiting_list_ p.1 <-> id ∈ waiting_list_ s /\ busy_in w id = true).
Proof.
  intros [I H]. apply the_store_runs. set (wl := waiting_list_ s).
  assert (Hg : forall id, id ∈ elements wl -> exists e, eps w !! id = Some e /\ Good e).
  { intros id Hid%elem_of_elements. apply (hi_good _ _ _ H). by right. }
  apply runs_bind, on_world_runs. eapply runs_eq; [by apply done_waiting_eq|].
  set (td := filter _ _). apply runs_bind.
  apply (runs_eq _ _ tt (set_waiting (wl ∖ list_to_set td) s, w)); [done|].
  assert (NDt : NoDup td) by (apply list.NoDup_filter, NoDup_elements).
  assert (Htd : forall id, id ∈ td <-> id ∈ wl /\ busy_in w id = false).
  { intros id. unfold td. rewrite list_elem_of_filter, elem_of_elements. tauto. }
  apply on_world_runs. eapply runs_mono; [apply (release_all_runs destroy_ok held td w NDt)|].
  { intros id [Hid _]%Htd. by apply Hg, elem_of_elements. }
  intros [] w' (N & F & Sub). cbn. split; [|split; [done|split; [done|]]].
  - apply (reclaimed_inv ep s w w' td); try done. by intros id [? _]%Htd.
  - intros id. fold wl. rewrite elem_of_difference, elem_of_list_to_set, Htd. destruct (busy_in w id); naive_solver.
Qed.

Lemma fifo_sim r s w : FVInv s w -> 1 <= max_size_ s -> runs (fifo_do r) (s, w) (Simulates r s).
Proof.
  intros Inv Hmax. destruct r.
  - by apply fifo_get_sim.
  - by apply fifo_insert_sim.
  - by apply fifo_delete_sim.
  - apply runs_bind. eapply runs_mono; [by apply fifo_reclaim_runs|]. intros [] p (Inv' & M & Q & _).
    apply runs_ret. split; [done|]. split; [done|]. cbn. by rewrite Q.
Qed.
End requests.

End EpFifo.
