(* ===== verification/EndpointProps.v ===== *)
(** * EndpointProps: properties of the endpoint stores

    Between requests the endpoints of a store may change under other threads
    (connect, submit, complete, be marked inactive), as long as they stay
    endpoints whose queue pairs exist.  Under any interleaving a SIEVE store
    for at least two endpoints is safe and evicts as SIEVE should, and a FIFO
    store is a bounded queue; a SIEVE store for one endpoint is not safe. *)

From Stdlib Require Import ZArith Lia.
From stdpp Require Import base list gmap strings numbers relations.
From S2P Require Import Prelude Endpoint EndpointStore EndpointInv EndpointSieve EndpointFifo.
Import Endpoint EndpointStore EpProofs EpInv EpSieve EpSieveOps EpFifo.

Open Scope moon_scope.
Open Scope Z_scope.

Module EpProps.

(** What other threads may do to the endpoints of a store. *)
Definition others {V} (ep : V -> nat) (s : Store V) (w w' : World) : Prop :=
  (forall id e, owned ep s id -> eps w !! id = Some e -> Good e -> exists e', eps w' !! id = Some e' /\ Good e') /\
  (forall id, is_Some (eps w' !! id) -> is_Some (eps w !! id)) /\ next_ep w' = next_ep w.

Lemma others_heap {V} (ep : V -> nat) s w w' : HInv ep s w -> others ep s w w' -> HInv ep s w'.
Proof.
  intros [G N] (H1 & H2 & H3). split.
  - intros id Ho. destruct (G id Ho) as (e & He & Hg). by apply (H1 id e).
  - intros id Hid. rewrite H3. by apply N, H2.
Qed.

Lemma empty_store_inv {V} (ep : V -> nat) max : SInv ep (new_store max) /\ HInv ep (new_store max) empty_world.
Proof.
  split; split; simpl; try done; try (by apply NoDup_nil_2).
  - intros k n. rewrite lookup_empty. split; [done|intros H; inversion H].
  - intros k. rewrite lookup_empty. split; [by intros [? ?]|intros H; inversion H].
  - intros n k H. inversion H.
  - intros id [(k & v & Hk & _)|Hw]; [done|simpl in Hw; set_solver].
  - intros id [? H]. by rewrite lookup_empty in H.
Qed.

Section systems.
Context (create_ok destroy_ok : nat -> nat -> bool) (held : nat -> bool).
Context (create_qp_succeeds : forall id j, create_ok id j = true).

(** ** SIEVE *)

Inductive sreq : Type :=
| SGet (path : string) | SInsert (now : Z) (cq num_qp : nat) (max_wr : Z) (path : string)
| SDelete (path : string) | SReclaim | SEndpoint (active : bool) (now : Z) (cq num_qp : nat) (max_wr : Z) (path : string).

Definition sieve_do (r : sreq) : ST (SIEVE * World) (option nat) :=
  match r with
  | SGet k => sieve_getEndpoint k
  | SInsert now cq n max_wr k => sieve_insertEndpoint create_ok destroy_ok now cq n max_wr k
  | SDelete k => let* _rc := sieve_deleteEndpoint k in ret None
  | SReclaim => do* sieve_reclaimEndpoint destroy_ok held in ret None
  | SEndpoint active now cq n max_wr k => context_endpoint create_ok destroy_ok held active now cq n max_wr k
  end.

Inductive sieve_step : SIEVE * World -> SIEVE * World -> Prop :=
| sieve_request r p a p' : sieve_do r p = Some (a, p') -> sieve_step p p'
| sieve_others s w w' : others fst (store s) w w' -> sieve_step (s, w) (s, w').

Lemma sieve_do_runs r s w : SVInv s w -> 2 <= max_size_ (store s) ->
  runs (sieve_do r) (s, w) (fun _ p => Keeps s p.1 p.2).
Proof.
  intros Inv Hmax. destruct r as [k|now cq n mw k|k| |active now cq n mw k]; cbn [sieve_do].
  - eapply runs_mono; [by apply get_runs|]. by intros a p [? _].
  - eapply runs_mono; [by apply insert_runs|]. by intros a p [? _].
  - apply runs_bind. eapply runs_mono; [by apply delete_runs|]. by intros a p (_ & ? & _).
  - apply runs_bind. eapply runs_mono; [by apply reclaim_runs|]. by intros a p [? _].
  - unfold context_endpoint. destruct active; [|by split]. cbn [negb]. destruct (String.eqb k ""); [by split|].
    apply runs_bind. eapply runs_mono; [by apply get_runs|]. intros a [s1 w1] [K1 _]. cbn [fst snd] in K1.
    destruct a as [id|]; [by apply runs_ret|]. destruct K1 as (I1 & M1 & B1).
    apply runs_bind. eapply runs_mono; [apply (insert_runs create_ok destroy_ok create_qp_succeeds now cq n mw k s1 w1 I1); lia|].
    intros a [s2 w2] [(I2 & M2 & B2) _]. cbn [fst snd] in *.
    apply runs_bind. eapply runs_mono; [by apply (reclaim_runs destroy_ok held s2 w2)|].
    intros [] [s3 w3] [(I3 & M3 & B3) _]. cbn [fst snd] in *. apply runs_ret. cbn [fst snd]. split; [done|].
    split; [congruence|auto].
Qed.

Definition SReach (max : Z) : SIEVE * World -> Prop := rtc sieve_step (new_sieve max, empty_world).

Lemma sieve_reachable max p : 2 <= max -> SReach max p ->
  SVInv p.1 p.2 /\ max_size_ (store p.1) = max /\ getSize (store p.1) <= max.
Proof.
  intros Hmax. unfold SReach. apply (rtc_ind_r (fun p => SVInv p.1 p.2 /\ max_size_ (store p.1) = max /\ getSize (store p.1) <= max)).
  - destruct (empty_store_inv (fst : nat * bool -> nat) max) as [I H]. split_and!; [|done|change (0 <= max); lia].
    by split.
  - intros [s w] p' _ Hs (Inv & M & B). cbn [fst snd] in *. inversion Hs as [r q a p1 Hr|s1 w1 w' Ho]; subst.
    + pose proof (sieve_do_runs r s w Inv Hmax) as Hk. unfold runs in Hk. rewrite Hr in Hk.
      destruct Hk as (I' & M' & B'). split; [done|]. split; [done|]. rewrite <- M'. by apply B'.
    + cbn [fst snd]. split; [|done]. destruct Inv as [I H Hh L]. split; try done. by eapply others_heap.
Qed.

(** C39: a SIEVE store with room for at least two endpoints, where queue pairs
    can be created, answers every request without undefined behaviour, whatever
    other threads do to its endpoints in between; it never holds more endpoints
    than its capacity; its map, its list and its index agree; its hand names a
    node of the list; no endpoint is both in use and waiting; the counter of
    waiting endpoints is exact. *)
Theorem sieve_store_safe max p r :
  2 <= max -> SReach max p ->
  (exists a p', sieve_do r p = Some (a, p')) /\
  let s := store p.1 in
  getSize s <= max /\
  (forall k, is_Some (endpoint_map_ s !! k) <-> k ∈ (fifo_list_ s).*2) /\
  (forall k n, fifo_map_ s !! k = Some n <-> (n, k) ∈ fifo_list_ s) /\
  (forall n, hand_ p.1 = Some n -> n ∈ (fifo_list_ s).*1) /\
  (forall k id b, endpoint_map_ s !! k = Some (id, b) -> id ∉ waiting_list_ s) /\
  waiting_list_len_ p.1 = s32 (Z.of_nat (size (waiting_list_ s))).
Proof.
  intros Hmax Hr. destruct (sieve_reachable max p Hmax Hr) as (Inv & M & B). split.
  - destruct p as [s w]. destruct (runs_elim _ _ _ (sieve_do_runs r s w Inv ltac:(cbn in M; lia))) as (a & p' & Hd & _).
    by exists a, p'.
  - pose proof (sv_inv _ _ Inv) as I. intros s. split_and!; try done; try apply I; try apply Inv.
    intros k id b Hk. apply (si_wait _ _ I k (id, b) Hk).
Qed.

(** C40: in a store with room for at least two endpoints that holds at least
    two (queue pairs can be created), an eviction walks from the hand (from the
    back when there is none) towards the front and around, takes the marks off
    the endpoints it passes, and removes the first one without a mark, or the
    one it started from when all had one.  That endpoint is deactivated and
    waits, and the hand moves to the node before it; its map entry, list node
    and index entry go and the count of waiting endpoints grows by one; the
    other entries, nodes and waiting endpoints, the capacity, every other
    endpoint and the counters of the completion queues stay as they are. *)
Theorem sieve_evicts_first_unvisited max p now :
  2 <= max -> SReach max p -> 2 <= getSize (store p.1) ->
  exists p', sieve_evictEndpoint now p = Some (tt, p') /\ evicts_first_unmarked now p.1 p.2 p'.1 p'.2.
Proof.
  intros Hmax Hr H2. destruct (sieve_reachable max p Hmax Hr) as (Inv & _ & _). destruct p as [s w]. cbn [fst snd] in *.
  rewrite (getSize_list fst _ (sv_inv _ _ Inv)) in H2.
  destruct (runs_elim _ _ _ (evict_runs now s w Inv ltac:(lia))) as ([] & p' & Hd & _ & He). by exists p'.
Qed.

(** reclaiming drops exactly the waiting endpoints that are inactive and
    have no request in flight, so an evicted endpoint goes as soon as its
    requests have completed. *)
Theorem reclaim_exact max p :
  2 <= max -> SReach max p -> Z.of_nat (size (waiting_list_ (store p.1))) < 2 ^ 31 ->
  exists p', sieve_reclaimEndpoint destroy_ok held p = Some (tt, p') /\
    endpoint_map_ (store p'.1) = endpoint_map_ (store p.1) /\
    forall id, id ∈ waiting_list_ (store p'.1) <-> id ∈ waiting_list_ (store p.1) /\
      exists e, eps p.2 !! id = Some e /\ (active_ e = true \/ exists i d, depth_get e i = Some d /\ d <> 0).
Proof.
  intros Hmax Hr Hw. destruct (sieve_reachable max p Hmax Hr) as (Inv & _ & _). destruct p as [s w]. cbn [fst snd] in *.
  destruct (runs_elim _ _ _ (reclaim_runs destroy_ok held s w Inv)) as ([] & p' & Hd & K & Hm & Hx).
  exists p'. split; [done|]. split; [done|]. intros id.
  assert (Hbusy : id ∈ waiting_list_ (store s) -> busy_in w id = true <->
    exists e, eps w !! id = Some e /\ (active_ e = true \/ exists i d, depth_get e i = Some d /\ d <> 0)).
  { intros Hin. destruct (hi_good _ _ _ (sv_heap _ _ Inv) id) as (e & He & G); [by right|].
    unfold busy_in. rewrite He, (busy_spec e G). split; [eauto|]. by intros (e' & [= <-] & H). }
  destruct (decide (waiting_list_len_ s = 0)) as [H0|H0].
  - rewrite (sv_len _ _ Inv) in H0. assert (Hs : size (waiting_list_ (store s)) = 0%nat).
    { unfold s32 in H0. rewrite Z.mod_small in H0 by lia. lia. }
    apply size_empty_inv in Hs. assert (Hs' : waiting_list_ (store p'.1) = waiting_list_ (store s)).
    { revert Hd. unfold sieve_reclaimEndpoint, bind, the_store, gets. cbn [fst]. rewrite (sv_len _ _ Inv), H0.
      cbn. by intros [= <-]. }
    rewrite Hs'. set_solver.
  - rewrite (Hx H0 id). naive_solver.
Qed.

(** ** FIFO *)

Inductive fifo_step : Store nat * World -> Store nat * World -> Prop :=
| fifo_request r p a p' : fifo_do create_ok destroy_ok held r p = Some (a, p') -> fifo_step p p'
| fifo_others s w w' : others ep s w w' -> fifo_step (s, w) (s, w').

Definition FReach (max : Z) : Store nat * World -> Prop := rtc fifo_step (new_store max, empty_world).

Lemma queue_step_bound max r q : 1 <= max -> Z.of_nat (length q) <= max -> Z.of_nat (length (queue_step max r q).2) <= max.
Proof.
  intros Hm Hq. destruct r; simpl; try done.
  - destruct (decide _); [done|]. rewrite length_app, length_drop. simpl. lia.
  - pose proof (length_filter (fun x => x <> path) q). lia.
Qed.

Lemma fifo_reachable max p : 1 <= max -> FReach max p ->
  FVInv p.1 p.2 /\ max_size_ p.1 = max /\ Z.of_nat (length (queue p.1)) <= max.
Proof.
  intros Hmax. unfold FReach. apply (rtc_ind_r (fun p => FVInv p.1 p.2 /\ max_size_ p.1 = max /\ Z.of_nat (length (queue p.1)) <= max)).
  - split; [apply empty_store_inv|]. split; [done|]. simpl. lia.
  - intros [s w] p' _ Hs (Inv & M & B). cbn [fst snd] in *. inversion Hs as [r q a p1 Hr|s1 w1 w' Ho]; subst.
    + pose proof (fifo_sim create_ok destroy_ok held create_qp_succeeds r s w Inv Hmax) as Hk. unfold runs in Hk. rewrite Hr in Hk.
      destruct Hk as (I' & M' & Hq). split; [done|]. split; [done|].
      pose proof (queue_step_bound (max_size_ s) r (queue s) Hmax B) as Hb. by rewrite <- Hq in Hb.
    + cbn [fst snd]. split; [|done]. destruct Inv as [I H]. split; [done|]. by eapply others_heap.
Qed.

(** a FIFO store for at least one endpoint implements a bounded queue of
    peers: every request is defined, answers an endpoint exactly when the queue
    says so, and changes the list of peers as the queue does; inserting into a
    full store drops the oldest peer. *)
Theorem fifo_store_refines max p r :
  1 <= max -> FReach max p ->
  exists a p', fifo_do create_ok destroy_ok held r p = Some (a, p') /\
    (bool_decide (is_Some a), queue p'.1) = queue_step max r (queue p.1) /\
    Z.of_nat (length (queue p'.1)) <= max.
Proof.
  intros Hmax Hr. destruct (fifo_reachable max p Hmax Hr) as (Inv & M & B). destruct p as [s w]. cbn [fst snd] in *.
  destruct (runs_elim _ _ _ (fifo_sim create_ok destroy_ok held create_qp_succeeds r s w Inv ltac:(lia))) as (a & p' & Hd & _ & _ & Hq).
  exists a, p'. rewrite M in Hq. split; [done|]. split; [done|].
  pose proof (queue_step_bound max r (queue s) Hmax B) as Hb. by rewrite <- Hq in Hb.
Qed.

(** A FIFO store never deactivates what it evicts, so its own reclamation keeps
    every such endpoint for ever. *)
Theorem fifo_evicted_stays max p n k l :
  1 <= max -> FReach max p -> fifo_list_ p.1 = (n, k) :: l ->
  exists p1 p2 id, fifo_evictEndpoint p = Some (tt, p1) /\ fifo_reclaimEndpoint destroy_ok held p1 = Some (tt, p2) /\
    endpoint_map_ p.1 !! k = Some id /\
    (forall e, eps p.2 !! id = Some e -> active_ e = true -> id ∈ waiting_list_ p2.1).
Proof.
  intros Hmax Hr El. destruct (fifo_reachable max p Hmax Hr) as (Inv & _ & _). destruct p as [s w]. cbn [fst snd] in *.
  destruct (runs_elim _ _ _ (fifo_evict_runs s w n k l Inv El)) as ([] & [s1 w1] & H1 & E1 & I1 & _ & _ & _ & _ & id & Hk & Hw).
  cbn [fst snd] in *. subst w1.
  destruct (runs_elim _ _ _ (fifo_reclaim_runs destroy_ok held s1 w I1)) as ([] & p2 & H2 & _ & _ & _ & Hx).
  exists (s1, w), p2, id. split_and!; try done. intros e He Ha. apply Hx. rewrite Hw. split; [set_solver|].
  unfold busy_in, busy. by rewrite He, Ha.
Qed.
End systems.

(** ** Concrete stores *)

Definition always (_ _ : nat) : bool := true.
Definition nobody (_ : nat) : bool := false.
Lemma always_ok id j : always id j = true.
Proof. done. Qed.

Definition insert0 (k : string) := sieve_insertEndpoint always always 5 0 2 16 k.
Definition fill (ks : list string) : ST (SIEVE * World) unit := fold_right (fun k c => do* insert0 k in c) (ret tt) ks.

(** a SIEVE store for a single endpoint breaks: after the second insertion
    its hand names the node just erased, and the third insertion uses it. *)
Theorem sieve_single_slot_dangles :
  (exists p, fill ["a"; "b"]%string (new_sieve 1, empty_world) = Some (tt, p) /\
     exists n, hand_ p.1 = Some n /\ n ∉ (fifo_list_ (store p.1)).*1) /\
  fill ["a"; "b"; "c"]%string (new_sieve 1, empty_world) = None.
Proof.
  split; [|by vm_compute]. eexists. split; [by vm_compute|]. exists 0%nat. split; [done|].
  change (0%nat ∉ [1%nat]). by rewrite list_elem_of_singleton.
Qed.

(** A store without capacity never stops making room. *)
Lemma zero_capacity_loops fuel now : sieve_make_room fuel now (new_sieve 0, empty_world) = None.
Proof. induction fuel as [|fuel IH]; [done|]. exact IH. Qed.

(** When the library fails to create the second queue pair of an endpoint, its
    destructor destroys a null queue pair. *)
Lemma construct_failure_crashes : new_constructed (fun _ j => (j <? 1)%nat) always 0 2 16 empty_world = None.
Proof. by vm_compute. Qed.

Lemma fill_reach ks : forall max p p', 2 <= max -> SReach always always nobody max p -> fill ks p = Some (tt, p') -> SReach always always nobody max p'.
Proof.
  induction ks as [|k ks IH]; intros max p p' Hm Hp Hf.
  - injection Hf as <-. done.
  - cbn [fill fold_right] in Hf. unfold bind in Hf. destruct (insert0 k p) as [[a p1]|] eqn:E; [|done].
    apply (IH max p1 p' Hm); [|exact Hf]. eapply rtc_r; [exact Hp|]. by apply (sieve_request always always nobody (SInsert 5 0 2 16 k) p a).
Qed.

Definition after_fill (ks : list string) (max : Z) : SIEVE * World :=
  match fill ks (new_sieve max, empty_world) with Some (_, p) => p | None => (new_sieve max, empty_world) end.

Lemma three_reach : SReach always always nobody 2 (after_fill ["a"; "b"; "c"]%string 2).
Proof.
  apply (fill_reach ["a"; "b"; "c"]%string 2 (new_sieve 2, empty_world)); [lia|apply rtc_refl|]. by vm_compute.
Qed.

Lemma sieve_store_safe_witness : getSize (store (after_fill ["a"; "b"; "c"]%string 2).1) <= 2.
Proof.
  exact (proj1 (proj2 (sieve_store_safe always always nobody always_ok 2 _ SReclaim ltac:(lia) three_reach))).
Defined.

Lemma sieve_evicts_first_unvisited_witness :
  exists p', sieve_evictEndpoint 9 (after_fill ["a"; "b"; "c"]%string 2) = Some (tt, p').
Proof.
  destruct (sieve_evicts_first_unvisited always always nobody always_ok 2 _ 9 ltac:(lia) three_reach) as (p' & Hp & _);
    [by vm_compute|]. by exists p'.
Defined.

Lemma reclaim_exact_witness :
  exists p', sieve_reclaimEndpoint always nobody (after_fill ["a"; "b"; "c"]%string 2) = Some (tt, p').
Proof.
  destruct (reclaim_exact always always nobody always_ok 2 _ ltac:(lia) three_reach) as (p' & Hp & _); [by vm_compute|].
  by exists p'.
Defined.

Lemma fifo_store_refines_witness : exists a p',
  fifo_do always always nobody (FInsert 0 2 16 "a") (new_store 1, empty_world) = Some (a, p') /\ queue p'.1 = ["a"%string].
Proof.
  destruct (fifo_store_refines always always nobody always_ok 1 (new_store 1, empty_world) (FInsert 0 2 16 "a")
    ltac:(lia) (rtc_refl _ _)) as (a & p' & Hd & Hq & _).
  exists a, p'. split; [exact Hd|]. by injection Hq.
Defined.

Lemma fifo_evicted_stays_witness : exists p',
  fifo_do always always nobody (FInsert 0 2 16 "a") (new_store 1, empty_world) = Some (Some 0%nat, p') /\
  exists p1, fifo_evictEndpoint p' = Some (tt, p1).
Proof.
  eexists. split; [by vm_compute|].
  destruct (fifo_evicted_stays always always nobody always_ok 1 _ 0 "a" [] ltac:(lia)
    (rtc_once _ _ (fifo_request always always nobody (FInsert 0 2 16 "a") (new_store 1, empty_world) _ _ eq_refl)) eq_refl)
    as (p1 & _ & _ & H & _). exists p1. exact H.
Defined.

End EpProps.
