(* ===== verification/EndpointFlight.v ===== *)
(** * EndpointFlight: the counters of requests in flight are exact

    [Acct max w fl]: every endpoint is good; the depth cell of a queue pair
    counts the requests of [fl] on it, the counter of a completion queue those
    on all its queue pairs, and neither exceeds its limit.  Submission,
    completion, disconnection, creation and destruction keep it. *)

From Stdlib Require Import ZArith Lia.
From stdpp Require Import base list gmap strings numbers.
From S2P Require Import Prelude Endpoint EndpointStore EndpointInv.
Import Endpoint EndpointStore EpProofs.

Open Scope moon_scope.
Open Scope Z_scope.

Module EpFlight.

(** Depth cells, and requests in flight: a slice with the cell that counts it. *)
Abbreviation cell := (nat * nat)%type.
Abbreviation flight := (list (nat * cell)).

Definition cell_depth (w : World) (c : cell) : option Z :=
  match eps w !! c.1 with Some e => depth_get e c.2 | None => None end.
Definition cq_of (w : World) (c : cell) : option nat := cq_ <$> eps w !! c.1.

Definition cnt (c : cell) (fl : flight) : Z := Z.of_nat (length (filter (fun x => x.2 = c) fl)).
Definition cqf (w : World) (q : nat) (fl : flight) : Z := Z.of_nat (length (filter (fun x => cq_of w x.2 = Some q) fl)).

Record Acct (max : Z) (w : World) (fl : flight) : Prop := {
  ac_good : forall id e, eps w !! id = Some e -> Good e;
  ac_qps : forall id e, eps w !! id = Some e -> qp_list_ e <> [];
  ac_next : forall id, is_Some (eps w !! id) -> (id < next_ep w)%nat;
  ac_cell : forall c d, cell_depth w c = Some d -> d = cnt c fl;
  ac_live : forall x, x ∈ fl -> is_Some (cell_depth w x.2);
  ac_cq : forall q, default 0 (cq_outstanding w !! q) = cqf w q fl;
  ac_max : forall q, cqf w q fl <= max;
  ac_wr : forall id e i, eps w !! id = Some e -> is_Some (depth_get e i) -> cnt (id, i) fl <= Z.max 0 (max_wr_depth_ e);
}.

(** ** Changes of counters only *)

Record Alike (e e' : RdmaEndPoint) : Prop := {
  al_qps : qp_list_ e' = qp_list_ e;
  al_cq : cq_ e' = cq_ e;
  al_wr : max_wr_depth_ e' = max_wr_depth_ e;
  al_good : Good e -> Good e';
  al_cells : forall i, is_Some (depth_get e' i) <-> is_Some (depth_get e i);
}.

Record Same (w w' : World) : Prop := {
  sm_eps : forall id, match eps w !! id, eps w' !! id with
                      | Some e, Some e' => Alike e e' | None, None => True | _, _ => False end;
  sm_next : next_ep w' = next_ep w;
}.

Lemma alike_refl e : Alike e e.
Proof. by split. Qed.
Lemma alike_trans e e' e'' : Alike e e' -> Alike e' e'' -> Alike e e''.
Proof.
  intros [A1 A2 A3 A4 A5] [B1 B2 B3 B4 B5]. split; try congruence; [auto|]. intros i. by rewrite B5.
Qed.

Lemma same_refl w : Same w w.
Proof. split; [|done]. intros id. destruct (eps w !! id); [apply alike_refl|done]. Qed.

Lemma same_trans w w' w'' : Same w w' -> Same w' w'' -> Same w w''.
Proof.
  intros [A1 A2] [B1 B2]. split; [|congruence]. intros id. specialize (A1 id). specialize (B1 id).
  destruct (eps w !! id), (eps w' !! id), (eps w'' !! id); try done. by eapply alike_trans.
Qed.

(** One endpoint replaced by one that differs in its cells. *)
Lemma same_put w id e e' cqs : eps w !! id = Some e -> Alike e e' -> Same w (mkWorld (<[id := e']> (eps w)) (next_ep w) cqs).
Proof.
  intros He Ha. split; [|done]. intros id'. simpl. rewrite lookup_insert. destruct (decide (id = id')) as [<-|].
  - by rewrite He.
  - destruct (eps w !! id'); [apply alike_refl|done].
Qed.

Lemma same_cqs w cqs : Same w (mkWorld (eps w) (next_ep w) cqs).
Proof. split; [|done]. intros id. simpl. destruct (eps w !! id); [apply alike_refl|done]. Qed.

Lemma same_cq_of w w' c : Same w w' -> cq_of w' c = cq_of w c.
Proof.
  intros [H _]. unfold cq_of. specialize (H c.1). destruct (eps w !! c.1), (eps w' !! c.1); try done.
  simpl. by rewrite (al_cq _ _ H).
Qed.

Lemma same_cells w w' c : Same w w' -> is_Some (cell_depth w' c) <-> is_Some (cell_depth w c).
Proof.
  intros [H _]. unfold cell_depth. specialize (H c.1). destruct (eps w !! c.1), (eps w' !! c.1); try done. apply H.
Qed.

Lemma cqf_same w w' q fl : Same w w' -> cqf w' q fl = cqf w q fl.
Proof.
  intros H. unfold cqf. do 2 f_equal. apply list_filter_iff. intros x. by rewrite (same_cq_of w w' _ H).
Qed.

(** The accounting after a change of counters. *)
Lemma acct_update max w w' fl fl' : Acct max w fl -> Same w w' ->
  (forall c d, cell_depth w c = Some d -> cell_depth w' c = Some (cnt c fl')) ->
  (forall x, x ∈ fl' -> is_Some (cell_depth w x.2)) ->
  (forall q, default 0 (cq_outstanding w' !! q) = cqf w q fl') ->
  (forall q, cqf w q fl' <= max) ->
  (forall id e i, eps w !! id = Some e -> is_Some (depth_get e i) -> cnt (id, i) fl' <= Z.max 0 (max_wr_depth_ e)) ->
  Acct max w' fl'.
Proof.
  intros A S Hc Hl Hq Hm Hw. destruct A as [AG AQ AN _ _ _ _ _].
  assert (HE : forall id e', eps w' !! id = Some e' -> exists e, eps w !! id = Some e /\ Alike e e').
  { intros id e' He'. pose proof (sm_eps _ _ S id) as H. rewrite He' in H. destruct (eps w !! id) as [e|]; [eauto|done]. }
  split.
  - intros id e' (e & He & Al)%HE. apply (al_good _ _ Al). by eapply AG.
  - intros id e' (e & He & Al)%HE. rewrite (al_qps _ _ Al). by eapply AQ.
  - intros id [e' (e & He & _)%HE]. rewrite (sm_next _ _ S). apply AN. by exists e.
  - intros c d Hd. assert (is_Some (cell_depth w c)) as [d0 Hd0] by (apply (same_cells _ _ _ S); by exists d).
    rewrite (Hc c d0 Hd0) in Hd. by injection Hd.
  - intros x Hx. by apply (same_cells _ _ _ S), Hl.
  - intros q. by rewrite (cqf_same _ _ _ _ S).
  - intros q. by rewrite (cqf_same _ _ _ _ S).
  - intros id e' i (e & He & Al)%HE Hd. rewrite (al_wr _ _ Al). apply (Hw id e i He). by apply (al_cells _ _ Al).
Qed.

(** ** Counting *)

Lemma cnt_app c fl fl' : cnt c (fl ++ fl') = cnt c fl + cnt c fl'.
Proof. unfold cnt. rewrite list.filter_app, length_app. lia. Qed.

Lemma cqf_app w q fl fl' : cqf w q (fl ++ fl') = cqf w q fl + cqf w q fl'.
Proof. unfold cqf. rewrite list.filter_app, length_app. lia. Qed.

Lemma cnt_perm c fl fl' : fl ≡ₚ fl' -> cnt c fl = cnt c fl'.
Proof. intros H. unfold cnt. by rewrite H. Qed.

Lemma cqf_perm w q fl fl' : fl ≡ₚ fl' -> cqf w q fl = cqf w q fl'.
Proof. intros H. unfold cqf. by rewrite H. Qed.

Lemma cnt_nonneg c fl : 0 <= cnt c fl.
Proof. unfold cnt. lia. Qed.

(** All requests of a list on one cell. *)
Definition on_cell (c : cell) (l : list nat) : flight := (fun s => (s, c)) <$> l.

Lemma cnt_on_cell c c' l : cnt c (on_cell c' l) = if decide (c = c') then Z.of_nat (length l) else 0.
Proof.
  unfold cnt, on_cell. induction l as [|s l IH]; [by case_decide|]. rewrite fmap_cons, filter_cons. cbn [snd].
  destruct (decide (c' = c)) as [->|Hne].
  - rewrite decide_True in IH |- * by done. cbn [length]. lia.
  - rewrite decide_False in IH |- * by done. done.
Qed.

Lemma cqf_on_cell w q c l : cqf w q (on_cell c l) = if decide (cq_of w c = Some q) then Z.of_nat (length l) else 0.
Proof.
  unfold cqf, on_cell. induction l as [|s l IH]; [by case_decide|]. rewrite fmap_cons, filter_cons. cbn [snd].
  destruct (decide (cq_of w c = Some q)); cbn [length]; lia.
Qed.

(** A cell's requests are among those of its completion queue. *)
Lemma cnt_le_cqf w c q fl : cq_of w c = Some q -> cnt c fl <= cqf w q fl.
Proof.
  intros Hq. unfold cnt, cqf. apply inj_le. induction fl as [|x fl IH]; [done|]. rewrite !filter_cons.
  destruct (decide (x.2 = c)) as [->|]; [rewrite decide_True by done; cbn [length]; lia|].
  destruct (decide _); cbn [length]; lia.
Qed.

Lemma acct_cell_range max w fl c d : Acct max w fl -> max < 2 ^ 31 -> cell_depth w c = Some d -> 0 <= d < 2 ^ 31.
Proof.
  intros A Hm Hd. rewrite (ac_cell _ _ _ A c d Hd). split; [apply cnt_nonneg|].
  unfold cell_depth in Hd. destruct (eps w !! c.1) as [e|] eqn:He; [|done].
  assert (Hq : cq_of w c = Some (cq_ e)) by (unfold cq_of; by rewrite He).
  pose proof (cnt_le_cqf w c _ fl Hq). pose proof (ac_max _ _ _ A (cq_ e)). lia.
Qed.

(** ** Writing a cell *)

Lemma depth_get_shape e ds i d : Shape 0 e ds -> depth_get e i = Some d <-> ds !! i = Some d.
Proof.
  intros [D _ _]. unfold depth_get. rewrite D, list_lookup_fmap. by destruct (ds !! i) as [d'|].
Qed.

Lemma depth_set_alike e i d v : Good e -> depth_get e i = Some d -> exists e', depth_set e i v = Some e' /\ Alike e e' /\
  active_ e' = active_ e /\ forall j, depth_get e' j = if decide (j = i) then Some v else depth_get e j.
Proof.
  intros [ds Sh] Hd. assert (Hi : ds !! i = Some d) by (by apply (depth_get_shape e ds)).
  pose proof (lookup_lt_Some _ _ _ Hi) as Hlt.
  destruct (shape_depth_set 0 e ds i v Sh Hlt) as (e' & Hs & Sh' & Ee).
  assert (Hj : forall j, depth_get e' j = if decide (j = i) then Some v else depth_get e j).
  { intros j. destruct (decide (j = i)) as [->|Hne].
    - apply (depth_get_shape e' _ _ _ Sh'). by rewrite list_lookup_insert_eq.
    - unfold depth_get. rewrite (sh_depths _ _ _ Sh'), (sh_depths _ _ _ Sh), !list_lookup_fmap, list_lookup_insert_ne by done. done. }
  exists e'. split; [done|]. split; [|split; [by rewrite Ee|done]].
  split; try (by rewrite Ee); [intros _; by exists (<[i := v]> ds)|].
  intros j. rewrite Hj. destruct (decide (j = i)) as [->|]; [|done]. rewrite Hd. split; by eexists.
Qed.

(** The cells of a world after endpoint [id] got new cells. *)
Lemma cell_depth_put w id e' n cqs c : cell_depth (mkWorld (<[id := e']> (eps w)) n cqs) c =
  if decide (c.1 = id) then depth_get e' c.2 else cell_depth w c.
Proof.
  unfold cell_depth. simpl. rewrite lookup_insert. destruct (decide (id = c.1)), (decide (c.1 = id)); congruence.
Qed.

Lemma cell_depth_set w id e e1 i v n cqs c d : eps w !! id = Some e ->
  (forall j, depth_get e1 j = if decide (j = i) then Some v else depth_get e j) -> cell_depth w c = Some d ->
  cell_depth (mkWorld (<[id := e1]> (eps w)) n cqs) c = Some (if decide (c = (id, i)) then v else d).
Proof.
  intros He Hj Hc. rewrite cell_depth_put. destruct c as [c1 c2]. cbn [fst snd].
  destruct (decide (c1 = id)) as [->|Hne]; [|by rewrite decide_False by congruence].
  rewrite Hj. destruct (decide (c2 = i)) as [->|]; [by rewrite decide_True|].
  rewrite decide_False by congruence. unfold cell_depth in Hc. simpl in Hc. by rewrite He in Hc.
Qed.

(** What subtracting from cells does. *)
Definition Subtracts (w w' : World) (f : cell -> Z) : Prop :=
  Same w w' /\ cq_outstanding w' = cq_outstanding w /\
  forall c d, cell_depth w c = Some d -> s32 d = d -> cell_depth w' c = Some (s32 (d - f c)).

Lemma depth_sub_runs id i v w d : (forall e, eps w !! id = Some e -> Good e) -> cell_depth w (id, i) = Some d ->
  runs (depth_sub id i v) w (fun _ w' => Subtracts w w' (fun c => if decide (c = (id, i)) then v else 0)).
Proof.
  intros HG Hd. unfold cell_depth in Hd. simpl in Hd. destruct (eps w !! id) as [e|] eqn:He; [|done].
  unfold depth_sub. apply (ep_get_runs _ e _ _ _ He). apply (runs_lift _ _ _ d _ Hd).
  destruct (depth_set_alike e i d (s32 (d - v)) (HG e eq_refl) Hd) as (e' & Hs & Al & _ & Hj).
  apply (runs_lift _ _ _ e' _ Hs). cbn. split; [by apply (same_put w id e)|]. split; [done|].
  intros c d0 Hc Hs0. rewrite (cell_depth_set w id e e' i (s32 (d - v)) _ _ c d0 He Hj Hc).
  destruct (decide (c = (id, i))) as [->|]; [|by rewrite Z.sub_0_r, Hs0].
  unfold cell_depth in Hc. simpl in Hc. rewrite He, Hd in Hc. by injection Hc as <-.
Qed.

Lemma same_good w w' : Same w w' -> (forall id e, eps w !! id = Some e -> Good e) -> forall id e, eps w' !! id = Some e -> Good e.
Proof.
  intros [H _] HG id e' He'. specialize (H id). rewrite He' in H. destruct (eps w !! id) as [e|] eqn:He; [|done].
  apply (al_good _ _ H). by eapply HG.
Qed.

Lemma subtracts_trans w w' w'' f g : Subtracts w w' f -> Subtracts w' w'' g -> Subtracts w w'' (fun c => f c + g c).
Proof.
  intros (S1 & Q1 & C1) (S2 & Q2 & C2). split; [by eapply same_trans|]. split; [congruence|].
  intros c d Hd Hs. rewrite (C2 c _ (C1 c d Hd Hs) (s32_idem _)). unfold Z.sub. rewrite s32_plus. do 2 f_equal. lia.
Qed.

(** ** Completion *)

Definition total (l : list (cell * Z)) (c : cell) : Z := foldr (fun p n => (if decide (c = p.1) then p.2 else 0) + n) 0 l.

Lemma sub_cells_runs l : forall w, (forall id e, eps w !! id = Some e -> Good e) ->
  (forall p, p ∈ l -> is_Some (cell_depth w p.1)) ->
  runs (sub_cells l) w (fun _ w' => Subtracts w w' (total l)).
Proof.
  induction l as [|[[id i] v] l IH]; intros w HG Hl.
  - apply runs_ret. split; [apply same_refl|]. split; [done|]. intros c d Hd Hs. cbn. by rewrite Z.sub_0_r, Hs.
  - cbn [sub_cells fst snd]. destruct (Hl ((id, i), v)) as [d Hd]; [by left|]. apply runs_bind.
    eapply runs_mono; [apply (depth_sub_runs id i v w d (HG id) Hd)|]. intros [] w1 S1.
    eapply runs_mono; [apply (IH w1)|].
    + eapply same_good; [apply S1|done].
    + intros p Hp. apply (same_cells w w1); [apply S1|]. apply Hl. by right.
    + intros [] w2 S2. exact (subtracts_trans _ _ _ _ _ S1 S2).
Qed.

(** Grouping the completions counts them. *)
Lemma qp_depth_set_lookup comp c :
  qp_depth_set comp !! c = let n := length (filter (fun x => x = c) comp) in if decide (n = 0%nat) then None else Some (Z.of_nat n).
Proof.
  unfold qp_depth_set. induction comp as [|x comp IH] using rev_ind; [done|].
  rewrite fold_left_app. cbn [fold_left]. set (m := fold_left _ comp ∅) in *.
  rewrite list.filter_app, length_app, filter_cons, filter_nil.
  destruct (decide (x = c)) as [->|Hne]; cbn [length].
  - rewrite decide_False by lia. rewrite IH. cbv zeta. destruct (decide _) as [E|E]; rewrite lookup_insert_eq; f_equal; lia.
  - rewrite Nat.add_0_r, <- IH. by destruct (m !! x); rewrite lookup_insert_ne.
Qed.

Lemma total_map (m : gmap cell Z) c : total (map_to_list m) c = default 0 (m !! c).
Proof.
  assert (H : forall l, NoDup l.*1 -> total l c = default 0 ((list_to_map l : gmap cell Z) !! c)).
  { induction l as [|[c' v] l IH]; [done|]. rewrite fmap_cons. intros [Hn ND]%list.NoDup_cons.
    cbn [total foldr fst snd]. fold (total l c). cbn [list_to_map foldr fst snd]. fold (list_to_map l : gmap cell Z).
    rewrite lookup_insert, (IH ND).
    destruct (decide (c' = c)) as [->|].
    - rewrite decide_True by done. rewrite (not_elem_of_list_to_map_1 _ _ Hn). simpl. lia.
    - by rewrite decide_False by congruence. }
  rewrite H by apply NoDup_fst_map_to_list. by rewrite list_to_map_to_list.
Qed.

Lemma total_counts (done : flight) c : total (map_to_list (qp_depth_set done.*2)) c = cnt c done.
Proof.
  rewrite total_map, qp_depth_set_lookup. cbv zeta.
  assert (E : length (filter (fun x => x = c) done.*2) = length (filter (fun x => x.2 = c) done)).
  { induction done as [|x l IH]; [done|]. rewrite fmap_cons, !filter_cons. destruct (decide (x.2 = c)); cbn [length]; by rewrite IH. }
  rewrite E. unfold cnt. destruct (decide _) as [Z0|]; simpl; [by rewrite Z0|done].
Qed.

(** The cells after completions, once the counters of the queues are right. *)
Lemma sub_cells_acct max w w1 fl done rest : Acct max w fl -> 0 <= max < 2 ^ 31 -> fl ≡ₚ done ++ rest ->
  eps w1 = eps w -> next_ep w1 = next_ep w -> (forall q, default 0 (cq_outstanding w1 !! q) = cqf w q rest) ->
  runs (sub_cells (map_to_list (qp_depth_set done.*2))) w1 (fun _ w' => Acct max w' rest).
Proof.
  intros A Hm Hfl E1 N1 Hcq.
  assert (S1 : Same w w1) by (destruct w1; cbn in *; subst; apply same_cqs).
  assert (Hsplit : forall q', cqf w q' fl = cqf w q' done + cqf w q' rest) by (intros; by rewrite (cqf_perm _ _ _ _ Hfl), cqf_app).
  assert (Hcd : forall c, cell_depth w1 c = cell_depth w c) by (intros c; unfold cell_depth; by rewrite E1).
  eapply runs_mono; [apply (sub_cells_runs _ w1)|].
  - apply (same_good w w1 S1), A.
  - intros [c v] Hin%elem_of_map_to_list. rewrite qp_depth_set_lookup in Hin. cbv zeta in Hin. case_decide as Hz; [done|].
    assert (Hex : exists x, x ∈ done /\ x.2 = c).
    { destruct (filter (fun x => x = c) done.*2) as [|y l] eqn:Ef; [done|].
      assert (Hy : y ∈ filter (fun x => x = c) done.*2) by (rewrite Ef; by left).
      apply list_elem_of_filter in Hy as [-> Hy]. apply list_elem_of_fmap in Hy as (x & -> & Hx). eauto. }
    destruct Hex as (x & Hx & <-). simpl. rewrite Hcd. apply (ac_live _ _ _ A). rewrite Hfl. apply elem_of_app. by left.
  - intros [] w2 (S2 & Q2 & C2). pose proof (same_trans _ _ _ S1 S2) as S12.
    apply (acct_update max w w2 fl rest A S12).
    + intros c d Hd. pose proof (acct_cell_range _ _ _ c d A ltac:(lia) Hd) as Hr.
      rewrite (C2 c d) by (by rewrite Hcd || (apply s32_small; lia)). rewrite total_counts. f_equal.
      assert (Ec : cnt c fl = cnt c done + cnt c rest) by (by rewrite (cnt_perm _ _ _ Hfl), cnt_app).
      rewrite (ac_cell _ _ _ A c d Hd), Ec in *. pose proof (cnt_nonneg c rest). pose proof (cnt_nonneg c done).
      replace (cnt c done + cnt c rest - cnt c done) with (cnt c rest) by lia. apply s32_small. lia.
    + intros x Hx. apply (ac_live _ _ _ A). rewrite Hfl. apply elem_of_app. by right.
    + intros q'. by rewrite Q2.
    + intros q'. specialize (Hsplit q'). pose proof (ac_max _ _ _ A q'). assert (0 <= cqf w q' done) by (unfold cqf; lia). lia.
    + intros id e i He Hi. pose proof (ac_wr _ _ _ A id e i He Hi) as Hw.
      rewrite (cnt_perm _ _ _ Hfl), cnt_app in Hw. pose proof (cnt_nonneg (id, i) done). lia.
Qed.

(** The counter of a queue after completions of requests on it. *)
Lemma cqf_done w q done q' : (forall x, x ∈ done -> cq_of w x.2 = Some q) ->
  cqf w q' done = if decide (q' = q) then Z.of_nat (length done) else 0.
Proof.
  intros Hq. unfold cqf. induction done as [|x l IH]; [by case_decide|].
  rewrite filter_cons. rewrite (Hq x) by (by left). specialize (IH ltac:(intros; apply Hq; by right)).
  destruct (decide (q' = q)) as [->|]; [rewrite decide_True by done; cbn [length]; lia|rewrite decide_False by congruence; done].
Qed.

(** Completions of requests in flight on a queue keep the accounting. *)
Lemma poll_acct max w fl q done rest : Acct max w fl -> 0 <= max < 2 ^ 31 -> fl ≡ₚ done ++ rest ->
  (forall x, x ∈ done -> cq_of w x.2 = Some q) ->
  runs (poll_counters q done.*2) w (fun _ w' => Acct max w' rest).
Proof.
  intros A Hm Hfl Hq.
  unfold poll_counters. rewrite length_fmap. apply runs_bind. set (w1 := mkWorld (eps w) (next_ep w)
    (if (length done =? 0)%nat then cq_outstanding w else <[q := s32 (default 0 (cq_outstanding w !! q) - Z.of_nat (length done))]> (cq_outstanding w))).
  apply (runs_eq _ _ tt w1). { unfold w1. destruct (length done =? 0)%nat; [by destruct w|done]. }
  apply (sub_cells_acct max w w1 fl done rest A Hm Hfl eq_refl eq_refl). intros q'. unfold w1. cbn [cq_outstanding].
  assert (Hsplit : cqf w q' fl = cqf w q' done + cqf w q' rest) by (by rewrite (cqf_perm _ _ _ _ Hfl), cqf_app).
  rewrite (cqf_done w q done q' Hq) in Hsplit. pose proof (ac_cq _ _ _ A q') as Hc. pose proof (ac_max _ _ _ A q') as Hx.
  assert (0 <= cqf w q' rest) by (unfold cqf; lia).
  destruct (Nat.eqb_spec (length done) 0) as [E0|E0]; [rewrite Hc, Hsplit, E0; by case_decide|].
  rewrite lookup_insert. destruct (decide (q = q')) as [<-|Hn].
  - rewrite decide_True in Hsplit by done. simpl. rewrite Hc, Hsplit.
    replace (Z.of_nat (length done) + cqf w q rest - Z.of_nat (length done)) with (cqf w q rest) by lia. apply s32_small. lia.
  - rewrite decide_False in Hsplit by congruence. rewrite Hc, Hsplit. lia.
Qed.

(** ** Submission *)

Lemma give_back_runs id i q k : forall w d o, (forall id e, eps w !! id = Some e -> Good e) ->
  cell_depth w (id, i) = Some d -> default 0 (cq_outstanding w !! q) = o -> s32 o = o ->
  runs (give_back id i q k) w (fun _ w' => Same w w' /\
    (forall c d, cell_depth w c = Some d -> s32 d = d ->
      cell_depth w' c = Some (s32 (d - if decide (c = (id, i)) then Z.of_nat k else 0))) /\
    forall q', default 0 (cq_outstanding w' !! q') = if decide (q' = q) then s32 (o - Z.of_nat k) else default 0 (cq_outstanding w !! q')).
Proof.
  induction k as [|k IH]; intros w d o HG Hd Ho Hso; cbn [give_back].
  - apply runs_ret. split; [apply same_refl|]. split.
    + intros c d' Hc Hs. destruct (decide _); by rewrite Z.sub_0_r, Hs.
    + intros q'. destruct (decide (q' = q)) as [->|]; [|done]. by rewrite Z.sub_0_r, Hso.
  - apply runs_bind. eapply runs_mono; [by apply (depth_sub_runs id i 1 w d (HG id))|].
    intros [] w1 (S1 & Q1 & C1). apply runs_bind. apply (runs_eq _ _ tt (mkWorld (eps w1) (next_ep w1) (<[q := s32 (default 0 (cq_outstanding w1 !! q) - 1)]> (cq_outstanding w1)))); [done|].
    set (w2 := mkWorld _ _ _).
    assert (is_Some (cell_depth w1 (id, i))) as [d1 Hd1] by (apply (same_cells w w1 _ S1); by exists d).
    eapply runs_mono; [apply (IH w2 d1 (s32 (o - 1)))|].
    + apply (same_good w w1 S1 HG).
    + done.
    + simpl. rewrite lookup_insert_eq, Q1, Ho. done.
    + apply s32_idem.
    + intros [] w3 (S3 & C3 & O3). split; [eapply same_trans; [exact S1|]; eapply same_trans; [apply same_cqs|exact S3]|]. split.
      * intros c d' Hc Hs. rewrite (C3 c _ (C1 c d' Hc Hs) (s32_idem _)). f_equal. unfold Z.sub. rewrite s32_plus. f_equal.
        destruct (decide _); lia.
      * intros q'. rewrite O3. destruct (decide (q' = q)) as [->|Hn].
        -- unfold Z.sub. rewrite s32_plus. f_equal. lia.
        -- simpl. rewrite lookup_insert_ne by done. by rewrite Q1.
Qed.

Lemma take_drop_split {A} (l : list A) j k : (j <= k)%nat -> take j l ++ drop j (take k l) ++ drop k l = l.
Proof.
  intros Hjk. rewrite app_assoc. replace (take j l) with (take j (take k l)) by (rewrite take_take; f_equal; lia).
  by rewrite take_drop, take_drop.
Qed.

(** The counters after the device took [t] of [k] requests. *)
Lemma acct_submitted max w w' fl id e i d t (acc : list nat) :
  Acct max w fl -> max < 2 ^ 31 -> eps w !! id = Some e -> depth_get e i = Some d ->
  0 <= t -> length acc = Z.to_nat t -> d + t <= max_wr_depth_ e -> cqf w (cq_ e) fl + t <= max -> Same w w' ->
  (forall c d, cell_depth w c = Some d -> cell_depth w' c = Some (if decide (c = (id, i)) then d + t else d)) ->
  (forall q, default 0 (cq_outstanding w' !! q) = if decide (q = cq_ e) then cqf w (cq_ e) fl + t else default 0 (cq_outstanding w !! q)) ->
  Acct max w' (fl ++ on_cell (id, i) acc).
Proof.
  intros A Hm He Hd Ht Hacc Hwr Hcq S HC HQ.
  assert (Hcell : cell_depth w (id, i) = Some d) by (unfold cell_depth; simpl; by rewrite He).
  assert (Hcqi : cq_of w (id, i) = Some (cq_ e)) by (unfold cq_of; simpl; by rewrite He).
  apply (acct_update max w w' fl); [done|done|..].
  - intros c d' Hd'. rewrite (HC c d' Hd'), cnt_app, cnt_on_cell, (ac_cell _ _ _ A c d' Hd'), Hacc. f_equal.
    destruct (decide _); lia.
  - intros x [Hx|Hx]%elem_of_app; [by apply (ac_live _ _ _ A)|]. apply list_elem_of_fmap in Hx as (s & -> & _). by exists d.
  - intros q. rewrite HQ, cqf_app, cqf_on_cell, Hcqi, (ac_cq _ _ _ A q), Hacc.
    destruct (decide (q = cq_ e)) as [->|]; [rewrite decide_True by done|rewrite decide_False by congruence]; lia.
  - intros q. rewrite cqf_app, cqf_on_cell, Hcqi, Hacc. pose proof (ac_max _ _ _ A q).
    destruct (decide _) as [[= <-]|]; lia.
  - intros id' e' i' He' Hi'. rewrite cnt_app, cnt_on_cell, Hacc. pose proof (ac_wr _ _ _ A id' e' i' He' Hi').
    destruct (decide _) as [[= -> ->]|]; [|lia]. rewrite He in He'. injection He' as <-.
    rewrite <- (ac_cell _ _ _ A _ _ Hcell). lia.
Qed.

(** The part of a submission after the number [wc] of requests is fixed. *)
Definition hand_over (id i q : nat) (wc : Z) (e1 : RdmaEndPoint) (t : nat) : W unit :=
  do* ep_put id e1 in do* cq_add q wc in give_back id i q (Z.to_nat wc - t).

Lemma hand_over_acct max w fl id e i d wc e1 t acc :
  Acct max w fl -> max < 2 ^ 31 -> eps w !! id = Some e -> depth_get e i = Some d ->
  depth_set e i (s32 (d + wc)) = Some e1 -> 0 < wc -> wc <= max_wr_depth_ e - d -> wc <= max - cqf w (cq_ e) fl ->
  (t <= Z.to_nat wc)%nat -> length acc = t ->
  runs (hand_over id i (cq_ e) wc e1 t) w (fun _ w' => Acct max w' (fl ++ on_cell (id, i) acc)).
Proof.
  intros A Hm He Hd Hs Hw0 Hw1 Hw2 Ht Hacc. set (o := cqf w (cq_ e) fl) in *.
  destruct (depth_set_alike e i d (s32 (d + wc)) (ac_good _ _ _ A id e He) Hd) as (e1' & Hs' & Al & _ & Hj).
  rewrite Hs in Hs'. injection Hs' as <-.
  assert (Hcell : cell_depth w (id, i) = Some d) by (unfold cell_depth; simpl; by rewrite He).
  assert (Hdo : 0 <= d <= o).
  { rewrite (ac_cell _ _ _ A _ _ Hcell). split; [apply cnt_nonneg|]. apply cnt_le_cqf. unfold cq_of. simpl. by rewrite He. }
  set (w2 := mkWorld (<[id := e1]> (eps w)) (next_ep w) (<[cq_ e := s32 (default 0 (cq_outstanding w !! cq_ e) + wc)]> (cq_outstanding w))).
  assert (S2 : Same w w2) by (by apply (same_put w id e)).
  assert (Hc2 : forall c d', cell_depth w c = Some d' -> cell_depth w2 c = Some (if decide (c = (id, i)) then s32 (d + wc) else d'))
    by (intros c d' Hc; by apply (cell_depth_set w id e)).
  apply runs_bind, (runs_eq _ _ tt (mkWorld (<[id := e1]> (eps w)) (next_ep w) (cq_outstanding w))); [done|].
  apply runs_bind, (runs_eq _ _ tt w2); [done|].
  eapply runs_mono; [apply (give_back_runs id i (cq_ e) (Z.to_nat wc - t) w2 (s32 (d + wc)) (s32 (o + wc)))|].
  - apply (same_good w w2 S2), A.
  - rewrite (Hc2 _ _ Hcell). by rewrite decide_True.
  - simpl. rewrite lookup_insert_eq. simpl. by rewrite (ac_cq _ _ _ A).
  - apply s32_idem.
  - intros [] w3 (S3 & C3 & O3).
    apply (acct_submitted max w w3 fl id e i d (Z.of_nat t)); try done; try (fold o; lia); [by eapply same_trans|..].
    + intros c d' Hc. pose proof (acct_cell_range _ _ _ _ _ A Hm Hc) as Hr. rewrite (C3 c _ (Hc2 c d' Hc));
        [|destruct (decide _); [apply s32_idem|apply s32_small; lia]].
      destruct (decide (c = (id, i))) as [->|]; [|rewrite Z.sub_0_r; f_equal; apply s32_small; lia].
      rewrite Hcell in Hc. injection Hc as <-. unfold Z.sub. rewrite s32_plus, s32_small; [f_equal; lia|lia].
    + intros q. rewrite O3. destruct (decide (q = cq_ e)) as [->|]; [|simpl; by rewrite lookup_insert_ne by done].
      unfold Z.sub. rewrite s32_plus, s32_small; fold o; lia.
Qed.

Lemma submit_acct max_cqe draw post id slices w fl e :
  Acct (s32 max_cqe) w fl -> eps w !! id = Some e ->
  runs (submitPostSend max_cqe draw post id slices) w (fun r w' =>
    Acct (s32 max_cqe) w' (fl ++ on_cell (id, on_qp r) (accepted r)) /\
    accepted r ++ failed_slice_list r ++ slice_list r = slices /\
    (active_ e = false -> accepted r = [] /\ failed_slice_list r = [])).
Proof.
  intros A He. assert (Hmax : s32 max_cqe < 2 ^ 31) by (unfold s32; pose proof (Z.mod_pos_bound (max_cqe + 2 ^ 31) (2 ^ 32)); lia).
  pose proof (ac_good _ _ _ A id e He) as G. pose proof G as [ds Sh].
  unfold submitPostSend. apply (ep_get_runs _ e _ _ _ He).
  destruct (active_ e) eqn:Ha; cbn [negb].
  2:{ apply runs_ret. cbn. by rewrite app_nil_r. }
  assert (Hn : (0 < length (qp_list_ e))%nat) by (pose proof (ac_qps _ _ _ A id e He); destruct (qp_list_ e); [done|simpl; lia]).
  rewrite (proj2 (Z.eqb_neq _ _)) by lia. set (i := Z.to_nat _).
  assert (Hi : (i < length (qp_list_ e))%nat) by (unfold i; pose proof (Z.mod_pos_bound draw (Z.of_nat (length (qp_list_ e)))); lia).
  destruct (lookup_lt_is_Some_2 ds i) as [d Hdi]; [rewrite (sh_length _ _ _ Sh); lia|].
  assert (Hd : depth_get e i = Some d) by (by apply (depth_get_shape e ds)).
  apply (runs_lift _ _ _ d _ Hd). apply runs_bind. apply (runs_eq _ _ (default 0 (cq_outstanding w !! cq_ e)) w); [done|].
  rewrite (ac_cq _ _ _ A (cq_ e)). set (wc := Z.min _ _). destruct (Z.leb_spec wc 0) as [Hw0|Hw0].
  { apply runs_ret. cbn. by rewrite app_nil_r. }
  assert (Hwc : wc <= max_wr_depth_ e - d /\ wc <= s32 max_cqe - cqf w (cq_ e) fl /\ wc <= Z.of_nat (length slices))
    by (pose proof (s32_le (Z.of_nat (length slices)) ltac:(lia)); unfold wc; lia).
  destruct (depth_set_alike e i d (s32 (d + wc)) G Hd) as (e1 & Hs1 & Al1 & _ & _).
  apply (runs_lift _ _ _ e1 _ Hs1). rewrite (al_cq _ _ Al1), (al_qps _ _ Al1), (sh_live _ _ _ Sh i) by lia. cbv zeta.
  set (k := Z.to_nat wc). set (t := match post with None => k | Some j => Nat.min j k end).
  assert (Htk : (t <= k)%nat) by (unfold t; destruct post; lia).
  pose proof (hand_over_acct (s32 max_cqe) w fl id e i d wc e1 t (take t slices) A Hmax He Hd Hs1 Hw0 ltac:(lia) ltac:(lia) Htk) as Hh.
  assert (Hl : length (take t slices) = t) by (rewrite length_take; lia). specialize (Hh Hl).
  unfold hand_over in Hh. revert Hh. unfold runs, bind. cbn -[give_back].
  destruct (give_back _ _ _ _ _) as [[u w3]|]; [|done]. intros A3. split; [done|]. split; [by apply take_drop_split|done].
Qed.

End EpFlight.
