(* ===== verification/EndpointRuns.v ===== *)
(** * EndpointRuns: the data path of endpoints under any sequence of events

    What can happen to the endpoints of a context: one is created, given
    requests, disconnected, marked, destroyed when nothing is outstanding, and
    the completions of its requests are polled.  The device takes requests,
    completes some of those in flight in any order, and forgets those of a
    queue pair that is reset. *)

From Stdlib Require Import ZArith Lia.
From stdpp Require Import base list gmap strings numbers relations.
From S2P Require Import Prelude Endpoint EndpointStore EndpointInv EndpointFlight.
Import Endpoint EndpointStore EpProofs EpFlight.

Open Scope moon_scope.
Open Scope Z_scope.

Module EpRuns.

(** ** Disconnection *)

Definition without (c : cell) (fl : flight) : flight := filter (fun x => x.2 <> c) fl.

Lemma cnt_without c c' fl : cnt c (without c' fl) = if decide (c = c') then 0 else cnt c fl.
Proof.
  unfold cnt, without. induction fl as [|x fl IH]; [by case_decide|]. rewrite filter_cons.
  destruct (decide (x.2 <> c')) as [Hn|Hn]; rewrite !filter_cons.
  - destruct (decide (x.2 = c)) as [Hc|]; [|done]. rewrite decide_False in IH |- * by congruence. cbn [length]. lia.
  - apply dec_stable in Hn. rewrite IH. destruct (decide (c = c')) as [|Hc]; [done|].
    by rewrite decide_False by congruence.
Qed.

Lemma cqf_without w q c fl : cqf w q (without c fl) = cqf w q fl - if decide (cq_of w c = Some q) then cnt c fl else 0.
Proof.
  unfold cqf, without, cnt. induction fl as [|x fl IH]; [simpl; destruct (decide _); done|].
  rewrite filter_cons. destruct (decide (x.2 <> c)) as [Hn|Hn]; rewrite !filter_cons.
  - rewrite (decide_False (P := x.2 = c)) by done. destruct (decide (cq_of w x.2 = Some q)); cbn [length]; lia.
  - apply dec_stable in Hn. subst c. rewrite (decide_True (P := x.2 = x.2)) by done. rewrite IH.
    destruct (decide (cq_of w x.2 = Some q)); cbn [length]; lia.
Qed.

Lemma drain_acct max w fl id i e : Acct max w fl -> max < 2 ^ 31 -> eps w !! id = Some e -> (i < length (qp_list_ e))%nat ->
  runs (drain id i) w (fun _ w' => Acct max w' (without (id, i) fl) /\ Same w w').
Proof.
  intros A Hm He Hi. destruct (ac_good _ _ _ A id e He) as [ds Sh]. pose proof (ex_intro _ ds Sh : Good e) as G.
  destruct (lookup_lt_is_Some_2 ds i) as [d Hdi]; [rewrite (sh_length _ _ _ Sh); lia|].
  assert (Hd : depth_get e i = Some d) by (by apply (depth_get_shape e ds)).
  assert (Hcell : cell_depth w (id, i) = Some d) by (unfold cell_depth; simpl; by rewrite He).
  assert (Hq : cq_of w (id, i) = Some (cq_ e)) by (unfold cq_of; simpl; by rewrite He).
  pose proof (ac_cell _ _ _ A _ _ Hcell) as Ed.
  assert (Hup : forall w', Same w w' ->
    (forall c d', cell_depth w c = Some d' -> cell_depth w' c = Some (if decide (c = (id, i)) then 0 else d')) ->
    (forall q, default 0 (cq_outstanding w' !! q) = cqf w q fl - if decide (cq_of w (id, i) = Some q) then d else 0) ->
    Acct max w' (without (id, i) fl)).
  { intros w' S HC HQ. apply (acct_update max w w' fl); [done|done|..].
    - intros c d' Hc. rewrite (HC c d' Hc), cnt_without, (ac_cell _ _ _ A c d' Hc). done.
    - intros x [_ Hx]%list_elem_of_filter. by apply (ac_live _ _ _ A).
    - intros q. by rewrite HQ, cqf_without, Ed.
    - intros q. rewrite cqf_without. pose proof (ac_max _ _ _ A q). pose proof (cnt_nonneg (id, i) fl). destruct (decide _); lia.
    - intros id' e' i' He' Hi'. rewrite cnt_without. pose proof (ac_wr _ _ _ A id' e' i' He' Hi'). destruct (decide _); lia. }
  unfold drain. apply (ep_get_runs _ e _ _ _ He). apply (runs_lift _ _ _ d _ Hd).
  destruct (Z.eqb_spec d 0) as [E0|E0]; cbn [negb when].
  - apply runs_ret. split; [|apply same_refl]. apply Hup; [apply same_refl|..].
    + intros c d' Hc. destruct (decide (c = (id, i))) as [->|]; [by rewrite Hc in Hcell; congruence|done].
    + intros q. rewrite (ac_cq _ _ _ A q), E0. destruct (decide _); lia.
  - destruct (depth_set_alike e i d 0 G Hd) as (e1 & Hs1 & Al1 & _ & Hj1).
    apply runs_bind. apply (runs_eq _ _ tt (mkWorld (eps w) (next_ep w) (<[cq_ e := s32 (default 0 (cq_outstanding w !! cq_ e) - d)]> (cq_outstanding w)))); [done|].
    apply (runs_lift _ _ _ e1 _ Hs1). cbn. set (w' := mkWorld _ _ _).
    assert (S : Same w w') by (by apply (same_put w id e)). split; [|done]. apply Hup; [done|..].
    + intros c d' Hc. by apply (cell_depth_set w id e).
    + intros q. simpl. rewrite lookup_insert, Hq. destruct (decide (cq_ e = q)) as [<-|].
      * rewrite decide_True by done. simpl. rewrite (ac_cq _ _ _ A). apply s32_small.
        pose proof (ac_max _ _ _ A (cq_ e)). pose proof (cnt_le_cqf w (id, i) (cq_ e) fl Hq). pose proof (cnt_nonneg (id, i) fl). lia.
      * rewrite decide_False by congruence. rewrite (ac_cq _ _ _ A). lia.
Qed.

Lemma same_get w w' id e : Same w w' -> eps w !! id = Some e -> exists e', eps w' !! id = Some e' /\ Alike e e'.
Proof. intros [H _] He. specialize (H id). rewrite He in H. destruct (eps w' !! id) as [e'|]; [eauto|done]. Qed.

(** The requests on queue pairs [i .. i+k-1] of [id] are gone. *)
Lemma reset_qps_acct max id k : forall i w fl e, Acct max w fl -> max < 2 ^ 31 -> eps w !! id = Some e -> (i + k = length (qp_list_ e))%nat ->
  runs (reset_qps id i k) w (fun _ w' => Same w w' /\ exists fl', Acct max w' fl' /\ fl' ⊆+ fl /\
    (forall x, x ∈ fl' -> ~ (x.2.1 = id /\ (i <= x.2.2)%nat)) /\
    filter (fun x => x.2.1 <> id) fl' = filter (fun x => x.2.1 <> id) fl).
Proof.
  induction k as [|k IH]; intros i w fl e A Hm He Hk.
  - apply runs_ret. split; [apply same_refl|]. exists fl. split_and!; try done. intros [s [id' j]] Hx [E Hj]. cbn [fst snd] in *. subst id'.
    destruct (ac_live _ _ _ A _ Hx) as [d Hd]. unfold cell_depth in Hd. simpl in Hd. rewrite He in Hd.
    destruct (ac_good _ _ _ A id e He) as [ds Sh]. apply (depth_get_shape e ds) in Hd; [|done]. apply lookup_lt_Some in Hd.
    rewrite (sh_length _ _ _ Sh) in Hd. lia.
  - cbn [reset_qps]. apply (ep_get_runs _ e _ _ _ He). destruct (ac_good _ _ _ A id e He) as [ds Sh].
    rewrite (sh_live _ _ _ Sh i) by lia. apply runs_bind.
    eapply runs_mono; [apply (drain_acct max w fl id i e A Hm He); lia|]. intros [] w1 [A1 S1].
    destruct (same_get _ _ _ _ S1 He) as (e1 & He1 & Al1).
    eapply runs_mono; [apply (IH (S i) w1 _ e1 A1 Hm He1); rewrite (al_qps _ _ Al1); lia|].
    intros [] w2 [S2 (fl2 & A2 & Sub & Hno & Heq)]. split; [by eapply same_trans|]. exists fl2. split_and!; try done.
    + etrans; [exact Sub|]. apply sublist_submseteq, sublist_filter.
    + intros x Hx [E Hi]. apply (Hno x Hx). split; [done|]. assert (x.2 <> (id, i)).
      { pose proof (elem_of_submseteq _ _ _ Hx Sub) as Hx'. by apply list_elem_of_filter in Hx' as [? _]. }
      destruct x as [s [a b]]. cbn [fst snd] in *. assert (b <> i) by congruence. lia.
    + rewrite Heq. unfold without. apply list_filter_filter_l. intros x Hx E. by rewrite E in Hx.
Qed.

(** Changing the status, path or activity of an endpoint. *)
Lemma put_acct max w fl id e e' : Acct max w fl -> eps w !! id = Some e -> Alike e e' -> wr_depth_list_ e' = wr_depth_list_ e ->
  Acct max (mkWorld (<[id := e']> (eps w)) (next_ep w) (cq_outstanding w)) fl.
Proof.
  intros A He Al Hd. apply (acct_update max w _ fl); [done|by apply (same_put w id e)|..].
  - intros [c1 c2] d Hc. rewrite cell_depth_put. cbn [fst snd]. rewrite <- (ac_cell _ _ _ A _ _ Hc).
    destruct (decide (c1 = id)) as [->|]; [|done]. unfold cell_depth in Hc. simpl in Hc. rewrite He in Hc.
    unfold depth_get in *. by rewrite Hd.
  - apply A.
  - apply A.
  - apply A.
  - apply A.
Qed.

Lemma disconnect_acct max w fl id e : Acct max w fl -> max < 2 ^ 31 -> eps w !! id = Some e ->
  runs (disconnect id) w (fun _ w' => Acct max w' (filter (fun x => x.2.1 <> id) fl)).
Proof.
  intros A Hm He. unfold disconnect, disconnectUnlocked. apply (ep_get_runs _ e _ _ _ He). apply runs_bind.
  eapply runs_mono; [by apply (reset_qps_acct max id _ 0 w fl e A Hm He)|]. intros [] w1 [S1 (fl1 & A1 & Sub & Hno & Heq)].
  destruct (same_get _ _ _ _ S1 He) as (e1 & He1 & _). apply (ep_get_runs _ e1 _ _ _ He1). cbn.
  rewrite <- Heq, filter_all by (intros x Hx E; apply (Hno x Hx); split; [done|lia]).
  apply (put_acct max w1 fl1 id e1); [done|done|by split; [..|intros [ds [? ? ?]]; exists ds|]|done].
Qed.

Lemma set_active_acct max w fl id flag now e : Acct max w fl -> eps w !! id = Some e ->
  runs (set_active id flag now) w (fun _ w' => Acct max w' fl).
Proof.
  intros A He. unfold set_active. apply (ep_get_runs _ e _ _ _ He). cbn.
  apply (put_acct max w fl id e); [done|done|by split; [..|intros [ds [? ? ?]]; exists ds|]|done].
Qed.

(** ** Creation and destruction *)

(** Programs that leave the completion queues alone. *)
Definition cq_quiet {A} (c : W A) : Prop := forall w a w', c w = Some (a, w') -> cq_outstanding w' = cq_outstanding w.

Lemma quiet_bind {A B} (c : W A) (k : A -> W B) : cq_quiet c -> (forall a, cq_quiet (k a)) -> cq_quiet (bind c k).
Proof.
  intros Hc Hk w b w' H. unfold bind in H. destruct (c w) as [[a w1]|] eqn:E; [|done].
  rewrite (Hk a w1 b w' H). by eapply Hc.
Qed.
Lemma quiet_ret {A} (a : A) : cq_quiet (ret a).
Proof. by intros w b w' [= _ <-]. Qed.
Lemma quiet_lift {A} (o : option A) : cq_quiet (lift o : W A).
Proof. intros w b w' H. destruct o; [|done]. by injection H as _ <-. Qed.
Lemma quiet_get id : cq_quiet (ep_get id).
Proof. intros w b w' H. unfold ep_get in H. destruct (eps w !! id); [|done]. by injection H as _ <-. Qed.
Lemma quiet_put id e : cq_quiet (ep_put id e).
Proof. by intros w b w' [= _ <-]. Qed.
Create HintDb quiet.
#[local] Hint Resolve quiet_ret quiet_lift quiet_get quiet_put : quiet.

Lemma quiet_create_qps create_ok id k : forall i, cq_quiet (create_qps create_ok id i k).
Proof.
  induction k as [|k IH]; intros i; cbn [create_qps]; repeat (apply quiet_bind; [auto with quiet|intros]); auto with quiet.
  destruct (create_ok i); apply quiet_bind; intros; auto with quiet.
Qed.

Lemma quiet_construct create_ok id cq n mw : cq_quiet (construct create_ok id cq n mw).
Proof.
  unfold construct. apply quiet_bind; [auto with quiet|]. intros e. destruct (negb _); [auto with quiet|].
  apply quiet_bind; [auto with quiet|]. intros _. apply quiet_create_qps.
Qed.

Lemma fresh_flight max w fl id x : Acct max w fl -> eps w !! id = None -> x ∈ fl -> x.2.1 <> id.
Proof.
  intros A Hid Hx E. destruct (ac_live _ _ _ A x Hx) as [d Hd]. unfold cell_depth in Hd. rewrite E, Hid in Hd. done.
Qed.

Lemma cnt_zero c fl : (forall x, x ∈ fl -> x.2 <> c) -> cnt c fl = 0.
Proof.
  intros H. unfold cnt. destruct (filter _ fl) as [|y l] eqn:E; [done|].
  assert (Hy : y ∈ filter (fun x => x.2 = c) fl) by (rewrite E; by left). apply list_elem_of_filter in Hy as [? ?]. by destruct (H y).
Qed.

(** Adding or removing an endpoint that has no request in flight. *)
Lemma cqf_frame w w' q fl : (forall x, x ∈ fl -> eps w' !! x.2.1 = eps w !! x.2.1) -> cqf w' q fl = cqf w q fl.
Proof.
  intros H. unfold cqf, cq_of. induction fl as [|x fl IH]; [done|]. rewrite !filter_cons, (H x) by (by left).
  specialize (IH ltac:(intros; apply H; by right)). destruct (decide _); cbn [length]; lia.
Qed.

Lemma built_cells n e i d : Built n n e -> depth_get e i = Some d -> d = 0.
Proof.
  intros (_ & _ & _ & D) Hd. unfold depth_get in Hd. rewrite D, Nat.sub_diag in Hd. simpl in Hd. rewrite app_nil_r in Hd.
  destruct (replicate n (Some 0) !! i) as [o|] eqn:E; [|done]. apply lookup_replicate in E as [-> _]. by injection Hd.
Qed.

Lemma new_acct create_ok destroy_ok cq n mw max w fl : (forall id j, create_ok id j = true) -> (0 < n)%nat -> Acct max w fl ->
  runs (new_constructed create_ok destroy_ok cq n mw) w (fun r w' => r = Some (next_ep w) /\ Acct max w' fl).
Proof.
  intros Hok Hn A. unfold new_constructed. apply runs_bind.
  set (w1 := mkWorld (<[next_ep w := new_endpoint]> (eps w)) (S (next_ep w)) (cq_outstanding w)).
  apply (runs_eq _ _ (next_ep w) w1); [done|].
  assert (He : eps w1 !! next_ep w = Some new_endpoint) by (simpl; apply lookup_insert_eq).
  assert (Hf : eps w !! next_ep w = None).
  { destruct (eps w !! next_ep w) eqn:E; [|done]. pose proof (ac_next _ _ _ A (next_ep w) ltac:(by eexists)). lia. }
  destruct (runs_elim _ _ _ (construct_runs (create_ok (next_ep w)) (next_ep w) cq n mw w1 (Hok _) He)) as (rc & w2 & Hc & -> & Hch).
  pose proof (quiet_construct _ _ _ _ _ _ _ _ Hc) as Hq. simpl in Hq.
  apply runs_bind, (runs_eq _ _ 0 w2 _ Hc), runs_ret. split; [done|].
  destruct Hch as [N2 (e & E2 & B)]. simpl in N2, E2. rewrite insert_insert_eq in E2.
  assert (Ho : forall id, id <> next_ep w -> eps w2 !! id = eps w !! id) by (intros; by rewrite E2, lookup_insert_ne).
  assert (Hnew : eps w2 !! next_ep w = Some e) by (rewrite E2; apply lookup_insert_eq).
  assert (Hcq : forall q, cqf w2 q fl = cqf w q fl).
  { intros q. apply cqf_frame. intros x Hx. apply Ho. by eapply fresh_flight. }
  assert (Hcn : forall i, cnt (next_ep w, i) fl = 0).
  { intros i. apply cnt_zero. intros x Hx E. apply (fresh_flight max w fl (next_ep w) x A Hf Hx). by rewrite E. }
  split.
  - intros id e' He'. destruct (decide (id = next_ep w)) as [->|Hne]; [|rewrite Ho in He' by done; by apply (ac_good _ _ _ A id)].
    rewrite Hnew in He'. injection He' as <-. by eapply built_good.
  - intros id e' He'. destruct (decide (id = next_ep w)) as [->|Hne]; [|rewrite Ho in He' by done; by apply (ac_qps _ _ _ A id)].
    rewrite Hnew in He'. injection He' as <-. destruct B as (_ & L & _). intros E. rewrite E in L. simpl in L. lia.
  - intros id Hid. rewrite N2. destruct (decide (id = next_ep w)) as [->|Hne]; [lia|]. rewrite Ho in Hid by done.
    pose proof (ac_next _ _ _ A id Hid). lia.
  - intros [id i] d. unfold cell_depth. cbn [fst snd]. destruct (decide (id = next_ep w)) as [->|Hne].
    + rewrite Hnew, Hcn. by apply built_cells with n.
    + rewrite Ho by done. apply (ac_cell _ _ _ A (id, i)).
  - intros x Hx. unfold cell_depth. rewrite Ho by (by eapply fresh_flight). by apply (ac_live _ _ _ A).
  - intros q. rewrite Hq, Hcq. apply A.
  - intros q. rewrite Hcq. apply A.
  - intros id e' i He' Hi. destruct (decide (id = next_ep w)) as [->|Hne]; [rewrite Hcn; lia|].
    rewrite Ho in He' by done. by apply (ac_wr _ _ _ A).
Qed.

(** Destroying the queue pairs of an endpoint whose cells are all zero. *)
Lemma quiet_destroy_qps destroy_ok id k : forall i w e ds,
  eps w !! id = Some e -> Shape i e ds -> (forall d, d ∈ ds -> d = 0) -> (i + k = length ds)%nat ->
  runs (destroy_qps destroy_ok id i k) w (fun _ w' => cq_outstanding w' = cq_outstanding w).
Proof.
  induction k as [|k IH]; intros i w e ds He Sh Hz Hk; [done|]. cbn [destroy_qps]. apply (ep_get_runs _ e _ _ _ He).
  rewrite (sh_live _ _ _ Sh i) by (rewrite <- (sh_length _ _ _ Sh); lia). destruct (destroy_ok i); [|done].
  set (e1 := set_qps _ e). apply runs_bind. apply (runs_eq _ _ tt (mkWorld (<[id := e1]> (eps w)) (next_ep w) (cq_outstanding w))); [done|].
  set (w1 := mkWorld _ _ _). assert (He1 : eps w1 !! id = Some e1) by apply lookup_insert_eq.
  assert (Sh1 : Shape (S i) e1 ds).
  { destruct Sh as [D L LV]. unfold e1. split; simpl; [done|by rewrite length_insert|].
    intros j. rewrite length_insert. intros Hj. rewrite list_lookup_insert_ne by lia. apply LV. lia. }
  destruct (lookup_lt_is_Some_2 ds i) as [d Hdi]; [lia|]. pose proof (Hz d (list_elem_of_lookup_2 _ _ _ Hdi)) as ->.
  apply runs_bind. apply (runs_eq _ _ tt w1).
  { unfold drain, bind, ep_get. rewrite He1. unfold lift. by rewrite (depth_get_eq e1 ds i 0 (sh_depths _ _ _ Sh1) Hdi). }
  apply (IH (S i) w1 e1 ds He1 Sh1 Hz). lia.
Qed.

Lemma quiet_destructor destroy_ok id w e ds : eps w !! id = Some e -> Shape 0 e ds -> (forall d, d ∈ ds -> d = 0) ->
  runs (destructor destroy_ok id) w (fun _ w' => cq_outstanding w' = cq_outstanding w).
Proof.
  intros He Sh Hz. unfold destructor. apply (ep_get_runs _ e _ _ _ He). apply runs_bind.
  destruct (qp_list_ e) as [|q0 ql] eqn:Eq; [done|]. apply runs_bind. unfold deconstruct. apply (ep_get_runs _ e _ _ _ He).
  pose proof (quiet_destroy_qps destroy_ok id (length (qp_list_ e)) 0 w e ds He Sh Hz ltac:(by rewrite (sh_length _ _ _ Sh))) as Hq.
  pose proof (destroy_qps_runs destroy_ok id (length (qp_list_ e)) 0 w e ds He Sh ltac:(by rewrite (sh_length _ _ _ Sh))) as Hr.
  apply runs_bind. unfold runs in Hq, Hr |- *. destruct (destroy_qps destroy_ok id 0 (length (qp_list_ e)) w) as [[ok w1]|]; [|done].
  destruct (changed_get _ _ _ _ Hr) as (e1 & He1 & [l Hl]). destruct ok; [|done].
  unfold bind, ep_get. rewrite He1, Hl. cbn. done.
Qed.

Lemma destroy_acct destroy_ok max w fl id : Acct max w fl -> hasOutstandingSlice id w = Some (false, w) ->
  runs (destructor destroy_ok id) w (fun _ w' => Acct max w' fl).
Proof.
  intros A Hout. destruct (eps w !! id) as [e|] eqn:He.
  2:{ unfold hasOutstandingSlice, bind, ep_get in Hout. by rewrite He in Hout. }
  pose proof (ac_good _ _ _ A id e He) as G. pose proof G as [ds Sh].
  rewrite (hasOutstandingSlice_eq id w e He G) in Hout. injection Hout as Hb.
  assert (Hz : forall d, d ∈ ds -> d = 0).
  { intros d [i Hi]%list_elem_of_lookup. destruct (decide (d = 0)) as [|Hne]; [done|exfalso].
    assert (busy e = true); [|congruence]. apply busy_spec; [done|]. right. exists i, d. split; [by apply (depth_get_shape e ds)|done]. }
  assert (Hno : forall x, x ∈ fl -> x.2.1 <> id).
  { intros x Hx E. destruct (ac_live _ _ _ A x Hx) as [d Hd]. pose proof (ac_cell _ _ _ A _ _ Hd) as Ec.
    unfold cell_depth in Hd. rewrite E, He in Hd. apply (depth_get_shape e ds) in Hd; [|done].
    rewrite (Hz d (list_elem_of_lookup_2 _ _ _ Hd)) in Ec. unfold cnt in Ec.
    assert (Hin : x ∈ filter (fun y => y.2 = x.2) fl) by (by apply list_elem_of_filter).
    destruct (filter (fun y => y.2 = x.2) fl); [inversion Hin|simpl in Ec; lia]. }
  pose proof (quiet_destructor destroy_ok id w e ds He Sh Hz) as Hq. pose proof (destructor_runs destroy_ok id w e He G) as Hr.
  unfold runs in *. destruct (destructor destroy_ok id w) as [[u w']|]; [|done]. destruct Hr as [E N].
  assert (Hcq : forall q, cqf w' q fl = cqf w q fl).
  { intros q. apply cqf_frame. intros x Hx. rewrite E, lookup_delete_ne; [done|]. intros Ex. by destruct (Hno x Hx). }
  assert (Hsub : forall id' e', eps w' !! id' = Some e' -> eps w !! id' = Some e').
  { intros id' e'. rewrite E. by intros [_ ?]%lookup_delete_Some. }
  split.
  - intros id' e' He'%Hsub. by apply (ac_good _ _ _ A id').
  - intros id' e' He'%Hsub. by apply (ac_qps _ _ _ A id').
  - intros id' [e' He'%Hsub]. rewrite N. apply (ac_next _ _ _ A). by exists e'.
  - intros c d Hd. apply (ac_cell _ _ _ A). unfold cell_depth in *.
    destruct (eps w' !! c.1) as [e'|] eqn:He'; [|done]. by rewrite (Hsub _ _ He').
  - intros x Hx. unfold cell_depth. rewrite E, lookup_delete_ne by (intros Ex; by destruct (Hno x Hx)). by apply (ac_live _ _ _ A).
  - intros q. rewrite Hq, Hcq. apply A.
  - intros q. rewrite Hcq. apply A.
  - intros id' e' i He'%Hsub. by apply (ac_wr _ _ _ A).
Qed.

(** ** The system *)

Section system.
Context (create_ok destroy_ok : nat -> nat -> bool) (max_cqe : Z).

(** One event, with what it does to the endpoints and to the requests the
    device holds. *)
Inductive event : Type :=
| ENew (cq num_qp : nat) (max_wr : Z)
| ESubmit (draw : Z) (post : option nat) (id : nat) (slices : list nat)
| EPoll (cq : nat) (completed : flight)
| EDisconnect (id : nat)
| EActive (id : nat) (flag : bool) (now : Z)
| EDestroy (id : nat).

(** When an event can happen: it names an endpoint that exists; completions
    are of requests in flight on the queue; only endpoints without outstanding
    requests are destroyed. *)
Definition can (ev : event) (w : World) (fl : flight) : Prop :=
  match ev with
  | ENew _ n _ => (0 < n)%nat
  | ESubmit _ _ id _ | EDisconnect id | EActive id _ _ => is_Some (eps w !! id)
  | EPoll cq completed => completed ⊆+ fl /\ forall x, x ∈ completed -> cq_of w x.2 = Some cq
  | EDestroy id => hasOutstandingSlice id w = Some (false, w)
  end.

(** The code that runs; a submission answers the requests it handed over. *)
Definition code (ev : event) : W flight :=
  match ev with
  | ENew cq n mw => let* _r := new_constructed create_ok destroy_ok cq n mw in ret []
  | ESubmit draw post id slices =>
      let* r := submitPostSend max_cqe draw post id slices in ret (on_cell (id, on_qp r) (accepted r))
  | EPoll cq completed => do* poll_counters cq completed.*2 in ret []
  | EDisconnect id => do* disconnect id in ret []
  | EActive id flag now => do* set_active id flag now in ret []
  | EDestroy id => do* destructor (destroy_ok id) id in ret []
  end.

(** The requests in flight afterwards. *)
Definition device (ev : event) (fl taken fl' : flight) : Prop :=
  match ev with
  | ESubmit _ _ _ _ => fl' = fl ++ taken
  | EPoll _ completed => fl ≡ₚ completed ++ fl'
  | EDisconnect id => fl' = filter (fun x => x.2.1 <> id) fl
  | _ => fl' = fl
  end.

Inductive flow : World * flight -> World * flight -> Prop :=
| flow_step ev w fl taken w' fl' : can ev w fl -> code ev w = Some (taken, w') -> device ev fl taken fl' -> flow (w, fl) (w', fl').

Context (create_qp_succeeds : forall id j, create_ok id j = true) (max_cqe_range : 0 <= s32 max_cqe).

Lemma max_range : 0 <= s32 max_cqe < 2 ^ 31.
Proof. unfold s32 in *. pose proof (Z.mod_pos_bound (max_cqe + 2 ^ 31) (2 ^ 32)). lia. Qed.

(** Two lists of requests that count alike account alike. *)
Lemma acct_counts max w fl fl' : Acct max w fl -> fl ≡ₚ fl' -> Acct max w fl'.
Proof.
  intros [A1 A2 A3 A4 A5 A6 A7 A8] P. split; try done.
  - intros c d Hd. rewrite <- (cnt_perm c _ _ P). by apply A4.
  - intros x Hx. apply A5. by rewrite P.
  - intros q. rewrite <- (cqf_perm w q _ _ P). apply A6.
  - intros q. rewrite <- (cqf_perm w q _ _ P). apply A7.
  - intros id e i He Hi. rewrite <- (cnt_perm _ _ _ P). by apply (A8 id e i).
Qed.

Lemma code_runs ev w fl : Acct (s32 max_cqe) w fl -> can ev w fl ->
  runs (code ev) w (fun taken w' => forall fl', device ev fl taken fl' -> Acct (s32 max_cqe) w' fl').
Proof.
  pose proof max_range as Hm. intros A Hcan. destruct ev as [cq n mw|draw post id slices|cq comp|id|id flag now|id]; cbn [code can device] in *.
  - apply runs_bind. eapply runs_mono; [by apply new_acct|]. intros r w' [_ A']. apply runs_ret. by intros fl' ->.
  - destruct Hcan as [e He]. apply runs_bind. eapply runs_mono; [by apply (submit_acct max_cqe draw post id slices w fl e)|].
    intros r w' (A' & _). apply runs_ret. by intros fl' ->.
  - destruct Hcan as [[rest Hr]%submseteq_Permutation Hq]. apply runs_bind.
    eapply runs_mono; [by apply (poll_acct (s32 max_cqe) w fl cq comp rest)|]. intros [] w' A'. apply runs_ret.
    intros fl' Hfl'. apply (acct_counts _ _ rest); [done|]. apply (Permutation_app_inv_l comp). by rewrite <- Hr.
  - destruct Hcan as [e He]. apply runs_bind. eapply runs_mono; [exact (disconnect_acct (s32 max_cqe) w fl id e A (proj2 Hm) He)|].
    intros [] w' A'. apply runs_ret. by intros fl' ->.
  - destruct Hcan as [e He]. apply runs_bind. eapply runs_mono; [by apply (set_active_acct (s32 max_cqe) w fl id flag now e)|].
    intros [] w' A'. apply runs_ret. by intros fl' ->.
  - apply runs_bind. eapply runs_mono; [by apply destroy_acct|]. intros [] w' A'. apply runs_ret. by intros fl' ->.
Qed.

Lemma empty_acct : Acct (s32 max_cqe) empty_world [].
Proof.
  split; try done.
  - intros id [e He]. done.
  - intros x Hx. inversion Hx.
Qed.

Lemma flow_acct w fl : rtc flow (empty_world, []) (w, fl) -> Acct (s32 max_cqe) w fl.
Proof.
  intros H. change (Acct (s32 max_cqe) (w, fl).1 (w, fl).2). revert H.
  apply (rtc_ind_r (fun p => Acct (s32 max_cqe) p.1 p.2)); [apply empty_acct|].
  intros y z _ Hs A. inversion Hs as [ev w1 fl1 taken w2 fl2 Hcan Hcode Hdev]; subst. cbn [fst snd] in *.
  pose proof (code_runs ev w1 fl1 A Hcan) as Hr. unfold runs in Hr. rewrite Hcode in Hr. by apply Hr.
Qed.

(** C38: whatever sequence of creations, submissions, completions,
    disconnections and destructions a context goes through, every call is
    defined (no cell is written after its endpoint is gone), every depth cell
    equals the number of requests the device holds on its queue pair, every
    counter of a completion queue the number on all its queue pairs, and the
    limits on both are respected.  Here queue pairs can be created (at least
    one per endpoint), a call names an endpoint that exists, completions are of
    requests in flight and lower the counters before the next event, and only
    endpoints without outstanding requests are destroyed. *)
Theorem requests_accounted w fl : rtc flow (empty_world, []) (w, fl) ->
  (forall ev, can ev w fl -> exists taken w', code ev w = Some (taken, w')) /\
  (forall id e i d, eps w !! id = Some e -> depth_get e i = Some d ->
    d = Z.of_nat (length (filter (fun x => x.2 = (id, i)) fl)) /\ d <= Z.max 0 (max_wr_depth_ e)) /\
  (forall q, default 0 (cq_outstanding w !! q) = Z.of_nat (length (filter (fun x => cq_of w x.2 = Some q) fl)) /\
    default 0 (cq_outstanding w !! q) <= s32 max_cqe) /\
  (forall x, x ∈ fl -> exists e d, eps w !! x.2.1 = Some e /\ depth_get e x.2.2 = Some d /\ 0 < d).
Proof.
  intros A%flow_acct. split; [|split; [|split]].
  - intros ev Hcan. destruct (runs_elim _ _ _ (code_runs ev w fl A Hcan)) as (taken & w' & H & _). eauto.
  - intros id e i d He Hd. assert (Hc : cell_depth w (id, i) = Some d) by (unfold cell_depth; simpl; by rewrite He).
    pose proof (ac_cell _ _ _ A _ _ Hc) as E. split; [exact E|]. rewrite E. apply (ac_wr _ _ _ A id e i He). by exists d.
  - intros q. pose proof (ac_cq _ _ _ A q) as E. split; [exact E|]. rewrite E. apply (ac_max _ _ _ A).
  - intros x Hx. destruct (ac_live _ _ _ A x Hx) as [d Hd]. pose proof (ac_cell _ _ _ A _ _ Hd) as E.
    unfold cell_depth in Hd. destruct (eps w !! x.2.1) as [e|]; [|done]. exists e, d. split_and!; try done.
    rewrite E. unfold cnt. assert (Hin : x ∈ filter (fun y => y.2 = x.2) fl) by (by apply list_elem_of_filter).
    destruct (filter (fun y => y.2 = x.2) fl); [inversion Hin|simpl; lia].
Qed.

(** a submission loses no slice and duplicates none: those it is given are,
    in order, the ones the device took, the ones reported as failed and the
    ones left for a later call; an inactive endpoint takes none. *)
Theorem submit_conserves w fl id e draw post slices :
  rtc flow (empty_world, []) (w, fl) -> eps w !! id = Some e ->
  exists r w', submitPostSend max_cqe draw post id slices w = Some (r, w') /\
    accepted r ++ failed_slice_list r ++ slice_list r = slices /\
    (active_ e = false -> accepted r = [] /\ failed_slice_list r = []).
Proof.
  intros A%flow_acct He.
  destruct (runs_elim _ _ _ (submit_acct max_cqe draw post id slices w fl e A He)) as (r & w' & H & _ & Hs & Ha).
  by exists r, w'.
Qed.
End system.

(** ** A concrete run *)

Definition every (_ _ : nat) : bool := true.
Definition built_world : World := match new_constructed every every 0 2 16 empty_world with Some (_, w) => w | None => empty_world end.

Lemma demo_flow : rtc (flow every every 64) (empty_world, []) (built_world, []).
Proof.
  apply rtc_once. apply (flow_step every every 64 (ENew 0 2 16) empty_world [] [] built_world []); [simpl; lia| |done]. by vm_compute.
Qed.

Lemma requests_accounted_witness : exists taken w', code every every 64 (ESubmit 3 (Some 1%nat) 0 [7; 8; 9]%nat) built_world = Some (taken, w').
Proof.
  destruct (requests_accounted every every 64 (fun _ _ => eq_refl) ltac:(by vm_compute) built_world [] demo_flow) as [H _].
  apply H. simpl. by eexists.
Defined.

Lemma submit_conserves_witness : exists r w', submitPostSend 64 3 (Some 1%nat) 0 [7; 8; 9]%nat built_world = Some (r, w') /\
  accepted r ++ failed_slice_list r ++ slice_list r = [7; 8; 9]%nat.
Proof.
  destruct (submit_conserves every every 64 (fun _ _ => eq_refl) ltac:(by vm_compute) built_world [] 0
    (mkEp UNCONNECTED [QLive; QLive] "" (Some [Some 0; Some 0]) 16 true 0 0) 3 (Some 1%nat) [7; 8; 9]%nat demo_flow ltac:(by vm_compute))
    as (r & w' & H & Hs & _).
  by exists r, w'.
Defined.

(** A submission, a reset of the connection, and then the counters of a poll
    that took the completion before the reset. *)
Definition late_poll : option (Submitted * World) :=
  match submitPostSend 64 3 None 0 [7]%nat built_world with
  | Some (r, w1) =>
      match (do* disconnect 0 in poll_counters 0 [(0%nat, on_qp r)]) w1 with Some (_, w3) => Some (r, w3) | None => None end
  | None => None
  end.

(** The counters are lowered after the completions are taken from the queue,
    without a lock: when the connection is reset in between, which clears
    them, they end below zero. *)
Theorem late_poll_goes_negative : exists r w, late_poll = Some (r, w) /\ accepted r = [7]%nat /\
  cell_depth w (0%nat, on_qp r) = Some (- 1) /\ cq_outstanding w !! 0%nat = Some (- 1).
Proof.
  assert (Hb : match late_poll with
    | Some (r, w) => bool_decide (accepted r = [7]%nat /\ cell_depth w (0%nat, on_qp r) = Some (- 1) /\ cq_outstanding w !! 0%nat = Some (- 1))
    | None => false end = true) by (vm_compute; reflexivity).
  destruct late_poll as [[r w]|]; [|done]. apply bool_decide_eq_true in Hb. by exists r, w.
Qed.

End EpRuns.
