(* ===== verification/Transport.v ===== *)
(** * Transport: requests, slices and tasks

    Models include/transport/transport.h and src/transport/transport.cpp of
    mooncake-transfer-engine (requests, slices, tasks, batches, the cache of
    slices each thread keeps), the segment descriptions of
    include/transfer_metadata.h the RDMA transport reads, and
    [RdmaTransport::selectDevice].

    Slices, tasks and batches are objects of a heap, named by numbers; using
    a deleted one is undefined behaviour ([None]).  A batch reserves the room
    its tasks need when it is made, so pointers to tasks stay valid.  The
    build defines NDEBUG: an assertion of the source has no effect. *)

From Stdlib Require Import ZArith Lia.
From stdpp Require Import base list gmap strings numbers.
From S2P Require Import Prelude Topology.

Open Scope moon_scope.
Open Scope Z_scope.

Module Transport.

Definition ERR_INVALID_ARGUMENT : Z := -1.
Definition ERR_ADDRESS_NOT_REGISTERED : Z := -3.
Definition ERR_CONTEXT : Z := -202.
Definition LOCAL_SEGMENT_ID : Z := 0.

(** The codes of class [Status] the transports answer. *)
Inductive StatusCode : Type := Ok | InvalidArgument | TooManyRequests | AddressNotRegistered | BatchBusy | NotSupportedTransport.
#[export] Instance StatusCode_eq_dec : EqDecision StatusCode.
Proof. solve_decision. Defined.

(** ** Segment descriptions *)

Record DeviceDesc : Type := mkDeviceDesc { d_name : string; d_lid : Z; d_gid : string }.

Record BufferDesc : Type := mkBufferDesc {
  b_name : string;
  b_addr : Z;
  b_length : Z;
  b_lkey : list Z;
  b_rkey : list Z;
  b_shm_name : string;
  b_offset : Z;
}.

Record NVMeoFBufferDesc : Type := mkNVMeoF { nb_file_path : string; nb_length : Z; nb_local_path_map : gmap string string }.

Record RankInfoDesc : Type := mkRankInfo {
  rankId : Z;
  hostIp : string;
  hostPort : Z;
  deviceLogicId : Z;
  devicePhyId : Z;
  deviceType : Z;
  deviceIp : string;
  devicePort : Z;
  ri_pid : Z;
}.
Definition new_rank_info : RankInfoDesc := mkRankInfo 4294967295 "" 0 0 0 5 "" 0 0.

Record SegmentDesc : Type := mkSegmentDesc {
  sd_name : string;
  sd_protocol : string;
  sd_devices : list DeviceDesc;
  sd_topology : Topology.Topology;
  sd_buffers : list BufferDesc;
  sd_nvmeof_buffers : list NVMeoFBufferDesc;
  sd_cxl_name : string;
  sd_cxl_base_addr : Z;
  sd_timestamp : string;
  sd_rank_info : RankInfoDesc;
  sd_tcp_data_port : Z;
}.

Definition NIC_PATH_DELIM : string := "@".
Definition MakeNicPath (server_name nic_name : string) : string := server_name ++ NIC_PATH_DELIM ++ nic_name.

(** [desc->topology.selectDevice(location[, hint], retry_count)]. *)
Definition topology_select (rand : Z) (location hint : string) (retry_count : Z) (t : Topology.Topology) : option Z :=
  if String.eqb hint "" then Topology.select rand location retry_count t
  else Topology.select_hint rand location hint retry_count t.

(** Whether [[offset, offset + length)] lies in the buffer. *)
Definition covers (b : BufferDesc) (offset length : Z) : bool :=
  negb ((offset <? b_addr b) || (b_length b <? length) || (b_length b - length <? offset - b_addr b)).

(** The loop over the buffers from index [i] on.  The answer is the code with
    the output arguments [buffer_id] and [device_id], whose value before is
    the argument [device_id].  [rand j k] is the number drawn for buffer [j]:
    [k] tells the selection by the name of the buffer from the one by the
    wildcard. *)
Fixpoint select_from (rand : nat -> bool -> Z) (t : Topology.Topology) (hint : string) (offset length retry_count : Z)
    (i : nat) (bs : list BufferDesc) (device_id : Z) : option (Z * Z * Z) :=
  match bs with
  | [] => Some (ERR_ADDRESS_NOT_REGISTERED, Z.of_nat i, device_id)
  | b :: bs =>
      if negb (covers b offset length) then select_from rand t hint offset length retry_count (S i) bs device_id
      else
        match topology_select (rand i false) (b_name b) hint retry_count t with
        | None => None
        | Some d =>
            if 0 <=? d then Some (0, Z.of_nat i, d)
            else
              match topology_select (rand i true) Topology.kWildcardLocation hint retry_count t with
              | None => None
              | Some d =>
                  if 0 <=? d then Some (0, Z.of_nat i, d)
                  else select_from rand t hint offset length retry_count (S i) bs d
              end
        end
  end.

Definition selectDevice (rand : nat -> bool -> Z) (desc : option SegmentDesc) (offset length : Z) (hint : string)
    (buffer_id device_id retry_count : Z) : option (Z * Z * Z) :=
  match desc with
  | None => Some (ERR_ADDRESS_NOT_REGISTERED, buffer_id, device_id)
  | Some d => select_from rand (sd_topology d) hint offset length retry_count 0 (sd_buffers d) device_id
  end.

(** ** Requests, slices, tasks, batches *)

Inductive OpCode : Type := READ | WRITE.

Record TransferRequest : Type := mkRequest {
  rq_opcode : OpCode;
  rq_source : Z;
  rq_target_id : Z;
  rq_target_offset : Z;
  rq_length : Z;
  advise_retry_cnt : Z;
}.

Inductive TransferStatusEnum : Type := WAITING | PENDING | INVALID | CANCELED | COMPLETED | TIMEOUT | FAILED.
#[export] Instance TransferStatusEnum_eq_dec : EqDecision TransferStatusEnum.
Proof. solve_decision. Defined.

Record TransferStatus : Type := mkTransferStatus { ts_s : TransferStatusEnum; ts_transferred_bytes : Z }.

Inductive SliceStatus : Type := SlicePending | SlicePosted | SliceSuccess | SliceTimeout | SliceFailed.
#[export] Instance SliceStatus_eq_dec : EqDecision SliceStatus.
Proof. solve_decision. Defined.

(** [qp_depth] points to a counter: an endpoint and the place of a queue pair. *)
Record Slice : Type := mkSlice {
  source_addr : Z;
  sl_length : Z;
  sl_opcode : OpCode;
  sl_target_id : Z;
  peer_nic_path : string;
  sl_status : SliceStatus;
  sl_task : nat;
  from_cache : bool;
  dest_addr : Z;
  source_lkey : Z;
  dest_rkey : Z;
  qp_depth : option (nat * nat);
  retry_cnt : Z;
  max_retry_cnt : Z;
  sl_ts : Z;
}.

Definition new_slice : Slice := mkSlice 0 0 READ 0 "" SlicePending 0 false 0 0 0 None 0 0 0.

Definition set_sl_status x s := mkSlice (source_addr s) (sl_length s) (sl_opcode s) (sl_target_id s) (peer_nic_path s) x (sl_task s)
  (from_cache s) (dest_addr s) (source_lkey s) (dest_rkey s) (qp_depth s) (retry_cnt s) (max_retry_cnt s) (sl_ts s).
Definition set_from_cache x s := mkSlice (source_addr s) (sl_length s) (sl_opcode s) (sl_target_id s) (peer_nic_path s) (sl_status s) (sl_task s)
  x (dest_addr s) (source_lkey s) (dest_rkey s) (qp_depth s) (retry_cnt s) (max_retry_cnt s) (sl_ts s).
Definition set_source_lkey x s := mkSlice (source_addr s) (sl_length s) (sl_opcode s) (sl_target_id s) (peer_nic_path s) (sl_status s) (sl_task s)
  (from_cache s) (dest_addr s) x (dest_rkey s) (qp_depth s) (retry_cnt s) (max_retry_cnt s) (sl_ts s).
(** The route to the peer. *)
Definition set_route rkey path s := mkSlice (source_addr s) (sl_length s) (sl_opcode s) (sl_target_id s) path (sl_status s) (sl_task s)
  (from_cache s) (dest_addr s) (source_lkey s) rkey (qp_depth s) (retry_cnt s) (max_retry_cnt s) (sl_ts s).
Definition set_retry x s := mkSlice (source_addr s) (sl_length s) (sl_opcode s) (sl_target_id s) (peer_nic_path s) (sl_status s) (sl_task s)
  (from_cache s) (dest_addr s) (source_lkey s) (dest_rkey s) (qp_depth s) x (max_retry_cnt s) (sl_ts s).
(** What [RdmaEndPoint::submitPostSend] writes into a slice it posts. *)
Definition set_posted now cell s := mkSlice (source_addr s) (sl_length s) (sl_opcode s) (sl_target_id s) (peer_nic_path s) SlicePosted (sl_task s)
  (from_cache s) (dest_addr s) (source_lkey s) (dest_rkey s) (Some cell) (retry_cnt s) (max_retry_cnt s) now.

Record TransferTask : Type := mkTask {
  slice_count : Z;
  success_slice_count : Z;
  failed_slice_count : Z;
  transferred_bytes : Z;
  is_finished : bool;
  total_bytes : Z;
  batch_id : nat;
  request : option TransferRequest;
  slice_list : list nat;
}.
Definition new_task : TransferTask := mkTask 0 0 0 0 false 0 0 None [].

Definition set_counts success failed bytes t := mkTask (slice_count t) success failed bytes (is_finished t) (total_bytes t) (batch_id t) (request t) (slice_list t).
Definition set_finished t := mkTask (slice_count t) (success_slice_count t) (failed_slice_count t) (transferred_bytes t) true (total_bytes t) (batch_id t) (request t) (slice_list t).
Definition set_request b r t := mkTask (slice_count t) (success_slice_count t) (failed_slice_count t) (transferred_bytes t) (is_finished t) (total_bytes t) b (Some r) (slice_list t).
Definition add_slice s t := mkTask (slice_count t) (success_slice_count t) (failed_slice_count t) (transferred_bytes t) (is_finished t) (total_bytes t) (batch_id t) (request t) (slice_list t ++ [s]).
Definition add_posted len t := mkTask (u64 (slice_count t + 1)) (success_slice_count t) (failed_slice_count t) (transferred_bytes t) (is_finished t) (u64 (total_bytes t + len)) (batch_id t) (request t) (slice_list t).

Record BatchDesc : Type := mkBatch { batch_size : Z; task_list : list nat }.

(** A ring of pointers to slices that are not in use. *)
Definition kLazyDeleteSliceCapacity : Z := 4096.
Record ThreadLocalSliceCache : Type := mkCache {
  lazy_delete_slices_ : list (option nat);
  head_ : Z;
  tail_ : Z;
  allocated_ : Z;
  freed_ : Z;
}.
Definition new_cache : ThreadLocalSliceCache := mkCache (replicate (Z.to_nat kLazyDeleteSliceCapacity) None) 0 0 0 0.

(** ** The heap *)

Record Mem : Type := mkMem {
  slices : gmap nat Slice;
  next_slice : nat;
  tasks : gmap nat TransferTask;
  next_task : nat;
  batches : gmap nat BatchDesc;
  next_batch : nat;
  caches : gmap nat ThreadLocalSliceCache;   (** by thread *)
}.
Definition new_mem : Mem := mkMem ∅ 0 ∅ 0 ∅ 0 ∅.
Abbreviation M := (ST Mem).

Definition set_slices x m := mkMem x (next_slice m) (tasks m) (next_task m) (batches m) (next_batch m) (caches m).
Definition set_tasks x m := mkMem (slices m) (next_slice m) x (next_task m) (batches m) (next_batch m) (caches m).
Definition set_batches x m := mkMem (slices m) (next_slice m) (tasks m) (next_task m) x (next_batch m) (caches m).
Definition set_caches x m := mkMem (slices m) (next_slice m) (tasks m) (next_task m) (batches m) (next_batch m) x.

Definition slice_get (s : nat) : M Slice := fun m => match slices m !! s with Some x => Some (x, m) | None => None end.
Definition slice_upd (f : Slice -> Slice) (s : nat) : M unit :=
  let* x := slice_get s in modify (fun m => set_slices (<[s := f x]> (slices m)) m).
Definition slice_delete (s : nat) : M unit :=
  let* _x := slice_get s in modify (fun m => set_slices (delete s (slices m)) m).
Definition task_get (t : nat) : M TransferTask := fun m => match tasks m !! t with Some x => Some (x, m) | None => None end.
Definition task_upd (f : TransferTask -> TransferTask) (t : nat) : M unit :=
  let* x := task_get t in modify (fun m => set_tasks (<[t := f x]> (tasks m)) m).
Definition batch_get (b : nat) : M BatchDesc := fun m => match batches m !! b with Some x => Some (x, m) | None => None end.

Definition markSuccess (s : nat) : M unit :=
  do* slice_upd (set_sl_status SliceSuccess) s in
  let* x := slice_get s in
  task_upd (fun t => set_counts (u64 (success_slice_count t + 1)) (failed_slice_count t) (u64 (transferred_bytes t + sl_length x)) t) (sl_task x).

Definition markFailed (s : nat) : M unit :=
  do* slice_upd (set_sl_status SliceFailed) s in
  let* x := slice_get s in
  task_upd (fun t => set_counts (success_slice_count t) (u64 (failed_slice_count t + 1)) (transferred_bytes t) t) (sl_task x).

(** *** The cache of thread [th] *)

Definition cache_of (th : nat) : M ThreadLocalSliceCache := gets (fun m => default new_cache (caches m !! th)).
Definition put_cache (th : nat) (c : ThreadLocalSliceCache) : M unit := modify (fun m => set_caches (<[th := c]> (caches m)) m).

Definition cache_allocate (th : nat) : M nat :=
  let* c := cache_of th in
  if u64 (head_ c - tail_ c) =? 0 then
    do* put_cache th (mkCache (lazy_delete_slices_ c) (head_ c) (tail_ c) (u64 (allocated_ c + 1)) (freed_ c)) in
    let* s := gets next_slice in
    do* modify (fun m => mkMem (<[s := new_slice]> (slices m)) (S s) (tasks m) (next_task m) (batches m) (next_batch m) (caches m)) in
    ret s
  else
    let* cell := lift (aget (lazy_delete_slices_ c) (tail_ c mod kLazyDeleteSliceCapacity)) in
    do* put_cache th (mkCache (lazy_delete_slices_ c) (head_ c) (u64 (tail_ c + 1)) (allocated_ c) (freed_ c)) in
    let* s := lift cell in
    do* slice_upd (set_from_cache true) s in
    ret s.

Definition cache_deallocate (th s : nat) : M unit :=
  let* c := cache_of th in
  if u64 (head_ c - tail_ c) =? kLazyDeleteSliceCapacity then
    do* slice_delete s in
    put_cache th (mkCache (lazy_delete_slices_ c) (head_ c) (tail_ c) (allocated_ c) (u64 (freed_ c + 1)))
  else
    put_cache th (mkCache (aput (lazy_delete_slices_ c) (head_ c mod kLazyDeleteSliceCapacity) (Some s))
      (u64 (head_ c + 1)) (tail_ c) (allocated_ c) (freed_ c)).

Fixpoint each {S} (f : nat -> ST S unit) (l : list nat) : ST S unit :=
  match l with [] => ret tt | x :: l => do* f x in each f l end.

(** [~TransferTask], run by thread [th]. *)
Definition task_destroy (th t : nat) : M unit :=
  let* x := task_get t in
  do* each (cache_deallocate th) (slice_list x) in
  modify (fun m => set_tasks (delete t (tasks m)) m).

(** *** Batches ([Transport] and [MultiTransport] have the same code) *)

Definition allocateBatchID (size : Z) : M nat := fun m =>
  Some (next_batch m, mkMem (slices m) (next_slice m) (tasks m) (next_task m)
    (<[next_batch m := mkBatch size []]> (batches m)) (S (next_batch m)) (caches m)).

Fixpoint all_finished (ts : list nat) : M bool :=
  match ts with
  | [] => ret true
  | t :: ts => let* x := task_get t in if is_finished x then all_finished ts else ret false
  end.

Definition freeBatchID (th b : nat) : M StatusCode :=
  let* d := batch_get b in
  let* ok := all_finished (task_list d) in
  if negb ok then ret BatchBusy
  else
    do* each (task_destroy th) (task_list d) in
    do* modify (fun m => set_batches (delete b (batches m)) m) in
    ret Ok.

(** [task_list.resize(task_list.size() + n)]: [n] new tasks. *)
Fixpoint resize_tasks (b n : nat) : M (list nat) :=
  match n with
  | O => ret []
  | S n =>
      let* d := batch_get b in
      let* t := gets next_task in
      do* modify (fun m => mkMem (slices m) (next_slice m) (<[t := new_task]> (tasks m)) (S t)
            (<[b := mkBatch (batch_size d) (task_list d ++ [t])]> (batches m)) (next_batch m) (caches m)) in
      let* r := resize_tasks b n in
      ret (t :: r)
  end.

(** *** Status *)

(** [RdmaTransport::getTransferStatus] of one task. *)
Definition task_status (t : nat) : M TransferStatus :=
  let* x := task_get t in
  if u64 (success_slice_count x + failed_slice_count x) =? slice_count x then
    do* task_upd set_finished t in
    ret (mkTransferStatus (if failed_slice_count x =? 0 then COMPLETED else FAILED) (transferred_bytes x))
  else ret (mkTransferStatus WAITING (transferred_bytes x)).

End Transport.
