(* ===== verification/Handshake.v ===== *)
(** * Handshake: connecting the queue pairs of two endpoints

    Models the handshake of class [RdmaEndPoint] in
    src/transport/rdma_transport/rdma_endpoint.cpp of mooncake-transfer-engine:
    [setupConnectionsByActive], [setupConnectionsByPassive] and both
    [doSetupConnection], with the NIC paths of include/common.h.

    Arguments: the numbers the device gave to queue pairs, whether each
    [ibv_modify_qp] succeeds, the descriptions of segments and the reply of
    the peer.  The answer lists the peers the queue pairs were pointed at.
    The conversion of the gid from text to bytes is left to the device. *)

From Stdlib Require Import ZArith Lia Ascii.
From stdpp Require Import base list gmap strings numbers.
From S2P Require Import Prelude Topology Endpoint Transport.
Import Endpoint Transport.

Open Scope moon_scope.
Open Scope Z_scope.

Module Handshake.

Definition ERR_REJECT_HANDSHAKE : Z := -104.
Definition ERR_DEVICE_NOT_FOUND : Z := -6.

(** The text before and after the first delimiter. *)
Fixpoint cut (s : string) : option (string * string) :=
  match s with
  | EmptyString => None
  | String c s => if Ascii.eqb c "@"%char then Some (""%string, s) else prod_map (String c) id <$> cut s
  end.
Definition getServerNameFromNicPath (nic_path : string) : string := default ""%string (fst <$> cut nic_path).
Definition getNicNameFromNicPath (nic_path : string) : string := default ""%string (snd <$> cut nic_path).

Record HandShakeDesc : Type := mkHandShake {
  local_nic_path : string;
  hs_peer_nic_path : string;
  qp_num : list Z;
  reply_msg : string;
}.
Definition empty_handshake : HandShakeDesc := mkHandShake "" "" [] "".
Definition set_reply m d := mkHandShake (local_nic_path d) (hs_peer_nic_path d) (qp_num d) m.

(** What a queue pair is pointed at: gid, lid and number of its peer. *)
Record Peer : Type := mkPeer { p_gid : string; p_lid : Z; p_qp_num : Z }.

Section endpoint.
(** [modify_ok i k]: the [k]-th change of the state of queue pair [i] (to
    RESET, INIT, RTR, RTS) succeeds. *)
Context (modify_ok : nat -> nat -> bool).
(** Numbers of queue pairs: endpoint and place; the text of the last error. *)
Context (qp_number : nat -> nat -> Z) (strerror : string).

Definition qpNum (id : nat) : W (list Z) :=
  let* e := ep_get id in
  if forallb (fun q => match q with QLive => true | _ => false end) (qp_list_ e)
  then ret (qp_number id <$> seq 0 (length (qp_list_ e))) else ub.

Definition modify_message (k : nat) : string :=
  match k with
  | O => "Failed to modify QP to RESET"
  | 1%nat => "Failed to modify QP to INIT, check local context port num"
  | 2%nat => "Failed to modify QP to RTR, check mtu, gid, peer lid, peer qp num"
  | _ => "Failed to modify QP to RTS"
  end.

(** The four changes of one queue pair: the code, and a message if one fails. *)
Definition doSetupConnection_qp (id i : nat) : W (Z * string) :=
  let* e := ep_get id in
  match qp_list_ e !! i with
  | Some QLive =>
      match list_find (fun k => modify_ok i k = false) (seq 0 4) with
      | Some (k, _) => ret (ERR_ENDPOINT, modify_message k ++ ": " ++ strerror)%string
      | None => ret (0, ""%string)
      end
  | _ => ub
  end.

Fixpoint setup_qps (id i : nat) (gid : string) (lid : Z) (peers : list Z) : W (Z * string * list Peer) :=
  match peers with
  | [] => ret (0, ""%string, [])
  | n :: peers =>
      let* r := doSetupConnection_qp id i in
      if r.1 =? 0 then
        let* q := setup_qps id (S i) gid lid peers in
        ret (q.1, mkPeer gid lid n :: q.2)
      else ret (r, [])
  end.

Definition count_mismatch : string := "QP count mismatch in peer and local endpoints, check MC_MAX_EP_PER_CTX".

Definition doSetupConnection (id : nat) (peer_gid : string) (peer_lid : Z) (peer_qp_num_list : list Z) : W (Z * string * list Peer) :=
  let* e := ep_get id in
  if negb (length (qp_list_ e) =? length peer_qp_num_list)%nat then ret (ERR_INVALID_ARGUMENT, count_mismatch, [])
  else
    let* r := setup_qps id 0 peer_gid peer_lid peer_qp_num_list in
    if r.1.1 =? 0 then
      let* e := ep_get id in
      do* ep_put id (set_status CONNECTED e) in
      ret r
    else ret r.

Definition find_nic (d : option SegmentDesc) (nic : string) : option DeviceDesc :=
  match d with None => None | Some d => snd <$> list_find (fun x => d_name x = nic) (sd_devices d) end.

(** [nicPath] and [deviceName] of the context; [local] is the description of the
    local segment; [send] answers a handshake, [by_name] a server name. *)
Definition setupConnectionsByActive (nicPath deviceName : string) (local : option SegmentDesc)
    (send : string -> HandShakeDesc -> Z * HandShakeDesc) (by_name : string -> option SegmentDesc) (id : nat) : W (Z * list Peer) :=
  let* e := ep_get id in
  if bool_decide (status_ e = CONNECTED) then ret (0, [])
  else if String.eqb nicPath (peer_nic_path_ e) then
    match find_nic local deviceName with
    | Some nic => let* n := qpNum id in let* r := doSetupConnection id (d_gid nic) (d_lid nic) n in ret (r.1.1, r.2)
    | None => ret (ERR_DEVICE_NOT_FOUND, [])
    end
  else
    let* n := qpNum id in
    let local_desc := mkHandShake nicPath (peer_nic_path_ e) n "" in
    let server := getServerNameFromNicPath (peer_nic_path_ e) in
    let nic := getNicNameFromNicPath (peer_nic_path_ e) in
    if String.eqb server "" || String.eqb nic "" then ret (ERR_INVALID_ARGUMENT, [])
    else
      let '(rc, peer_desc) := send server local_desc in
      if negb (rc =? 0) then ret (rc, [])
      else if negb (String.eqb (reply_msg peer_desc) "") then ret (ERR_REJECT_HANDSHAKE, [])
      else if negb (String.eqb (local_nic_path peer_desc) (peer_nic_path_ e)) ||
              negb (String.eqb (hs_peer_nic_path peer_desc) (local_nic_path local_desc)) then ret (ERR_REJECT_HANDSHAKE, [])
      else
        match find_nic (by_name server) nic with
        | Some d => let* r := doSetupConnection id (d_gid d) (d_lid d) (qp_num peer_desc) in ret (r.1.1, r.2)
        | None => ret (ERR_DEVICE_NOT_FOUND, [])
        end.

(** The answer with the filled-in [local_desc]. *)
Definition setupConnectionsByPassive (nicPath : string) (by_name : string -> option SegmentDesc)
    (peer_desc local_desc : HandShakeDesc) (id : nat) : W (Z * HandShakeDesc * list Peer) :=
  let* e := ep_get id in
  do* when (bool_decide (status_ e = CONNECTED)) (disconnectUnlocked id) in
  let* e := ep_get id in
  if negb (String.eqb (hs_peer_nic_path peer_desc) nicPath) || negb (String.eqb (local_nic_path peer_desc) (peer_nic_path_ e)) then
    ret (ERR_REJECT_HANDSHAKE, set_reply ("Invalid argument: peer nic path inconsistency, expect " ++ nicPath ++ " + " ++
      peer_nic_path_ e ++ ", while got " ++ hs_peer_nic_path peer_desc ++ " + " ++ local_nic_path peer_desc)%string local_desc, [])
  else
    let server := getServerNameFromNicPath (peer_nic_path_ e) in
    let nic := getNicNameFromNicPath (peer_nic_path_ e) in
    if String.eqb server "" || String.eqb nic "" then
      ret (ERR_INVALID_ARGUMENT, set_reply ("Parse peer nic path failed: " ++ peer_nic_path_ e)%string local_desc, [])
    else
      let* n := qpNum id in
      let local_desc := mkHandShake nicPath (peer_nic_path_ e) n (reply_msg local_desc) in
      match find_nic (by_name server) nic with
      | Some d =>
          let* r := doSetupConnection id (d_gid d) (d_lid d) (qp_num peer_desc) in
          ret (r.1.1, (if r.1.1 =? 0 then local_desc else set_reply r.1.2 local_desc), r.2)
      | None => ret (ERR_DEVICE_NOT_FOUND, set_reply ("Peer nic not found in that server: " ++ peer_nic_path_ e)%string local_desc, [])
      end.

End endpoint.

End Handshake.
