(* ===== verification/Metadata.v ===== *)
(** * Metadata: descriptions of segments and where they come from

    Models class [TransferMetadata] of mooncake-transfer-engine
    (src/transfer_metadata.cpp, include/transfer_metadata.h), the JSON forms of
    segment descriptions, handshakes and notifications included, with
    [parseHostNameWithPort] of include/common.h.

    The storage service, the network and the clock are arguments: what they
    answer in a call.  An exception of the JSON library and a null pointer that
    is followed are the failures of the model.  Logging is left out. *)

From Stdlib Require Import ZArith Lia Ascii.
From stdpp Require Import base list gmap strings numbers.
From S2P Require Import Prelude Topology Endpoint Transport Handshake.
Import Transport.

Open Scope moon_scope.
Open Scope Z_scope.

(** The part of the JSON library for numbers and null. *)
Class JsonValues (J : Type) `{JsonLib J} : Type := {
  nullValue : J;
  isMember : J -> string -> bool;
  ofInt : Z -> J;
  ofUInt : Z -> J;
  asInt : J -> option Z;
  asUInt : J -> option Z;
  asUInt64 : J -> option Z;
}.

Class JsonValueLaws (J : Type) `{JsonLaws J} `{!JsonValues J} : Type := {
  int_value : forall n, - 2 ^ 31 <= n < 2 ^ 31 -> asInt (ofInt n) = Some n;
  int_unsigned : forall n, 0 <= n < 2 ^ 31 -> asUInt (ofInt n) = Some n;
  uint_value : forall n, 0 <= n < 2 ^ 32 -> asUInt (ofUInt n) = Some n;
  uint64_value : forall n, 0 <= n < 2 ^ 64 -> asUInt64 (ofUInt n) = Some n;
  object_member : forall v m k, json_object v m -> isMember v k = bool_decide (is_Some (m !! k));
  null_string : forall k, asString (get_member nullValue k) = Some ""%string;
  null_elements : forall k, elements_of (get_member nullValue k) = [];
}.

Module Metadata.

Definition ERR_METADATA : Z := -200.

(** ** Names *)

Definition kCommonKeyPrefix : string := "mooncake/".
Definition kRpcMetaPrefix : string := kCommonKeyPrefix ++ "rpc_meta/".

Definition getFullMetadataKey (segment_name : string) : string :=
  match String.index 0 "/" segment_name with
  | None => kCommonKeyPrefix ++ "ram/" ++ segment_name
  | Some _ => kCommonKeyPrefix ++ segment_name
  end.

(** [std::from_chars] of a [uint16_t] that reads the whole text. *)
Definition digit (c : ascii) : option Z :=
  let n := Z.of_nat (nat_of_ascii c) - 48 in if (0 <=? n) && (n <=? 9) then Some n else None.
Fixpoint digits (s : string) (acc : Z) : option Z :=
  match s with
  | EmptyString => Some acc
  | String c s => match digit c with Some d => let v := acc * 10 + d in if v <? 2 ^ 16 then digits s v else None | None => None end
  end.
Definition getPortFromString (port_string : string) (default_port : Z) : Z :=
  if String.eqb port_string "" then default_port else default default_port (digits port_string 0).

Section names.
Context (isValidIpV6 : string -> bool) (default_port : Z).

Definition drop_string (n : nat) (s : string) : string := String.substring n (String.length s - n) s.

(** Position of the last colon. *)
Fixpoint last_colon (s : string) (i : nat) (found : option nat) : option nat :=
  match s with
  | EmptyString => found
  | String c s => last_colon s (S i) (if ascii_dec c ":"%char then Some i else found)
  end.

Definition split_at_last_colon (s : string) : string * Z :=
  match last_colon s 0 None with
  | None => (s, default_port)
  | Some i => (String.substring 0 i s, getPortFromString (drop_string (S i) s) default_port)
  end.

Definition parseHostNameWithPort (server_name : string) : string * Z :=
  if String.prefix "[" server_name then
    let closing := String.index 0 "]" server_name in
    let colon := match closing with Some i => String.index i ":" server_name | None => None end in
    let host := match closing with Some i => String.substring 1 (i - 1) server_name | None => drop_string 1 server_name end in
    if isValidIpV6 host then
      (host, getPortFromString (match colon with Some i => drop_string (S i) server_name | None => server_name end) default_port)
    else split_at_last_colon server_name
  else if isValidIpV6 server_name then (server_name, default_port)
  else split_at_last_colon server_name.

End names.

(** ** JSON forms *)

Section json.
Context {J : Type} `{!JsonLib J} `{!JsonValues J}.
Context (iter : gmap string Topology.TopologyEntry -> list (string * Topology.TopologyEntry)).

Definition set_all (l : list (string * J)) : J := fold_left (fun v (p : string * J) => set_member v p.1 p.2) l objectValue.
Definition array_of {A} (f : A -> J) (l : list A) : J := fold_left (fun v x => append v (f x)) l arrayValue.
Definition string_at (v : J) (k : string) : option string := asString (get_member v k).
Definition uint64_at (v : J) (k : string) : option Z := asUInt64 (get_member v k).

Record NotifyDesc : Type := mkNotify { nd_name : string; nd_notify_msg : string }.
Definition notify_encode (d : NotifyDesc) : J := set_all [("name", ofString (nd_name d)); ("notify_msg", ofString (nd_notify_msg d))]%string.
Definition notify_decode (root : J) : option NotifyDesc :=
  name ← string_at root "name"; msg ← string_at root "notify_msg"; Some (mkNotify name msg).

Fixpoint uints (l : list J) : option (list Z) :=
  match l with [] => Some [] | v :: l => n ← asUInt v; r ← uints l; Some (n :: r) end.

Definition handshake_encode (d : Handshake.HandShakeDesc) : J :=
  set_all [("local_nic_path", ofString (Handshake.local_nic_path d)); ("peer_nic_path", ofString (Handshake.hs_peer_nic_path d));
           ("qp_num", array_of ofUInt (Handshake.qp_num d)); ("reply_msg", ofString (Handshake.reply_msg d))]%string.
Definition handshake_decode (root : J) : option Handshake.HandShakeDesc :=
  l ← string_at root "local_nic_path"; p ← string_at root "peer_nic_path"; q ← uints (elements_of (get_member root "qp_num"));
  m ← string_at root "reply_msg"; Some (Handshake.mkHandShake l p q m).

(** *** Segments *)

(** [Topology::toJson] prints the matrix and reads it back; a text that cannot
    be read leaves the null value. *)
Definition topology_toJson (t : Topology.Topology) : J := default nullValue (reader_parse (Topology.toString iter t)).

Definition device_rdma (d : DeviceDesc) : J := set_all [("name", ofString (d_name d)); ("lid", ofInt (d_lid d)); ("gid", ofString (d_gid d))]%string.
Definition device_ascend (d : DeviceDesc) : J := set_all [("name", ofString (d_name d)); ("lid", ofInt (d_lid d))]%string.

Definition buffer_plain (b : BufferDesc) : list (string * J) :=
  [("name", ofString (b_name b)); ("addr", ofUInt (b_addr b)); ("length", ofUInt (b_length b))]%string.
Definition buffer_rdma (b : BufferDesc) : J :=
  set_all (buffer_plain b ++ [("rkey", array_of ofUInt (b_rkey b)); ("lkey", array_of ofUInt (b_lkey b))]%string).
Definition buffer_nvlink (b : BufferDesc) : J := set_all (buffer_plain b ++ [("shm_name", ofString (b_shm_name b))]%string).
Definition buffer_cxl (b : BufferDesc) : J :=
  set_all [("name", ofString (b_name b)); ("offset", ofUInt (b_offset b)); ("length", ofUInt (b_length b))]%string.

Definition rank_json (r : RankInfoDesc) : J :=
  set_all [("rankId", ofUInt (rankId r)); ("hostIp", ofString (hostIp r)); ("hostPort", ofUInt (hostPort r)); ("deviceLogicId", ofUInt (deviceLogicId r));
           ("devicePhyId", ofUInt (devicePhyId r)); ("deviceType", ofUInt (deviceType r)); ("deviceIp", ofString (deviceIp r));
           ("devicePort", ofUInt (devicePort r)); ("pid", ofUInt (ri_pid r))]%string.

(** The members for a protocol; [None]: not supported. *)
Definition protocol_members (d : SegmentDesc) : option (list (string * J)) :=
  if String.eqb (sd_protocol d) "rdma" then
    Some [("devices", array_of device_rdma (sd_devices d)); ("buffers", array_of buffer_rdma (sd_buffers d));
          ("priority_matrix", topology_toJson (sd_topology d))]%string
  else if String.eqb (sd_protocol d) "tcp" then Some [("buffers", array_of (fun b => set_all (buffer_plain b)) (sd_buffers d))]%string
  else if String.eqb (sd_protocol d) "ascend" then
    Some [("devices", array_of device_ascend (sd_devices d)); ("buffers", array_of (fun b => set_all (buffer_plain b)) (sd_buffers d));
          ("rank_info", rank_json (sd_rank_info d))]%string
  else if String.eqb (sd_protocol d) "nvlink" then Some [("buffers", array_of buffer_nvlink (sd_buffers d))]%string
  else if String.eqb (sd_protocol d) "cxl" then
    Some [("cxl_name", ofString (sd_cxl_name d)); ("cxl_base_addr", ofUInt (sd_cxl_base_addr d)); ("buffers", array_of buffer_cxl (sd_buffers d))]%string
  else None.

(** [now] is the text of the current time. *)
Definition encodeSegmentDesc (now : string) (d : SegmentDesc) : Z * J :=
  let head := [("name", ofString (sd_name d)); ("protocol", ofString (sd_protocol d)); ("tcp_data_port", ofInt (sd_tcp_data_port d));
               ("timestamp", ofString now)]%string in
  match protocol_members d with
  | Some l => (0, set_all (head ++ l))
  | None => (ERR_METADATA, set_all head)
  end.

(** Elements read one by one: an exception, or [None] for one that is corrupted. *)
Fixpoint read_list {A} (f : J -> option (option A)) (l : list J) : option (option (list A)) :=
  match l with
  | [] => Some (Some [])
  | v :: l => r ← f v; match r with None => Some None | Some x => rest ← read_list f l; Some (match rest with Some xs => Some (x :: xs) | None => None end) end
  end.
Definition and_then {A B} (o : option (option A)) (k : A -> option (option B)) : option (option B) :=
  r ← o; match r with None => Some None | Some x => k x end.

Definition nonempty (s : string) : bool := negb (String.eqb s "").

Definition read_device_rdma (v : J) : option (option DeviceDesc) :=
  name ← string_at v "name"; lid ← asUInt (get_member v "lid"); gid ← string_at v "gid";
  Some (if nonempty name && nonempty gid then Some (mkDeviceDesc name (lid mod 2 ^ 16) gid) else None).
Definition read_device_ascend (v : J) : option (option DeviceDesc) :=
  name ← string_at v "name"; lid ← asUInt (get_member v "lid");
  Some (if nonempty name then Some (mkDeviceDesc name (lid mod 2 ^ 16) "") else None).

(** Members a protocol does not carry are left empty or zero. *)
Definition read_buffer_rdma (v : J) : option (option BufferDesc) :=
  name ← string_at v "name"; addr ← uint64_at v "addr"; length ← uint64_at v "length";
  rkey ← uints (elements_of (get_member v "rkey")); lkey ← uints (elements_of (get_member v "lkey"));
  Some (if nonempty name && negb (addr =? 0) && negb (length =? 0) && negb (List.length rkey =? 0)%nat && (List.length rkey =? List.length lkey)%nat
        then Some (mkBufferDesc name addr length lkey rkey "" 0) else None).
Definition read_buffer_plain (v : J) : option (option BufferDesc) :=
  name ← string_at v "name"; addr ← uint64_at v "addr"; length ← uint64_at v "length";
  Some (if nonempty name && negb (addr =? 0) && negb (length =? 0) then Some (mkBufferDesc name addr length [] [] "" 0) else None).
Definition read_buffer_nvlink (v : J) : option (option BufferDesc) :=
  name ← string_at v "name"; addr ← uint64_at v "addr"; length ← uint64_at v "length"; shm ← string_at v "shm_name";
  Some (if nonempty name && negb (addr =? 0) && negb (length =? 0) && nonempty shm then Some (mkBufferDesc name addr length [] [] shm 0) else None).
Definition read_buffer_cxl (v : J) : option (option BufferDesc) :=
  name ← string_at v "name"; offset ← uint64_at v "offset"; length ← uint64_at v "length";
  Some (if nonempty name && negb (length =? 0) then Some (mkBufferDesc name 0 length [] [] "" offset) else None).

Fixpoint read_paths (v : J) (keys : list string) (m : gmap string string) : option (gmap string string) :=
  match keys with [] => Some m | k :: keys => s ← string_at v k; read_paths v keys (<[k := s]> m) end.
Definition read_buffer_nvmeof (v : J) : option (option NVMeoFBufferDesc) :=
  path ← string_at v "file_path"; length ← uint64_at v "length";
  keys ← getMemberNames (get_member v "local_path_map"); m ← read_paths (get_member v "local_path_map") keys ∅;
  Some (Some (mkNVMeoF path length m)).

Definition read_rank (v : J) : option RankInfoDesc :=
  a ← uint64_at v "rankId"; b ← string_at v "hostIp"; c ← uint64_at v "hostPort"; d ← uint64_at v "deviceLogicId"; e ← uint64_at v "devicePhyId";
  f ← uint64_at v "deviceType"; g ← string_at v "deviceIp"; h ← uint64_at v "devicePort"; i ← uint64_at v "pid";
  Some (mkRankInfo a b c d e f g h i).

Definition members (v : J) (k : string) : list J := elements_of (get_member v k).

(** The outer option is an exception, the inner one the null pointer. *)
Definition decodeSegmentDesc (v : J) : option (option SegmentDesc) :=
  name ← string_at v "name"; protocol ← string_at v "protocol"; port ← asInt (get_member v "tcp_data_port");
  timestamp ← (if isMember v "timestamp" then string_at v "timestamp" else Some ""%string);
  let desc ds t bs nv cn ca ri := Some (Some (mkSegmentDesc name protocol ds t bs nv cn ca timestamp ri port)) in
  let none := Topology.empty_topology in
  if String.eqb protocol "rdma" then
    and_then (read_list read_device_rdma (members v "devices")) (fun ds =>
    and_then (read_list read_buffer_rdma (members v "buffers")) (fun bs =>
    match Topology.parse iter (toStyledString (get_member v "priority_matrix")) none with
    | (Topology.Throw, _) => None
    | (Topology.Ret _, t) => desc ds t bs [] ""%string 0 new_rank_info
    end))
  else if String.eqb protocol "tcp" then
    and_then (read_list read_buffer_plain (members v "buffers")) (fun bs => desc [] none bs [] ""%string 0 new_rank_info)
  else if String.eqb protocol "nvlink" then
    and_then (read_list read_buffer_nvlink (members v "buffers")) (fun bs => desc [] none bs [] ""%string 0 new_rank_info)
  else if String.eqb protocol "nvmeof" then
    and_then (read_list read_buffer_nvmeof (members v "buffers")) (fun nv => desc [] none [] nv ""%string 0 new_rank_info)
  else if String.eqb protocol "ascend" then
    and_then (read_list read_device_ascend (members v "devices")) (fun ds =>
    and_then (read_list read_buffer_plain (members v "buffers")) (fun bs =>
    ri ← read_rank (get_member v "rank_info"); desc ds none bs [] ""%string 0 ri))
  else if String.eqb protocol "cxl" then
    cn ← string_at v "cxl_name"; ca ← uint64_at v "cxl_base_addr";
    and_then (read_list read_buffer_cxl (members v "buffers")) (fun bs => desc [] none bs [] cn ca new_rank_info)
  else Some None.

(** ** The state *)

Record RpcMetaDesc : Type := mkRpcMeta { ip_or_host_name : string; rpc_port : Z; sockfd : Z }.

(** Descriptions are shared pointers, which may be null; nobody changes one
    after it was shared. *)
Record TransferMetadata : Type := mkMetadata {
  p2p_handshake_mode_ : bool;
  segment_id_to_desc_map_ : gmap Z (option SegmentDesc);
  segment_name_to_id_map_ : gmap string Z;
  next_segment_id_ : Z;
  notifys : list NotifyDesc;
  rpc_meta_map_ : gmap string RpcMetaDesc;
  local_rpc_meta_ : RpcMetaDesc;
}.
Abbreviation T := (ST TransferMetadata).

Definition new_metadata (p2p : bool) : TransferMetadata := mkMetadata p2p ∅ ∅ 1 [] ∅ (mkRpcMeta "" 0 0).

Definition set_descs x s := mkMetadata (p2p_handshake_mode_ s) x (segment_name_to_id_map_ s) (next_segment_id_ s) (notifys s) (rpc_meta_map_ s) (local_rpc_meta_ s).
Definition set_names x s := mkMetadata (p2p_handshake_mode_ s) (segment_id_to_desc_map_ s) x (next_segment_id_ s) (notifys s) (rpc_meta_map_ s) (local_rpc_meta_ s).
Definition set_next x s := mkMetadata (p2p_handshake_mode_ s) (segment_id_to_desc_map_ s) (segment_name_to_id_map_ s) x (notifys s) (rpc_meta_map_ s) (local_rpc_meta_ s).
Definition set_notifys x s := mkMetadata (p2p_handshake_mode_ s) (segment_id_to_desc_map_ s) (segment_name_to_id_map_ s) (next_segment_id_ s) x (rpc_meta_map_ s) (local_rpc_meta_ s).
Definition set_rpc x s := mkMetadata (p2p_handshake_mode_ s) (segment_id_to_desc_map_ s) (segment_name_to_id_map_ s) (next_segment_id_ s) (notifys s) x (local_rpc_meta_ s).
Definition set_local_rpc x s := mkMetadata (p2p_handshake_mode_ s) (segment_id_to_desc_map_ s) (segment_name_to_id_map_ s) (next_segment_id_ s) (notifys s) (rpc_meta_map_ s) x.

(** [segment_id_to_desc_map_[id]]: a null pointer is entered for an unknown id. *)
Definition desc_at (id : Z) : T (option SegmentDesc) :=
  let* m := gets segment_id_to_desc_map_ in
  match m !! id with
  | Some d => ret d
  | None => do* modify (set_descs (<[id := None]> m)) in ret None
  end.
Definition put_desc (id : Z) (d : SegmentDesc) : T unit := modify (fun s => set_descs (<[id := Some d]> (segment_id_to_desc_map_ s)) s).
Definition put_name (name : string) (id : Z) : T unit := modify (fun s => set_names (<[name := id]> (segment_name_to_id_map_ s)) s).
(** [next_segment_id_.fetch_add(1)]. *)
Definition fresh_id : T Z :=
  let* id := gets next_segment_id_ in do* modify (set_next (u64 (id + 1))) in ret id.

(** What the services answer in a call: the storage, and the exchange with a
    peer in P2P mode. *)
Record Services : Type := mkServices {
  sv_get : string -> option J;
  sv_set : string -> J -> bool;
  sv_remove : string -> bool;
  sv_exchange : string -> Z -> J -> Z * J;
  sv_now : string;
}.

Section services.
Context (metacache : bool) (isValidIpV6 : string -> bool) (default_port : Z).

(** *** Notifications *)

Definition receivePeerNotify (peer : J) : T (Z * J) :=
  let* d := lift (notify_decode peer) in
  do* modify (fun s => set_notifys (notifys s ++ [d]) s) in
  ret (0, notify_encode (mkNotify "" "success")).

Definition getNotifies (notifies : list NotifyDesc) : T (Z * list NotifyDesc) :=
  let* l := gets notifys in do* modify (set_notifys []) in ret (0, notifies ++ l).

(** *** Descriptions in the storage *)

Definition updateSegmentDesc (sv : Services) (name : string) (d : SegmentDesc) : T Z :=
  let* p2p := gets p2p_handshake_mode_ in
  if p2p then ret 0
  else
    let '(rc, json) := encodeSegmentDesc (sv_now sv) d in
    if negb (rc =? 0) then ret rc
    else ret (if sv_set sv (getFullMetadataKey name) json then 0 else ERR_METADATA).

Definition removeSegmentDesc (sv : Services) (name : string) : T Z :=
  let* p2p := gets p2p_handshake_mode_ in
  if p2p then ret 0 else ret (if sv_remove sv (getFullMetadataKey name) then 0 else ERR_METADATA).

Definition receivePeerMetadata (sv : Services) (peer : J) : T (Z * J) :=
  let* d := desc_at LOCAL_SEGMENT_ID in
  let* d := lift d in
  ret (encodeSegmentDesc (sv_now sv) d).

Definition getSegmentDesc (sv : Services) (name : string) : T (option SegmentDesc) :=
  let* p2p := gets p2p_handshake_mode_ in
  if p2p then
    let '(ip, port) := parseHostNameWithPort isValidIpV6 default_port name in
    let* d := desc_at LOCAL_SEGMENT_ID in
    let* d := lift d in
    let '(rc, json) := encodeSegmentDesc (sv_now sv) d in
    if negb (rc =? 0) then ret None
    else
      let '(rc, peer) := sv_exchange sv ip port json in
      if negb (rc =? 0) then ret None else lift (decodeSegmentDesc peer)
  else
    match sv_get sv (getFullMetadataKey name) with
    | None => ret None
    | Some peer => lift (decodeSegmentDesc peer)
    end.

(** *** The cache *)

(** The loop over the entries, in the order of [ids]; what is fetched for one is
    entered at once. *)
Fixpoint sync_entries (sv : Z -> Services) (name : string) (ids : list Z) : T unit :=
  match ids with
  | [] => ret tt
  | id :: ids =>
      do* (if id =? LOCAL_SEGMENT_ID then ret tt
           else
             let* d := desc_at id in
             let* d := lift d in
             if nonempty name && negb (String.eqb (sd_name d) name) then ret tt
             else
               let* r := getSegmentDesc (sv id) (sd_name d) in
               match r with Some d' => put_desc id d' | None => ret tt end) in
      sync_entries sv name ids
  end.
Definition syncSegmentCache (order : gmap Z (option SegmentDesc) -> list Z) (sv : Z -> Services) (name : string) : T Z :=
  let* m := gets segment_id_to_desc_map_ in do* sync_entries sv name (order m) in ret 0.

Definition getSegmentDescByName (sv : Services) (name : string) (force_update : bool) : T (option SegmentDesc) :=
  let* names := gets segment_name_to_id_map_ in
  match (if metacache && negb force_update then names !! name else None) with
  | Some id => desc_at id
  | None =>
      let* id := match names !! name with Some id => ret id | None => fresh_id end in
      if id =? LOCAL_SEGMENT_ID then let* id := lift (names !! name) in desc_at id
      else
        let* r := getSegmentDesc sv name in
        match r with
        | None => ret None
        | Some d => do* put_desc id d in do* put_name name id in ret (Some d)
        end
  end.

Definition getSegmentDescByID (sv : Services) (id : Z) (force_update : bool) : T (option SegmentDesc) :=
  let* m := gets segment_id_to_desc_map_ in
  match m !! id with
  | None => ret None
  | Some d =>
      if negb (id =? LOCAL_SEGMENT_ID) && (negb metacache || force_update) then
        let* d := lift d in
        let* r := getSegmentDesc sv (sd_name d) in
        match r with None => ret None | Some d' => do* put_desc id d' in ret (Some d') end
      else ret d
  end.

(** [-1] as a [uint64_t] when there is no such segment. *)
Definition getSegmentID (sv : Services) (name : string) : T Z :=
  let* names := gets segment_name_to_id_map_ in
  match names !! name with
  | Some id => ret id
  | None =>
      let* r := getSegmentDesc sv name in
      match r with
      | None => ret (u64 (-1))
      | Some d => let* id := fresh_id in do* put_desc id d in do* put_name name id in ret id
      end
  end.

Definition updateLocalSegmentDesc (sv : Services) (id : Z) : T Z :=
  let* d := desc_at id in let* d := lift d in updateSegmentDesc sv (sd_name d) d.

Definition addLocalSegment (id : Z) (name : string) (d : SegmentDesc) : T Z := do* put_desc id d in do* put_name name id in ret 0.

Definition removeLocalSegment (name : string) : T Z :=
  let* names := gets segment_name_to_id_map_ in
  match names !! name with
  | None => ret 0
  | Some id =>
      do* modify (fun s => set_names (delete name (segment_name_to_id_map_ s)) s) in
      do* modify (fun s => set_descs (delete (u64 (Endpoint.s32 id)) (segment_id_to_desc_map_ s)) s) in
      ret 0
  end.

Definition set_buffers (bs : list BufferDesc) (d : SegmentDesc) : SegmentDesc :=
  mkSegmentDesc (sd_name d) (sd_protocol d) (sd_devices d) (sd_topology d) bs (sd_nvmeof_buffers d) (sd_cxl_name d) (sd_cxl_base_addr d)
    (sd_timestamp d) (sd_rank_info d) (sd_tcp_data_port d).

Definition addLocalMemoryBuffer (sv : Services) (b : BufferDesc) (update_metadata : bool) : T Z :=
  let* d := desc_at LOCAL_SEGMENT_ID in
  let* d := lift d in
  do* put_desc LOCAL_SEGMENT_ID (set_buffers (sd_buffers d ++ [b]) d) in
  if update_metadata then updateLocalSegmentDesc sv LOCAL_SEGMENT_ID else ret 0.

(** The first buffer at [addr] is erased. *)
Fixpoint erase_buffer (addr : Z) (bs : list BufferDesc) : option (list BufferDesc) :=
  match bs with
  | [] => None
  | b :: bs => if b_addr b =? addr then Some bs else r ← erase_buffer addr bs; Some (b :: r)
  end.

Definition removeLocalMemoryBuffer (sv : Services) (addr : Z) (update_metadata : bool) : T Z :=
  let* d := desc_at LOCAL_SEGMENT_ID in
  let* d := lift d in
  match erase_buffer addr (sd_buffers d) with
  | None => do* put_desc LOCAL_SEGMENT_ID d in ret ERR_ADDRESS_NOT_REGISTERED
  | Some bs =>
      do* put_desc LOCAL_SEGMENT_ID (set_buffers bs d) in
      if update_metadata then updateLocalSegmentDesc sv LOCAL_SEGMENT_ID else ret 0
  end.

(** *** Locations of servers *)

(** [daemon] is the answer of the handshake daemon in P2P mode. *)
Definition addRpcMetaEntry (sv : Services) (daemon : Z) (server_name : string) (d : RpcMetaDesc) : T Z :=
  do* modify (set_local_rpc d) in
  let* p2p := gets p2p_handshake_mode_ in
  if p2p then ret daemon
  else
    let json := set_all [("ip_or_host_name", ofString (ip_or_host_name d)); ("rpc_port", ofUInt (rpc_port d))]%string in
    ret (if sv_set sv (kRpcMetaPrefix ++ server_name)%string json then 0 else ERR_METADATA).

Definition removeRpcMetaEntry (sv : Services) (server_name : string) : T Z :=
  let* p2p := gets p2p_handshake_mode_ in
  if p2p then ret 0 else ret (if sv_remove sv (kRpcMetaPrefix ++ server_name)%string then 0 else ERR_METADATA).

(** The code and the description, which keeps [sockfd] of the argument. *)
Definition getRpcMetaEntry (sv : Services) (server_name : string) (desc : RpcMetaDesc) : T (Z * RpcMetaDesc) :=
  let* m := gets rpc_meta_map_ in
  match m !! server_name with
  | Some d => ret (0, d)
  | None =>
      let* p2p := gets p2p_handshake_mode_ in
      let* r :=
        if p2p then let '(ip, port) := parseHostNameWithPort isValidIpV6 default_port server_name in ret (Some (mkRpcMeta ip port (sockfd desc)))
        else
          match sv_get sv (kRpcMetaPrefix ++ server_name)%string with
          | None => ret None
          | Some json =>
              let* ip := lift (string_at json "ip_or_host_name") in
              let* port := lift (asUInt (get_member json "rpc_port")) in
              ret (Some (mkRpcMeta ip (port mod 2 ^ 16) (sockfd desc)))
          end in
      match r with
      | None => ret (ERR_METADATA, desc)
      | Some d => do* modify (fun s => set_rpc (<[server_name := d]> (rpc_meta_map_ s)) s) in ret (0, d)
      end
  end.

(** *** Handshakes *)

(** The callback of the daemon around [on_receive_handshake]: its code, and the
    reply, which starts as null. *)
Definition on_connection {S} (on_receive_handshake : Handshake.HandShakeDesc -> Handshake.HandShakeDesc -> ST S (Z * Handshake.HandShakeDesc))
    (peer : J) : ST S (Z * J) :=
  let* peer_desc := lift (handshake_decode peer) in
  let* r := on_receive_handshake peer_desc Handshake.empty_handshake in
  if negb (r.1 =? 0) then ret (r.1, nullValue) else ret (0, handshake_encode r.2).

(** [wire] is the exchange with a server: a code and its reply. *)
Definition sendHandshake (sv : Services) (wire : string -> Z -> J -> Z * J) (server : string) (local : Handshake.HandShakeDesc) :
    T (Z * Handshake.HandShakeDesc) :=
  let* r := getRpcMetaEntry sv server (mkRpcMeta "" 0 0) in
  if negb (r.1 =? 0) then ret (ERR_METADATA, Handshake.empty_handshake)
  else
    let '(rc, peer) := wire (ip_or_host_name r.2) (rpc_port r.2) (handshake_encode local) in
    if negb (rc =? 0) then ret (rc, Handshake.empty_handshake)
    else
      let* d := lift (handshake_decode peer) in
      ret (if nonempty (Handshake.reply_msg d) then ERR_METADATA else 0, d).

Definition sendNotify (sv : Services) (wire : string -> Z -> J -> Z * J) (server : string) (local : NotifyDesc) : T (Z * NotifyDesc) :=
  let* r := getRpcMetaEntry sv server (mkRpcMeta "" 0 0) in
  if negb (r.1 =? 0) then ret (ERR_METADATA, mkNotify "" "")
  else
    let '(rc, peer) := wire (ip_or_host_name r.2) (rpc_port r.2) (notify_encode local) in
    if negb (rc =? 0) then ret (rc, mkNotify "" "")
    else
      let* d := lift (notify_decode peer) in
      ret (if nonempty (nd_notify_msg d) then 0 else ERR_METADATA, d).

End services.
End json.
End Metadata.
