(* ===== verification/EndpointJoint.v ===== *)
(** * EndpointJoint: the store of endpoints and the requests in flight, together

    [JInv]: the SIEVE store is consistent and the counters of its endpoints
    are exact.  Every operation the worker threads use keeps both, so that
    the data path can rely on one invariant. *)

From Stdlib Require Import ZArith Lia.
From stdpp Require Import base list gmap strings numbers.
From S2P Require Import Prelude Topology Endpoint EndpointStore EndpointInv EndpointSieve EndpointFlight EndpointRuns Transport Handshake.
Import Endpoint EndpointStore EpProofs EpInv EpSieve EpSieveOps EpFlight EpRuns.

Open Scope moon_scope.
Open Scope Z_scope.

Module EpJoint.

(** ** Programs that keep every endpoint *)

Definition dom_kept {A} (c : W A) : Prop := forall w a w' id, c w = Some (a, w') -> is_Some (eps w !! id) -> is_Some (eps w' !! id).

Lemma dk_bind {A B} (c : W A) (k : A -> W B) : dom_kept c -> (forall a, dom_kept (k a)) -> dom_kept (bind c k).
Proof. intros Hc Hk w b w' id H Hid. unfold bind in H. destruct (c w) as [[a w1]|] eqn:E; [|done]. eapply Hk; [exact H|]. by eapply Hc. Qed.
Lemma dk_ret {A} (a : A) : dom_kept (ret a).
Proof. by intros w b w' id [= _ <-]. Qed.
Lemma dk_lift {A} (o : option A) : dom_kept (lift o : W A).
Proof. intros w b w' id. unfold lift. by destruct o as [a|]; [intros [= _ <-]|]. Qed.
Lemma dk_gets {A} (f : World -> A) : dom_kept (gets f).
Proof. by intros w b w' id [= _ <-]. Qed.
Lemma dk_ub {A} : dom_kept (ub : W A).
Proof. by intros w b w' id. Qed.
Lemma dk_get id : dom_kept (ep_get id).
Proof. intros w b w' id'. unfold ep_get. by destruct (eps w !! id); [intros [= _ <-]|]. Qed.
Lemma dk_put id e : dom_kept (ep_put id e).
Proof. intros w b w' id' [= _ <-] H. simpl. rewrite lookup_insert. case_decide; [by eexists|done]. Qed.
Lemma dk_cq_sub q d : dom_kept (cq_sub q d).
Proof. by intros w b w' id [= _ <-]. Qed.
Lemma dk_cq_add q d : dom_kept (cq_add q d).
Proof. by intros w b w' id [= _ <-]. Qed.
Lemma dk_when b (c : W unit) : dom_kept c -> dom_kept (when b c).
Proof. destruct b; [done|]. intros _. apply dk_ret. Qed.
Create HintDb dk.
#[export] Hint Resolve dk_ret dk_lift dk_gets dk_ub dk_get dk_put dk_cq_sub dk_cq_add : dk.

(** Follows a program, splitting its matches. *)
Ltac dk :=
  repeat first
    [ progress auto with dk
    | apply dk_bind; [|intros ?]
    | apply dk_when
    | match goal with |- dom_kept (match ?x with _ => _ end) => destruct x end
    | progress cbv beta zeta ].

Lemma dk_depth_sub id i d : dom_kept (depth_sub id i d).
Proof. unfold depth_sub. dk. Qed.
Lemma dk_give_back id i cq k : dom_kept (give_back id i cq k).
Proof. induction k as [|k IH]; cbn [give_back]; [dk|]. pose proof (dk_depth_sub id i 1). dk. Qed.
Lemma dk_sub_cells l : dom_kept (sub_cells l).
Proof. induction l as [|[[a b] d] l IH]; cbn [sub_cells fst snd]; [dk|]. pose proof (dk_depth_sub a b d). dk. Qed.
Lemma dk_set_active id f now : dom_kept (set_active id f now).
Proof. unfold set_active. dk. Qed.
Lemma dk_submit max_cqe draw post id l : dom_kept (submitPostSend max_cqe draw post id l).
Proof. unfold submitPostSend. pose proof dk_give_back. dk. Qed.
Lemma dk_drain id i : dom_kept (drain id i).
Proof. unfold drain. dk. Qed.
Lemma dk_reset_qps id k : forall i, dom_kept (reset_qps id i k).
Proof. induction k as [|k IH]; intros i; cbn [reset_qps]; [dk|]. pose proof (dk_drain id i). dk. Qed.
Lemma dk_disconnect id : dom_kept (disconnect id).
Proof. unfold disconnect, disconnectUnlocked. pose proof (dk_reset_qps id). dk. Qed.

Section joint.
Context (max_cqe : Z).
Abbreviation max := (s32 max_cqe).

(** ** Programs that keep the accounting, if they return *)

Definition keeps {A} (c : W A) : Prop := forall w a w' fl, c w = Some (a, w') -> Acct max w fl -> Acct max w' fl.
Definition keepsS {S A} (c : ST (S * World) A) : Prop := forall p a p' fl, c p = Some (a, p') -> Acct max p.2 fl -> Acct max p'.2 fl.

Lemma ks_bind {S A B} (c : ST (S * World) A) (k : A -> ST (S * World) B) : keepsS c -> (forall a, keepsS (k a)) -> keepsS (bind c k).
Proof. intros Hc Hk p b p' fl H A0. unfold bind in H. destruct (c p) as [[a p1]|] eqn:E; [|done]. eapply Hk; [exact H|]. by eapply Hc. Qed.
Lemma ks_ret {S A} (a : A) : keepsS (ret a : ST (S * World) A).
Proof. by intros p b p' fl [= _ <-]. Qed.
Lemma ks_lift {S A} (o : option A) : keepsS (lift o : ST (S * World) A).
Proof. intros p b p' fl. unfold lift. by destruct o as [a|]; [intros [= _ <-]|]. Qed.
Lemma ks_store {S} : keepsS (the_store : ST (S * World) S).
Proof. by intros p b p' fl [= _ <-]. Qed.
Lemma ks_upd {S} (f : S -> S) : keepsS (fst_upd f).
Proof. by intros p b p' fl [= _ <-]. Qed.
Lemma ks_ub {S A} : keepsS (ub : ST (S * World) A).
Proof. by intros p b p' fl. Qed.
Lemma ks_world {S A} (c : W A) : keeps c -> keepsS (on_world c : ST (S * World) A).
Proof. intros Hc [s w] b p' fl H A0. unfold on_world in H. simpl in *. destruct (c w) as [[a w1]|] eqn:E; [|done]. injection H as _ <-. by eapply Hc. Qed.

Lemma keeps_set_active id f now : keeps (set_active id f now).
Proof.
  intros w a w' fl H A. destruct (eps w !! id) as [e|] eqn:He.
  - pose proof (set_active_acct max w fl id f now e A He) as R. unfold runs in R. by rewrite H in R.
  - unfold set_active, bind, ep_get in H. by rewrite He in H.
Qed.

Create HintDb ks.
#[local] Hint Resolve ks_ret ks_lift ks_store ks_upd ks_ub : ks.
#[local] Hint Extern 2 (keepsS (on_world _)) => apply ks_world : ks.
#[local] Hint Resolve keeps_set_active : ks.

Ltac ks :=
  repeat first
    [ progress auto with ks
    | apply ks_bind; [|intros ?]
    | match goal with |- keepsS (match ?x with _ => _ end) => destruct x end
    | progress cbv beta zeta ].

Lemma ks_evict now : keepsS (sieve_evictEndpoint now).
Proof. unfold sieve_evictEndpoint. ks. Qed.

Lemma ks_make_room now fuel : keepsS (sieve_make_room fuel now).
Proof. pose proof (ks_evict now). induction fuel as [|fuel IH]; cbn [sieve_make_room]; ks. Qed.

(** ** The invariant *)

Record JInv (s : SIEVE) (w : World) (fl : flight) : Prop := {
  j_store : SVInv s w;
  j_acct : Acct max w fl;
  j_room : 2 <= max_size_ (store s);
}.

Lemma jinv_world s w w' fl fl' : JInv s w fl -> Acct max w' fl' -> (forall id, is_Some (eps w !! id) -> is_Some (eps w' !! id)) -> JInv s w' fl'.
Proof.
  intros [[I H Hh Hl] A R] A' D. split; [|done|done]. split; [done| |done|done]. split; [|apply A'].
  intros id Ho. destruct (hi_good _ _ _ H id Ho) as (e & He & _). destruct (D id ltac:(by eexists)) as [e' He'].
  exists e'. split; [done|]. by apply (ac_good _ _ _ A' id).
Qed.

(** A program on endpoints with a known effect on the accounting. *)
Lemma joint_world {A} (c : W A) s w fl (Q : A -> flight -> Prop) : JInv s w fl -> dom_kept c ->
  runs c w (fun a w' => exists fl', Acct max w' fl' /\ Q a fl') ->
  runs (on_world c) (s, w) (fun a p => p.1 = s /\ exists fl', JInv s p.2 fl' /\ Q a fl' /\ forall id, is_Some (eps w !! id) -> is_Some (eps p.2 !! id)).
Proof.
  intros J D R. apply on_world_runs. unfold runs in *. destruct (c w) as [[a w']|] eqn:E; [|done].
  destruct R as (fl' & A' & HQ). split; [done|]. exists fl'.
  assert (D' : forall id, is_Some (eps w !! id) -> is_Some (eps w' !! id)) by (intros id; by apply (D w a w' id)).
  split; [by apply (jinv_world s w w' fl)|done].
Qed.

Lemma runs_keeps {S A} (c : ST (S * World) A) p fl Q : runs c p Q -> keepsS c -> Acct max p.2 fl -> runs c p (fun a p' => Q a p' /\ Acct max p'.2 fl).
Proof. unfold runs. intros R K A0. destruct (c p) as [[a p']|] eqn:E; [|done]. split; [done|]. by eapply K. Qed.

Lemma delete_joint path s w fl : JInv s w fl ->
  runs (sieve_deleteEndpoint path) (s, w) (fun _ p => JInv p.1 p.2 fl /\ p.2 = w).
Proof.
  intros [I A R]. eapply runs_mono; [by apply (delete_runs path s w I)|]. intros r [s' w'] (_ & (I' & M & _) & _ & E). simpl in *. subst w'.
  split; [|done]. split; [done|done|by rewrite M].
Qed.

Section requests.
Context (create_ok destroy_ok : nat -> nat -> bool) (held : nat -> bool).
Context (Hcreate : forall id j, create_ok id j = true).

(** The path of an endpoint without requests in flight. *)
Lemma path_keeps id path w a w' fl : setPeerNicPath id path w = Some (a, w') -> Acct max w fl -> (forall x, x ∈ fl -> x.2.1 <> id) -> Acct max w' fl.
Proof.
  intros H A Hno. unfold setPeerNicPath in H. destruct (eps w !! id) as [e|] eqn:He; [|unfold bind, ep_get in H; by rewrite He in H].
  assert (Hm : max < 2 ^ 31) by (unfold s32; pose proof (Z.mod_pos_bound (max_cqe + 2 ^ 31) (2 ^ 32)); lia).
  assert (R : runs (when (bool_decide (status_ e = CONNECTED)) (disconnectUnlocked id)) w (fun _ w1 => Acct max w1 fl)).
  { destruct (bool_decide _); [|done]. cbn [when]. eapply runs_mono; [by apply (disconnect_acct max w fl id e A Hm He)|].
    intros [] w1 A1. by rewrite filter_all in A1 by done. }
  unfold bind, ep_get in H. rewrite He in H. unfold runs in R. destruct (when _ _ w) as [[[] w1]|]; [|done].
  destruct (eps w1 !! id) as [e1|] eqn:He1; [|done]. injection H as _ <-.
  apply (put_acct max w1 fl id e1); [done|done|by split; [..|intros [ds [? ? ?]]; exists ds|]|done].
Qed.

Lemma ks_insert now cq n max_wr path p r p' fl : (0 < n)%nat ->
  sieve_insertEndpoint create_ok destroy_ok now cq n max_wr path p = Some (r, p') -> Acct max p.2 fl -> Acct max p'.2 fl.
Proof.
  intros Hn H A. destruct p as [s w]. cbn [snd] in A. unfold sieve_insertEndpoint in H. unfold bind at 1 in H. cbn [the_store gets fst] in H.
  destruct (endpoint_map_ (store s) !! path) as [[id b]|]; [by injection H as _ <-|].
  pose proof (new_acct create_ok destroy_ok cq n max_wr max w fl Hcreate Hn A) as R. unfold runs in R.
  unfold bind at 1, on_world at 1 in H. cbn [snd fst] in H. destruct (new_constructed _ _ _ _ _ w) as [[r1 w1]|]; [|done]. destruct R as [-> A1].
  assert (Hno : forall x, x ∈ fl -> x.2.1 <> next_ep w).
  { intros x Hx E. destruct (ac_live _ _ _ A x Hx) as [d Hd]. unfold cell_depth in Hd. destruct (eps w !! x.2.1) eqn:Ex; [|done].
    pose proof (ac_next _ _ _ A x.2.1 ltac:(by eexists)). lia. }
  unfold bind at 1 in H. destruct (sieve_make_room _ now (s, w1)) as [[[] [s2 w2]]|] eqn:E2; [|done].
  pose proof (ks_make_room now _ _ _ _ _ E2 A1) as A2. cbn [snd] in A2.
  unfold bind at 1, on_world at 1 in H. cbn [snd fst] in H. destruct (setPeerNicPath _ _ w2) as [[[] w3]|] eqn:E3; [|done].
  injection H as _ <-. simpl. by eapply path_keeps.
Qed.

Lemma release_all_keeps ids : forall w a w' fl, release_all destroy_ok held ids w = Some (a, w') -> NoDup ids ->
  (forall id, id ∈ ids -> hasOutstandingSlice id w = Some (false, w)) -> Acct max w fl -> Acct max w' fl.
Proof.
  induction ids as [|id ids IH]; intros w a w' fl H ND Hout A; [by injection H as _ <-|].
  apply list.NoDup_cons in ND as [Hid ND]. cbn [release_all] in H. unfold bind in H.
  destruct (release destroy_ok held id w) as [[[] w1]|] eqn:E; [|done]. unfold release in E. destruct (held id).
  - injection E as <-. by eapply IH; [exact H|done|intros id' ?; apply Hout; by right|].
  - pose proof (Hout id ltac:(by left)) as Ho. destruct (eps w !! id) as [e|] eqn:He.
    2: { unfold hasOutstandingSlice, bind, ep_get in Ho. by rewrite He in Ho. }
    pose proof (destroy_acct (destroy_ok id) max w fl id A Ho) as R. unfold runs in R. rewrite E in R.
    pose proof (destructor_runs (destroy_ok id) id w e He (ac_good _ _ _ A id e He)) as R2. unfold runs in R2. rewrite E in R2. destruct R2 as [Ee _].
    eapply IH; [exact H|done| |done]. intros id' Hin. specialize (Hout id' ltac:(by right)).
    assert (id' <> id) by (intros ->; done). unfold hasOutstandingSlice, bind, ep_get in Hout |- *.
    rewrite Ee, lookup_delete_ne by done. destruct (eps w !! id') as [e'|]; [|done].
    destruct (active_ e'); [done|]. unfold lift in *. destruct (any_outstanding e' 0 (length (qp_list_ e'))) as [[|]|]; done.
Qed.

Lemma ks_reclaim s w a p' fl : JInv s w fl -> sieve_reclaimEndpoint destroy_ok held (s, w) = Some (a, p') -> Acct max p'.2 fl.
Proof.
  intros [I A R] H. unfold sieve_reclaimEndpoint in H. unfold bind at 1 in H. cbn [the_store gets fst] in H.
  destruct (waiting_list_len_ s =? 0); [by injection H as _ <-|]. unfold bind at 1, on_world at 1 in H. cbn [snd fst] in H.
  assert (Hg : forall id, id ∈ elements (waiting_list_ (store s)) -> exists e, eps w !! id = Some e /\ Good e).
  { intros id Hid%elem_of_elements. apply (hi_good _ _ _ (sv_heap _ _ I)). by right. }
  rewrite (done_waiting_eq w _ Hg) in H. unfold bind at 1 in H. cbn [fst_upd modify fst snd] in H. unfold on_world in H. cbn [snd fst] in H.
  destruct (release_all _ _ _ w) as [[b w1]|] eqn:E; [|done]. injection H as _ <-. simpl.
  eapply release_all_keeps; [exact E|apply list.NoDup_filter, NoDup_elements| |done].
  intros id [Hb Hin]%list_elem_of_filter. destruct (Hg id Hin) as (e & He & G). rewrite (hasOutstandingSlice_eq id w e He G).
  unfold busy_in in Hb. rewrite He in Hb. by rewrite Hb.
Qed.

(** [RdmaContext::endpoint] returns, keeps the invariant and answers an endpoint that exists. *)
Lemma endpoint_joint active now cq n max_wr path s w fl : JInv s w fl -> (0 < n)%nat ->
  runs (context_endpoint create_ok destroy_ok held active now cq n max_wr path) (s, w) (fun r p =>
    JInv p.1 p.2 fl /\ forall id, r = Some id -> is_Some (eps p.2 !! id)).
Proof.
  intros J Hn. unfold context_endpoint. destruct (negb active); [done|]. destruct (String.eqb path ""); [done|].
  assert (Hex : forall s' w' id b, SVInv s' w' -> endpoint_map_ (store s') !! path = Some (id, b) -> is_Some (eps w' !! id)).
  { intros s' w' id b I' Hk. destruct (hi_good _ _ _ (sv_heap _ _ I') id) as (e & He & _); [left; by exists path, (id, b)|by exists e]. }
  pose proof J as [I A R]. apply runs_bind.
  assert (Kg : keepsS (sieve_getEndpoint path)) by (unfold sieve_getEndpoint; ks).
  eapply runs_mono; [apply (runs_keeps _ (s, w) fl _ (get_runs path s w I) Kg A)|].
  intros r [s1 w1] [((I1 & M1 & _) & _ & Hm) A1]. cbn [fst snd] in *. destruct r as [id|].
  - apply runs_ret. split; [split; [done|done|cbn; lia]|]. intros ? [= <-]. by eapply Hex; [|apply Hm].
  - apply runs_bind. assert (R1 : 2 <= max_size_ (store s1)) by (by rewrite M1).
    pose proof (insert_runs create_ok destroy_ok Hcreate now cq n max_wr path s1 w1 I1 R1) as Ri. unfold runs in Ri |- *.
    destruct (sieve_insertEndpoint _ _ now cq n max_wr path (s1, w1)) as [[r [s2 w2]]|] eqn:E2; [|done].
    destruct Ri as ((I2 & M2 & _) & id & b & -> & Hk). pose proof (ks_insert _ _ _ _ _ _ _ _ _ Hn E2 A1) as A2. cbn [fst snd] in *.
    assert (J2 : JInv s2 w2 fl) by (split; [done|done|cbn; lia]).
    pose proof (reclaim_runs destroy_ok held s2 w2 I2) as Rr. unfold runs, bind in Rr |- *.
    destruct (sieve_reclaimEndpoint destroy_ok held (s2, w2)) as [[[] [s3 w3]]|] eqn:E3; [|done].
    destruct Rr as ((I3 & M3 & _) & Em & _). pose proof (ks_reclaim _ _ _ _ _ J2 E3) as A3. cbn [ret fst snd] in *.
    split; [split; [done|done|cbn; lia]|]. intros ? [= <-]. eapply Hex; [done|]. by rewrite Em.
Qed.

End requests.

(** ** Endpoints *)

Lemma put_joint s w fl id e e' : JInv s w fl -> eps w !! id = Some e -> Alike e e' -> wr_depth_list_ e' = wr_depth_list_ e ->
  JInv s (mkWorld (<[id := e']> (eps w)) (next_ep w) (cq_outstanding w)) fl.
Proof.
  intros J He Al Hd. apply (jinv_world s w _ fl); [done|by apply (put_acct max w fl id e); [apply J| | |]|].
  intros id' H. simpl. rewrite lookup_insert. case_decide; [by eexists|done].
Qed.

Lemma set_active_joint s w fl id f now : JInv s w fl -> is_Some (eps w !! id) ->
  runs (on_world (set_active id f now)) (s, w) (fun _ p => p.1 = s /\ JInv s p.2 fl).
Proof.
  intros J [e He]. eapply runs_mono; [apply (joint_world _ s w fl (fun _ fl' => fl' = fl) J (dk_set_active id f now))|].
  - eapply runs_mono; [by apply (set_active_acct max w fl id f now e (j_acct _ _ _ J) He)|]. intros ? ? ?. by exists fl.
  - intros a [s' w'] (-> & fl' & J' & -> & _). done.
Qed.

Lemma submit_joint s w fl draw post id l : JInv s w fl -> is_Some (eps w !! id) ->
  runs (on_world (submitPostSend max_cqe draw post id l)) (s, w) (fun r p => p.1 = s /\
    JInv s p.2 (fl ++ on_cell (id, on_qp r) (accepted r)) /\ accepted r ++ failed_slice_list r ++ slice_list r = l).
Proof.
  intros J [e He]. eapply runs_mono; [apply (joint_world _ s w fl (fun r fl' => fl' = fl ++ on_cell (id, on_qp r) (accepted r) /\
      accepted r ++ failed_slice_list r ++ slice_list r = l) J (dk_submit _ _ _ _ _))|].
  - eapply runs_mono; [by apply (submit_acct max_cqe draw post id l w fl e (j_acct _ _ _ J) He)|]. intros r w' (A' & E & _). by eexists.
  - intros r [s' w'] (-> & fl' & J' & [-> E] & _). done.
Qed.

Lemma disconnect_all_acct ids : forall w fl, Acct max w fl -> (forall id, id ∈ ids -> is_Some (eps w !! id)) ->
  runs (disconnect_all ids) w (fun _ w' => Acct max w' (filter (fun x => x.2.1 ∉ ids) fl)).
Proof.
  assert (Hm : max < 2 ^ 31) by (unfold s32; pose proof (Z.mod_pos_bound (max_cqe + 2 ^ 31) (2 ^ 32)); lia).
  induction ids as [|id ids IH]; intros w fl A Hids.
  - apply runs_ret. rewrite filter_all by (intros x _; apply not_elem_of_nil). done.
  - cbn [disconnect_all]. apply runs_bind. destruct (Hids id ltac:(by left)) as [e He].
    pose proof (disconnect_acct max w fl id e A Hm He) as R. unfold runs in R |- *.
    destruct (disconnect id w) as [[[] w1]|] eqn:E; [|done]. eapply runs_mono; [apply (IH w1 _ R)|].
    + intros id' Hid'. apply (dk_disconnect id w tt w1 id' E), Hids. by right.
    + intros [] w2 A2. rewrite list_filter_filter in A2.
      by rewrite (list_filter_iff _ (fun x => (x.2.1 ∉ ids) /\ x.2.1 <> id)) by (intros x; rewrite not_elem_of_cons; tauto).
Qed.

Lemma dk_disconnect_all ids : dom_kept (disconnect_all ids).
Proof. induction ids as [|id ids IH]; cbn [disconnect_all]; [dk|]. pose proof (dk_disconnect id). dk. Qed.

(** Disconnecting everything: requests in flight are gone without completion. *)
Lemma disconnectQPs_joint s w fl : JInv s w fl ->
  runs sieve_disconnectQPs (s, w) (fun _ p => p.1 = s /\ JInv s p.2 (filter (fun x => x.2.1 ∉ sieve_ids s) fl)).
Proof.
  intros J. unfold sieve_disconnectQPs. apply the_store_runs. apply runs_bind.
  eapply runs_mono; [apply (joint_world _ s w fl (fun _ fl' => fl' = filter (fun x => x.2.1 ∉ sieve_ids s) fl) J (dk_disconnect_all _))|].
  - eapply runs_mono; [apply (disconnect_all_acct _ w fl (j_acct _ _ _ J))|intros ? w' A'; eexists; split; [exact A'|done]].
    intros id [Hid|Hid]%elem_of_app.
    + apply elem_of_elements in Hid. destruct (hi_good _ _ _ (sv_heap _ _ (j_store _ _ _ J)) id) as (e & He & _); [by right|by exists e].
    + apply list_elem_of_fmap in Hid as ([k v] & -> & Hk%elem_of_map_to_list).
      destruct (hi_good _ _ _ (sv_heap _ _ (j_store _ _ _ J)) v.1) as (e & He & _); [left; by exists k, v|by exists e].
  - intros [] [s' w'] (E & fl' & J' & -> & _). simpl in *. by subst s'.
Qed.

End joint.
End EpJoint.
