(* ===== verification/HandshakeProofs.v ===== *)
(** * HandshakeProofs: what a handshake does to an endpoint

    On a good endpoint both sides of the handshake return; they change nothing
    but the status of the endpoint (and, on the passive side, the
    requests of a connection it replaces). *)

From Stdlib Require Import ZArith Lia Ascii String.
From stdpp Require Import base list gmap strings numbers.
From S2P Require Import Prelude Topology Endpoint EndpointStore EndpointInv EndpointSieve EndpointFlight EndpointRuns Transport Handshake EndpointJoint.
Import Endpoint EpProofs EpSieveOps EpFlight EpRuns Handshake EpJoint.
Import (hints) Transport.

Open Scope moon_scope.
Open Scope Z_scope.

Module HsProofs.

(** ** NIC paths *)

Lemma cut_make server nic : ("@"%char ∉ list_ascii_of_string server) -> cut (Transport.MakeNicPath server nic) = Some (server, nic).
Proof.
  unfold Transport.MakeNicPath. induction server as [|c server IH]; intros H; [done|].
  change (cut (String c (server ++ Transport.NIC_PATH_DELIM ++ nic)) = Some (String c server, nic)). cbn [cut].
  cbn [list_ascii_of_string] in H. apply not_elem_of_cons in H as [Hc H].
  destruct (Ascii.eqb_spec c "@"%char) as [->|_]; [done|]. by rewrite IH.
Qed.

Section handshake.
Context (modify_ok : nat -> nat -> bool) (qp_number : nat -> nat -> Z) (strerror : string).

Definition numbers (id n : nat) : list Z := qp_number id <$> seq 0 n.

Lemma qpNum_eq id w e : eps w !! id = Some e -> Good e -> qpNum qp_number id w = Some (numbers id (length (qp_list_ e)), w).
Proof.
  intros He [ds [D L Q]]. unfold qpNum, bind, ep_get. rewrite He.
  assert (Hb : forallb (fun q => match q with QLive => true | _ => false end) (qp_list_ e) = true); [|by rewrite Hb].
  apply forallb_forall. intros q Hq%list_elem_of_In. apply list_elem_of_lookup in Hq as [i Hi].
  pose proof (Q i ltac:(apply lookup_lt_Some in Hi; lia)) as Hl. rewrite Hi in Hl. by injection Hl as ->.
Qed.

(** All four changes of queue pair [i] succeed. *)
Definition modified (i : nat) : bool := forallb (modify_ok i) (seq 0 4).

Lemma setup_qp_eq id i w e : eps w !! id = Some e -> Good e -> (i < length (qp_list_ e))%nat ->
  exists msg, doSetupConnection_qp modify_ok strerror id i w = Some ((if modified i then 0 else ERR_ENDPOINT, msg), w) /\ (modified i = true -> msg = ""%string).
Proof.
  intros He [ds [D L Q]] Hi. unfold doSetupConnection_qp, bind, ep_get, modified. rewrite He.
  rewrite (Q i ltac:(lia)). cbn [seq list_find forallb].
  destruct (modify_ok i 0), (modify_ok i 1), (modify_ok i 2), (modify_ok i 3); cbn; eexists; by split.
Qed.

Lemma setup_qps_eq id gid lid peers w e : forall i, eps w !! id = Some e -> Good e -> (i + length peers <= length (qp_list_ e))%nat ->
  exists msg l, setup_qps modify_ok strerror id i gid lid peers w =
    Some ((if forallb modified (seq i (length peers)) then 0 else ERR_ENDPOINT, msg, l), w) /\
    (forallb modified (seq i (length peers)) = true -> msg = ""%string /\ l = mkPeer gid lid <$> peers).
Proof.
  induction peers as [|n peers IH]; intros i He G Hl; [by exists ""%string, []|]. cbn [setup_qps seq length forallb] in *.
  destruct (setup_qp_eq id i w e He G ltac:(lia)) as (m1 & E1 & Hm1). rewrite (bind_Some _ _ _ _ _ E1).
  destruct (modified i); cbn [andb fst snd].
  - destruct (IH (S i) He G ltac:(lia)) as (m2 & l2 & E2 & H2). change (0 =? 0) with true. cbn iota. rewrite (bind_Some _ _ _ _ _ E2). cbn.
    exists m2, (mkPeer gid lid n :: l2). split; [done|]. intros H. destruct (H2 H) as [-> ->]. done.
  - exists m1, []. done.
Qed.

(** Connecting the queue pairs: the endpoint is connected exactly if the numbers
    match in number and every change of every queue pair succeeds; else it is as before. *)
Lemma doSetup_eq id gid lid peers w e : eps w !! id = Some e -> Good e ->
  let ok := (length (qp_list_ e) =? length peers)%nat && forallb modified (seq 0 (length peers)) in
  exists rc msg l, doSetupConnection modify_ok strerror id gid lid peers w =
    Some ((rc, msg, l), if ok then mkWorld (<[id := set_status CONNECTED e]> (eps w)) (next_ep w) (cq_outstanding w) else w) /\
    (rc = 0 <-> ok = true) /\ (ok = true -> l = mkPeer gid lid <$> peers).
Proof.
  intros He G ok. unfold doSetupConnection. rewrite (bind_Some _ _ w e w) by (unfold ep_get; by rewrite He).
  unfold ok. destruct (Nat.eqb_spec (length (qp_list_ e)) (length peers)) as [El|El]; cbn [negb andb].
  2: { do 3 eexists. split; [reflexivity|]. unfold Transport.ERR_INVALID_ARGUMENT. split; [split; [lia|done]|done]. }
  destruct (setup_qps_eq id gid lid peers w e 0 He G ltac:(lia)) as (msg & l & E & Hm). rewrite (bind_Some _ _ _ _ _ E). cbn [fst snd].
  destruct (forallb modified _).
  - change (0 =? 0) with true. cbn iota. rewrite (bind_Some _ _ w e w) by (unfold ep_get; by rewrite He). do 3 eexists. split; [reflexivity|]. destruct (Hm eq_refl) as [-> ->]. done.
  - do 3 eexists. split; [reflexivity|]. unfold ERR_ENDPOINT. split; [split; [lia|done]|done].
Qed.

Lemma connected_alike e : Alike e (set_status CONNECTED e).
Proof. by split; [..|intros [ds [? ? ?]]; exists ds|]. Qed.

Lemma doSetup_joint max s w fl id gid lid peers : JInv max s w fl -> is_Some (eps w !! id) ->
  exists r w', doSetupConnection modify_ok strerror id gid lid peers w = Some (r, w') /\ JInv max s w' fl /\ is_Some (eps w' !! id).
Proof.
  intros J [e He]. destruct (doSetup_eq id gid lid peers w e He (ac_good _ _ _ (j_acct _ _ _ _ J) id e He)) as (rc & msg & l & E & _).
  do 2 eexists. split; [exact E|]. destruct (_ && _); [|split; [done|by exists e]].
  split; [apply (put_joint max s w fl id e); [done|done|apply connected_alike|done]|]. cbn. rewrite lookup_insert_eq. by eexists.
Qed.

Lemma active_joint max nicPath name local send by_name s w fl id : JInv max s w fl -> is_Some (eps w !! id) ->
  exists r w', setupConnectionsByActive modify_ok qp_number strerror nicPath name local send by_name id w = Some (r, w') /\ JInv max s w' fl /\ is_Some (eps w' !! id).
Proof.
  intros J [e He]. pose proof (qpNum_eq id w e He (ac_good _ _ _ (j_acct _ _ _ _ J) id e He)) as En.
  assert (Hset : forall gid lid n, exists r w', (let* r := doSetupConnection modify_ok strerror id gid lid n in ret (r.1.1, r.2)) w = Some (r, w') /\ JInv max s w' fl /\ is_Some (eps w' !! id)).
  { intros gid lid n. destruct (doSetup_joint max s w fl id gid lid n J ltac:(by eexists)) as (r & w' & E & J').
    do 2 eexists. rewrite (bind_Some _ _ _ _ _ E). by split. }
  assert (Hret : forall x : Z * list Peer, exists r w', ret x w = Some (r, w') /\ JInv max s w' fl /\ is_Some (eps w' !! id)) by (intros; do 2 eexists; split_and!; [reflexivity|done|by exists e]).
  unfold setupConnectionsByActive. rewrite (bind_Some _ _ w e w) by (unfold ep_get; by rewrite He).
  destruct (bool_decide _); [apply Hret|]. destruct (String.eqb nicPath _).
  - destruct (find_nic local name) as [nic|]; [|apply Hret]. rewrite (bind_Some _ _ _ _ _ En). apply Hset.
  - rewrite (bind_Some _ _ _ _ _ En). destruct (_ || _); [apply Hret|]. destruct (send _ _) as [rc peer_desc].
    destruct (negb (rc =? 0)); [apply Hret|]. destruct (negb _); [apply Hret|]. destruct (_ || _); [apply Hret|].
    destruct (find_nic _ _) as [d|]; [apply Hset|apply Hret].
Qed.

(** The passive side: a connection it replaces loses its requests. *)
Lemma passive_joint max nicPath by_name peer_desc local_desc s w fl id e : JInv max s w fl -> eps w !! id = Some e ->
  exists r w', setupConnectionsByPassive modify_ok qp_number strerror nicPath by_name peer_desc local_desc id w = Some (r, w') /\
    JInv max s w' (if bool_decide (status_ e = CONNECTED) then filter (fun x => x.2.1 <> id) fl else fl).
Proof.
  intros J He. unfold setupConnectionsByPassive. rewrite (bind_Some _ _ w e w) by (unfold ep_get; by rewrite He).
  set (fl1 := if bool_decide _ then _ else _).
  assert (Hd : exists w1, when (bool_decide (status_ e = CONNECTED)) (disconnectUnlocked id) w = Some (tt, w1) /\ JInv max s w1 fl1 /\ is_Some (eps w1 !! id)).
  { unfold fl1. destruct (bool_decide _); [|exists w; split_and!; [done|done|by eexists]]. cbn [when].
    assert (Hm : s32 max < 2 ^ 31) by (unfold s32; pose proof (Z.mod_pos_bound (max + 2 ^ 31) (2 ^ 32)); lia).
    pose proof (disconnect_acct (s32 max) w fl id e (j_acct _ _ _ _ J) Hm He) as R. unfold runs in R. change disconnect with disconnectUnlocked in R.
    destruct (disconnectUnlocked id w) as [[[] w1]|] eqn:E; [|done]. exists w1.
    assert (D : forall id', is_Some (eps w !! id') -> is_Some (eps w1 !! id')) by (intros id'; by apply (dk_disconnect id w tt w1 id')).
    split_and!; [done|by apply (jinv_world max s w w1 fl)|apply D; by eexists]. }
  destruct Hd as (w1 & E1 & J1 & [e1 He1]). rewrite (bind_Some _ _ _ _ _ E1).
  rewrite (bind_Some _ _ w1 e1 w1) by (unfold ep_get; by rewrite He1).
  destruct (_ || _); [do 2 eexists; by split|]. destruct (_ || _); [do 2 eexists; by split|].
  rewrite (bind_Some _ _ _ _ _ (qpNum_eq id w1 e1 He1 (ac_good _ _ _ (j_acct _ _ _ _ J1) id e1 He1))).
  destruct (find_nic _ _) as [d|]; [|do 2 eexists; by split].
  destruct (doSetup_joint max s w1 fl1 id (Transport.d_gid d) (Transport.d_lid d) (qp_num peer_desc) J1 ltac:(by eexists)) as (r & w2 & E2 & J2 & _).
  rewrite (bind_Some _ _ _ _ _ E2). do 2 eexists. by split.
Qed.

End handshake.
End HsProofs.
