(* ===== verification/TransportProofs.v ===== *)
(** * TransportProofs: what happens to slices, tasks and the cache of slices

    [Evolves m m' S F]: from heap [m] to heap [m'] slices keep what they
    transfer, those of [S] were marked successful and those of [F] failed, and
    the counters of every task moved accordingly. *)

From Stdlib Require Import ZArith Lia.
From stdpp Require Import base list gmap strings numbers.
From S2P Require Import Prelude Topology Transport.
Import Transport.

Open Scope moon_scope.
Open Scope Z_scope.

Module TrProofs.

(** ** Machine integers *)

Lemma u64_add a b : u64 (u64 a + b) = u64 (a + b).
Proof. unfold u64. by rewrite Zplus_mod_idemp_l. Qed.
Lemma u64_add_r a b : u64 (a + u64 b) = u64 (a + b).
Proof. unfold u64. by rewrite Zplus_mod_idemp_r. Qed.

(** ** Slices *)

(** What a slice transfers, and for whom. *)
Definition core (x : Slice) := (source_addr x, sl_length x, sl_opcode x, sl_target_id x, sl_task x, dest_addr x, max_retry_cnt x).

(** The outcome of a slice, once it has one. *)
Definition fin (x : Slice) : option bool :=
  match sl_status x with SliceSuccess => Some true | SliceFailed => Some false | _ => None end.

Definition task_of (m : Mem) (s : nat) : option nat := sl_task <$> slices m !! s.
Definition of_task (m : Mem) (t : nat) (l : list nat) : list nat := filter (fun s => task_of m s = Some t) l.
Definition lengths (m : Mem) (l : list nat) : Z := foldr (fun s n => default 0 (sl_length <$> slices m !! s) + n) 0 l.

Lemma of_task_app m t l k : of_task m t (l ++ k) = of_task m t l ++ of_task m t k.
Proof. apply list.filter_app. Qed.
Lemma lengths_app m l k : lengths m (l ++ k) = lengths m l + lengths m k.
Proof. unfold lengths. induction l as [|s l IH]; simpl; lia. Qed.
Lemma lengths_perm m l k : l ≡ₚ k -> lengths m l = lengths m k.
Proof. unfold lengths. induction 1; simpl; lia. Qed.

(** ** Tasks *)

Record Ranged (t : TransferTask) : Prop := {
  rg_success : 0 <= success_slice_count t < 2 ^ 64;
  rg_failed : 0 <= failed_slice_count t < 2 ^ 64;
  rg_bytes : 0 <= transferred_bytes t < 2 ^ 64;
}.

Definition counted (t : TransferTask) (n k b : Z) : TransferTask :=
  set_counts (u64 (success_slice_count t + n)) (u64 (failed_slice_count t + k)) (u64 (transferred_bytes t + b)) t.

Lemma counted_0 t : Ranged t -> counted t 0 0 0 = t.
Proof. intros [? ? ?]. unfold counted. rewrite !Z.add_0_r, !u64_small by lia. by destruct t. Qed.
Lemma counted_counted t n k b n' k' b' : counted (counted t n k b) n' k' b' = counted t (n + n') (k + k') (b + b').
Proof. unfold counted, set_counts. cbn. rewrite !u64_add, !Z.add_assoc. done. Qed.
Lemma counted_ranged t n k b : Ranged (counted t n k b).
Proof. split; apply u64_range. Qed.

(** Every task of the heap has counters in range. *)
Definition AllRanged (m : Mem) : Prop := forall t x, tasks m !! t = Some x -> Ranged x.

Record Evolves (m m' : Mem) (S F : list nat) : Prop := {
  ev_same : batches m' = batches m /\ caches m' = caches m /\ next_slice m' = next_slice m /\ next_task m' = next_task m /\ next_batch m' = next_batch m;
  ev_core : forall s, core <$> slices m' !! s = core <$> slices m !! s;
  ev_fin : forall s, fin <$> slices m' !! s = if decide (s ∈ S ++ F) then fin <$> slices m' !! s else fin <$> slices m !! s;
  ev_success : forall s x, slices m' !! s = Some x -> s ∈ S -> s ∉ F -> fin x = Some true;
  ev_failed : forall s x, slices m' !! s = Some x -> s ∈ F -> s ∉ S -> fin x = Some false;
  ev_tasks : AllRanged m -> forall t, tasks m' !! t = (fun x => counted x (Z.of_nat (length (of_task m t S)))
    (Z.of_nat (length (of_task m t F))) (lengths m (of_task m t S))) <$> tasks m !! t;
}.

Lemma ev_task_of m m' S F s : Evolves m m' S F -> task_of m' s = task_of m s.
Proof.
  intros E. pose proof (ev_core _ _ _ _ E s) as H. unfold task_of.
  destruct (slices m' !! s), (slices m !! s); simpl in *; unfold core in H; simplify_eq; congruence.
Qed.
Lemma ev_of_task m m' S F t l : Evolves m m' S F -> of_task m' t l = of_task m t l.
Proof. intros E. unfold of_task. apply list_filter_iff. intros s. by rewrite (ev_task_of _ _ _ _ s E). Qed.
Lemma ev_lengths m m' S F l : Evolves m m' S F -> lengths m' l = lengths m l.
Proof.
  intros E. unfold lengths. induction l as [|s l IH]; [done|]. simpl. rewrite IH. pose proof (ev_core _ _ _ _ E s) as H.
  destruct (slices m' !! s), (slices m !! s); simpl in *; unfold core in H; simplify_eq; congruence.
Qed.

Lemma ev_ranged m m' S F : Evolves m m' S F -> AllRanged m -> AllRanged m'.
Proof. intros E R t x Hx. rewrite (ev_tasks _ _ _ _ E R t) in Hx. apply fmap_Some in Hx as (y & _ & ->). apply counted_ranged. Qed.

Lemma ev_slice m m' S F s x : Evolves m m' S F -> slices m !! s = Some x -> exists x', slices m' !! s = Some x' /\ core x' = core x.
Proof. intros E Hx. pose proof (ev_core _ _ _ _ E s) as H. rewrite Hx in H. destruct (slices m' !! s) as [x'|]; [|done]. exists x'. simpl in H. by apply (inj Some) in H. Qed.

Lemma ev_task m m' S F t : Evolves m m' S F -> AllRanged m -> is_Some (tasks m' !! t) <-> is_Some (tasks m !! t).
Proof. intros E R. rewrite (ev_tasks _ _ _ _ E R t). apply fmap_is_Some. Qed.

Lemma ev_refl m : Evolves m m [] [].
Proof.
  split; [done|done|done|intros ? ? ? H; by apply elem_of_nil in H|intros ? ? ? H; by apply elem_of_nil in H|].
  intros R t. destruct (tasks m !! t) as [x|] eqn:Ex; [|done]. symmetry. exact (f_equal Some (counted_0 x (R t x Ex))).
Qed.

Lemma ev_trans m m' m'' S F S' F' : Evolves m m' S F -> Evolves m' m'' S' F' -> Evolves m m'' (S ++ S') (F ++ F').
Proof.
  intros E E'. split.
  - destruct (ev_same _ _ _ _ E) as (? & ? & ? & ? & ?), (ev_same _ _ _ _ E') as (? & ? & ? & ? & ?). repeat split; congruence.
  - intros s. by rewrite (ev_core _ _ _ _ E'), (ev_core _ _ _ _ E).
  - intros s. case_decide as D; [done|]. rewrite !elem_of_app in D.
    rewrite (ev_fin _ _ _ _ E' s), decide_False by (rewrite elem_of_app; tauto).
    by rewrite (ev_fin _ _ _ _ E s), decide_False by (rewrite elem_of_app; tauto).
  - intros s x Hx HS HF. rewrite elem_of_app in HS, HF. destruct (decide (s ∈ S')) as [D|D]; [by eapply (ev_success _ _ _ _ E'); [|done|tauto]|].
    pose proof (ev_fin _ _ _ _ E' s) as H. rewrite decide_False in H by (rewrite elem_of_app; tauto). rewrite Hx in H.
    destruct (slices m' !! s) as [y|] eqn:Hy; [|done]. injection H as ->. eapply (ev_success _ _ _ _ E); [done|tauto|tauto].
  - intros s x Hx HF HS. rewrite elem_of_app in HS, HF. destruct (decide (s ∈ F')) as [D|D]; [by eapply (ev_failed _ _ _ _ E'); [|done|tauto]|].
    pose proof (ev_fin _ _ _ _ E' s) as H. rewrite decide_False in H by (rewrite elem_of_app; tauto). rewrite Hx in H.
    destruct (slices m' !! s) as [y|] eqn:Hy; [|done]. injection H as ->. eapply (ev_failed _ _ _ _ E); [done|tauto|tauto].
  - intros R t. rewrite (ev_tasks _ _ _ _ E' (ev_ranged _ _ _ _ E R) t), (ev_tasks _ _ _ _ E R t), !(ev_of_task _ _ _ _ _ _ E), (ev_lengths _ _ _ _ _ E).
    destruct (tasks m !! t); [|done]. simpl. f_equal. rewrite counted_counted, !of_task_app, !length_app, lengths_app. f_equal; lia.
Qed.

(** ** Operations *)

(** Replacing a slice by one that transfers the same and has the same outcome. *)
Lemma ev_upd m s x f : slices m !! s = Some x -> core (f x) = core x -> fin (f x) = fin x ->
  runs (slice_upd f s) m (fun _ m' => m' = set_slices (<[s := f x]> (slices m)) m /\ Evolves m m' [] []).
Proof.
  intros Hx Hc Hf. unfold slice_upd. apply runs_bind. apply (runs_eq _ _ x m); [unfold slice_get; by rewrite Hx|].
  cbn. split; [done|]. split; cbn [set_slices slices tasks app].
  - done.
  - intros s'. rewrite lookup_insert. case_decide; [subst; by rewrite Hx; simpl; rewrite Hc|done].
  - intros s'. rewrite decide_False by apply not_elem_of_nil. rewrite lookup_insert. case_decide; [subst; by rewrite Hx; simpl; rewrite Hf|done].
  - intros ? ? ? H. by apply elem_of_nil in H.
  - intros ? ? ? H. by apply elem_of_nil in H.
  - intros R t. destruct (tasks m !! t) as [y|] eqn:Ey; [|done]. symmetry. exact (f_equal Some (counted_0 y (R t y Ey))).
Qed.

(** Marking slice [s]. *)
Lemma mark_ev (ok : bool) m s x t : slices m !! s = Some x -> tasks m !! sl_task x = Some t ->
  runs (if ok then markSuccess s else markFailed s) m (fun _ m' =>
    slices m' = <[s := set_sl_status (if ok then SliceSuccess else SliceFailed) x]> (slices m) /\
    Evolves m m' (if ok then [s] else []) (if ok then [] else [s])).
Proof.
  intros Hx Ht.
  set (x1 := set_sl_status (if ok then SliceSuccess else SliceFailed) x).
  set (t1 := if ok then set_counts (u64 (success_slice_count t + 1)) (failed_slice_count t) (u64 (transferred_bytes t + sl_length x)) t
             else set_counts (success_slice_count t) (u64 (failed_slice_count t + 1)) (transferred_bytes t) t).
  set (m' := mkMem (<[s := x1]> (slices m)) (next_slice m) (<[sl_task x := t1]> (tasks m)) (next_task m) (batches m) (next_batch m) (caches m)).
  assert (Hrun : (if ok then markSuccess s else markFailed s) m = Some (tt, m')).
  { unfold m', t1, x1. destruct ok; unfold markSuccess, markFailed, slice_upd, task_upd, bind, slice_get, task_get, modify; rewrite Hx; cbn;
      rewrite lookup_insert_eq; cbn; rewrite Ht; cbn; done. }
  eapply runs_eq; [exact Hrun|]. split; [done|].
  assert (Hof : forall t', of_task m t' [s] = if decide (t' = sl_task x) then [s] else []).
  { intros t'. unfold of_task, task_of. rewrite filter_cons, filter_nil, Hx. simpl. destruct (decide (t' = sl_task x)) as [->|D]; [by rewrite decide_True|].
    by rewrite decide_False by congruence. }
  split; cbn [m' slices tasks].
  - done.
  - intros s'. rewrite lookup_insert. case_decide; [subst; by rewrite Hx; unfold x1; destruct ok|done].
  - intros s'. destruct (decide (s' ∈ _)) as [D|D]; [done|]. rewrite lookup_insert_ne; [done|]. intros ->. apply D. destruct ok; simpl; left.
  - intros s' y Hy HS HF. destruct ok; [|by apply elem_of_nil in HS]. apply list_elem_of_singleton in HS as ->.
    rewrite lookup_insert_eq in Hy. injection Hy as <-. done.
  - intros s' y Hy HS HF. destruct ok; [by apply elem_of_nil in HS|]. apply list_elem_of_singleton in HS as ->.
    rewrite lookup_insert_eq in Hy. injection Hy as <-. done.
  - intros R t'. rewrite lookup_insert. destruct (decide (sl_task x = t')) as [<-|D].
    + rewrite Ht. simpl. f_equal. destruct (R _ _ Ht) as [R1 R2 R3]. unfold t1, counted.
      assert (Hl : lengths m [s] = sl_length x) by (unfold lengths; simpl; rewrite Hx; simpl; lia).
      destruct ok; rewrite !Hof, decide_True by done; cbn [length Z.of_nat Pos.of_succ_nat];
        [rewrite Hl, (u64_small (failed_slice_count t + _)) by (cbn; lia)|rewrite (u64_small (success_slice_count t + _)), (u64_small (transferred_bytes t + _)) by (cbn; lia)]; cbn; f_equal; lia.
    + assert (Ho : of_task m t' (if ok then [s] else []) = [] /\ of_task m t' (if ok then [] else [s]) = []).
      { destruct ok; rewrite Hof, decide_False by congruence; done. }
      destruct Ho as [-> ->]. destruct (tasks m !! t') as [y|] eqn:Ey; [|done]. symmetry. exact (f_equal Some (counted_0 y (R _ _ Ey))).
Qed.

End TrProofs.

(** ** The thread's ring of unused slices is a bounded queue *)

Import Transport TrProofs.

Module SliceCache.

Abbreviation K := kLazyDeleteSliceCapacity.

(** The ring holds the queue [l], from the tail on; both counters wrap. *)
Record Ring (c : ThreadLocalSliceCache) (l : list nat) : Prop := {
  rg_length : length (lazy_delete_slices_ c) = Z.to_nat K;
  rg_tail : 0 <= tail_ c < 2 ^ 64;
  rg_head : head_ c = u64 (tail_ c + Z.of_nat (length l));
  rg_size : Z.of_nat (length l) <= K;
  rg_cells : forall i s, l !! i = Some s -> aget (lazy_delete_slices_ c) ((tail_ c + Z.of_nat i) mod K) = Some (Some s);
}.

Lemma ring_new : Ring new_cache [].
Proof. by split. Qed.

Lemma ring_count c l : Ring c l -> u64 (head_ c - tail_ c) = Z.of_nat (length l).
Proof.
  intros [_ _ Hh Hs _]. rewrite Hh. replace (u64 (tail_ c + Z.of_nat (length l)) - tail_ c) with (u64 (tail_ c + Z.of_nat (length l)) + - tail_ c) by lia.
  rewrite u64_add. replace (tail_ c + Z.of_nat (length l) + - tail_ c) with (Z.of_nat (length l)) by lia. apply u64_small. unfold K in Hs. lia.
Qed.

(** A counter modulo 2^64 numbers the same cell. *)
Lemma cell_u64 x i : (u64 x + i) mod K = (x + i) mod K.
Proof.
  unfold u64, K. rewrite <- (Zplus_mod_idemp_l (x mod 2 ^ 64)), <- (Zplus_mod_idemp_l x). f_equal. f_equal.
  apply Z.mod_mod_divide. by exists (2 ^ 52).
Qed.

Lemma ring_pop c s l allocated freed : Ring c (s :: l) ->
  aget (lazy_delete_slices_ c) (tail_ c mod K) = Some (Some s) /\
  Ring (mkCache (lazy_delete_slices_ c) (head_ c) (u64 (tail_ c + 1)) allocated freed) l.
Proof.
  intros [Hl Ht Hh Hs Hc]. split; [specialize (Hc 0%nat s eq_refl); by rewrite Z.add_0_r in Hc|]. split; cbn; [done|apply u64_range|..].
  - rewrite Hh, u64_add. f_equal. cbn [length]. lia.
  - cbn [length] in Hs. lia.
  - intros i s' Hi. rewrite cell_u64. replace (tail_ c + 1 + Z.of_nat i) with (tail_ c + Z.of_nat (S i)) by lia. by apply Hc.
Qed.

Lemma ring_push c s l allocated freed : Ring c l -> Z.of_nat (length l) < K ->
  Ring (mkCache (aput (lazy_delete_slices_ c) (head_ c mod K) (Some s)) (u64 (head_ c + 1)) (tail_ c) allocated freed) (l ++ [s]).
Proof.
  intros [Hl Ht Hh Hs Hc] Hroom.
  assert (Eh : head_ c mod K = (tail_ c + Z.of_nat (length l)) mod K) by (rewrite Hh, <- (Z.add_0_r (u64 _)), cell_u64; f_equal; lia).
  assert (Hr : 0 <= head_ c mod K < Z.of_nat (length (lazy_delete_slices_ c))) by (rewrite Hl; unfold K; pose proof (Z.mod_pos_bound (head_ c) 4096); lia).
  split; cbn.
  - by rewrite length_aput.
  - done.
  - rewrite Hh, u64_add, length_app. f_equal. cbn. lia.
  - rewrite length_app. cbn. lia.
  - intros i s' Hi. destruct (decide (i < length l)%nat) as [Hlt|Hge].
    + rewrite lookup_app_l in Hi by done. rewrite aget_aput_ne; [by apply Hc| |lia]. rewrite Eh. intros E.
      assert (D : (tail_ c + Z.of_nat (length l) - (tail_ c + Z.of_nat i)) mod K = 0) by (rewrite Zminus_mod, E, Z.sub_diag; done).
      replace (tail_ c + Z.of_nat (length l) - (tail_ c + Z.of_nat i)) with (Z.of_nat (length l) - Z.of_nat i) in D by lia.
      rewrite Z.mod_small in D by (unfold K in *; lia). lia.
    + rewrite lookup_app_r in Hi by lia. destruct (i - length l)%nat eqn:Ei; [|done]. injection Hi as <-.
      replace i with (length l) by lia. rewrite <- Eh. by apply aget_aput_eq.
Qed.

(** The queue of thread [th]. *)
Definition Cached (th : nat) (l : list nat) (m : Mem) : Prop := Ring (default new_cache (caches m !! th)) l.

Lemma deallocate_eq th l m s : Cached th l m -> is_Some (slices m !! s) -> exists m', cache_deallocate th s m = Some (tt, m') /\ tasks m' = tasks m /\ next_slice m' = next_slice m /\
  if Z.of_nat (length l) =? K then Cached th l m' /\ slices m' = delete s (slices m) else Cached th (l ++ [s]) m' /\ slices m' = slices m.
Proof.
  intros R [x Hx]. pose proof (ring_count _ _ R) as Hn. unfold cache_deallocate. unfold bind at 1, cache_of at 1, gets at 1. rewrite Hn.
  destruct (Z.eqb_spec (Z.of_nat (length l)) K) as [E|E].
  - unfold slice_delete. unfold bind at 1 2, slice_get at 1. rewrite Hx. eexists. split; [reflexivity|]. split_and!; [done|done| |done].
    unfold Cached. cbn. rewrite lookup_insert_eq. destruct R. by split.
  - eexists. split; [reflexivity|]. split_and!; [done|done| |done]. unfold Cached. cbn. rewrite lookup_insert_eq. apply ring_push; [done|]. pose proof (rg_size _ _ R). lia.
Qed.

Lemma allocate_new th m : Cached th [] m -> exists m', cache_allocate th m = Some (next_slice m, m') /\ Cached th [] m' /\ tasks m' = tasks m /\
  slices m' = <[next_slice m := new_slice]> (slices m) /\ next_slice m' = S (next_slice m).
Proof.
  intros R. pose proof (ring_count _ _ R) as Hn. unfold cache_allocate. unfold bind at 1, cache_of at 1, gets at 1. rewrite Hn. change (Z.of_nat 0 =? 0) with true. cbn iota.
  eexists. split; [reflexivity|]. split_and!; try done. unfold Cached. cbn. rewrite lookup_insert_eq. destruct R. by split.
Qed.

Lemma allocate_reused th s l m x : Cached th (s :: l) m -> slices m !! s = Some x -> exists m', cache_allocate th m = Some (s, m') /\ Cached th l m' /\ tasks m' = tasks m /\
  slices m' = <[s := set_from_cache true x]> (slices m) /\ next_slice m' = next_slice m.
Proof.
  intros R Hx. pose proof (ring_count _ _ R) as Hn. unfold cache_allocate. unfold bind at 1, cache_of at 1, gets at 1. rewrite Hn, (proj2 (Z.eqb_neq _ _)) by (cbn [length]; lia).
  set (c := default new_cache (caches m !! th)) in *. destruct (ring_pop c s l (allocated_ c) (freed_ c) R) as [Ec R'].
  unfold bind at 1, lift at 1. rewrite Ec. unfold bind at 1, put_cache, modify. unfold bind at 1, lift. unfold bind at 1, slice_upd, bind at 1, slice_get. cbn [slices set_caches]. rewrite Hx.
  eexists. split; [reflexivity|]. split_and!; try done. unfold Cached. cbn. by rewrite lookup_insert_eq.
Qed.

(** C25: the lazy-delete ring of a thread is a bounded first-in first-out queue
    of slices, for all values of its counters, which wrap at 2^64: a slice that
    is given back enters at the end, or is deleted when 4096 are waiting; a
    slice is taken from the front, marked as reused, or made anew when none
    waits. *)
Theorem slice_cache_queue th l m : Cached th l m ->
  (forall s, is_Some (slices m !! s) -> exists m', cache_deallocate th s m = Some (tt, m') /\ tasks m' = tasks m /\ next_slice m' = next_slice m /\
    if Z.of_nat (length l) =? K then Cached th l m' /\ slices m' = delete s (slices m)
    else Cached th (l ++ [s]) m' /\ slices m' = slices m) /\
  match l with
  | [] => exists m', cache_allocate th m = Some (next_slice m, m') /\ Cached th [] m' /\ tasks m' = tasks m /\
      slices m' = <[next_slice m := new_slice]> (slices m) /\ next_slice m' = S (next_slice m)
  | s :: l => forall x, slices m !! s = Some x -> exists m', cache_allocate th m = Some (s, m') /\ Cached th l m' /\ tasks m' = tasks m /\
      slices m' = <[s := set_from_cache true x]> (slices m) /\ next_slice m' = next_slice m
  end.
Proof.
  intros R. split; [intros s; by apply deallocate_eq|]. destruct l as [|s l]; [by apply allocate_new|]. intros x. by apply allocate_reused.
Qed.

(** Two slices given back and one taken again. *)
Definition used0 : Mem := mkMem {[0%nat := new_slice; 1%nat := new_slice]} 2 ∅ 0 ∅ 0 ∅.
Lemma slice_cache_queue_witness : Cached 0 [] used0 /\ exists m', cache_deallocate 0 1 used0 = Some (tt, m') /\ Cached 0 [1%nat] m'.
Proof.
  split; [apply ring_new|]. destruct (slice_cache_queue 0 [] used0 ring_new) as [H _]. destruct (H 1%nat) as (m' & E & _ & _ & Hc & _); [by eexists|]. by exists m'.
Defined.

End SliceCache.
