(* ===== verification/Worker.v ===== *)
(** * Worker: the threads that post slices and collect completions

    Models class [WorkerPool] of mooncake-transfer-engine:
    src/transport/rdma_transport/worker_pool.cpp and its header, with
    [RdmaContext] as far as the pool uses it.  The configuration without
    USE_FAKE_POST_SEND, CONFIG_CACHE_SEGMENT_DESC and CONFIG_CACHE_ENDPOINT.

    The state of an operation is the heap of slices and tasks and one context
    with its pool and its endpoints.  What other code and the device answer
    are arguments: descriptions of segments, random numbers, clocks, the
    outcome of a handshake and of [ibv_post_send], and the completions polled.
    The requests the device accepted are the answer of [performPostSend]. *)

From Stdlib Require Import ZArith Lia.
From stdpp Require Import base list gmap strings numbers.
From S2P Require Import Prelude Topology Endpoint EndpointStore Transport Handshake.
Import (hints) Endpoint.
Import Transport.

Open Scope moon_scope.
Open Scope Z_scope.

Module Worker.

(** The members of [globalConfig()] the data path reads. *)
Record GlobalConfig : Type := mkGlobalConfig {
  workers_per_ctx : nat;
  slice_size : Z;
  cf_retry_cnt : Z;
  fragment_limit : Z;
  max_wr : Z;
  num_qp_per_ep : nat;
  max_cqe : Z;
  slice_timeout : Z;
  enable_dest_device_affinity : bool;
}.

Definition kShardCount : nat := 8.
Abbreviation SliceQueue := (gmap string (list nat)).

Record WorkerPool : Type := mkPool {
  slice_queue_ : list SliceQueue;
  slice_queue_count_ : list Z;
  collective_slice_queue_ : list SliceQueue;
  tl_redispatch_counter : list Z;        (** of each worker thread *)
  redispatch_counter_ : Z;
  submitted_slice_count_ : Z;
  processed_slice_count_ : Z;
  success_nr_polls : Z;
  failed_nr_polls : Z;
}.

Record RdmaContext : Type := mkContext {
  device_name_ : string;
  ctx_active : bool;
  cqCount : nat;
  worker_pool_ : WorkerPool;
  endpoint_store_ : EndpointStore.SIEVE;
  world : Endpoint.World;
}.

(** [failed_target_ids] of each submitting thread: an [int] and a time. *)
Record Pool : Type := mkState { mem : Mem; ctx : RdmaContext; failed_target_ids : gmap nat (gmap Z Z) }.
Abbreviation P := (ST Pool).

Definition upd_pool (f : WorkerPool -> WorkerPool) : P unit := modify (fun s => mkState (mem s)
  (mkContext (device_name_ (ctx s)) (ctx_active (ctx s)) (cqCount (ctx s)) (f (worker_pool_ (ctx s))) (endpoint_store_ (ctx s)) (world (ctx s)))
  (failed_target_ids s)).
Definition pool_ {A} (f : WorkerPool -> A) : P A := gets (fun s => f (worker_pool_ (ctx s))).
Definition context_set_active (flag : bool) : P unit := modify (fun s => mkState (mem s)
  (mkContext (device_name_ (ctx s)) flag (cqCount (ctx s)) (worker_pool_ (ctx s)) (endpoint_store_ (ctx s)) (world (ctx s)))
  (failed_target_ids s)).
Definition on_mem {A} (c : M A) : P A := fun s =>
  match c (mem s) with Some (a, m) => Some (a, mkState m (ctx s) (failed_target_ids s)) | None => None end.
Definition on_store {A} (c : ST (EndpointStore.SIEVE * Endpoint.World) A) : P A := fun s =>
  match c (endpoint_store_ (ctx s), world (ctx s)) with
  | Some (a, (st, w)) => Some (a, mkState (mem s)
      (mkContext (device_name_ (ctx s)) (ctx_active (ctx s)) (cqCount (ctx s)) (worker_pool_ (ctx s)) st w) (failed_target_ids s))
  | None => None
  end.
Definition on_eps {A} (c : ST Endpoint.World A) : P A := on_store (EndpointStore.on_world c).

Definition set_shards q n p := mkPool q n (collective_slice_queue_ p) (tl_redispatch_counter p) (redispatch_counter_ p)
  (submitted_slice_count_ p) (processed_slice_count_ p) (success_nr_polls p) (failed_nr_polls p).
Definition set_locals q p := mkPool (slice_queue_ p) (slice_queue_count_ p) q (tl_redispatch_counter p) (redispatch_counter_ p)
  (submitted_slice_count_ p) (processed_slice_count_ p) (success_nr_polls p) (failed_nr_polls p).
Definition set_tl x p := mkPool (slice_queue_ p) (slice_queue_count_ p) (collective_slice_queue_ p) x (redispatch_counter_ p)
  (submitted_slice_count_ p) (processed_slice_count_ p) (success_nr_polls p) (failed_nr_polls p).
Definition inc_redispatch p := mkPool (slice_queue_ p) (slice_queue_count_ p) (collective_slice_queue_ p) (tl_redispatch_counter p)
  (Endpoint.s32 (redispatch_counter_ p + 1)) (submitted_slice_count_ p) (processed_slice_count_ p) (success_nr_polls p) (failed_nr_polls p).
Definition add_submitted n p := mkPool (slice_queue_ p) (slice_queue_count_ p) (collective_slice_queue_ p) (tl_redispatch_counter p)
  (redispatch_counter_ p) (u64 (submitted_slice_count_ p + n)) (processed_slice_count_ p) (success_nr_polls p) (failed_nr_polls p).
Definition add_processed n p := mkPool (slice_queue_ p) (slice_queue_count_ p) (collective_slice_queue_ p) (tl_redispatch_counter p)
  (redispatch_counter_ p) (submitted_slice_count_ p) (u64 (processed_slice_count_ p + n)) (success_nr_polls p) (failed_nr_polls p).
Definition add_polls success failed p := mkPool (slice_queue_ p) (slice_queue_count_ p) (collective_slice_queue_ p) (tl_redispatch_counter p)
  (redispatch_counter_ p) (submitted_slice_count_ p) (processed_slice_count_ p) (u64 (success_nr_polls p + success)) (u64 (failed_nr_polls p + failed)).

(** [queue[path].push_back(slice)]. *)
Definition push (path : string) (s : nat) (q : SliceQueue) : SliceQueue := <[path := default [] (q !! path) ++ [s]]> q.

Definition new_pool (workers : nat) : WorkerPool :=
  mkPool (replicate kShardCount ∅) (replicate kShardCount 0) (replicate workers ∅) (replicate workers 0) 0 0 0 0 0.

(** The workers' queue of thread [th], and a change of it. *)
Definition local_queue (th : nat) : P SliceQueue :=
  let* qs := pool_ collective_slice_queue_ in lift (qs !! th).
Definition upd_local (th : nat) (f : SliceQueue -> SliceQueue) : P unit :=
  let* q := local_queue th in upd_pool (fun p => set_locals (<[th := f q]> (collective_slice_queue_ p)) p).

(** ** Submission *)

Section submit.
Context (cfg : GlobalConfig).
(** Descriptions as looked up once per target, and as reloaded for a slice. *)
Context (desc_of : Z -> option SegmentDesc) (reload : nat -> option SegmentDesc).
(** Numbers drawn for a slice, in the first and in the second selection. *)
Context (rand rand2 : nat -> nat -> bool -> Z).
(** The clock when a slice is checked, and when its failure is recorded. *)
Context (now now_failed : nat -> Z).
(** The submitting thread. *)
Context (th : nat).

Definition target_key (x : Slice) : Z := Endpoint.s32 (sl_target_id x).
Definition tl_failed : P (gmap Z Z) := gets (fun s => default ∅ (failed_target_ids s !! th)).
Definition put_tl_failed (f : gmap Z Z) : P unit := modify (fun s => mkState (mem s) (ctx s) (<[th := f]> (failed_target_ids s))).

(** The route of one slice: [None] after the slice was marked failed, else the
    shard.  The map of descriptions is passed along. *)
Definition route_slice (descs : gmap Z (option SegmentDesc)) (s : nat) : P (option nat * gmap Z (option SegmentDesc)) :=
  let* x := on_mem (slice_get s) in
  let* failed := tl_failed in
  let recent := match failed !! target_key x with Some ts => u64 (now s - ts) <? 100000000 | None => false end in
  if recent then do* on_mem (markFailed s) in ret (None, descs)
  else
    do* when (bool_decide (is_Some (failed !! target_key x))) (put_tl_failed (delete (target_key x) failed)) in
    let desc := default None (descs !! sl_target_id x) in
    let* name := gets (fun st => device_name_ (ctx st)) in
    let hint := if enable_dest_device_affinity cfg then name else ""%string in
    let* r := lift (selectDevice (rand s) desc (dest_addr x) (sl_length x) hint 0 0 0) in
    let* found :=
      if r.1.1 =? 0 then ret (Some (r.1.2, r.2), descs)
      else
        let desc := reload s in
        let descs := <[sl_target_id x := desc]> descs in
        match desc with
        | None =>
            do* on_mem (markFailed s) in
            let* failed := tl_failed in
            do* put_tl_failed (<[target_key x := now_failed s]> failed) in
            ret (None, descs)
        | Some _ =>
            let* r := lift (selectDevice (rand2 s) desc (dest_addr x) (sl_length x) hint r.1.2 r.2 0) in
            if r.1.1 =? 0 then ret (Some (r.1.2, r.2), descs)
            else do* on_mem (markFailed s) in ret (None, descs)
        end in
    match found with
    | (None, descs) => ret (None, descs)
    | (Some (buffer_id, device_id), descs) =>
        match default None (descs !! sl_target_id x) with
        | None => do* on_mem (markFailed s) in ret (None, descs)
        | Some d =>
            let* b := lift (aget (sd_buffers d) buffer_id) in
            let* rkey := lift (aget (b_rkey b) device_id) in
            let* dev := lift (aget (sd_devices d) device_id) in
            do* on_mem (slice_upd (set_route rkey (MakeNicPath (sd_name d) (d_name dev))) s) in
            let shard := u64 (u64 (sl_target_id x * 10007) + device_id) mod Z.of_nat kShardCount in
            ret (Some (Z.to_nat shard), descs)
        end
    end.

(** The loop over the slices; [slice_list_map] has a list per shard. *)
Fixpoint route_slices (ss : list nat) (descs : gmap Z (option SegmentDesc)) (slice_list_map : list (list nat)) : P (list (list nat)) :=
  match ss with
  | [] => ret slice_list_map
  | s :: ss =>
      let* r := route_slice descs s in
      match r with
      | (None, descs) => route_slices ss descs slice_list_map
      | (Some shard, descs) =>
          let* l := lift (slice_list_map !! shard) in
          route_slices ss descs (<[shard := l ++ [s]]> slice_list_map)
      end
  end.

Fixpoint push_all (ss : list nat) (q : SliceQueue) : P SliceQueue :=
  match ss with
  | [] => ret q
  | s :: ss => let* x := on_mem (slice_get s) in push_all ss (push (peer_nic_path x) s q)
  end.

(** One scope of a shard's lock. *)
Definition fill_shard (shard : nat) (l : list nat) : P unit :=
  match l with
  | [] => ret tt
  | _ =>
      let* qs := pool_ slice_queue_ in
      let* ns := pool_ slice_queue_count_ in
      let* q := lift (qs !! shard) in
      let* n := lift (ns !! shard) in
      let* q := push_all l q in
      upd_pool (set_shards (<[shard := q]> qs) (<[shard := u64 (n + Z.of_nat (length l))]> ns))
  end.

Fixpoint fill_shards (shard : nat) (ls : list (list nat)) : P unit :=
  match ls with [] => ret tt | l :: ls => do* fill_shard shard l in fill_shards (S shard) ls end.

Fixpoint look_up (ss : list nat) (descs : gmap Z (option SegmentDesc)) : P (gmap Z (option SegmentDesc)) :=
  match ss with
  | [] => ret descs
  | s :: ss =>
      let* x := on_mem (slice_get s) in
      match descs !! sl_target_id x with
      | Some _ => look_up ss descs
      | None => look_up ss (<[sl_target_id x := desc_of (sl_target_id x)]> descs)
      end
  end.

Definition submitPostSend (ss : list nat) : P Z :=
  let* descs := look_up ss ∅ in
  let* ls := route_slices ss descs (replicate kShardCount []) in
  do* fill_shards 0 ls in
  do* upd_pool (add_submitted (Z.of_nat (length (concat ls)))) in
  ret 0.

End submit.

(** What one call of a pool's [submitPostSend] sees. *)
Record SubmitArgs : Type := mkSubmitArgs {
  sa_desc_of : Z -> option SegmentDesc;
  sa_reload : nat -> option SegmentDesc;
  sa_rand : nat -> nat -> bool -> Z;
  sa_rand2 : nat -> nat -> bool -> Z;
  sa_now : nat -> Z;
  sa_now_failed : nat -> Z;
}.

(** ** Redispatch *)

Section redispatch.
Context (desc_of : Z -> option SegmentDesc) (rand : nat -> nat -> bool -> Z) (th : nat).

Definition drop_slice (s : nat) : P unit := do* on_mem (markFailed s) in upd_pool (add_processed 1).

Definition redispatch_slice (s : nat) : P unit :=
  let* x := on_mem (slice_get s) in
  if max_retry_cnt x <=? retry_cnt x then drop_slice s
  else
    match desc_of (sl_target_id x) with
    | None => drop_slice s
    | Some d =>
        let* r := lift (selectDevice (rand s) (Some d) (dest_addr x) (sl_length x) "" 0 0 (Endpoint.s32 (retry_cnt x))) in
        let '(rc, buffer_id, device_id) := r in
        if negb (rc =? 0) then drop_slice s
        else
          let* b := lift (aget (sd_buffers d) buffer_id) in
          let* rkey := lift (aget (b_rkey b) device_id) in
          let* dev := lift (aget (sd_devices d) device_id) in
          let path := MakeNicPath (sd_name d) (d_name dev) in
          do* on_mem (slice_upd (set_route rkey path) s) in
          upd_local th (push path s)
    end.

Definition redispatch (ss : list nat) : P unit := each redispatch_slice ss.

End redispatch.

(** ** Posting *)

(** [for (int i = i0; i < bound; i += step)]. *)
Fixpoint stride (fuel i step bound : nat) : list nat :=
  match fuel with
  | O => []
  | S fuel => if (i <? bound)%nat then i :: stride fuel (i + step) step bound else []
  end.

(** What a handshake with a peer depends on. *)
Record HandshakeArgs : Type := mkHandshakeArgs {
  ha_modify_ok : nat -> nat -> bool;
  ha_strerror : string;
  ha_local : option SegmentDesc;
  ha_send : string -> Handshake.HandShakeDesc -> Z * Handshake.HandShakeDesc;
  ha_by_name : string -> option SegmentDesc;
}.

Section post.
Context (cfg : GlobalConfig).
Context (create_ok destroy_ok : nat -> nat -> bool) (held : nat -> bool).
(** Descriptions as looked up in the [k]-th call of [redispatch]. *)
Context (desc_of : nat -> Z -> option SegmentDesc) (rand : nat -> nat -> bool -> Z).
(** Iteration over an unordered map of queues. *)
Context (iter : SliceQueue -> list (string * list nat)).
(** For each peer: the clock, the completion queue a new endpoint gets, the
    handshake, the queue pair drawn and the answer of [ibv_post_send]. *)
Context (now : string -> Z) (new_cq : string -> nat) (handshake : string -> HandshakeArgs).
(** The name of this server, and the numbers of queue pairs. *)
Context (local_server_name : string) (qp_number : nat -> nat -> Z).
Context (draw : string -> Z) (post : string -> option nat).
Context (th : nat).

Definition merge_queues (q r : SliceQueue) : SliceQueue := union_with (fun a b => Some (a ++ b)) q r.

(** One scope of a shard's lock. *)
Definition collect_shard (shard : nat) : P unit :=
  let* qs := pool_ slice_queue_ in
  let* ns := pool_ slice_queue_count_ in
  let* q := lift (qs !! shard) in
  let* n := lift (ns !! shard) in
  if n =? 0 then ret tt
  else
    do* upd_local th (fun local => merge_queues local q) in
    upd_pool (set_shards (<[shard := (fun _ => []) <$> q]> qs) (<[shard := 0]> ns)).

Definition setup (path name : string) (id : nat) : ST Endpoint.World (Z * list Handshake.Peer) :=
  let a := handshake path in
  Handshake.setupConnectionsByActive (ha_modify_ok a) qp_number (ha_strerror a) (MakeNicPath local_server_name name) name
    (ha_local a) (ha_send a) (ha_by_name a) id.

Definition inactive_long (path : string) (e : Endpoint.RdmaEndPoint) : bool :=
  negb (Endpoint.active_ e) && (1000000000 <? now path - Endpoint.inactive_time_ e).

(** A failure of the device: too many without a success disable the context. *)
Definition count_failure : P unit :=
  do* upd_pool (add_polls 0 1) in
  let* a := gets (fun s => ctx_active (ctx s)) in
  let* f := pool_ failed_nr_polls in
  let* ok := pool_ success_nr_polls in
  when (a && (32 <? f) && (ok =? 0)) (context_set_active false).

Definition clear_queue (path : string) : P unit := upd_local th (<[path := []]>).

(** Slices that failed so far, and requests the device accepted: slices with
    the counters that count them. *)
Abbreviation Progress := (list nat * list (nat * (nat * nat)))%type.

Definition post_entry (path : string) (acc : Progress) : P Progress :=
  let '(failed, taken) := acc in
  let* q := local_queue th in
  match q !! path with
  | None | Some [] => ret acc
  | Some l =>
      let* a := gets (fun s => ctx_active (ctx s)) in
      let* e := on_store (EndpointStore.context_endpoint create_ok destroy_ok held a (now path) (new_cq path)
                            (num_qp_per_ep cfg) (max_wr cfg) path) in
      match e with
      | None => do* clear_queue path in ret (failed ++ l, taken)
      | Some id =>
          let* ep := on_eps (Endpoint.ep_get id) in
          if negb (Endpoint.active_ ep) then
            do* when (inactive_long path ep) (on_store (let* _c := EndpointStore.sieve_deleteEndpoint path in ret tt)) in
            do* clear_queue path in
            ret (failed ++ l, taken)
          else
            let connected := bool_decide (Endpoint.status_ ep = Endpoint.CONNECTED) in
            let* name := gets (fun s => device_name_ (ctx s)) in
            let* rc := if connected then ret 0 else on_eps (let* r := setup path name id in ret r.1) in
            if negb (rc =? 0) then
              do* on_eps (Endpoint.set_active id false (now path)) in
              do* count_failure in
              do* clear_queue path in
              ret (failed ++ l, taken)
            else
              let* r := on_eps (Endpoint.submitPostSend (max_cqe cfg) (draw path) (post path) id l) in
              let cell := (id, Endpoint.on_qp r) in
              do* each (fun s => on_mem (slice_upd (set_posted (now path) cell) s))
                    (Endpoint.accepted r ++ Endpoint.failed_slice_list r) in
              do* upd_local th (<[path := Endpoint.slice_list r]>) in
              ret (failed ++ Endpoint.failed_slice_list r, taken ++ ((fun s => (s, cell)) <$> Endpoint.accepted r))
      end
  end.

Fixpoint post_entries (paths : list string) (acc : Progress) : P Progress :=
  match paths with [] => ret acc | p :: ps => let* acc := post_entry p acc in post_entries ps acc end.

Fixpoint redispatch_entries (k : nat) (entries : list (string * list nat)) : P unit :=
  match entries with
  | [] => ret tt
  | e :: entries => do* redispatch (desc_of k) rand th e.2 in redispatch_entries (S k) entries
  end.

Definition send_queued : P (list (nat * (nat * nat))) :=
  let* tls := pool_ tl_redispatch_counter in
  let* tl := lift (tls !! th) in
  let* counter := pool_ redispatch_counter_ in
  let* q := local_queue th in
  if tl <? counter then
    do* upd_pool (fun p => set_tl (<[th := counter]> tls) p) in
    do* upd_local th (fun _ => ∅) in
    do* redispatch_entries 0 (iter q) in
    ret []
  else
    let* r := post_entries (fst <$> iter q) ([], []) in
    let '(failed, taken) := r in
    do* each (fun s => on_mem (slice_upd (fun x => set_retry (u32 (retry_cnt x + 1)) x) s)) failed in
    do* redispatch (desc_of 0%nat) rand th failed in
    ret taken.

Definition performPostSend : P (list (nat * (nat * nat))) :=
  do* each collect_shard (stride kShardCount th (workers_per_ctx cfg) kShardCount) in
  send_queued.

End post.

(** ** Completions *)

Section poll.
Context (cfg : GlobalConfig) (th : nat).
(** What [poll] delivers for a completion queue: an error, or slices with
    whether they succeeded. *)
Context (wc : nat -> option (list (nat * bool))).

(** The cells of the completed requests so far, and how many succeeded. *)
Abbreviation Polled := (list (nat * nat) * Z)%type.

Definition complete_slice (acc : Polled) (c : nat * bool) : P Polled :=
  let '(cells, processed) := acc in
  let '(s, ok) := c in
  let* x := on_mem (slice_get s) in
  let* cell := lift (qp_depth x) in
  if (ok : bool) then
    do* on_mem (markSuccess s) in
    do* upd_pool (add_polls 1 0) in
    ret (cells ++ [cell], processed + 1)
  else
    do* count_failure in
    do* on_store (let* _c := EndpointStore.sieve_deleteEndpoint (peer_nic_path x) in ret tt) in
    do* on_mem (slice_upd (fun x => set_retry (u32 (retry_cnt x + 1)) x) s) in
    do* (if max_retry_cnt x <=? u32 (retry_cnt x + 1) then
           do* on_mem (markFailed s) in upd_pool (add_processed 1)
         else
           do* upd_local th (push (peer_nic_path x) s) in
           upd_pool inc_redispatch) in
    ret (cells ++ [cell], processed).

Fixpoint complete_slices (acc : Polled) (cs : list (nat * bool)) : P Polled :=
  match cs with [] => ret acc | c :: cs => let* acc := complete_slice acc c in complete_slices acc cs end.

Fixpoint poll_queues (acc : Polled) (cqs : list nat) : P Polled :=
  match cqs with
  | [] => ret acc
  | cq :: cqs =>
      match wc cq with
      | None => poll_queues acc cqs
      | Some cs =>
          let* acc := complete_slices acc cs in
          do* when (negb (length cs =? 0)%nat) (on_eps (Endpoint.cq_sub cq (Z.of_nat (length cs)))) in
          poll_queues acc cqs
      end
  end.

(** Everything up to the counting of the slices that succeeded. *)
Definition collect_completions : P Z :=
  let* n := gets (fun s => cqCount (ctx s)) in
  let* r := poll_queues ([], 0) (stride n th (workers_per_ctx cfg) n) in
  do* on_eps (Endpoint.sub_cells (map_to_list (Endpoint.qp_depth_set r.1))) in
  ret r.2.

Definition count_processed (processed : Z) : P unit := when (negb (processed =? 0)) (upd_pool (add_processed processed)).

Definition performPollCq : P unit := let* processed := collect_completions in count_processed processed.

End poll.

(** ** The threads *)

(** Whether a worker waits instead of posting and polling. *)
Definition idle (p : WorkerPool) : bool := processed_slice_count_ p =? submitted_slice_count_ p.

Inductive AsyncEvent : Type := QpFatal (id : nat) | ContextFatal | PortActive | OtherEvent.

Definition doProcessContextEvents (now : Z) (event : option AsyncEvent) : P Z :=
  match event with
  | None => ret ERR_CONTEXT
  | Some (QpFatal id) => do* on_eps (Endpoint.set_active id false now) in ret 0
  | Some ContextFatal =>
      do* context_set_active false in
      do* on_store (let* _c := EndpointStore.sieve_disconnectQPs in ret tt) in
      ret 0
  | Some PortActive => do* context_set_active true in ret 0
  | Some OtherEvent => ret 0
  end.

End Worker.
