(* ===== verification/WorkerInv.v ===== *)
(** * WorkerInv: queues of slices, and the invariant of a worker pool

    Module [WkQueues]: the slices of a queue as a list, what the changes of queues do to it, and
    when [RdmaTransport::selectDevice] is defined. *)

From Stdlib Require Import ZArith Lia.
From stdpp Require Import base list gmap strings numbers list_tactics.
From S2P Require Import Prelude Topology TopologyProofs TopologyProps Endpoint Transport Worker EndpointStore EndpointSieve EndpointFlight EndpointJoint TransportProofs.
Import Transport Worker.

Open Scope moon_scope.
Open Scope Z_scope.

Module WkQueues.

(** ** Queues *)

Definition qlist {K} `{Countable K} (q : gmap K (list nat)) : list nat := concat (snd <$> map_to_list q).

Lemma concat_perm {A} (l k : list (list A)) : l ≡ₚ k -> concat l ≡ₚ concat k.
Proof. induction 1; simpl; [done|by f_equiv|by rewrite !app_assoc, (Permutation_app_comm x)|by etrans]. Qed.

Section keys.
Context {K : Type} `{Countable K}.
Implicit Types q : gmap K (list nat).

Lemma iter_qlist (iter : gmap K (list nat) -> list (K * list nat)) q : iter q ≡ₚ map_to_list q -> concat (snd <$> iter q) ≡ₚ qlist q.
Proof. intros HP. apply concat_perm. by rewrite HP. Qed.

Lemma qlist_empty : qlist (∅ : gmap K (list nat)) = [].
Proof. unfold qlist. by rewrite map_to_list_empty. Qed.

Lemma qlist_new q k l : q !! k = None -> qlist (<[k := l]> q) ≡ₚ l ++ qlist q.
Proof. intros Hk. unfold qlist. rewrite (concat_perm _ _ (fmap_Permutation snd _ _ (map_to_list_insert q k l Hk))). done. Qed.

Lemma qlist_delete q k l : q !! k = Some l -> qlist q ≡ₚ l ++ qlist (delete k q).
Proof. intros Hk. rewrite <- (insert_delete_id q k l Hk) at 1. apply qlist_new, lookup_delete_eq. Qed.

(** The queue of a peer, empty if it has none. *)
Definition at_peer (q : gmap K (list nat)) (k : K) : list nat := default [] (q !! k).

Lemma qlist_split q k : qlist q ≡ₚ at_peer q k ++ qlist (delete k q).
Proof. unfold at_peer. destruct (q !! k) as [l|] eqn:E; [by apply qlist_delete|]. by rewrite delete_id. Qed.

Lemma qlist_insert q k l : qlist (<[k := l]> q) ≡ₚ l ++ qlist (delete k q).
Proof. rewrite <- (insert_delete_eq q k). apply qlist_new, lookup_delete_eq. Qed.

Lemma qlist_replace q k l : qlist (<[k := l]> q) ++ at_peer q k ≡ₚ l ++ qlist q.
Proof. rewrite qlist_insert, (qlist_split q k). solve_Permutation. Qed.

End keys.

Lemma qlist_push q k s : qlist (push k s q) ≡ₚ s :: qlist q.
Proof. unfold push. fold (at_peer q k). rewrite qlist_insert, (qlist_split q k). solve_Permutation. Qed.

Lemma qlist_nil (q : SliceQueue) : qlist ((fun _ => []) <$> q) = [].
Proof. unfold qlist. rewrite map_to_list_fmap, <- list_fmap_compose. induction (map_to_list q) as [|e l IH]; [done|]. exact IH. Qed.

Lemma qlist_merge q r : qlist (merge_queues q r) ≡ₚ qlist q ++ qlist r.
Proof.
  induction r as [|k l r Hk IH] using map_ind.
  - rewrite qlist_empty, app_nil_r. unfold merge_queues. by rewrite (right_id_L ∅ (union_with _)).
  - assert (E : merge_queues q (<[k := l]> r) = <[k := at_peer q k ++ l]> (merge_queues q r)).
    { apply map_eq. intros k'. unfold merge_queues, at_peer. rewrite lookup_union_with, !lookup_insert.
      destruct (decide (k = k')) as [<-|]; [by destruct (q !! k)|by rewrite lookup_union_with]. }
    assert (Ep : at_peer (merge_queues q r) k = at_peer q k).
    { unfold at_peer, merge_queues. rewrite lookup_union_with, Hk. by destruct (q !! k). }
    rewrite E. pose proof (qlist_replace (merge_queues q r) k (at_peer q k ++ l)) as H. rewrite Ep, IH in H.
    rewrite (qlist_new r k l Hk). apply (Permutation_app_inv_r (at_peer q k)). rewrite H. solve_Permutation.
Qed.

(** The queues of several shards or threads. *)
Definition qlists (qs : list SliceQueue) : list nat := concat (qlist <$> qs).

Lemma qlists_insert qs i q q' : qs !! i = Some q -> qlists (<[i := q']> qs) ++ qlist q ≡ₚ qlists qs ++ qlist q'.
Proof.
  revert i. unfold qlists. induction qs as [|a qs IH]; intros [|i] H; simplify_eq/=; [solve_Permutation|].
  rewrite <- app_assoc, (IH i H). solve_Permutation.
Qed.

Lemma elem_of_qlists qs i q s : qs !! i = Some q -> s ∈ qlist q -> s ∈ qlists qs.
Proof.
  revert i. unfold qlists. induction qs as [|a qs IH]; intros [|i] H Hs; simplify_eq/=; apply elem_of_app; [by left|right; by eapply IH].
Qed.

Lemma qlists_none n : qlists (replicate n ∅) = [].
Proof. unfold qlists. induction n as [|n IH]; [done|]. cbn [replicate fmap list_fmap concat]. by rewrite qlist_empty, IH. Qed.

(** The slices waiting in a pool. *)
Definition places (p : WorkerPool) : list nat := qlists (slice_queue_ p) ++ qlists (collective_slice_queue_ p).

(** ** Selection *)

(** The topology selects devices that exist, and every buffer has keys for them. *)
Record DescOk (d : SegmentDesc) : Prop := {
  do_select : forall rand location hint r, - 2 ^ 31 < r < 2 ^ 31 ->
    exists i, topology_select rand location hint r (sd_topology d) = Some i /\ (i < 0 \/ i < Z.of_nat (length (sd_devices d)));
  do_keys : Forall (fun b => length (b_rkey b) = length (sd_devices d) /\ length (b_lkey b) = length (sd_devices d)) (sd_buffers d);
}.

(** What a successful selection means. *)
Definition Selected (d : SegmentDesc) (offset length buffer_id device_id : Z) : Prop :=
  exists b rkey lkey dev, aget (sd_buffers d) buffer_id = Some b /\ covers b offset length = true /\
    aget (b_rkey b) device_id = Some rkey /\ aget (b_lkey b) device_id = Some lkey /\ aget (sd_devices d) device_id = Some dev.

Lemma select_from_ok d rand hint offset length r : DescOk d -> - 2 ^ 31 < r < 2 ^ 31 ->
  forall bs i dev, (forall j b, bs !! j = Some b -> sd_buffers d !! (i + j)%nat = Some b) ->
  exists rc bi di, select_from rand (sd_topology d) hint offset length r i bs dev = Some (rc, bi, di) /\
    (rc = 0 \/ rc = ERR_ADDRESS_NOT_REGISTERED) /\ (rc = 0 -> Selected d offset length bi di).
Proof.
  intros [HS HK] Hr. induction bs as [|b bs IH]; intros i dev Hbs.
  { do 3 eexists. split; [reflexivity|]. split; [by right|]. unfold ERR_ADDRESS_NOT_REGISTERED. lia. }
  assert (Hb : sd_buffers d !! i = Some b) by (rewrite <- (Nat.add_0_r i); by apply (Hbs 0%nat)).
  assert (Hrest : forall j b, bs !! j = Some b -> sd_buffers d !! (S i + j)%nat = Some b).
  { intros j b' Hj. rewrite Nat.add_succ_comm. by apply (Hbs (S j)). }
  cbn [select_from]. destruct (covers b offset length) eqn:Ec; cbn [negb]; [|by apply IH].
  assert (Hsel : forall x, 0 <= x -> x < Z.of_nat (List.length (sd_devices d)) -> Selected d offset length (Z.of_nat i) x).
  { intros x H0 Hx. rewrite Forall_forall in HK. destruct (HK b) as [Lr Ll]; [by eapply list_elem_of_lookup_2|].
    destruct (aget_range (b_rkey b) x) as [rk ?]; [lia|]. destruct (aget_range (b_lkey b) x) as [lk ?]; [lia|].
    destruct (aget_range (sd_devices d) x) as [dv ?]; [lia|]. exists b, rk, lk, dv. split_and!; try done.
    unfold aget. by rewrite (proj2 (Z.leb_le 0 _)), Nat2Z.id by lia. }
  destruct (HS (rand i false) (b_name b) hint r Hr) as (x & -> & Hx).
  destruct (Z.leb_spec 0 x).
  { do 3 eexists. split; [reflexivity|]. split; [by left|]. intros _. apply Hsel; lia. }
  destruct (HS (rand i true) Topology.kWildcardLocation hint r Hr) as (y & -> & Hy).
  destruct (Z.leb_spec 0 y); [|by apply IH].
  do 3 eexists. split; [reflexivity|]. split; [by left|]. intros _. apply Hsel; lia.
Qed.

Lemma selectDevice_ok rand desc offset length hint bi di r : (forall d, desc = Some d -> DescOk d) -> - 2 ^ 31 < r < 2 ^ 31 ->
  exists rc bi' di', selectDevice rand desc offset length hint bi di r = Some (rc, bi', di') /\
    (rc = 0 \/ rc = ERR_ADDRESS_NOT_REGISTERED) /\ (rc = 0 -> exists d, desc = Some d /\ Selected d offset length bi' di').
Proof.
  intros Hd Hr. destruct desc as [d|].
  - destruct (select_from_ok d rand hint offset length r (Hd d eq_refl) Hr (sd_buffers d) 0 di) as (rc & b & x & E & H1 & H2); [done|].
    exists rc, b, x. split; [done|]. split; [done|]. intros Hz. exists d. auto.
  - do 3 eexists. split; [reflexivity|]. split; [by right|]. unfold ERR_ADDRESS_NOT_REGISTERED. lia.
Qed.

End WkQueues.

(** ** The invariant of a worker pool

    Every slice given to a pool is in exactly one place: in the hands of a
    thread, in a queue, in flight, or lost to a connection that was torn down;
    and the counters of submitted and processed slices differ by the number
    of those. *)

Import EpSieveOps EpFlight EpJoint TrProofs WkQueues.
Import Transport Worker.

Module WkInv.

(** ** Running parts of a program *)

Lemma on_mem_runs {A} (c : M A) st Q : runs c (mem st) (fun a m => Q a (mkState m (ctx st) (failed_target_ids st))) -> runs (on_mem c) st Q.
Proof. unfold runs, on_mem. by destruct (c (mem st)) as [[a m]|]. Qed.

Definition with_eps (st : Pool) (s : EndpointStore.SIEVE) (w : Endpoint.World) : Pool :=
  mkState (mem st) (mkContext (device_name_ (ctx st)) (ctx_active (ctx st)) (cqCount (ctx st)) (worker_pool_ (ctx st)) s w) (failed_target_ids st).

Lemma on_store_runs {A} (c : ST (EndpointStore.SIEVE * Endpoint.World) A) st Q :
  runs c (endpoint_store_ (ctx st), world (ctx st)) (fun a p => Q a (with_eps st p.1 p.2)) -> runs (on_store c) st Q.
Proof. unfold runs, on_store. by destruct (c _) as [[a [s w]]|]. Qed.

Definition with_pool (st : Pool) (p : WorkerPool) : Pool :=
  mkState (mem st) (mkContext (device_name_ (ctx st)) (ctx_active (ctx st)) (cqCount (ctx st)) p (endpoint_store_ (ctx st)) (world (ctx st))) (failed_target_ids st).

Lemma upd_pool_runs f st (Q : unit -> Pool -> Prop) : Q tt (with_pool st (f (worker_pool_ (ctx st)))) -> runs (upd_pool f) st Q.
Proof. done. Qed.

Definition with_mem (st : Pool) (m : Mem) : Pool := mkState m (ctx st) (failed_target_ids st).

Lemma slice_get_runs {B} s x st (k : Slice -> P B) Q : slices (mem st) !! s = Some x -> runs (k x) st Q -> runs (bind (on_mem (slice_get s)) k) st Q.
Proof. intros Hx H. apply runs_bind, on_mem_runs. apply (runs_eq _ _ x (mem st)); [unfold slice_get; by rewrite Hx|]. by destruct st. Qed.

(** ** The invariant *)

Section inv.
(** What is known of the endpoints and the requests in flight. *)
Context (J : EndpointStore.SIEVE -> Endpoint.World -> flight -> Prop) (workers : nat).

Record PoolWf (p : WorkerPool) : Prop := {
  pw_shards : length (slice_queue_ p) = kShardCount;
  pw_counts : slice_queue_count_ p = (fun q => u64 (Z.of_nat (length (qlist q)))) <$> slice_queue_ p;
  pw_locals : length (collective_slice_queue_ p) = workers;
  pw_tl : length (tl_redispatch_counter p) = workers;
  pw_submitted : 0 <= submitted_slice_count_ p < 2 ^ 64;
  pw_processed : 0 <= processed_slice_count_ p < 2 ^ 64;
}.

Definition live (st : Pool) (fl : flight) (hand lost : list nat) : list nat :=
  hand ++ places (worker_pool_ (ctx st)) ++ fl.*1 ++ lost.

(** A slice on its way: its task exists and it has no outcome yet. *)
Definition OnWay (m : Mem) (s : nat) : Prop :=
  exists x, slices m !! s = Some x /\ is_Some (tasks m !! sl_task x) /\ fin x = None /\
    0 <= retry_cnt x <= max_retry_cnt x /\ max_retry_cnt x < 2 ^ 31.

(** It may be tried again. *)
Definition Fresh (m : Mem) (l : list nat) : Prop := forall s x, s ∈ l -> slices m !! s = Some x -> retry_cnt x < max_retry_cnt x.

(** [n] slices were given to the pool and are not counted as submitted yet. *)
Record PInv (st : Pool) (fl : flight) (hand lost : list nat) (n : Z) : Prop := {
  pi_joint : J (endpoint_store_ (ctx st)) (world (ctx st)) fl;
  pi_pool : PoolWf (worker_pool_ (ctx st));
  pi_nodup : NoDup (live st fl hand lost);
  pi_live : forall s, s ∈ live st fl hand lost -> OnWay (mem st) s;
  pi_fresh : Fresh (mem st) (places (worker_pool_ (ctx st)) ++ fl.*1 ++ lost);
  pi_flight : forall s c x, (s, c) ∈ fl -> slices (mem st) !! s = Some x -> qp_depth x = Some c;
  pi_ranged : AllRanged (mem st);
  pi_count : u64 (submitted_slice_count_ (worker_pool_ (ctx st)) + n) =
    u64 (processed_slice_count_ (worker_pool_ (ctx st)) + Z.of_nat (length (live st fl hand lost)));
}.

(** Attempts and counter pointers of slices stay as they are. *)
Definition Steady (m m' : Mem) : Prop := forall s x', slices m' !! s = Some x' ->
  exists x, slices m !! s = Some x /\ retry_cnt x' = retry_cnt x /\ qp_depth x' = qp_depth x /\ max_retry_cnt x' = max_retry_cnt x.

Lemma steady_refl m : Steady m m.
Proof. intros s x Hx. by exists x. Qed.
Lemma steady_trans m m' m'' : Steady m m' -> Steady m' m'' -> Steady m m''.
Proof. intros H H' s x'' Hx. destruct (H' s x'' Hx) as (x' & Hx' & -> & -> & ->). by apply H. Qed.

Lemma steady_insert m s x x' m' : slices m !! s = Some x -> slices m' = <[s := x']> (slices m) ->
  retry_cnt x' = retry_cnt x -> qp_depth x' = qp_depth x -> max_retry_cnt x' = max_retry_cnt x -> Steady m m'.
Proof.
  intros Hx E H1 H2 H3 s' y. rewrite E, lookup_insert. case_decide as D; [intros [= <-]; subst; by exists x|intros Hy; by exists y].
Qed.

Lemma fresh_steady m m' l : Steady m m' -> Fresh m l -> Fresh m' l.
Proof. intros S F s x' Hs Hx'. destruct (S s x' Hx') as (x & Hx & -> & _ & ->). by apply (F s). Qed.
Lemma fresh_sub m l k : (forall s, s ∈ k -> s ∈ l) -> Fresh m l -> Fresh m k.
Proof. intros H F s x Hs. apply F. by apply H. Qed.
Lemma fresh_app m l k : Fresh m (l ++ k) <-> Fresh m l /\ Fresh m k.
Proof. unfold Fresh. setoid_rewrite elem_of_app. naive_solver. Qed.

(** Slices on their way, after others got an outcome. *)
Lemma on_way_evolves m m' S F l l' : Evolves m m' S F -> AllRanged m -> NoDup l -> l' ++ S ++ F ≡ₚ l -> (forall s, s ∈ l -> OnWay m s) ->
  (forall s x', s ∈ l' -> slices m' !! s = Some x' -> 0 <= retry_cnt x' <= max_retry_cnt x') -> forall s, s ∈ l' -> OnWay m' s.
Proof.
  intros E R ND HP Hl Hr s Hs. rewrite <- HP in ND. apply list.NoDup_app in ND as (_ & Hd & _).
  destruct (Hl s) as (x & Hx & Ht & Hf & _ & Hm); [rewrite <- HP; apply elem_of_app; by left|].
  destruct (ev_slice _ _ _ _ s x E Hx) as (x' & Hx' & Hc). exists x'. unfold core in Hc. simplify_eq. split_and!; try done.
  - apply (ev_task _ _ _ _ _ E R). congruence.
  - pose proof (ev_fin _ _ _ _ E s) as Hfin. rewrite decide_False in Hfin by (by apply Hd). rewrite Hx, Hx' in Hfin. simpl in Hfin. congruence.
  - by apply (Hr s x').
  - by apply (Hr s x').
  - congruence.
Qed.

(** One step of a pool. *)
Lemma pinv_step st fl hand lost n st' fl' hand' lost' n' S F : PInv st fl hand lost n ->
  J (endpoint_store_ (ctx st')) (world (ctx st')) fl' -> PoolWf (worker_pool_ (ctx st')) ->
  Evolves (mem st) (mem st') S F -> live st' fl' hand' lost' ++ S ++ F ≡ₚ live st fl hand lost ->
  (forall s x', s ∈ live st' fl' hand' lost' -> slices (mem st') !! s = Some x' -> 0 <= retry_cnt x' <= max_retry_cnt x') ->
  Fresh (mem st') (places (worker_pool_ (ctx st')) ++ fl'.*1 ++ lost') ->
  (forall s c x, (s, c) ∈ fl' -> slices (mem st') !! s = Some x -> qp_depth x = Some c) ->
  u64 (submitted_slice_count_ (worker_pool_ (ctx st')) + n') =
    u64 (processed_slice_count_ (worker_pool_ (ctx st')) + Z.of_nat (length (live st' fl' hand' lost'))) ->
  PInv st' fl' hand' lost' n'.
Proof.
  intros I HJ HW E HP Hr HF Hfl Hc. split; try done.
  - pose proof (pi_nodup _ _ _ _ _ I) as ND. rewrite <- HP in ND. by apply list.NoDup_app in ND as (? & _).
  - eapply on_way_evolves; [done|apply I|apply (pi_nodup _ _ _ _ _ I)|done|apply I|done].
  - eapply ev_ranged; [done|apply I].
Qed.

Lemma steady_range st fl hand lost n m' : PInv st fl hand lost n -> Steady (mem st) m' ->
  forall s x', s ∈ live st fl hand lost -> slices m' !! s = Some x' -> 0 <= retry_cnt x' <= max_retry_cnt x'.
Proof.
  intros I HS s x' Hs Hx'. destruct (HS s x' Hx') as (x & Hx & -> & _ & ->).
  destruct (pi_live _ _ _ _ _ I s Hs) as (y & Hy & _ & _ & ? & _). by simplify_eq.
Qed.

(** The counters after [length S + length F] slices got an outcome, [d] of which
    were counted as processed. *)
Lemma count_step a b n l l' k d : u64 (a + n) = u64 (b + l) -> l = l' + k -> u64 (a + (n - (k - d))) = u64 (u64 (b + d) + l').
Proof.
  intros H ->. rewrite u64_add. unfold u64 in *.
  replace (a + (n - (k - d))) with (a + n - (k - d)) by lia. rewrite Zminus_mod, H, <- Zminus_mod. f_equal. lia.
Qed.

(** A step that leaves attempts and the device alone, with the pool changed to [p]. *)
Lemma pinv_steady st fl hand lost n m' p hand' S F d :
  PInv st fl hand lost n -> PoolWf p -> Evolves (mem st) m' S F -> Steady (mem st) m' ->
  hand' ++ places p ++ S ++ F ≡ₚ hand ++ places (worker_pool_ (ctx st)) ->
  (forall s, s ∈ places p -> s ∈ places (worker_pool_ (ctx st)) \/ Fresh (mem st) [s]) ->
  submitted_slice_count_ p = submitted_slice_count_ (worker_pool_ (ctx st)) ->
  processed_slice_count_ p = u64 (processed_slice_count_ (worker_pool_ (ctx st)) + d) ->
  PInv (with_pool (with_mem st m') p) fl hand' lost (n - (Z.of_nat (length (S ++ F)) - d)) /\
    live (with_pool (with_mem st m') p) fl hand' lost ++ S ++ F ≡ₚ live st fl hand lost.
Proof.
  intros I HW E HS HP Hpl Hsub Hproc.
  assert (HL : live (with_pool (with_mem st m') p) fl hand' lost ++ S ++ F ≡ₚ live st fl hand lost).
  { unfold live. cbn. transitivity ((hand' ++ places p ++ S ++ F) ++ fl.*1 ++ lost); [solve_Permutation|]. rewrite HP. solve_Permutation. }
  split; [|done]. eapply (pinv_step st fl hand lost n); [done|apply I|done|exact E|exact HL|..].
  - intros s x' Hs Hx'. eapply (steady_range st fl hand lost n m' I HS); [|done]. rewrite <- HL. apply elem_of_app. by left.
  - cbn. eapply fresh_steady; [exact HS|]. intros s x Hs Hx. apply elem_of_app in Hs as [Hs|Hs].
    + destruct (Hpl s Hs) as [Hs'|Hs']; [apply (pi_fresh _ _ _ _ _ I s); [apply elem_of_app; by left|done]|apply (Hs' s); [left|done]].
    + apply (pi_fresh _ _ _ _ _ I s); [apply elem_of_app; by right|done].
  - intros s c x' Hs Hx'. destruct (HS s x' Hx') as (x & Hx & _ & -> & _). by apply (pi_flight _ _ _ _ _ I s).
  - cbn. rewrite Hsub, Hproc. eapply count_step; [apply I|]. rewrite <- HL, !length_app. lia.
Qed.

(** Rearranging the hands. *)
Lemma pinv_hand st fl hand hand' lost n : hand ≡ₚ hand' -> PInv st fl hand lost n -> PInv st fl hand' lost n.
Proof.
  intros HP [? ? ND HL ? ? ? HC].
  assert (Hl : live st fl hand' lost ≡ₚ live st fl hand lost) by (unfold live; by rewrite HP).
  split; try done.
  - by rewrite Hl.
  - intros s Hs. apply HL. by rewrite <- Hl.
  - by rewrite (Permutation_length Hl).
Qed.

(** Slices come into the hands of a thread. *)
Lemma pinv_take st fl hand lost n ss : PInv st fl hand lost n -> NoDup ss -> (forall s, s ∈ ss -> OnWay (mem st) s /\ s ∉ live st fl hand lost) ->
  PInv st fl (ss ++ hand) lost (n + Z.of_nat (length ss)).
Proof.
  intros [? ? ND HL ? ? ? HC] NS Hs.
  assert (El : live st fl (ss ++ hand) lost = ss ++ live st fl hand lost) by (unfold live; by rewrite <- app_assoc).
  split; try done.
  - rewrite El. apply list.NoDup_app. split; [done|]. split; [|done]. intros s Hin. by apply Hs.
  - intros s. rewrite El. intros [Hin|Hin]%elem_of_app; [by apply Hs|by apply HL].
  - rewrite El, length_app, Nat2Z.inj_add, !Z.add_assoc. unfold u64 in *. rewrite <- Zplus_mod_idemp_l, HC, Zplus_mod_idemp_l. f_equal. lia.
Qed.

(** The invariant is about the heap and the context. *)
Lemma pinv_ext st st' fl hand lost n : mem st' = mem st -> ctx st' = ctx st -> PInv st fl hand lost n -> PInv st' fl hand lost n.
Proof. intros Em Ec [? ? ? ? ? ? ? ?]. split; unfold live in *; rewrite ?Em, ?Ec in *; done. Qed.

(** ** Steps with their effect on slices *)

Record Goes (st : Pool) (fl : flight) (hand lost : list nat) (st' : Pool) (fl' : flight) (hand' lost' : list nat) (n' : Z) (S F : list nat) : Prop := {
  go_inv : PInv st' fl' hand' lost' n';
  go_evolves : Evolves (mem st) (mem st') S F;
  go_live : live st' fl' hand' lost' ++ S ++ F ≡ₚ live st fl hand lost;
}.

Lemma goes_refl st fl hand lost n : PInv st fl hand lost n -> Goes st fl hand lost st fl hand lost n [] [].
Proof. intros I. split; [done|apply ev_refl|by rewrite !app_nil_r]. Qed.

Lemma goes_trans st fl hand lost st1 fl1 hand1 lost1 n1 S F st2 fl2 hand2 lost2 n2 S' F' :
  Goes st fl hand lost st1 fl1 hand1 lost1 n1 S F -> Goes st1 fl1 hand1 lost1 st2 fl2 hand2 lost2 n2 S' F' ->
  Goes st fl hand lost st2 fl2 hand2 lost2 n2 (S ++ S') (F ++ F').
Proof.
  intros [I E L] [I' E' L']. split; [done|by eapply ev_trans|]. rewrite <- L, <- L'. solve_Permutation.
Qed.

Lemma goes_hand st fl hand hand0 lost st' fl' hand' hand1 lost' n' S F : hand ≡ₚ hand0 -> hand' ≡ₚ hand1 ->
  Goes st fl hand lost st' fl' hand' lost' n' S F -> Goes st fl hand0 lost st' fl' hand1 lost' n' S F.
Proof.
  intros H H' [I E L]. split; [by eapply pinv_hand|done|]. unfold live in *. by rewrite <- H, <- H'.
Qed.

Lemma goes_ext st fl hand lost st' st'' fl' hand' lost' n' S F : mem st'' = mem st' -> ctx st'' = ctx st' ->
  Goes st fl hand lost st' fl' hand' lost' n' S F -> Goes st fl hand lost st'' fl' hand' lost' n' S F.
Proof. intros Em Ec [I E L]. split; [by eapply pinv_ext|by rewrite Em|]. unfold live in *. by rewrite Ec. Qed.

(** *** Slices in hand *)

(** A slice in hand gets its outcome. *)
Lemma mark_goes (ok : bool) st fl s hand lost n : PInv st fl (s :: hand) lost n ->
  runs (if ok then markSuccess s else markFailed s) (mem st) (fun _ m' =>
    Goes st fl (s :: hand) lost (with_mem st m') fl hand lost (n - 1) (if ok then [s] else []) (if ok then [] else [s]) /\ Steady (mem st) m').
Proof.
  intros I. destruct (pi_live _ _ _ _ _ I s) as (x & Hx & [t Ht] & Hf & _); [left|].
  eapply runs_mono; [apply (mark_ev ok (mem st) s x t Hx Ht)|]. intros [] m' [Es E].
  assert (HS : Steady (mem st) m') by (by eapply steady_insert).
  assert (Eo : (if ok then [s] else []) ++ (if ok then [] else [s]) = [s]) by (by destruct ok).
  destruct (pinv_steady st fl (s :: hand) lost n m' (worker_pool_ (ctx st)) hand _ _ 0 I (pi_pool _ _ _ _ _ I) E HS) as [I' L]; try done.
  - rewrite Eo. solve_Permutation.
  - intros s' Hs'. by left.
  - rewrite Z.add_0_r, u64_small; [done|apply (pi_pool _ _ _ _ _ I)].
  - rewrite Eo in I'. assert (Ex : with_pool (with_mem st m') (worker_pool_ (ctx st)) = with_mem st m') by (by destruct st as [? [] ?]).
    rewrite Ex in *. done.
Qed.

(** A slice in hand is changed without an outcome. *)
Lemma change_goes st fl s hand lost n f : PInv st fl hand lost n -> s ∈ hand ->
  (forall x, core (f x) = core x /\ fin (f x) = fin x /\ retry_cnt (f x) = retry_cnt x /\ qp_depth (f x) = qp_depth x) ->
  runs (slice_upd f s) (mem st) (fun _ m' => Goes st fl hand lost (with_mem st m') fl hand lost n [] [] /\ Steady (mem st) m').
Proof.
  intros I Hs Hf. destruct (pi_live _ _ _ _ _ I s) as (x & Hx & _); [unfold live; rewrite elem_of_app; by left|].
  destruct (Hf x) as (Hc & Hfin & Hr & Hq). eapply runs_mono; [by apply (ev_upd (mem st) s x f Hx)|]. intros [] m' [Es E].
  assert (HS : Steady (mem st) m').
  { eapply steady_insert; [done|by rewrite Es|done|done|]. unfold core in Hc. simplify_eq. congruence. }
  destruct (pinv_steady st fl hand lost n m' (worker_pool_ (ctx st)) hand [] [] 0 I) as [I' L]; try done.
  - apply I.
  - by rewrite app_nil_r.
  - intros s' Hs'. by left.
  - rewrite Z.add_0_r, u64_small; [done|apply (pi_pool _ _ _ _ _ I)].
  - cbn [length app Z.of_nat] in I'. assert (Ex : with_pool (with_mem st m') (worker_pool_ (ctx st)) = with_mem st m') by (by destruct st as [? [] ?]).
    rewrite Ex in *. rewrite !Z.sub_0_r in I'. done.
Qed.

(** *** Queues *)

Lemma wf_locals p i q q' : PoolWf p -> collective_slice_queue_ p !! i = Some q ->
  PoolWf (set_locals (<[i := q']> (collective_slice_queue_ p)) p) /\
  places (set_locals (<[i := q']> (collective_slice_queue_ p)) p) ++ qlist q ≡ₚ places p ++ qlist q'.
Proof.
  intros [H1 H2 H3 H4 H5 H6] Hq. split; [split; try done; cbn; by rewrite length_insert|]. unfold places. cbn.
  rewrite <- !app_assoc, (qlists_insert _ i q q' Hq). done.
Qed.

Lemma wf_shards p i q q' ns : PoolWf p -> slice_queue_ p !! i = Some q -> ns = <[i := u64 (Z.of_nat (length (qlist q')))]> (slice_queue_count_ p) ->
  PoolWf (set_shards (<[i := q']> (slice_queue_ p)) ns p) /\
  places (set_shards (<[i := q']> (slice_queue_ p)) ns p) ++ qlist q ≡ₚ places p ++ qlist q'.
Proof.
  intros [H1 H2 H3 H4 H5 H6] Hq ->. split; [split; try done; cbn; [by rewrite length_insert|by rewrite H2, list_fmap_insert]|]. unfold places. cbn.
  pose proof (qlists_insert _ i q q' Hq) as HP. transitivity ((qlists (<[i := q']> (slice_queue_ p)) ++ qlist q) ++ qlists (collective_slice_queue_ p)); [solve_Permutation|].
  rewrite HP. solve_Permutation.
Qed.

Lemma local_queue_runs {B} th q st (k : SliceQueue -> P B) Q : collective_slice_queue_ (worker_pool_ (ctx st)) !! th = Some q -> runs (k q) st Q ->
  runs (bind (local_queue th) k) st Q.
Proof. intros Hq H. unfold runs, bind, local_queue, pool_, gets, lift in *. unfold bind. by rewrite Hq. Qed.

(** A change of a thread's queue that takes slices out of hands or puts them there. *)
Lemma local_goes st fl hand hand' lost n th q f : PInv st fl hand lost n -> collective_slice_queue_ (worker_pool_ (ctx st)) !! th = Some q ->
  hand' ++ qlist (f q) ≡ₚ hand ++ qlist q -> (forall s, s ∈ qlist (f q) -> s ∈ qlist q \/ Fresh (mem st) [s]) ->
  runs (upd_local th f) st (fun _ st' => Goes st fl hand lost st' fl hand' lost n [] [] /\ mem st' = mem st).
Proof.
  intros I Hq HP Hf. unfold upd_local. apply (local_queue_runs th q _ _ _ Hq). apply upd_pool_runs.
  destruct (wf_locals _ th q (f q) (pi_pool _ _ _ _ _ I) Hq) as [HW HPl]. set (p := set_locals _ _) in *.
  assert (HQ : hand' ++ places p ≡ₚ hand ++ places (worker_pool_ (ctx st))).
  { apply (Permutation_app_inv_r (qlist q)). rewrite <- !app_assoc, HPl.
    transitivity ((hand' ++ qlist (f q)) ++ places (worker_pool_ (ctx st))); [solve_Permutation|]. rewrite HP. solve_Permutation. }
  destruct (pinv_steady st fl hand lost n (mem st) p hand' [] [] 0 I HW (ev_refl _) (steady_refl _)) as [I' L]; try done.
  - by rewrite app_nil_r.
  - intros s Hs. assert (Hin : s ∈ places p ++ qlist q) by (apply elem_of_app; by left). rewrite HPl in Hin.
    apply elem_of_app in Hin as [Hin|Hin]; [by left|]. destruct (Hf s Hin) as [Hin'|Hin']; [|by right]. left.
    unfold places. apply elem_of_app. right. by eapply elem_of_qlists.
  - cbn. rewrite Z.add_0_r, u64_small; [done|apply (pi_pool _ _ _ _ _ I)].
  - cbn [length app Z.of_nat] in I'. assert (Ex : with_pool (with_mem st (mem st)) p = with_pool st p) by (by destruct st).
    rewrite Ex, !Z.sub_0_r in *. split; [|done]. split; [done|apply ev_refl|done].
Qed.

End inv.
End WkInv.
