(* ===== verification/WorkerSubmit.v ===== *)
(** * WorkerSubmit: giving slices to a pool

    Routing a slice either marks it failed or keeps it in hand; filling a
    shard moves the slices in hand to its queue; [redispatch] moves slices in
    hand to the queue of a thread or marks them failed. *)

From Stdlib Require Import ZArith Lia.
From stdpp Require Import base list gmap strings numbers list_tactics.
From S2P Require Import Prelude Topology Endpoint EndpointStore EndpointInv EndpointSieve EndpointFlight Transport EndpointJoint TransportProofs Worker WorkerInv.
Import EpSieveOps EpFlight EpJoint TrProofs WkQueues WkInv.
Import Transport Worker.

Open Scope moon_scope.
Open Scope Z_scope.

Module WkSubmit.

Section pool.
Context (J : EndpointStore.SIEVE -> Endpoint.World -> flight -> Prop) (workers : nat).
Abbreviation PInv := (PInv J workers).
Abbreviation Goes := (Goes J workers).

Lemma goes_from st st0 fl hand lost st' fl' hand' lost' n' S F : mem st0 = mem st -> ctx st0 = ctx st ->
  Goes st0 fl hand lost st' fl' hand' lost' n' S F -> Goes st fl hand lost st' fl' hand' lost' n' S F.
Proof. intros Em Ec [I E L]. split; [done|by rewrite <- Em|]. rewrite L. unfold live. by rewrite Ec. Qed.

(** What routing and marking leave alone. *)
Definition Quiet (st st' : Pool) : Prop := Steady (mem st) (mem st') /\ ctx st' = ctx st.

Lemma wk_quiet_refl st : Quiet st st.
Proof. split; [apply steady_refl|done]. Qed.
Lemma wk_quiet_trans st st' st'' : Quiet st st' -> Quiet st' st'' -> Quiet st st''.
Proof. intros [S E] [S' E']. split; [by eapply steady_trans|congruence]. Qed.

Lemma fail_runs st fl s hand lost n : PInv st fl (s :: hand) lost n ->
  runs (on_mem (markFailed s)) st (fun _ st' => Goes st fl (s :: hand) lost st' fl hand lost (n - 1) [] [s] /\ Quiet st st').
Proof.
  intros I. apply on_mem_runs. eapply runs_mono; [by apply (mark_goes J workers false)|]. intros [] m' [G S]. split; [exact G|]. by split.
Qed.

Lemma route_runs st fl s hand lost n rkey path : PInv st fl hand lost n -> s ∈ hand ->
  runs (on_mem (slice_upd (set_route rkey path) s)) st (fun _ st' => Goes st fl hand lost st' fl hand lost n [] [] /\ Quiet st st').
Proof.
  intros I Hs. apply on_mem_runs. eapply runs_mono; [by apply (change_goes J workers st fl s hand lost n)|]. intros [] m' [G S]. split; [exact G|]. by split.
Qed.

(** ** Routing *)

Definition DescsOk (descs : gmap Z (option SegmentDesc)) : Prop := forall id d, descs !! id = Some (Some d) -> DescOk d.

Lemma default_desc descs id d : DescsOk descs -> default None (descs !! id) = Some d -> DescOk d.
Proof. intros H. destruct (descs !! id) as [o|] eqn:E; [|done]. simpl. intros ->. by eapply H. Qed.

Section submit.
Context (cfg : GlobalConfig) (desc_of : Z -> option SegmentDesc) (reload : nat -> option SegmentDesc).
Context (rand rand2 : nat -> nat -> bool -> Z) (now now_failed : nat -> Z) (th : nat).
Context (Hdesc : forall id d, desc_of id = Some d -> DescOk d) (Hreload : forall s d, reload s = Some d -> DescOk d).

(** The answer of [route_slice]: the slice has failed, or it is routed. *)
Definition Routed (st : Pool) (fl : flight) (s : nat) (hand lost : list nat) (n : Z) (r : option nat * gmap Z (option SegmentDesc)) (st' : Pool) : Prop :=
  DescsOk r.2 /\ Quiet st st' /\
  match r.1 with
  | None => Goes st fl (s :: hand) lost st' fl hand lost (n - 1) [] [s]
  | Some shard => (shard < kShardCount)%nat /\ Goes st fl (s :: hand) lost st' fl (s :: hand) lost n [] []
  end.

Lemma fail_routed st fl s hand lost n descs : PInv st fl (s :: hand) lost n -> DescsOk descs ->
  runs (do* on_mem (markFailed s) in ret (None, descs)) st (Routed st fl s hand lost n).
Proof. intros I HD. apply runs_bind. eapply runs_mono; [by apply fail_runs|]. intros [] st' [G Q]. apply runs_ret. by split_and!. Qed.

(** The slice gets its route. *)
Lemma commit_routed st fl s hand lost n x descs d bi di : PInv st fl (s :: hand) lost n -> DescsOk descs ->
  default None (descs !! sl_target_id x) = Some d -> Selected d (dest_addr x) (sl_length x) bi di ->
  runs (match default None (descs !! sl_target_id x) with
        | None => do* on_mem (markFailed s) in ret (None, descs)
        | Some d =>
            let* b := lift (aget (sd_buffers d) bi) in
            let* rkey := lift (aget (b_rkey b) di) in
            let* dev := lift (aget (sd_devices d) di) in
            do* on_mem (slice_upd (set_route rkey (MakeNicPath (sd_name d) (d_name dev))) s) in
            ret (Some (Z.to_nat (u64 (u64 (sl_target_id x * 10007) + di) mod Z.of_nat kShardCount)), descs)
        end) st (Routed st fl s hand lost n).
Proof.
  intros I HD -> (b & rkey & lkey & dev & Hb & _ & Hr & _ & Hd).
  apply (runs_lift _ _ _ b _ Hb). apply (runs_lift _ _ _ rkey _ Hr). apply (runs_lift _ _ _ dev _ Hd). apply runs_bind.
  eapply runs_mono; [by apply (route_runs st fl s (s :: hand) lost n); [|left]|]. intros [] st' [G Q]. apply runs_ret. split_and!; try done.
  cbn [fst]. split; [|done]. change (Z.of_nat kShardCount) with 8. generalize (u64 (u64 (sl_target_id x * 10007) + di)). intros a.
  unfold kShardCount. pose proof (Z.mod_pos_bound a 8). lia.
Qed.

Lemma routed_from st st0 fl s hand lost n r st' : mem st0 = mem st -> ctx st0 = ctx st -> Routed st0 fl s hand lost n r st' -> Routed st fl s hand lost n r st'.
Proof.
  intros Em Ec (HD & [HS Hc] & H). rewrite Em, Ec in *. split; [done|]. split; [by split|].
  destruct r.1; [destruct H as [? H]; split; [done|]|]; by eapply goes_from.
Qed.

Lemma route_slice_ok descs st fl s hand lost n : PInv st fl (s :: hand) lost n -> DescsOk descs ->
  runs (route_slice cfg reload rand rand2 now now_failed th descs s) st (Routed st fl s hand lost n).
Proof.
  intros I HD. destruct (pi_live _ _ _ _ _ _ _ I s) as (x & Hx & _); [left|].
  unfold route_slice. apply (slice_get_runs s x _ _ _ Hx). apply runs_gets. set (failed := default ∅ (failed_target_ids st !! th)).
  destruct (match failed !! target_key x with Some ts => u64 (now s - ts) <? 100000000 | None => false end); [by apply fail_routed|].
  set (st0 := if bool_decide (is_Some (failed !! target_key x)) then mkState (mem st) (ctx st) (<[th := delete (target_key x) failed]> (failed_target_ids st)) else st).
  assert (E0 : mem st0 = mem st /\ ctx st0 = ctx st) by (unfold st0; by destruct (bool_decide _)). destruct E0 as [Em Ec].
  apply runs_bind. apply (runs_eq _ _ tt st0). { unfold st0. by destruct (bool_decide _). }
  assert (I0 : PInv st0 fl (s :: hand) lost n) by (by eapply pinv_ext).
  eapply runs_mono; [|intros r st'; by apply (routed_from st st0)].
  clearbody st0. clear st I Hx Em Ec failed. rename st0 into st, I0 into I.
  apply runs_gets. set (hint := if enable_dest_device_affinity cfg then _ else _).
  destruct (selectDevice_ok (rand s) (default None (descs !! sl_target_id x)) (dest_addr x) (sl_length x) hint 0 0 0) as (rc & bi & di & E & Hrc & Hsel).
  { intros d Hd. by eapply default_desc. } { lia. }
  apply (runs_lift _ _ _ _ _ E). cbn [fst snd]. destruct (Z.eqb_spec rc 0) as [Hz|Hz].
  - apply runs_bind, runs_ret. destruct (Hsel Hz) as (d & Hd & HS). by apply (commit_routed st fl s hand lost n x descs d bi di).
  - assert (HD' : DescsOk (<[sl_target_id x := reload s]> descs)).
    { intros id d. rewrite lookup_insert. case_decide; [|apply HD]. intros [= Hd]. by eapply Hreload. }
    destruct (reload s) as [d|] eqn:Er.
    + destruct (selectDevice_ok (rand2 s) (Some d) (dest_addr x) (sl_length x) hint bi di 0) as (rc' & bi' & di' & E' & Hrc' & Hsel').
      { intros ? [= <-]. by eapply Hreload. } { lia. }
      apply runs_bind. apply (runs_lift _ _ _ _ _ E'). cbn [fst snd]. destruct (Z.eqb_spec rc' 0) as [Hz'|Hz'].
      * apply runs_ret. destruct (Hsel' Hz') as (d' & Hd & HS). apply (commit_routed st fl s hand lost n x _ d' bi' di'); try done. by rewrite lookup_insert_eq.
      * apply runs_bind. eapply runs_mono; [by apply (fail_runs st fl s hand lost n)|]. intros [] st' [G Q]. by apply runs_ret.
    + apply runs_bind, runs_bind. eapply runs_mono; [by apply (fail_runs st fl s hand lost n)|]. intros [] st' [G Q]. apply runs_gets.
      apply runs_modify. apply runs_ret. split; [done|]. split; [exact Q|]. by eapply goes_ext; [..|exact G].
Qed.

(** The slices a call has routed so far, by shard. *)
Lemma route_slices_ok ss : forall descs ls st fl hand lost n, PInv st fl (ss ++ concat ls ++ hand) lost n -> DescsOk descs -> length ls = kShardCount ->
  runs (route_slices cfg reload rand rand2 now now_failed th ss descs ls) st (fun ls' st' => exists F,
    Goes st fl (ss ++ concat ls ++ hand) lost st' fl (concat ls' ++ hand) lost (n - Z.of_nat (length F)) [] F /\ Quiet st st' /\
    length ls' = kShardCount /\ concat ls' ++ F ≡ₚ concat ls ++ ss).
Proof.
  induction ss as [|s ss IH]; intros descs ls st fl hand lost n I HD Hls.
  { apply runs_ret. exists []. cbn [length Z.of_nat app] in *. rewrite Z.sub_0_r. split_and!; [by apply goes_refl|apply wk_quiet_refl|done|done]. }
  cbn [route_slices]. apply runs_bind. eapply runs_mono; [by apply (route_slice_ok descs st fl s (ss ++ concat ls ++ hand) lost n)|].
  intros [[shard|] descs'] st1 (HD1 & Q1 & H1); cbn [fst snd] in *.
  - destruct H1 as [Hsh G1]. destruct (lookup_lt_is_Some_2 ls shard) as [l Hl]; [lia|]. apply (runs_lift _ _ _ l _ Hl).
    assert (Hc : concat (<[shard := l ++ [s]]> ls) ≡ₚ s :: concat ls).
    { rewrite <- (take_drop_middle ls shard l Hl) at 2. rewrite insert_take_drop by lia. rewrite !concat_app. cbn [concat]. solve_Permutation. }
    assert (HP : s :: ss ++ concat ls ++ hand ≡ₚ ss ++ concat (<[shard := l ++ [s]]> ls) ++ hand) by (rewrite Hc; solve_Permutation).
    eapply runs_mono; [apply (IH descs' (<[shard := l ++ [s]]> ls) st1 fl hand lost n); [|done|by rewrite length_insert]|].
    { eapply pinv_hand; [exact HP|]. apply G1. }
    intros ls' st2 (F & G2 & Q2 & L2 & P2). exists F. split_and!; [|by eapply wk_quiet_trans|done|rewrite P2, Hc; solve_Permutation].
    apply (goes_trans J workers _ _ _ _ st1 fl (s :: ss ++ concat ls ++ hand) lost n [] [] _ _ _ _ _ [] F G1).
    eapply goes_hand; [symmetry; exact HP|done|exact G2].
  - eapply runs_mono; [apply (IH descs' ls st1 fl hand lost (n - 1)); [apply H1|done|done]|].
    intros ls' st2 (F & G2 & Q2 & L2 & P2). exists (s :: F). cbn [length]. split_and!; [|by eapply wk_quiet_trans|done|].
    + replace (n - Z.of_nat (S (length F))) with (n - 1 - Z.of_nat (length F)) by lia.
      by apply (goes_trans J workers _ _ _ _ _ _ _ _ _ [] [s] _ _ _ _ _ [] F H1).
    + transitivity (s :: (concat ls' ++ F)); [solve_Permutation|]. rewrite P2. solve_Permutation.
Qed.

(** ** Filling shards *)

Lemma push_all_ok l : forall q st, (forall s, s ∈ l -> is_Some (slices (mem st) !! s)) ->
  runs (push_all l q) st (fun q' st' => st' = st /\ qlist q' ≡ₚ l ++ qlist q).
Proof.
  induction l as [|s l IH]; intros q st Hl; [done|]. cbn [push_all]. destruct (Hl s) as [x Hx]; [left|]. apply (slice_get_runs s x _ _ _ Hx).
  eapply runs_mono; [apply IH; intros s' ?; apply Hl; by right|]. intros q' st' [-> HP]. split; [done|]. rewrite HP, qlist_push. solve_Permutation.
Qed.

Lemma fill_shard_ok shard l st fl hand lost n : PInv st fl (l ++ hand) lost n -> (shard < kShardCount)%nat -> Fresh (mem st) l ->
  runs (fill_shard shard l) st (fun _ st' => Goes st fl (l ++ hand) lost st' fl hand lost n [] [] /\ mem st' = mem st).
Proof.
  intros I Hsh Hf. destruct l as [|s0 l0]; [apply runs_ret; split; [by apply goes_refl|done]|]. unfold fill_shard. cbv iota.
  set (l := s0 :: l0) in *. clearbody l. clear s0 l0.
  pose proof (pi_pool _ _ _ _ _ _ _ I) as HW. set (p := worker_pool_ (ctx st)) in *.
  destruct (lookup_lt_is_Some_2 (slice_queue_ p) shard) as [q Hq]; [rewrite (pw_shards _ _ HW); done|].
  assert (Hn : slice_queue_count_ p !! shard = Some (u64 (Z.of_nat (length (qlist q))))) by (by rewrite (pw_counts _ _ HW), list_lookup_fmap, Hq).
  apply runs_gets, runs_gets. apply (runs_lift _ _ _ q _ Hq). apply (runs_lift _ _ _ _ _ Hn). apply runs_bind.
  eapply runs_mono; [apply (push_all_ok l q st)|].
  { intros s Hs. destruct (pi_live _ _ _ _ _ _ _ I s) as (x & Hx & _); [|by exists x]. unfold live. rewrite !elem_of_app. by left; left. }
  intros q' st' [-> HP]. apply upd_pool_runs. fold p.
  set (ns := <[shard := _]> (slice_queue_count_ p)).
  assert (Ens : ns = <[shard := u64 (Z.of_nat (length (qlist q')))]> (slice_queue_count_ p)).
  { unfold ns. f_equal. rewrite (Permutation_length HP), length_app, u64_add. f_equal. lia. }
  destruct (wf_shards workers p shard q q' ns HW Hq Ens) as [HW' HPl]. set (p' := set_shards _ _ _) in *.
  assert (HQ : hand ++ places p' ≡ₚ (l ++ hand) ++ places p).
  { apply (Permutation_app_inv_r (qlist q)). rewrite <- !app_assoc, HPl, HP. solve_Permutation. }
  destruct (pinv_steady J workers st fl (l ++ hand) lost n (mem st) p' hand [] [] 0 I HW' (ev_refl _) (steady_refl _)) as [I' L]; try done.
  - by rewrite app_nil_r.
  - intros s Hs. assert (Hin : s ∈ places p' ++ qlist q) by (apply elem_of_app; by left). rewrite HPl, HP in Hin.
    rewrite !elem_of_app in Hin. destruct Hin as [Hin|[Hin|Hin]]; [by left|right|left].
    + intros s' x Hs' Hx. apply list_elem_of_singleton in Hs' as ->. by apply (Hf s).
    + unfold places. apply elem_of_app. left. by eapply elem_of_qlists.
  - cbn. rewrite Z.add_0_r, u64_small; [done|apply HW].
  - cbn [length app Z.of_nat] in I'. assert (Ex : with_pool (with_mem st (mem st)) p' = with_pool st p') by (by destruct st).
    rewrite Ex, !Z.sub_0_r in *. split; [|done]. split; [done|apply ev_refl|done].
Qed.

Lemma fill_shards_ok ls : forall shard st fl hand lost n, PInv st fl (concat ls ++ hand) lost n -> (shard + length ls <= kShardCount)%nat -> Fresh (mem st) (concat ls) ->
  runs (fill_shards shard ls) st (fun _ st' => Goes st fl (concat ls ++ hand) lost st' fl hand lost n [] [] /\ mem st' = mem st).
Proof.
  induction ls as [|l ls IH]; intros shard st fl hand lost n I Hs Hf; [apply runs_ret; split; [by apply goes_refl|done]|].
  cbn [fill_shards concat length] in *. apply fresh_app in Hf as [Hf1 Hf2]. rewrite <- app_assoc in *. apply runs_bind.
  eapply runs_mono; [apply (fill_shard_ok shard l st fl (concat ls ++ hand) lost n I); [lia|done]|]. intros [] st1 [G1 E1].
  eapply runs_mono; [apply (IH (S shard) st1 fl hand lost n); [apply G1|lia|by rewrite E1]|]. intros [] st2 [G2 E2].
  split; [|congruence]. by apply (goes_trans J workers _ _ _ _ _ _ _ _ _ [] [] _ _ _ _ _ [] [] G1).
Qed.

Lemma look_up_ok ss : forall descs st, DescsOk descs -> (forall s, s ∈ ss -> is_Some (slices (mem st) !! s)) ->
  runs (look_up desc_of ss descs) st (fun descs' st' => st' = st /\ DescsOk descs').
Proof.
  induction ss as [|s ss IH]; intros descs st HD Hs; [done|]. cbn [look_up]. destruct (Hs s) as [x Hx]; [left|]. apply (slice_get_runs s x _ _ _ Hx).
  destruct (descs !! sl_target_id x); apply IH; try done; try (intros s' ?; apply Hs; by right).
  intros id d. rewrite lookup_insert. case_decide; [|apply HD]. intros [= Hd]. by eapply Hdesc.
Qed.

(** Counting slices as submitted. *)
Lemma count_goes st fl hand lost n k : PInv st fl hand lost (n + k) ->
  runs (upd_pool (add_submitted k)) st (fun _ st' => Goes st fl hand lost st' fl hand lost n [] [] /\ mem st' = mem st).
Proof.
  intros I. apply upd_pool_runs. set (p := worker_pool_ (ctx st)).
  assert (HL : live (with_pool st (add_submitted k p)) fl hand lost = live st fl hand lost) by done.
  split; [|done]. split; [|apply ev_refl|by rewrite HL, !app_nil_r].
  destruct I as [HJ [W1 W2 W3 W4 W5 W6] HN HO HF HFl HR HC]. split; try done.
  - split; try done. cbn. apply u64_range.
  - transitivity (u64 (submitted_slice_count_ p + (n + k))); [|exact HC].
    cbn [with_pool ctx worker_pool_ add_submitted submitted_slice_count_]. rewrite u64_add. f_equal. lia.
Qed.

(** The whole call: every slice is queued or failed. *)
Lemma submitPostSend_ok st fl hand lost n ss : PInv st fl hand lost n -> NoDup ss -> (forall s, s ∈ ss -> OnWay (mem st) s /\ s ∉ live st fl hand lost) ->
  Fresh (mem st) ss ->
  runs (submitPostSend cfg desc_of reload rand rand2 now now_failed th ss) st (fun r st' => r = 0 /\ exists F,
    Goes st fl (ss ++ hand) lost st' fl hand lost n [] F /\ Steady (mem st) (mem st')).
Proof.
  intros I ND Hss Hf. pose proof (pinv_take J workers st fl hand lost n ss I ND Hss) as I0. unfold submitPostSend. apply runs_bind.
  eapply runs_mono; [apply (look_up_ok ss ∅ st); [done|intros s Hs; destruct (Hss s Hs) as [(x & Hx & _) _]; by exists x]|]. intros descs st0 [-> HD]. apply runs_bind.
  assert (Ec : concat (replicate kShardCount ([] : list nat)) = []) by done.
  eapply runs_mono; [apply (route_slices_ok ss descs (replicate kShardCount []) st fl hand lost (n + Z.of_nat (length ss))); [by rewrite Ec|done|done]|].
  rewrite Ec. intros ls st1 (F & G1 & [S1 C1] & L1 & P1). cbn [app] in *. apply runs_bind.
  eapply runs_mono; [apply (fill_shards_ok ls 0 st1 fl hand lost (n + Z.of_nat (length ss) - Z.of_nat (length F))); [apply G1|lia|]|].
  { eapply fresh_steady; [exact S1|]. eapply fresh_sub; [|exact Hf]. intros s Hs. rewrite <- P1. apply elem_of_app. by left. }
  intros [] st2 [G2 E2]. apply runs_bind.
  assert (El : n + Z.of_nat (length ss) - Z.of_nat (length F) = n + Z.of_nat (length (concat ls))) by (rewrite <- P1, length_app; lia).
  rewrite El in *. eapply runs_mono; [apply (count_goes st2 fl hand lost n), G2|]. intros [] st3 [G3 E3]. apply runs_ret. split; [done|].
  exists F. split; [|by rewrite E3, E2].
  pose proof (goes_trans _ _ _ _ _ _ _ _ _ _ _ _ _ _ _ _ _ _ _ _ G1 (goes_trans _ _ _ _ _ _ _ _ _ _ _ _ _ _ _ _ _ _ _ _ G2 G3)) as G.
  cbn [app] in G. by rewrite app_nil_r in G.
Qed.

End submit.

(** ** Redispatch *)

Section redispatch.
Context (desc_of : Z -> option SegmentDesc) (rand : nat -> nat -> bool -> Z) (th : nat).
Context (Hdesc : forall id d, desc_of id = Some d -> DescOk d) (Hth : (th < workers)%nat).

Lemma local_of st fl hand lost n : PInv st fl hand lost n -> exists q, collective_slice_queue_ (worker_pool_ (ctx st)) !! th = Some q.
Proof. intros I. apply lookup_lt_is_Some_2. by rewrite (pw_locals _ _ (pi_pool _ _ _ _ _ _ _ I)). Qed.

(** A slice in hand fails and counts as processed. *)
Lemma drop_ok st fl s hand lost n : PInv st fl (s :: hand) lost n ->
  runs (drop_slice s) st (fun _ st' => Goes st fl (s :: hand) lost st' fl hand lost n [] [s] /\ Steady (mem st) (mem st')).
Proof.
  intros I. unfold drop_slice. apply runs_bind. eapply runs_mono; [by apply (fail_runs st fl s hand lost n)|]. intros [] st1 [G [S _]].
  apply upd_pool_runs. set (p := worker_pool_ (ctx st1)). split; [|exact S]. split; [|apply G|apply G].
  destruct (go_inv _ _ _ _ _ _ _ _ _ _ _ _ _ G) as [HJ [W1 W2 W3 W4 W5 W6] HN HO HF HFl HR HC]. fold p in HC. split; try done.
  - split; try done. cbn. apply u64_range.
  - change (u64 (submitted_slice_count_ p + n) = u64 (u64 (processed_slice_count_ p + 1) + Z.of_nat (length (live st1 fl hand lost)))).
    rewrite u64_add. unfold u64 in *. replace (submitted_slice_count_ p + n) with (submitted_slice_count_ p + (n - 1) + 1) by lia.
    rewrite <- Zplus_mod_idemp_l, HC, Zplus_mod_idemp_l. f_equal. lia.
Qed.

Lemma push_ok st fl s path hand lost n : PInv st fl (s :: hand) lost n -> Fresh (mem st) [s] ->
  runs (upd_local th (push path s)) st (fun _ st' => Goes st fl (s :: hand) lost st' fl hand lost n [] [] /\ mem st' = mem st).
Proof.
  intros I Hf. destruct (local_of _ _ _ _ _ I) as [q Hq]. apply (local_goes J workers st fl (s :: hand) hand lost n th q _ I Hq).
  - rewrite qlist_push. solve_Permutation.
  - intros s' Hs'. rewrite qlist_push in Hs'. apply elem_of_cons in Hs' as [->|Hs']; [by right|by left].
Qed.

Lemma redispatch_slice_ok st fl s hand lost n : PInv st fl (s :: hand) lost n ->
  runs (redispatch_slice desc_of rand th s) st (fun _ st' => exists F, Goes st fl (s :: hand) lost st' fl hand lost n [] F /\ Steady (mem st) (mem st')).
Proof.
  intros I. destruct (pi_live _ _ _ _ _ _ _ I s) as (x & Hx & _ & _ & Hr & Hm); [left|].
  assert (Hdrop : runs (drop_slice s) st (fun _ st' => exists F, Goes st fl (s :: hand) lost st' fl hand lost n [] F /\ Steady (mem st) (mem st'))).
  { eapply runs_mono; [by apply (drop_ok st fl s hand lost n)|]. intros [] st' H. by exists [s]. }
  unfold redispatch_slice. apply (slice_get_runs s x _ _ _ Hx). destruct (Z.leb_spec (max_retry_cnt x) (retry_cnt x)) as [|Hlt]; [done|].
  destruct (desc_of (sl_target_id x)) as [d|] eqn:Ed; [|done].
  destruct (selectDevice_ok (rand s) (Some d) (dest_addr x) (sl_length x) "" 0 0 (Endpoint.s32 (retry_cnt x))) as (rc & bi & di & E & Hrc & Hsel).
  { intros ? [= <-]. by eapply Hdesc. } { rewrite EpProofs.s32_small by lia. lia. }
  apply (runs_lift _ _ _ _ _ E). destruct (Z.eqb_spec rc 0) as [Hz|Hz]; cbn [negb]; [|done].
  destruct (Hsel Hz) as (d' & [= <-] & b & rkey & lkey & dev & Hb & _ & Hrk & _ & Hd).
  apply (runs_lift _ _ _ b _ Hb). apply (runs_lift _ _ _ rkey _ Hrk). apply (runs_lift _ _ _ dev _ Hd). apply runs_bind.
  eapply runs_mono; [apply (route_runs st fl s (s :: hand) lost n); [done|left]|]. intros [] st1 [G1 [S1 _]].
  eapply runs_mono; [apply (push_ok st1 fl s _ hand lost n); [apply G1|]|].
  { eapply fresh_steady; [exact S1|]. intros s' x' Hs' Hx'. apply list_elem_of_singleton in Hs' as ->. by simplify_eq. }
  intros [] st2 [G2 E2]. exists []. split; [|by rewrite E2].
  by apply (goes_trans J workers _ _ _ _ _ _ _ _ _ [] [] _ _ _ _ _ [] [] G1).
Qed.

Lemma redispatch_ok ss : forall st fl hand lost n, PInv st fl (ss ++ hand) lost n ->
  runs (redispatch desc_of rand th ss) st (fun _ st' => exists F, Goes st fl (ss ++ hand) lost st' fl hand lost n [] F /\ Steady (mem st) (mem st')).
Proof.
  unfold redispatch. induction ss as [|s ss IH]; intros st fl hand lost n I.
  { apply runs_ret. exists []. split; [by apply goes_refl|apply steady_refl]. }
  cbn [each app] in *. apply runs_bind. eapply runs_mono; [by apply (redispatch_slice_ok st fl s (ss ++ hand) lost n)|]. intros [] st1 (F1 & G1 & S1).
  eapply runs_mono; [apply (IH st1 fl hand lost n), G1|]. intros [] st2 (F2 & G2 & S2). exists (F1 ++ F2).
  split; [|by eapply steady_trans]. by apply (goes_trans J workers _ _ _ _ _ _ _ _ _ [] F1 _ _ _ _ _ [] F2 G1).
Qed.

End redispatch.
End pool.
End WkSubmit.
