(* ===== verification/WorkerPost.v ===== *)
(** * WorkerPost: posting slices

    [performPostSend] moves slices from the shards of a thread to its queue,
    from there to the device, back to the queue, or to the failed ones; none
    is lost and none is in two places. *)

From Stdlib Require Import ZArith Lia.
From stdpp Require Import base list gmap strings numbers list_tactics.
From S2P Require Import Prelude Topology Endpoint EndpointStore EndpointInv EndpointSieve EndpointFlight Transport Handshake EndpointJoint HandshakeProofs TransportProofs Worker WorkerInv WorkerSubmit.
Import EpSieveOps EpFlight EpJoint TrProofs WkQueues WkInv WkSubmit.
Import Transport Worker.

Open Scope moon_scope.
Open Scope Z_scope.

Module WkPost.

Section changes.
Context (J : EndpointStore.SIEVE -> Endpoint.World -> flight -> Prop) (workers : nat).
Abbreviation PInv := (PInv J workers).
Abbreviation Goes := (Goes J workers).

(** ** Changes outside the queues *)

(** The members of the pool the invariant is about. *)
Definition queues (p : WorkerPool) :=
  (slice_queue_ p, slice_queue_count_ p, collective_slice_queue_ p, length (tl_redispatch_counter p), submitted_slice_count_ p, processed_slice_count_ p).

Lemma queues_places p p' : queues p' = queues p -> places p' = places p.
Proof. unfold queues, places. intros [= -> _ -> _ _ _]. done. Qed.
Lemma queues_wf p p' : queues p' = queues p -> PoolWf workers p -> PoolWf workers p'.
Proof. unfold queues. intros [= E1 E2 E3 E4 E5 E6] [? ? ? ? ? ?]. split; rewrite ?E1, ?E2, ?E3, ?E4, ?E5, ?E6; done. Qed.

(** The heap and the queues stay; the endpoints keep their invariant. *)
Lemma outside_goes st fl hand lost n st' : PInv st fl hand lost n -> mem st' = mem st -> queues (worker_pool_ (ctx st')) = queues (worker_pool_ (ctx st)) ->
  J (endpoint_store_ (ctx st')) (world (ctx st')) fl -> Goes st fl hand lost st' fl hand lost n [] [].
Proof.
  intros [HJ HW HN HO HF HFl HR HC] Em Eq HJ'.
  assert (HL : live st' fl hand lost = live st fl hand lost) by (unfold live; by rewrite (queues_places _ _ Eq)).
  split; [|rewrite Em; apply ev_refl|by rewrite HL, !app_nil_r].
  pose proof (queues_places _ _ Eq) as Ep. split; rewrite ?HL, ?Em; try done.
  - by eapply queues_wf.
  - by rewrite Ep.
  - unfold queues in Eq. injection Eq as _ _ _ _ -> ->. done.
Qed.

Lemma eps_goes st fl hand lost n s w : PInv st fl hand lost n -> J s w fl -> Goes st fl hand lost (with_eps st s w) fl hand lost n [] [].
Proof. intros I HJ. by apply outside_goes. Qed.

(** Failures of the device are counted, and may disable the context. *)
Lemma count_failure_ok st fl hand lost n : PInv st fl hand lost n ->
  runs count_failure st (fun _ st' => Goes st fl hand lost st' fl hand lost n [] [] /\ mem st' = mem st /\
    queues (worker_pool_ (ctx st')) = queues (worker_pool_ (ctx st)) /\ world (ctx st') = world (ctx st) /\ cqCount (ctx st') = cqCount (ctx st)).
Proof.
  intros I. assert (H : forall st', mem st' = mem st -> queues (worker_pool_ (ctx st')) = queues (worker_pool_ (ctx st)) ->
    endpoint_store_ (ctx st') = endpoint_store_ (ctx st) -> world (ctx st') = world (ctx st) -> Goes st fl hand lost st' fl hand lost n [] []).
  { intros st' E1 E2 E3 E4. apply outside_goes; try done. rewrite E3, E4. apply I. }
  unfold count_failure. apply runs_bind, upd_pool_runs. apply runs_gets, runs_gets, runs_gets. destruct (_ && _ && _); split_and!; try done; by apply H.
Qed.

(** ** Attempts *)

(** The attempts of a slice in hand are counted. *)
Lemma bump_one st fl hand lost n s : PInv st fl hand lost n -> s ∈ hand -> Fresh (mem st) [s] ->
  runs (on_mem (slice_upd (fun x => set_retry (u32 (retry_cnt x + 1)) x) s)) st (fun _ st' =>
    Goes st fl hand lost st' fl hand lost n [] [] /\ ctx st' = ctx st /\ (forall s', s' <> s -> slices (mem st') !! s' = slices (mem st) !! s') /\
    slices (mem st') !! s = (fun x => set_retry (retry_cnt x + 1) x) <$> slices (mem st) !! s).
Proof.
  intros I Hs Hf. assert (Hl : s ∈ live st fl hand lost) by (unfold live; apply elem_of_app; by left).
  destruct (pi_live _ _ _ _ _ _ _ I s Hl) as (x & Hx & _ & _ & Hr & Hm). assert (Hlt : retry_cnt x < max_retry_cnt x) by (apply (Hf s); [left|done]).
  apply on_mem_runs. eapply runs_mono; [by apply (ev_upd (mem st) s x _ Hx)|]. intros [] m' [Es HE]. cbn [ctx mem].
  assert (Hoth : forall s', s' <> s -> slices m' !! s' = slices (mem st) !! s') by (intros s' D; rewrite Es; cbn; by rewrite lookup_insert_ne).
  assert (Hnew : slices m' !! s = Some (set_retry (u32 (retry_cnt x + 1)) x)) by (rewrite Es; cbn; by rewrite lookup_insert_eq).
  assert (Hu : u32 (retry_cnt x + 1) = retry_cnt x + 1) by (apply Z.mod_small; lia).
  assert (Hns : s ∉ places (worker_pool_ (ctx st)) ++ fl.*1 ++ lost).
  { pose proof (pi_nodup _ _ _ _ _ _ _ I) as ND. unfold live in ND. apply list.NoDup_app in ND as (_ & ND & _). intros Hin. apply (ND s Hs).
    rewrite !elem_of_app in *. tauto. }
  split; [|split_and!; [done|done|by rewrite Hnew, Hx, Hu]]. split; [|exact HE|by rewrite !app_nil_r].
  eapply (pinv_step J workers st fl hand lost n); [done|apply I|apply I|exact HE|by rewrite !app_nil_r|..].
  - intros s' x' Hs' Hx'. cbn [mem] in Hx'. destruct (decide (s' = s)) as [->|D]; [rewrite Hnew in Hx'; simplify_eq; cbn; lia|].
    rewrite Hoth in Hx' by done. destruct (pi_live _ _ _ _ _ _ _ I s' Hs') as (y & Hy & _ & _ & ? & _). by simplify_eq.
  - intros s' x' Hs' Hx'. cbn [mem ctx] in *. rewrite Hoth in Hx' by congruence. by apply (pi_fresh _ _ _ _ _ _ _ I s').
  - intros s' c x' Hs' Hx'. cbn [mem] in Hx'. rewrite Hoth in Hx'; [by apply (pi_flight _ _ _ _ _ _ _ I s')|].
    intros ->. apply Hns. rewrite !elem_of_app. right. left. apply list_elem_of_fmap. by exists (s, c).
  - apply (pi_count _ _ _ _ _ _ _ I).
Qed.

Lemma bump_ok l : forall st fl hand lost n, PInv st fl hand lost n -> (forall s, s ∈ l -> s ∈ hand) -> NoDup l -> Fresh (mem st) l ->
  runs (each (fun s => on_mem (slice_upd (fun x => set_retry (u32 (retry_cnt x + 1)) x) s)) l) st (fun _ st' =>
    Goes st fl hand lost st' fl hand lost n [] []).
Proof.
  induction l as [|s l IH]; intros st fl hand lost n I Hl ND Hf; [by apply runs_ret, goes_refl|]. apply list.NoDup_cons in ND as [Hn ND].
  cbn [each]. apply runs_bind. eapply runs_mono; [apply (bump_one st fl hand lost n s I)|].
  { apply Hl. left. } { eapply fresh_sub; [|exact Hf]. intros s' ->%list_elem_of_singleton. left. }
  intros [] st1 (G1 & _ & Ho & _). eapply runs_mono; [apply (IH st1 fl hand lost n); [apply G1|intros; apply Hl; by right|done|]|].
  - intros s' x Hs' Hx. rewrite Ho in Hx by congruence. by apply (Hf s'); [right|].
  - intros [] st2 G2. by apply (goes_trans J workers _ _ _ _ _ _ _ _ _ [] [] _ _ _ _ _ [] [] G1).
Qed.

End changes.

Section pool.
Context (max_cqe : Z) (workers : nat).
Abbreviation PInv := (PInv (JInv max_cqe) workers).
Abbreviation Goes := (Goes (JInv max_cqe) workers).

(** ** Collecting *)

Section thread.
Context (th : nat) (Hth : (th < workers)%nat).

Lemma collect_shard_ok st fl hand lost n shard : PInv st fl hand lost n -> (shard < kShardCount)%nat ->
  runs (collect_shard th shard) st (fun _ st' => Goes st fl hand lost st' fl hand lost n [] [] /\ mem st' = mem st).
Proof.
  intros I Hsh. pose proof (pi_pool _ _ _ _ _ _ _ I) as HW. set (p := worker_pool_ (ctx st)) in *.
  destruct (lookup_lt_is_Some_2 (slice_queue_ p) shard) as [q Hq]; [rewrite (pw_shards _ _ HW); done|].
  assert (Hn : slice_queue_count_ p !! shard = Some (u64 (Z.of_nat (length (qlist q))))) by (by rewrite (pw_counts _ _ HW), list_lookup_fmap, Hq).
  destruct (local_of (JInv max_cqe) workers th Hth _ _ _ _ _ I) as [r Hr]. fold p in Hr.
  unfold collect_shard. apply runs_gets, runs_gets. apply (runs_lift _ _ _ q _ Hq). apply (runs_lift _ _ _ _ _ Hn).
  destruct (_ =? 0); [apply runs_ret; split; [by apply goes_refl|done]|].
  apply runs_bind. unfold upd_local. apply (local_queue_runs th r _ _ _ Hr). apply upd_pool_runs, upd_pool_runs. fold p. cbn [with_pool ctx worker_pool_].
  set (p1 := set_locals (<[th := merge_queues r q]> (collective_slice_queue_ p)) p).
  destruct (wf_locals workers p th r (merge_queues r q) HW Hr) as [HW1 HP1]. fold p1 in HW1, HP1.
  set (p2 := set_shards (<[shard := (fun _ => []) <$> q]> (slice_queue_ p)) (<[shard := 0]> (slice_queue_count_ p)) p1).
  destruct (wf_shards workers p1 shard q ((fun _ => []) <$> q) (<[shard := 0]> (slice_queue_count_ p)) HW1 Hq) as [HW2 HP2]; [by rewrite qlist_nil|].
  change (set_shards _ _ p1) with p2 in HW2, HP2.
  assert (HPl : places p2 ≡ₚ places p).
  { rewrite qlist_nil, app_nil_r in HP2. rewrite qlist_merge in HP1. apply (Permutation_app_inv_r (qlist r ++ qlist q)).
    transitivity ((places p2 ++ qlist q) ++ qlist r); [solve_Permutation|]. rewrite HP2. etransitivity; [exact HP1|]. solve_Permutation. }
  destruct (pinv_steady (JInv max_cqe) workers st fl hand lost n (mem st) p2 hand [] [] 0 I HW2 (ev_refl _) (steady_refl _)) as [I' L]; try done.
  - by rewrite app_nil_r, HPl.
  - intros s Hs. left. by rewrite HPl in Hs.
  - cbn. rewrite Z.add_0_r, u64_small; [done|apply HW].
  - cbn [length app Z.of_nat] in I'. assert (Ex : with_pool (with_mem st (mem st)) p2 = with_pool st p2) by (by destruct st).
    rewrite Ex, !Z.sub_0_r in *. split; [|done]. split; [done|apply ev_refl|done].
Qed.

Lemma collect_ok l : forall st fl hand lost n, PInv st fl hand lost n -> (forall shard, shard ∈ l -> (shard < kShardCount)%nat) ->
  runs (each (collect_shard th) l) st (fun _ st' => Goes st fl hand lost st' fl hand lost n [] [] /\ mem st' = mem st).
Proof.
  induction l as [|shard l IH]; intros st fl hand lost n I Hl; [apply runs_ret; split; [by apply goes_refl|done]|].
  cbn [each]. apply runs_bind. eapply runs_mono; [apply (collect_shard_ok st fl hand lost n shard I), Hl; left|]. intros [] st1 [G1 E1].
  eapply runs_mono; [apply (IH st1 fl hand lost n); [apply G1|intros; apply Hl; by right]|]. intros [] st2 [G2 E2].
  split; [|congruence]. by apply (goes_trans (JInv max_cqe) workers _ _ _ _ _ _ _ _ _ [] [] _ _ _ _ _ [] [] G1).
Qed.

Lemma stride_lt fuel i step bound j : j ∈ stride fuel i step bound -> (j < bound)%nat.
Proof.
  revert i. induction fuel as [|fuel IH]; intros i; cbn [stride]; [intros H; by apply elem_of_nil in H|].
  destruct (Nat.ltb_spec i bound); [|intros H'; by apply elem_of_nil in H']. intros [->|H']%elem_of_cons; [done|by eapply IH].
Qed.

(** ** Posting *)

(** Attempts stay as they are. *)
Definition SameTries (m m' : Mem) : Prop := forall s x', slices m' !! s = Some x' ->
  exists x, slices m !! s = Some x /\ retry_cnt x' = retry_cnt x /\ max_retry_cnt x' = max_retry_cnt x.
Lemma steady_tries m m' : Steady m m' -> SameTries m m'.
Proof. intros H s x' Hx'. destruct (H s x' Hx') as (x & Hx & -> & _ & ->). by exists x. Qed.
Lemma tries_refl m : SameTries m m.
Proof. apply steady_tries, steady_refl. Qed.
Lemma tries_trans m m' m'' : SameTries m m' -> SameTries m' m'' -> SameTries m m''.
Proof. intros H H' s x'' Hx. destruct (H' s x'' Hx) as (x' & Hx' & -> & ->). by apply H. Qed.
Lemma fresh_tries m m' l : SameTries m m' -> Fresh m l -> Fresh m' l.
Proof. intros S F s x' Hs Hx'. destruct (S s x' Hx') as (x & Hx & -> & ->). by apply (F s). Qed.

(** Slices posted on a cell. *)
Definition Posted (now : Z) (cell : nat * nat) (L : list nat) (m m' : Mem) : Prop := forall s x', slices m' !! s = Some x' ->
  exists x, slices m !! s = Some x /\ x' = if decide (s ∈ L) then set_posted now cell x else x.

Lemma post_each now cell L : forall st, (forall s, s ∈ L -> exists x, slices (mem st) !! s = Some x /\ fin x = None) ->
  runs (each (fun s => on_mem (slice_upd (set_posted now cell) s)) L) st (fun _ st' =>
    Posted now cell L (mem st) (mem st') /\ Evolves (mem st) (mem st') [] [] /\ ctx st' = ctx st /\ failed_target_ids st' = failed_target_ids st).
Proof.
  induction L as [|s L IH]; intros st HL.
  { apply runs_ret. split_and!; [|apply ev_refl|done|done]. intros s x Hx. exists x. by rewrite decide_False by apply not_elem_of_nil. }
  cbn [each]. apply runs_bind, on_mem_runs. destruct (HL s) as (x & Hx & Hf); [left|].
  eapply runs_mono; [apply (ev_upd (mem st) s x (set_posted now cell) Hx); [done|by rewrite Hf]|]. intros [] m1 [Es E1]. set (st1 := mkState m1 _ _).
  assert (Hs1 : forall s' x', slices m1 !! s' = Some x' -> exists y, slices (mem st) !! s' = Some y /\ x' = if decide (s' = s) then set_posted now cell y else y).
  { intros s' x'. rewrite Es. cbn [set_slices slices]. rewrite lookup_insert. destruct (decide (s = s')) as [<-|D].
    - intros [= <-]. exists x. by rewrite decide_True.
    - intros H. exists x'. by rewrite decide_False by congruence. }
  eapply runs_mono; [apply (IH st1)|].
  - intros s' Hs'. destruct (HL s') as (y & Hy & Hfy); [by right|]. destruct (ev_slice _ _ _ _ s' y E1 Hy) as (y' & Hy' & _). exists y'. split; [done|].
    destruct (Hs1 s' y' Hy') as (z & Hz & ->). simplify_eq. by case_decide.
  - intros [] st2 (HP & E2 & Ec & Ef). split_and!; [|by apply (ev_trans _ _ _ [] [] [] [] E1)|done|done].
    intros s' x' Hx'. destruct (HP s' x' Hx') as (y & Hy & ->). destruct (Hs1 s' y Hy) as (z & Hz & ->). exists z. split; [done|].
    destruct (decide (s' = s)) as [->|D]; [rewrite (decide_True (P := s ∈ s :: L)) by left; by case_decide|].
    destruct (decide (s' ∈ L)); [by rewrite decide_True by (by right)|by rewrite decide_False by (by rewrite elem_of_cons; intros [|])].
Qed.

Lemma posted_tries now cell L m m' : Posted now cell L m m' -> SameTries m m'.
Proof. intros H s x' Hx'. destruct (H s x' Hx') as (x & Hx & ->). exists x. by case_decide. Qed.

(** The queue of a peer is emptied into the hands of the thread. *)
Lemma clear_queue_ok st fl hand lost n q path : PInv st fl hand lost n -> collective_slice_queue_ (worker_pool_ (ctx st)) !! th = Some q ->
  runs (clear_queue th path) st (fun _ st' => Goes st fl hand lost st' fl (at_peer q path ++ hand) lost n [] [] /\ mem st' = mem st).
Proof.
  intros I Hq. apply (local_goes (JInv max_cqe) workers st fl hand _ lost n th q _ I Hq).
  - pose proof (qlist_replace q path []) as H. cbn [app] in H. rewrite <- H. solve_Permutation.
  - intros s Hs. left. rewrite qlist_insert in Hs. rewrite (qlist_split q path). apply elem_of_app. by right.
Qed.

(** After a submission: accepted slices are in flight, refused ones in hand. *)
Lemma submitted_goes st fl hand lost n q path r id w now m' : PInv st fl hand lost n -> collective_slice_queue_ (worker_pool_ (ctx st)) !! th = Some q ->
  Endpoint.accepted r ++ Endpoint.failed_slice_list r ++ Endpoint.slice_list r = at_peer q path ->
  let cell := (id, Endpoint.on_qp r) in
  let taken := on_cell cell (Endpoint.accepted r) in
  JInv max_cqe (endpoint_store_ (ctx st)) w (fl ++ taken) ->
  Posted now cell (Endpoint.accepted r ++ Endpoint.failed_slice_list r) (mem st) m' -> Evolves (mem st) m' [] [] ->
  let p := set_locals (<[th := <[path := Endpoint.slice_list r]> q]> (collective_slice_queue_ (worker_pool_ (ctx st)))) (worker_pool_ (ctx st)) in
  Goes st fl hand lost (with_pool (with_mem (with_eps st (endpoint_store_ (ctx st)) w) m') p) (fl ++ taken) (Endpoint.failed_slice_list r ++ hand) lost n [] [].
Proof.
  intros I Hq El cell taken HJ HP HE p. set (l := at_peer q path) in *. set (p0 := worker_pool_ (ctx st)) in *.
  destruct (wf_locals workers p0 th q (<[path := Endpoint.slice_list r]> q) (pi_pool _ _ _ _ _ _ _ I) Hq) as [HW HPl]. fold p in HW, HPl.
  assert (Hpl : places p ++ l ≡ₚ places p0 ++ Endpoint.slice_list r).
  { pose proof (qlist_replace q path (Endpoint.slice_list r)) as HR. fold l in HR. apply (Permutation_app_inv_r (qlist q)).
    transitivity ((places p ++ qlist q) ++ l); [solve_Permutation|]. rewrite HPl.
    transitivity (places p0 ++ (qlist (<[path:=Endpoint.slice_list r]> q) ++ l)); [solve_Permutation|]. rewrite HR. solve_Permutation. }
  assert (Hpl' : places p0 ≡ₚ places p ++ Endpoint.accepted r ++ Endpoint.failed_slice_list r).
  { apply (Permutation_app_inv_r (Endpoint.slice_list r)). rewrite <- Hpl, <- El. solve_Permutation. }
  assert (Et : taken.*1 = Endpoint.accepted r) by (unfold taken, on_cell; rewrite <- list_fmap_compose; apply list_fmap_id).
  set (st' := with_pool _ p).
  assert (HL : live st' (fl ++ taken) (Endpoint.failed_slice_list r ++ hand) lost ≡ₚ live st fl hand lost).
  { unfold live, st'. cbn [with_pool ctx worker_pool_]. fold p0. rewrite Hpl', fmap_app, Et. solve_Permutation. }
  pose proof (posted_tries _ _ _ _ _ HP) as HT.
  assert (HN : forall s, s ∈ Endpoint.accepted r ++ Endpoint.failed_slice_list r -> s ∉ fl.*1).
  { intros s Hs Hs'. pose proof (pi_nodup _ _ _ _ _ _ _ I) as ND. unfold live in ND. fold p0 in ND. rewrite Hpl' in ND.
    apply list.NoDup_app in ND as (_ & _ & ND). rewrite <- app_assoc in ND. apply list.NoDup_app in ND as (_ & _ & ND).
    apply list.NoDup_app in ND as (_ & Hd & _). apply (Hd s Hs). apply elem_of_app. by left. }
  split; [|exact HE|by rewrite !app_nil_r].
  eapply (pinv_step (JInv max_cqe) workers st fl hand lost n); [done|exact HJ|exact HW|exact HE|by rewrite !app_nil_r|..].
  - intros s x' Hs Hx'. destruct (HT s x' Hx') as (x & Hx & -> & ->). rewrite HL in Hs.
    destruct (pi_live _ _ _ _ _ _ _ I s Hs) as (y & Hy & _ & _ & ? & _). by simplify_eq.
  - apply (fresh_tries (mem st)); [exact HT|]. eapply fresh_sub; [|exact (pi_fresh _ _ _ _ _ _ _ I)].
    intros s. cbn [with_pool ctx worker_pool_ st']. fold p0. rewrite fmap_app, Et, Hpl', !elem_of_app. tauto.
  - intros s c x' Hs Hx'. destruct (HP s x' Hx') as (x & Hx & ->). apply elem_of_app in Hs as [Hs|Hs].
    + rewrite decide_False; [by apply (pi_flight _ _ _ _ _ _ _ I s)|]. intros Hin. apply (HN s Hin). apply list_elem_of_fmap. by exists (s, c).
    + unfold taken, on_cell in Hs. apply list_elem_of_fmap in Hs as (s0 & [= -> ->] & Hs). by rewrite decide_True by (apply elem_of_app; by left).
  - rewrite (Permutation_length HL). exact (pi_count _ _ _ _ _ _ _ I).
Qed.

(** ** One entry of a thread's queue *)

(** What posting to a peer has done: slices failed, requests were accepted. *)
Definition Posts (st : Pool) (fl : flight) (hand lost : list nat) (n : Z) (acc : list nat * flight) (r : list nat * flight) (st' : Pool) : Prop :=
  exists f t, r = (acc.1 ++ f, acc.2 ++ t) /\ Goes st fl hand lost st' (fl ++ t) (f ++ hand) lost n [] [] /\
    SameTries (mem st) (mem st') /\ Fresh (mem st) f.

Lemma posts_none st fl hand lost n acc st' : Goes st fl hand lost st' fl hand lost n [] [] -> mem st' = mem st -> Posts st fl hand lost n acc acc st'.
Proof.
  intros G Em. exists [], []. rewrite !app_nil_r. split_and!; [by destruct acc|done|rewrite Em; apply tries_refl|].
  intros s x Hs. by apply elem_of_nil in Hs.
Qed.

Lemma at_peer_fresh st fl hand lost n q path : PInv st fl hand lost n -> collective_slice_queue_ (worker_pool_ (ctx st)) !! th = Some q -> Fresh (mem st) (at_peer q path).
Proof.
  intros I Hq. eapply fresh_sub; [|exact (pi_fresh _ _ _ _ _ _ _ I)]. intros s Hs. apply elem_of_app. left. unfold places. apply elem_of_app. right.
  eapply elem_of_qlists; [done|]. rewrite (qlist_split q path). apply elem_of_app. by left.
Qed.

(** The whole queue of a peer fails. *)
Lemma all_fail_ok st fl hand lost n st1 q path acc : collective_slice_queue_ (worker_pool_ (ctx st)) !! th = Some q -> PInv st fl hand lost n ->
  Goes st fl hand lost st1 fl hand lost n [] [] -> mem st1 = mem st -> queues (worker_pool_ (ctx st1)) = queues (worker_pool_ (ctx st)) ->
  runs (let* _c := clear_queue th path in ret (acc.1 ++ at_peer q path, acc.2)) st1 (Posts st fl hand lost n acc).
Proof.
  intros Hq I G Em Eq. apply runs_bind. assert (Hq1 : collective_slice_queue_ (worker_pool_ (ctx st1)) !! th = Some q).
  { unfold queues in Eq. by injection Eq as _ _ -> _ _ _. }
  eapply runs_mono; [apply (clear_queue_ok st1 fl hand lost n q path); [apply G|done]|]. intros [] st2 [G2 E2]. apply runs_ret.
  exists (at_peer q path), []. rewrite !app_nil_r. split_and!; [done|by apply (goes_trans (JInv max_cqe) workers _ _ _ _ _ _ _ _ _ [] [] _ _ _ _ _ [] [] G)|..].
  - rewrite E2, Em. apply tries_refl.
  - by eapply at_peer_fresh.
Qed.

Section posting.
Context (cfg : GlobalConfig) (Hmax : Worker.max_cqe cfg = max_cqe) (Hqp : (0 < num_qp_per_ep cfg)%nat).
Context (create_ok destroy_ok : nat -> nat -> bool) (held : nat -> bool) (Hcreate : forall id j, create_ok id j = true).
Context (desc_of : nat -> Z -> option SegmentDesc) (rand : nat -> nat -> bool -> Z) (Hdesc : forall k id d, desc_of k id = Some d -> DescOk d).
Context (iter : SliceQueue -> list (string * list nat)) (Hiter : forall q, iter q ≡ₚ map_to_list q).
Context (now : string -> Z) (new_cq : string -> nat) (handshake : string -> HandshakeArgs).
Context (local_server_name : string) (qp_number : nat -> nat -> Z) (draw : string -> Z) (post : string -> option nat).

Abbreviation post_entry := (post_entry cfg create_ok destroy_ok held now new_cq handshake local_server_name qp_number draw post th).

(** The handshake, when it is needed. *)
Lemma connect_ok (b : bool) path name id st fl : JInv max_cqe (endpoint_store_ (ctx st)) (world (ctx st)) fl -> is_Some (Endpoint.eps (world (ctx st)) !! id) ->
  runs (if b then ret 0 else on_eps (let* r := setup handshake local_server_name qp_number path name id in ret r.1)) st (fun _ st' => exists w,
    st' = with_eps st (endpoint_store_ (ctx st)) w /\ JInv max_cqe (endpoint_store_ (ctx st)) w fl /\ is_Some (Endpoint.eps w !! id)).
Proof.
  intros J Hid. destruct b; [apply runs_ret; exists (world (ctx st)); split_and!; [by destruct st as [? [] ?]|done|done]|].
  apply on_store_runs, EpSieveOps.on_world_runs. unfold setup.
  destruct (HsProofs.active_joint (ha_modify_ok (handshake path)) qp_number (ha_strerror (handshake path)) max_cqe (MakeNicPath local_server_name name) name
    (ha_local (handshake path)) (ha_send (handshake path)) (ha_by_name (handshake path)) _ _ fl id J Hid) as (r & w & E & J' & Hid').
  apply runs_bind. apply (runs_eq _ _ _ _ _ E). apply runs_ret. by exists w.
Qed.

Lemma post_entry_ok path acc st fl hand lost n : PInv st fl hand lost n ->
  runs (post_entry path acc) st (Posts st fl hand lost n acc).
Proof.
  intros I. destruct (local_of (JInv max_cqe) workers th Hth _ _ _ _ _ I) as [q Hq]. destruct acc as [failed taken]. unfold Worker.post_entry.
  apply (local_queue_runs th q _ _ _ Hq).
  assert (Hnone : runs (ret (failed, taken)) st (Posts st fl hand lost n (failed, taken))) by (apply runs_ret, posts_none; [by apply goes_refl|done]).
  destruct (q !! path) as [l|] eqn:El; [|done]. destruct l as [|s0 l0]; [done|]. set (l := s0 :: l0) in *. clearbody l.
  assert (Ea : at_peer q path = l) by (unfold at_peer; by rewrite El).
  apply runs_gets, runs_bind, on_store_runs. eapply runs_mono; [by apply (endpoint_joint max_cqe create_ok destroy_ok held Hcreate), Hqp; apply I|].
  intros r [s1 w1] [J1 Hid]. cbn [fst snd] in *. set (st1 := with_eps st s1 w1).
  pose proof (eps_goes (JInv max_cqe) workers st fl hand lost n s1 w1 I J1) as G1. fold st1 in G1.
  assert (Hall : forall st2, Goes st fl hand lost st2 fl hand lost n [] [] -> mem st2 = mem st -> queues (worker_pool_ (ctx st2)) = queues (worker_pool_ (ctx st)) ->
    runs (let* _c := clear_queue th path in ret (failed ++ l, taken)) st2 (Posts st fl hand lost n (failed, taken))).
  { intros st2 G E1 E2. rewrite <- Ea. by apply (all_fail_ok st fl hand lost n st2 q path (failed, taken) Hq I). }
  destruct r as [id|]; [|by apply Hall]. destruct (Hid id eq_refl) as [e He].
  apply runs_bind, on_store_runs, EpSieveOps.on_world_runs. apply (runs_eq _ _ e w1); [unfold Endpoint.ep_get; cbn; by rewrite He|]. cbn [fst snd].
  change (with_eps st1 (endpoint_store_ (ctx st1)) w1) with st1. destruct (negb (Endpoint.active_ e)).
  { apply runs_bind. destruct (inactive_long now path e); cbn [when]; [|apply runs_ret; by apply Hall].
    apply on_store_runs, runs_bind. eapply runs_mono; [by apply (delete_joint max_cqe path s1 w1 fl)|]. intros b [s2 w2] [J2 E2]. cbn [fst snd] in *.
    apply runs_ret. cbn [fst snd]. apply Hall; [|done|done]. by apply (eps_goes (JInv max_cqe) workers st). }
  apply runs_gets. apply runs_bind. eapply runs_mono; [apply (connect_ok _ path (device_name_ (ctx st1)) id st1 fl J1); by exists e|].
  intros rc st2 (w2 & -> & J2 & [e2 He2]). cbn [ctx st1 with_eps endpoint_store_] in J2. change (with_eps st1 _ w2) with (with_eps st s1 w2).
  destruct (negb (rc =? 0)).
  - apply runs_bind, on_store_runs. eapply runs_mono; [apply (set_active_joint max_cqe s1 w2 fl id false (now path) J2); by exists e2|].
    intros [] [s3 w3] [E3 J3]. cbn [fst snd] in *. subst s3. change (with_eps (with_eps st s1 w2) s1 w3) with (with_eps st s1 w3).
    pose proof (eps_goes (JInv max_cqe) workers st fl hand lost n s1 w3 I J3) as G3. apply runs_bind.
    eapply runs_mono; [apply (count_failure_ok (JInv max_cqe) workers _ fl hand lost n), G3|]. intros [] st4 (G4 & E4 & Q4 & _).
    apply Hall; [by apply (goes_trans (JInv max_cqe) workers _ _ _ _ _ _ _ _ _ [] [] _ _ _ _ _ [] [] G3)|by rewrite E4|by rewrite Q4].
  - rewrite Hmax. apply runs_bind, on_store_runs. eapply runs_mono; [apply (submit_joint max_cqe s1 w2 fl (draw path) (post path) id l J2); by exists e2|].
    intros r [s3 w3] (E3 & J3 & Es). cbn [fst snd] in *. subst s3. change (with_eps (with_eps st s1 w2) s1 w3) with (with_eps st s1 w3).
    set (cell := (id, Endpoint.on_qp r)) in *. apply runs_bind. eapply runs_mono; [apply (post_each (now path) cell _ (with_eps st s1 w3))|].
    { intros s Hs. assert (Hl : s ∈ live st fl hand lost).
      { unfold live. rewrite !elem_of_app. right. left. unfold places. apply elem_of_app. right. eapply elem_of_qlists; [done|].
        rewrite (qlist_split q path), Ea, <- Es, !elem_of_app in *. tauto. }
      destruct (pi_live _ _ _ _ _ _ _ I s Hl) as (x & Hx & _ & Hf & _). by exists x. }
    intros [] st4 (HP & HE & Ec & Ef). apply runs_bind. unfold upd_local.
    apply (local_queue_runs th q); [by rewrite Ec|]. apply upd_pool_runs, runs_ret.
    destruct st4 as [m4 c4 f4]. cbn [mem ctx failed_target_ids] in *. subst c4 f4.
    exists (Endpoint.failed_slice_list r), (on_cell cell (Endpoint.accepted r)). split_and!; [done|..].
    + apply (goes_trans (JInv max_cqe) workers _ _ _ _ _ _ _ _ _ [] [] _ _ _ _ _ [] [] G1).
      exact (submitted_goes st1 fl hand lost n q path r id w3 (now path) m4 (go_inv _ _ _ _ _ _ _ _ _ _ _ _ _ G1) Hq ltac:(by rewrite Ea) J3 HP HE).
    + by eapply posted_tries.
    + eapply fresh_sub; [|exact (at_peer_fresh st fl hand lost n q path I Hq)]. intros s Hs. rewrite Ea, <- Es, !elem_of_app. tauto.
Qed.

Lemma post_entries_ok paths : forall acc st fl hand lost n, PInv st fl hand lost n ->
  runs (post_entries cfg create_ok destroy_ok held now new_cq handshake local_server_name qp_number draw post th paths acc) st (Posts st fl hand lost n acc).
Proof.
  induction paths as [|path paths IH]; intros acc st fl hand lost n I.
  { apply runs_ret, posts_none; [by apply goes_refl|done]. }
  cbn [post_entries]. apply runs_bind. eapply runs_mono; [by apply post_entry_ok|]. intros r1 st1 (f1 & t1 & -> & G1 & T1 & F1).
  eapply runs_mono; [apply IH, G1|]. intros r2 st2 (f2 & t2 & -> & G2 & T2 & F2). cbn [fst snd] in *.
  exists (f1 ++ f2), (t1 ++ t2). rewrite !app_assoc. split_and!; [done|..].
  - apply (goes_trans (JInv max_cqe) workers _ _ _ _ _ _ _ _ _ [] [] _ _ _ _ _ [] [] G1).
    eapply goes_hand; [done| |exact G2]. solve_Permutation.
  - by eapply tries_trans.
  - apply fresh_app. split; [done|]. intros s x Hs Hx.
    destruct (ev_slice _ _ _ _ s x (go_evolves _ _ _ _ _ _ _ _ _ _ _ _ _ G1) Hx) as (x1 & Hx1 & _).
    destruct (T1 s x1 Hx1) as (y & Hy & Er & Em). simplify_eq. rewrite <- Er, <- Em. by apply (F2 s).
Qed.

(** ** Redispatching what failed *)

Lemma redispatch_entries_ok es : forall k st fl hand lost n, PInv st fl (concat es.*2 ++ hand) lost n ->
  runs (redispatch_entries desc_of rand th k es) st (fun _ st' => exists F, Goes st fl (concat es.*2 ++ hand) lost st' fl hand lost n [] F).
Proof.
  induction es as [|e es IH]; intros k st fl hand lost n I; [apply runs_ret; exists []; by apply goes_refl|].
  cbn [redispatch_entries fmap list_fmap concat] in *. rewrite <- app_assoc in *. apply runs_bind.
  eapply runs_mono; [apply (redispatch_ok (JInv max_cqe) workers (desc_of k) rand th (Hdesc k) Hth e.2 st fl (concat es.*2 ++ hand) lost n I)|].
  intros [] st1 (F1 & G1 & _). eapply runs_mono; [apply (IH (S k) st1 fl hand lost n), G1|]. intros [] st2 (F2 & G2). exists (F1 ++ F2).
  by apply (goes_trans (JInv max_cqe) workers _ _ _ _ _ _ _ _ _ [] F1 _ _ _ _ _ [] F2 G1).
Qed.

(** ** The call *)

Abbreviation send_queued := (send_queued cfg create_ok destroy_ok held desc_of rand iter now new_cq handshake local_server_name qp_number draw post th).

Lemma send_queued_ok st fl hand lost n : PInv st fl hand lost n ->
  runs send_queued st (fun t st' => exists F, Goes st fl hand lost st' (fl ++ t) hand lost n [] F).
Proof.
  intros I. destruct (local_of (JInv max_cqe) workers th Hth _ _ _ _ _ I) as [q Hq]. pose proof (pi_pool _ _ _ _ _ _ _ I) as HW.
  destruct (lookup_lt_is_Some_2 (tl_redispatch_counter (worker_pool_ (ctx st))) th) as [tl Htl]; [by rewrite (pw_tl _ _ HW)|].
  unfold Worker.send_queued. apply runs_gets. apply (runs_lift _ _ _ tl _ Htl). apply runs_gets. apply (local_queue_runs th q _ _ _ Hq).
  destruct (_ <? _).
  - apply runs_bind, upd_pool_runs. set (st1 := with_pool st _).
    assert (G1 : Goes st fl hand lost st1 fl hand lost n [] []).
    { apply (outside_goes (JInv max_cqe) workers); [done|done| |apply I]. unfold queues, st1. cbn. by rewrite length_insert. }
    apply runs_bind. eapply runs_mono; [apply (local_goes (JInv max_cqe) workers st1 fl hand (concat (iter q).*2 ++ hand) lost n th q (fun _ => ∅)); [apply G1|done|..]|].
    + rewrite qlist_empty, app_nil_r, iter_qlist by apply Hiter. solve_Permutation.
    + intros s Hs. rewrite qlist_empty in Hs. by apply elem_of_nil in Hs.
    + intros [] st2 [G2 _]. apply runs_bind. eapply runs_mono; [apply redispatch_entries_ok, G2|]. intros [] st3 (F & G3). apply runs_ret. exists F.
      rewrite app_nil_r. pose proof (goes_trans _ _ _ _ _ _ _ _ _ _ _ _ _ _ _ _ _ _ _ _ G1 (goes_trans _ _ _ _ _ _ _ _ _ _ _ _ _ _ _ _ _ _ _ _ G2 G3)) as G.
      exact G.
  - apply runs_bind. eapply runs_mono; [by apply (post_entries_ok _ ([], []))|]. intros r st1 (f & t & -> & G1 & T1 & F1). cbn [fst snd app].
    apply runs_bind. eapply runs_mono; [apply (bump_ok (JInv max_cqe) workers f st1 (fl ++ t) (f ++ hand) lost n); [apply G1|..]|].
    + intros s Hs. apply elem_of_app. by left.
    + pose proof (pi_nodup _ _ _ _ _ _ _ (go_inv _ _ _ _ _ _ _ _ _ _ _ _ _ G1)) as ND. unfold live in ND. rewrite <- app_assoc in ND. by apply list.NoDup_app in ND as (? & _).
    + by eapply fresh_tries.
    + intros [] st2 G2. apply runs_bind. eapply runs_mono; [apply (redispatch_ok (JInv max_cqe) workers (desc_of 0%nat) rand th (Hdesc 0) Hth f st2 (fl ++ t) hand lost n), G2|].
      intros [] st3 (F & G3 & _). apply runs_ret. exists F.
      pose proof (goes_trans _ _ _ _ _ _ _ _ _ _ _ _ _ _ _ _ _ _ _ _ G1 (goes_trans _ _ _ _ _ _ _ _ _ _ _ _ _ _ _ _ _ _ _ _ G2 G3)) as G.
      exact G.
Qed.

Lemma performPostSend_ok st fl hand lost n : PInv st fl hand lost n ->
  runs (performPostSend cfg create_ok destroy_ok held desc_of rand iter now new_cq handshake local_server_name qp_number draw post th) st (fun t st' => exists F,
    Goes st fl hand lost st' (fl ++ t) hand lost n [] F).
Proof.
  intros I. unfold performPostSend. apply runs_bind. eapply runs_mono; [apply (collect_ok _ st fl hand lost n I); intros; by eapply stride_lt|].
  intros [] st1 [G1 _]. eapply runs_mono; [apply send_queued_ok, G1|]. intros t st2 (F & G2). exists F.
  exact (goes_trans _ _ _ _ _ _ _ _ _ _ _ _ _ _ _ _ _ _ _ _ G1 G2).
Qed.

End posting.
End thread.
End pool.
End WkPost.
