(* ===== verification/WorkerPoll.v ===== *)
(** * WorkerPoll: collecting completions

    [performPollCq] gives every slice whose completion a queue delivered its
    outcome, or puts it back into the queue of the thread, and takes the
    completed requests off the counters of their queue pairs and queues. *)

From Stdlib Require Import ZArith Lia.
From stdpp Require Import base list gmap strings numbers list_tactics.
From S2P Require Import Prelude Topology Endpoint EndpointStore EndpointInv EndpointSieve EndpointFlight Transport Handshake EndpointJoint TransportProofs Worker WorkerInv WorkerSubmit WorkerPost.
Import EpSieveOps EpFlight EpJoint TrProofs WkQueues WkInv WkSubmit WkPost.
Import Transport Worker.

Open Scope moon_scope.
Open Scope Z_scope.

Module WkPoll.

(** ** One completion *)

Section completions.
Context (J : EndpointStore.SIEVE -> Endpoint.World -> flight -> Prop) (workers : nat) (th : nat) (Hth : (th < workers)%nat).
Context (HJdel : forall s w fl path, J s w fl -> runs (EndpointStore.sieve_deleteEndpoint path) (s, w) (fun _ p => J p.1 p.2 fl /\ p.2 = w)).
Context (HJfl : forall s w fl fl', J s w fl -> J s w fl').
Abbreviation PInv := (PInv J workers).
Abbreviation Goes := (Goes J workers).

(** A request in flight has completed: its slice is in hand. *)
Lemma land_goes st fl fl1 hand lost n s c : PInv st fl hand lost n -> fl ≡ₚ (s, c) :: fl1 -> Goes st fl hand lost st fl1 (s :: hand) lost n [] [].
Proof.
  intros I HP. assert (HL : live st fl1 (s :: hand) lost ≡ₚ live st fl hand lost).
  { unfold live. assert (Hf : fl.*1 ≡ₚ s :: fl1.*1) by (by rewrite HP). rewrite Hf. solve_Permutation. }
  split; [|apply ev_refl|by rewrite !app_nil_r]. destruct I as [HJ HW HN HO HF HFl HR HC]. split; try done.
  - by eapply HJfl.
  - by rewrite HL.
  - intros s'. rewrite HL. apply HO.
  - eapply fresh_sub; [|exact HF]. intros s'. rewrite HP, fmap_cons, !elem_of_app, elem_of_cons. tauto.
  - intros s' c' x Hs'. apply HFl. rewrite HP. by right.
  - by rewrite (Permutation_length HL).
Qed.

Definition outcome (ok : bool) : Z := if ok then 1 else 0.

Lemma complete_slice_ok acc st fl fl1 hand lost n s c ok : PInv st fl hand lost n -> fl ≡ₚ (s, c) :: fl1 ->
  runs (complete_slice th acc (s, ok)) st (fun r st' => exists F, r = (acc.1 ++ [c], acc.2 + outcome ok) /\
    Goes st fl hand lost st' fl1 hand lost (n - outcome ok) (if ok then [s] else []) F).
Proof.
  intros I HP. assert (Hin : (s, c) ∈ fl) by (rewrite HP; left).
  destruct (pi_live _ _ _ _ _ _ _ I s) as (x & Hx & _ & _ & Hr & Hm).
  { unfold live. rewrite !elem_of_app. right. right. left. apply list_elem_of_fmap. by exists (s, c). }
  pose proof (pi_flight _ _ _ _ _ _ _ I s c x Hin Hx) as Hc. destruct acc as [cells processed]. unfold complete_slice. cbn [fst snd].
  apply (slice_get_runs s x _ _ _ Hx). apply (runs_lift _ _ _ c _ Hc). pose proof (land_goes st fl fl1 hand lost n s c I HP) as G0.
  assert (Hf : Fresh (mem st) [s]).
  { eapply fresh_sub; [|exact (pi_fresh _ _ _ _ _ _ _ I)]. intros s' ->%list_elem_of_singleton. rewrite !elem_of_app. right. left. apply list_elem_of_fmap. by exists (s, c). }
  destruct ok; cbn [outcome].
  - apply runs_bind, on_mem_runs. eapply runs_mono; [apply (mark_goes J workers true st fl1 s hand lost n), G0|]. intros [] m' [G1 _].
    apply runs_bind, upd_pool_runs, runs_ret. exists []. split; [done|].
    apply (goes_trans J workers _ _ _ _ _ _ _ _ _ [] [] _ _ _ _ _ [s] [] G0). rewrite <- (app_nil_r [s]).
    apply (goes_trans J workers _ _ _ _ _ _ _ _ _ [s] [] _ _ _ _ _ [] [] G1). apply outside_goes; [apply G1|done|done|].
    apply (pi_joint _ _ _ _ _ _ _ (go_inv _ _ _ _ _ _ _ _ _ _ _ _ _ G1)).
  - rewrite Z.sub_0_r, Z.add_0_r. apply runs_bind. eapply runs_mono; [apply (count_failure_ok J workers st fl1 (s :: hand) lost n), G0|].
    intros [] st1 (G1 & E1 & _). apply runs_bind, on_store_runs, runs_bind.
    pose proof (pi_joint _ _ _ _ _ _ _ (go_inv _ _ _ _ _ _ _ _ _ _ _ _ _ G1)) as J1.
    eapply runs_mono; [apply (HJdel _ _ _ (peer_nic_path x) J1)|]. intros b [s2 w2] [J2 E2]. cbn [fst snd] in *. subst w2. apply runs_ret. cbn [fst snd].
    set (st2 := with_eps st1 s2 (world (ctx st1))).
    assert (G2 : Goes st1 fl1 (s :: hand) lost st2 fl1 (s :: hand) lost n [] []) by (apply eps_goes; [apply G1|done]).
    apply runs_bind. eapply runs_mono; [apply (bump_one J workers st2 fl1 (s :: hand) lost n s); [apply G2|left|cbn; by rewrite E1]|].
    intros [] st3 (G3 & _ & _ & N3). cbn [st2 with_eps mem] in N3. rewrite E1, Hx in N3. cbn in N3.
    pose proof (goes_trans _ _ _ _ _ _ _ _ _ _ _ _ _ _ _ _ _ _ _ _ G0 (goes_trans _ _ _ _ _ _ _ _ _ _ _ _ _ _ _ _ _ _ _ _ G1
      (goes_trans _ _ _ _ _ _ _ _ _ _ _ _ _ _ _ _ _ _ _ _ G2 G3))) as G. cbn [app] in G. clear G0 G1 G2.
    assert (Hlt : retry_cnt x < max_retry_cnt x) by (apply (Hf s); [left|done]).
    assert (Hu : u32 (retry_cnt x + 1) = retry_cnt x + 1) by (apply Z.mod_small; lia). rewrite Hu.
    apply runs_bind. destruct (Z.leb_spec (max_retry_cnt x) (retry_cnt x + 1)) as [Hle|Hgt].
    + change (runs (drop_slice s) st3 (fun _ st' => runs (ret (cells ++ [c], processed)) st' (fun r st' => exists F, r = (cells ++ [c], processed) /\
        Goes st fl hand lost st' fl1 hand lost n [] F))).
      eapply runs_mono; [apply (drop_ok J workers th Hth st3 fl1 s hand lost n), G3|]. intros [] st4 [G4 _]. apply runs_ret. exists [s]. split; [done|].
      exact (goes_trans _ _ _ _ _ _ _ _ _ _ _ _ _ _ _ _ _ _ _ _ G G4).
    + apply runs_bind. eapply runs_mono; [apply (push_ok J workers th Hth st3 fl1 s (peer_nic_path x) hand lost n); [apply G3|]|].
      { intros s' y ->%list_elem_of_singleton Hy. rewrite N3 in Hy. injection Hy as <-. cbn. lia. }
      intros [] st4 [G4 E4]. apply upd_pool_runs, runs_ret. exists []. split; [done|].
      pose proof (goes_trans _ _ _ _ _ _ _ _ _ _ _ _ _ _ _ _ _ _ _ _ G G4) as G5.
      apply (goes_trans J workers _ _ _ _ _ _ _ _ _ [] [] _ _ _ _ _ [] [] G5). apply outside_goes; [apply G5|done|done|].
      apply (pi_joint _ _ _ _ _ _ _ (go_inv _ _ _ _ _ _ _ _ _ _ _ _ _ G5)).
Qed.

(** ** The completions of one queue *)

(** Completions as a queue may deliver them: each of a request in flight on it. *)
Definition Delivered (w : Endpoint.World) (fl : flight) (cq : nat) (cs : list (nat * bool)) : Prop :=
  forall s ok, (s, ok) ∈ cs -> exists c, (s, c) ∈ fl /\ cq_of w c = Some cq.

Definition succeeded (cs : list (nat * bool)) : list nat := (filter (fun c => c.2 = true) cs).*1.

Lemma succeeded_cons s ok cs : succeeded ((s, ok) :: cs) = (if ok then [s] else []) ++ succeeded cs.
Proof. unfold succeeded. rewrite filter_cons. destruct ok; [by rewrite decide_True|by rewrite decide_False]. Qed.

Lemma delivered_rest w fl fl1 cq s c ok cs : fl ≡ₚ (s, c) :: fl1 -> NoDup (((s, ok) :: cs).*1) -> Delivered w fl cq ((s, ok) :: cs) -> Delivered w fl1 cq cs.
Proof.
  intros HP ND HD s' ok' Hin. destruct (HD s' ok') as (c' & Hc' & Hq); [by right|]. exists c'. split; [|done].
  rewrite HP in Hc'. apply elem_of_cons in Hc' as [[= -> ->]|Hc']; [|done]. rewrite fmap_cons in ND. apply list.NoDup_cons in ND as [ND _].
  destruct ND. apply list_elem_of_fmap. by exists (s, ok').
Qed.

Lemma complete_slices_ok w cq cs : forall acc st fl hand lost n, PInv st fl hand lost n -> Delivered w fl cq cs -> NoDup cs.*1 ->
  runs (complete_slices th acc cs) st (fun r st' => exists done rest F,
    r = (acc.1 ++ done.*2, acc.2 + Z.of_nat (length (succeeded cs))) /\ fl ≡ₚ done ++ rest /\ done.*1 = cs.*1 /\
    (forall x, x ∈ done -> cq_of w x.2 = Some cq) /\
    Goes st fl hand lost st' rest hand lost (n - Z.of_nat (length (succeeded cs))) (succeeded cs) F).
Proof.
  induction cs as [|[s ok] cs IH]; intros acc st fl hand lost n I HD ND.
  { apply runs_ret. exists [], fl, []. cbn. rewrite app_nil_r, Z.add_0_r, Z.sub_0_r. destruct acc. split_and!; try done; [|by apply goes_refl].
    intros x Hx. by apply elem_of_nil in Hx. }
  destruct (HD s ok) as (c & Hc & Hq); [left|]. destruct (elem_of_Permutation fl (s, c)) as [Hex _]. destruct (Hex Hc) as [fl1 HP].
  cbn [complete_slices]. apply runs_bind. eapply runs_mono; [by apply (complete_slice_ok acc st fl fl1 hand lost n s c ok I HP)|].
  intros r1 st1 (F1 & -> & G1).
  eapply runs_mono; [apply (IH _ st1 fl1 hand lost (n - outcome ok)); [apply G1|by eapply delivered_rest|by apply list.NoDup_cons in ND as [_ ?]]|].
  intros r2 st2 (done & rest & F2 & -> & HP2 & Hd & Hcq & G2). cbn [fst snd] in *.
  assert (El : Z.of_nat (length (succeeded ((s, ok) :: cs))) = outcome ok + Z.of_nat (length (succeeded cs))) by (rewrite succeeded_cons; destruct ok; cbn; lia).
  exists ((s, c) :: done), rest, (F1 ++ F2). rewrite El, fmap_cons, <- app_assoc, Z.add_assoc, Z.sub_add_distr. split_and!; [done|by rewrite HP, HP2|by rewrite fmap_cons, Hd|..].
  - intros x [->|Hx]%elem_of_cons; [done|by apply Hcq].
  - rewrite succeeded_cons. by apply (goes_trans J workers _ _ _ _ _ _ _ _ _ _ F1 _ _ _ _ _ _ F2 G1).
Qed.

End completions.

(** ** All queues of a thread *)

(** A change of what is known of the endpoints. *)
Lemma goes_change J J' workers st fl hand lost st1 st2 fl1 hand1 lost1 n S F : Goes J workers st fl hand lost st1 fl1 hand1 lost1 n S F ->
  mem st2 = mem st1 -> worker_pool_ (ctx st2) = worker_pool_ (ctx st1) -> J' (endpoint_store_ (ctx st2)) (world (ctx st2)) fl1 ->
  Goes J' workers st fl hand lost st2 fl1 hand1 lost1 n S F.
Proof.
  intros [[HJ HW HN HO HF HFl HR HC] E L] Em Ep HJ'. unfold live in *. split; [|by rewrite Em|unfold live; by rewrite Ep]. split; unfold live; rewrite ?Em, ?Ep; done.
Qed.

Lemma goes_join J J' workers st fl hand lost st1 fl1 hand1 lost1 n1 S F st2 fl2 hand2 lost2 n2 S' F' :
  Goes J workers st fl hand lost st1 fl1 hand1 lost1 n1 S F -> Goes J' workers st1 fl1 hand1 lost1 st2 fl2 hand2 lost2 n2 S' F' ->
  Goes J' workers st fl hand lost st2 fl2 hand2 lost2 n2 (S ++ S') (F ++ F').
Proof.
  intros [_ E L] [I' E' L']. split; [done|by eapply ev_trans|]. rewrite <- L, <- L'. solve_Permutation.
Qed.

(** While completions are collected the endpoints stay, but the counters of
    their queue pairs still count the completed requests. *)
Definition Frozen (w : Endpoint.World) (s : EndpointStore.SIEVE) (w' : Endpoint.World) (_ : flight) : Prop :=
  w' = w /\ SVInv s w /\ 2 <= EndpointStore.max_size_ (EndpointStore.store s).

Lemma frozen_delete w s w' fl path : Frozen w s w' fl ->
  runs (EndpointStore.sieve_deleteEndpoint path) (s, w') (fun _ p => Frozen w p.1 p.2 fl /\ p.2 = w').
Proof.
  intros (-> & I & R). eapply runs_mono; [by apply (delete_runs path s w I)|]. intros r [s' w'] (_ & (I' & M & _) & _ & E). cbn [fst snd] in *. subst w'.
  split; [|done]. split_and!; [done|done|by rewrite M].
Qed.

Lemma sv_ext s w w' : SVInv s w -> Endpoint.eps w' = Endpoint.eps w -> Endpoint.next_ep w' = Endpoint.next_ep w -> SVInv s w'.
Proof. intros [I [H1 H2] Hh Hl] E N. split; [done| |done|done]. split; rewrite ?E, ?N; done. Qed.

Section poll.
Context (max_cqe : Z) (workers : nat) (th : nat) (Hth : (th < workers)%nat) (wc : nat -> option (list (nat * bool))).

(** What the queues [cqs] deliver in a call. *)
Definition delivers (cqs : list nat) : list (nat * bool) := concat ((fun q => default [] (wc q)) <$> cqs).
Definition Deliveries (w : Endpoint.World) (fl : flight) (cqs : list nat) : Prop :=
  NoDup (delivers cqs).*1 /\ forall q cs, q ∈ cqs -> wc q = Some cs -> Delivered w fl q cs.

(** Counters of queues against requests in flight. *)
Definition Queues (w0 w : Endpoint.World) (fl : flight) : Prop :=
  Endpoint.eps w = Endpoint.eps w0 /\ Endpoint.next_ep w = Endpoint.next_ep w0 /\
  forall q, default 0 (Endpoint.cq_outstanding w !! q) = cqf w0 q fl.

Lemma queues_sub w0 w fl q done rest : Queues w0 w fl -> fl ≡ₚ done ++ rest -> (forall x, x ∈ done -> cq_of w0 x.2 = Some q) -> (forall q, cqf w0 q fl < 2 ^ 31) ->
  exists w', Endpoint.cq_sub q (Z.of_nat (length done)) w = Some (tt, w') /\ Queues w0 w' rest.
Proof.
  intros (E & N & HQ) HP Hd Hm. eexists. split; [reflexivity|]. split_and!; [done|done|]. intros q'. cbn. rewrite lookup_insert.
  assert (Hsplit : cqf w0 q' fl = cqf w0 q' done + cqf w0 q' rest) by (by rewrite (cqf_perm _ _ _ _ HP), cqf_app).
  rewrite (cqf_done w0 q done q' Hd) in Hsplit. specialize (HQ q'). specialize (Hm q'). assert (0 <= cqf w0 q' rest) by (unfold cqf; lia).
  destruct (decide (q = q')) as [<-|D].
  - rewrite decide_True in Hsplit by done. cbn. rewrite HQ, Hsplit. rewrite EpProofs.s32_small; lia.
  - rewrite decide_False in Hsplit by congruence. lia.
Qed.

Lemma delivers_cons q cqs : delivers (q :: cqs) = default [] (wc q) ++ delivers cqs.
Proof. done. Qed.
Lemma succeeded_app cs cs' : succeeded (cs ++ cs') = succeeded cs ++ succeeded cs'.
Proof. unfold succeeded. by rewrite filter_app, fmap_app. Qed.

Lemma deliveries_rest w fl done rest q cqs : fl ≡ₚ done ++ rest -> done.*1 = (default [] (wc q)).*1 -> Deliveries w fl (q :: cqs) -> Deliveries w rest cqs.
Proof.
  intros HP Hd [ND HD]. rewrite delivers_cons, fmap_app in ND. apply list.NoDup_app in ND as (_ & Hdis & ND). split; [done|].
  intros q' cs Hq' Hcs s ok Hin. destruct (HD q' cs ltac:(by right) Hcs s ok Hin) as (c & Hc & Hcq). exists c. split; [|done].
  rewrite HP in Hc. apply elem_of_app in Hc as [Hc|Hc]; [|done]. exfalso. apply (Hdis s).
  - rewrite <- Hd. apply list_elem_of_fmap. by exists (s, c).
  - apply list_elem_of_fmap. exists (s, ok). split; [done|]. unfold delivers. apply list_elem_of_In, in_concat. exists cs.
    split; [|by apply list_elem_of_In]. apply list_elem_of_In, list_elem_of_fmap. exists q'. by rewrite Hcs.
Qed.

(** The counter of a queue is lowered if completions were delivered. *)
Lemma cq_sub_ok w0 st fl done rest q (cs : list (nat * bool)) : Queues w0 (world (ctx st)) fl -> fl ≡ₚ done ++ rest -> done.*1 = cs.*1 ->
  (forall x, x ∈ done -> cq_of w0 x.2 = Some q) -> (forall q, cqf w0 q fl < 2 ^ 31) ->
  runs (when (negb (length cs =? 0)%nat) (on_eps (Endpoint.cq_sub q (Z.of_nat (length cs))))) st (fun _ st' => exists w',
    st' = with_eps st (endpoint_store_ (ctx st)) w' /\ Queues w0 w' rest).
Proof.
  intros HQ HP Hd Hcq Hm. assert (El : length cs = length done) by (rewrite <- (length_fmap fst cs), <- Hd; apply length_fmap). rewrite El.
  destruct (Nat.eqb_spec (length done) 0) as [E0|E0]; cbn [negb when].
  - apply runs_ret. exists (world (ctx st)). split; [by destruct st as [? [] ?]|]. apply nil_length_inv in E0 as ->. cbn [app] in HP.
    destruct HQ as (H1 & H2 & H3). split_and!; [done|done|]. intros q'. by rewrite H3, (cqf_perm _ _ _ _ HP).
  - destruct (queues_sub w0 _ fl q done rest HQ HP Hcq Hm) as (w' & E & HQ'). apply on_store_runs, on_world_runs. apply (runs_eq _ _ _ _ _ E). by exists w'.
Qed.

Lemma frozen_world st fl hand lost n w : PInv (Frozen w) workers st fl hand lost n -> world (ctx st) = w.
Proof. intros I. apply (pi_joint _ _ _ _ _ _ _ I). Qed.

Lemma poll_queues_ok w0 cqs : forall acc st fl hand lost n, PInv (Frozen (world (ctx st))) workers st fl hand lost n -> Queues w0 (world (ctx st)) fl ->
  Deliveries w0 fl cqs -> (forall q, cqf w0 q fl < 2 ^ 31) ->
  runs (poll_queues th wc acc cqs) st (fun r st' => exists done rest F,
    r = (acc.1 ++ done.*2, acc.2 + Z.of_nat (length (succeeded (delivers cqs)))) /\ fl ≡ₚ done ++ rest /\
    done.*1 = (delivers cqs).*1 /\ Queues w0 (world (ctx st')) rest /\
    Goes (Frozen (world (ctx st'))) workers st fl hand lost st' rest hand lost (n - Z.of_nat (length (succeeded (delivers cqs)))) (succeeded (delivers cqs)) F).
Proof.
  induction cqs as [|q cqs IH]; intros acc st fl hand lost n I HQ HD Hm.
  { apply runs_ret. exists [], fl, []. cbn. rewrite app_nil_r, Z.add_0_r, Z.sub_0_r. destruct acc. split_and!; try done. by apply goes_refl. }
  cbn [poll_queues]. destruct (wc q) as [cs|] eqn:Ew.
  2: { eapply runs_mono; [apply (IH acc st fl hand lost n I HQ); [|done]|intros r st' H; by rewrite delivers_cons, Ew].
       apply (deliveries_rest w0 fl [] fl q cqs); [done|by rewrite Ew|done]. }
  set (w := world (ctx st)) in *. apply runs_bind.
  eapply runs_mono; [apply (complete_slices_ok (Frozen w) workers th Hth (frozen_delete w) ltac:(done) w0 q cs acc st fl hand lost n I)|].
  { apply (proj2 HD); [left|done]. }
  { pose proof (proj1 HD) as ND. rewrite delivers_cons, Ew, fmap_app in ND. by apply list.NoDup_app in ND as (? & _). }
  intros r1 st1 (done & rest & F1 & -> & HP1 & Hd & Hcq & G1). pose proof (frozen_world _ _ _ _ _ _ (go_inv _ _ _ _ _ _ _ _ _ _ _ _ _ G1)) as Ew1.
  apply runs_bind. eapply runs_mono; [apply (cq_sub_ok w0 st1 fl done rest q cs); try done; by rewrite Ew1|]. intros [] st2 (w2 & -> & HQ2).
  set (st2 := with_eps st1 _ w2). assert (G2 : Goes (Frozen w2) workers st fl hand lost st2 rest hand lost (n - Z.of_nat (length (succeeded cs))) (succeeded cs) F1).
  { eapply goes_change; [exact G1|done|done|]. destruct (pi_joint _ _ _ _ _ _ _ (go_inv _ _ _ _ _ _ _ _ _ _ _ _ _ G1)) as (_ & HS & HR).
    split_and!; [done| |done]. destruct HQ2 as (E2 & N2 & _), HQ as (E0 & N0 & _). eapply sv_ext; [exact HS|by rewrite E2, E0|by rewrite N2, N0]. }
  eapply runs_mono; [apply (IH _ st2 rest hand lost (n - Z.of_nat (length (succeeded cs)))); [apply G2|done|..]|].
  - apply (deliveries_rest w0 fl done rest q cqs); [done|by rewrite Ew|done].
  - intros q'. specialize (Hm q'). rewrite (cqf_perm _ _ _ _ HP1), cqf_app in Hm. unfold cqf in *. lia.
  - intros r3 st3 (done' & rest' & F2 & -> & HP2 & Hd2 & HQ3 & G3). cbn [fst snd]. exists (done ++ done'), rest', (F1 ++ F2).
    rewrite delivers_cons, Ew. cbn [default]. rewrite succeeded_app, length_app, Nat2Z.inj_add, fmap_app, <- app_assoc, Z.add_assoc, Z.sub_add_distr.
    split_and!; [done|by rewrite HP1, HP2, app_assoc|by rewrite !fmap_app, Hd, Hd2|done|by eapply goes_join].
Qed.

(** ** The call *)

(** [k] slices with an outcome are counted as processed. *)
Lemma processed_goes J st fl hand lost n k : PInv J workers st fl hand lost (n - k) ->
  runs (upd_pool (add_processed k)) st (fun _ st' => Goes J workers st fl hand lost st' fl hand lost n [] [] /\ st' = with_pool st (add_processed k (worker_pool_ (ctx st)))).
Proof using workers.
  clear Hth. intros I. apply upd_pool_runs. set (p := worker_pool_ (ctx st)). split; [|done]. split; [|apply ev_refl|by rewrite !app_nil_r].
  destruct I as [HJ [W1 W2 W3 W4 W5 W6] HN HO HF HFl HR HC]. fold p in HC. split; try done.
  - split; try done. cbn. apply u64_range.
  - change (u64 (submitted_slice_count_ p + n) = u64 (u64 (processed_slice_count_ p + k) + Z.of_nat (length (live st fl hand lost)))).
    rewrite u64_add. unfold u64 in *. replace (submitted_slice_count_ p + n) with (submitted_slice_count_ p + (n - k) + k) by lia.
    rewrite <- Zplus_mod_idemp_l, HC, Zplus_mod_idemp_l. f_equal. lia.
Qed.

Lemma acct_bound w fl : Acct (Endpoint.s32 max_cqe) w fl -> 0 <= Endpoint.s32 max_cqe < 2 ^ 31.
Proof.
  intros A. pose proof (ac_max _ _ _ A 0%nat) as H. assert (0 <= cqf w 0 fl) by (unfold cqf; lia).
  unfold Endpoint.s32 in *. pose proof (Z.mod_pos_bound (max_cqe + 2 ^ 31) (2 ^ 32)). lia.
Qed.

(** The slices that succeeded are no longer with the pool, but not yet counted
    as processed. *)
Lemma collect_completions_ok cfg st fl hand lost n : PInv (JInv max_cqe) workers st fl hand lost n ->
  let cqs := stride (cqCount (ctx st)) th (workers_per_ctx cfg) (cqCount (ctx st)) in
  Deliveries (world (ctx st)) fl cqs ->
  runs (collect_completions cfg th wc) st (fun k st' => exists done rest F, k = Z.of_nat (length (succeeded (delivers cqs))) /\
    fl ≡ₚ done ++ rest /\ done.*1 = (delivers cqs).*1 /\
    Goes (JInv max_cqe) workers st fl hand lost st' rest hand lost (n - k) (succeeded (delivers cqs)) F).
Proof.
  intros I cqs HD. pose proof (pi_joint _ _ _ _ _ _ _ I) as [HS HA HR]. set (w0 := world (ctx st)) in *. pose proof (acct_bound _ _ HA) as Hb.
  assert (G0 : Goes (Frozen w0) workers st fl hand lost st fl hand lost n [] []) by (eapply goes_change; [by apply goes_refl|done|done|done]).
  unfold collect_completions. apply runs_gets. apply runs_bind. fold cqs.
  eapply runs_mono; [apply (poll_queues_ok w0 cqs ([], 0) st fl hand lost n); [apply G0|..]|].
  { split_and!; [done|done|]. apply (ac_cq _ _ _ HA). } { done. } { intros q. pose proof (ac_max _ _ _ HA q). lia. }
  intros r st1 (done & rest & F & -> & HP & Hd & (E1 & N1 & HQ) & G1). cbn [fst snd app]. rewrite Z.add_0_l.
  pose proof (sub_cells_acct _ w0 (world (ctx st1)) fl done rest HA Hb HP E1 N1 HQ) as Hrun.
  apply runs_bind, on_store_runs, on_world_runs. unfold runs in Hrun. destruct (Endpoint.sub_cells _ _) as [[[] w2]|] eqn:E2; [|done].
  apply (runs_eq _ _ _ _ _ E2). cbn [fst snd]. set (st2 := with_eps st1 _ w2).
  set (k := Z.of_nat (length (succeeded (delivers cqs)))) in *.
  assert (G2 : Goes (JInv max_cqe) workers st fl hand lost st2 rest hand lost (n - k) (succeeded (delivers cqs)) F).
  { eapply goes_change; [exact G1|done|done|]. destruct (pi_joint _ _ _ _ _ _ _ (go_inv _ _ _ _ _ _ _ _ _ _ _ _ _ G1)) as (_ & HS1 & HR1).
    cbn. assert (HJ0 : JInv max_cqe (endpoint_store_ (ctx st1)) w0 fl) by (split; [by eapply sv_ext|done|done]).
    eapply jinv_world; [exact HJ0|exact Hrun|]. intros id Hid. eapply (dk_sub_cells _ _ _ _ id E2). by rewrite E1. }
  apply runs_ret. exists done, rest, F. by split_and!.
Qed.

Lemma count_processed_ok J st fl hand lost n k : PInv J workers st fl hand lost (n - k) ->
  runs (count_processed k) st (fun _ st' => Goes J workers st fl hand lost st' fl hand lost n [] []).
Proof using workers.
  intros I. unfold count_processed. destruct (Z.eqb_spec k 0) as [->|_]; cbn [negb when].
  - apply runs_ret. rewrite Z.sub_0_r in I. by apply goes_refl.
  - eapply runs_mono; [by apply (processed_goes J st fl hand lost n k)|]. by intros [] st' [? _].
Qed.

End poll.
End WkPoll.
