(* ===== verification/WorkerSys.v ===== *)
(** * WorkerSys: the threads of a context

    Any number of submitting threads, the worker threads and the monitor
    thread of one context, interleaved at the scopes of the pool's locks: a
    call of [submitPostSend] is the routing of its slices, one step per shard
    and the counting; a call of [performPostSend] is one step per shard and
    the posting; a call of [performPollCq] is the collection of completions,
    with the outcomes it gives to slices and the counters it lowers, and the
    counting.  The handshakes a peer starts run between them too. *)

From Stdlib Require Import ZArith Lia.
From stdpp Require Import base list gmap strings numbers list_tactics.
From S2P Require Import Prelude Topology Endpoint EndpointStore EndpointInv EndpointSieve EndpointFlight Transport Handshake EndpointJoint HandshakeProofs TransportProofs Worker WorkerInv WorkerSubmit WorkerPost WorkerPoll.
Import EpSieveOps EpFlight EpJoint TrProofs WkQueues WkInv WkSubmit WkPost WkPoll.
Import (hints) Endpoint.
Import Transport Worker.

Open Scope moon_scope.
Open Scope Z_scope.

Module WkSys.

(** ** Configurations and steps *)

(** A call of [submitPostSend] under way: the shards to fill yet, and how many
    slices it will count as submitted; or a call of [performPollCq] that has
    collected its completions: how many slices it will count as processed. *)
Inductive Call : Type :=
| mkCall (t : list (nat * list nat)) (n : Z)
| mkPoll (processed : Z).

Definition todo (k : Call) : list (nat * list nat) := match k with mkCall t _ => t | mkPoll _ => [] end.
Definition routed (k : Call) : Z := match k with mkCall _ n => n | mkPoll processed => - processed end.

(** Requests in flight, and slices whose connection was reset. *)
Record Config : Type := mkConfig { pool : Pool; inflight : flight; calls : list Call; lost : list nat }.

(** What posting sees of other code and of the device. *)
Record PostArgs : Type := mkPostArgs {
  pa_create_ok : nat -> nat -> bool;
  pa_destroy_ok : nat -> nat -> bool;
  pa_held : nat -> bool;
  pa_desc_of : nat -> Z -> option SegmentDesc;
  pa_rand : nat -> nat -> bool -> Z;
  pa_iter : gmap string (list nat) -> list (string * list nat);
  pa_now : string -> Z;
  pa_new_cq : string -> nat;
  pa_handshake : string -> HandshakeArgs;
  pa_draw : string -> Z;
  pa_post : string -> option nat;
}.

Inductive Op : Type :=
| Route (th : nat) (a : SubmitArgs) (ss : list nat)
| Fill (k : nat)
| Count (k : nat)
| Collect (th shard : nat)
| Send (th : nat) (a : PostArgs)
| Poll (th : nat) (wc : nat -> option (list (nat * bool)))
| Tally (k : nat)
| Event (now : Z) (e : option AsyncEvent)
| Reactivate
| FindEndpoint (a : PostArgs) (path : string)
| Accept (id : nat) (a : HandshakeArgs) (nicPath : string) (peer_desc local_desc : Handshake.HandShakeDesc).

Section system.
Context (cfg : GlobalConfig) (local_server_name : string) (qp_number : nat -> nat -> Z).
Abbreviation workers := (workers_per_ctx cfg).

Definition after {A} (r : option (A * Pool)) (k : A -> Pool -> Config) : option Config :=
  match r with Some (a, st) => Some (k a st) | None => None end.

Definition route (th : nat) (a : SubmitArgs) (ss : list nat) : ST Pool (list (list nat)) :=
  let* descs := look_up (sa_desc_of a) ss ∅ in
  route_slices cfg (sa_reload a) (sa_rand a) (sa_rand2 a) (sa_now a) (sa_now_failed a) th ss descs (replicate kShardCount []).

Definition send (th : nat) (a : PostArgs) : ST Pool flight :=
  send_queued cfg (pa_create_ok a) (pa_destroy_ok a) (pa_held a) (pa_desc_of a) (pa_rand a) (pa_iter a) (pa_now a) (pa_new_cq a) (pa_handshake a)
    local_server_name qp_number (pa_draw a) (pa_post a) th.

(** The completion queues thread [th] polls. *)
Definition polled (c : Config) (th : nat) : list nat := stride (cqCount (ctx (pool c))) th workers (cqCount (ctx (pool c))).

(** Requests that are gone with the connections of the endpoints [ids]. *)
Definition gone (ids : list nat) (fl : flight) : list nat := (filter (fun x => x.2.1 ∈ ids) fl).*1.
Definition kept (ids : list nat) (fl : flight) : flight := filter (fun x => x.2.1 ∉ ids) fl.
Definition reset (c : Config) (ids : list nat) (st : Pool) : Config :=
  mkConfig st (kept ids (inflight c)) (calls c) (lost c ++ gone ids (inflight c)).

Definition accept (id : nat) (a : HandshakeArgs) (nicPath : string) (peer_desc local_desc : Handshake.HandShakeDesc) : ST Pool Z :=
  on_eps (let* r := Handshake.setupConnectionsByPassive (ha_modify_ok a) qp_number (ha_strerror a) nicPath (ha_by_name a) peer_desc local_desc id in ret r.1.1).

(** The connection a handshake replaces. *)
Definition replaced (c : Config) (id : nat) : list nat :=
  match Endpoint.eps (world (ctx (pool c))) !! id with
  | Some e => if bool_decide (Endpoint.status_ e = Endpoint.CONNECTED) then [id] else []
  | None => []
  end.

Definition exec (o : Op) (c : Config) : option Config :=
  match o with
  | Route th a ss => after (route th a ss (pool c)) (fun ls st =>
      mkConfig st (inflight c) (calls c ++ [mkCall (imap pair ls) (Z.of_nat (length (concat ls)))]) (lost c))
  | Fill k =>
      match calls c !! k with
      | Some (mkCall ((shard, l) :: t) n) => after (fill_shard shard l (pool c)) (fun _ st => mkConfig st (inflight c) (<[k := mkCall t n]> (calls c)) (lost c))
      | _ => None
      end
  | Count k =>
      match calls c !! k with
      | Some (mkCall [] n) => after (upd_pool (add_submitted n) (pool c)) (fun _ st => mkConfig st (inflight c) (delete k (calls c)) (lost c))
      | _ => None
      end
  | Collect th shard => after (collect_shard th shard (pool c)) (fun _ st => mkConfig st (inflight c) (calls c) (lost c))
  | Send th a => after (send th a (pool c)) (fun t st => mkConfig st (inflight c ++ t) (calls c) (lost c))
  | Poll th wc => after (collect_completions cfg th wc (pool c)) (fun n st =>
      mkConfig st (filter (fun x => x.1 ∉ (delivers wc (polled c th)).*1) (inflight c)) (calls c ++ [mkPoll n]) (lost c))
  | Tally k =>
      match calls c !! k with
      | Some (mkPoll n) => after (count_processed n (pool c)) (fun _ st => mkConfig st (inflight c) (delete k (calls c)) (lost c))
      | _ => None
      end
  | Event now e =>
      let ids := match e with Some ContextFatal => EndpointStore.sieve_ids (endpoint_store_ (ctx (pool c))) | _ => [] end in
      after (doProcessContextEvents now e (pool c)) (fun _ => reset c ids)
  | Reactivate => after (context_set_active true (pool c)) (fun _ st => mkConfig st (inflight c) (calls c) (lost c))
  | FindEndpoint a path => after (on_store (EndpointStore.context_endpoint (pa_create_ok a) (pa_destroy_ok a) (pa_held a) (ctx_active (ctx (pool c)))
      (pa_now a path) (pa_new_cq a path) (num_qp_per_ep cfg) (max_wr cfg) path) (pool c)) (fun _ st => mkConfig st (inflight c) (calls c) (lost c))
  | Accept id a nicPath peer_desc local_desc => after (accept id a nicPath peer_desc local_desc (pool c)) (fun _ => reset c (replaced c id))
  end.

(** ** What steps rely on *)

Definition pending (c : Config) : list nat := concat ((fun k => concat (todo k).*2) <$> calls c).
Definition owed (c : Config) : Z := foldr (fun k n => routed k + n) 0 (calls c).

(** Every slice the pool has and has not finished. *)
Definition unfinished (c : Config) : list nat := live (pool c) (inflight c) [] (pending c ++ lost c).

Definition Admissible (o : Op) (c : Config) : Prop :=
  match o with
  | Route th a ss => NoDup ss /\ (forall s, s ∈ ss -> OnWay (mem (pool c)) s /\ s ∉ unfinished c) /\ Fresh (mem (pool c)) ss /\
      (forall id d, sa_desc_of a id = Some d -> DescOk d) /\ (forall s d, sa_reload a s = Some d -> DescOk d)
  | Fill k => exists e t n, calls c !! k = Some (mkCall (e :: t) n)
  | Count k => exists n, calls c !! k = Some (mkCall [] n)
  | Collect th shard => (th < workers)%nat /\ (shard < kShardCount)%nat
  | Send th a => (th < workers)%nat /\ (forall id j, pa_create_ok a id j = true) /\ (forall k id d, pa_desc_of a k id = Some d -> DescOk d) /\
      (forall q, pa_iter a q ≡ₚ map_to_list q)
  | Poll th wc => (th < workers)%nat /\ Deliveries wc (world (ctx (pool c))) (inflight c) (polled c th)
  | Tally k => exists n, calls c !! k = Some (mkPoll n)
  | Event _ (Some (QpFatal id)) => is_Some (Endpoint.eps (world (ctx (pool c))) !! id)
  | FindEndpoint a _ => forall id j, pa_create_ok a id j = true
  | Accept id _ _ _ _ => is_Some (Endpoint.eps (world (ctx (pool c))) !! id)
  | _ => True
  end.

Definition given (o : Op) : list nat := match o with Route _ _ ss => ss | _ => [] end.

(** A client's changes of the heap: slices with the pool, and their tasks, stay. *)
Definition Client (c : Config) (m : Mem) : Prop :=
  AllRanged m /\ forall s, s ∈ unfinished c -> slices m !! s = slices (mem (pool c)) !! s /\
    forall x, slices (mem (pool c)) !! s = Some x -> is_Some (tasks m !! sl_task x).

Definition new_context (name : string) (cqs : nat) (max_endpoints : Z) : RdmaContext :=
  mkContext name true cqs (new_pool workers) (EndpointStore.new_sieve max_endpoints) EndpointStore.empty_world.

(** What can happen to a context from its construction on. *)
Inductive Reach : Config -> Prop :=
| reach_new m ctx : AllRanged m -> 0 <= Endpoint.s32 (max_cqe cfg) -> (exists name cqs max_endpoints, 2 <= max_endpoints /\ ctx = new_context name cqs max_endpoints) ->
    Reach (mkConfig (mkState m ctx ∅) [] [] [])
| reach_op o c c' : Reach c -> Admissible o c -> exec o c = Some c' -> Reach c'
| reach_client c m : Reach c -> Client c m -> Reach (mkConfig (with_mem (pool c) m) (inflight c) (calls c) (lost c)).

(** ** The invariant *)

Abbreviation PI := (PInv (JInv (max_cqe cfg)) workers).
Abbreviation G := (Goes (JInv (max_cqe cfg)) workers).

Record CInv (c : Config) : Prop := {
  ci_pool : PI (pool c) (inflight c) [] (pending c ++ lost c) (owed c);
  ci_shards : forall k e, k ∈ calls c -> e ∈ todo k -> (e.1 < kShardCount)%nat;
}.

(** Slices and requests grouped in another way. *)
Lemma pinv_regroup st fl hand l n fl' hand' l' : PI st fl hand l n -> JInv (max_cqe cfg) (endpoint_store_ (ctx st)) (world (ctx st)) fl' ->
  live st fl' hand' l' ≡ₚ live st fl hand l -> (forall x, x ∈ fl' -> x ∈ fl) -> Fresh (mem st) (fl'.*1 ++ l') -> PI st fl' hand' l' n.
Proof.
  intros [HJ HW HN HO HF HFl HR HC] HJ' HL Hfl HF'. split; try done.
  - by rewrite HL.
  - intros s. rewrite HL. apply HO.
  - apply fresh_app in HF as [HF _]. by apply fresh_app.
  - intros s c x Hs. apply HFl. by apply Hfl.
  - by rewrite (Permutation_length HL).
Qed.

Lemma flight_fresh st fl hand l n : PI st fl hand l n -> Fresh (mem st) (fl.*1 ++ l).
Proof. intros I. apply (fresh_app _ (places (worker_pool_ (ctx st)))), (pi_fresh _ _ _ _ _ _ _ I). Qed.

(** A step as the theorems below want it. *)
Definition StepOk (o : Op) (c : Config) : Prop := exists c' S F, exec o c = Some c' /\ CInv c' /\
  Evolves (mem (pool c)) (mem (pool c')) S F /\ unfinished c' ++ S ++ F ≡ₚ given o ++ unfinished c.

Lemma stays_ok o c {A} (prog : ST Pool A) (kf : A -> flight) (kl : list nat) : CInv c -> given o = [] ->
  exec o c = after (prog (pool c)) (fun a st => mkConfig st (kf a) (calls c) kl) ->
  runs prog (pool c) (fun a st => exists S F, G (pool c) (inflight c) [] (pending c ++ lost c) st (kf a) [] (pending c ++ kl) (owed c) S F) -> StepOk o c.
Proof.
  intros [I Hs] Hg He Hr. apply runs_elim in Hr as (a & st & E & S & F & [I' Ev L]). eexists _, S, F. rewrite He, E, Hg. split; [reflexivity|].
  split; [by split|]. split; [done|exact L].
Qed.

Lemma acct_perm max w fl fl' : fl ≡ₚ fl' -> Acct max w fl -> Acct max w fl'.
Proof.
  intros HP [H1 H2 H3 H4 H5 H6 H7 H8]. split; try done.
  - intros c d Hd. rewrite <- (cnt_perm c fl fl' HP). by apply H4.
  - intros x Hx. apply H5. by rewrite HP.
  - intros q. rewrite <- (cqf_perm w q fl fl' HP). apply H6.
  - intros q. rewrite <- (cqf_perm w q fl fl' HP). apply H7.
  - intros id e i. rewrite <- (cnt_perm (id, i) fl fl' HP). apply H8.
Qed.
Lemma jinv_perm s w fl fl' : fl ≡ₚ fl' -> JInv (max_cqe cfg) s w fl -> JInv (max_cqe cfg) s w fl'.
Proof. intros HP [? ? ?]. split; [done|by eapply acct_perm|done]. Qed.

(** ** Steps of a submission *)

Lemma imap_snd {A} (ls : list A) : (imap pair ls).*2 = ls.
Proof. apply list_eq. intros i. rewrite list_lookup_fmap, list_lookup_imap. by destruct (ls !! i). Qed.

Lemma owed_app ks k : foldr (fun k n => routed k + n) 0 (ks ++ [k]) = foldr (fun k n => routed k + n) 0 ks + routed k.
Proof. induction ks as [|k' ks IH]; cbn; [lia|rewrite IH; lia]. Qed.

Lemma route_ok c th a ss : CInv c -> Admissible (Route th a ss) c -> StepOk (Route th a ss) c.
Proof.
  intros [I Hs] (ND & Hon & Hf & Hd & Hr). set (l := pending c ++ lost c) in *.
  pose proof (pinv_take _ _ _ _ _ _ _ ss I ND Hon) as I0. rewrite app_nil_r in I0.
  assert (R : runs (route th a ss) (pool c) (fun ls st => exists F, G (pool c) (inflight c) ss l st (inflight c) (concat ls) l (owed c + Z.of_nat (length (concat ls))) [] F /\
    Fresh (mem st) (concat ls) /\ length ls = kShardCount)).
  { unfold route. apply runs_bind. eapply runs_mono; [apply (look_up_ok (sa_desc_of a) Hd ss ∅ (pool c)); [done|]|].
    { intros s Hin. destruct (Hon s Hin) as [(x & Hx & _) _]. by exists x. }
    intros descs st [-> HD]. assert (Ec : concat (replicate kShardCount ([] : list nat)) = []) by done.
    eapply runs_mono; [apply (route_slices_ok (JInv (max_cqe cfg)) workers cfg (sa_reload a) (sa_rand a) (sa_rand2 a) (sa_now a) (sa_now_failed a) th Hr ss descs (replicate kShardCount []) (pool c) (inflight c) [] l (owed c + Z.of_nat (length ss)));
      [rewrite Ec, !app_nil_r; exact I0|done|done]|].
    rewrite Ec. intros ls st' (F & G1 & [S1 _] & L1 & P1). cbn [app] in *. rewrite !app_nil_r in G1. exists F. split_and!; [| |done].
    - replace (owed c + Z.of_nat (length (concat ls))) with (owed c + Z.of_nat (length ss) - Z.of_nat (length F)) by (rewrite <- P1, length_app; lia). exact G1.
    - eapply fresh_steady; [exact S1|]. eapply fresh_sub; [|exact Hf]. intros s Hin. rewrite <- P1. apply elem_of_app. by left. }
  apply runs_elim in R as (ls & st & E & F & [I' Ev L] & Hfr & Hlen). unfold StepOk. cbn [exec given]. rewrite E. eexists _, [], F. split; [reflexivity|].
  set (c' := mkConfig _ _ _ _).
  assert (Hp : pending c' = pending c ++ concat ls).
  { unfold pending, c'. cbn [calls]. rewrite fmap_app, concat_app. cbn. by rewrite imap_snd, app_nil_r. }
  assert (Hl : unfinished c' ≡ₚ live st (inflight c) (concat ls) l).
  { unfold unfinished. cbn [pool inflight lost c']. rewrite Hp. unfold live, l. solve_Permutation. }
  split; [|split; [exact Ev|]].
  - split.
    + replace (owed c') with (owed c + Z.of_nat (length (concat ls))) by (unfold owed, c'; cbn [calls]; by rewrite owed_app).
      eapply pinv_regroup; [exact I'|apply I'|exact Hl|done|]. pose proof (flight_fresh _ _ _ _ _ I') as Hff. cbn [inflight pool lost c'].
      intros s x. rewrite Hp. intros Hin Hx. assert (Hin' : s ∈ concat ls \/ s ∈ (inflight c).*1 ++ l) by (unfold l; rewrite !elem_of_app in *; tauto).
      destruct Hin'; [by apply (Hfr s)|by apply (Hff s)].
    + cbn [calls c']. intros k e [Hk|Hk]%elem_of_app; [by apply Hs|]. apply list_elem_of_singleton in Hk as ->. cbn.
      intros He. apply list_elem_of_lookup in He as [i Hi]. rewrite list_lookup_imap in Hi. destruct (ls !! i) eqn:El; [|done]. cbn in Hi. simplify_eq. cbn.
      rewrite <- Hlen. by eapply lookup_lt_Some.
  - rewrite Hl. cbn [app] in *. rewrite L. unfold unfinished, live. fold l. solve_Permutation.
Qed.

Lemma pending_insert c k cl t n : calls c !! k = Some cl -> concat ((fun k => concat (todo k).*2) <$> <[k := mkCall t n]> (calls c)) ++ concat (todo cl).*2 ≡ₚ concat t.*2 ++ pending c.
Proof.
  intros Hk. unfold pending. rewrite <- (take_drop_middle _ _ _ Hk) at 2. pose proof (lookup_lt_Some _ _ _ Hk). rewrite insert_take_drop by done.
  rewrite !fmap_app, !concat_app. cbn. solve_Permutation.
Qed.

Lemma owed_insert ks k cl t : ks !! k = Some cl -> foldr (fun k n => routed k + n) 0 (<[k := mkCall t (routed cl)]> ks) = foldr (fun k n => routed k + n) 0 ks.
Proof. revert k. induction ks as [|k' ks IH]; intros [|k] Hk; try done; cbn in *; [by simplify_eq|by rewrite IH]. Qed.

Lemma fill_ok c k : CInv c -> Admissible (Fill k) c -> StepOk (Fill k) c.
Proof.
  intros [I Hs] ([shard l] & t & n & Hk). set (c0 := <[k := mkCall t n]> (calls c)).
  assert (Hp : pending c ≡ₚ l ++ pending (mkConfig (pool c) (inflight c) c0 (lost c))).
  { pose proof (pending_insert c k _ t n Hk) as HP. unfold pending at 2. cbn [calls]. fold c0 in HP. cbn [todo fmap list_fmap snd concat] in HP.
    apply (Permutation_app_inv_r (concat t.*2)). transitivity (concat t.*2 ++ pending c); [solve_Permutation|]. rewrite <- HP. solve_Permutation. }
  set (p0 := pending (mkConfig _ _ c0 _)) in *.
  assert (Hsh : (shard < kShardCount)%nat) by (apply (Hs _ (shard, l) ltac:(by eapply list_elem_of_lookup_2)); left).
  assert (I0 : PI (pool c) (inflight c) (l ++ []) (p0 ++ lost c) (owed c)).
  { rewrite app_nil_r. eapply pinv_regroup; [exact I|apply I|unfold live; rewrite Hp; solve_Permutation|done|].
    eapply fresh_sub; [|exact (flight_fresh _ _ _ _ _ I)]. intros s. rewrite Hp, !elem_of_app. tauto. }
  assert (Hf : Fresh (mem (pool c)) l).
  { eapply fresh_sub; [|exact (flight_fresh _ _ _ _ _ I)]. intros s. rewrite Hp, !elem_of_app. tauto. }
  pose proof (fill_shard_ok _ _ shard l (pool c) (inflight c) [] (p0 ++ lost c) (owed c) I0 Hsh Hf) as R.
  apply runs_elim in R as (u & st & E & [I' Ev L] & _). unfold StepOk. cbn [exec given]. rewrite Hk, E. eexists _, [], []. split; [reflexivity|].
  assert (Ho : owed (mkConfig st (inflight c) c0 (lost c)) = owed c) by (unfold owed; cbn [calls]; by apply (owed_insert (calls c) k _ t Hk)).
  split; [split|split; [exact Ev|]].
  - change (PI st (inflight c) [] (p0 ++ lost c) (owed (mkConfig st (inflight c) c0 (lost c)))). by rewrite Ho.
  - cbn [calls]. intros k' e Hk' He. apply list_elem_of_lookup in Hk' as [i Hi]. unfold c0 in Hi. rewrite list_lookup_insert in Hi. case_decide as D.
    + simplify_eq. apply (Hs (mkCall ((shard, l) :: t) n)); [by eapply list_elem_of_lookup_2|]. cbn in *. by right.
    + eapply Hs; [by eapply list_elem_of_lookup_2|done].
  - cbn [app]. etransitivity; [exact L|]. unfold unfinished, live. rewrite Hp. solve_Permutation.
Qed.

(** A call that has nothing left to hand over ends. *)
Lemma call_ends ks k cl : ks !! k = Some cl -> todo cl = [] ->
  concat ((fun k => concat (todo k).*2) <$> delete k ks) = concat ((fun k => concat (todo k).*2) <$> ks) /\
  foldr (fun k n => routed k + n) 0 ks = foldr (fun k n => routed k + n) 0 (delete k ks) + routed cl.
Proof.
  intros Hk Ht. split.
  - rewrite <- (take_drop_middle _ _ _ Hk) at 2. rewrite delete_take_drop, !fmap_app, !concat_app, fmap_cons. cbn [concat]. by rewrite Ht.
  - clear Ht. revert k Hk. induction ks as [|k' ks IH]; intros [|k] Hk; try done.
    + injection Hk as ->. cbn. lia.
    + specialize (IH k Hk). change (delete (S k) (k' :: ks)) with (k' :: delete k ks). cbn [foldr]. lia.
Qed.

(** The last step of a call: the slices stay where they are, the counters
    take up what the call owed. *)
Lemma end_ok o c k cl (prog : ST Pool unit) : CInv c -> given o = [] -> calls c !! k = Some cl -> todo cl = [] ->
  exec o c = after (prog (pool c)) (fun _ st => mkConfig st (inflight c) (delete k (calls c)) (lost c)) ->
  (forall n, PI (pool c) (inflight c) [] (pending c ++ lost c) (n + routed cl) -> runs prog (pool c) (fun _ st =>
    G (pool c) (inflight c) [] (pending c ++ lost c) st (inflight c) [] (pending c ++ lost c) n [] [])) -> StepOk o c.
Proof.
  intros [I Hs] Hg Hk Ht He Hr. destruct (call_ends _ _ _ Hk Ht) as [Hp Ho].
  set (c0 := mkConfig (pool c) (inflight c) (delete k (calls c)) (lost c)).
  assert (I0 : PI (pool c) (inflight c) [] (pending c ++ lost c) (owed c0 + routed cl)) by (unfold owed, c0; cbn [calls]; rewrite <- Ho; exact I).
  specialize (Hr _ I0). apply runs_elim in Hr as (u & st & E & [I' Ev L]). unfold StepOk. rewrite He, E, Hg. eexists _, [], []. split; [reflexivity|].
  split; [split|split; [exact Ev|]].
  - cbn [pool inflight lost]. unfold pending. cbn [calls]. rewrite Hp. exact I'.
  - cbn [calls]. intros k' e Hk' He'. eapply Hs; [|done]. rewrite list_elem_of_lookup in Hk' |- *. destruct Hk' as [i Hi]. rewrite list_lookup_delete in Hi. case_decide; by eexists.
  - unfold unfinished at 1. unfold pending. cbn [pool inflight lost calls app]. rewrite Hp. exact L.
Qed.

Lemma count_ok c k : CInv c -> Admissible (Count k) c -> StepOk (Count k) c.
Proof.
  intros I (n & Hk). apply (end_ok (Count k) c k _ (upd_pool (add_submitted n)) I eq_refl Hk eq_refl); [cbn [exec]; by rewrite Hk|].
  intros m I0. eapply runs_mono; [apply (count_goes _ _ (pool c) (inflight c) [] (pending c ++ lost c) m n I0)|]. by intros [] st [? _].
Qed.

(** ** Steps of the workers *)

Context (Hqp : (0 < num_qp_per_ep cfg)%nat).

Lemma collect_step c th shard : CInv c -> Admissible (Collect th shard) c -> StepOk (Collect th shard) c.
Proof.
  intros I [Hth Hsh]. eapply (stays_ok _ c (collect_shard th shard) (fun _ => inflight c) (lost c) I); [done|done|].
  eapply runs_mono; [apply (collect_shard_ok _ _ th Hth _ _ _ _ _ shard (ci_pool _ I) Hsh)|]. intros [] st [H _]. by exists [], [].
Qed.

Lemma send_step c th a : CInv c -> Admissible (Send th a) c -> StepOk (Send th a) c.
Proof.
  intros I (Hth & Hc & Hd & Hi). eapply (stays_ok _ c (send th a) (fun t => inflight c ++ t) (lost c) I); [done|done|].
  eapply runs_mono; [apply (send_queued_ok (max_cqe cfg) workers th Hth cfg eq_refl Hqp (pa_create_ok a) (pa_destroy_ok a) (pa_held a) Hc (pa_desc_of a) (pa_rand a) Hd (pa_iter a) Hi); apply (ci_pool _ I)|].
  intros t st (F & H). by exists [], F.
Qed.

Lemma rest_filter (fl done rest : flight) D : NoDup fl.*1 -> fl ≡ₚ done ++ rest -> done.*1 = D -> filter (fun x => x.1 ∉ D) fl ≡ₚ rest.
Proof.
  intros ND HP <-. rewrite HP, filter_app, fmap_app in *. apply list.NoDup_app in ND as (_ & Hd & _).
  assert (E1 : filter (fun x : nat * cell => x.1 ∉ done.*1) done = []).
  { apply filter_none. intros x Hx Hn. apply Hn. apply list_elem_of_fmap. by exists x. }
  rewrite E1, filter_all; [done|]. intros x Hx Hin. apply (Hd _ Hin). apply list_elem_of_fmap. by exists x.
Qed.

Lemma poll_step c th wc : CInv c -> Admissible (Poll th wc) c -> StepOk (Poll th wc) c.
Proof.
  intros [IP Hs] (Hth & HD). set (D := (delivers wc (polled c th)).*1).
  pose proof (collect_completions_ok (max_cqe cfg) workers th Hth wc cfg _ _ _ _ _ IP HD) as R.
  apply runs_elim in R as (k & st & E & done & rest & F & Hk & HP & Hd & [I' Ev L]).
  assert (HR : filter (fun x => x.1 ∉ D) (inflight c) ≡ₚ rest).
  { apply (rest_filter _ done); [|done|exact Hd]. pose proof (pi_nodup _ _ _ _ _ _ _ IP) as ND. unfold live in ND. cbn [app] in ND.
    apply list.NoDup_app in ND as (_ & _ & ND). by apply list.NoDup_app in ND as (? & _). }
  assert (HL : live st (filter (fun x => x.1 ∉ D) (inflight c)) [] (pending c ++ lost c) ≡ₚ live st rest [] (pending c ++ lost c)) by (unfold live; by rewrite HR).
  set (c' := mkConfig st (filter (fun x => x.1 ∉ D) (inflight c)) (calls c ++ [mkPoll k]) (lost c)).
  assert (Ep : pending c' = pending c) by (unfold pending, c'; cbn [calls]; rewrite fmap_app, concat_app; cbn; by rewrite !app_nil_r).
  assert (Eo : owed c' = owed c - k) by (unfold owed, c'; cbn [calls]; rewrite owed_app; cbn [routed]; lia).
  exists c', (succeeded (delivers wc (polled c th))), F. split; [cbn [exec]; by rewrite E|]. split; [split|split; [exact Ev|]].
  - rewrite Ep, Eo. cbn [c' pool inflight lost]. eapply pinv_regroup; [exact I'| |exact HL|intros x; by rewrite HR|].
    + eapply jinv_perm; [symmetry; exact HR|apply I'].
    + eapply fresh_sub; [|exact (flight_fresh _ _ _ _ _ I')]. intros s. by rewrite HR.
  - cbn [c' calls]. intros k' e [Hk'| ->%list_elem_of_singleton]%elem_of_app He; [by eapply Hs|]. by apply elem_of_nil in He.
  - cbn [given app]. unfold unfinished at 1. rewrite Ep. cbn [c' pool inflight lost]. by rewrite HL.
Qed.

Lemma tally_step c k : CInv c -> Admissible (Tally k) c -> StepOk (Tally k) c.
Proof.
  intros I (n & Hk). apply (end_ok (Tally k) c k _ (count_processed n) I eq_refl Hk eq_refl); [cbn [exec]; by rewrite Hk|].
  intros m I0. by apply (count_processed_ok workers).
Qed.

(** ** Steps of the monitor and of peers *)

Lemma kept_none fl : kept [] fl = fl.
Proof. apply filter_all. intros x _. apply not_elem_of_nil. Qed.

(** Connections are reset; the requests on them will not complete. *)
Lemma reset_ok o c {A} (prog : ST Pool A) ids : CInv c -> given o = [] -> exec o c = after (prog (pool c)) (fun _ => reset c ids) ->
  runs prog (pool c) (fun _ st => mem st = mem (pool c) /\ queues (worker_pool_ (ctx st)) = queues (worker_pool_ (ctx (pool c))) /\
    JInv (max_cqe cfg) (endpoint_store_ (ctx st)) (world (ctx st)) (kept ids (inflight c))) -> StepOk o c.
Proof.
  intros I Hg He Hr. eapply (stays_ok o c prog (fun _ => kept ids (inflight c)) (lost c ++ gone ids (inflight c)) I); [done|done|].
  eapply runs_mono; [exact Hr|]. intros a st (Em & Eq & HJ). exists [], [].
  assert (HP : inflight c ≡ₚ filter (fun x => x.2.1 ∈ ids) (inflight c) ++ kept ids (inflight c)) by (symmetry; apply filter_app_complement).
  assert (HL : live st (kept ids (inflight c)) [] (pending c ++ lost c ++ gone ids (inflight c)) ≡ₚ live (pool c) (inflight c) [] (pending c ++ lost c)).
  { unfold live. rewrite (queues_places _ _ Eq). assert (Hf : (inflight c).*1 ≡ₚ gone ids (inflight c) ++ (kept ids (inflight c)).*1) by (unfold gone; rewrite <- fmap_app, <- HP; done).
    rewrite Hf. solve_Permutation. }
  destruct (ci_pool _ I) as [HJ0 HW HN HO HF HFl HR HC]. split; [|rewrite Em; apply ev_refl|by rewrite HL, !app_nil_r].
  split; rewrite ?Em; try done.
  - by eapply queues_wf.
  - by rewrite HL.
  - intros s. rewrite HL. apply HO.
  - eapply fresh_sub; [|exact HF]. intros s Hs. assert (Hs' : s ∈ live st (kept ids (inflight c)) [] (pending c ++ lost c ++ gone ids (inflight c))) by (unfold live; cbn [app]; exact Hs).
    rewrite HL in Hs'. unfold live in Hs'. cbn [app] in Hs'. exact Hs'.
  - intros s x y Hs. apply HFl. unfold kept in Hs. by apply list_elem_of_filter in Hs as [_ ?].
  - unfold queues in Eq. injection Eq as _ _ _ _ -> ->. by rewrite (Permutation_length HL).
Qed.

Lemma same_step o c {A} (prog : ST Pool A) : CInv c -> given o = [] -> exec o c = after (prog (pool c)) (fun _ st => mkConfig st (inflight c) (calls c) (lost c)) ->
  runs prog (pool c) (fun _ st => mem st = mem (pool c) /\ queues (worker_pool_ (ctx st)) = queues (worker_pool_ (ctx (pool c))) /\
    JInv (max_cqe cfg) (endpoint_store_ (ctx st)) (world (ctx st)) (inflight c)) -> StepOk o c.
Proof.
  intros I Hg He Hr. apply (reset_ok o c prog [] I Hg); [|by rewrite kept_none]. rewrite He. unfold reset, gone. rewrite kept_none.
  assert (E : filter (fun x : nat * cell => x.2.1 ∈ []) (inflight c) = []).
  { apply filter_none. intros x _ Hx. by apply elem_of_nil in Hx. }
  by rewrite E, app_nil_r.
Qed.

Lemma event_step c now e : CInv c -> Admissible (Event now e) c -> StepOk (Event now e) c.
Proof.
  intros I Ha. pose proof (pi_joint _ _ _ _ _ _ _ (ci_pool _ I)) as HJ. eapply (reset_ok _ c (doProcessContextEvents now e) _ I); [done|done|].
  unfold doProcessContextEvents. destruct e as [[id| | |]|]; rewrite ?kept_none; try (apply runs_ret; done).
  - apply runs_bind, on_store_runs. eapply runs_mono; [by apply (set_active_joint (max_cqe cfg) _ _ _ id false now HJ)|]. intros [] [s w] [E J']. cbn in *. subst s. done.
  - apply runs_modify. apply runs_bind, on_store_runs, runs_bind. eapply runs_mono; [apply (disconnectQPs_joint _ _ _ _ HJ)|]. intros r [s w] [E J']. cbn in *. subst s. done.
Qed.

Lemma find_step c a path : CInv c -> Admissible (FindEndpoint a path) c -> StepOk (FindEndpoint a path) c.
Proof.
  intros I Ha. pose proof (pi_joint _ _ _ _ _ _ _ (ci_pool _ I)) as HJ. eapply same_step; [done|done|reflexivity|].
  apply on_store_runs. eapply runs_mono; [by apply (endpoint_joint (max_cqe cfg) _ (pa_destroy_ok a) (pa_held a) Ha); [apply HJ|]|].
  intros r [s w] [J' _]. done.
Qed.

Lemma accept_step c id a nicPath peer_desc local_desc : CInv c -> Admissible (Accept id a nicPath peer_desc local_desc) c -> StepOk (Accept id a nicPath peer_desc local_desc) c.
Proof.
  intros I [e He]. pose proof (pi_joint _ _ _ _ _ _ _ (ci_pool _ I)) as HJ. eapply (reset_ok _ c (accept id a nicPath peer_desc local_desc) (replaced c id) I); [done|done|].
  destruct (HsProofs.passive_joint (ha_modify_ok a) qp_number (ha_strerror a) (max_cqe cfg) nicPath (ha_by_name a) peer_desc local_desc _ _ _ id e HJ He) as (r & w & E & J').
  apply on_store_runs, on_world_runs, runs_bind. apply (runs_eq _ _ _ _ _ E). apply runs_ret. split_and!; [done|done|]. cbn [fst snd with_eps ctx endpoint_store_ world].
  unfold replaced. rewrite He. destruct (bool_decide _); [|by rewrite kept_none].
  assert (Ek : kept [id] (inflight c) = filter (fun x => x.2.1 <> id) (inflight c)) by (apply list_filter_iff; intros x; by rewrite list_elem_of_singleton).
  by rewrite Ek.
Qed.

Lemma step_ok o c : CInv c -> Admissible o c -> StepOk o c.
Proof.
  intros I Ha. destruct o.
  - by apply route_ok.
  - by apply fill_ok.
  - by apply count_ok.
  - by apply collect_step.
  - by apply send_step.
  - by apply poll_step.
  - by apply tally_step.
  - by apply event_step.
  - eapply same_step; [done|done|reflexivity|]. split_and!; [done|done|apply (pi_joint _ _ _ _ _ _ _ (ci_pool _ I))].
  - by apply find_step.
  - by apply accept_step.
Qed.

(** ** Calls as sequences of steps *)

Fixpoint run (os : list Op) (c : Config) : option Config :=
  match os with [] => Some c | o :: os => match exec o c with Some c' => run os c' | None => None end end.

Lemma run_app os os' c : run (os ++ os') c = match run os c with Some c' => run os' c' | None => None end.
Proof. revert c. induction os as [|o os IH]; intros c; [done|]. cbn [app run]. by destruct (exec o c). Qed.

Lemma route_slices_length reload rand rand2 now now_failed th ss : forall descs ls st ls' st',
  route_slices cfg reload rand rand2 now now_failed th ss descs ls st = Some (ls', st') -> length ls' = length ls.
Proof.
  induction ss as [|s ss IH]; intros descs ls st ls' st'; cbn [route_slices]; [by intros [= -> _]|].
  unfold bind at 1. destruct (route_slice _ _ _ _ _ _ _ _ _ st) as [[[[shard|] d] st1]|]; [|by apply IH|done].
  unfold bind, lift. destruct (ls !! shard) as [l|]; [|done]. intros H. apply IH in H. by rewrite length_insert in H.
Qed.

(** Filling the shards of the last call one after the other. *)
Lemma run_fills ls : forall shard n st fl ks lo,
  run (replicate (length ls) (Fill (length ks))) (mkConfig st fl (ks ++ [mkCall (zip (seq shard (length ls)) ls) n]) lo) =
  after (fill_shards shard ls st) (fun _ st' => mkConfig st' fl (ks ++ [mkCall [] n]) lo).
Proof.
  induction ls as [|l ls IH]; intros shard n st fl ks lo; [done|]. cbn [length replicate run seq zip zip_with fill_shards exec calls].
  rewrite list_lookup_middle by done. unfold bind. cbn [pool]. destruct (fill_shard shard l st) as [[[] st1]|]; [|done]. cbn [after inflight lost].
  rewrite insert_app_r_alt by done. rewrite Nat.sub_diag. cbn [insert list_insert]. apply IH.
Qed.

Lemma imap_zip {A} (ls : list A) : imap pair ls = zip (seq 0 (length ls)) ls.
Proof.
  apply list_eq. intros i. rewrite list_lookup_imap, lookup_zip_with. destruct (ls !! i) as [l|] eqn:E.
  - rewrite lookup_seq_lt by (by eapply lookup_lt_Some). done.
  - cbn. by destruct (seq 0 (length ls) !! i).
Qed.

Lemma submit_run th a ss c : let k := length (calls c) in
  run (Route th a ss :: replicate kShardCount (Fill k) ++ [Count k]) c =
  after (submitPostSend cfg (sa_desc_of a) (sa_reload a) (sa_rand a) (sa_rand2 a) (sa_now a) (sa_now_failed a) th ss (pool c))
    (fun _ st => mkConfig st (inflight c) (calls c) (lost c)).
Proof.
  intros k. cbn [run exec]. unfold submitPostSend, route, bind. destruct (look_up _ _ _ _) as [[descs st0]|]; [|done].
  destruct (route_slices _ _ _ _ _ _ _ _ _ _ _) as [[ls st1]|] eqn:E; [|done]. apply route_slices_length in E. rewrite length_replicate in E.
  cbn [after]. rewrite run_app, imap_zip, <- E. unfold k. rewrite run_fills. destruct (fill_shards 0 ls st1) as [[[] st2]|]; [|done]. cbn [after run exec calls].
  rewrite list_lookup_middle by done. cbn [after upd_pool modify pool inflight lost]. f_equal. f_equal.
  rewrite delete_middle. by rewrite app_nil_r.
Qed.

Lemma run_collects th shards c : run (Collect th <$> shards) c = after (each (collect_shard th) shards (pool c)) (fun _ st => mkConfig st (inflight c) (calls c) (lost c)).
Proof.
  revert c. induction shards as [|s l IH]; intros c; [by destruct c|]. cbn [fmap list_fmap run exec each]. unfold bind.
  destruct (collect_shard th s (pool c)) as [[[] st]|]; [|done]. cbn [after]. rewrite IH. done.
Qed.

Lemma post_run th a c :
  run ((Collect th <$> stride kShardCount th workers kShardCount) ++ [Send th a]) c =
  after (performPostSend cfg (pa_create_ok a) (pa_destroy_ok a) (pa_held a) (pa_desc_of a) (pa_rand a) (pa_iter a) (pa_now a) (pa_new_cq a) (pa_handshake a)
    local_server_name qp_number (pa_draw a) (pa_post a) th (pool c)) (fun t st => mkConfig st (inflight c ++ t) (calls c) (lost c)).
Proof.
  rewrite run_app, run_collects. unfold performPostSend, bind. destruct (each _ _ _) as [[[] st]|]; [|done]. cbn [after run exec pool inflight calls lost].
  fold (send th a). destruct (send th a st) as [[t st']|]; done.
Qed.

Lemma poll_run th wc c : let k := length (calls c) in
  run [Poll th wc; Tally k] c = after (performPollCq cfg th wc (pool c)) (fun _ st =>
    mkConfig st (filter (fun x => x.1 ∉ (delivers wc (polled c th)).*1) (inflight c)) (calls c) (lost c)).
Proof.
  intros k. cbn [run exec]. unfold performPollCq, bind. destruct (collect_completions _ _ _ _) as [[n st]|]; [|done]. cbn [after calls pool].
  unfold k. rewrite list_lookup_middle by done. destruct (count_processed n st) as [[[] st']|]; [|done]. cbn [after inflight lost].
  f_equal. f_equal. rewrite delete_middle. by rewrite app_nil_r.
Qed.

End system.
End WkSys.
