(* ===== verification/WorkerProps.v ===== *)
(** * WorkerProps: what a worker pool guarantees

    For every interleaving of the threads of a context: no step reads or
    writes out of bounds or through a stale pointer, every slice handed over is
    in exactly one place until it has its one outcome, and the pool sleeps
    exactly when nothing is left to do. *)

From Stdlib Require Import ZArith Lia.
From stdpp Require Import base list gmap strings numbers list_tactics.
From S2P Require Import Prelude Topology TopologyProofs TopologyProps Endpoint EndpointStore EndpointInv EndpointProps EndpointSieve EndpointFlight EndpointRuns Transport Handshake EndpointJoint HandshakeProofs TransportProofs Worker WorkerInv WorkerSubmit WorkerPost WorkerPoll WorkerSys.
Import EpSieveOps EpFlight EpJoint TrProofs WkQueues WkInv WkSubmit WkPost WkPoll WkSys.
Import (hints) Endpoint.
Import Transport Worker.

Open Scope moon_scope.
Open Scope Z_scope.

Module WkProps.

(** ** Descriptions *)

(** A description with a topology its operations built, a device for each name
    the topology lists, and keys of every buffer for each device. *)
Lemma desc_ok d G : TopoProps.Fits (sd_topology d) G -> length (sd_devices d) = length (Topology.hca_list_ (sd_topology d)) ->
  Forall (fun b => length (b_rkey b) = length (sd_devices d) /\ length (b_lkey b) = length (sd_devices d)) (sd_buffers d) -> DescOk d.
Proof.
  intros HF Hl HK. split; [|done]. intros rand location hint r Hr. unfold topology_select. rewrite Hl.
  assert (Hi : forall d', d' = Topology.ERR_DEVICE_NOT_FOUND /\ Topology.resolved_matrix_ (sd_topology d) !! location = None \/
    0 <= d' < Z.of_nat (length (Topology.hca_list_ (sd_topology d))) -> d' < 0 \/ d' < Z.of_nat (length (Topology.hca_list_ (sd_topology d)))).
  { intros d' [[-> _]|H]; [left; by vm_compute|right; lia]. }
  destruct (String.eqb hint ""); [destruct (TopoProps.select_defined _ G rand location hint r HF Hr _ (or_introl eq_refl)) as (i & E & H)
    |destruct (TopoProps.select_defined _ G rand location hint r HF Hr _ (or_intror eq_refl)) as (i & E & H)]; exists i; auto.
Qed.

Section system.
Context (cfg : GlobalConfig) (local_server_name : string) (qp_number : nat -> nat -> Z).
Context (Hqp : (0 < num_qp_per_ep cfg)%nat).
Abbreviation workers := (workers_per_ctx cfg).
Abbreviation Reach := (Reach cfg local_server_name qp_number).
Abbreviation exec := (exec cfg local_server_name qp_number).

(** ** Reachable configurations *)

Lemma new_inv m name cqs k : AllRanged m -> 0 <= Endpoint.s32 (max_cqe cfg) -> 2 <= k ->
  CInv cfg (mkConfig (mkState m (new_context cfg name cqs k) ∅) [] [] []).
Proof.
  intros HR Hm Hk. split; [|intros ? ? Hin; by apply elem_of_nil in Hin].
  assert (HP : places (new_pool workers) = []) by (unfold places, new_pool; cbn [slice_queue_ collective_slice_queue_]; by rewrite !qlists_none).
  assert (HL : live (mkState m (new_context cfg name cqs k) ∅) [] [] [] = []) by (unfold live; cbn [ctx worker_pool_ new_context]; by rewrite HP).
  split; cbn [pool inflight ctx mem]; unfold pending; cbn [calls lost fmap list_fmap concat app]; rewrite ?HL; try done.
  - split; [|by apply EpRuns.empty_acct|done]. destruct (EpProps.empty_store_inv (fst : nat * bool -> nat) k) as [I H]. by split.
  - split; cbn; rewrite ?length_replicate; try done.
  - apply NoDup_nil_2.
  - intros s Hs. by apply elem_of_nil in Hs.
  - cbn [new_context worker_pool_]. rewrite HP. intros s x Hs. by apply elem_of_nil in Hs.
  - intros s c x Hs. by apply elem_of_nil in Hs.
Qed.

Lemma client_inv c m : CInv cfg c -> Client c m -> CInv cfg (mkConfig (with_mem (pool c) m) (inflight c) (calls c) (lost c)).
Proof.
  intros [I Hs] [HR Hc]. split; [|done]. destruct I as [HJ HW HN HO HF HFl HR0 HC].
  assert (Hsame : forall s, s ∈ unfinished c -> slices m !! s = slices (mem (pool c)) !! s) by (intros s Hin; by apply Hc).
  split; try done; cbn [pool inflight with_mem mem ctx].
  - intros s Hin. destruct (HO s Hin) as (x & Hx & _ & H). exists x. rewrite Hsame by done. split; [done|]. split; [|done].
    by apply (Hc s Hin).
  - intros s x Hin. rewrite Hsame; [by apply HF|]. unfold unfinished, live. exact Hin.
  - intros s k x Hin. rewrite Hsame; [by apply HFl|]. unfold unfinished, live. rewrite !elem_of_app. right. right. left. apply list_elem_of_fmap. by exists (s, k).
Qed.

Lemma config_inv c : Reach c -> CInv cfg c.
Proof.
  induction 1 as [m x HR Hm (name & cqs & k & Hk & ->)|o c c' _ I Ha E|c m _ I Hc].
  - by apply new_inv.
  - destruct (step_ok cfg local_server_name qp_number Hqp o c I Ha) as (c'' & S & F & E' & I' & _). congruence.
  - by apply client_inv.
Qed.

(** ** Theorems *)

(** C6: in every state any interleaving of the threads of a context leads to,
    failed posts and completions, device events, resets of connections and
    handshakes of peers included, every operation that may run next returns;
    each slice the pool has or gets afterwards is still with it, has succeeded
    or has failed, and the counters of its task count exactly the outcomes of
    the step.  This is for an endpoint store with room for at least two, queue
    pairs that can be created, descriptions with a device for every name of
    their topology and keys for every device, at least one queue pair per
    endpoint, and completions only of requests in flight.  Threads interleave
    between steps; the posting of a thread's queue is one step, and so is
    collecting completions up to the counting, which is another. *)
Theorem pool_conserves c o : Reach c -> Admissible cfg o c ->
  exists c' S F, exec o c = Some c' /\ Reach c' /\ unfinished c' ++ S ++ F ≡ₚ given o ++ unfinished c /\ Evolves (mem (pool c)) (mem (pool c')) S F.
Proof.
  intros R Ha. destruct (step_ok cfg local_server_name qp_number Hqp o c (config_inv c R) Ha) as (c' & S & F & E & _ & Ev & L).
  exists c', S, F. split_and!; [done|by eapply reach_op|done|done].
Qed.

(** C7: no slice is in two places at once, in two queues, queued and in
    flight, or twice in one list; each has no outcome yet, and the attempts
    made for one that is queued or in flight are below its limit. *)
Theorem slices_in_one_place c : Reach c -> NoDup (unfinished c) /\
  forall s, s ∈ unfinished c -> exists x, slices (mem (pool c)) !! s = Some x /\ fin x = None /\ 0 <= retry_cnt x < max_retry_cnt x.
Proof.
  intros R. pose proof (ci_pool _ _ (config_inv c R)) as I. split; [apply I|]. intros s Hs.
  destruct (pi_live _ _ _ _ _ _ _ I s Hs) as (x & Hx & _ & Hf & Hr & _). exists x. split_and!; [done|done|lia|].
  apply (pi_fresh _ _ _ _ _ _ _ I s); [exact Hs|done].
Qed.

(** C17: between the steps of the threads, when no call of [submitPostSend] is
    under way and no poll has completions it has not counted yet, the test the
    worker threads sleep on holds exactly when the pool has no slice left:
    none queued, in flight, or lost with a connection that was reset (fewer
    than 2^64 of them). *)
Theorem idle_exact c : Reach c -> calls c = [] -> Z.of_nat (length (unfinished c)) < 2 ^ 64 ->
  (idle (worker_pool_ (ctx (pool c))) = true <-> unfinished c = []).
Proof.
  intros R Hc Hl. pose proof (ci_pool _ _ (config_inv c R)) as I. pose proof (pi_count _ _ _ _ _ _ _ I) as HC.
  destruct (pi_pool _ _ _ _ _ _ _ I) as [_ _ _ _ Hs Hp]. fold (unfinished c) in HC.
  assert (Ho : owed c = 0) by (unfold owed; by rewrite Hc). rewrite Ho, Z.add_0_r, (u64_small _ Hs) in HC. unfold idle.
  destruct (Z.eqb_spec (processed_slice_count_ (worker_pool_ (ctx (pool c)))) (submitted_slice_count_ (worker_pool_ (ctx (pool c))))) as [E|E].
  - split; [intros _|done]. rewrite <- E in HC. apply nil_length_inv. unfold u64 in HC.
    destruct (decide (processed_slice_count_ (worker_pool_ (ctx (pool c))) + Z.of_nat (length (unfinished c)) < 2 ^ 64)).
    + rewrite Z.mod_small in HC by lia. lia.
    + rewrite <- (Zmod_unique _ (2 ^ 64) 1 (processed_slice_count_ (worker_pool_ (ctx (pool c))) + Z.of_nat (length (unfinished c)) - 2 ^ 64)) in HC by lia. lia.
  - split; [done|]. intros Hu. rewrite Hu in HC. cbn [length Z.of_nat] in HC. rewrite Z.add_0_r, (u64_small _ Hp) in HC. congruence.
Qed.

(** ** Tasks *)

(** The slices of task [t] the pool has not finished. *)
Definition unfinished_of (c : Config) (t : nat) : list nat := of_task (mem (pool c)) t (unfinished c).

(** Task [t] counts its slices: those with an outcome, those with this pool,
    the [more] to be handed over to it, and [away] others that are with the
    pools of other contexts or not handed over yet. *)
Definition Balanced (c : Config) (more : list nat) (away : nat) (t : nat) : Prop := exists x, tasks (mem (pool c)) !! t = Some x /\ slice_count x < 2 ^ 64 /\
  slice_count x = success_slice_count x + failed_slice_count x + Z.of_nat (length (of_task (mem (pool c)) t more ++ unfinished_of c t) + away).

(** The status a task shows. *)
Definition status_shown (c : Config) (away : nat) (t : nat) (x : TransferTask) : TransferStatusEnum :=
  match unfinished_of c t, away with
  | [], O => if failed_slice_count x =? 0 then COMPLETED else FAILED
  | _, _ => WAITING
  end.

Lemma balance_step c o c' away t : Reach c -> Admissible cfg o c -> exec o c = Some c' -> Balanced c (given o) away t -> Balanced c' [] away t.
Proof.
  intros R Ha E (x & Hx & Hm & Hc). pose proof (config_inv c R) as I.
  destruct (step_ok cfg local_server_name qp_number Hqp o c I Ha) as (c'' & S & F & E' & _ & Ev & L). rewrite E in E'. injection E' as <-.
  pose proof (pi_ranged _ _ _ _ _ _ _ (ci_pool _ _ I)) as HR. destruct (HR t x Hx) as [R1 R2 _].
  pose proof (ev_tasks _ _ _ _ Ev HR t) as Ht. rewrite Hx in Ht. cbn in Ht. unfold Balanced. rewrite Ht. eexists. split; [reflexivity|]. split; [done|].
  unfold unfinished_of. rewrite (ev_of_task _ _ _ _ t (unfinished c') Ev).
  assert (Hl : (length (of_task (mem (pool c)) t (unfinished c')) + (length (of_task (mem (pool c)) t S) + length (of_task (mem (pool c)) t F)) =
    length (of_task (mem (pool c)) t (given o) ++ unfinished_of c t))%nat).
  { rewrite <- !length_app. unfold unfinished_of. rewrite <- !of_task_app. apply Permutation_length. unfold of_task. by rewrite L. }
  unfold counted, set_counts. cbn [slice_count success_slice_count failed_slice_count]. change (of_task (mem (pool c')) t []) with ([] : list nat).
  cbn [app]. rewrite !u64_small by lia. lia.
Qed.

Lemma status_of c away t : Balanced c [] away t -> Reach c -> exists x m', tasks (mem (pool c)) !! t = Some x /\
  task_status t (mem (pool c)) = Some (mkTransferStatus (status_shown c away t x) (transferred_bytes x), m').
Proof.
  intros (x & Hx & Hm & Hc) R. destruct (pi_ranged _ _ _ _ _ _ _ (ci_pool _ _ (config_inv c R)) t x Hx) as [R1 R2 _]. change (of_task (mem (pool c)) t []) with ([] : list nat) in Hc. cbn [app] in Hc.
  exists x. unfold task_status, task_upd, bind, task_get, modify, status_shown. rewrite Hx. destruct (unfinished_of c t) as [|s l] eqn:El; [destruct away as [|away]|].
  - cbn [length] in Hc. rewrite u64_small, (proj2 (Z.eqb_eq _ _)) by lia. rewrite Hx. by eexists.
  - cbn [length] in Hc. rewrite u64_small, (proj2 (Z.eqb_neq _ _)) by lia. by eexists.
  - cbn [length] in Hc. rewrite u64_small, (proj2 (Z.eqb_neq _ _)) by lia. by eexists.
Qed.

(** C16: take a task whose slices are all counted: those with an outcome, those
    with this context's pool or handed over to it now, and any number [away]
    that are with other contexts.  Every step of a thread of this context
    keeps the count exact, and the status asked for after it is the right one:
    WAITING while a slice of the task is with this pool (queued, in flight or
    lost) or away, otherwise FAILED when a slice of it failed and COMPLETED
    when none did.  (The conditions on steps are those of the pool's safety.) *)
Theorem task_status_exact c o c' away t : Reach c -> Admissible cfg o c -> exec o c = Some c' -> Balanced c (given o) away t ->
  Balanced c' [] away t /\ exists x m', tasks (mem (pool c')) !! t = Some x /\
    task_status t (mem (pool c')) = Some (mkTransferStatus
      (match unfinished_of c' t, away with
       | [], O => if failed_slice_count x =? 0 then COMPLETED else FAILED
       | _, _ => WAITING
       end) (transferred_bytes x), m').
Proof.
  intros R Ha E B. pose proof (balance_step c o c' away t R Ha E B) as B'. split; [done|]. apply status_of; [done|]. by eapply reach_op.
Qed.

Definition next (o : Op) (c : Config) : Config := default c (exec o c).

Lemma reach_next o c : Reach c -> Admissible cfg o c -> Reach (next o c).
Proof.
  intros R Ha. destruct (step_ok cfg local_server_name qp_number Hqp o c (config_inv c R) Ha) as (c' & S & F & E & _).
  unfold next. rewrite E. by eapply reach_op.
Qed.

End system.

(** ** One slice from submission to completion *)

Definition cfg0 : GlobalConfig := mkGlobalConfig 1 65536 2 16384 4 1 16 0 false.
Definition peer0 : SegmentDesc := mkSegmentDesc "peer" "rdma" [mkDeviceDesc "mlx5_0" 1 "g0"; mkDeviceDesc "mlx5_1" 2 "g1"] TopoProps.demo
  [mkBufferDesc "cpu:0" 4096 65536 [1; 2] [3; 4] "" 0] [] "" 0 "" new_rank_info 0.
Definition slice0 : Slice := mkSlice 100 512 WRITE 7 "" SlicePending 0 false 4096 0 0 None 0 2 0.
Definition task0 : TransferTask := add_posted 512 (add_slice 0 new_task).
Definition mem0 : Mem := mkMem {[0%nat := slice0]} 1 {[0%nat := task0]} 1 ∅ 0 ∅.
Definition c0 : Config := mkConfig (mkState mem0 (new_context cfg0 "mlx5_0" 1 2) ∅) [] [] [].

Definition submit0 : SubmitArgs := mkSubmitArgs (fun _ => Some peer0) (fun _ => None) (fun _ _ _ => 0) (fun _ _ _ => 0) (fun _ => 0) (fun _ => 0).
Definition number0 (id i : nat) : Z := 17.
Definition handshake0 : HandshakeArgs := mkHandshakeArgs (fun _ _ => true) "" None
  (fun _ d => (0, Handshake.mkHandShake (Handshake.hs_peer_nic_path d) (Handshake.local_nic_path d) [23] "")) (fun _ => Some peer0).
Definition post0 : PostArgs := mkPostArgs (fun _ _ => true) (fun _ _ => true) (fun _ => false) (fun _ _ => Some peer0) (fun _ _ _ => 0) map_to_list
  (fun _ => 0) (fun _ => 0%nat) (fun _ => handshake0) (fun _ => 0) (fun _ => None).
Definition wc0 (q : nat) : option (list (nat * bool)) := Some [(0%nat, true)].

Abbreviation step0 := (next cfg0 "local" number0).
Definition submitted0 : Config := Nat.iter kShardCount (step0 (Fill 0)) (step0 (Route 0 submit0 [0%nat]) c0).
Definition counted0 : Config := step0 (Count 0) submitted0.
Definition posted0 : Config := step0 (Send 0 post0) (fold_left (fun c i => step0 (Collect 0 i) c) (seq 0 kShardCount) counted0).
Definition polled0 : Config := step0 (Poll 0 wc0) posted0.
Definition done0 : Config := step0 (Tally 0) polled0.

Lemma peer0_ok : DescOk peer0.
Proof.
  destruct (TopoProps.resolve_fits TopoProps.iter0 TopoProps.iter0_ok TopoProps.two_nodes) as [G HF].
  apply (desc_ok peer0 G HF); [by vm_compute|]. repeat constructor.
Qed.

Example posted0_flight : inflight posted0 = [(0%nat, (0%nat, 0%nat))] /\ idle (worker_pool_ (ctx (pool posted0))) = false.
Proof. by vm_compute. Qed.
Example done0_idle : unfinished done0 = [] /\ idle (worker_pool_ (ctx (pool done0))) = true.
Proof. by vm_compute. Qed.

Abbreviation Reach0 := (Reach cfg0 "local" number0).
Lemma qp0 : (0 < num_qp_per_ep cfg0)%nat.
Proof. cbn. lia. Qed.

Lemma mem0_slice s x : slices mem0 !! s = Some x -> s = 0%nat /\ x = slice0.
Proof. cbn. rewrite lookup_singleton. case_decide; [subst; by intros [= <-]|done]. Qed.

Lemma c0_reach : Reach0 c0.
Proof.
  apply reach_new; [|by vm_compute|exists "mlx5_0"%string, 1%nat, 2; by split].
  intros t x. cbn. rewrite lookup_singleton. case_decide; [intros [= <-]|done]. split; cbn; lia.
Qed.

Lemma route0_admissible : Admissible cfg0 (Route 0 submit0 [0%nat]) c0.
Proof.
  split; [apply NoDup_singleton|]. split_and!.
  - intros s ->%list_elem_of_singleton. split; [|vm_compute; by intros H%elem_of_nil].
    exists slice0. by split_and!.
  - intros s x _ [_ ->]%mem0_slice. done.
  - intros id d [= <-]. apply peer0_ok.
  - done.
Qed.

Lemma submitted0_reach : Reach0 submitted0.
Proof.
  unfold submitted0. cbn [Nat.iter nat_rect kShardCount].
  do 8 (apply (reach_next cfg0 "local" number0 qp0); [|do 3 eexists; by vm_compute]).
  apply (reach_next cfg0 "local" number0 qp0); [apply c0_reach|apply route0_admissible].
Qed.

Lemma posted0_reach : Reach0 posted0.
Proof.
  unfold posted0. apply (reach_next cfg0 "local" number0 qp0).
  - cbn [seq fold_left kShardCount]. do 8 (apply (reach_next cfg0 "local" number0 qp0); [|split; cbn; unfold kShardCount; lia]).
    unfold counted0. apply (reach_next cfg0 "local" number0 qp0); [apply submitted0_reach|by eexists; vm_compute].
  - split; [cbn; lia|]. split_and!; try done. intros k id d [= <-]. apply peer0_ok.
Qed.

Lemma poll0_admissible : Admissible cfg0 (Poll 0 wc0) posted0.
Proof.
  split; [cbn; lia|]. split; [vm_compute; apply NoDup_singleton|]. intros q cs Hq [= <-] s ok Hs.
  assert (Ep : polled cfg0 posted0 0 = [0%nat]) by (by vm_compute). rewrite Ep in Hq. apply list_elem_of_singleton in Hq as ->. apply list_elem_of_singleton in Hs as [= -> ->].
  exists (0%nat, 0%nat). destruct posted0_flight as [-> _]. split; [left|by vm_compute].
Qed.

(** The slice is in flight and its completion arrives: it leaves the pool. *)
Lemma pool_conserves_witness : exists c' S F, exec cfg0 "local" number0 (Poll 0 wc0) posted0 = Some c' /\ Reach0 c' /\
  unfinished c' ++ S ++ F ≡ₚ [0%nat] /\ Evolves (mem (pool posted0)) (mem (pool c')) S F.
Proof.
  destruct (pool_conserves cfg0 "local" number0 qp0 posted0 (Poll 0 wc0) posted0_reach poll0_admissible) as (c' & S & F & E & R & L & Ev).
  exists c', S, F. split_and!; [exact E|exact R| |exact Ev]. rewrite L. by vm_compute.
Defined.

Lemma slices_in_one_place_witness : NoDup [0%nat] /\ exists x, slices (mem (pool posted0)) !! 0%nat = Some x /\ fin x = None /\ 0 <= retry_cnt x < max_retry_cnt x.
Proof.
  destruct (slices_in_one_place cfg0 "local" number0 qp0 posted0 posted0_reach) as [ND H].
  split; [exact ND|]. apply H. vm_compute. left.
Defined.

Lemma polled0_reach : Reach0 polled0.
Proof. apply (reach_next cfg0 "local" number0 qp0); [apply posted0_reach|apply poll0_admissible]. Qed.

(** After the completion is counted there is nothing to do. *)
Lemma idle_exact_witness : calls done0 = [] /\ (idle (worker_pool_ (ctx (pool done0))) = true <-> unfinished done0 = []).
Proof.
  split; [by vm_compute|]. apply (idle_exact cfg0 "local" number0 qp0); [|by vm_compute|by vm_compute].
  apply (reach_next cfg0 "local" number0 qp0); [apply polled0_reach|by eexists; vm_compute].
Defined.

(** The status of the task once its only slice has arrived. *)
Lemma task_status_exact_witness : Balanced polled0 [] 0 0 /\ exists m', task_status 0 (mem (pool polled0)) = Some (mkTransferStatus COMPLETED 512, m').
Proof.
  assert (E : exec cfg0 "local" number0 (Poll 0 wc0) posted0 = Some polled0) by (by vm_compute).
  assert (B : Balanced posted0 (given (Poll 0 wc0)) 0 0).
  { exists (set_counts 0 0 0 task0). split; [by vm_compute|]. split; [by vm_compute|by vm_compute]. }
  destruct (task_status_exact cfg0 "local" number0 qp0 posted0 (Poll 0 wc0) polled0 0 0 posted0_reach poll0_admissible E B) as [B' (x & m' & Hx & Ht)].
  split; [exact B'|]. exists m'. rewrite Ht. assert (Ex : tasks (mem (pool polled0)) !! 0%nat = Some (set_counts 1 0 512 task0)) by (by vm_compute).
  rewrite Hx in Ex. injection Ex as ->. by vm_compute.
Defined.

End WkProps.

