(* ===== verification/Rdma.v ===== *)
(** * Rdma: cutting requests into slices, and their status

    Models [RdmaTransport::submitTransfer], [submitTransferTask],
    [getTransferStatus] and [onSetupRdmaConnections] (src/transport/rdma_transport/rdma_transport.cpp of
    mooncake-transfer-engine) and class [MultiTransport]
    (src/multi_transport.cpp).  The state is the heap, the contexts of the
    local devices, and the targets each thread lately failed to reach.

    A call is made by a thread [th]; the descriptions it sees, the numbers
    it draws and the order of unordered maps are arguments. *)

From Stdlib Require Import ZArith Lia.
From stdpp Require Import base list gmap strings numbers.
From S2P Require Import Prelude Topology Endpoint EndpointStore Transport Handshake Worker.
Import Transport Worker.

Open Scope moon_scope.
Open Scope Z_scope.

Module Rdma.

Record Engine : Type := mkEngine { e_mem : Mem; context_list_ : list RdmaContext; e_failed : gmap nat (gmap Z Z) }.
Abbreviation E := (ST Engine).

Definition mem_of {A} (c : M A) : E A := fun s =>
  match c (e_mem s) with Some (a, m) => Some (a, mkEngine m (context_list_ s) (e_failed s)) | None => None end.
Definition on_context {A} (i : nat) (c : P A) : E A := fun s =>
  match context_list_ s !! i with
  | None => None
  | Some x =>
      match c (mkState (e_mem s) x (e_failed s)) with
      | Some (a, p) => Some (a, mkEngine (mem p) (<[i := ctx p]> (context_list_ s)) (failed_target_ids p))
      | None => None
      end
  end.

(** Slices to post, by context. *)
Abbreviation Posts := (gmap nat (list nat)).

Section submit.
Context (cfg : GlobalConfig) (local : option SegmentDesc).
(** Numbers drawn for a slice at an attempt. *)
Context (rand : nat -> Z -> nat -> bool -> Z).
(** The [k]-th time slices are handed to the pools, by context. *)
Context (args : nat -> nat -> SubmitArgs).
Context (iter : Posts -> list (nat * list nat)).
Context (th : nat).

Definition post_to (k i : nat) (ss : list nat) : E unit :=
  let a := args k i in
  on_context i (let* _c := submitPostSend cfg (sa_desc_of a) (sa_reload a) (sa_rand a) (sa_rand2 a) (sa_now a) (sa_now_failed a) th ss in ret tt).

Fixpoint post_entries_of (k : nat) (l : list (nat * list nat)) : E unit :=
  match l with [] => ret tt | (i, ss) :: l => do* post_to k i ss in post_entries_of k l end.

(** The attempts to find a device for slice [s]: the output [device_id], and the
    context when one was found. *)
Fixpoint find_device (fuel : nat) (s : nat) (buffer_id device_id retry : Z) : E (Z * option nat) :=
  if retry <? cf_retry_cnt cfg then
    match fuel with
    | O => ub
    | S fuel =>
        let* x := mem_of (slice_get s) in
        let* r := lift (selectDevice (rand s retry) local (source_addr x) (sl_length x) "" buffer_id device_id retry) in
        let '(rc, buffer_id, device_id) := r in
        if negb (rc =? 0) then find_device fuel s buffer_id device_id (retry + 1)
        else
          let* cs := gets context_list_ in
          let* c := lift (aget cs device_id) in
          if negb (ctx_active c) then find_device fuel s buffer_id device_id (retry + 1)
          else
            let* d := lift local in
            let* b := lift (aget (sd_buffers d) buffer_id) in
            let* lkey := lift (aget (b_lkey b) device_id) in
            do* mem_of (slice_upd (set_source_lkey lkey) s) in
            ret (device_id, Some (Z.to_nat device_id))
    end
  else ret (device_id, None).

Definition attempts (retry : Z) : nat := Z.to_nat (cf_retry_cnt cfg - retry).

(** The members written when a slice is made for a request. *)
Definition fill_slice (rq : TransferRequest) (t : nat) (offset length retry : Z) (x : Slice) : Slice :=
  mkSlice (u64 (rq_source rq + offset)) length (rq_opcode rq) (rq_target_id rq) (peer_nic_path x) SlicePending t (from_cache x)
    (u64 (rq_target_offset rq + offset)) (source_lkey x) (dest_rkey x) (qp_depth x) (u32 retry) (u32 (cf_retry_cnt cfg)) 0.

Definition post_slice (i s : nat) (posts : Posts) : Posts := <[i := default [] (posts !! i) ++ [s]]> posts.

(** ** submitTransferTask *)

(** Slices to post, new slices since the last hand-over, hand-overs so far. *)
Abbreviation Submitting := (Posts * Z * nat)%type.

(** [None] when no device was found: the slices collected were put back. *)
Fixpoint submit_slices (fuel : nat) (t : nat) (rq : TransferRequest) (offset : Z) (st : Submitting) : E (option Submitting) :=
  if offset <? rq_length rq then
    match fuel with
    | O => ub
    | S fuel =>
        let '(posts, nr_slices, k) := st in
        let* s := mem_of (cache_allocate th) in
        let* x := mem_of (slice_get s) in
        let nr_slices := if from_cache x then nr_slices else nr_slices + 1 in
        let merge_final_slice := rq_length rq - offset <=? u64 (slice_size cfg + fragment_limit cfg) in
        let length := if merge_final_slice then rq_length rq - offset else slice_size cfg in
        do* mem_of (slice_upd (fill_slice rq t offset length (advise_retry_cnt rq)) s) in
        do* mem_of (task_upd (add_slice s) t) in
        let* f := find_device (attempts (advise_retry_cnt rq)) s (-1) (-1) (advise_retry_cnt rq) in
        match f.2 with
        | None =>
            do* each (fun s => mem_of (cache_deallocate th s)) (concat (snd <$> iter posts)) in
            ret None
        | Some i =>
            do* mem_of (task_upd (add_posted length) t) in
            let posts := post_slice i s posts in
            let* st :=
              if u64 (max_wr cfg * Z.of_nat (num_qp_per_ep cfg)) <=? nr_slices
              then do* post_entries_of k (iter posts) in ret (∅, 0, S k)
              else ret (posts, nr_slices, k) in
            if merge_final_slice then ret (Some st)
            else submit_slices fuel t rq (u64 (offset + slice_size cfg)) st
        end
    end
  else ret (Some st).

Definition slices_bound (rq : TransferRequest) : nat := S (Z.to_nat (rq_length rq / slice_size cfg)).

Fixpoint submit_tasks (ts : list nat) (posts : Posts) (k : nat) : E StatusCode :=
  match ts with
  | [] =>
      do* post_entries_of k (filter (fun e => e.2 <> []) (iter posts)) in
      ret Ok
  | t :: ts =>
      let* x := mem_of (task_get t) in
      let* rq := lift (request x) in
      let* r := submit_slices (slices_bound rq) t rq 0 (posts, 0, k) in
      match r with
      | None => ret AddressNotRegistered
      | Some (posts, _, k) => submit_tasks ts posts k
      end
  end.

Definition submitTransferTask (task_list : list nat) : E StatusCode := submit_tasks task_list ∅ 0.

(** ** submitTransfer, for callers that use the transport directly *)

Fixpoint cut_request (fuel : nat) (t : nat) (rq : TransferRequest) (offset : Z) (posts : Posts) : E (option Posts) :=
  if offset <? rq_length rq then
    match fuel with
    | O => ub
    | S fuel =>
        let* s := mem_of (cache_allocate th) in
        let length := Z.min (rq_length rq - offset) (slice_size cfg) in
        do* mem_of (slice_upd (fill_slice rq t offset length 0) s) in
        do* mem_of (task_upd (add_slice s) t) in
        let* f := find_device (attempts 0) s (-1) (-1) 0 in
        let* posts := match f.2 with
                      | Some i => do* mem_of (task_upd (add_posted length) t) in ret (post_slice i s posts)
                      | None => ret posts
                      end in
        if f.1 <? 0 then
          do* each (fun s => mem_of (slice_delete s)) (concat (snd <$> iter posts)) in
          ret None
        else cut_request fuel t rq (u64 (offset + slice_size cfg)) posts
    end
  else ret (Some posts).

Fixpoint cut_requests (l : list (nat * TransferRequest)) (posts : Posts) : E StatusCode :=
  match l with
  | [] => do* post_entries_of 0 (iter posts) in ret Ok
  | (t, rq) :: l =>
      let* r := cut_request (slices_bound rq) t rq 0 posts in
      match r with None => ret AddressNotRegistered | Some posts => cut_requests l posts end
  end.

Definition submitTransfer (b : nat) (entries : list TransferRequest) : E StatusCode :=
  let* d := mem_of (batch_get b) in
  if batch_size d <? Z.of_nat (length (task_list d) + length entries) then ret InvalidArgument
  else
    let* ts := mem_of (resize_tasks b (length entries)) in
    cut_requests (zip ts entries) ∅.

End submit.

(** ** Connections other servers ask for *)

Section connections.
Context (cfg : GlobalConfig) (local_server_name : string).
(** What [RdmaContext::endpoint] and the handshake see, as in [Worker]. *)
Context (create_ok destroy_ok : nat -> nat -> bool) (held : nat -> bool) (now : Z) (new_cq : nat).
Context (modify_ok : nat -> nat -> bool) (qp_number : nat -> nat -> Z) (strerror : string) (by_name : string -> option SegmentDesc).

Definition connect_peer (peer_desc local_desc : Handshake.HandShakeDesc) : P (Z * Handshake.HandShakeDesc) :=
  let* a := gets (fun s => ctx_active (ctx s)) in
  let* name := gets (fun s => device_name_ (ctx s)) in
  let* e := on_store (EndpointStore.context_endpoint create_ok destroy_ok held a now new_cq (num_qp_per_ep cfg) (max_wr cfg)
                        (Handshake.local_nic_path peer_desc)) in
  match e with
  | None => ret (Endpoint.ERR_ENDPOINT, local_desc)
  | Some id =>
      on_eps (let* r := Handshake.setupConnectionsByPassive modify_ok qp_number strerror (MakeNicPath local_server_name name) by_name
                          peer_desc local_desc id in ret r.1)
  end.

(** [hca_list] is the device list of the local topology. *)
Definition onSetupRdmaConnections (hca_list : list string) (peer_desc local_desc : Handshake.HandShakeDesc) : E (Z * Handshake.HandShakeDesc) :=
  let local_nic_name := Handshake.getNicNameFromNicPath (Handshake.hs_peer_nic_path peer_desc) in
  if String.eqb local_nic_name "" then ret (ERR_INVALID_ARGUMENT, local_desc)
  else
    match list_find (fun entry => entry = local_nic_name) hca_list with
    | None => ret (ERR_INVALID_ARGUMENT, local_desc)
    | Some (index, _) => on_context index (connect_peer peer_desc local_desc)
    end.

End connections.

(** [RdmaTransport::getTransferStatus] of one task, and of all. *)
Definition getTransferStatus (b : nat) (task_id : Z) : M (option TransferStatus) :=
  let* d := batch_get b in
  match aget (task_list d) task_id with
  | None => ret None
  | Some t => let* s := task_status t in ret (Some s)
  end.

Fixpoint statuses (ts : list nat) : M (list TransferStatus) :=
  match ts with [] => ret [] | t :: ts => let* s := task_status t in let* r := statuses ts in ret (s :: r) end.
Definition getTransferStatus_all (b : nat) : M (list TransferStatus) := let* d := batch_get b in statuses (task_list d).

(** ** MultiTransport *)

Module MultiTransport.

Section multi.
Context (cfg : GlobalConfig).
(** The transports installed, by protocol, and the submission of each. *)
Context (transport_map_ : string -> bool) (submit : string -> list nat -> E StatusCode).
(** Descriptions of the targets, for each request. *)
Context (desc_of : nat -> option SegmentDesc).
Context (iter : gmap string (list nat) -> list (string * list nat)).

Definition selectTransport (i : nat) : StatusCode * string :=
  match desc_of i with
  | None => (InvalidArgument, ""%string)
  | Some d => if transport_map_ (sd_protocol d) then (Ok, sd_protocol d) else (NotSupportedTransport, ""%string)
  end.

(** The loop over the requests from the [i]-th on. *)
Fixpoint assign (b i : nat) (l : list (nat * TransferRequest)) (groups : gmap string (list nat)) : M (StatusCode * gmap string (list nat)) :=
  match l with
  | [] => ret (Ok, groups)
  | (t, rq) :: l =>
      let '(st, proto) := selectTransport i in
      if negb (bool_decide (st = Ok)) then ret (st, groups)
      else
        do* task_upd (set_request b rq) t in
        assign b (S i) l (<[proto := default [] (groups !! proto) ++ [t]]> groups)
  end.

Fixpoint submit_groups (l : list (string * list nat)) (overall : StatusCode) : E StatusCode :=
  match l with
  | [] => ret overall
  | (proto, ts) :: l =>
      let* st := submit proto ts in
      submit_groups l (if bool_decide (st = Ok) then overall else st)
  end.

Definition mt_submitTransfer (b : nat) (entries : list TransferRequest) : E StatusCode :=
  let* d := mem_of (batch_get b) in
  if batch_size d <? Z.of_nat (length (task_list d) + length entries) then ret TooManyRequests
  else
    let* ts := mem_of (resize_tasks b (length entries)) in
    let* r := mem_of (assign b 0 (zip ts entries) ∅) in
    if negb (bool_decide (r.1 = Ok)) then ret r.1
    else submit_groups (iter r.2) Ok.

(** [current_ts] is the clock. *)
Fixpoint timed_out (current_ts : Z) (ss : list nat) : M bool :=
  match ss with
  | [] => ret false
  | s :: ss =>
      let* x := slice_get s in
      if (0 <? sl_ts x) && (sl_ts x <? current_ts) && (slice_timeout cfg * 1000000000 <? current_ts - sl_ts x)
      then ret true else timed_out current_ts ss
  end.

Definition mt_getTransferStatus (current_ts : Z) (b : nat) (task_id : Z) : M (StatusCode * TransferStatus) :=
  let* d := batch_get b in
  match aget (task_list d) task_id with
  | None => ret (InvalidArgument, mkTransferStatus WAITING 0)
  | Some t =>
      let* x := task_get t in
      if u64 (success_slice_count x + failed_slice_count x) =? slice_count x then
        do* task_upd set_finished t in
        ret (Ok, mkTransferStatus (if failed_slice_count x =? 0 then COMPLETED else FAILED) (transferred_bytes x))
      else
        let* late := if 0 <? slice_timeout cfg then timed_out current_ts (slice_list x) else ret false in
        ret (Ok, mkTransferStatus (if late then TIMEOUT else WAITING) (transferred_bytes x))
  end.

(** The loop of [getBatchTransferStatus]: whether a task failed, how many are
    complete and their bytes, from task [i] on. *)
Fixpoint batch_loop (clock : Z -> Z) (b : nat) (i : Z) (n : nat) (acc : Z * Z) : M (bool * (Z * Z)) :=
  match n with
  | O => ret (false, acc)
  | S n =>
      let* r := mt_getTransferStatus (clock i) b i in
      if negb (bool_decide (r.1 = Ok)) then ret (true, acc)
      else match ts_s r.2 with
           | COMPLETED => batch_loop clock b (i + 1) n (acc.1 + 1, u64 (acc.2 + ts_transferred_bytes r.2))
           | FAILED => ret (true, acc)
           | _ => batch_loop clock b (i + 1) n acc
           end
  end.

Definition getBatchTransferStatus (clock : Z -> Z) (b : nat) : M TransferStatus :=
  let* d := batch_get b in
  match task_list d with
  | [] => ret (mkTransferStatus COMPLETED 0)
  | ts =>
      let* r := batch_loop clock b 0 (length ts) (0, 0) in
      let '(failed, (n, bytes)) := r in
      ret (mkTransferStatus (if (failed : bool) then FAILED else if n =? Z.of_nat (length ts) then COMPLETED else WAITING) bytes)
  end.

End multi.

End MultiTransport.

End Rdma.
