(* ===== verification/MetadataProps.v ===== *)
(** * MetadataProps: JSON forms read back, and what a client gets to know

    Module [MetaProofs]: what [TransferMetadata] writes for a segment or a handshake is what it
    reads. *)

From Stdlib Require Import ZArith Lia.
From stdpp Require Import base list gmap strings numbers countable.
From S2P Require Import Prelude Topology TopologyProofs TopologyProps Endpoint Transport Handshake Metadata TopologyJson EndpointInv Worker WorkerInv WorkerProps.
Import Transport Metadata.

Open Scope moon_scope.
Open Scope Z_scope.

Module MetaProofs.

Section json.
Context {J : Type} `{!JsonLib J} `{!JsonLaws J} `{!JsonValues J} `{!JsonValueLaws J}.

(** ** Objects and arrays *)

(** The member of an object built from [l]. *)
Definition look (k : string) (l : list (string * J)) : option J := fold_left (fun r p => if String.eqb p.1 k then Some p.2 else r) l None.

Lemma set_all_object l : json_object (set_all l) (fold_left (fun m p => <[p.1 := p.2]> m) l ∅).
Proof.
  unfold set_all. generalize (object_empty : json_object objectValue ∅). generalize (objectValue : J) (∅ : gmap string J).
  induction l as [|[k x] l IH]; intros v m Hv; [done|]. cbn [fold_left fst snd]. apply IH. by apply object_set.
Qed.

Lemma look_map k l : (fold_left (fun m p => <[p.1 := p.2]> m) l ∅ : gmap string J) !! k = look k l.
Proof.
  unfold look. assert (H : forall (m : gmap string J) r, m !! k = r -> fold_left (fun m p => <[p.1 := p.2]> m) l m !! k =
    fold_left (fun r p => if String.eqb p.1 k then Some p.2 else r) l r); [|by apply H].
  induction l as [|[k' x] l IH]; intros m r Hr; [done|]. cbn [fold_left fst snd]. apply IH. rewrite lookup_insert.
  destruct (String.eqb_spec k' k) as [->|Hne]; [by rewrite decide_True|by rewrite decide_False].
Qed.

Lemma look_get l k x : look k l = Some x -> get_member (set_all l) k = x.
Proof. intros H. eapply object_get; [apply set_all_object|]. by rewrite look_map. Qed.
Lemma look_member l k x : look k l = Some x -> isMember (set_all l) k = true.
Proof. intros H. rewrite (object_member _ _ k (set_all_object l)), look_map, H. by apply bool_decide_eq_true. Qed.

Lemma look_string l k s : look k l = Some (ofString s) -> string_at (set_all l) k = Some s.
Proof. intros H. unfold string_at. by rewrite (look_get _ _ _ H), string_value. Qed.
Lemma look_uint64 l k n : look k l = Some (ofUInt n) -> 0 <= n < 2 ^ 64 -> uint64_at (set_all l) k = Some n.
Proof. intros H Hn. unfold uint64_at. by rewrite (look_get _ _ _ H), uint64_value. Qed.

Lemma array_of_array {A} (f : A -> J) l : json_array (array_of f l) (f <$> l).
Proof.
  induction l as [|x l IH] using rev_ind; [apply array_empty|]. unfold array_of in *. rewrite fold_left_app, fmap_app. cbn. by apply array_append.
Qed.
Lemma array_of_elements {A} (f : A -> J) l : elements_of (array_of f l) = f <$> l.
Proof. apply (array_facts _ _ (array_of_array f l)). Qed.

Lemma uints_of l : Forall (fun n => 0 <= n < 2 ^ 32) l -> uints (ofUInt <$> l) = Some l.
Proof. induction 1 as [|n l Hn _ IH]; [done|]. cbn. rewrite uint_value by done. cbn. by rewrite IH. Qed.

Lemma read_list_of {A B} (f : J -> option (option B)) (g : A -> J) (h : A -> B) l : (forall x, x ∈ l -> f (g x) = Some (Some (h x))) ->
  read_list f (g <$> l) = Some (Some (h <$> l)).
Proof.
  induction l as [|x l IH]; intros H; [done|]. cbn. rewrite (H x) by left. cbn. rewrite IH by (intros; apply H; by right). done.
Qed.

(** Reading one member of an object that was just built. *)
Local Ltac rd_string k := erewrite (look_string _ k%string) by reflexivity; cbn [mbind option_bind].
Local Ltac rd_get k := erewrite (look_get _ k%string) by reflexivity; cbn [fst snd].
Local Ltac rd_uint64 k := erewrite (look_uint64 _ k%string); [|reflexivity|lia]; cbn [mbind option_bind].

(** ** Handshakes *)

Lemma handshake_back d : Forall (fun n => 0 <= n < 2 ^ 32) (Handshake.qp_num d) -> handshake_decode (handshake_encode d) = Some d.
Proof.
  intros Hq. unfold handshake_decode, handshake_encode. rd_string "local_nic_path". rd_string "peer_nic_path".
  rd_get "qp_num". rewrite array_of_elements, uints_of by done. cbn [mbind option_bind]. rd_string "reply_msg". by destruct d.
Qed.

(** A reply that was never filled in. *)
Lemma handshake_null : handshake_decode (nullValue : J) = Some Handshake.empty_handshake.
Proof. unfold handshake_decode, string_at. rewrite !null_string, null_elements. done. Qed.

(** ** Segments *)

Context (iter : gmap string Topology.TopologyEntry -> list (string * Topology.TopologyEntry)) (Hiter : forall m, iter m ≡ₚ map_to_list m).

(** What a reader gets to see of a device or a buffer. *)
Definition seen_device (p : string) (d : DeviceDesc) : DeviceDesc := mkDeviceDesc (d_name d) (d_lid d) (if String.eqb p "rdma" then d_gid d else ""%string).
Definition seen_buffer (p : string) (b : BufferDesc) : BufferDesc :=
  mkBufferDesc (b_name b) (if String.eqb p "cxl" then 0 else b_addr b) (b_length b) (if String.eqb p "rdma" then b_lkey b else []) (if String.eqb p "rdma" then b_rkey b else [])
    (if String.eqb p "nvlink" then b_shm_name b else ""%string) (if String.eqb p "cxl" then b_offset b else 0).

(** A description a reader takes: numbers in range, nothing that has to be there
    is empty. *)
Definition DeviceWf (p : string) (d : DeviceDesc) : Prop := d_name d <> ""%string /\ 0 <= d_lid d < 2 ^ 16 /\ (p = "rdma"%string -> d_gid d <> ""%string).
Definition BufferWf (p : string) (b : BufferDesc) : Prop := b_name b <> ""%string /\ 0 < b_length b < 2 ^ 64 /\
  (p = "cxl"%string -> 0 <= b_offset b < 2 ^ 64) /\ (p <> "cxl"%string -> 0 < b_addr b < 2 ^ 64) /\ (p = "nvlink"%string -> b_shm_name b <> ""%string) /\
  (p = "rdma"%string -> b_rkey b <> [] /\ length (b_rkey b) = length (b_lkey b) /\ Forall (fun n => 0 <= n < 2 ^ 32) (b_rkey b) /\ Forall (fun n => 0 <= n < 2 ^ 32) (b_lkey b)).

Lemma nonempty_true s : s <> ""%string -> nonempty s = true.
Proof. intros H. unfold nonempty. by rewrite (proj2 (String.eqb_neq _ _) H). Qed.

Lemma device_rdma_back d : DeviceWf "rdma" d -> read_device_rdma (device_rdma d) = Some (Some (seen_device "rdma" d)).
Proof.
  intros (Hn & Hl & Hg). unfold read_device_rdma, device_rdma. rd_string "name". rd_get "lid". rewrite int_unsigned by lia. cbn [mbind option_bind].
  rd_string "gid". rewrite !nonempty_true, Z.mod_small by (try lia; auto). done.
Qed.
Lemma device_ascend_back d : DeviceWf "ascend" d -> read_device_ascend (device_ascend d) = Some (Some (seen_device "ascend" d)).
Proof.
  intros (Hn & Hl & _). unfold read_device_ascend, device_ascend. rd_string "name". rd_get "lid". rewrite int_unsigned by lia. cbn [mbind option_bind].
  rewrite nonempty_true, Z.mod_small by (try lia; auto). done.
Qed.

Lemma buffer_rdma_back b : BufferWf "rdma" b -> read_buffer_rdma (buffer_rdma b) = Some (Some (seen_buffer "rdma" b)).
Proof.
  intros (Hn & Hl & _ & Ha & _ & Hk). specialize (Ha ltac:(done)). destruct (Hk eq_refl) as (Hr & Hlen & Hkr & Hkl).
  unfold read_buffer_rdma, buffer_rdma, buffer_plain. cbn [app]. rd_string "name". rd_uint64 "addr". rd_uint64 "length".
  rd_get "rkey". rewrite array_of_elements, uints_of by done. cbn [mbind option_bind].
  rd_get "lkey". rewrite array_of_elements, uints_of by done. cbn [mbind option_bind].
  rewrite nonempty_true, (proj2 (Z.eqb_neq (b_addr b) 0)), (proj2 (Z.eqb_neq (b_length b) 0)), (proj2 (Nat.eqb_eq _ _) Hlen) by (auto; lia).
  assert (E0 : (length (b_rkey b) =? 0)%nat = false) by (by destruct (b_rkey b)). by rewrite E0.
Qed.
Lemma buffer_plain_back p b : BufferWf p b -> p <> "rdma"%string -> p <> "cxl"%string -> p <> "nvlink"%string ->
  read_buffer_plain (set_all (buffer_plain b)) = Some (Some (seen_buffer p b)).
Proof.
  intros (Hn & Hl & _ & Ha & _ & _) H1 H2 H3. specialize (Ha H2). unfold read_buffer_plain, buffer_plain. rd_string "name". rd_uint64 "addr". rd_uint64 "length".
  rewrite nonempty_true, (proj2 (Z.eqb_neq (b_addr b) 0)), (proj2 (Z.eqb_neq (b_length b) 0)) by (auto; lia). unfold seen_buffer.
  by rewrite (proj2 (String.eqb_neq _ _) H1), (proj2 (String.eqb_neq _ _) H2), (proj2 (String.eqb_neq _ _) H3).
Qed.
Lemma buffer_nvlink_back b : BufferWf "nvlink" b -> read_buffer_nvlink (buffer_nvlink b) = Some (Some (seen_buffer "nvlink" b)).
Proof.
  intros (Hn & Hl & _ & Ha & Hs & _). specialize (Ha ltac:(done)). unfold read_buffer_nvlink, buffer_nvlink, buffer_plain. cbn [app].
  rd_string "name". rd_uint64 "addr". rd_uint64 "length". rd_string "shm_name".
  rewrite !nonempty_true, (proj2 (Z.eqb_neq (b_addr b) 0)), (proj2 (Z.eqb_neq (b_length b) 0)) by (auto; lia). done.
Qed.
Lemma buffer_cxl_back b : BufferWf "cxl" b -> read_buffer_cxl (buffer_cxl b) = Some (Some (seen_buffer "cxl" b)).
Proof.
  intros (Hn & Hl & Ho & _). specialize (Ho eq_refl). unfold read_buffer_cxl, buffer_cxl. rd_string "name". rd_uint64 "offset". rd_uint64 "length".
  rewrite nonempty_true, (proj2 (Z.eqb_neq (b_length b) 0)) by (auto; lia). done.
Qed.

Definition RankWf (r : RankInfoDesc) : Prop :=
  Forall (fun n => 0 <= n < 2 ^ 64) [rankId r; hostPort r; deviceLogicId r; devicePhyId r; deviceType r; devicePort r; ri_pid r].
Lemma rank_back r : RankWf r -> read_rank (rank_json r) = Some r.
Proof.
  unfold RankWf. intros H. repeat (apply Forall_cons_1 in H as [? H]). cbv beta in *. unfold read_rank, rank_json.
  rd_uint64 "rankId". rd_string "hostIp". rd_uint64 "hostPort". rd_uint64 "deviceLogicId". rd_uint64 "devicePhyId". rd_uint64 "deviceType".
  rd_string "deviceIp". rd_uint64 "devicePort". rd_uint64 "pid". by destruct r.
Qed.

(** What a reader gets to see of a segment written at time [now]. *)
Definition seen (now : string) (d : SegmentDesc) : SegmentDesc :=
  let p := sd_protocol d in
  let devices := if String.eqb p "rdma" || String.eqb p "ascend" then seen_device p <$> sd_devices d else [] in
  mkSegmentDesc (sd_name d) p devices (if String.eqb p "rdma" then Topology.resolve iter (Topology.matrix_ (sd_topology d)) else Topology.empty_topology)
    (seen_buffer p <$> sd_buffers d) [] (if String.eqb p "cxl" then sd_cxl_name d else ""%string) (if String.eqb p "cxl" then sd_cxl_base_addr d else 0) now
    (if String.eqb p "ascend" then sd_rank_info d else new_rank_info) (sd_tcp_data_port d).

Record SegmentWf (d : SegmentDesc) : Prop := {
  sw_port : - 2 ^ 31 <= sd_tcp_data_port d < 2 ^ 31;
  sw_devices : sd_protocol d = "rdma"%string \/ sd_protocol d = "ascend"%string -> forall x, x ∈ sd_devices d -> DeviceWf (sd_protocol d) x;
  sw_buffers : forall b, b ∈ sd_buffers d -> BufferWf (sd_protocol d) b;
  sw_matrix : sd_protocol d = "rdma"%string -> forall k e, Topology.matrix_ (sd_topology d) !! k = Some e -> Topology.name e = k;
  sw_base : sd_protocol d = "cxl"%string -> 0 <= sd_cxl_base_addr d < 2 ^ 64;
  sw_rank : sd_protocol d = "ascend"%string -> RankWf (sd_rank_info d);
}.

Lemma topology_printed t : toStyledString (topology_toJson iter t : J) = Topology.toString iter t.
Proof.
  unfold topology_toJson, Topology.toString. by rewrite (proj2 (print_parse _ _ (TopoProps.matrix_object iter Hiter (Topology.matrix_ t)))).
Qed.

Lemma segment_back now d : SegmentWf d -> sd_protocol d ∈ ["rdma"; "tcp"; "ascend"; "nvlink"; "cxl"]%string ->
  exists v, encodeSegmentDesc iter now d = (0, v) /\ decodeSegmentDesc iter v = Some (Some (seen now d)).
Proof.
  intros [HP HD HB HM HC HR] Hp. unfold encodeSegmentDesc, protocol_members.
  repeat (apply elem_of_cons in Hp as [Hp|Hp]); [..|by apply elem_of_nil in Hp]; rewrite Hp in *; cbn [String.eqb Ascii.eqb Bool.eqb].
  all: eexists; split; [reflexivity|]; unfold decodeSegmentDesc; cbn [app]; rd_string "name"; rd_string "protocol".
  all: rd_get "tcp_data_port"; rewrite int_value by done; cbn [mbind option_bind].
  all: erewrite (look_member _ "timestamp") by reflexivity; rd_string "timestamp".
  all: unfold seen; rewrite Hp; cbn [String.eqb Ascii.eqb Bool.eqb orb]; unfold members.
  all: try (rd_get "devices"; rewrite array_of_elements).
  all: try (rd_get "buffers"; rewrite array_of_elements).
  - rewrite (read_list_of _ _ (seen_device "rdma")) by (intros; apply device_rdma_back, HD; auto). cbn [and_then mbind option_bind].
    rewrite (read_list_of _ _ (seen_buffer "rdma")) by (intros; by apply buffer_rdma_back, HB). cbn [and_then mbind option_bind].
    rd_get "priority_matrix". rewrite topology_printed.
    rewrite (TopoProps.parse_print iter Hiter) by auto. done.
  - rewrite (read_list_of _ _ (seen_buffer "tcp")) by (intros; by apply buffer_plain_back; [apply HB|..]). done.
  - rewrite (read_list_of _ _ (seen_device "ascend")) by (intros; apply device_ascend_back, HD; auto). cbn [and_then mbind option_bind].
    rewrite (read_list_of _ _ (seen_buffer "ascend")) by (intros; by apply buffer_plain_back; [apply HB|..]). cbn [and_then mbind option_bind].
    rd_get "rank_info". rewrite rank_back by auto. done.
  - rewrite (read_list_of _ _ (seen_buffer "nvlink")) by (intros; by apply buffer_nvlink_back, HB). done.
  - rd_string "cxl_name". specialize (HC eq_refl). rd_uint64 "cxl_base_addr".
    rewrite (read_list_of _ _ (seen_buffer "cxl")) by (intros; by apply buffer_cxl_back, HB). done.
Qed.

End json.
End MetaProofs.

(** ** What a client gets to know of segments *)

Import WkQueues Transport Metadata MetaProofs.

Module MetaProps.

Section metadata.
Context {J : Type} `{!JsonLib J} `{!JsonValues J}.
Context (iter : gmap string Topology.TopologyEntry -> list (string * Topology.TopologyEntry)).
Context (metacache : bool) (isValidIpV6 : string -> bool) (default_port : Z).
Abbreviation Services := (Services (J := J)).
Abbreviation getSegmentDesc := (getSegmentDesc iter isValidIpV6 default_port).

(** ** The calls of a client *)

Inductive Call : Type :=
| SegmentId (sv : Services) (name : string)
| DescByName (sv : Services) (name : string) (force_update : bool)
| DescById (sv : Services) (id : Z) (force_update : bool)
| Sync (order : gmap Z (option SegmentDesc) -> list Z) (sv : Z -> Services) (name : string)
| AddLocal (name : string) (d : SegmentDesc)
| RemoveLocal (name : string)
| AddBuffer (sv : Services) (b : BufferDesc) (update_metadata : bool)
| RemoveBuffer (sv : Services) (addr : Z) (update_metadata : bool)
| UpdateLocal (sv : Services)
| PeerMetadata (sv : Services) (peer : J)
| Notifies.

Definition perform (c : Call) : ST TransferMetadata unit :=
  match c with
  | SegmentId sv name => let* _r := getSegmentID iter isValidIpV6 default_port sv name in ret tt
  | DescByName sv name f => let* _r := getSegmentDescByName iter metacache isValidIpV6 default_port sv name f in ret tt
  | DescById sv id f => let* _r := getSegmentDescByID iter metacache isValidIpV6 default_port sv id f in ret tt
  | Sync order sv name => let* _r := syncSegmentCache iter isValidIpV6 default_port order sv name in ret tt
  | AddLocal name d => let* _r := addLocalSegment LOCAL_SEGMENT_ID name d in ret tt
  | RemoveLocal name => let* _r := removeLocalSegment name in ret tt
  | AddBuffer sv b u => let* _r := addLocalMemoryBuffer iter sv b u in ret tt
  | RemoveBuffer sv a u => let* _r := removeLocalMemoryBuffer iter sv a u in ret tt
  | UpdateLocal sv => let* _r := updateLocalSegmentDesc iter sv LOCAL_SEGMENT_ID in ret tt
  | PeerMetadata sv peer => let* _r := receivePeerMetadata iter sv peer in ret tt
  | Notifies => let* _r := getNotifies [] in ret tt
  end.

(** What the services answer can be read without an exception. *)
Definition Reads (sv : Services) : Prop :=
  (forall k v, sv_get sv k = Some v -> is_Some (decodeSegmentDesc iter v)) /\
  (forall ip port v, is_Some (decodeSegmentDesc iter (sv_exchange sv ip port v).2)).

Definition HasLocal (s : TransferMetadata) : Prop := exists d, segment_id_to_desc_map_ s !! LOCAL_SEGMENT_ID = Some (Some d).
(** Before the local segment is there, a client in P2P mode must not ask for others. *)
Definition MayFetch (s : TransferMetadata) (sv : Services) : Prop := Reads sv /\ (p2p_handshake_mode_ s = true -> HasLocal s).

Definition Ready (c : Call) (s : TransferMetadata) : Prop :=
  match c with
  | SegmentId sv _ | DescByName sv _ _ => MayFetch s sv /\ next_segment_id_ s < 2 ^ 31 - 1
  | DescById sv _ _ => MayFetch s sv
  | Sync order sv _ => (forall id, MayFetch s (sv id)) /\ forall m, order m ≡ₚ (map_to_list m).*1
  | AddLocal name _ => forall name', segment_name_to_id_map_ s !! name' = Some LOCAL_SEGMENT_ID -> name' = name
  | AddBuffer _ _ _ | RemoveBuffer _ _ _ | UpdateLocal _ | PeerMetadata _ _ => HasLocal s
  | RemoveLocal _ | Notifies => True
  end.

Inductive MReach (p2p : bool) : TransferMetadata -> Prop :=
| mreach_new : MReach p2p (new_metadata p2p)
| mreach_call c s s' : MReach p2p s -> Ready c s -> perform c s = Some (tt, s') -> MReach p2p s'.

(** ** The invariant *)

Section since.
(** An earlier state: ids a segment has got since then are new. *)
Context (s0 : TransferMetadata).

Record MInv (s : TransferMetadata) : Prop := {
  mi_desc : forall name id, segment_name_to_id_map_ s !! name = Some id -> is_Some (segment_id_to_desc_map_ s !! id);
  mi_inj : forall n1 n2 id, segment_name_to_id_map_ s !! n1 = Some id -> segment_name_to_id_map_ s !! n2 = Some id -> n1 = n2;
  mi_null : forall id d, segment_id_to_desc_map_ s !! id = Some d -> is_Some d;
  mi_range : forall id, is_Some (segment_id_to_desc_map_ s !! id) -> 0 <= id < next_segment_id_ s;
  mi_next : 1 <= next_segment_id_ s < 2 ^ 31;
  mi_since : next_segment_id_ s0 <= next_segment_id_ s /\ forall name id, id <> LOCAL_SEGMENT_ID ->
    segment_name_to_id_map_ s !! name = Some id -> segment_name_to_id_map_ s0 !! name = Some id \/ next_segment_id_ s0 <= id;
}.

Lemma desc_at_runs {B} s id d (k : option SegmentDesc -> ST TransferMetadata B) Q : segment_id_to_desc_map_ s !! id = Some d -> runs (k d) s Q -> runs (bind (desc_at id) k) s Q.
Proof. intros Hd H. unfold runs, bind, desc_at, gets in *. unfold bind. by rewrite Hd. Qed.

Lemma put_inv s id d : MInv s -> is_Some (segment_id_to_desc_map_ s !! id) -> MInv (set_descs (<[id := Some d]> (segment_id_to_desc_map_ s)) s).
Proof.
  intros [H1 H2 H3 H4 H5 H6] Hid. split; cbn; try done.
  - intros name id' Hn. rewrite lookup_insert. case_decide; [by eexists|by eapply H1].
  - intros id' d'. rewrite lookup_insert. case_decide; [intros [= <-]; by eexists|apply H3].
  - intros id'. rewrite lookup_insert. case_decide; [subst; intros _; by apply H4|apply H4].
Qed.

(** Fetching a description leaves the cache alone. *)
Lemma fetch_runs s sv name : MayFetch s sv -> MInv s -> runs (getSegmentDesc sv name) s (fun _ s' => s' = s).
Proof.
  intros [[Hg Hx] Hl] I. unfold Metadata.getSegmentDesc. apply runs_gets. destruct (p2p_handshake_mode_ s).
  - destruct (parseHostNameWithPort _ _ _) as [ip port]. destruct (Hl eq_refl) as [d Hd]. apply (desc_at_runs s _ (Some d) _ _ Hd). apply (runs_lift _ _ _ d _ eq_refl).
    destruct (encodeSegmentDesc iter (sv_now sv) d) as [rc v]. destruct (negb (rc =? 0)); [by apply runs_ret|].
    destruct (Hx ip port v) as [r Hr]. destruct (sv_exchange sv ip port v) as [rc' peer]. destruct (negb (rc' =? 0)); [by apply runs_ret|].
    cbn in Hr. unfold runs, lift. by rewrite Hr.
  - destruct (sv_get sv _) as [v|] eqn:E; [|by apply runs_ret]. destruct (Hg _ _ E) as [r Hr]. unfold runs, lift. by rewrite Hr.
Qed.

(** A fresh id with its description and its name. *)
Lemma enter_inv s name d : MInv s -> segment_name_to_id_map_ s !! name = None -> next_segment_id_ s < 2 ^ 31 - 1 ->
  let id := next_segment_id_ s in
  MInv (mkMetadata (p2p_handshake_mode_ s) (<[id := Some d]> (segment_id_to_desc_map_ s)) (<[name := id]> (segment_name_to_id_map_ s)) (u64 (id + 1)) (notifys s) (rpc_meta_map_ s) (local_rpc_meta_ s)).
Proof.
  intros [H1 H2 H3 H4 H5 H6] Hn Hb id. assert (Hu : u64 (id + 1) = id + 1) by (apply u64_small; unfold id; lia).
  assert (Hf : forall n, segment_name_to_id_map_ s !! n <> Some id).
  { intros n Hn'. specialize (H4 id (H1 _ _ Hn')). unfold id in H4. lia. }
  split; cbn; rewrite ?Hu.
  - intros n id'. rewrite !lookup_insert. case_decide; [intros [= <-]; rewrite decide_True by done; by eexists|]. intros Hn'. case_decide; [by eexists|by eapply H1].
  - intros n1 n2 id'. rewrite !lookup_insert. repeat case_decide; intros E1 E2; simplify_eq; try done.
    + by destruct (Hf n2).
    + by destruct (Hf n1).
    + by eapply H2.
  - intros id' d'. rewrite lookup_insert. case_decide; [intros [= <-]; by eexists|apply H3].
  - intros id'. rewrite lookup_insert. case_decide; [subst; unfold id; lia|]. intros H'. specialize (H4 id' H'). unfold id. lia.
  - unfold id. lia.
  - split; [unfold id; lia|]. intros n id' Hl. rewrite lookup_insert. case_decide; [intros [= <-]; right; apply H6|by apply H6].
Qed.

Lemma next_inv s : MInv s -> next_segment_id_ s < 2 ^ 31 - 1 -> MInv (set_next (u64 (next_segment_id_ s + 1)) s).
Proof.
  intros [H1 H2 H3 H4 H5 H6] Hb. assert (Hu : u64 (next_segment_id_ s + 1) = next_segment_id_ s + 1) by (apply u64_small; lia).
  split; cbn; rewrite ?Hu; try done; [|lia|split; [lia|apply H6]]. intros id Hid. specialize (H4 id Hid). lia.
Qed.

Lemma fetch_same s s' sv : MayFetch s sv -> p2p_handshake_mode_ s' = p2p_handshake_mode_ s -> (HasLocal s -> HasLocal s') -> MayFetch s' sv.
Proof. intros [HR HL] Ep H. split; [done|]. rewrite Ep. auto. Qed.

Lemma local_put s id d : HasLocal s -> HasLocal (set_descs (<[id := Some d]> (segment_id_to_desc_map_ s)) s).
Proof. intros [d' Hd']. unfold HasLocal. cbn. rewrite lookup_insert. case_decide; by eexists. Qed.

(** ** Each call *)

Abbreviation Keeps c s := (runs (perform c) s (fun _ s' => MInv s')).

Lemma segment_id_keeps sv name s : MInv s -> Ready (SegmentId sv name) s -> Keeps (SegmentId sv name) s.
Proof.
  intros I [HF Hb]. cbn [perform]. apply runs_bind. unfold getSegmentID. apply runs_gets. destruct (segment_name_to_id_map_ s !! name) as [id|] eqn:E; [by apply runs_ret|].
  apply runs_bind. eapply runs_mono; [by apply (fetch_runs s sv name)|]. intros r s' ->. destruct r as [d|]; [|by apply runs_ret].
  apply (enter_inv s name d I E Hb).
Qed.

Lemma desc_by_name_keeps sv name f s : MInv s -> Ready (DescByName sv name f) s -> Keeps (DescByName sv name f) s.
Proof.
  intros I [HF Hb]. cbn [perform]. apply runs_bind. unfold getSegmentDescByName. apply runs_gets.
  assert (Hat : forall id, segment_name_to_id_map_ s !! name = Some id -> runs (desc_at id) s (fun _ s' => runs (ret tt) s' (fun _ s' => MInv s'))).
  { intros id Hid. destruct (mi_desc _ I _ _ Hid) as [d Hd]. unfold runs, desc_at, bind, gets. by rewrite Hd. }
  destruct (if metacache && negb f then _ else _) as [id|] eqn:Ec; [apply Hat; by destruct (metacache && negb f)|].
  destruct (segment_name_to_id_map_ s !! name) as [id|] eqn:En.
  - apply runs_bind, runs_ret. destruct (id =? LOCAL_SEGMENT_ID); [apply (runs_lift _ _ _ id _ eq_refl); by apply Hat|].
    apply runs_bind. eapply runs_mono; [by apply (fetch_runs s sv name)|]. intros r s' ->. destruct r as [d|]; [|by apply runs_ret].
    destruct (mi_desc _ I _ _ En) as [d' Hd']. pose proof (put_inv s id d I ltac:(by eexists)) as I'.
    assert (E : <[name := id]> (segment_name_to_id_map_ s) = segment_name_to_id_map_ s) by (by apply insert_id).
    change (MInv (set_names (<[name := id]> (segment_name_to_id_map_ s)) (set_descs (<[id := Some d]> (segment_id_to_desc_map_ s)) s))). rewrite E. by destruct s.
  - apply runs_bind. unfold fresh_id. apply runs_gets. apply runs_modify, runs_ret.
    pose proof (mi_next _ I) as Hn. rewrite (proj2 (Z.eqb_neq (next_segment_id_ s) LOCAL_SEGMENT_ID)) by (unfold LOCAL_SEGMENT_ID; lia).
    pose proof (next_inv s I Hb) as I1. apply runs_bind. eapply runs_mono; [apply (fetch_runs _ sv name); [|done]|].
    { by apply (fetch_same s). }
    intros r s' ->. destruct r as [d|]; [|by apply runs_ret]. apply (enter_inv s name d I En Hb).
Qed.

Lemma desc_by_id_keeps sv id f s : MInv s -> Ready (DescById sv id f) s -> Keeps (DescById sv id f) s.
Proof.
  intros I HF. cbn [perform]. apply runs_bind. unfold getSegmentDescByID. apply runs_gets. destruct (segment_id_to_desc_map_ s !! id) as [d|] eqn:E; [|by apply runs_ret].
  destruct (_ && _); [|by apply runs_ret]. destruct (mi_null _ I _ _ E) as [d' ->]. apply (runs_lift _ _ _ d' _ eq_refl).
  apply runs_bind. eapply runs_mono; [by apply (fetch_runs s sv)|]. intros r s' ->. destruct r as [d|]; [|by apply runs_ret].
  apply (put_inv s id d I). by eexists.
Qed.

Lemma sync_keeps sv name ids : forall s, MInv s -> (forall id, MayFetch s (sv id)) -> (forall id, id ∈ ids -> is_Some (segment_id_to_desc_map_ s !! id)) ->
  runs (sync_entries iter isValidIpV6 default_port sv name ids) s (fun _ s' => MInv s').
Proof.
  induction ids as [|id ids IH]; intros s I HF Hin; [by apply runs_ret|]. cbn [sync_entries]. apply runs_bind.
  assert (Hrest : forall s', MInv s' -> (forall id, MayFetch s' (sv id)) -> (forall id, is_Some (segment_id_to_desc_map_ s !! id) -> is_Some (segment_id_to_desc_map_ s' !! id)) ->
    runs (sync_entries iter isValidIpV6 default_port sv name ids) s' (fun _ s' => MInv s')).
  { intros s' I' HF' Hs. apply IH; [done|done|]. intros id' Hid'. apply Hs, Hin. by right. }
  destruct (id =? LOCAL_SEGMENT_ID); [by apply runs_ret, Hrest|]. destruct (Hin id) as [d Hd]; [left|]. apply (desc_at_runs s id d _ _ Hd).
  destruct (mi_null _ I _ _ Hd) as [d' ->]. apply (runs_lift _ _ _ d' _ eq_refl). destruct (_ && _); [by apply runs_ret, Hrest|].
  apply runs_bind. eapply runs_mono; [by apply (fetch_runs s (sv id))|]. intros r s' ->. destruct r as [d|]; [|by apply runs_ret, Hrest].
  apply Hrest; [apply put_inv; [done|by eexists]|intros id'; apply (fetch_same s); [done|done|apply local_put]|].
  intros id' Hid'. cbn. rewrite lookup_insert. case_decide; [by eexists|done].
Qed.

Lemma remove_local_inv name id s : MInv s -> segment_name_to_id_map_ s !! name = Some id ->
  MInv (mkMetadata (p2p_handshake_mode_ s) (delete (u64 (Endpoint.s32 id)) (segment_id_to_desc_map_ s)) (delete name (segment_name_to_id_map_ s)) (next_segment_id_ s) (notifys s) (rpc_meta_map_ s) (local_rpc_meta_ s)).
Proof.
  intros [H1 H2 H3 H4 H5 H6] Hn. assert (Hr : 0 <= id < next_segment_id_ s) by (apply H4; by eapply H1).
  assert (Hu : u64 (Endpoint.s32 id) = id) by (rewrite EpProofs.s32_small by lia; apply u64_small; lia). rewrite Hu. split; cbn; try done.
  - intros n id' Hn'. apply lookup_delete_Some in Hn' as [Hne Hn']. rewrite lookup_delete_ne; [by eapply H1|]. intros ->. apply Hne. by eapply H2.
  - intros n1 n2 id' E1 E2. apply lookup_delete_Some in E1 as [_ E1]. apply lookup_delete_Some in E2 as [_ E2]. by eapply H2.
  - intros id' d Hd. apply lookup_delete_Some in Hd as [_ Hd]. by eapply H3.
  - intros id' [d Hd]. apply lookup_delete_Some in Hd as [_ Hd]. apply H4. by eexists.
  - split; [apply H6|]. intros n id' Hl Hn'. apply lookup_delete_Some in Hn' as [_ Hn']. by apply H6.
Qed.

Lemma add_local_inv name d s : MInv s -> (forall name', segment_name_to_id_map_ s !! name' = Some LOCAL_SEGMENT_ID -> name' = name) ->
  MInv (mkMetadata (p2p_handshake_mode_ s) (<[LOCAL_SEGMENT_ID := Some d]> (segment_id_to_desc_map_ s)) (<[name := LOCAL_SEGMENT_ID]> (segment_name_to_id_map_ s)) (next_segment_id_ s) (notifys s) (rpc_meta_map_ s) (local_rpc_meta_ s)).
Proof.
  intros [H1 H2 H3 H4 H5 H6] Hu. split; cbn; try done.
  - intros n id. rewrite !lookup_insert. case_decide; [intros [= <-]; by eexists|]. intros Hn. case_decide; [by eexists|by eapply H1].
  - intros n1 n2 id. rewrite !lookup_insert. repeat case_decide; intros E1 E2; simplify_eq; try done; [symmetry; by apply Hu|by apply Hu|by eapply H2].
  - intros id d'. rewrite lookup_insert. case_decide; [intros [= <-]; by eexists|apply H3].
  - intros id. rewrite lookup_insert. case_decide; [subst; unfold LOCAL_SEGMENT_ID; lia|apply H4].
  - split; [apply H6|]. intros n id Hl. rewrite lookup_insert. case_decide; [by intros [= <-]|by apply H6].
Qed.

Lemma update_keeps sv name d s (Q : Z -> TransferMetadata -> Prop) : (forall r, Q r s) -> runs (updateSegmentDesc iter sv name d) s Q.
Proof.
  intros HQ. unfold updateSegmentDesc. apply runs_gets. destruct (p2p_handshake_mode_ s); [by apply runs_ret|].
  destruct (encodeSegmentDesc iter (sv_now sv) d) as [rc v]. destruct (negb (rc =? 0)); by apply runs_ret.
Qed.

Lemma update_local_keeps sv s d : segment_id_to_desc_map_ s !! LOCAL_SEGMENT_ID = Some (Some d) ->
  runs (updateLocalSegmentDesc iter sv LOCAL_SEGMENT_ID) s (fun _ s' => s' = s).
Proof. intros Hd. unfold updateLocalSegmentDesc. apply (desc_at_runs s _ _ _ _ Hd). apply (runs_lift _ _ _ d _ eq_refl). by apply update_keeps. Qed.

Lemma call_keeps c s : MInv s -> Ready c s -> Keeps c s.
Proof.
  intros I HR. destruct c as [sv name|sv name f|sv id f|order sv name|name d|name|sv b u|sv a u|sv|sv peer|].
  - by apply segment_id_keeps.
  - by apply desc_by_name_keeps.
  - by apply desc_by_id_keeps.
  - destruct HR as [HF Ho]. cbn [perform]. apply runs_bind. unfold syncSegmentCache. apply runs_gets. apply runs_bind. eapply runs_mono; [apply (sync_keeps sv name _ s I HF)|].
    + intros id Hid. rewrite Ho in Hid. apply list_elem_of_fmap in Hid as ([id' d] & -> & Hd). apply elem_of_map_to_list in Hd. by eexists.
    + intros [] s' I'. by apply runs_ret, runs_ret.
  - apply (add_local_inv name d s I HR).
  - cbn [perform]. apply runs_bind. unfold removeLocalSegment. apply runs_gets. destruct (segment_name_to_id_map_ s !! name) as [id|] eqn:E; [|by apply runs_ret].
    apply (remove_local_inv name id s I E).
  - destruct HR as [d Hd]. cbn [perform]. apply runs_bind. unfold addLocalMemoryBuffer. apply (desc_at_runs s _ _ _ _ Hd). apply (runs_lift _ _ _ d _ eq_refl).
    apply runs_modify. pose proof (put_inv s LOCAL_SEGMENT_ID (set_buffers (sd_buffers d ++ [b]) d) I ltac:(by eexists)) as I'. destruct u; [|by apply runs_ret].
    eapply runs_mono; [apply (update_local_keeps sv _ (set_buffers (sd_buffers d ++ [b]) d)); cbn; by rewrite lookup_insert_eq|]. intros r s' ->. by apply runs_ret.
  - destruct HR as [d Hd]. cbn [perform]. apply runs_bind. unfold removeLocalMemoryBuffer. apply (desc_at_runs s _ _ _ _ Hd). apply (runs_lift _ _ _ d _ eq_refl).
    destruct (erase_buffer a (sd_buffers d)) as [bs|]; apply runs_modify; [|apply runs_ret; by apply (put_inv s LOCAL_SEGMENT_ID d I); eexists].
    pose proof (put_inv s LOCAL_SEGMENT_ID (set_buffers bs d) I ltac:(by eexists)) as I'. destruct u; [|by apply runs_ret].
    eapply runs_mono; [apply (update_local_keeps sv _ (set_buffers bs d)); cbn; by rewrite lookup_insert_eq|]. intros r s' ->. by apply runs_ret.
  - destruct HR as [d Hd]. cbn [perform]. apply runs_bind. eapply runs_mono; [by apply (update_local_keeps sv s d)|]. intros r s' ->. by apply runs_ret.
  - destruct HR as [d Hd]. cbn [perform]. apply runs_bind. unfold receivePeerMetadata. apply (desc_at_runs s _ _ _ _ Hd). apply (runs_lift _ _ _ d _ eq_refl). by apply runs_ret, runs_ret.
  - destruct I as [? ? ? ? ? ?]. by split.
Qed.

End since.

Lemma mreach_inv p2p s : MReach p2p s -> MInv s s.
Proof.
  intros R. assert (I : MInv (new_metadata p2p) s).
  - induction R as [|c s s' _ I HR E].
    + split; cbn; try done; try lia. intros id [d Hd]. done.
    + pose proof (call_keeps _ c s I HR) as K. unfold runs in K. by rewrite E in K.
  - destruct I. split; try done. split; [done|by left].
Qed.

(** What further calls can make of a state. *)
Definition called (s s' : TransferMetadata) : Prop := exists c, Ready c s /\ perform c s = Some (tt, s').

Lemma called_inv s0 s s' : rtc called s s' -> MInv s0 s -> MInv s0 s'.
Proof.
  induction 1 as [|s s1 s' (c & HR & E) _ IH]; [done|]. intros I. apply IH. pose proof (call_keeps s0 c s I HR) as K. unfold runs in K. by rewrite E in K.
Qed.

(** ** Theorems *)

(** C14: whatever calls a client makes, with a storage or peers that answer
    anything readable, failures included, no call follows a null pointer; every
    name of the cache leads to a description, no two names to the same one, and
    the id of a segment other than the local one is never later the id of
    another name, whatever is removed in between.  A client makes the calls on
    the local segment (buffers, publishing, answering peers, and in P2P mode
    any lookup) only while there is one, gives the local id to one name at a
    time, and asks for new names while fewer than 2^31 - 1 ids are used. *)
Theorem metadata_consistent p2p s c : MReach p2p s -> Ready c s ->
  (exists s', perform c s = Some (tt, s') /\ MReach p2p s') /\
  (forall name id, segment_name_to_id_map_ s !! name = Some id -> exists d, segment_id_to_desc_map_ s !! id = Some (Some d)) /\
  (forall n1 n2 id, segment_name_to_id_map_ s !! n1 = Some id -> segment_name_to_id_map_ s !! n2 = Some id -> n1 = n2) /\
  (forall s' n1 n2 id, rtc called s s' -> id <> LOCAL_SEGMENT_ID ->
     segment_name_to_id_map_ s !! n1 = Some id -> segment_name_to_id_map_ s' !! n2 = Some id -> n2 = n1).
Proof.
  intros R HR. pose proof (mreach_inv p2p s R) as I. split_and!; [| |apply I|].
  - pose proof (call_keeps s c s I HR) as K. unfold runs in K. destruct (perform c s) as [[[] s']|] eqn:E; [|done]. exists s'. split; [done|]. by eapply mreach_call.
  - intros name id Hn. destruct (mi_desc _ _ I _ _ Hn) as [o Ho]. destruct (mi_null _ _ I _ _ Ho) as [d ->]. by exists d.
  - intros s' n1 n2 id Hs Hl H1 H2. destruct (proj2 (mi_since _ _ (called_inv s s s' Hs I)) n2 id Hl H2) as [H2'|Hge]; [by eapply (mi_inj _ _ I)|].
    pose proof (mi_range _ _ I id (mi_desc _ _ I _ _ H1)). lia.
Qed.

Section laws.
Context `{!JsonLaws J} `{!JsonValueLaws J} (Hiter : forall m, iter m ≡ₚ map_to_list m).

(** C23: a well-formed segment description of every protocol that can be
    published is read back as it was written, with the time it was written at:
    the buffers with the addresses, lengths and keys of the protocol, the
    devices, and the topology, resolved again from its matrix.  Well-formed
    means what the reader insists on and what the format can carry, none of
    which the writer checks: named devices with a gid and a 16-bit lid; buffers
    with a name, a length and an address that are not 0 and below 2^64 (nvlink:
    a shared-memory name; cxl: an offset below 2^64 instead of the address;
    RDMA: as many remote as local keys, at least one, of 32 bits); topology
    entries under their own names; the other numbers in range. *)
Theorem segment_roundtrip now d : SegmentWf d -> sd_protocol d ∈ ["rdma"; "tcp"; "ascend"; "nvlink"; "cxl"]%string ->
  exists v, encodeSegmentDesc iter now d = (0, v) /\ decodeSegmentDesc iter v = Some (Some (seen iter now d)).
Proof. by apply segment_back. Qed.

(** An RDMA segment whose devices are those of its topology, with keys for each. *)
Definition Published (d : SegmentDesc) : Prop := sd_protocol d = "rdma"%string /\ SegmentWf d /\
  sd_topology d = Topology.resolve iter (Topology.matrix_ (sd_topology d)) /\
  length (sd_devices d) = length (Topology.hca_list_ (sd_topology d)) /\
  Forall (fun b => length (b_rkey b) = length (sd_devices d)) (sd_buffers d).

Lemma seen_usable now d : Published d -> DescOk (seen iter now d).
Proof.
  intros (Hp & [_ _ HB _ _ _] & Ht & Hl & HK). destruct (TopoProps.resolve_fits iter Hiter (Topology.matrix_ (sd_topology d))) as [G HG].
  assert (Hd : length (sd_devices (seen iter now d)) = length (sd_devices d)) by (unfold seen; rewrite Hp; cbn; by rewrite length_fmap).
  apply (WkProps.desc_ok _ G).
  - unfold seen. rewrite Hp. exact HG.
  - rewrite Hd, Hl. unfold seen. rewrite Hp. cbn. by rewrite Ht at 1.
  - rewrite Hd. unfold seen. rewrite Hp. cbn. apply Forall_fmap. rewrite list.Forall_forall in HK |- *. intros b Hb. cbn.
    destruct (HB b Hb) as (_ & _ & _ & _ & _ & Hr). destruct (Hr Hp) as (_ & Hlen & _). rewrite <- Hlen. split; by apply HK.
Qed.

(** C15: once a server has put an RDMA segment into the storage, a client that
    looks the name up afresh (with force_update, past its cache) gets the
    description as written, and every selection of a device for a transfer to
    it is defined: the device, its keys and its address are there.  The segment
    is well-formed, has a device for each name of its freshly resolved topology
    and keys of every buffer for each device; neither side is in P2P mode; the
    storage keeps what was written; the name is not that of the client's own
    segment. *)
Theorem published_segment_usable sv0 s0 name d sv s : p2p_handshake_mode_ s0 = false -> Published d ->
  (forall v, sv_set sv0 (getFullMetadataKey name) v = true /\ (encodeSegmentDesc iter (sv_now sv0) d = (0, v) -> sv_get sv (getFullMetadataKey name) = Some v)) ->
  MReach false s -> p2p_handshake_mode_ s = false -> Ready (DescByName sv name true) s -> segment_name_to_id_map_ s !! name <> Some LOCAL_SEGMENT_ID ->
  updateSegmentDesc iter sv0 name d s0 = Some (0, s0) /\
  exists s', getSegmentDescByName iter metacache isValidIpV6 default_port sv name true s = Some (Some (seen iter (sv_now sv0) d), s') /\
    DescOk (seen iter (sv_now sv0) d) /\ exists id, segment_name_to_id_map_ s' !! name = Some id /\ segment_id_to_desc_map_ s' !! id = Some (Some (seen iter (sv_now sv0) d)).
Proof.
  intros Hp0 HP Hs R Hp [HF Hb] Hloc. pose proof (mreach_inv _ _ R) as I. pose proof HP as (Hrd & HW & _).
  destruct (segment_back iter Hiter (sv_now sv0) d HW) as (v & Ev & Dv); [rewrite Hrd; left|]. destruct (Hs v) as [Hset Hget]. specialize (Hget Ev). split.
  { unfold updateSegmentDesc, bind, gets. rewrite Hp0, Ev. cbn. by rewrite Hset. }
  assert (Hfetch : forall s', p2p_handshake_mode_ s' = false -> getSegmentDesc sv name s' = Some (Some (seen iter (sv_now sv0) d), s')).
  { intros s' Hs'. unfold Metadata.getSegmentDesc, bind, gets. rewrite Hs', Hget. unfold lift. by rewrite Dv. }
  unfold getSegmentDescByName. unfold bind at 1, gets at 1. rewrite andb_false_r.
  destruct (segment_name_to_id_map_ s !! name) as [id|] eqn:En.
  - unfold bind at 1, ret at 1. rewrite (proj2 (Z.eqb_neq id LOCAL_SEGMENT_ID)) by congruence. unfold bind at 1. rewrite (Hfetch s Hp). cbn.
    eexists. split; [reflexivity|]. split; [by apply seen_usable|]. exists id. cbn. by rewrite !lookup_insert_eq.
  - unfold bind at 1, fresh_id, bind at 1, gets at 1, bind at 1, modify at 1, ret at 1. pose proof (mi_next _ _ I).
    rewrite (proj2 (Z.eqb_neq (next_segment_id_ s) LOCAL_SEGMENT_ID)) by (unfold LOCAL_SEGMENT_ID; lia). unfold bind at 1. rewrite Hfetch by done. cbn.
    eexists. split; [reflexivity|]. split; [by apply seen_usable|]. exists (next_segment_id_ s). cbn. by rewrite !lookup_insert_eq.
Qed.

End laws.

(** Two names with one key: a segment called [ram/x] and one called [x], and a
    segment called [rpc_meta/x] and the location of server [x]. *)
Lemma metadata_keys_collide x : String.index 0 "/" x = None ->
  getFullMetadataKey ("ram/" ++ x) = getFullMetadataKey x /\ getFullMetadataKey ("rpc_meta/" ++ x) = (kRpcMetaPrefix ++ x)%string.
Proof. intros Hx. unfold getFullMetadataKey. rewrite Hx. destruct x; split; reflexivity. Qed.

End metadata.

(** ** A model of the JSON interface, and a published segment *)

Import TopoJson.

(** Numbers as nodes without children. *)
Definition zig (n : Z) : nat := Z.to_nat (if 0 <=? n then 2 * n else - 2 * n - 1).
Definition zag (k : nat) : Z := if Z.even (Z.of_nat k) then Z.of_nat k / 2 else - ((Z.of_nat k + 1) / 2).
Lemma zag_zig n : zag (zig n) = n.
Proof.
  unfold zag, zig. destruct (Z.leb_spec 0 n) as [Hn|Hn]; rewrite Z2Nat.id by lia.
  - rewrite Z.even_mul. cbn [Z.even orb]. rewrite Z.mul_comm, Z.div_mul; lia.
  - replace (-2 * n - 1) with (2 * (- n - 1) + 1) by lia. rewrite Z.even_add, Z.even_mul. cbn.
    replace (2 * (- n - 1) + 1 + 1) with ((- n) * 2) by lia. rewrite Z.div_mul; lia.
Qed.

Definition number (v : tree) : option Z := match v with GenNode (S (S (S (S k)))) [] => Some (zag k) | _ => None end.
#[export] Instance tree_values : JsonValues tree := {
  nullValue := GenNode 3 [];
  isMember v k := bool_decide (is_Some ((list_to_map (fields v) : gmap string tree) !! k));
  ofInt n := GenNode (4 + zig n) [];
  ofUInt n := GenNode (4 + zig n) [];
  asInt := number; asUInt := number; asUInt64 := number;
}.
#[export] Instance tree_value_laws : JsonValueLaws tree.
Proof.
  constructor; try (intros n _; cbn; by rewrite zag_zig); try done.
  intros v m k (l & -> & ND & <-). unfold isMember, tree_values. by rewrite fields_object.
Qed.

Abbreviation iter0 := TopoProps.iter0.
Definition peer0 : SegmentDesc := WkProps.peer0.
Definition json0 : tree := (encodeSegmentDesc iter0 "now" peer0).2.
Definition services0 : Services (J := tree) :=
  mkServices (fun k => if String.eqb k "mooncake/ram/peer" then Some json0 else None) (fun _ _ => true) (fun _ => true) (fun _ _ _ => (0, json0)) "now".

Lemma peer0_matrix k e : Topology.matrix_ TopoProps.demo !! k = Some e -> Topology.name e = k.
Proof.
  change (Topology.matrix_ TopoProps.demo) with TopoProps.two_nodes. unfold TopoProps.two_nodes. rewrite !lookup_insert, lookup_empty.
  repeat case_decide; intros; by simplify_eq.
Qed.

Lemma peer0_wf : SegmentWf peer0.
Proof.
  split; cbn; try done.
  - intros _ x Hx. repeat (apply elem_of_cons in Hx as [->|Hx]); [split_and!; cbn; done..|]. by apply elem_of_nil in Hx.
  - intros b ->%list_elem_of_singleton. split_and!; cbn; try done; try lia. intros _. split_and!; try done; repeat constructor; lia.
  - intros _. apply peer0_matrix.
Qed.

Lemma segment_roundtrip_witness : exists v, encodeSegmentDesc iter0 "now" peer0 = (0, v) /\ decodeSegmentDesc iter0 v = Some (Some (seen iter0 "now" peer0)).
Proof. apply (segment_roundtrip iter0 TopoProps.iter0_ok "now" peer0 peer0_wf). left. Defined.

Lemma reads0 : Reads iter0 services0.
Proof.
  assert (H : is_Some (decodeSegmentDesc iter0 json0)) by (exists (Some (seen iter0 "now" peer0)); by vm_compute).
  split; [|done]. intros k v. cbn. destruct (String.eqb k _); [by intros [= <-]|done].
Qed.

Definition nov6 (s : string) : bool := false.
Definition known0 : TransferMetadata := match perform iter0 true nov6 12001 (SegmentId services0 "peer") (new_metadata false) with Some (_, s) => s | None => new_metadata false end.

Lemma known0_reach : MReach iter0 true nov6 12001 false known0.
Proof.
  apply (mreach_call _ _ _ _ _ (SegmentId services0 "peer") (new_metadata false)); [apply mreach_new| |by vm_compute].
  split; [|by vm_compute]. split; [apply reads0|done].
Qed.

Lemma metadata_consistent_witness : exists s', perform iter0 true nov6 12001 (DescById services0 1 true) known0 = Some (tt, s') /\ MReach iter0 true nov6 12001 false s'.
Proof.
  apply (metadata_consistent iter0 true nov6 12001 false known0 (DescById services0 1 true) known0_reach). split; [apply reads0|]. intros H. by vm_compute in H.
Defined.

Lemma published_segment_usable_witness : updateSegmentDesc iter0 services0 "peer" peer0 (new_metadata false) = Some (0, new_metadata false) /\
  exists s', getSegmentDescByName iter0 true nov6 12001 services0 "peer" true known0 = Some (Some (seen iter0 "now" peer0), s').
Proof.
  destruct (published_segment_usable iter0 true nov6 12001 TopoProps.iter0_ok services0 (new_metadata false) "peer" peer0 services0 known0) as [H1 (s' & H2 & _)].
  - reflexivity.
  - split_and!; [reflexivity|apply peer0_wf|reflexivity|by vm_compute|repeat constructor].
  - intros v. split; [reflexivity|]. intros E. change (Some json0 = Some v). unfold json0. change (sv_now services0) with "now"%string in E. by rewrite E.
  - apply known0_reach.
  - by vm_compute.
  - split; [split; [apply reads0|intros H; by vm_compute in H]|by vm_compute].
  - by vm_compute.
  - split; [exact H1|]. exists s'. exact H2.
Defined.

End MetaProps.
