(* ===== verification/RdmaMemory.v ===== *)
(** * RdmaMemory: bringing up the devices, and the memory they may access

    Models [RdmaTransport::install] with [initializeRdmaResources] and
    [allocateLocalSegmentID], [registerLocalMemory], [unregisterLocalMemory]
    (src/transport/rdma_transport/rdma_transport.cpp of
    mooncake-transfer-engine), and of [RdmaContext] (rdma_context.cpp) the
    members these use: [registerMemoryRegion], [unregisterMemoryRegion],
    [lkey], [rkey], in a build without CUDA.

    Arguments: which devices can be opened and the lid and gid they have, what
    [ibv_reg_mr] and [ibv_dereg_mr] answer, the location of a range of memory,
    and the services of the metadata. *)

From Stdlib Require Import ZArith Lia.
From stdpp Require Import base list gmap strings numbers.
From S2P Require Import Prelude Topology Transport Handshake Metadata.
Import Transport Metadata.

Open Scope moon_scope.
Open Scope Z_scope.

Module RdmaMemory.

(** [MemoryRegionMeta] with the region it points at. *)
Record MemoryRegion : Type := mkRegion { mr_addr : Z; mr_length : Z; mr_lkey : Z; mr_rkey : Z }.

(** The members of a context that concern its memory and its address. *)
Record Device : Type := mkDevice {
  deviceName : string;
  dv_lid : Z;
  dv_gid : string;
  memory_region_list_ : list MemoryRegion;
}.
Definition set_regions l c := mkDevice (deviceName c) (dv_lid c) (dv_gid c) l.

Record RdmaTransport : Type := mkTransport {
  local_server_name_ : string;
  metadata_ : TransferMetadata;
  local_topology_ : Topology.Topology;
  devices_ : list Device;
}.
Abbreviation T := (ST RdmaTransport).

Definition set_devices l t := mkTransport (local_server_name_ t) (metadata_ t) (local_topology_ t) l.
Definition set_topology x l t := mkTransport (local_server_name_ t) (metadata_ t) x l.
Definition on_metadata {A} (c : ST TransferMetadata A) : T A := fun t =>
  match c (metadata_ t) with
  | Some (a, m) => Some (a, mkTransport (local_server_name_ t) m (local_topology_ t) (devices_ t))
  | None => None
  end.

(** ** Regions of a context *)

(** Whether the region holds the byte at [addr]. *)
Definition holds (addr : Z) (r : MemoryRegion) : bool := (mr_addr r <=? addr) && (addr <? mr_addr r + mr_length r).

Section regions.
Context (max_mr_size : Z).

(** [keys] are the keys of the region the device made, if it made one. *)
Definition registerMemoryRegion (keys : option (Z * Z)) (addr length : Z) (c : Device) : Z * Device :=
  let length := if max_mr_size <? length then max_mr_size else length in
  match keys with
  | None => (ERR_CONTEXT, c)
  | Some (l, r) => (0, set_regions (memory_region_list_ c ++ [mkRegion addr length l r]) c)
  end.

(** The loop, one region that holds [addr] at a time. *)
Fixpoint unregister_loop (dereg_ok : MemoryRegion -> bool) (fuel : nat) (addr : Z) (l : list MemoryRegion) : option (Z * list MemoryRegion) :=
  match fuel with
  | O => None
  | S fuel =>
      match list_find (fun r => holds addr r) l with
      | None => Some (0, l)
      | Some (i, r) => if dereg_ok r then unregister_loop dereg_ok fuel addr (delete i l) else Some (ERR_CONTEXT, l)
      end
  end.
Definition unregisterMemoryRegion (dereg_ok : MemoryRegion -> bool) (addr : Z) (c : Device) : option (Z * Device) :=
  prod_map id (fun l => set_regions l c) <$>
    unregister_loop dereg_ok (S (length (memory_region_list_ c))) addr (memory_region_list_ c).

Definition key_of (key : MemoryRegion -> Z) (c : Device) (addr : Z) : Z :=
  match list_find (fun r => holds addr r) (memory_region_list_ c) with Some (_, r) => key r | None => 0 end.
Definition lkey : Device -> Z -> Z := key_of mr_lkey.
Definition rkey : Device -> Z -> Z := key_of mr_rkey.

(** ** Memory of the transport *)

(** The loop over the contexts from the [i]-th on: the code, the keys
    collected, the contexts afterwards. *)
Fixpoint register_all (keys : nat -> option (Z * Z)) (addr length : Z) (i : nat) (cs : list Device) : Z * (list Z * list Z) * list Device :=
  match cs with
  | [] => (0, ([], []), [])
  | c :: cs =>
      let '(rc, c) := registerMemoryRegion (keys i) addr length c in
      if negb (rc =? 0) then (rc, ([], []), c :: cs)
      else
        let '(rc, (ls, rs), cs) := register_all keys addr length (S i) cs in
        (rc, (lkey c addr :: ls, rkey c addr :: rs), c :: cs)
  end.

Context {J : Type} `{!Topology.JsonLib J} `{!JsonValues J}.
Context (iter : gmap string Topology.TopologyEntry -> list (string * Topology.TopologyEntry)).

(** [location] is where the first pages of the range are, if anywhere. *)
Definition registerLocalMemory (sv : Services) (keys : nat -> option (Z * Z)) (location : option string)
    (addr length : Z) (name : string) (update_metadata : bool) : T Z :=
  let* cs := gets devices_ in
  let '(rc, (ls, rs), cs) := register_all keys addr length 0 cs in
  do* modify (set_devices cs) in
  if negb (rc =? 0) then ret rc
  else if String.eqb name Topology.kWildcardLocation then
    match location with
    | None => ret (-1)
    | Some l => on_metadata (addLocalMemoryBuffer iter sv (mkBufferDesc l addr length ls rs "" 0) update_metadata)
    end
  else on_metadata (addLocalMemoryBuffer iter sv (mkBufferDesc name addr length ls rs "" 0) update_metadata).

Fixpoint unregister_all (dereg_ok : nat -> MemoryRegion -> bool) (addr : Z) (i : nat) (cs : list Device) : option (list Device) :=
  match cs with
  | [] => Some []
  | c :: cs =>
      r ← unregisterMemoryRegion (dereg_ok i) addr c;
      cs ← unregister_all dereg_ok addr (S i) cs;
      Some (r.2 :: cs)
  end.

Definition unregisterLocalMemory (sv : Services) (dereg_ok : nat -> MemoryRegion -> bool) (addr : Z) (update_metadata : bool) : T Z :=
  let* rc := on_metadata (removeLocalMemoryBuffer iter sv addr update_metadata) in
  if negb (rc =? 0) then ret rc
  else
    let* cs := gets devices_ in
    let* cs := lift (unregister_all dereg_ok addr 0 cs) in
    do* modify (set_devices cs) in
    ret 0.

(** ** Bringing the transport up *)

Section install.
(** The lid and gid of a device that can be opened. *)
Context (construct : string -> option (Z * string)).

Fixpoint open_devices (names : list string) (t : Topology.Topology) (cs : list Device) : Topology.Topology * list Device :=
  match names with
  | [] => (t, cs)
  | name :: names =>
      match construct name with
      | None => open_devices names (Topology.disableDevice iter name t).2 cs
      | Some (lid, gid) => open_devices names t (cs ++ [mkDevice name lid gid []])
      end
  end.

Definition initializeRdmaResources : T Z :=
  let* t := gets local_topology_ in
  let* cs := gets devices_ in
  let '(t, cs) := open_devices (Topology.hca_list_ t) t cs in
  do* modify (set_topology t cs) in
  ret (if Topology.is_empty t then Handshake.ERR_DEVICE_NOT_FOUND else 0).

Definition device_desc (c : Device) : DeviceDesc := mkDeviceDesc (deviceName c) (dv_lid c) (dv_gid c).

Definition local_desc (t : RdmaTransport) : SegmentDesc :=
  mkSegmentDesc (local_server_name_ t) "rdma" (device_desc <$> devices_ t) (local_topology_ t) [] [] "" 0 "" new_rank_info 0.

Definition allocateLocalSegmentID : T Z :=
  let* t := gets id in
  do* on_metadata (let* _c := addLocalSegment LOCAL_SEGMENT_ID (local_server_name_ t) (local_desc t) in ret tt) in
  ret 0.

(** [daemon] is the answer of the handshake daemon when it is started. *)
Definition install (sv : Services) (daemon : Z) (local_server_name : string) (topo : option Topology.Topology) : T Z :=
  match topo with
  | None => ret ERR_INVALID_ARGUMENT
  | Some topo =>
      do* modify (fun t => mkTransport local_server_name (metadata_ t) topo (devices_ t)) in
      let* rc := initializeRdmaResources in
      if negb (rc =? 0) then ret rc
      else
        let* rc := allocateLocalSegmentID in
        if negb (rc =? 0) then ret rc
        else if negb (daemon =? 0) then ret daemon
        else on_metadata (updateLocalSegmentDesc iter sv LOCAL_SEGMENT_ID)
  end.

End install.

(** A transport before it is installed. *)
Definition new_transport (m : TransferMetadata) : RdmaTransport := mkTransport "" m Topology.empty_topology [].

End regions.

End RdmaMemory.
