(* ===== verification/RdmaMemoryProps.v ===== *)
(** * RdmaMemoryProps: numbered devices and valid keys *)

From Stdlib Require Import ZArith Lia.
From stdpp Require Import base list gmap strings numbers.
From S2P Require Import Prelude Topology TopologyProofs TopologyProps TopologyJson Transport Handshake Worker WorkerInv WorkerProps Metadata MetadataProps RdmaMemory.
Import Topology TopoProofs TopoProps WkQueues Transport Metadata MetaProps RdmaMemory.

Open Scope moon_scope.
Open Scope Z_scope.

Module RdmaMemProps.

(** ** The device list of a topology *)

(** The names of [l] not in the list yet are put at its end. *)
Definition firsts (acc l : list string) : list string := fold_left (fun acc x => if decide (x ∈ acc) then acc else acc ++ [x]) l acc.

Lemma firsts_app acc l1 l2 : firsts acc (l1 ++ l2) = firsts (firsts acc l1) l2.
Proof. apply fold_left_app. Qed.

Lemma firsts_filter (P : string -> Prop) `{!forall x, Decision (P x)} l : forall acc, firsts (filter P acc) (filter P l) = filter P (firsts acc l).
Proof.
  induction l as [|x l IH]; intros acc; [done|].
  assert (E : firsts acc (x :: l) = firsts (if decide (x ∈ acc) then acc else acc ++ [x]) l) by done. rewrite E, <- IH, filter_cons.
  destruct (decide (P x)) as [HP|HP].
  - assert (E' : firsts (filter P acc) (x :: filter P l) = firsts (if decide (x ∈ filter P acc) then filter P acc else filter P acc ++ [x]) (filter P l)) by done.
    rewrite E'. f_equal. destruct (decide (x ∈ acc)) as [Hx|Hx].
    + by rewrite decide_True by (by apply list_elem_of_filter).
    + rewrite decide_False by (intros [_ ?]%list_elem_of_filter; done). by rewrite list.filter_app, filter_cons, decide_True by done.
  - f_equal. case_decide; [done|]. by rewrite list.filter_app, filter_cons, decide_False, app_nil_r by done.
Qed.

(** The numbers given so far are those of the devices listed so far. *)
Definition Numbered (s : RState) : Prop := forall h, is_Some (hca_id_map s !! h) <-> h ∈ rs_hca_list s.

Lemma register_firsts h s : Numbered s -> rs_hca_list (register h s) = firsts (rs_hca_list s) [h] /\ Numbered (register h s).
Proof.
  intros N. unfold register, firsts. cbn [fold_left]. specialize (N h) as Nh. destruct (hca_id_map s !! h) eqn:E.
  - rewrite decide_True by (apply Nh; by eexists). done.
  - rewrite decide_False by (rewrite <- Nh; apply is_Some_None). split; [done|]. intros x. cbn [hca_id_map rs_hca_list].
    rewrite elem_of_app, list_elem_of_singleton, lookup_insert. case_decide; [subst; split; [by right|by eexists]|].
    rewrite (N x). split; [by left|by intros [?| ->]].
Qed.

Lemma places_firsts add key l : forall s, Numbered s ->
  rs_hca_list (fold_left (place add key) l s) = firsts (rs_hca_list s) l /\ Numbered (fold_left (place add key) l s).
Proof.
  induction l as [|h l IH]; intros s N; [done|]. cbn [fold_left]. destruct (register_firsts h s N) as [E N'].
  destruct (IH (place add key s h) N') as [E' N'']. split; [|done]. rewrite E'. change (rs_hca_list (place add key s h)) with (rs_hca_list (register h s)).
  rewrite E. symmetry. apply (firsts_app _ [h] l).
Qed.

Definition all_named (es : list (string * TopologyEntry)) : list string := concat ((fun p => named p.2) <$> es).

Lemma resolve_firsts es : rs_hca_list (resolve_entries es) = firsts [] (all_named es).
Proof.
  unfold resolve_entries. assert (H : forall s, Numbered s -> rs_hca_list (fold_left resolve_entry es s) = firsts (rs_hca_list s) (all_named es)).
  { induction es as [|[k e] es IH]; intros s N; [done|]. cbn [fold_left]. unfold resolve_entry at 2. cbn [fst snd].
    destruct (places_firsts add_preferred k (preferred_hca e) s N) as [E1 N1]. destruct (places_firsts add_avail k (avail_hca e) _ N1) as [E2 N2].
    rewrite (IH _ N2), E2, E1. unfold all_named. cbn [fmap list_fmap concat snd]. unfold named at 2. by rewrite !firsts_app. }
  apply H. intros h. cbn. rewrite lookup_empty, elem_of_nil. split; [apply is_Some_None|done].
Qed.

Section topology.
Context (iter : gmap string TopologyEntry -> list (string * TopologyEntry)).
Context (iter_perm : forall m, iter m ≡ₚ map_to_list m).
(** Changing the values of a map leaves the order of its keys. *)
Context (iter_stable : forall (f : TopologyEntry -> TopologyEntry) m, iter (f <$> m) = prod_map id f <$> iter m).

(** A topology as its operations leave it, no device twice in a list. *)
Definition Plain (t : Topology) : Prop := t = resolve iter (matrix_ t) /\
  forall k e, matrix_ t !! k = Some e -> NoDup (preferred_hca e) /\ NoDup (avail_hca e).

Lemma all_named_disable dev es : (forall k e, (k, e) ∈ es -> NoDup (preferred_hca e) /\ NoDup (avail_hca e)) ->
  all_named (prod_map id (disable_in dev) <$> es) = filter (fun h => h <> dev) (all_named es).
Proof.
  unfold all_named. induction es as [|[k e] es IH]; intros ND; [done|]. cbn [fmap list_fmap concat prod_map snd]. rewrite IH by (intros k' e' H; apply (ND k'); by right).
  rewrite list.filter_app. f_equal. unfold named, disable_in. cbn [preferred_hca avail_hca]. destruct (ND k e ltac:(by left)).
  by rewrite !erase_name_filter, list.filter_app.
Qed.

Lemma disable_plain dev t : Plain t -> Plain (disableDevice iter dev t).2 /\
  hca_list_ (disableDevice iter dev t).2 = filter (fun h => h <> dev) (hca_list_ t).
Proof.
  intros [Ht ND]. split.
  - split; [done|]. intros k e He. cbn in He. apply lookup_fmap_Some in He as (e0 & <- & He). destruct (ND k e0 He). cbn.
    rewrite !erase_name_filter by done. by split; apply list.NoDup_filter.
  - rewrite Ht at 2. cbn. rewrite !resolve_firsts, iter_stable, all_named_disable.
    + apply (firsts_filter (fun h => h <> dev) _ []).
    + intros k e He. apply (ND k). by apply (iter_lookup iter iter_perm).
Qed.

Context (construct : string -> option (Z * string)).

(** The devices that could be opened: they alone stay in the topology, in their order. *)
Lemma open_devices_eq names : forall t cs, Plain t ->
  exists t' opened, open_devices iter construct names t cs = (t', cs ++ opened) /\ Plain t' /\
    hca_list_ t' = filter (fun h => h ∈ names -> is_Some (construct h)) (hca_list_ t) /\
    deviceName <$> opened = filter (fun h => is_Some (construct h)) names /\ Forall (fun c => memory_region_list_ c = []) opened.
Proof.
  induction names as [|name names IH]; intros t cs HP.
  - exists t, []. rewrite app_nil_r. split_and!; try done. symmetry. apply filter_all. intros h _ H. by apply elem_of_nil in H.
  - cbn [open_devices]. rewrite filter_cons. destruct (construct name) as [[lid gid]|] eqn:E.
    + destruct (IH t (cs ++ [mkDevice name lid gid []]) HP) as (t' & opened & Eo & HP' & Eh & En & HF).
      exists t', (mkDevice name lid gid [] :: opened). rewrite <- app_assoc in Eo. split_and!; [done|done| | |by constructor].
      * rewrite Eh. apply list_filter_iff. intros h. rewrite elem_of_cons. split; [|tauto]. intros H [-> |?]; [by rewrite E|auto].
      * rewrite decide_True by (by eexists). cbn. by f_equal.
    + destruct (disable_plain name t HP) as [HP1 E1]. destruct (IH _ cs HP1) as (t' & opened & Eo & HP' & Eh & En & HF).
      exists t', opened. split_and!; [done|done| | |done].
      * rewrite Eh, E1, list_filter_filter. apply list_filter_iff. intros h. rewrite elem_of_cons. split.
        -- intros [H Hne] [?|?]; [done|auto].
        -- intros H. split; [auto|]. intros ->. destruct (H ltac:(by left)) as [? Hc]. congruence.
      * by rewrite decide_False by apply is_Some_None.
Qed.

End topology.

(** ** Regions *)

(** No byte is in two regions. *)
Definition Separate (l : list MemoryRegion) : Prop := forall x, (length (filter (fun r => holds x r) l) <= 1)%nat.

Lemma separate_sub l l' : sublist l' l -> Separate l -> Separate l'.
Proof. intros Hs HS x. etransitivity; [|apply (HS x)]. apply sublist_length. by apply sublist_filters. Qed.

Lemma find_region l r x : Separate l -> r ∈ l -> holds x r = true -> exists i, list_find (fun r => holds x r) l = Some (i, r).
Proof.
  intros HS Hr Hx. destruct (list_find_elem_of (fun r => holds x r) l r Hr ltac:(cbn beta; by rewrite Hx)) as [[i r'] Hf]. exists i.
  apply list_find_Some in Hf as Hf'. destruct Hf' as (Hi & Hx' & _). rewrite Hf. do 2 f_equal.
  assert (Hin : forall y, y ∈ l -> holds x y = true -> y ∈ filter (fun r => holds x r) l) by (intros y Hy Ey; apply list_elem_of_filter; by rewrite Ey).
  pose proof (Hin r Hr Hx) as H1. pose proof (Hin r' ltac:(by eapply list_elem_of_lookup_2) ltac:(by destruct (holds x r'))) as H2.
  specialize (HS x). destruct (filter _ l) as [|a [|b q]]; [by apply elem_of_nil in H1| |cbn in HS; lia].
  apply list_elem_of_singleton in H1, H2. congruence.
Qed.

(** The range does not meet the region. *)
Definition Clear (addr length : Z) (r : MemoryRegion) : Prop := mr_addr r + mr_length r <= addr \/ addr + length <= mr_addr r.

Lemma separate_new l addr length lk rk : Separate l -> (forall r, r ∈ l -> Clear addr length r) -> Separate (l ++ [mkRegion addr length lk rk]).
Proof.
  intros HS HC x. rewrite list.filter_app, length_app, filter_cons. destruct (holds x (mkRegion addr length lk rk)) eqn:E.
  - rewrite decide_True by done. rewrite (filter_none (fun r => holds x r) l); [cbn; lia|]. intros r Hr Hx. unfold holds in E, Hx. cbn in E. specialize (HC r Hr). unfold Clear in HC.
    destruct (Z.leb_spec addr x), (Z.ltb_spec x (addr + length)), (Z.leb_spec (mr_addr r) x), (Z.ltb_spec x (mr_addr r + mr_length r)); cbn in E, Hx; try done; lia.
  - rewrite decide_False by (intros []). cbn. rewrite Nat.add_0_r. apply HS.
Qed.

Lemma unregister_loop_ok dereg_ok x fuel : forall l, (length l < fuel)%nat -> exists rc l', unregister_loop dereg_ok fuel x l = Some (rc, l') /\
  sublist l' l /\ (forall r, r ∈ l -> holds x r = false -> r ∈ l') /\ ((forall r, dereg_ok r = true) -> rc = 0 /\ forall r, r ∈ l' -> holds x r = false).
Proof.
  induction fuel as [|fuel IH]; intros l Hl; [lia|]. cbn [unregister_loop]. destruct (list_find (fun r => holds x r) l) as [[i r]|] eqn:E.
  - apply list_find_Some in E as (Hi & Hx & _). destruct (dereg_ok r) eqn:Ed.
    + assert (Hd : length (delete i l) = (length l - 1)%nat) by (apply length_delete; by eexists). apply lookup_lt_Some in Hi as Hlt.
      destruct (IH (delete i l) ltac:(lia)) as (rc & l' & El & Hs & Hk & Ha). exists rc, l'. split_and!; [done|by etransitivity; [|apply sublist_delete]| |done].
      intros r' Hr' Hx'. apply Hk; [|done]. apply list_elem_of_lookup in Hr' as [j Hj]. apply list_elem_of_lookup.
      destruct (decide (i = j)) as [<-|Hne]; [assert (r' = r) by congruence; subst; by rewrite Hx' in Hx|].
      destruct (decide (j < i)%nat); [exists j; by rewrite list_lookup_delete_lt by done|]. exists (pred j). rewrite list_lookup_delete_ge by lia. by replace (S (pred j)) with j by lia.
    + exists ERR_CONTEXT, l. split_and!; [done|done|done|]. intros Hall. by rewrite Hall in Ed.
  - exists 0, l. split_and!; [done|done|done|]. intros _. split; [done|]. intros r Hr. apply list_find_None in E. rewrite list.Forall_forall in E.
    destruct (holds x r) eqn:Ex; [|done]. by destruct (E r Hr); rewrite Ex.
Qed.

(** ** Keys *)

(** The region that was made for a buffer, in one context. *)
Definition RegionOf (addr length : Z) (lk rk : option Z) (c : Device) : Prop :=
  exists r, r ∈ memory_region_list_ c /\ mr_addr r = addr /\ mr_length r = length /\ lk = Some (mr_lkey r) /\ rk = Some (mr_rkey r).

(** The same context, with more or fewer regions. *)
Definition Alike (c c' : Device) : Prop := device_desc c' = device_desc c /\ (Separate (memory_region_list_ c) -> Separate (memory_region_list_ c')).
Definition Grown (c c' : Device) : Prop := Alike c c' /\ forall r, r ∈ memory_region_list_ c -> r ∈ memory_region_list_ c'.

Section regions.
Context (max_mr_size : Z).

Lemma register_one keys addr length c : 0 < length <= max_mr_size -> Separate (memory_region_list_ c) ->
  (forall r, r ∈ memory_region_list_ c -> Clear addr length r) ->
  let '(rc, c') := registerMemoryRegion max_mr_size keys addr length c in
  Grown c c' /\ (rc = 0 -> RegionOf addr length (Some (lkey c' addr)) (Some (rkey c' addr)) c').
Proof.
  intros Hl HS HC. unfold registerMemoryRegion. destruct keys as [[lk rk]|]; [|by split].
  rewrite (proj2 (Z.ltb_ge max_mr_size length)) by lia. set (r := mkRegion addr length lk rk). set (l := memory_region_list_ c ++ [r]).
  assert (HS' : Separate l) by (by apply separate_new). assert (Hr : r ∈ l) by (apply elem_of_app; right; by left). split.
  - split; [by split|]. intros r' Hr'. cbn. apply elem_of_app. by left.
  - intros _. exists r. split_and!; [done|done|done|..].
    all: destruct (find_region l r addr HS' Hr) as [i Hf];
      [unfold holds; cbn; rewrite (proj2 (Z.leb_le _ _)), (proj2 (Z.ltb_lt _ _)) by lia; done|].
    all: unfold lkey, rkey, key_of; cbn [memory_region_list_ set_regions]; fold l; by rewrite Hf.
Qed.

Lemma register_all_ok keys addr length cs : 0 < length <= max_mr_size ->
  (forall c, c ∈ cs -> Separate (memory_region_list_ c) /\ forall r, r ∈ memory_region_list_ c -> Clear addr length r) ->
  forall i, let '(rc, (ls, rs), cs') := register_all max_mr_size keys addr length i cs in
  Forall2 Grown cs cs' /\ (rc = 0 -> List.length ls = List.length cs /\ List.length rs = List.length cs /\
    forall j c', cs' !! j = Some c' -> RegionOf addr length (ls !! j) (rs !! j) c').
Proof.
  intros Hl. induction cs as [|c cs IH]; intros Hcs i; cbn [register_all]; [done|].
  destruct (Hcs c ltac:(by left)) as [HS HC]. pose proof (register_one (keys i) addr length c Hl HS HC) as H1.
  destruct (registerMemoryRegion _ _ _ _ _) as [rc c']. destruct H1 as [G1 H1].
  assert (HG : forall l, Forall2 Grown l l) by (intros l; induction l; by constructor).
  destruct (Z.eqb_spec rc 0) as [->|Hne]; cbn [negb].
  - specialize (IH ltac:(intros c0 Hc0; apply Hcs; by right) (S i)). destruct (register_all _ _ _ _ _ cs) as [[rc' [ls rs]] cs'] eqn:E.
    destruct IH as [HF HK]. split; [by constructor|]. intros ->. destruct (HK eq_refl) as (L1 & L2 & HR). cbn. split_and!; [lia|lia|].
    intros [|j] c0; cbn; [intros [= <-]; by apply H1|apply HR].
  - split; [constructor; [done|apply HG]|done].
Qed.

Lemma unregister_all_ok dereg_ok addr cs : forall i, exists cs', unregister_all dereg_ok addr i cs = Some cs' /\
  Forall2 (fun c c' => Alike c c' /\ (forall r, r ∈ memory_region_list_ c -> holds addr r = false -> r ∈ memory_region_list_ c') /\
    ((forall j r, dereg_ok j r = true) -> forall r, r ∈ memory_region_list_ c' -> holds addr r = false)) cs cs'.
Proof.
  induction cs as [|c cs IH]; intros i; cbn [unregister_all]; [by exists []|]. unfold unregisterMemoryRegion.
  destruct (unregister_loop_ok (dereg_ok i) addr (S (length (memory_region_list_ c))) (memory_region_list_ c) ltac:(lia)) as (rc & l' & E & Hs & Hk & Ha).
  destruct (IH (S i)) as (cs' & Ec & HF). rewrite E. cbn. rewrite Ec. eexists. split; [done|]. constructor; [|done].
  split_and!; [split; [done|by apply separate_sub]|done|]. intros Hall. by apply Ha.
Qed.

End regions.

(** ** The transport *)

Definition local_of (t : RdmaTransport) : option SegmentDesc := default None (segment_id_to_desc_map_ (metadata_ t) !! LOCAL_SEGMENT_ID).

(** The keys of a buffer are those of the regions made for it, context by context. *)
Definition Keyed (cs : list Device) (b : BufferDesc) : Prop :=
  length (b_lkey b) = length cs /\ length (b_rkey b) = length cs /\
  forall i c, cs !! i = Some c -> RegionOf (b_addr b) (b_length b) (b_lkey b !! i) (b_rkey b !! i) c.

Section transport.
Context {J : Type} `{!JsonLib J} `{!JsonValues J}.
Context (iter : gmap string TopologyEntry -> list (string * TopologyEntry)).
Context (iter_perm : forall m, iter m ≡ₚ map_to_list m).
Context (iter_stable : forall (f : TopologyEntry -> TopologyEntry) m, iter (f <$> m) = prod_map id f <$> iter m).
Context (max_mr_size : Z).
Abbreviation Services := (Services (J := J)).

Record TInv (t : RdmaTransport) (d : SegmentDesc) : Prop := {
  ti_local : segment_id_to_desc_map_ (metadata_ t) !! LOCAL_SEGMENT_ID = Some (Some d);
  ti_devices : sd_devices d = device_desc <$> devices_ t;
  ti_names : deviceName <$> devices_ t = hca_list_ (sd_topology d);
  ti_topology : Plain iter (sd_topology d);
  ti_some : devices_ t <> [];
  ti_separate : forall c, c ∈ devices_ t -> Separate (memory_region_list_ c);
  ti_keyed : forall b, b ∈ sd_buffers d -> 0 < b_length b /\ Keyed (devices_ t) b;
  ti_once : NoDup (b_addr <$> sd_buffers d);
}.

(** Requests of a client: memory is registered once, in pieces a device can take. *)
Inductive Op : Type :=
| Register (sv : Services) (keys : nat -> option (Z * Z)) (location : option string) (addr length : Z) (name : string) (update : bool)
| Unregister (sv : Services) (dereg_ok : nat -> MemoryRegion -> bool) (addr : Z) (update : bool).

Definition exec (o : Op) : ST RdmaTransport Z :=
  match o with
  | Register sv keys location addr length name u => registerLocalMemory max_mr_size iter sv keys location addr length name u
  | Unregister sv ok addr u => unregisterLocalMemory iter sv ok addr u
  end.

Definition Admissible (o : Op) (t : RdmaTransport) : Prop :=
  match o with
  | Register _ _ _ addr length _ _ => 0 < length <= max_mr_size /\
      forall c r, c ∈ devices_ t -> r ∈ memory_region_list_ c -> Clear addr length r
  | Unregister _ _ _ _ => True
  end.

(** From an installation on. *)
Inductive RReach : RdmaTransport -> Prop :=
| rreach_install construct sv daemon name topo m t : Plain iter topo ->
    install iter construct sv daemon name (Some topo) (new_transport m) = Some (0, t) -> RReach t
| rreach_op o t rc t' : RReach t -> Admissible o t -> exec o t = Some (rc, t') -> RReach t'.

(** ** The invariant *)

Lemma tinv_devices t d cs : TInv t d -> Forall2 Alike (devices_ t) cs ->
  (forall b, b ∈ sd_buffers d -> Keyed cs b) -> TInv (set_devices cs t) d.
Proof.
  intros [H1 H2 H3 H4 H5 H6 H7 H8] HA HK. split; cbn; try done.
  - rewrite H2. clear -HA. induction HA as [|c c' cs cs' [E _] _ IH]; [done|]. cbn. by rewrite IH, E.
  - rewrite <- H3. clear -HA. induction HA as [|c c' cs cs' [E _] _ IH]; [done|]. cbn. rewrite IH. injection E as -> _ _. done.
  - intros ->. by apply Forall2_nil_inv_r in HA.
  - intros c' Hc'. apply list_elem_of_lookup in Hc' as [i Hi]. destruct (Forall2_lookup_r _ _ _ _ _ HA Hi) as (c & Hc & _ & HS).
    apply HS, H6. by eapply list_elem_of_lookup_2.
  - intros b Hb. split; [by apply H7|by apply HK].
Qed.

Lemma tinv_buffers t d bs m : TInv t d -> segment_id_to_desc_map_ m !! LOCAL_SEGMENT_ID = Some (Some (set_buffers bs d)) ->
  (forall b, b ∈ bs -> 0 < b_length b /\ Keyed (devices_ t) b) -> NoDup (b_addr <$> bs) ->
  TInv (mkTransport (local_server_name_ t) m (local_topology_ t) (devices_ t)) (set_buffers bs d).
Proof. intros [H1 H2 H3 H4 H5 H6 H7 H8] Hm Hb ND. by split. Qed.

Lemma keyed_grown cs cs' b : Forall2 Grown cs cs' -> Keyed cs b -> Keyed cs' b.
Proof.
  intros HF (L1 & L2 & HK). pose proof (Forall2_length HF). split_and!; [lia|lia|]. intros i c' Hi.
  destruct (Forall2_lookup_r _ _ _ _ _ HF Hi) as (c & Hc & _ & Hin). destruct (HK i c Hc) as (r & Hr & HE). exists r. auto.
Qed.

(** Adding and removing a buffer of the local segment. *)
Lemma add_buffer_runs sv b u t d : TInv t d -> 0 < b_length b -> Keyed (devices_ t) b -> b_addr b ∉ b_addr <$> sd_buffers d ->
  runs (on_metadata (addLocalMemoryBuffer iter sv b u)) t (fun _ t' => exists d', TInv t' d').
Proof.
  intros I Hl HK Hn. assert (R : runs (addLocalMemoryBuffer iter sv b u) (metadata_ t) (fun _ m =>
    segment_id_to_desc_map_ m !! LOCAL_SEGMENT_ID = Some (Some (set_buffers (sd_buffers d ++ [b]) d)))).
  { unfold addLocalMemoryBuffer. apply (desc_at_runs _ _ _ _ _ (ti_local _ _ I)), (runs_lift _ _ _ d _ eq_refl), runs_modify.
    destruct u; [|apply runs_ret; apply lookup_insert_eq].
    eapply runs_mono; [apply (update_local_keeps iter sv _ (set_buffers (sd_buffers d ++ [b]) d)); apply lookup_insert_eq|]. intros r s' ->. apply lookup_insert_eq. }
  unfold runs, on_metadata in *. destruct (addLocalMemoryBuffer iter sv b u (metadata_ t)) as [[r m]|]; [|done].
  exists (set_buffers (sd_buffers d ++ [b]) d). apply (tinv_buffers t d _ m I R).
  - intros b' [Hb'| ->%list_elem_of_singleton]%elem_of_app; [by apply (ti_keyed _ _ I)|done].
  - rewrite fmap_app. apply list.NoDup_app. split_and!; [apply I| |apply NoDup_singleton]. intros x Hx ->%list_elem_of_singleton. done.
Qed.

Lemma register_runs sv keys location addr length name u t d : TInv t d -> Admissible (Register sv keys location addr length name u) t ->
  runs (exec (Register sv keys location addr length name u)) t (fun _ t' => exists d', TInv t' d').
Proof.
  intros I [Hl HC]. cbn [exec]. unfold registerLocalMemory. apply runs_gets.
  pose proof (register_all_ok max_mr_size keys addr length (devices_ t) Hl ltac:(intros c Hc; split; [by apply I|intros r; by apply HC]) 0) as H.
  destruct (register_all _ _ _ _ _ _) as [[rc [ls rs]] cs]. destruct H as [HF HK]. apply runs_modify.
  assert (I1 : TInv (set_devices cs t) d).
  { apply tinv_devices; [done|eapply Forall2_impl; [|exact HF]; by intros ? ? []|]. intros b Hb. eapply keyed_grown; [done|]. by apply I. }
  destruct (Z.eqb_spec rc 0) as [->|Hne]; cbn [negb]; [|apply runs_ret; by exists d].
  destruct (HK eq_refl) as (L1 & L2 & HR). pose proof (Forall2_length HF) as L3.
  assert (Hn : addr ∉ b_addr <$> sd_buffers d).
  { intros (b & -> & Hb)%list_elem_of_fmap. destruct (ti_keyed _ _ I b Hb) as [Hp (_ & _ & HKb)].
    destruct (devices_ t) as [|c cs0] eqn:Ec; [by destruct (ti_some _ _ I)|]. destruct (HKb 0%nat c eq_refl) as (r & Hr & Ea & El & _).
    pose proof (HC c r ltac:(by left) Hr) as Hc. unfold Clear in Hc. lia. }
  assert (Hadd : forall l, runs (on_metadata (addLocalMemoryBuffer iter sv (mkBufferDesc l addr length ls rs "" 0) u)) (set_devices cs t) (fun _ t' => exists d', TInv t' d')).
  { intros l. apply (add_buffer_runs sv _ u _ d I1); cbn; [lia| |done]. split_and!; cbn; [lia|lia|exact HR]. }
  destruct (String.eqb name kWildcardLocation); [destruct location as [l|]; [apply Hadd|apply runs_ret; by exists d]|apply Hadd].
Qed.

Lemma erase_buffer_split addr bs bs' : erase_buffer addr bs = Some bs' -> exists l1 b l2, bs = l1 ++ b :: l2 /\ b_addr b = addr /\ bs' = l1 ++ l2.
Proof.
  revert bs'. induction bs as [|b bs IH]; intros bs'; cbn; [done|]. destruct (Z.eqb_spec (b_addr b) addr) as [<-|Hne].
  - intros [= <-]. by exists [], b, bs.
  - destruct (erase_buffer addr bs) as [r|]; [|done]. intros [= <-]. destruct (IH r eq_refl) as (l1 & b' & l2 & -> & <- & ->). by exists (b :: l1), b', l2.
Qed.

(** Another buffer has no region that holds the address. *)
Lemma keyed_apart t d b b' i c r : TInv t d -> b ∈ sd_buffers d -> b' ∈ sd_buffers d -> b_addr b' <> b_addr b -> devices_ t !! i = Some c ->
  r ∈ memory_region_list_ c -> mr_addr r = b_addr b' -> holds (b_addr b) r = false.
Proof.
  intros I Hb Hb' Hne Hc Hr Ea. destruct (holds (b_addr b) r) eqn:E; [exfalso|done].
  destruct (ti_keyed _ _ I b Hb) as [Hl (_ & _ & HK)]. destruct (HK i c Hc) as (r0 & Hr0 & Ea0 & El0 & _).
  assert (HS : Separate (memory_region_list_ c)) by (eapply I, list_elem_of_lookup_2, Hc).
  destruct (find_region _ r _ HS Hr E) as [j Hj]. destruct (find_region _ r0 (b_addr b) HS Hr0) as [j0 Hj0].
  - unfold holds. by rewrite (proj2 (Z.leb_le _ _)), (proj2 (Z.ltb_lt _ _)) by lia.
  - rewrite Hj in Hj0. congruence.
Qed.

Lemma unregister_runs sv ok addr u t d : TInv t d -> runs (exec (Unregister sv ok addr u)) t (fun rc t' => exists d', TInv t' d' /\
  (rc = 0 -> (addr ∉ b_addr <$> sd_buffers d') /\ ((forall j r, ok j r = true) -> forall c r, c ∈ devices_ t' -> r ∈ memory_region_list_ c -> holds addr r = false))).
Proof.
  intros I. cbn [exec]. unfold unregisterLocalMemory. apply runs_bind.
  assert (R : runs (removeLocalMemoryBuffer iter sv addr u) (metadata_ t) (fun rc m => exists bs,
    segment_id_to_desc_map_ m !! LOCAL_SEGMENT_ID = Some (Some (set_buffers bs d)) /\
    (bs = sd_buffers d /\ rc <> 0 \/ erase_buffer addr (sd_buffers d) = Some bs))).
  { unfold removeLocalMemoryBuffer. apply (desc_at_runs _ _ _ _ _ (ti_local _ _ I)), (runs_lift _ _ _ d _ eq_refl).
    destruct (erase_buffer addr (sd_buffers d)) as [bs|] eqn:E.
    - apply runs_modify. destruct u; [|apply runs_ret; exists bs; split; [apply lookup_insert_eq|by right]].
      eapply runs_mono; [apply (update_local_keeps iter sv _ (set_buffers bs d)); apply lookup_insert_eq|].
      intros r s' ->. exists bs. split; [apply lookup_insert_eq|by right].
    - apply runs_modify, runs_ret. exists (sd_buffers d). split; [|by left]. cbn. rewrite lookup_insert_eq. by destruct d. }
  unfold runs at 1. unfold on_metadata. unfold runs in R. destruct (removeLocalMemoryBuffer _ _ _ _ _) as [[rc m]|]; [|done]. destruct R as (bs & Hm & Hbs).
  set (t1 := mkTransport _ m _ _). assert (Hsub : forall b, b ∈ bs -> b ∈ sd_buffers d).
  { destruct Hbs as [[-> _]|(l1 & b0 & l2 & -> & _ & ->)%erase_buffer_split]; [done|]. intros b. rewrite !elem_of_app, elem_of_cons. tauto. }
  assert (I1 : TInv t1 (set_buffers bs d)).
  { apply (tinv_buffers t d bs m I Hm); [intros b Hb; by apply I, Hsub|]. destruct Hbs as [[-> _]|(l1 & b0 & l2 & E & _ & ->)%erase_buffer_split]; [apply I|].
    pose proof (ti_once _ _ I) as ND. rewrite E, fmap_app, fmap_cons in ND. rewrite fmap_app. rewrite <- Permutation_middle in ND. by apply list.NoDup_cons in ND as [_ ND]. }
  destruct (Z.eqb_spec rc 0) as [->|Hne]; cbn [negb]; [|apply runs_ret; by exists (set_buffers bs d)].
  destruct Hbs as [[_ []]|E]; [done|]. destruct (erase_buffer_split _ _ _ E) as (l1 & b0 & l2 & Ed & Ea & Eb).
  assert (Hb0 : b0 ∈ sd_buffers d) by (rewrite Ed, elem_of_app; right; by left).
  assert (Hout : addr ∉ b_addr <$> bs).
  { pose proof (ti_once _ _ I) as ND. rewrite Ed, fmap_app, fmap_cons in ND. rewrite <- Permutation_middle in ND. apply list.NoDup_cons in ND as [ND _]. by rewrite Eb, fmap_app, <- Ea. }
  apply runs_gets. destruct (unregister_all_ok ok addr (devices_ t1) 0) as (cs & Ec & HF). apply (runs_lift _ _ _ cs _ Ec), runs_modify, runs_ret.
  exists (set_buffers bs d). split.
  - apply tinv_devices; [done|eapply Forall2_impl; [|exact HF]; by intros ? ? []|]. intros b Hb. destruct (ti_keyed _ _ I1 b Hb) as [_ (L1 & L2 & HK)].
    pose proof (Forall2_length HF) as L3. split_and!; [lia|lia|]. intros i c' Hc'. destruct (Forall2_lookup_r _ _ _ _ _ HF Hc') as (c & Hc & _ & Hkeep & _).
    destruct (HK i c Hc) as (r & Hr & Er & HE). exists r. split; [|done]. apply Hkeep; [done|]. rewrite <- Ea.
    apply (keyed_apart t d b0 b i c r I Hb0 (Hsub b Hb)); [|done|done|done]. rewrite Ea. intros Eab. apply Hout, list_elem_of_fmap. by exists b.
  - intros _. split; [done|]. intros Hall c r Hc Hr. apply list_elem_of_lookup in Hc as [i Hi]. destruct (Forall2_lookup_r _ _ _ _ _ HF Hi) as (c0 & _ & _ & _ & Hno). by apply Hno.
Qed.

(** ** Installation *)

Lemma nonempty_devices t : Plain iter t -> is_empty t = false -> hca_list_ t <> [].
Proof.
  intros [Ht _] He El. destruct (resolve_fits iter iter_perm (matrix_ t)) as [G HF]. rewrite <- Ht in HF.
  destruct (decide (resolved_matrix_ t = ∅)) as [E|Hne].
  - unfold is_empty in He. by rewrite E, map_to_list_empty in He.
  - apply map_choose in Hne as (k & e & Hk). destruct (fits_some t G HF k e Hk) as [_ Hn]. destruct HF as (ids & next & M).
    destruct ((G k).1 ++ (G k).2) as [|h l] eqn:EG; [done|]. pose proof (mir_known _ _ M k h ltac:(rewrite EG; by left)) as Hh. cbn in Hh. rewrite El in Hh. by apply elem_of_nil in Hh.
Qed.

Lemma initialize_eq construct t : Plain iter (local_topology_ t) -> devices_ t = [] ->
  exists rc topo cs, initializeRdmaResources iter construct t = Some (rc, set_topology topo cs t) /\ Plain iter topo /\
    hca_list_ topo = filter (fun h => is_Some (construct h)) (hca_list_ (local_topology_ t)) /\
    deviceName <$> cs = hca_list_ topo /\ Forall (fun c => memory_region_list_ c = []) cs /\ (rc = 0 -> cs <> []).
Proof.
  intros HP Hd. destruct (open_devices_eq iter iter_perm iter_stable construct (hca_list_ (local_topology_ t)) (local_topology_ t) [] HP) as (topo & cs & E & HP' & Eh & En & HF).
  assert (Eh' : hca_list_ topo = filter (fun h => is_Some (construct h)) (hca_list_ (local_topology_ t))).
  { rewrite Eh. apply filter_iff_in. intros h Hh. tauto. }
  exists (if is_empty topo then Handshake.ERR_DEVICE_NOT_FOUND else 0), topo, cs. split_and!; [|done|done|congruence|done|].
  - unfold initializeRdmaResources. unfold bind, gets, modify, ret. rewrite Hd, E. done.
  - destruct (is_empty topo) eqn:Ee; [done|]. intros _ ->. apply (nonempty_devices topo HP' Ee). by rewrite Eh', <- En.
Qed.

Lemma install_inv construct sv daemon name topo m t : Plain iter topo ->
  install iter construct sv daemon name (Some topo) (new_transport m) = Some (0, t) -> exists d, TInv t d.
Proof.
  intros HP H. unfold install in H. unfold bind at 1, modify at 1 in H. unfold bind at 1 in H.
  destruct (initialize_eq construct (mkTransport name m topo []) HP eq_refl) as (rc & topo' & cs & E & HP' & Eh & En & HF & Hne).
  cbn [new_transport metadata_ devices_] in H. rewrite E in H. destruct (Z.eqb_spec rc 0) as [->|?]; cbn [negb] in H; [|by injection H].
  unfold bind at 1, allocateLocalSegmentID at 1 in H. cbn in H. destruct (daemon =? 0) eqn:Ed; cbn [negb] in H; [|injection H as -> _; done].
  match type of H with context [on_metadata _ ?x] => set (t1 := x) in H end. pose (d := local_desc (set_topology topo' cs (mkTransport name m topo []))).
  assert (Hm : segment_id_to_desc_map_ (metadata_ t1) !! LOCAL_SEGMENT_ID = Some (Some d)) by (cbn; apply lookup_insert_eq).
  pose proof (update_local_keeps iter sv (metadata_ t1) d Hm) as R. unfold runs in R. unfold on_metadata in H.
  destruct (updateLocalSegmentDesc iter sv LOCAL_SEGMENT_ID (metadata_ t1)) as [[r m']|]; [|done]. subst m'. injection H as _ <-. exists d.
  split; cbn; try done; [by apply Hne| |by intros b ?%elem_of_nil|constructor].
  intros c Hc x. rewrite list.Forall_forall in HF. rewrite (HF c Hc). cbn. lia.
Qed.

Lemma op_runs o t d : TInv t d -> Admissible o t -> runs (exec o) t (fun _ t' => exists d', TInv t' d').
Proof.
  intros I HA. destruct o as [sv keys location addr length name u|sv ok addr u]; [by apply (register_runs _ _ _ _ _ _ _ t d)|].
  eapply runs_mono; [by apply (unregister_runs sv ok addr u t d)|]. intros rc t' (d' & I' & _). by exists d'.
Qed.

Lemma rreach_inv t : RReach t -> exists d, TInv t d.
Proof.
  induction 1 as [construct sv daemon name topo m t HP E|o t rc t' _ [d I] HA E]; [by eapply install_inv|].
  pose proof (op_runs o t d I HA) as R. unfold runs in R. by rewrite E in R.
Qed.

Lemma tinv_desc t d : TInv t d -> DescOk d.
Proof.
  intros [H1 H2 H3 [Ht _] H5 H6 H7 H8]. destruct (resolve_fits iter iter_perm (matrix_ (sd_topology d))) as [G HF]. rewrite <- Ht in HF.
  assert (L : length (sd_devices d) = length (devices_ t)) by (by rewrite H2, length_fmap).
  apply (WkProps.desc_ok d G HF); [by rewrite L, <- H3, length_fmap|]. apply list.Forall_forall. intros b Hb. destruct (H7 b Hb) as [_ (L1 & L2 & _)]. lia.
Qed.

(** ** Theorems *)

(** C24: bringing the devices up of a topology that was just resolved from its
    matrix and lists no device twice in one list leaves in the topology exactly
    those that could be opened, in their order, and one context for each in the
    same order: any device the topology selects, with any location, hint,
    random number and attempt, is the number of an open context of that name.
    (The order in which the matrix is iterated is taken to depend on its keys
    only.) *)
Theorem devices_numbered construct t : Plain iter (local_topology_ t) -> devices_ t = [] ->
  exists rc t', initializeRdmaResources iter construct t = Some (rc, t') /\ (rc = 0 -> devices_ t' <> []) /\
    hca_list_ (local_topology_ t') = filter (fun h => is_Some (construct h)) (hca_list_ (local_topology_ t)) /\
    deviceName <$> devices_ t' = hca_list_ (local_topology_ t') /\
    forall rand location hint r, - 2 ^ 31 < r < 2 ^ 31 -> exists i, topology_select rand location hint r (local_topology_ t') = Some i /\
      (0 <= i -> exists c, aget (devices_ t') i = Some c /\ aget (hca_list_ (local_topology_ t')) i = Some (deviceName c) /\ is_Some (construct (deviceName c))).
Proof.
  intros HP Hd. destruct (initialize_eq construct t HP Hd) as (rc & topo & cs & E & [Ht HN] & Eh & En & HF & Hne).
  exists rc, (set_topology topo cs t). split_and!; [done|done|done|done|]. intros rand location hint r Hr. cbn [local_topology_ devices_ set_topology].
  destruct (resolve_fits iter iter_perm (matrix_ topo)) as [G HG]. rewrite <- Ht in HG.
  assert (Hs : exists i, topology_select rand location hint r topo = Some i /\ (i < 0 \/ i < Z.of_nat (length (hca_list_ topo)))).
  { unfold topology_select. destruct (String.eqb hint "").
    1: destruct (select_defined topo G rand location hint r HG Hr _ (or_introl eq_refl)) as (i & Ei & Hi).
    2: destruct (select_defined topo G rand location hint r HG Hr _ (or_intror eq_refl)) as (i & Ei & Hi).
    all: exists i; split; [done|]; destruct Hi as [[-> _]|?]; [left; by vm_compute|right; lia]. }
  destruct Hs as (i & Ei & Hi). exists i. split; [done|]. intros H0. unfold aget. rewrite (proj2 (Z.leb_le 0 i) H0).
  destruct (lookup_lt_is_Some_2 cs (Z.to_nat i)) as [c Hc]; [rewrite <- (length_fmap deviceName), En; lia|]. exists c. split; [done|].
  assert (Hn : hca_list_ topo !! Z.to_nat i = Some (deviceName c)) by (by rewrite <- En, list_lookup_fmap, Hc). split; [done|].
  rewrite Eh in Hn. by apply list_elem_of_lookup_2, list_elem_of_filter in Hn as [? _].
Qed.

(** C9: from an installation on, over a topology that lists no device twice in
    one list, with failures of the devices at any point: as long as what is
    registered is not empty, no longer than the largest region a device takes,
    and clear of every region registered before, every call returns; every
    buffer of the local segment carries one pair of keys per context, each of a
    region of that context that is exactly the buffer; the description has a
    device for each name of its topology, so that every selection on it is
    defined; and after an unregistering that answers 0 and in which every
    deregistration of the devices succeeds, no buffer starts at the address and
    no context has a region over it. *)
Theorem registered_keys_valid t : RReach t ->
  exists d, local_of t = Some d /\ DescOk d /\ sd_devices d = device_desc <$> devices_ t /\
    (forall b, b ∈ sd_buffers d -> Keyed (devices_ t) b) /\
    (forall o, Admissible o t -> exists rc t', exec o t = Some (rc, t') /\ RReach t') /\
    (forall sv addr u t', exec (Unregister sv (fun _ _ => true) addr u) t = Some (0, t') ->
      exists d', local_of t' = Some d' /\ (addr ∉ b_addr <$> sd_buffers d') /\
        forall c r, c ∈ devices_ t' -> r ∈ memory_region_list_ c -> holds addr r = false).
Proof.
  intros HR. destruct (rreach_inv t HR) as [d I]. exists d. split_and!.
  - unfold local_of. by rewrite (ti_local _ _ I).
  - by eapply tinv_desc.
  - apply I.
  - intros b Hb. by apply (ti_keyed _ _ I).
  - intros o HA. destruct (runs_elim _ _ _ (op_runs o t d I HA)) as (rc & t' & E & _). exists rc, t'. split; [done|]. by eapply rreach_op.
  - intros sv addr u t' E. pose proof (unregister_runs sv (fun _ _ => true) addr u t d I) as R. unfold runs in R. rewrite E in R. destruct R as (d' & I' & H).
    destruct (H eq_refl) as [Hn Hr]. exists d'. split_and!; [unfold local_of; by rewrite (ti_local _ _ I')|done|by apply Hr].
Qed.

End transport.

(** ** A transport with two devices, one of which cannot be opened *)

Import TopoJson.

Definition construct0 (name : string) : option (Z * string) := if String.eqb name "mlx5_1" then None else Some (1, "fe80").
Definition before0 : RdmaTransport := mkTransport "server" (new_metadata false) demo [].

Lemma demo_plain : Plain iter0 demo.
Proof.
  split; [done|]. intros k e. change (matrix_ demo) with two_nodes. unfold two_nodes. rewrite !lookup_insert, lookup_empty.
  repeat case_decide; intros; simplify_eq; cbn; split; repeat constructor; set_solver.
Qed.

Lemma iter0_stable (f : TopologyEntry -> TopologyEntry) m : iter0 (f <$> m) = prod_map id f <$> iter0 m.
Proof. apply map_to_list_fmap. Qed.

Lemma devices_numbered_witness : exists rc t', initializeRdmaResources iter0 construct0 before0 = Some (rc, t') /\
  hca_list_ (local_topology_ t') = filter (fun h => is_Some (construct0 h)) (hca_list_ demo).
Proof.
  destruct (devices_numbered iter0 iter0_ok iter0_stable construct0 before0 demo_plain eq_refl) as (rc & t' & E & _ & Eh & _). exists rc, t'. split; [exact E|exact Eh].
Defined.

Definition state_of (r : option (Z * RdmaTransport)) : RdmaTransport := match r with Some (_, t) => t | None => before0 end.
Definition installed0 : RdmaTransport := state_of (install iter0 construct0 services0 0 "server" (Some demo) (new_transport (new_metadata false))).
Definition register0 (addr length : Z) : Op (J := tree) := Register services0 (fun i => Some (10 + Z.of_nat i, 20 + Z.of_nat i)) (Some "cpu:0") addr length "*" true.
Definition registered0 : RdmaTransport := state_of (exec iter0 65536 (register0 4096 8192) installed0).

Lemma registered0_reach : RReach iter0 65536 registered0.
Proof.
  apply (rreach_op iter0 65536 (register0 4096 8192) installed0 0).
  - apply (rreach_install iter0 65536 construct0 services0 0 "server" demo (new_metadata false)); [apply demo_plain|by vm_compute].
  - split; [lia|]. intros c r Hc. assert (H : Forall (fun c => memory_region_list_ c = []) (devices_ installed0)) by (vm_compute; repeat constructor).
    rewrite list.Forall_forall in H. rewrite (H c Hc). by intros ?%elem_of_nil.
  - by vm_compute.
Qed.

Lemma registered_keys_valid_witness : exists d, local_of registered0 = Some d /\ length (sd_buffers d) = 1%nat /\ DescOk d.
Proof.
  destruct (registered_keys_valid iter0 iter0_ok iter0_stable 65536 registered0 registered0_reach) as (d & E & H & _). exists d. split_and!; [done| |done].
  assert (Hl : (length ∘ sd_buffers) <$> local_of registered0 = Some 1%nat) by (by vm_compute). rewrite E in Hl. by injection Hl.
Defined.

(** ** What registering does outside these bounds *)

Definition published (t : RdmaTransport) : list (Z * Z * list Z) := default [] (fmap (fun b => (b_addr b, b_length b, b_lkey b)) <$> (sd_buffers <$> local_of t)).
Definition regions (t : RdmaTransport) : list (Z * Z * Z) := devices_ t ≫= (fun c => (fun r => (mr_addr r, mr_length r, mr_lkey r)) <$> memory_region_list_ c).

(** A buffer longer than the limit is published in full; the region covers its
    first part only. *)
Lemma long_buffer_uncovered : let t := state_of (exec iter0 65536 (register0 4096 131072) installed0) in
  published t = [(4096, 131072, [10])] /\ regions t = [(4096, 65536, 10)].
Proof. by vm_compute. Qed.

(** A buffer that starts inside one registered before is published with the
    key of the earlier region, which does not cover it. *)
Lemma overlap_wrong_key : let again := Register services0 (fun _ => Some (30, 40)) (Some "cpu:0") 8192 8192 "*" true in
  let t := state_of (exec iter0 65536 again registered0) in
  published t = [(4096, 8192, [10]); (8192, 8192, [10])] /\ regions t = [(4096, 8192, 10); (8192, 8192, 30)].
Proof. by vm_compute. Qed.

(** A device that cannot be opened and is listed twice: only its first mention
    is taken out, so it stays in the topology and the numbers of the topology
    are no longer those of the contexts. *)
Definition twice0 : Topology := resolve iter0 {["cpu:0"%string := mkEntry "cpu:0" ["mlx5_1"; "mlx5_1"]%string ["mlx5_0"%string]]}.
Lemma duplicate_device_stays :
  let t := state_of (initializeRdmaResources iter0 construct0 (mkTransport "server" (new_metadata false) twice0 [])) in
  hca_list_ (local_topology_ t) = ["mlx5_1"; "mlx5_0"]%string /\ deviceName <$> devices_ t = ["mlx5_0"%string].
Proof. by vm_compute. Qed.

End RdmaMemProps.
