(* ===== verification/HandshakeProps.v ===== *)
(** * HandshakeProps: two servers connect a pair of endpoints

    The exchange as it runs: the active side describes itself, the description
    travels as JSON, the daemon of the other side finds or makes the endpoint
    and answers, the active side takes over the answer. *)

From Stdlib Require Import ZArith Lia Ascii.
From stdpp Require Import base list gmap strings numbers.
From S2P Require Import Prelude Topology TopologyJson Endpoint EndpointInv EndpointStore Transport Handshake HandshakeProofs Worker WorkerSys Metadata MetadataProps Rdma.
Import Endpoint Handshake EpProofs HsProofs.

Open Scope moon_scope.
Open Scope Z_scope.

Module HsProps.

Definition connected (id : nat) (w : World) : Prop := exists e, eps w !! id = Some e /\ status_ e = CONNECTED.

(** The name of a server can be read off its NIC paths. *)
Definition Names (server nic : string) : Prop := ("@"%char ∉ String.list_ascii_of_string server) /\ server <> ""%string /\ nic <> ""%string.

Lemma names_parts server nic : Names server nic ->
  getServerNameFromNicPath (Transport.MakeNicPath server nic) = server /\ getNicNameFromNicPath (Transport.MakeNicPath server nic) = nic /\
  String.eqb server "" || String.eqb nic "" = false.
Proof.
  intros (Ha & Hs & Hn). unfold getServerNameFromNicPath, getNicNameFromNicPath. rewrite cut_make by done.
  by rewrite (proj2 (String.eqb_neq _ _) Hs), (proj2 (String.eqb_neq _ _) Hn).
Qed.

Section endpoint.
Context (modify_ok : nat -> nat -> bool) (qp_number : nat -> nat -> Z) (strerror : string).
Context (Hmod : forall i k, modify_ok i k = true).

Lemma all_modified n : forallb (modified modify_ok) (seq 0 n) = true.
Proof. apply forallb_forall. intros i _. unfold modified. cbn. by rewrite !Hmod. Qed.

(** Connecting with as many peers as there are queue pairs. *)
Lemma doSetup_done id gid lid peers w e : eps w !! id = Some e -> Good e -> length peers = length (qp_list_ e) ->
  exists msg w', doSetupConnection modify_ok strerror id gid lid peers w = Some ((0, msg, mkPeer gid lid <$> peers), w') /\ connected id w'.
Proof.
  intros He G Hl. destruct (doSetup_eq modify_ok strerror id gid lid peers w e He G) as (rc & msg & l & E & Hrc & Hp).
  rewrite all_modified, Hl, Nat.eqb_refl in *. cbn [andb] in *. rewrite (proj2 Hrc eq_refl), (Hp eq_refl) in E. do 2 eexists. split; [exact E|].
  exists (set_status CONNECTED e). split; [apply lookup_insert_eq|done].
Qed.

Lemma passive_done server nic nicPath by_name d peer_desc local_desc id w e : Names server nic -> eps w !! id = Some e -> Good e ->
  peer_nic_path_ e = Transport.MakeNicPath server nic -> local_nic_path peer_desc = peer_nic_path_ e -> hs_peer_nic_path peer_desc = nicPath ->
  find_nic (by_name server) nic = Some d -> length (qp_num peer_desc) = length (qp_list_ e) ->
  exists w', setupConnectionsByPassive modify_ok qp_number strerror nicPath by_name peer_desc local_desc id w =
    Some ((0, mkHandShake nicPath (peer_nic_path_ e) (numbers qp_number id (length (qp_list_ e))) (reply_msg local_desc),
      mkPeer (Transport.d_gid d) (Transport.d_lid d) <$> qp_num peer_desc), w') /\ connected id w'.
Proof.
  intros HN He G Hp Hlp Hpp Hd Hl. destruct (names_parts _ _ HN) as (Es & En & Eb). unfold setupConnectionsByPassive.
  rewrite (bind_Some _ _ w e w) by (unfold ep_get; by rewrite He).
  assert (Hdis : exists w1 e1, when (bool_decide (status_ e = CONNECTED)) (disconnectUnlocked id) w = Some (tt, w1) /\ eps w1 !! id = Some e1 /\ Good e1 /\
    length (qp_list_ e1) = length (qp_list_ e) /\ peer_nic_path_ e1 = peer_nic_path_ e).
  { destruct (bool_decide _); [|by exists w, e]. cbn [when]. destruct (runs_elim _ _ _ (disconnectUnlocked_full id w e He G)) as ([] & w1 & E & Hc).
    destruct (changed_get _ _ _ _ Hc) as (e1 & He1 & G1 & _ & L1 & P1). by exists w1, e1. }
  destruct Hdis as (w1 & e1 & E1 & He1 & G1 & L1 & P1). rewrite (bind_Some _ _ _ _ _ E1). rewrite (bind_Some _ _ w1 e1 w1) by (unfold ep_get; by rewrite He1).
  rewrite P1, Hlp, Hpp, !String.eqb_refl. cbn [negb orb]. rewrite Hp, Es, En, Eb. rewrite (bind_Some _ _ _ _ _ (qpNum_eq qp_number id w1 e1 He1 G1)). rewrite Hd.
  destruct (doSetup_done id (Transport.d_gid d) (Transport.d_lid d) (qp_num peer_desc) w1 e1 He1 G1 ltac:(lia)) as (msg & w2 & E2 & Hc2).
  rewrite (bind_Some _ _ _ _ _ E2). exists w2. rewrite L1. cbn. by split.
Qed.

Lemma active_done server nic nicPath name local send by_name d n id w e : Names server nic -> eps w !! id = Some e -> Good e -> status_ e <> CONNECTED ->
  peer_nic_path_ e = Transport.MakeNicPath server nic -> nicPath <> peer_nic_path_ e ->
  send server (mkHandShake nicPath (peer_nic_path_ e) (numbers qp_number id (length (qp_list_ e))) "") = (0, mkHandShake (peer_nic_path_ e) nicPath n "") ->
  find_nic (by_name server) nic = Some d -> length n = length (qp_list_ e) ->
  exists w', setupConnectionsByActive modify_ok qp_number strerror nicPath name local send by_name id w =
    Some ((0, mkPeer (Transport.d_gid d) (Transport.d_lid d) <$> n), w') /\ connected id w'.
Proof.
  intros HN He G Hs Hp Hne Hsend Hd Hl. destruct (names_parts _ _ HN) as (Es & En & Eb). unfold setupConnectionsByActive.
  rewrite (bind_Some _ _ w e w) by (unfold ep_get; by rewrite He). rewrite bool_decide_eq_false_2 by done. rewrite (proj2 (String.eqb_neq _ _) Hne).
  rewrite (bind_Some _ _ _ _ _ (qpNum_eq qp_number id w e He G)). rewrite Hp in Hsend |- *. rewrite Es, En, Eb, Hsend. cbn [reply_msg local_nic_path hs_peer_nic_path].
  rewrite !String.eqb_refl. cbn [negb orb Z.eqb]. rewrite Hd.
  destruct (doSetup_done id (Transport.d_gid d) (Transport.d_lid d) n w e He G ltac:(lia)) as (msg & w2 & E2 & Hc2).
  cbn [qp_num]. rewrite (bind_Some _ _ _ _ _ E2). by exists w2.
Qed.

End endpoint.

(** ** The exchange *)

Section exchange.
Context {J : Type} `{!Topology.JsonLib J} `{!JsonValues J} `{!Topology.JsonLaws J} `{!JsonValueLaws J}.
Context (isValidIpV6 : string -> bool) (default_port : Z) (sv : Metadata.Services (J := J)) (m : Metadata.TransferMetadata) (location : Metadata.RpcMetaDesc).
(** The active side [a] and the passive side [b]. *)
Context (srv_a nic_a srv_b nic_b : string).
Abbreviation path_a := (Transport.MakeNicPath srv_a nic_a).
Abbreviation path_b := (Transport.MakeNicPath srv_b nic_b).
Context (numbers_a numbers_b : nat -> nat -> Z) (modify_a modify_b : nat -> nat -> bool) (err_a err_b : string).
Context (known_a known_b : string -> option Transport.SegmentDesc) (dev_a dev_b : Transport.DeviceDesc) (local_a : option Transport.SegmentDesc).
Context (id_a : nat) (w_a : World) (e_a : RdmaEndPoint).
Context (cfg : Worker.GlobalConfig) (create_ok destroy_ok : nat -> nat -> bool) (held : nat -> bool) (now : Z) (new_cq : nat).
Context (hca_list : list string) (index : nat) (s_b : Rdma.Engine) (x_b : Worker.RdmaContext).
Context (id_b : nat) (store_b : EndpointStore.SIEVE) (w_b : World) (e_b : RdmaEndPoint).

(** The endpoint of [a] waits for its connection; [b] has the device, and its
    context finds or makes the endpoint for [a]; each knows the address of the
    other; the queue pairs can be changed and are equally many. *)
Record Meeting : Prop := {
  mt_name_a : Names srv_a nic_a;
  mt_name_b : Names srv_b nic_b;
  mt_apart : path_a <> path_b;
  mt_ep_a : eps w_a !! id_a = Some e_a /\ Good e_a /\ status_ e_a <> CONNECTED /\ peer_nic_path_ e_a = path_b;
  mt_located : Metadata.getRpcMetaEntry isValidIpV6 default_port sv srv_b (Metadata.mkRpcMeta "" 0 0) m = Some ((0, location), m);
  mt_device_b : list_find (fun entry => entry = nic_b) hca_list = Some (index, nic_b) /\
    Rdma.context_list_ s_b !! index = Some x_b /\ Worker.device_name_ x_b = nic_b;
  mt_ep_b : EndpointStore.context_endpoint create_ok destroy_ok held (Worker.ctx_active x_b) now new_cq (Worker.num_qp_per_ep cfg) (Worker.max_wr cfg) path_a
      (Worker.endpoint_store_ x_b, Worker.world x_b) = Some (Some id_b, (store_b, w_b)) /\
    eps w_b !! id_b = Some e_b /\ Good e_b /\ peer_nic_path_ e_b = path_a;
  mt_known : find_nic (known_a srv_b) nic_b = Some dev_b /\ find_nic (known_b srv_a) nic_a = Some dev_a;
  mt_modify : forall i k, modify_a i k = true /\ modify_b i k = true;
  mt_count : length (qp_list_ e_a) = length (qp_list_ e_b);
  mt_numbers : forall id i, 0 <= numbers_a id i < 2 ^ 32 /\ 0 <= numbers_b id i < 2 ^ 32;
}.

Definition sent_a : HandShakeDesc := mkHandShake path_a path_b (numbers numbers_a id_a (length (qp_list_ e_a))) "".
Definition sent_b : HandShakeDesc := mkHandShake path_b path_a (numbers numbers_b id_b (length (qp_list_ e_b))) "".

Abbreviation on_setup := (Rdma.onSetupRdmaConnections cfg srv_b create_ok destroy_ok held now new_cq modify_b numbers_b err_b known_b hca_list).

Lemma numbers_range f id n : (forall id i, 0 <= f id i < 2 ^ 32) -> Forall (fun x => 0 <= x < 2 ^ 32) (numbers f id n).
Proof. intros Hf. unfold numbers. apply Forall_fmap, list.Forall_forall. intros i _. cbn. apply Hf. Qed.

Lemma on_setup_eq : Meeting -> exists w', setupConnectionsByPassive modify_b numbers_b err_b path_b known_b sent_a empty_handshake id_b w_b =
    Some ((0, sent_b, mkPeer (Transport.d_gid dev_a) (Transport.d_lid dev_a) <$> qp_num sent_a), w') /\ connected id_b w' /\
  on_setup sent_a empty_handshake s_b = Some ((0, sent_b), Rdma.mkEngine (Rdma.e_mem s_b)
    (<[index := Worker.mkContext nic_b (Worker.ctx_active x_b) (Worker.cqCount x_b) (Worker.worker_pool_ x_b) store_b w']> (Rdma.context_list_ s_b)) (Rdma.e_failed s_b)).
Proof.
  intros [Ha Hb Hne (He & G & Hs & Hp) Hloc (Hf & Hx & Hdev) (Hep & Heb & Gb & Hpb) (_ & Hka) Hm Hc Hn].
  destruct (passive_done modify_b numbers_b err_b (fun i k => proj2 (Hm i k)) srv_a nic_a path_b known_b dev_a sent_a empty_handshake id_b w_b e_b Ha Heb Gb Hpb)
    as (w' & E & Hcon); [by rewrite Hpb|done|done|unfold sent_a, numbers; cbn; by rewrite length_fmap, length_seq|].
  rewrite Hpb in E. exists w'. split; [exact E|]. split; [done|]. unfold Rdma.onSetupRdmaConnections. cbn [hs_peer_nic_path sent_a].
  destruct (names_parts _ _ Hb) as (_ & En & _). rewrite En, (proj2 (String.eqb_neq nic_b "") (proj2 (proj2 Hb))), Hf. unfold Rdma.on_context. rewrite Hx.
  unfold Rdma.connect_peer, bind at 1, gets at 1. unfold bind at 1, gets at 1. cbn [Worker.ctx]. unfold bind at 1, Worker.on_store at 1. cbn [Worker.ctx local_nic_path sent_a]. rewrite Hep.
  unfold Worker.on_eps, Worker.on_store, EndpointStore.on_world. cbn [Worker.ctx Worker.world Worker.endpoint_store_ snd fst]. rewrite Hdev. unfold bind at 1. by rewrite E.
Qed.

(** What a message of the active side brings back: it travels as JSON to the
    daemon of [b], whose answer travels back.  (Both matches only pick the
    answers; the runs are defined.) *)
Definition wire_to_b (_ : string) (_ : Z) (msg : J) : Z * J :=
  match Metadata.on_connection on_setup msg s_b with Some ((_, reply), _) => (0, reply) | None => (0, nullValue) end.
Definition exchange (server : string) (local : HandShakeDesc) : Z * HandShakeDesc :=
  match Metadata.sendHandshake isValidIpV6 default_port sv wire_to_b server local m with
  | Some (answer, _) => answer
  | None => (0, empty_handshake)
  end.

(** C13: an endpoint that is not connected connects through the whole exchange:
    the active side makes its own description and sends it as JSON to the
    daemon of the other side, which finds or makes the endpoint, connects it
    and answers; the active side takes over the answer.  Both calls answer 0,
    both endpoints are connected, and each queue pair of one side is pointed
    at the queue pair of the same place on the other side, by the number, gid
    and lid that side has.  Conditions: the server names have no @ and neither
    names nor devices are empty, the two NIC paths differ, each side has the
    other's device in its metadata, the active side knows the address of the
    other, the passive side has the device and its context finds or makes the
    endpoint, both have equally many queue pairs, every change of their state
    succeeds, and their numbers fit in 32 bits. *)
Theorem handshake_pairs : Meeting ->
  exists reply s_b' w_b' w_a',
    Metadata.on_connection on_setup (Metadata.handshake_encode sent_a) s_b = Some ((0, reply), s_b') /\
    Metadata.sendHandshake isValidIpV6 default_port sv wire_to_b srv_b sent_a m = Some ((0, sent_b), m) /\
    setupConnectionsByActive modify_a numbers_a err_a path_a nic_a local_a exchange known_a id_a w_a =
      Some ((0, mkPeer (Transport.d_gid dev_b) (Transport.d_lid dev_b) <$> qp_num sent_b), w_a') /\
    setupConnectionsByPassive modify_b numbers_b err_b path_b known_b sent_a empty_handshake id_b w_b =
      Some ((0, sent_b, mkPeer (Transport.d_gid dev_a) (Transport.d_lid dev_a) <$> qp_num sent_a), w_b') /\
    (Worker.world <$> Rdma.context_list_ s_b' !! index) = Some w_b' /\ connected id_b w_b' /\ connected id_a w_a'.
Proof.
  intros M. destruct (on_setup_eq M) as (w_b' & Ep & Hcb & Eo). destruct M as [Ha Hb Hne (He & G & Hs & Hp) Hloc (Hf & Hx & Hdev) (Hep & Heb & Gb & Hpb) (Hkb & _) Hm Hc Hn].
  eassert (Ed : Metadata.on_connection on_setup (Metadata.handshake_encode sent_a : J) s_b = Some ((0, Metadata.handshake_encode sent_b), _)).
  { unfold Metadata.on_connection. unfold bind at 1, lift. rewrite MetaProofs.handshake_back by (apply numbers_range; intros; apply Hn).
    unfold bind at 1. rewrite Eo. reflexivity. }
  assert (Es : Metadata.sendHandshake isValidIpV6 default_port sv wire_to_b srv_b sent_a m = Some ((0, sent_b), m)).
  { unfold Metadata.sendHandshake. rewrite (bind_Some _ _ _ _ _ Hloc). cbn [fst snd Z.eqb negb]. unfold wire_to_b. rewrite Ed. unfold bind, lift. cbn [Z.eqb negb].
    rewrite MetaProofs.handshake_back by (apply numbers_range; intros; apply Hn). done. }
  destruct (active_done modify_a numbers_a err_a (fun i k => proj1 (Hm i k)) srv_b nic_b path_a nic_a local_a exchange known_a dev_b (qp_num sent_b) id_a w_a e_a Hb He G Hs Hp)
    as (w_a' & Ea & Hca); [by rewrite Hp|unfold exchange; rewrite Hp; fold sent_a; by rewrite Es|done|unfold sent_b, numbers; cbn; by rewrite length_fmap, length_seq|].
  exists (Metadata.handshake_encode sent_b). do 3 eexists. split_and!; [exact Ed|exact Es|exact Ea|exact Ep| |done|done].
  cbn. rewrite list_lookup_insert_eq by (by eapply lookup_lt_Some). done.
Qed.

(** A peer that refuses says why in its description, but the daemon answers
    without it: the caller sees an empty description and refuses in turn. *)
Lemma refusal_reason_lost {S} (handler : HandShakeDesc -> HandShakeDesc -> ST S (Z * HandShakeDesc)) (s s' : S) d rc reason :
  Forall (fun n => 0 <= n < 2 ^ 32) (qp_num d) -> rc <> 0 -> handler d empty_handshake s = Some ((rc, reason), s') ->
  Metadata.getRpcMetaEntry isValidIpV6 default_port sv srv_b (Metadata.mkRpcMeta "" 0 0) m = Some ((0, location), m) ->
  Metadata.on_connection handler (Metadata.handshake_encode d) s = Some ((rc, nullValue : J), s') /\
  Metadata.sendHandshake isValidIpV6 default_port sv (fun _ _ _ => (0, nullValue : J)) srv_b d m = Some ((0, empty_handshake), m).
Proof.
  intros Hq Hrc Hh Hl. split.
  - unfold Metadata.on_connection. unfold bind at 1, lift. rewrite MetaProofs.handshake_back by done. rewrite (bind_Some _ _ _ _ _ Hh). cbn [fst].
    by rewrite (proj2 (Z.eqb_neq rc 0) Hrc).
  - unfold Metadata.sendHandshake. rewrite (bind_Some _ _ _ _ _ Hl). cbn [fst snd Z.eqb negb]. unfold bind, lift. by rewrite MetaProofs.handshake_null.
Qed.

End exchange.

(** ** Two servers that have not met *)

Import TopoJson MetaProps.

Definition number_a0 (id i : nat) : Z := (17 + Z.of_nat i) mod 2 ^ 24.
Definition number_b0 (id i : nat) : Z := (40 + Z.of_nat i) mod 2 ^ 24.
Definition server0 (nic gid : string) (lid : Z) : Transport.SegmentDesc :=
  Transport.mkSegmentDesc "" "rdma" [Transport.mkDeviceDesc nic lid gid] Topology.empty_topology [] [] "" 0 "" Transport.new_rank_info 0.
Definition known0 (name : string) : option Transport.SegmentDesc :=
  Some (if String.eqb name "b" then server0 "mlx5_0" "gid_b" 2 else server0 "mlx5_0" "gid_a" 1).
Definition meta0 : Metadata.TransferMetadata := Metadata.set_rpc {["b"%string := Metadata.mkRpcMeta "10.0.0.2" 12001 0]} (Metadata.new_metadata false).

Definition find0 (path : string) : option (option nat * (EndpointStore.SIEVE * World)) :=
  EndpointStore.context_endpoint (fun _ _ => true) (fun _ _ => true) (fun _ => false) true 0 0 2 256 path (EndpointStore.new_sieve 4, EndpointStore.empty_world).
Definition cfg2 : Worker.GlobalConfig := Worker.mkGlobalConfig 1 65536 2 16384 256 2 4096 0 false.
Definition context0 : Worker.RdmaContext := WkSys.new_context cfg2 "mlx5_0" 1 4.
Definition engine0 : Rdma.Engine := Rdma.mkEngine (Transport.mkMem ∅ 0 ∅ 0 ∅ 0 ∅) [context0] ∅.
Definition fresh0 (path : string) : RdmaEndPoint := mkEp UNCONNECTED [QLive; QLive] path (Some [Some 0; Some 0]) 256 true 0 0.
Definition after0 (path : string) : EndpointStore.SIEVE * World := match find0 path with Some (_, p) => p | None => (EndpointStore.new_sieve 4, EndpointStore.empty_world) end.

Lemma fresh0_good path : Good (fresh0 path).
Proof. exists [0; 0]. split; [done|done|]. intros [|[|j]] Hj; cbn in *; [done|done|lia]. Qed.

Definition exchange0 : string -> HandShakeDesc -> Z * HandShakeDesc :=
  exchange (J := tree) nov6 12001 services0 meta0 "b" number_b0 (fun _ _ => true) "" known0 cfg2 (fun _ _ => true) (fun _ _ => true) (fun _ => false) 0 0%nat
    ["mlx5_0"%string] engine0.

Lemma handshake_pairs_witness : exists reply s_b' w_a',
  Metadata.on_connection (Rdma.onSetupRdmaConnections cfg2 "b" (fun _ _ => true) (fun _ _ => true) (fun _ => false) 0 0 (fun _ _ => true) number_b0 "" known0 ["mlx5_0"%string])
    (Metadata.handshake_encode (sent_a "a" "mlx5_0" "b" "mlx5_0" number_a0 0 (fresh0 "b@mlx5_0")) : tree) engine0 = Some ((0, reply), s_b') /\
  setupConnectionsByActive (fun _ _ => true) number_a0 "" "a@mlx5_0" "mlx5_0" None exchange0 known0 0 (after0 "b@mlx5_0").2
    = Some ((0, [mkPeer "gid_b" 2 40; mkPeer "gid_b" 2 41]), w_a').
Proof.
  destruct (handshake_pairs nov6 12001 services0 meta0 (Metadata.mkRpcMeta "10.0.0.2" 12001 0) "a" "mlx5_0" "b" "mlx5_0" number_a0 number_b0
    (fun _ _ => true) (fun _ _ => true) "" "" known0 known0 (Transport.mkDeviceDesc "mlx5_0" 1 "gid_a") (Transport.mkDeviceDesc "mlx5_0" 2 "gid_b") None
    0%nat (after0 "b@mlx5_0").2 (fresh0 "b@mlx5_0") cfg2 (fun _ _ => true) (fun _ _ => true) (fun _ => false) 0 0%nat ["mlx5_0"%string] 0%nat engine0 context0
    0%nat (after0 "a@mlx5_0").1 (after0 "a@mlx5_0").2 (fresh0 "a@mlx5_0")) as (reply & s_b' & w_b' & w_a' & E & _ & Ea & _).
  - split.
    + split; [cbn; set_solver|done].
    + split; [cbn; set_solver|done].
    + done.
    + split_and!; [by vm_compute|apply fresh0_good|done|done].
    + by vm_compute.
    + split_and!; by vm_compute.
    + split_and!; [by vm_compute|by vm_compute|apply fresh0_good|done].
    + by vm_compute.
    + done.
    + done.
    + intros id i. unfold number_a0, number_b0. pose proof (Z.mod_pos_bound (17 + Z.of_nat i) (2 ^ 24)). pose proof (Z.mod_pos_bound (40 + Z.of_nat i) (2 ^ 24)). lia.
  - exists reply, s_b', w_a'. split; [exact E|exact Ea].
Defined.

End HsProps.
