(* ===== verification/RdmaProps.v ===== *)
(** * RdmaProps: a request is cut into slices that tile it *)

From Stdlib Require Import ZArith Lia.
From stdpp Require Import base list gmap strings numbers list_tactics.
From S2P Require Import Prelude Topology TopologyProofs TopologyProps Transport TransportProofs Worker WorkerInv WorkerSys WorkerProps Rdma.
Import Transport TrProofs Worker WkQueues Rdma SliceCache.

Open Scope moon_scope.
Open Scope Z_scope.

Module RdmaProps.

Lemma mem_of_runs {A} (c : M A) e Q : runs c (e_mem e) (fun a m => Q a (mkEngine m (context_list_ e) (e_failed e))) -> runs (mem_of c) e Q.
Proof. unfold runs, mem_of. by destruct (c (e_mem e)) as [[a m]|]. Qed.

Lemma engine_slice_runs {B} e s x (k : Slice -> E B) Q : slices (e_mem e) !! s = Some x -> runs (k x) e Q -> runs (bind (mem_of (slice_get s)) k) e Q.
Proof. intros Hx H. apply runs_bind, mem_of_runs. apply (runs_eq _ _ x (e_mem e)); [unfold slice_get; by rewrite Hx|]. by destruct e. Qed.

Definition with_slices (e : Engine) (x : gmap nat Slice) : Engine := mkEngine (set_slices x (e_mem e)) (context_list_ e) (e_failed e).
Definition with_task (e : Engine) (t : nat) (x : TransferTask) : Engine := mkEngine (set_tasks (<[t := x]> (tasks (e_mem e))) (e_mem e)) (context_list_ e) (e_failed e).

Lemma slice_upd_runs {B} e s x f (k : unit -> E B) Q : slices (e_mem e) !! s = Some x -> runs (k tt) (with_slices e (<[s := f x]> (slices (e_mem e)))) Q ->
  runs (bind (mem_of (slice_upd f s)) k) e Q.
Proof. intros Hx H. apply runs_bind, mem_of_runs. unfold runs, slice_upd, bind, slice_get. by rewrite Hx. Qed.

Lemma task_upd_runs {B} e t x f (k : unit -> E B) Q : tasks (e_mem e) !! t = Some x -> runs (k tt) (with_task e t (f x)) Q -> runs (bind (mem_of (task_upd f t)) k) e Q.
Proof. intros Hx H. apply runs_bind, mem_of_runs. unfold runs, task_upd, bind, task_get. by rewrite Hx. Qed.

(** Pieces from [off] up to [len], of [size] bytes but for the last, which takes
    up a remainder of at most [frag] bytes. *)
Fixpoint tiles (size frag off len : Z) (ps : list (Z * Z)) : Prop :=
  match ps with
  | [] => off = len
  | (o, n) :: ps => o = off /\ 0 < n <= size + frag /\ (ps <> [] -> n = size) /\ tiles size frag (off + n) len ps
  end.

Lemma tiles_sum size frag ps : forall off len, tiles size frag off len ps -> foldr (fun p n => p.2 + n) 0 ps = len - off.
Proof. induction ps as [|[o n] ps IH]; intros off len; cbn; [lia|]. intros (_ & _ & _ & H). rewrite (IH _ _ H). lia. Qed.

Section submit.
Context (cfg : GlobalConfig) (local : option SegmentDesc) (rand : nat -> Z -> nat -> bool -> Z).
Context (args : nat -> nat -> SubmitArgs) (iter : Posts -> list (nat * list nat)) (th : nat).
Context (Hsize : 0 < slice_size cfg) (Hfrag : 0 <= fragment_limit cfg) (Hsum : slice_size cfg + fragment_limit cfg < 2 ^ 64).
Context (Hcnt : cf_retry_cnt cfg <= 2 ^ 31) (Hiter : forall p, iter p ≡ₚ map_to_list p).
(** The contexts, one for each device of the local segment. *)
Context (cs : list RdmaContext) (Hlocal : forall d, local = Some d -> DescOk d /\ length cs = length (sd_devices d)).

(** ** A device for a slice *)

(** Slice [y] may be posted to context [i]: the context is active, and the key
    is that of a local buffer that holds the source. *)
Definition Suits (i : nat) (y : Slice) : Prop :=
  exists c d b, cs !! i = Some c /\ ctx_active c = true /\ local = Some d /\ b ∈ sd_buffers d /\
    covers b (source_addr y) (sl_length y) = true /\ b_lkey b !! i = Some (source_lkey y).

(** Every selection for the range finds a device. *)
Definition Served (addr length : Z) : Prop := forall rnd bi di r, - 2 ^ 31 < r < 2 ^ 31 ->
  exists bi' di', selectDevice rnd local addr length "" bi di r = Some (0, bi', di').
Definition AllActive : Prop := Forall (fun c => ctx_active c = true) cs.

Lemma find_device_ok fuel : forall s bi di retry e x, (attempts cfg retry <= fuel)%nat -> - 2 ^ 31 < retry -> slices (e_mem e) !! s = Some x -> context_list_ e = cs ->
  runs (find_device cfg local rand fuel s bi di retry) e (fun r e' =>
    match r.2 with
    | None => e' = e /\ (retry < cf_retry_cnt cfg -> AllActive -> ~ Served (source_addr x) (sl_length x))
    | Some i => exists lk, e' = with_slices e (<[s := set_source_lkey lk x]> (slices (e_mem e))) /\ Suits i (set_source_lkey lk x)
    end).
Proof.
  induction fuel as [|fuel IH]; intros s bi di retry e x Hf Hr Hx Hcs; unfold attempts in *; cbn [find_device];
    destruct (Z.ltb_spec retry (cf_retry_cnt cfg)) as [Hlt|]; try (apply runs_ret; split; [done|lia]); [lia|].
  assert (Hnext : forall bi' di', (AllActive -> ~ Served (source_addr x) (sl_length x)) -> runs (find_device cfg local rand fuel s bi' di' (retry + 1)) e (fun r e' =>
    match r.2 with
    | None => e' = e /\ (retry < cf_retry_cnt cfg -> AllActive -> ~ Served (source_addr x) (sl_length x))
    | Some i => exists lk, e' = with_slices e (<[s := set_source_lkey lk x]> (slices (e_mem e))) /\ Suits i (set_source_lkey lk x)
    end)).
  { intros bi' di' Hno. eapply runs_mono; [apply (IH s bi' di' (retry + 1) e x); [lia|lia|done|done]|]. intros [di2 [i|]] e' He'; cbn in *; [done|]. by destruct He' as [-> _]. }
  apply (engine_slice_runs e s x _ _ Hx).
  destruct (selectDevice_ok (rand s retry) local (source_addr x) (sl_length x) "" bi di retry) as (rc & bi' & di' & E & _ & Hsel); [intros d Hd; by apply Hlocal|lia|].
  apply (runs_lift _ _ _ _ _ E). destruct (Z.eqb_spec rc 0) as [->|Hne]; cbn [negb].
  2: { apply Hnext. intros _ HS. destruct (HS (rand s retry) bi di retry ltac:(lia)) as (? & ? & E'). rewrite E in E'. by injection E'. }
  destruct (Hsel eq_refl) as (d & Hd & b & rk & lk & dev & Hb & Hc & _ & Hlk & Hdev). destruct (Hlocal d Hd) as [_ Hlen].
  apply runs_gets. rewrite Hcs. destruct (aget_range cs di') as [c Hci]; [rewrite Hlen; by eapply aget_Some_range|]. apply (runs_lift _ _ _ _ _ Hci).
  destruct (ctx_active c) eqn:Ea; cbn [negb].
  2: { apply Hnext. intros HA. unfold AllActive in HA. rewrite list.Forall_forall in HA. by rewrite (HA c ltac:(by eapply aget_elem)) in Ea. }
  rewrite Hd. apply (runs_lift _ _ _ _ _ eq_refl), (runs_lift _ _ _ _ _ Hb), (runs_lift _ _ _ _ _ Hlk), (slice_upd_runs e s x _ _ _ Hx), runs_ret. cbn [snd].
  exists lk. split; [done|]. exists c, d, b. unfold aget in Hci, Hlk. destruct (0 <=? di'); [|done]. split_and!; try done. by eapply aget_elem.
Qed.

(** ** The slices a task has, and those waiting for reuse *)

Record Owns (e : Engine) (l : list nat) (t : nat) (x : TransferTask) : Prop := {
  ow_cache : Cached th l (e_mem e);
  ow_once : NoDup (slice_list x ++ l);
  ow_live : forall s, s ∈ slice_list x ++ l -> is_Some (slices (e_mem e) !! s);
  ow_next : forall s, is_Some (slices (e_mem e) !! s) -> (s < next_slice (e_mem e))%nat;
  ow_task : tasks (e_mem e) !! t = Some x;
  ow_contexts : context_list_ e = cs;
}.

(** A slice is taken: it is no slice of the task. *)
Lemma take_ok e l t x : Owns e l t x -> runs (mem_of (cache_allocate th)) e (fun s e' => exists y, (s ∉ slice_list x) /\ (s ∈ l \/ slices (e_mem e) !! s = None) /\
  slices (e_mem e') = <[s := y]> (slices (e_mem e)) /\ Owns e' (tail l) t x /\ s ∉ tail l).
Proof.
  intros [C ND L N T K]. apply mem_of_runs. destruct l as [|s l].
  - destruct (allocate_new th (e_mem e) C) as (m' & E & C' & T' & S' & N'). apply (runs_eq _ _ _ _ _ E). exists new_slice. cbn.
    assert (Hs : next_slice (e_mem e) ∉ slice_list x).
    { intros Hin. pose proof (N _ (L _ ltac:(apply elem_of_app; by left))). lia. }
    split_and!; [done| |done| |by intros ?%elem_of_nil].
    { right. apply eq_None_not_Some. intros Hl%N. lia. }
    split; cbn; try done.
    + intros s Hin. rewrite S', lookup_insert. case_decide; [by eexists|by apply L].
    + intros s. rewrite S', N', lookup_insert. case_decide; [lia|]. intros Hs'. pose proof (N s Hs'). lia.
    + by rewrite T'.
  - destruct (L s) as [y Hy]; [apply elem_of_app; right; by left|].
    destruct (allocate_reused th s l (e_mem e) y C Hy) as (m' & E & C' & T' & S' & N'). apply (runs_eq _ _ _ _ _ E). exists (set_from_cache true y). cbn.
    rewrite <- Permutation_middle in ND. apply list.NoDup_cons in ND as [Hs ND]. rewrite not_elem_of_app in Hs. destruct Hs as [Hs1 Hs2].
    split_and!; [done|left; by left|done| |done]. split; cbn; try done.
    + intros s' Hin. rewrite S', lookup_insert. case_decide; [by eexists|]. apply L. rewrite elem_of_app in *. destruct Hin; [by left|right; by right].
    + intros s'. rewrite S', N', lookup_insert. case_decide; [subst; intros _; apply N; by eexists|apply N].
    + by rewrite T'.
Qed.

Lemma owns_slice e l t x s y : Owns e l t x -> is_Some (slices (e_mem e) !! s) -> Owns (with_slices e (<[s := y]> (slices (e_mem e)))) l t x.
Proof.
  intros [C ND L N T K] Hs. split; cbn; try done.
  - intros s' Hin. rewrite lookup_insert. case_decide; [by eexists|by apply L].
  - intros s'. rewrite lookup_insert. case_decide; [subst; intros _; by apply N|apply N].
Qed.

Lemma owns_add e l t x s : Owns e l t x -> s ∉ slice_list x -> s ∉ l -> is_Some (slices (e_mem e) !! s) -> Owns (with_task e t (add_slice s x)) l t (add_slice s x).
Proof.
  intros [C ND L N T K] Hs1 Hs2 Hs. split; cbn; try done.
  - rewrite <- app_assoc. cbn [app]. rewrite <- Permutation_middle. apply list.NoDup_cons. split; [|done]. by apply not_elem_of_app.
  - intros s' Hin. rewrite <- app_assoc in Hin. cbn [app] in Hin. rewrite elem_of_app, elem_of_cons in Hin. destruct Hin as [?|[->|?]]; [apply L, elem_of_app; by left|done|apply L, elem_of_app; by right].
  - by rewrite lookup_insert_eq.
Qed.

Lemma owns_posted e l t x n : Owns e l t x -> Owns (with_task e t (add_posted n x)) l t (add_posted n x).
Proof. intros [C ND L N T K]. split; cbn; try done. by rewrite lookup_insert_eq. Qed.

(** Slices to post: they exist and do not wait for reuse. *)
Definition Pending (e : Engine) (l : list nat) (posts : Posts) : Prop :=
  NoDup (qlist posts) /\ forall s, s ∈ qlist posts -> is_Some (slices (e_mem e) !! s) /\ s ∉ l.

Lemma post_slice_list i s posts : qlist (post_slice i s posts) ≡ₚ s :: qlist posts.
Proof. unfold post_slice. fold (at_peer posts i). rewrite qlist_insert, (qlist_split posts i). solve_Permutation. Qed.

Lemma give_back_ok ss : forall e l, Cached th l (e_mem e) -> NoDup ss -> (forall s, s ∈ ss -> is_Some (slices (e_mem e) !! s)) ->
  runs (each (fun s => mem_of (cache_deallocate th s)) ss) e (fun _ e' => tasks (e_mem e') = tasks (e_mem e) /\ context_list_ e' = context_list_ e).
Proof.
  induction ss as [|s ss IH]; intros e l C ND L; cbn [each]; [by apply runs_ret|]. apply list.NoDup_cons in ND as [Hs ND]. apply runs_bind, mem_of_runs.
  destruct (deallocate_eq th l (e_mem e) s C (L s ltac:(by left))) as (m' & E & T' & _ & H). apply (runs_eq _ _ _ _ _ E).
  assert (H' : exists l', Cached th l' m' /\ forall s', s' ∈ ss -> is_Some (slices m' !! s')).
  { destruct (_ =? _); destruct H as [C' S']; eexists; (split; [exact C'|]); rewrite S'; intros s' Hs'; [rewrite lookup_delete_ne by (intros ->; done)|]; apply L; by right. }
  destruct H' as (l' & C' & L'). eapply runs_mono; [apply (IH (mkEngine m' (context_list_ e) (e_failed e)) l'); done|]. intros [] e' [Et Ec]. cbn in *. by rewrite Et, Ec.
Qed.

(** ** Cutting a request *)

Context (rq : TransferRequest) (t : nat).
Abbreviation L := (rq_length rq).

(** What the slice of piece [p] transfers. *)
Definition Piece (p : Z * Z) (y : Slice) : Prop :=
  source_addr y = u64 (rq_source rq + p.1) /\ sl_length y = p.2 /\ dest_addr y = u64 (rq_target_offset rq + p.1) /\
  sl_opcode y = rq_opcode rq /\ sl_target_id y = rq_target_id rq /\ sl_task y = t /\ sl_status y = SlicePending.

(** Slices [ss] of the task are the pieces from [off] on, each to be posted. *)
Record Tiled (e e' : Engine) (off : Z) (x x' : TransferTask) (posts posts' : Posts) (ss : list nat) (ps : list (Z * Z)) : Prop := {
  td_tiles : tiles (slice_size cfg) (fragment_limit cfg) off L ps;
  td_pieces : Forall2 (fun s p => exists y i, slices (e_mem e') !! s = Some y /\ Piece p y /\ Suits i y /\ s ∈ at_peer posts' i) ss ps;
  td_slices : slice_list x' = slice_list x ++ ss;
  td_count : slice_count x' = u64 (slice_count x + Z.of_nat (length ss));
  td_bytes : total_bytes x' = u64 (total_bytes x + (L - off));
  td_done : success_slice_count x' = success_slice_count x /\ failed_slice_count x' = failed_slice_count x /\ transferred_bytes x' = transferred_bytes x;
  td_posts : qlist posts' ≡ₚ ss ++ qlist posts;
  td_kept : forall i s, s ∈ at_peer posts i -> s ∈ at_peer posts' i;
  td_others : forall s, s ∉ ss -> slices (e_mem e') !! s = slices (e_mem e) !! s;
}.

Definition Sized (x : TransferTask) : Prop := 0 <= slice_count x < 2 ^ 64 /\ 0 <= total_bytes x < 2 ^ 64.

Lemma tiled_nil e x posts : Sized x -> Tiled e e L x x posts posts [] [].
Proof. intros [R1 R2]. split; try done; [by rewrite app_nil_r|cbn [length]; rewrite Z.add_0_r|rewrite Z.sub_diag, Z.add_0_r]; symmetry; by apply u64_small. Qed.

(** The engine after the first piece went to context [i] as slice [s]. *)
Lemma tiled_cons e e1 e' off n s y i x x' posts posts' ss ps : off + n <= L ->
  0 < n <= slice_size cfg + fragment_limit cfg -> (ps <> [] -> n = slice_size cfg) ->
  slices (e_mem e1) !! s = Some y -> (forall s', s' <> s -> slices (e_mem e1) !! s' = slices (e_mem e) !! s') ->
  Piece (off, n) y -> Suits i y -> NoDup (slice_list x') ->
  Tiled e1 e' (off + n) (add_posted n (add_slice s x)) x' (post_slice i s posts) posts' ss ps ->
  Tiled e e' off x x' posts posts' (s :: ss) ((off, n) :: ps).
Proof.
  intros Hn Hr Hl Hy He Hp Hs ND [T P S C B D Q K O]. cbn in S. rewrite <- app_assoc in S. cbn [app] in S.
  assert (Hss : s ∉ ss). { rewrite S, <- Permutation_middle in ND. apply list.NoDup_cons in ND as [ND _]. by rewrite not_elem_of_app in ND; destruct ND. }
  assert (Hi : forall j, at_peer (post_slice i s posts) j = if decide (i = j) then at_peer posts i ++ [s] else at_peer posts j).
  { intros j. unfold at_peer, post_slice. rewrite lookup_insert. by case_decide. }
  split.
  - by cbn.
  - constructor; [|done]. exists y, i. rewrite O by done. split_and!; try done. apply K. rewrite Hi, decide_True by done. apply elem_of_app. right. by left.
  - done.
  - rewrite C. cbn [slice_count add_posted add_slice length]. rewrite u64_add. f_equal. lia.
  - rewrite B. cbn [total_bytes add_posted add_slice]. rewrite u64_add. f_equal. lia.
  - done.
  - rewrite Q, post_slice_list. solve_Permutation.
  - intros j s' Hs'. apply K. rewrite Hi. case_decide; [subst; apply elem_of_app; by left|done].
  - intros s' Hs'. rewrite elem_of_cons in Hs'. rewrite O, He; tauto.
Qed.

Definition watermark : Z := u64 (max_wr cfg * Z.of_nat (num_qp_per_ep cfg)).

(** The answer of a loop that starts at [off]. *)
Definition Answer (e : Engine) (off : Z) (x : TransferTask) (posts : Posts) (k : nat) (r : option (Posts * Z * nat)) (e' : Engine) : Prop :=
  match r with
  | Some (posts', _, k') => k' = k /\ exists ss ps x' l', Tiled e e' off x x' posts posts' ss ps /\ Owns e' l' t x' /\ Pending e' l' posts'
  | None => advise_retry_cnt rq < cf_retry_cnt cfg -> AllActive -> exists o n, off <= o /\ 0 < n /\ o + n <= L /\ ~ Served (u64 (rq_source rq + o)) n
  end.

Lemma submit_slices_ok fuel : forall off posts nr k e l x, 0 <= off <= L -> L < 2 ^ 64 -> - 2 ^ 31 < advise_retry_cnt rq -> (L - off) / slice_size cfg < Z.of_nat fuel ->
  nr + Z.of_nat fuel < watermark -> Owns e l t x -> Pending e l posts -> Sized x ->
  runs (submit_slices cfg local rand args iter th fuel t rq off (posts, nr, k)) e (Answer e off x posts k).
Proof.
  induction fuel as [|fuel IH]; intros off posts nr k e l x Ho HL Ha Hf Hw I HP R; cbn [submit_slices];
    (destruct (Z.ltb_spec off L) as [Hlt|Hge]; [|apply runs_ret; split; [done|]; exists [], [], x, l; replace off with L by lia; split_and!; [by apply tiled_nil|done|done]]).
  { pose proof (Z.div_pos (L - off) (slice_size cfg)). lia. }
  apply runs_bind. eapply runs_mono; [by apply (take_ok e l t x)|]. intros s e1 (y1 & Hs1 & Hs2 & E1 & I1 & Hs3).
  assert (Hy1 : slices (e_mem e1) !! s = Some y1) by (rewrite E1; apply lookup_insert_eq).
  apply (engine_slice_runs e1 s y1 _ _ Hy1). set (nr' := if from_cache y1 then nr else nr + 1). assert (Hnr : nr' <= nr + 1) by (unfold nr'; destruct (from_cache y1); lia). clearbody nr'.
  rewrite (u64_small (slice_size cfg + fragment_limit cfg)) by lia. set (final := L - off <=? slice_size cfg + fragment_limit cfg). set (n := if final then L - off else slice_size cfg).
  assert (Hn : 0 < n <= slice_size cfg + fragment_limit cfg /\ off + n <= L).
  { unfold n, final. destruct (Z.leb_spec (L - off) (slice_size cfg + fragment_limit cfg)); lia. }
  apply (slice_upd_runs e1 s y1 _ _ _ Hy1). set (y2 := fill_slice cfg rq t off n (advise_retry_cnt rq) y1).
  pose proof (owns_slice e1 (tail l) t x s y2 I1 ltac:(by eexists)) as I2. set (e2 := with_slices e1 _) in *.
  apply (task_upd_runs e2 t x _ _ _ (ow_task _ _ _ _ I2)). assert (Hy2 : slices (e_mem e2) !! s = Some y2) by (cbn; apply lookup_insert_eq).
  pose proof (owns_add e2 (tail l) t x s I2 Hs1 Hs3 ltac:(by eexists)) as I3. set (e3 := with_task e2 t (add_slice s x)) in *.
  apply runs_bind. eapply runs_mono; [apply (find_device_ok _ s (-1) (-1) (advise_retry_cnt rq) e3 y2); [lia|done|done|apply I3]|].
  intros [di [i|]] e4 H4; cbn [snd] in *.
  2: { destruct H4 as [-> Hno]. apply runs_bind. eapply runs_mono; [apply (give_back_ok _ e3 (tail l)); [apply I3|..]|].
       - rewrite (iter_qlist iter posts (Hiter posts)). apply HP.
       - intros s'. rewrite (iter_qlist iter posts (Hiter posts)). intros Hs'. destruct HP as [_ HP]. destruct (HP s' Hs') as [H' _]. cbn. rewrite !lookup_insert, E1, lookup_insert. repeat case_decide; [by eexists..|done].
       - intros [] e5 _. apply runs_ret. intros Hadv HA. exists off, n. split_and!; [lia|lia|lia|]. apply (Hno Hadv HA). }
  destruct H4 as (lk & -> & Hsuit). set (y3 := set_source_lkey lk y2) in *.
  pose proof (owns_slice e3 (tail l) t (add_slice s x) s y3 I3 ltac:(by eexists)) as I4. set (e4 := with_slices e3 _) in *.
  apply (task_upd_runs e4 t _ _ _ _ (ow_task _ _ _ _ I4)). pose proof (owns_posted e4 (tail l) t _ n I4) as I5. set (e5 := with_task e4 t _) in *. set (x1 := add_posted n (add_slice s x)) in *.
  assert (Hy3 : slices (e_mem e5) !! s = Some y3) by (cbn; apply lookup_insert_eq).
  assert (He5 : forall s', s' <> s -> slices (e_mem e5) !! s' = slices (e_mem e) !! s').
  { intros s' Hne. cbn. by rewrite !lookup_insert_ne, E1, lookup_insert_ne by done. }
  assert (Hnew : s ∉ qlist posts).
  { intros Hin. destruct HP as [_ HP]. destruct (HP s Hin) as [[z Hz] Hnl]. destruct Hs2 as [?|Hnone]; [done|congruence]. }
  assert (HP5 : Pending e5 (tail l) (post_slice i s posts)).
  { destruct HP as [ND HP]. split; [rewrite post_slice_list; by apply list.NoDup_cons|]. intros s'. rewrite post_slice_list, elem_of_cons. intros [->|Hin]; [split; [by eexists|done]|].
    destruct (HP s' Hin) as [Hl Hnl]. split; [rewrite He5 by (intros ->; done); done|]. intros Ht. apply Hnl. destruct l; [done|by right]. }
  assert (R1 : Sized x1) by (split; apply u64_range).
  assert (Hlow : (watermark <=? nr') = false) by (apply Z.leb_gt; lia). unfold watermark in Hlow. rewrite Hlow. apply runs_ret.
  assert (Hp : Piece (off, n) y3) by done. destruct final eqn:Efin.
  - apply runs_ret. split; [done|]. exists [s], [(off, n)], x1, (tail l). split_and!; [|done|done].
    apply (tiled_cons e e5 e5 off n s y3 i x x1 posts _ [] []); try done; [lia|lia| |].
    + pose proof (ow_once _ _ _ _ I5) as ND. by apply list.NoDup_app in ND as [ND _].
    + replace (off + n) with L by lia. by apply tiled_nil.
  - assert (Hu : u64 (off + slice_size cfg) = off + slice_size cfg) by (apply u64_small; lia). rewrite Hu.
    apply Z.leb_gt in Efin. eapply runs_mono; [apply (IH (off + slice_size cfg) (post_slice i s posts) nr' k e5 (tail l) x1); try done; [lia| |lia]|].
    + replace (L - (off + slice_size cfg)) with (L - off + (-1) * slice_size cfg) by lia. rewrite Z.div_add by lia. lia.
    + intros [[[posts' nr2] k']|] e6; cbn [Answer].
      * intros (-> & ss & ps & x' & l' & HT & I6 & HP6). split; [done|]. exists (s :: ss), ((off, n) :: ps), x', l'. split_and!; [|done|done].
        apply (tiled_cons e e5 e6 off n s y3 i x x' posts posts' ss ps); try done; [lia|lia|].
        pose proof (ow_once _ _ _ _ I6) as ND. by apply list.NoDup_app in ND as [ND _].
      * intros Hno Hadv HA. destruct (Hno Hadv HA) as (o & n' & ? & ? & ? & ?). exists o, n'. split_and!; [lia|done|done|done].
Qed.

(** ** Theorem *)

(** C8: cutting a request of [submitTransferTask] that has fewer slices than the
    submission watermark (more would be posted midway) always ends, within
    [length / slice_size + 1] rounds.  It yields slices that tile the request:
    consecutive pieces of the slice size, the last of them taking up a remainder
    of at most the fragment limit, with source and target addresses to match;
    every slice is new to the task, is to be posted exactly once, to an active
    context, with the key of a local buffer that holds its source; the task
    counts the slices and their bytes; its other counters, what was to be
    posted before and every other slice stay as they are.  Or it refuses the request; when attempts are left for the
    request and all contexts are active, that is only because some piece of it
    is not served by a device.  The slice size is positive and with the fragment
    limit below 2^64, the retry limit at most 2^31; the local segment has a
    device for every name of its topology with keys for each, and one context
    per device; the slices of the task and of the thread's cache are distinct. *)
Theorem request_tiled posts k e l x : 0 <= L < 2 ^ 64 -> - 2 ^ 31 < advise_retry_cnt rq -> Z.of_nat (slices_bound cfg rq) < watermark ->
  Owns e l t x -> Pending e l posts -> Sized x ->
  exists r e', submit_slices cfg local rand args iter th (slices_bound cfg rq) t rq 0 (posts, 0, k) e = Some (r, e') /\
    match r with
    | Some (posts', _, k') => k' = k /\ exists ss ps x', tasks (e_mem e') !! t = Some x' /\ NoDup (slice_list x') /\
        Tiled e e' 0 x x' posts posts' ss ps /\ foldr (fun p n => p.2 + n) 0 ps = L
    | None => advise_retry_cnt rq < cf_retry_cnt cfg -> AllActive -> exists o n, 0 <= o /\ 0 < n /\ o + n <= L /\ ~ Served (u64 (rq_source rq + o)) n
    end.
Proof.
  intros HL Ha Hw I HP R. destruct (runs_elim _ _ _ (submit_slices_ok (slices_bound cfg rq) 0 posts 0 k e l x ltac:(lia) ltac:(lia) Ha ltac:(unfold slices_bound; rewrite Z.sub_0_r;
    pose proof (Z.div_pos L (slice_size cfg)); lia) ltac:(lia) I HP R)) as (r & e' & E & H). exists r, e'. split; [done|].
  destruct r as [[[posts' nr] k']|]; [|done]. destruct H as (-> & ss & ps & x' & l' & HT & I' & _). split; [done|]. exists ss, ps, x'.
  split_and!; [apply I'| |done|rewrite (tiles_sum _ _ ps 0 L (td_tiles _ _ _ _ _ _ _ _ _ HT)); lia].
  pose proof (ow_once _ _ _ _ I') as ND. by apply list.NoDup_app in ND as [ND _].
Qed.

End submit.

(** ** A request of three slices *)

Definition cfg0 : GlobalConfig := WkProps.cfg0.
Definition local0 : SegmentDesc := mkSegmentDesc "local" "rdma" [mkDeviceDesc "mlx5_0" 1 "g0"; mkDeviceDesc "mlx5_1" 2 "g1"] TopoProps.demo
  [mkBufferDesc "cpu:0" 4096 1000000 [1; 2] [3; 4] "" 0] [] "" 0 "" new_rank_info 0.
Definition contexts0 : list RdmaContext := [WkSys.new_context cfg0 "mlx5_0" 1 2; WkSys.new_context cfg0 "mlx5_1" 1 2].
Definition request0 (source length : Z) : TransferRequest := mkRequest WRITE source 7 0 length 0.
Definition engine0 : Engine := mkEngine (mkMem ∅ 0 {[0%nat := new_task]} 1 ∅ 0 ∅) contexts0 ∅.
Definition submit0 (rq : TransferRequest) : option (option (Posts * Z * nat) * Engine) :=
  submit_slices cfg0 (Some local0) (fun _ _ _ _ => 0) (fun _ _ => WkProps.submit0) map_to_list 0 (slices_bound cfg0 rq) 0 rq 0 (∅, 0, 0%nat) engine0.

Lemma local0_ok d : Some local0 = Some d -> DescOk d /\ length contexts0 = length (sd_devices d).
Proof.
  intros [= <-]. split; [|done]. destruct (TopoProps.resolve_fits TopoProps.iter0 TopoProps.iter0_ok TopoProps.two_nodes) as [G HF].
  apply (WkProps.desc_ok local0 G HF); [by vm_compute|]. repeat constructor.
Qed.

Lemma request_tiled_witness : exists st e' ps, submit0 (request0 4096 150000) = Some (Some st, e') /\ tiles 65536 16384 0 150000 ps /\ length ps = 3%nat.
Proof.
  destruct (request_tiled cfg0 (Some local0) (fun _ _ _ _ => 0) (fun _ _ => WkProps.submit0) map_to_list 0%nat ltac:(cbn; lia) ltac:(cbn; lia) ltac:(cbn; lia) ltac:(cbn; lia)
    ltac:(done) contexts0 local0_ok (request0 4096 150000) 0%nat ∅ 0%nat engine0 [] new_task) as (r & e' & E & Hr).
  - cbn. lia.
  - cbn. lia.
  - by vm_compute.
  - split; [apply ring_new|constructor|by intros s ?%elem_of_nil| |done|done]. intros s [y Hy]. cbn in Hy. by rewrite lookup_empty in Hy.
  - split; [constructor|]. intros s Hs. rewrite qlist_empty in Hs. by apply elem_of_nil in Hs.
  - split; cbn; lia.
  - assert (Hs : match submit0 (request0 4096 150000) with
      | Some (Some st, e) => (fun x => length (slice_list x)) <$> tasks (e_mem e) !! 0%nat | _ => None end = Some 3%nat) by (by vm_compute).
    unfold submit0 in Hs. rewrite E in Hs. destruct r as [[[posts nr] k]|]; [|done]. destruct Hr as (_ & ss & ps & x' & Hx & _ & HT & _).
    rewrite Hx in Hs. exists (posts, nr, k), e', ps. split_and!; [exact E|exact (td_tiles _ _ _ _ _ _ _ _ _ _ _ _ _ _ HT)|].
    rewrite <- (Forall2_length _ _ _ (td_pieces _ _ _ _ _ _ _ _ _ _ _ _ _ _ HT)). cbn in Hs. rewrite (td_slices _ _ _ _ _ _ _ _ _ _ _ _ _ _ HT) in Hs. by injection Hs.
Defined.

(** ** What a refused request leaves behind *)

Definition status0 (rq : TransferRequest) : option TransferStatus :=
  match submit0 rq with Some (_, e) => fst <$> task_status 0 (e_mem e) | None => None end.

(** Nothing of the request is in a local buffer: it is refused, and its task
    reports that it is complete. *)
Lemma refused_request_completed : (fst <$> submit0 (request0 0 100)) = Some None /\ status0 (request0 0 100) = Some (mkTransferStatus COMPLETED 0).
Proof. by vm_compute. Qed.

(** Only the end of the request is not in a local buffer: it is refused, its
    task waits for a slice that is never posted, and that slice waits for
    reuse while it is still a slice of the task. *)
Lemma refused_request_waits : let rq := request0 900000 150000 in
  (fst <$> submit0 rq) = Some None /\ status0 rq = Some (mkTransferStatus WAITING 0) /\
  (match submit0 rq with
   | Some (_, e) => (slice_list <$> tasks (e_mem e) !! 0%nat, (fun c => aget (lazy_delete_slices_ c) 0) <$> caches (e_mem e) !! 0%nat)
   | None => (None, None)
   end) = (Some [0%nat; 1%nat], Some (Some (Some 0%nat))).
Proof. by vm_compute. Qed.

End RdmaProps.
